(* ===== verification/_CoqProject ===== *)
-Q . S2P
Prelude.v
Bytes.v
BTreeMap.v
Primitives.v
Canonical.v
Cursor.v
Crypto.v
System.v
Registry.v
StateError.v
Snapshot.v
DomainHeads.v
Rlp.v
Ethereum.v
Mempool.v
Trie.v
Mpt.v
MptBuild.v
Account.v
Overlay.v
Storage.v
Evm.v
Executor.v
Merkle.v
ChainBlock.v
ChainState.v
Chain.v
Typing.v
DevGenesis.v
EngineCheckpoint.v
Engine.v
EngineRestart.v
EngineSteps.v
EngineSelect.v
Protocol.v
Sync.v
SnapshotTransfer.v
SnapshotStage.v
Peer.v
Gossip.v
Service.v
ServiceSafety.v
Node.v
NodeSync.v
SnapshotSync.v
Startup.v
Cli.v
