(* ===== verification/Prelude.v ===== *)
(** * Arbor: a verification development

    Arbor is a multi-domain EVM chain in Rust. One consensus chain finalizes blocks;
    each block carries batches of transactions for several EVM domains; a native
    contract of the root domain creates further domains. This library models the
    crates that decide what is finalized, executed, stored and exchanged, from byte
    codecs up to the development consensus engine, and proves what makes them correct.

    ** How the code is represented

    A Rust function is a Rocq function. [outcome] (this file) is what a call returns:
    [Ok], [Err] or [Panic], where a panic is an [expect] that fails, an index out of
    range or an overflow of checked arithmetic; [let?] is the [?] operator. A method
    that takes [&mut self] returns the new state beside its outcome. Integers are [Z]
    with the width of their Rust type kept by explicit checks ([checked_add],
    [try_from], [saturating_add]) and by the predicates [u32], [u64], [u128], [u256];
    bytes and hashes are lists of bytes with their lengths in [wf_] predicates.
    [BTreeMap] and [BTreeSet] are sorted association lists (BTreeMap.v), so iteration
    order is part of the model.

    Code outside the repository is an interface: a class of the calls that are made,
    and a class of the laws its documentation gives, as hypotheses of the theorems
    that need them. They are [Keccak], [Secp256k1], [SenderRecovery] (alloy and k256),
    [AlloyRlp], [AlloyTrie], [AlloyRoots], [Journal] and [Revm] (revm), [ParityDb],
    [Libp2p] and [MdnsSd] for the network, and [AlloyHex], [Toml], [Keypairs] and
    [FixtureSigner] for configuration and command line.
    No law says that Keccak-256 is injective: a theorem that depends on it hands over
    the two colliding preimages instead. Each hypothesis is met by a concrete instance
    in the witnesses of the file, which evaluate the definitions.

    ** Files and the code they model

    Shared layers.
    - Prelude.v: outcomes, their notations and tactics ([ok_inv], [guards], [no_panic]),
      the hint databases, integer widths and list lemmas.
    - Bytes.v: bytes, big-endian integers, UTF-8 and byte order.
    - BTreeMap.v: ordered maps and [binary_search_by].
    - Cursor.v: the byte cursor of the checkpoint codecs.

    Data and codecs.
    - Primitives.v: arbor-primitives/src/lib.rs.
    - Canonical.v: arbor-codec/src/canonical.rs, the bounded binary codecs.
    - Rlp.v, Ethereum.v: arbor-codec/src/ethereum.rs over the interface of alloy_rlp.
    - Crypto.v: arbor-crypto/src/lib.rs, hashes, votes and quorum certificates.

    State.
    - StateError.v, Trie.v, Mpt.v, MptBuild.v: arbor-state/src/mpt.rs, trie nodes,
      lookups, traversals and construction.
    - Account.v, Overlay.v, Snapshot.v, DomainHeads.v: the other files of arbor-state.
    - Storage.v: arbor-storage/src/lib.rs, the database over parity-db.

    Execution.
    - System.v: arbor-system/src/lib.rs; Registry.v: the native contracts of
      arbor-evm/src/execute.rs; Evm.v: the rest of arbor-evm; Executor.v:
      arbor-executor/src/lib.rs; Mempool.v: arbor-mempool/src/lib.rs.

    Chain and engine.
    - Merkle.v, ChainBlock.v, ChainState.v, Chain.v: arbor-chain/src/lib.rs.
    - Typing.v: the types of the values the chain builds.
    - DevGenesis.v, EngineCheckpoint.v, Engine.v: arbor-consensus/src/lib.rs and
      checkpoint.rs; EngineRestart.v, EngineSteps.v and EngineSelect.v: its theorems.

    Network and node.
    - Protocol.v, Gossip.v: messages, handshakes and gossip of arbor-network/src/protocol.rs
      and service.rs; Sync.v: sync.rs; SnapshotTransfer.v: snapshot.rs, and SnapshotStage.v:
      its theorems; Peer.v: peer.rs and consensus.rs.
    - Service.v: the service of service.rs and the discovery of mdns.rs, a state with one
      definition per call and handler; ServiceSafety.v: its theorems.
    - Node.v: arbor-node/src/networked.rs, the handlers of the node as actions on engine,
      service and downloads, and a turn of its main loop; NodeSync.v and
      SnapshotSync.v: its theorems.
    - Startup.v: config.rs and lib.rs of arbor-node, identity.rs of arbor-network, and how a
      node is put together and run; Cli.v: arbor-cli/src/main.rs.

    A block travels through all of these: a transaction is decoded (Ethereum.v), admitted
    (Mempool.v) and selected (Engine.v); its batch is executed (Evm.v, Executor.v) and the
    block built (Chain.v); the commit writes states, blocks and markers (Storage.v); the
    node announces it (Node.v, Service.v), and another node fetches its header and body
    (Sync.v), replays and commits it (NodeSync.v, [catch_up]).

    ** What the theorems show

    - Agreement: two quorum certificates of one round share an honest validator, and a
      certificate verifies exactly when its votes are as they should be (Crypto.v).
    - Replay: validation accepts exactly the blocks that building produces, and every
      finalized state reached is well formed and of the right types (Chain.v,
      ChainState.v, Typing.v).
    - Durability: whatever is committed and pruned, every recorded root reads back its
      leaves; a commit publishes all of a block or nothing (Storage.v); an engine
      reopened on its database is at the state it had finalized, and pool, database
      and finalized state stay in step under every sequence of operations
      (EngineSteps.v); checkpoints restore the state they were taken of (ChainState.v,
      EngineCheckpoint.v).
    - Commitments: proofs of domain heads, of domain results and of trie leaves are
      complete, and sound up to a collision they exhibit (DomainHeads.v, Merkle.v,
      Mpt.v, MptBuild.v, Overlay.v).
    - Execution: applied changes read back as written in any order, receipts and
      totals of a batch are those of its transactions, deposits of created chains are
      always covered and released at most once (Evm.v, Executor.v, Registry.v,
      System.v).
    - Pools and selection: the pool's invariant and admission rule, and the limits,
      order and gap-freedom of what a proposal takes from it (Mempool.v,
      EngineSelect.v).
    - Codecs: every decoder accepts exactly what its encoder writes and none panics.
    - Synchronization: accepted headers form a chain from the local tip, up to a collision
      that is exhibited (Sync.v); a snapshot staged from arbitrary bytes finishes as
      exactly the producer's state, when that is well formed and each of its domains
      reads back from what it exports (SnapshotStage.v); a listener follows an honest server
      block by block (NodeSync.v), or fetches its state first (SnapshotSync.v).
    - The service: whatever peers send, peers are authenticated only with a handshake that
      validates, scores and counters stay within their bounds, every event handed to the
      node is justified by a message, and requests leave only through the gate of
      capability and policy (ServiceSafety.v).
    - Startup: a node keeps its identity, configurations read back, nodes of one network
      accept each other (Startup.v); the acceptance path of the command line (Cli.v).
    - Behaviour that is not what the code intends is stated as well: tries that cannot
      be read back (MptBuild.v), base fees that stall a domain (Chain.v), transactions
      that shut a domain out (EngineSelect.v), snapshots that cannot be produced or
      imported (SnapshotStage.v), bans that end by themselves (ServiceSafety.v), messages
      that end a node and rejections that stall it (NodeSync.v).

    ** Bounds and fuel

    Loops over lists and ranges are structural. Trie lookups and traversals follow
    hashes through a store and take fuel; [reads_terminate] (Mpt.v) gives the fuel that
    is enough for every key, and a fuel that runs out is never an answer in a theorem.
    The walk up a genealogy has the number of domains as its bound, which
    [genealogy_terminates] shows is never reached. Recovery of the engine replays the
    heights of the marker; its fuel is only that of the tries a checkpoint names, so
    [restart_exact] holds for every fuel. The loop that cuts a state into chunks has one
    more step than there are records, which is enough since every chunk but a single
    first one holds a record; reading a staged state back has 33 times its number of nodes
    and one, the bound of [reads_terminate]; the eviction of snapshots has a step per
    snapshot ([evict_drops], NodeSync.v).

    ** Not modelled

    - The interpreter of revm, Keccak-256, secp256k1, RLP and trie hashing of alloy and
      the files of parity-db: code outside the repository, met by interfaces.
    - The subscribers of the engine's broadcast channel: the model has the events sent.
    - libp2p, mdns-sd, tokio and serde: transport, discovery, timers and the encoding of
      envelopes on the wire. The service sees the events libp2p delivers, the node the
      sequence of what wakes it; [build_behaviour] and [log_network_metrics] only configure
      and print.
    - The supervisor and the shutdown signal of arbor-node (supervisor.rs, shutdown.rs,
      error.rs): tasks, signals of the operating system and a grace period, no state of the
      node.
    - Parsing of arguments and printing in arbor-cli; arbor-keystore and arbor-rpc are
      empty; arbor-testkit holds test helpers. *)

From Stdlib Require Export ZArith Lia.
From stdpp Require Export base tactics option sorting list strings numbers.

Local Open Scope Z_scope.

(** ** Results of Rust code *)

(** A call returns [Ok], returns an error, or panics ([expect], indexing out of
    bounds, arithmetic overflow in a checked build). *)
Inductive outcome (E A : Type) : Type :=
| Ok (a : A)
| Err (e : E)
| Panic (msg : string).

Arguments Ok {E A} a.
Arguments Err {E A} e.
Arguments Panic {E A} msg.

(** The [?] operator: errors and panics leave the enclosing function. *)
Definition obind {E A B : Type} (c : outcome E A) (k : A → outcome E B) : outcome E B :=
  match c with
  | Ok a => k a
  | Err e => Err e
  | Panic m => Panic m
  end.

Declare Scope rust_scope.
Delimit Scope rust_scope with rust.

Notation "'let?' x ':=' c 'in' k" := (obind c (fun x => k))
  (at level 10, x name, c at level 100, k at level 200,
   format "'[v' 'let?'  x  ':='  c  'in' '/' k ']'") : rust_scope.
Notation "'let?' ' p ':=' c 'in' k" := (obind c (fun '(p) => k))
  (at level 10, p strict pattern, c at level 100, k at level 200) : rust_scope.
Notation "'run?' c 'in' k" := (obind c (fun _ => k))
  (at level 10, c at level 100, k at level 200,
   format "'[v' 'run?'  c  'in' '/' k ']'") : rust_scope.

Open Scope rust_scope.

(** [Result::map_err], [Option::ok_or], [Option::expect]. *)
Definition map_err {E F A : Type} (f : E → F) (c : outcome E A) : outcome F A :=
  match c with
  | Ok a => Ok a
  | Err e => Err (f e)
  | Panic m => Panic m
  end.

Definition ok_or {E A : Type} (o : option A) (e : E) : outcome E A :=
  match o with
  | Some a => Ok a
  | None => Err e
  end.

Definition expect {E A : Type} (o : option A) (msg : string) : outcome E A :=
  match o with
  | Some a => Ok a
  | None => Panic msg
  end.

(** A [for] loop whose body updates a state and may leave early. *)
Fixpoint for_each {E S A : Type} (body : S → A → outcome E S) (s : S) (l : list A)
    : outcome E S :=
  match l with
  | [] => Ok s
  | a :: l' => let? s' := body s a in for_each body s' l'
  end.

(** [iter().map(f).collect::<Result<Vec<_>, _>>()]. *)
Fixpoint collect {E A B : Type} (f : A → outcome E B) (l : list A) : outcome E (list B) :=
  match l with
  | [] => Ok []
  | a :: l' =>
      let? b := f a in
      let? bs := collect f l' in
      Ok (b :: bs)
  end.

Definition is_ok {E A : Type} (c : outcome E A) : bool :=
  match c with Ok _ => true | _ => false end.

(** ** Fixed-width unsigned arithmetic *)

(** Values of an unsigned integer type of [w] bits. *)
Definition fits (w : Z) (z : Z) : Prop := 0 ≤ z < 2 ^ w.

Definition fitsb (w z : Z) : bool := (0 <=? z) && (z <? 2 ^ w).

Definition umax (w : Z) : Z := 2 ^ w - 1.

Definition checked_add (w a b : Z) : option Z :=
  if a + b <? 2 ^ w then Some (a + b) else None.

Definition checked_mul (w a b : Z) : option Z :=
  if a * b <? 2 ^ w then Some (a * b) else None.

(** [usize] (and [u64]) addition with overflow checks. *)
Definition add_usize {E : Type} (a b : Z) : outcome E Z :=
  expect (checked_add 64 a b) "attempt to add with overflow".

Definition saturating_add (w a b : Z) : Z := Z.min (a + b) (umax w).

Definition saturating_mul (w a b : Z) : Z := Z.min (a * b) (umax w).

Definition saturating_sub (a b : Z) : Z := Z.max (a - b) 0.

(** [u32::try_from] and friends. *)
Definition try_from (w z : Z) : option Z := if fitsb w z then Some z else None.

(** Unsigned [div_ceil]. *)
Definition div_ceil (a b : Z) : Z := (a + b - 1) / b.

Notation u8 := (fits 8).
Notation u16 := (fits 16).
Notation u32 := (fits 32).
Notation u64 := (fits 64).
Notation u128 := (fits 128).
Notation u256 := (fits 256).
(** [usize] on the 64-bit targets the repository builds for. *)
Notation usize := (fits 64) (only parsing).

(** ** Slices *)

(** [slice.len()]. *)
Definition zlen {A : Type} (l : list A) : Z := Z.of_nat (length l).

(** [iter().map(f).sum()], without the overflow. *)
Definition zsum {A : Type} (f : A → Z) (l : list A) : Z := foldr (λ a acc, f a + acc) 0 l.

(** [slice.get(lo..hi)]. *)
Definition get_range {A : Type} (l : list A) (lo hi : Z) : option (list A) :=
  if (0 <=? lo) && (lo <=? hi) && (hi <=? zlen l)
  then Some (take (Z.to_nat (hi - lo)) (drop (Z.to_nat lo) l))
  else None.

(** [slice.windows(2).all(...)]. *)
Fixpoint windows2_all {A : Type} (p : A → A → bool) (l : list A) : bool :=
  match l with
  | a :: ((b :: _) as l') => p a b && windows2_all p l'
  | _ => true
  end.

(** ** Total orders ([Ord]) *)

Class TotalOrder (K : Type) := {
  tcompare : K → K → comparison;
  tcompare_eq : ∀ a b, tcompare a b = Eq ↔ a = b;
  tcompare_opp : ∀ a b, tcompare b a = CompOpp (tcompare a b);
  tcompare_trans : ∀ a b c, tcompare a b = Lt → tcompare b c = Lt → tcompare a c = Lt;
}.

Definition tlt {K : Type} `{TotalOrder K} (a b : K) : Prop := tcompare a b = Lt.

Definition tltb {K : Type} `{TotalOrder K} (a b : K) : bool :=
  match tcompare a b with Lt => true | _ => false end.

Definition teqb {K : Type} `{TotalOrder K} (a b : K) : bool :=
  match tcompare a b with Eq => true | _ => false end.

Definition tleb {K : Type} `{TotalOrder K} (a b : K) : bool :=
  match tcompare a b with Gt => false | _ => true end.

#[export] Instance Z_total_order : TotalOrder Z.
Proof.
  refine {| tcompare := Z.compare |}.
  - apply Z.compare_eq_iff.
  - intros a b. apply Z.compare_antisym.
  - intros a b c. rewrite !Z.compare_lt_iff. lia.
Defined.

(** Lexicographic order of pairs, as [#[derive(Ord)]] gives it. *)
Definition prod_compare {A B : Type} `{TotalOrder A, TotalOrder B} (x y : A * B)
    : comparison :=
  match tcompare x.1 y.1 with
  | Eq => tcompare x.2 y.2
  | c => c
  end.

(** Lexicographic order of slices. *)
Fixpoint list_compare {A : Type} `{TotalOrder A} (x y : list A) : comparison :=
  match x, y with
  | [], [] => Eq
  | [], _ :: _ => Lt
  | _ :: _, [] => Gt
  | a :: x', b :: y' =>
      match tcompare a b with
      | Eq => list_compare x' y'
      | c => c
      end
  end.

(** ** Automation *)

Create HintDb arbor discriminated.
Create Rewrite HintDb arbor.

(** Splits hypotheses of the form [obind c k = Ok v], [map_err f c = Ok v] and
    guarded results into their parts. *)
Lemma obind_Ok {E A B : Type} (c : outcome E A) (k : A → outcome E B) b :
  obind c k = Ok b ↔ ∃ a, c = Ok a ∧ k a = Ok b.
Proof. destruct c; naive_solver. Qed.

Lemma map_err_Ok {E F A : Type} (f : E → F) (c : outcome E A) a :
  map_err f c = Ok a ↔ c = Ok a.
Proof. destruct c; naive_solver. Qed.

Lemma ok_or_Ok {E A : Type} (o : option A) (e : E) a : ok_or o e = Ok a ↔ o = Some a.
Proof. destruct o; naive_solver. Qed.

Lemma expect_Ok {E A : Type} (o : option A) m a :
  expect (E:=E) o m = Ok a ↔ o = Some a.
Proof. destruct o; naive_solver. Qed.

Lemma Ok_inj {E A : Type} (a b : A) : Ok (E:=E) a = Ok b → a = b.
Proof. by intros [= ->]. Qed.

Ltac ok_step :=
  match goal with
  | H : Ok _ = Ok _ |- _ => injection H as H
  | H : Ok _ = Err _ |- _ => discriminate H
  | H : Ok _ = Panic _ |- _ => discriminate H
  | H : Err _ = Ok _ |- _ => discriminate H
  | H : Panic _ = Ok _ |- _ => discriminate H
  | H : Err _ = Panic _ |- _ => discriminate H
  | H : Panic _ = Err _ |- _ => discriminate H
  | H : obind _ _ = Ok _ |- _ =>
      let a := fresh "a" in let E := fresh "Hok" in
      apply obind_Ok in H; destruct H as (a & E & H)
  | H : map_err _ _ = Ok _ |- _ => apply map_err_Ok in H
  | H : ok_or _ _ = Ok _ |- _ => apply ok_or_Ok in H
  | H : expect _ _ = Ok _ |- _ => apply expect_Ok in H
  | H : (if ?b then Err _ else _) = Ok _ |- _ =>
      let E := fresh "Hif" in destruct b eqn:E; [discriminate H|]
  | H : (if ?b then Panic _ else _) = Ok _ |- _ =>
      let E := fresh "Hif" in destruct b eqn:E; [discriminate H|]
  | H : (if ?b then _ else Err _) = Ok _ |- _ =>
      let E := fresh "Hif" in destruct b eqn:E; [|discriminate H]
  | H : (if ?b then _ else Panic _) = Ok _ |- _ =>
      let E := fresh "Hif" in destruct b eqn:E; [|discriminate H]
  | H : (let '(_, _) := ?p in _) = Ok _ |- _ => is_var p; destruct p as [? ?]
  | H : (let '(_, _) := ?p in _) = Ok _ |- _ => destruct p eqn:?
  end.

(** Runs the success path of a function backwards. *)
Ltac ok_inv := repeat ok_step.

(** Boolean guards as propositions. *)
Ltac bool_prop :=
  repeat match goal with
  | H : (_ <? _) = true |- _ => apply Z.ltb_lt in H
  | H : (_ <? _) = false |- _ => apply Z.ltb_ge in H
  | H : (_ <=? _) = true |- _ => apply Z.leb_le in H
  | H : (_ <=? _) = false |- _ => apply Z.leb_gt in H
  | H : (_ =? _) = true |- _ => apply Z.eqb_eq in H
  | H : (_ =? _) = false |- _ => apply Z.eqb_neq in H
  | H : bool_decide _ = true |- _ => apply bool_decide_eq_true in H
  | H : bool_decide _ = false |- _ => apply bool_decide_eq_false in H
  | H : (_ && _) = true |- _ => apply andb_true_iff in H; destruct H
  | H : (_ || _) = false |- _ => apply orb_false_iff in H; destruct H
  | H : negb _ = true |- _ => apply negb_true_iff in H
  | H : negb _ = false |- _ => apply negb_false_iff in H
  end.

(** Evaluates a guard that the context decides by arithmetic. *)
Ltac decide_guard :=
  match goal with
  | |- context [?a <? ?b] =>
      first [ rewrite (proj2 (Z.ltb_lt a b)) by lia | rewrite (proj2 (Z.ltb_ge a b)) by lia ]
  | |- context [?a <=? ?b] =>
      first [ rewrite (proj2 (Z.leb_le a b)) by lia | rewrite (proj2 (Z.leb_gt a b)) by lia ]
  | |- context [?a =? ?b] =>
      first [ rewrite (proj2 (Z.eqb_eq a b)) by lia | rewrite (proj2 (Z.eqb_neq a b)) by lia ]
  end.

Ltac guards := repeat (decide_guard; cbn [andb orb negb]).

(** ** Lemmas on orders *)

Section order_lemmas.
Context {K : Type} `{TotalOrder K}.

Lemma tcompare_refl (a : K) : tcompare a a = Eq.
Proof. by apply tcompare_eq. Qed.

Lemma tcompare_gt (a b : K) : tcompare a b = Gt ↔ tlt b a.
Proof. unfold tlt. rewrite (tcompare_opp a b). destruct (tcompare a b); simpl; naive_solver. Qed.

Lemma tlt_irrefl (a : K) : ¬ tlt a a.
Proof. unfold tlt. rewrite tcompare_refl. congruence. Qed.

Lemma tlt_trans (a b c : K) : tlt a b → tlt b c → tlt a c.
Proof. apply tcompare_trans. Qed.

Lemma tlt_asym (a b : K) : tlt a b → ¬ tlt b a.
Proof. intros H1 H2. exact (tlt_irrefl a (tlt_trans _ _ _ H1 H2)). Qed.

Lemma tltb_tlt (a b : K) : tltb a b = true ↔ tlt a b.
Proof. unfold tltb, tlt. destruct (tcompare a b); naive_solver. Qed.

Lemma teqb_eq (a b : K) : teqb a b = true ↔ a = b.
Proof. rewrite <-tcompare_eq. unfold teqb. destruct (tcompare a b); naive_solver. Qed.

Lemma teqb_refl (a : K) : teqb a a = true.
Proof. by apply teqb_eq. Qed.

Lemma teqb_neq (a b : K) : teqb a b = false ↔ a ≠ b.
Proof. rewrite <-teqb_eq. destruct (teqb a b); naive_solver. Qed.

Lemma tlt_trichotomy (a b : K) : tlt a b ∨ a = b ∨ tlt b a.
Proof.
  destruct (tcompare a b) eqn:E.
  - right; left. by apply tcompare_eq.
  - by left.
  - right; right. by apply tcompare_gt.
Qed.

#[export] Instance total_order_eq_dec : EqDecision K | 100.
Proof.
  intros a b. destruct (tcompare a b) eqn:E.
  - left. by apply tcompare_eq.
  - right. intros ->. rewrite tcompare_refl in E. discriminate.
  - right. intros ->. rewrite tcompare_refl in E. discriminate.
Defined.

#[export] Instance tlt_strict : StrictOrder (tlt (K:=K)).
Proof. split; [exact tlt_irrefl | exact tlt_trans]. Qed.
End order_lemmas.

#[export] Instance prod_total_order {A B : Type} `{TotalOrder A, TotalOrder B} :
  TotalOrder (A * B).
Proof.
  refine {| tcompare := prod_compare |}.
  - intros [a1 b1] [a2 b2]. unfold prod_compare; simpl.
    destruct (tcompare a1 a2) eqn:E.
    + apply tcompare_eq in E as ->. rewrite tcompare_eq. naive_solver.
    + split; [discriminate|]. intros [= -> ->]. by rewrite tcompare_refl in E.
    + split; [discriminate|]. intros [= -> ->]. by rewrite tcompare_refl in E.
  - intros [a1 b1] [a2 b2]. unfold prod_compare; simpl.
    rewrite (tcompare_opp a1 a2). destruct (tcompare a1 a2); simpl; try done.
    apply tcompare_opp.
  - intros [a1 b1] [a2 b2] [a3 b3]. unfold prod_compare; simpl.
    destruct (tcompare a1 a2) eqn:E1; [apply tcompare_eq in E1 as ->| |done];
    destruct (tcompare a2 a3) eqn:E2; try done;
      try (apply tcompare_eq in E2 as ->); rewrite ?tcompare_refl, ?E1, ?E2; try done.
    + apply tcompare_trans.
    + by rewrite (tcompare_trans _ _ _ E1 E2).
Defined.

Lemma list_compare_eq {A : Type} `{TotalOrder A} (x y : list A) :
  list_compare x y = Eq ↔ x = y.
Proof.
  revert y. induction x as [|a x IH]; intros [|b y]; simpl; try naive_solver.
  destruct (tcompare a b) eqn:E.
  - apply tcompare_eq in E as ->. rewrite IH. naive_solver.
  - split; [discriminate|]. intros [= -> ->]. by rewrite tcompare_refl in E.
  - split; [discriminate|]. intros [= -> ->]. by rewrite tcompare_refl in E.
Qed.

Lemma list_compare_opp {A : Type} `{TotalOrder A} (x y : list A) :
  list_compare y x = CompOpp (list_compare x y).
Proof.
  revert y. induction x as [|a x IH]; intros [|b y]; simpl; try done.
  rewrite (tcompare_opp a b). destruct (tcompare a b); simpl; auto.
Qed.

Lemma list_compare_trans {A : Type} `{TotalOrder A} (x y z : list A) :
  list_compare x y = Lt → list_compare y z = Lt → list_compare x z = Lt.
Proof.
  revert y z. induction x as [|a x IH]; intros [|b y] [|c z]; simpl; try done.
  destruct (tcompare a b) eqn:E1; [apply tcompare_eq in E1 as ->| |done];
  destruct (tcompare b c) eqn:E2; try done;
    try (apply tcompare_eq in E2 as ->); rewrite ?tcompare_refl, ?E1, ?E2; try done.
  - apply IH.
  - by rewrite (tcompare_trans _ _ _ E1 E2).
Qed.

#[export] Instance list_total_order {A : Type} `{TotalOrder A} : TotalOrder (list A) :=
  {| tcompare := list_compare;
     tcompare_eq := list_compare_eq;
     tcompare_opp := list_compare_opp;
     tcompare_trans := list_compare_trans |}.

(** ** Lemmas on slices *)

Lemma zlen_nil {A : Type} : zlen (@nil A) = 0.
Proof. done. Qed.

Lemma zlen_cons {A : Type} (a : A) l : zlen (a :: l) = 1 + zlen l.
Proof. unfold zlen. simpl. lia. Qed.

Lemma zlen_app {A : Type} (l k : list A) : zlen (l ++ k) = zlen l + zlen k.
Proof. unfold zlen. rewrite length_app. lia. Qed.

Lemma zlen_nonneg {A : Type} (l : list A) : 0 ≤ zlen l.
Proof. unfold zlen. lia. Qed.

Lemma zlen_length {A : Type} (l : list A) n : length l = n → zlen l = Z.of_nat n.
Proof. by intros <-. Qed.

#[export] Hint Rewrite @zlen_nil @zlen_cons @zlen_app : arbor.

Lemma windows2_all_Sorted {A : Type} (p : A → A → bool) l :
  windows2_all p l = true ↔ Sorted (λ a b, p a b = true) l.
Proof.
  induction l as [|a [|b l] IH]; simpl in *.
  - split; [constructor|done].
  - split; [repeat constructor|done].
  - rewrite andb_true_iff, IH. split.
    + intros [Hab Hl]. constructor; [done|]. by constructor.
    + inversion 1 as [|?? Hs Hd]; subst. inversion Hd; subst. done.
Qed.

Lemma strict_StronglySorted {A : Type} `{TotalOrder A} (l : list A) :
  windows2_all tltb l = true ↔ StronglySorted tlt l.
Proof.
  rewrite windows2_all_Sorted. split.
  - intros Hs. apply Sorted_StronglySorted; [exact tlt_trans|].
    induction Hs as [|a l Hs IH Hd]; constructor; auto.
    destruct Hd; constructor. by apply tltb_tlt.
  - intros Hs%StronglySorted_Sorted. induction Hs as [|a l Hs IH Hd]; constructor; auto.
    destruct Hd; constructor. by apply tltb_tlt.
Qed.

Lemma StronglySorted_NoDup {A : Type} `{TotalOrder A} (l : list A) :
  StronglySorted tlt l → NoDup l.
Proof.
  induction 1 as [|a l _ IH Hall]; constructor; [|done].
  intros Hin. rewrite list.Forall_forall in Hall. exact (tlt_irrefl a (Hall _ Hin)).
Qed.

Lemma StronglySorted_lookup_lt {A : Type} (R : relation A) l i j a b :
  StronglySorted R l → l !! i = Some a → l !! j = Some b → (i < j)%nat → R a b.
Proof.
  intros Hs. revert i j. induction Hs as [|x l Hs IH Hall]; intros i j Hi Hj Hij; [done|].
  destruct j as [|j]; [lia|]. destruct i as [|i]; simpl in *.
  - simplify_eq. rewrite list.Forall_forall in Hall. by eapply Hall, list_elem_of_lookup_2.
  - eapply IH; eauto with lia.
Qed.

Lemma get_range_Some {A : Type} (l : list A) lo hi r :
  get_range l lo hi = Some r ↔
    0 ≤ lo ≤ hi ∧ hi ≤ zlen l ∧ r = take (Z.to_nat (hi - lo)) (drop (Z.to_nat lo) l).
Proof.
  unfold get_range. destruct ((0 <=? lo) && (lo <=? hi) && (hi <=? zlen l)) eqn:E.
  - bool_prop. naive_solver lia.
  - split; [done|]. intros (?&?&?). exfalso.
    apply not_true_iff_false in E. apply E. rewrite !andb_true_iff, !Z.leb_le. lia.
Qed.

Lemma get_range_length {A : Type} (l : list A) lo hi r :
  get_range l lo hi = Some r → zlen r = hi - lo.
Proof.
  intros (?&Hhi&->)%get_range_Some. unfold zlen in *.
  rewrite length_take, length_drop. lia.
Qed.

(** The slice of a concatenation that starts at a boundary. *)
Lemma get_range_app {A : Type} (p m s : list A) lo hi :
  lo = zlen p → hi = lo + zlen m → get_range (p ++ m ++ s) lo hi = Some m.
Proof.
  intros -> ->. apply get_range_Some. pose proof (zlen_nonneg p). pose proof (zlen_nonneg m).
  pose proof (zlen_nonneg s). autorewrite with arbor. repeat split; try lia.
  replace (Z.to_nat (zlen p)) with (length p) by (unfold zlen; lia).
  rewrite drop_app_length.
  replace (Z.to_nat _) with (length m) by (unfold zlen; lia).
  by rewrite take_app_length.
Qed.

(** The two halves a successful range splits a slice into. *)
Lemma get_range_split {A : Type} (l : list A) lo hi r :
  get_range l lo hi = Some r →
  l = take (Z.to_nat lo) l ++ r ++ drop (Z.to_nat hi) l.
Proof.
  intros ([Hlo Hlh]&Hhi&->)%get_range_Some.
  replace (drop (Z.to_nat hi) l) with (drop (Z.to_nat (hi - lo)) (drop (Z.to_nat lo) l)).
  - by rewrite !take_drop.
  - rewrite drop_drop. f_equal. lia.
Qed.

(** Adjacent ranges make one, and the whole range is the slice. *)
Lemma get_range_join {A : Type} (l : list A) lo mid hi a b :
  get_range l lo mid = Some a → get_range l mid hi = Some b → get_range l lo hi = Some (a ++ b).
Proof.
  intros (Hl & _ & ->)%get_range_Some (Hm & Hh & ->)%get_range_Some. apply get_range_Some. split_and!; [lia..|].
  replace (Z.to_nat mid) with (Z.to_nat lo + Z.to_nat (mid - lo))%nat by lia. rewrite <-drop_drop.
  replace (Z.to_nat (hi - lo)) with (Z.to_nat (mid - lo) + Z.to_nat (hi - mid))%nat by lia.
  rewrite <-(take_drop (Z.to_nat (mid - lo)) (drop (Z.to_nat lo) l)) at 3.
  rewrite take_app, length_take, length_drop. unfold zlen in *. f_equal; [|f_equal; lia].
  by rewrite take_take, Nat.min_r by lia.
Qed.

Lemma get_range_all {A : Type} (l r : list A) : get_range l 0 (zlen l) = Some r → r = l.
Proof. intros (_ & _ & ->)%get_range_Some. rewrite drop_0, take_ge; [done|]. unfold zlen. lia. Qed.

Lemma zsum_cons {A : Type} (f : A → Z) a l : zsum f (a :: l) = f a + zsum f l.
Proof. done. Qed.

Lemma zsum_app {A : Type} (f : A → Z) l1 l2 : zsum f (l1 ++ l2) = zsum f l1 + zsum f l2.
Proof. induction l1 as [|a l1 IH]; [done|]. cbn [app]. rewrite !zsum_cons, IH. lia. Qed.

Lemma zsum_ext {A : Type} (f g : A → Z) l : (∀ a, a ∈ l → g a = f a) → zsum g l = zsum f l.
Proof.
  induction l as [|a l IH]; intros Hfg; [done|]. rewrite !zsum_cons, (Hfg a) by left. f_equal.
  apply IH. intros b Hb. apply Hfg. by right.
Qed.

Lemma zsum_update {A : Type} `{EqDecision A} (f g : A → Z) l x :
  NoDup l → x ∈ l → (∀ a, a ∈ l → a ≠ x → g a = f a) → zsum g l = zsum f l - f x + g x.
Proof.
  intros Hnd Hx Hfg. induction l as [|a l IH]; [by apply elem_of_nil in Hx|].
  apply list.NoDup_cons in Hnd as [Ha Hnd]. rewrite !zsum_cons. destruct (decide (a = x)) as [->|Hne].
  - rewrite (zsum_ext f g l); [lia|]. intros b Hb. apply Hfg; [by right|]. by intros ->.
  - apply elem_of_cons in Hx as [->|Hx]; [done|]. rewrite (Hfg a) by (done || left).
    rewrite IH; [lia|done|done|]. intros b Hb. apply Hfg. by right.
Qed.

(** ** Lemmas on loops *)

Lemma for_each_app {E S A : Type} (f : S → A → outcome E S) s l k :
  for_each f s (l ++ k) = (let? s' := for_each f s l in for_each f s' k).
Proof.
  revert s. induction l as [|a l IH]; intros s; simpl; [done|].
  destruct (f s a); simpl; auto.
Qed.

(** Loop invariant rule. *)
Lemma for_each_inv {E S A : Type} (I : S → Prop) (f : S → A → outcome E S) l s s' :
  (∀ s a s', a ∈ l → I s → f s a = Ok s' → I s') →
  I s → for_each f s l = Ok s' → I s'.
Proof.
  revert s. induction l as [|a l IH]; intros s Hstep HI Hrun; simpl in Hrun.
  - by ok_inv; subst.
  - ok_inv. eapply IH; [|eapply Hstep; [left|exact HI|exact Hok]|exact Hrun].
    intros ???? ; apply Hstep. by right.
Qed.

Lemma collect_Ok {E A B : Type} (f : A → outcome E B) l r :
  collect f l = Ok r ↔ Forall2 (λ a b, f a = Ok b) l r.
Proof.
  revert r. induction l as [|a l IH]; intros r; simpl.
  - split; [intros [= <-]; constructor|inversion 1; done].
  - split.
    + intros Hr. ok_inv; subst. constructor; [done|]. by apply IH.
    + inversion 1 as [|? b ? bs Hb Hbs]; subst. rewrite Hb; simpl.
      apply IH in Hbs as ->. done.
Qed.

Lemma collect_length {E A B : Type} (f : A → outcome E B) l r :
  collect f l = Ok r → length r = length l.
Proof. intros Hr%collect_Ok. symmetry. by eapply Forall2_length. Qed.

(** ** Lemmas on machine integers *)

Lemma fitsb_fits w z : fitsb w z = true ↔ fits w z.
Proof. unfold fitsb, fits. rewrite andb_true_iff, Z.leb_le, Z.ltb_lt. done. Qed.

Lemma checked_add_Some w a b c :
  checked_add w a b = Some c ↔ c = a + b ∧ a + b < 2 ^ w.
Proof. unfold checked_add. destruct (Z.ltb_spec (a + b) (2 ^ w)); naive_solver lia. Qed.

Lemma checked_mul_Some w a b c :
  checked_mul w a b = Some c ↔ c = a * b ∧ a * b < 2 ^ w.
Proof. unfold checked_mul. destruct (Z.ltb_spec (a * b) (2 ^ w)); naive_solver lia. Qed.

Lemma add_usize_Ok {E : Type} a b c : add_usize (E:=E) a b = Ok c ↔ c = a + b ∧ a + b < 2 ^ 64.
Proof. unfold add_usize. by rewrite expect_Ok, checked_add_Some. Qed.

Lemma checked_add_fits w a b c :
  fits w a → fits w b → checked_add w a b = Some c → fits w c.
Proof. rewrite checked_add_Some. unfold fits. lia. Qed.

Lemma try_from_Some w z r : try_from w z = Some r ↔ r = z ∧ fits w z.
Proof.
  unfold try_from. destruct (fitsb w z) eqn:E.
  - apply fitsb_fits in E. naive_solver.
  - split; [done|]. intros [_ Hf%fitsb_fits]. congruence.
Qed.

Lemma fits_mono w w' z : 0 ≤ w ≤ w' → fits w z → fits w' z.
Proof.
  unfold fits. intros Hw Hz. pose proof (Z.pow_le_mono_r 2 w w'). lia.
Qed.

#[export] Instance fits_dec w z : Decision (fits w z).
Proof. unfold fits. apply _. Defined.

(** Closed decidable goals, by evaluation. *)
Ltac by_evaluation :=
  lazymatch goal with
  | |- _ = _ => vm_compute; reflexivity
  | |- ?P => apply (bool_decide_unpack P); vm_compute; exact I
  end.
