(* ===== verification/Bytes.v ===== *)
(** Byte strings: [u8] values, big-endian integers ([to_be_bytes],
    [from_be_bytes]), fixed-size arrays ([B256], [Address]) and the
    lexicographic order Rust gives to slices. *)

From Stdlib Require Import Strings.Byte NArith.
From S2P Require Import Prelude.

Local Open Scope Z_scope.

Notation byte := Byte.byte.
Notation bytes := (list Byte.byte).

(** A [u8] as a number, and the truncating conversion [as u8]. *)
Definition byte_val (b : byte) : Z := Z.of_N (Byte.to_N b).

Definition byte_of (z : Z) : byte :=
  match Byte.of_N (Z.to_N (z mod 256)) with
  | Some b => b
  | None => x00
  end.

(** [b"..."]. *)
Definition bstr (s : string) : bytes := String.list_byte_of_string s.

(** [v.to_be_bytes()] of an integer of [n] bytes. *)
Fixpoint to_be_bytes (n : nat) (v : Z) : bytes :=
  match n with
  | O => []
  | S n' => byte_of (Z.shiftr v (8 * Z.of_nat n')) :: to_be_bytes n' v
  end.

(** [uN::from_be_bytes]. *)
Definition from_be_bytes (l : bytes) : Z :=
  foldl (λ acc b, acc * 256 + byte_val b) 0 l.

(** [slice.starts_with(prefix)]. *)
Fixpoint starts_with (p l : bytes) : bool :=
  match p, l with
  | [], _ => true
  | a :: p', b :: l' => Byte.eqb a b && starts_with p' l'
  | _ :: _, [] => false
  end.

(** [FixedBytes::repeat_byte]. *)
Definition repeat_byte (n : nat) (b : Z) : bytes := repeat (byte_of b) n.

Definition B256_ZERO : bytes := repeat x00 32.

(** The lengths of [B256] and [Address]. *)
Definition is_b256 (b : bytes) : Prop := length b = 32%nat.
Definition is_address (b : bytes) : Prop := length b = 20%nat.

Notation of_u16 := (to_be_bytes 2).
Notation of_u32 := (to_be_bytes 4).
Notation of_u64 := (to_be_bytes 8).
Notation of_u128 := (to_be_bytes 16).
Notation of_u256 := (to_be_bytes 32).

#[export] Instance byte_eq_dec : EqDecision byte := Byte.byte_eq_dec.

Lemma byte_val_range b : 0 ≤ byte_val b < 256.
Proof. pose proof (Byte.to_N_bounded b). unfold byte_val. lia. Qed.

Lemma byte_of_val b : byte_of (byte_val b) = b.
Proof. by destruct b. Qed.

Lemma byte_val_of z : byte_val (byte_of z) = z mod 256.
Proof.
  unfold byte_val, byte_of. pose proof (Z.mod_pos_bound z 256 ltac:(lia)).
  destruct (Byte.of_N (Z.to_N (z mod 256))) as [b|] eqn:E.
  - apply Byte.to_of_N in E. rewrite E. lia.
  - apply Byte.of_N_None_iff in E. lia.
Qed.

Lemma byte_of_offset b z : byte_val b = z → b = byte_of z.
Proof. intros <-. by rewrite byte_of_val. Qed.

Lemma byte_val_inj a b : byte_val a = byte_val b → a = b.
Proof. intros E. by rewrite <-(byte_of_val a), E, byte_of_val. Qed.

#[export] Instance byte_total_order : TotalOrder byte.
Proof.
  refine {| tcompare := λ a b, Z.compare (byte_val a) (byte_val b) |}.
  - intros a b. rewrite Z.compare_eq_iff. split; [apply byte_val_inj|by intros ->].
  - intros a b. apply Z.compare_antisym.
  - intros a b c. rewrite !Z.compare_lt_iff. lia.
Defined.

Lemma length_to_be_bytes n v : length (to_be_bytes n v) = n.
Proof. induction n; simpl; auto. Qed.

Lemma zlen_to_be_bytes n v : zlen (to_be_bytes n v) = Z.of_nat n.
Proof. apply zlen_length, length_to_be_bytes. Qed.

#[export] Hint Rewrite length_to_be_bytes zlen_to_be_bytes : arbor.

Lemma from_be_bytes_acc l acc :
  foldl (λ acc b, acc * 256 + byte_val b) acc l =
    acc * 256 ^ zlen l + from_be_bytes l.
Proof.
  unfold from_be_bytes. revert acc. induction l as [|b l IH]; intros acc; cbn [foldl].
  - rewrite zlen_nil. lia.
  - rewrite IH, (IH (0 * 256 + byte_val b)), zlen_cons, Z.pow_add_r by (pose proof (zlen_nonneg l); lia).
    lia.
Qed.

Lemma from_be_bytes_cons b l :
  from_be_bytes (b :: l) = byte_val b * 256 ^ zlen l + from_be_bytes l.
Proof. unfold from_be_bytes at 1. cbn [foldl]. rewrite from_be_bytes_acc. lia. Qed.

Lemma from_be_bytes_range l : 0 ≤ from_be_bytes l < 256 ^ zlen l.
Proof.
  induction l as [|b l IH]; [done|]. rewrite from_be_bytes_cons, zlen_cons.
  pose proof (byte_val_range b). rewrite Z.pow_add_r by (pose proof (zlen_nonneg l); lia). nia.
Qed.

Lemma from_to_be_bytes_mod n v :
  from_be_bytes (to_be_bytes n v) = v mod 256 ^ Z.of_nat n.
Proof.
  induction n as [|n IH]; simpl to_be_bytes.
  - change (from_be_bytes []) with 0. by rewrite Z.mod_1_r.
  - rewrite from_be_bytes_cons, IH, byte_val_of, zlen_to_be_bytes.
    rewrite Z.shiftr_div_pow2 by lia.
    replace (2 ^ (8 * Z.of_nat n)) with (256 ^ Z.of_nat n).
    + replace (256 ^ Z.of_nat (S n)) with (256 ^ Z.of_nat n * 256).
      * rewrite Z.rem_mul_r by lia. lia.
      * replace (Z.of_nat (S n)) with (Z.of_nat n + 1) by lia.
        rewrite Z.pow_add_r by lia. lia.
    + by rewrite Z.pow_mul_r by lia.
Qed.

(** [from_be_bytes] inverts [to_be_bytes] on values of the width. *)
Lemma from_to_be_bytes n v :
  fits (8 * Z.of_nat n) v → from_be_bytes (to_be_bytes n v) = v.
Proof.
  intros Hv. rewrite from_to_be_bytes_mod. apply Z.mod_small.
  unfold fits in Hv. by rewrite Z.pow_mul_r in Hv by lia.
Qed.

Lemma to_be_bytes_mod n v w : 
  (n <= w)%nat → to_be_bytes n (v mod 256 ^ Z.of_nat w) = to_be_bytes n v.
Proof.
  induction n as [|n IH]; intros Hw; simpl; [done|]. rewrite IH by lia. f_equal.
  apply byte_val_inj. rewrite !byte_val_of, !Z.shiftr_div_pow2 by lia.
  replace 256 with (2 ^ 8) by done. rewrite <-Z.pow_mul_r by lia.
  apply Z.bits_inj'. intros i Hi.
  destruct (Z.ltb_spec i 8) as [Hi8|Hi8].
  - rewrite !Z.mod_pow2_bits_low, !Z.div_pow2_bits, Z.mod_pow2_bits_low by lia. done.
  - rewrite !Z.mod_pow2_bits_high by lia. done.
Qed.

Lemma to_from_be_bytes l n : length l = n → to_be_bytes n (from_be_bytes l) = l.
Proof.
  intros <-. induction l as [|b l IH]; [done|]. simpl.
  pose proof (from_be_bytes_range l). pose proof (byte_val_range b).
  rewrite from_be_bytes_cons. f_equal.
  - rewrite Z.shiftr_div_pow2 by lia.
    replace (2 ^ (8 * Z.of_nat (length l))) with (256 ^ zlen l)
      by (unfold zlen; by rewrite Z.pow_mul_r by lia).
    rewrite Z.div_add_l, Z.div_small by lia. by rewrite Z.add_0_r, byte_of_val.
  - rewrite <-(to_be_bytes_mod _ _ (length l)) by done. unfold zlen at 1.
    rewrite Z.add_comm, Z.mod_add, Z.mod_small by (unfold zlen in *; lia). done.
Qed.

Lemma from_be_bytes_fits l n : length l = n → fits (8 * Z.of_nat n) (from_be_bytes l).
Proof.
  intros <-. unfold fits. rewrite Z.pow_mul_r by lia. apply from_be_bytes_range.
Qed.

Lemma to_be_bytes_inj n v w :
  fits (8 * Z.of_nat n) v → fits (8 * Z.of_nat n) w →
  to_be_bytes n v = to_be_bytes n w → v = w.
Proof.
  intros Hv Hw E. by rewrite <-(from_to_be_bytes n v), E, from_to_be_bytes.
Qed.

Lemma starts_with_spec p l : starts_with p l = true ↔ ∃ s, l = p ++ s.
Proof.
  revert l. induction p as [|a p IH]; intros l; simpl; [naive_solver|].
  destruct l as [|b l]; [naive_solver|]. rewrite andb_true_iff, IH.
  split.
  - intros [->%Byte.byte_dec_bl [s ->]]. by exists s.
  - intros [s [= -> ->]]. split; [by apply Byte.byte_dec_lb|eauto].
Qed.

(** Slices of the same length compare like the big-endian numbers they spell. *)
Lemma list_compare_from_be (a b : bytes) :
  length a = length b → list_compare a b = Z.compare (from_be_bytes a) (from_be_bytes b).
Proof.
  revert b. induction a as [|x a IH]; intros [|y b] Hl; try done. simpl in Hl.
  cbn [list_compare]. change (tcompare x y) with (Z.compare (byte_val x) (byte_val y)).
  rewrite !from_be_bytes_cons. rewrite (IH b) by lia.
  pose proof (from_be_bytes_range a). pose proof (from_be_bytes_range b).
  assert (zlen a = zlen b) as E by (unfold zlen; lia). rewrite E in *.
  pose proof (Z.pow_pos_nonneg 256 (zlen b) ltac:(lia) (zlen_nonneg b)).
  destruct (Z.compare_spec (byte_val x) (byte_val y)) as [->|Hlt|Hgt]; symmetry.
  - destruct (Z.compare_spec (from_be_bytes a) (from_be_bytes b));
      [apply Z.compare_eq_iff|apply Z.compare_lt_iff|apply Z.compare_gt_iff]; lia.
  - apply Z.compare_lt_iff. nia.
  - apply Z.compare_gt_iff. nia.
Qed.

(** The bits of a big-endian number, byte by byte. *)
Lemma testbit_from_be (l : bytes) i b j :
  l !! i = Some b → 0 ≤ j < 8 →
  Z.testbit (from_be_bytes l) (8 * (zlen l - 1 - Z.of_nat i) + j) = Z.testbit (byte_val b) j.
Proof.
  revert i. induction l as [|x l IH]; intros [|i] Hi Hj; try done; simpl in Hi.
  - simplify_eq. rewrite from_be_bytes_cons, zlen_cons. pose proof (from_be_bytes_range l).
    pose proof (zlen_nonneg l).
    replace (256 ^ zlen l) with (2 ^ (8 * zlen l)) in * by by rewrite Z.pow_mul_r by lia.
    replace (8 * (1 + zlen l - 1 - Z.of_nat 0) + j) with (j + 8 * zlen l) by lia.
    rewrite <-Z.div_pow2_bits by lia. by rewrite Z.div_add_l, Z.div_small, Z.add_0_r by lia.
  - rewrite from_be_bytes_cons, zlen_cons. pose proof (from_be_bytes_range l).
    pose proof (lookup_lt_Some _ _ _ Hi). rewrite <-(IH i Hi Hj).
    replace (256 ^ zlen l) with (2 ^ (8 * zlen l)) in *
      by (rewrite Z.pow_mul_r by (pose proof (zlen_nonneg l); lia); done).
    replace (8 * (1 + zlen l - 1 - Z.of_nat (S i)) + j)
      with (8 * (zlen l - 1 - Z.of_nat i) + j) by lia.
    rewrite <-(Z.mod_pow2_bits_low _ (8 * zlen l)) by (unfold zlen; lia).
    by rewrite Z.add_comm, Z.mod_add, Z.mod_small by lia.
Qed.

#[global] Arguments to_be_bytes : simpl never.

(** ** UTF-8, as [std::str::from_utf8] validates it *)

Definition in_range (lo hi : Z) (b : byte) : bool :=
  (lo <=? byte_val b) && (byte_val b <=? hi).

Definition is_cont (b : byte) : bool := in_range 128 191 b.

(** The second byte of a three-byte and of a four-byte sequence depends on the
    first: no overlong forms, no surrogates, nothing above U+10FFFF. *)
Definition utf8_second3 (first : byte) (b : byte) : bool :=
  let f := byte_val first in
  if f =? 224 then in_range 160 191 b
  else if f =? 237 then in_range 128 159 b
  else in_range 128 191 b.

Definition utf8_second4 (first : byte) (b : byte) : bool :=
  let f := byte_val first in
  if f =? 240 then in_range 144 191 b
  else if f =? 244 then in_range 128 143 b
  else in_range 128 191 b.

Fixpoint utf8_valid (l : bytes) : bool :=
  match l with
  | [] => true
  | b :: l1 =>
      if byte_val b <? 128 then utf8_valid l1
      else if in_range 194 223 b then
        match l1 with
        | c :: l2 => is_cont c && utf8_valid l2
        | [] => false
        end
      else if in_range 224 239 b then
        match l1 with
        | c :: d :: l3 => utf8_second3 b c && is_cont d && utf8_valid l3
        | _ => false
        end
      else if in_range 240 244 b then
        match l1 with
        | c :: d :: e :: l4 => utf8_second4 b c && is_cont d && is_cont e && utf8_valid l4
        | _ => false
        end
      else false
  end.

Lemma utf8_valid_ascii l : Forall (λ b, byte_val b < 128) l → utf8_valid l = true.
Proof.
  induction 1 as [|b l Hb _ IH]; [done|]. cbn [utf8_valid].
  by rewrite (proj2 (Z.ltb_lt _ _) Hb).
Qed.
