(* ===== verification/BTreeMap.v ===== *)
(** [std::collections::BTreeMap] as the list of its entries in key order, and
    [slice::binary_search_by] and [slice::sort_by_key] of the standard library.

    Every operation walks the entries the way the ordered map does, so iteration
    order, which the repository relies on for determinism, is part of the model.
    The lookup laws hold for every list; key order is the invariant [sorted]. *)

From S2P Require Import Prelude.

Local Open Scope Z_scope.

Notation btree K V := (list (K * V)).

Section operations.
Context {K V : Type} `{TotalOrder K}.

(** [map.get(&k)]. *)
Fixpoint bget (k : K) (m : btree K V) : option V :=
  match m with
  | [] => None
  | (k', v) :: m' => if teqb k k' then Some v else bget k m'
  end.

(** [map.insert(k, v)], the new map. *)
Fixpoint binsert (k : K) (v : V) (m : btree K V) : btree K V :=
  match m with
  | [] => [(k, v)]
  | (k', v') :: m' =>
      match tcompare k k' with
      | Lt => (k, v) :: m
      | Eq => (k, v) :: m'
      | Gt => (k', v') :: binsert k v m'
      end
  end.

(** [map.remove(&k)], the new map. *)
Fixpoint bremove (k : K) (m : btree K V) : btree K V :=
  match m with
  | [] => []
  | (k', v') :: m' => if teqb k k' then bremove k m' else (k', v') :: bremove k m'
  end.

(** [map.keys()], [map.values()], [map.contains_key(&k)]. *)
Definition bkeys (m : btree K V) : list K := m.*1.

Definition bvalues (m : btree K V) : list V := m.*2.

Definition bcontains (k : K) (m : btree K V) : bool :=
  match bget k m with Some _ => true | None => false end.

(** [entries.into_iter().collect::<BTreeMap<_, _>>()]: later entries win. *)
Definition bcollect (l : list (K * V)) : btree K V :=
  foldl (λ m e, binsert e.1 e.2 m) [] l.

(** The invariant: keys strictly increase. *)
Definition sorted (m : btree K V) : Prop := StronglySorted tlt (bkeys m).
End operations.

(** [map.retain] and [filter_map] over entries keep the order. *)
Definition bfilter {K V : Type} (p : K → V → bool) (m : btree K V) : btree K V :=
  List.filter (λ e, p e.1 e.2) m.

(** [slice.binary_search_by(f)]: [inl i] is [Ok(i)], [inr i] is [Err(i)]. *)
Fixpoint bsearch_loop {A : Type} (fuel : nat) (f : A → comparison) (l : list A)
    (base size : nat) : nat :=
  match fuel with
  | O => base
  | S fuel' =>
      if (size <=? 1)%nat then base
      else
        let half := (size / 2)%nat in
        let mid := (base + half)%nat in
        let base' :=
          match f <$> l !! mid with
          | Some Gt => base
          | _ => mid
          end in
        bsearch_loop fuel' f l base' (size - half)%nat
  end.

Definition binary_search_by {A : Type} (f : A → comparison) (l : list A) : nat + nat :=
  match l with
  | [] => inr 0%nat
  | _ =>
      let base := bsearch_loop (length l) f l 0 (length l) in
      match f <$> l !! base with
      | Some Eq => inl base
      | Some Lt => inr (S base)
      | _ => inr base
      end
  end.

(** [slice.binary_search_by_key(&k, key)] and [slice.binary_search(&k)]. *)
Definition binary_search_by_key {A K : Type} `{TotalOrder K} (key : A → K) (k : K)
    (l : list A) : nat + nat :=
  binary_search_by (λ a, tcompare (key a) k) l.

(** [slice.partition_point(pred)]. *)
Definition partition_point {A : Type} (pred : A → bool) (l : list A) : nat :=
  match binary_search_by (λ a, if pred a then Lt else Gt) l with
  | inl i => i
  | inr i => i
  end.

(** The stable [slice::sort_by_key]. *)
Fixpoint sort_insert {A K : Type} `{TotalOrder K} (key : A → K) (a : A) (l : list A) : list A :=
  match l with
  | [] => [a]
  | b :: l' => if tltb (key b) (key a) then b :: sort_insert key a l' else a :: l
  end.

Definition sort_by_key {A K : Type} `{TotalOrder K} (key : A → K) (l : list A) : list A :=
  foldr (sort_insert key) [] l.

Section lookup_lemmas.
Context {K V : Type} `{TotalOrder K}.
Implicit Types (m : btree K V) (k : K).

Lemma bget_binsert k v m k' :
  bget k' (binsert k v m) = if teqb k' k then Some v else bget k' m.
Proof.
  induction m as [|[k0 v0] m IH]; simpl; [done|].
  destruct (tcompare k k0) eqn:E; simpl.
  - apply tcompare_eq in E as ->. by destruct (teqb k' k0).
  - done.
  - rewrite IH. destruct (teqb k' k0) eqn:E0; [|done].
    apply teqb_eq in E0 as ->. destruct (teqb k0 k) eqn:E1; [|done].
    apply teqb_eq in E1 as ->. by rewrite tcompare_refl in E.
Qed.

Lemma bget_binsert_eq k v m : bget k (binsert k v m) = Some v.
Proof. rewrite bget_binsert. by rewrite teqb_refl. Qed.

Lemma bget_binsert_ne k v m k' : k' ≠ k → bget k' (binsert k v m) = bget k' m.
Proof. intros Hne. rewrite bget_binsert. by rewrite (proj2 (teqb_neq k' k)). Qed.

Lemma bget_bremove k m k' :
  bget k' (bremove k m) = if teqb k' k then None else bget k' m.
Proof.
  induction m as [|[k0 v0] m IH]; simpl; [by destruct (teqb k' k)|].
  destruct (teqb k k0) eqn:E; simpl; rewrite IH.
  - apply teqb_eq in E as ->. by destruct (teqb k' k0).
  - destruct (teqb k' k0) eqn:E0; [|done].
    apply teqb_eq in E0 as ->. destruct (teqb k0 k) eqn:E1; [|done].
    apply teqb_eq in E1 as ->. apply teqb_neq in E. congruence.
Qed.

Lemma bget_bremove_eq k m : bget k (bremove k m) = None.
Proof. rewrite bget_bremove. by rewrite teqb_refl. Qed.

Lemma bget_bremove_ne k m k' : k' ≠ k → bget k' (bremove k m) = bget k' m.
Proof. intros Hne. rewrite bget_bremove. by rewrite (proj2 (teqb_neq k' k)). Qed.

Lemma bget_elem_of k v m : bget k m = Some v → (k, v) ∈ m.
Proof.
  induction m as [|[k0 v0] m IH]; simpl; [done|].
  destruct (teqb k k0) eqn:E.
  - apply teqb_eq in E as ->. intros [= ->]. by left.
  - intros Hg. right. auto.
Qed.

Lemma bget_None k m : bget k m = None ↔ k ∉ bkeys m.
Proof.
  induction m as [|[k0 v0] m IH]; simpl.
  - split; [intros _ Hin; by apply elem_of_nil in Hin|done].
  - destruct (teqb k k0) eqn:E.
    + apply teqb_eq in E as ->. split; [done|]. intros Hn. exfalso. apply Hn. by left.
    + apply teqb_neq in E. rewrite IH, elem_of_cons. naive_solver.
Qed.

Lemma bcontains_true k m : bcontains k m = true ↔ is_Some (bget k m).
Proof. unfold bcontains. destruct (bget k m); naive_solver. Qed.

Lemma bcontains_false k m : bcontains k m = false ↔ bget k m = None.
Proof. unfold bcontains. destruct (bget k m); naive_solver. Qed.

Lemma elem_of_bget m k v : sorted m → (k, v) ∈ m → bget k m = Some v.
Proof.
  intros Hs. induction m as [|[k0 v0] m IH]; [by intros ?%elem_of_nil|].
  inversion Hs as [|? ? Hs' Hall]; subst. rewrite elem_of_cons. intros [[= -> ->]|Hin]; simpl.
  - by rewrite teqb_refl.
  - rewrite list.Forall_forall in Hall.
    assert (tlt k0 k) as Hlt by (apply Hall, list_elem_of_fmap; by exists (k, v)).
    rewrite (proj2 (teqb_neq k k0)); [auto|]. intros ->. exact (tlt_irrefl _ Hlt).
Qed.

Lemma bkeys_binsert k v m x : x ∈ bkeys (binsert k v m) ↔ x = k ∨ x ∈ bkeys m.
Proof.
  induction m as [|[k0 v0] m IH]; simpl.
  - rewrite elem_of_cons. naive_solver.
  - destruct (tcompare k k0) eqn:E; simpl; rewrite !elem_of_cons.
    + apply tcompare_eq in E as ->. naive_solver.
    + naive_solver.
    + fold (bkeys (binsert k v m)). rewrite IH. naive_solver.
Qed.

Lemma binsert_elem_of k v m e : e ∈ binsert k v m → e = (k, v) ∨ e ∈ m.
Proof.
  induction m as [|[k0 v0] m IH]; simpl.
  - by intros [->|?%elem_of_nil]%elem_of_cons; [left|].
  - destruct (tcompare k k0); intros [->|Hin]%elem_of_cons.
    + by left.
    + right. by right.
    + by left.
    + by right.
    + right. by left.
    + destruct (IH Hin) as [->|?]; [by left|]. right. by right.
Qed.

Lemma sorted_binsert k v m : sorted m → sorted (binsert k v m).
Proof.
  unfold sorted. induction m as [|[k0 v0] m IH]; simpl; intros Hs.
  - repeat constructor.
  - inversion Hs as [|? ? Hs' Hall]; subst. destruct (tcompare k k0) eqn:E; simpl.
    + apply tcompare_eq in E as ->. by constructor.
    + constructor; [by constructor|]. constructor; [done|].
      eapply list.Forall_impl; [exact Hall|]. intros x Hx. by eapply tlt_trans.
    + constructor; [by apply IH|]. apply list.Forall_forall. intros x Hx.
      fold (bkeys (binsert k v m)) in Hx. apply bkeys_binsert in Hx as [->|Hx].
      * by apply tcompare_gt.
      * rewrite list.Forall_forall in Hall. auto.
Qed.

Lemma bremove_filter k m : bremove k m = filter (λ e, k ≠ e.1) m.
Proof.
  induction m as [|[k0 v0] m IH]; simpl; [done|].
  destruct (teqb k k0) eqn:E.
  - apply teqb_eq in E as ->. rewrite filter_cons_False; [done|]. simpl. naive_solver.
  - apply teqb_neq in E. rewrite filter_cons_True by done. by f_equal.
Qed.

Lemma sorted_sublist m m' : m' `sublist_of` m → sorted m → sorted m'.
Proof.
  unfold sorted, bkeys. induction 1 as [|[k v] m' m Hsub IH|[k v] m' m Hsub IH];
    simpl; intros Hs; [done| |]; inversion Hs as [|? ? Hs' Hall]; subst.
  - constructor; [auto|]. rewrite list.Forall_forall in Hall |- *.
    intros x Hx. apply Hall. apply list_elem_of_fmap in Hx as (e & -> & He).
    apply list_elem_of_fmap. exists e. split; [done|].
    eapply elem_of_submseteq; [exact He|]. by apply sublist_submseteq.
  - auto.
Qed.

Lemma sorted_bremove k m : sorted m → sorted (bremove k m).
Proof. rewrite bremove_filter. apply sorted_sublist, sublist_filter. Qed.

Lemma sorted_NoDup m : sorted m → NoDup (bkeys m).
Proof. apply StronglySorted_NoDup. Qed.
End lookup_lemmas.

(** ** Extensionality and order independence *)

Section extensionality.
Context {K V : Type} `{TotalOrder K}.
Implicit Types (m : btree K V) (k : K).

Lemma bget_below m k k0 : Forall (tlt k0) (bkeys m) → (k = k0 ∨ tlt k k0) → bget k m = None.
Proof.
  intros Hall Hk. apply bget_None. intros Hin. rewrite list.Forall_forall in Hall.
  specialize (Hall _ Hin). destruct Hk as [->|Hk].
  - exact (tlt_irrefl _ Hall).
  - exact (tlt_asym _ _ Hk Hall).
Qed.

(** Two sorted maps with the same lookups are the same list of entries. *)
Lemma btree_ext m1 m2 : sorted m1 → sorted m2 → (∀ k, bget k m1 = bget k m2) → m1 = m2.
Proof.
  unfold sorted. revert m2. induction m1 as [|[k1 v1] m1 IH]; intros [|[k2 v2] m2] Hs1 Hs2 Hext.
  - done.
  - specialize (Hext k2). simpl in Hext. by rewrite teqb_refl in Hext.
  - specialize (Hext k1). simpl in Hext. by rewrite teqb_refl in Hext.
  - inversion Hs1 as [|? ? Hs1' Hall1]; inversion Hs2 as [|? ? Hs2' Hall2]; subst.
    assert (k1 = k2 ∧ v1 = v2) as [-> ->].
    { pose proof (Hext k1) as E1. pose proof (Hext k2) as E2. simpl in E1, E2.
      rewrite !teqb_refl in E1, E2.
      destruct (tlt_trichotomy k1 k2) as [Hlt|[->|Hlt]].
      - rewrite (proj2 (teqb_neq k1 k2)) in E1 by (intros ->; by apply tlt_irrefl in Hlt).
        rewrite (bget_below m2 k1 k2) in E1 by auto. done.
      - rewrite teqb_refl in E1. by simplify_eq.
      - rewrite (proj2 (teqb_neq k2 k1)) in E2 by (intros ->; by apply tlt_irrefl in Hlt).
        rewrite (bget_below m1 k2 k1) in E2 by auto. done. }
    f_equal. apply IH; [done|done|]. intros k. specialize (Hext k). simpl in Hext.
    destruct (teqb k k2) eqn:E; [|done]. apply teqb_eq in E as ->.
    by rewrite (bget_below m1 k2 k2), (bget_below m2 k2 k2) by auto.
Qed.

Lemma binsert_comm k1 v1 k2 v2 m :
  sorted m → k1 ≠ k2 →
  binsert k1 v1 (binsert k2 v2 m) = binsert k2 v2 (binsert k1 v1 m).
Proof.
  intros Hs Hne. apply btree_ext; auto using sorted_binsert.
  intros k. rewrite !bget_binsert.
  destruct (teqb k k1) eqn:E1, (teqb k k2) eqn:E2; try done.
  apply teqb_eq in E1, E2. congruence.
Qed.

Lemma bremove_binsert k v m :
  sorted m → bget k m = None → bremove k (binsert k v m) = m.
Proof.
  intros Hs Hn. apply btree_ext; auto using sorted_binsert, sorted_bremove.
  intros k'. rewrite bget_bremove, bget_binsert. destruct (teqb k' k) eqn:E; [|done].
  by apply teqb_eq in E as ->.
Qed.

Lemma binsert_bremove k v m :
  sorted m → bget k m = Some v → binsert k v (bremove k m) = m.
Proof.
  intros Hs Hn. apply btree_ext; auto using sorted_binsert, sorted_bremove.
  intros k'. rewrite bget_binsert, bget_bremove. destruct (teqb k' k) eqn:E; [|done].
  by apply teqb_eq in E as ->.
Qed.

Lemma binsert_id k v m : sorted m → bget k m = Some v → binsert k v m = m.
Proof.
  intros Hs Hn. apply btree_ext; auto using sorted_binsert.
  intros k'. rewrite bget_binsert. destruct (teqb k' k) eqn:E; [|done].
  by apply teqb_eq in E as ->.
Qed.

Lemma length_binsert k v m :
  sorted m → length (binsert k v m) = if bcontains k m then length m else S (length m).
Proof.
  unfold sorted, bcontains. induction m as [|[k0 v0] m IH]; simpl; [done|]. intros Hs.
  inversion Hs as [|? ? Hs' Hall]; subst. destruct (tcompare k k0) eqn:E.
  - apply tcompare_eq in E as ->. by rewrite teqb_refl.
  - rewrite (proj2 (teqb_neq k k0)) by (intros ->; by rewrite tcompare_refl in E).
    by rewrite (bget_below m k k0) by auto.
  - rewrite (proj2 (teqb_neq k k0)) by (intros ->; by rewrite tcompare_refl in E).
    simpl. rewrite IH by done. by destruct (bget k m).
Qed.

Lemma zlen_binsert_new k v m : sorted m → bget k m = None → zlen (binsert k v m) = 1 + zlen m.
Proof.
  intros Hs Hn. unfold zlen. rewrite length_binsert by done. unfold bcontains. rewrite Hn. lia.
Qed.

Lemma zlen_binsert_old k v m : sorted m → is_Some (bget k m) → zlen (binsert k v m) = zlen m.
Proof.
  intros Hs [w Hn]. unfold zlen. rewrite length_binsert by done. unfold bcontains. by rewrite Hn.
Qed.

Lemma zlen_bremove k v m : sorted m → bget k m = Some v → zlen m = 1 + zlen (bremove k m).
Proof.
  intros Hs Hg. rewrite <-(binsert_bremove k v m) at 1 by done.
  apply zlen_binsert_new; [by apply sorted_bremove|apply bget_bremove_eq].
Qed.

Lemma bremove_None k m : bget k m = None → bremove k m = m.
Proof.
  induction m as [|[k0 v0] m IH]; simpl; [done|].
  destruct (teqb k k0) eqn:E; [done|]. intros Hn. by rewrite IH.
Qed.

Lemma binsert_perm k v m : bget k m = None → binsert k v m ≡ₚ (k, v) :: m.
Proof.
  induction m as [|[k0 v0] m IH]; simpl; [done|].
  destruct (teqb k k0) eqn:E; [done|]. apply teqb_neq in E. intros Hn.
  destruct (tcompare k k0) eqn:Ec; [by apply tcompare_eq in Ec|done|].
  rewrite IH by done. apply Permutation_swap.
Qed.

Lemma bremove_perm k v m : sorted m → bget k m = Some v → m ≡ₚ (k, v) :: bremove k m.
Proof.
  intros Hs Hg. rewrite <-(binsert_bremove k v m) at 1 by done.
  apply binsert_perm, bget_bremove_eq.
Qed.

(** Replacing a value. *)
Lemma binsert_replace k v m :
  sorted m → binsert k v m ≡ₚ (k, v) :: bremove k m.
Proof.
  intros Hs. rewrite (bremove_perm k v (binsert k v m)) by (auto using sorted_binsert, bget_binsert_eq).
  apply reflexive_eq. f_equal. apply btree_ext; auto using sorted_binsert, sorted_bremove. intros x.
  rewrite !bget_bremove, bget_binsert. by destruct (teqb x k).
Qed.

Lemma bkeys_bremove_perm k v m :
  sorted m → bget k m = Some v → bkeys m ≡ₚ k :: bkeys (bremove k m).
Proof. intros Hs Hg. exact (fmap_Permutation fst _ _ (bremove_perm k v m Hs Hg)). Qed.

Lemma bkeys_binsert_perm k v m : bget k m = None → bkeys (binsert k v m) ≡ₚ k :: bkeys m.
Proof. intros Hg. exact (fmap_Permutation fst _ _ (binsert_perm k v m Hg)). Qed.

Lemma bkeys_binsert_old k v m : sorted m → is_Some (bget k m) → bkeys (binsert k v m) = bkeys m.
Proof.
  unfold sorted. induction m as [|[k0 v0] m IH]; simpl; intros Hs [w Hg]; [done|].
  inversion Hs as [|? ? Hs' Hall]; subst. destruct (teqb k k0) eqn:E.
  - apply teqb_eq in E as ->. by rewrite tcompare_refl.
  - apply teqb_neq in E. destruct (tcompare k k0) eqn:Ec.
    + by apply tcompare_eq in Ec.
    + rewrite (bget_below m k k0) in Hg by auto. done.
    + simpl. f_equal. apply IH; eauto.
Qed.

Lemma bkeys_elem k m : k ∈ bkeys m ↔ is_Some (bget k m).
Proof.
  rewrite <-not_eq_None_Some, bget_None.
  destruct (decide (k ∈ bkeys m)); split; try done. intros Hn. by contradict Hn.
Qed.

Lemma sorted_bcollect l : sorted (K:=K) (V:=V) (bcollect l).
Proof.
  unfold bcollect. assert (sorted (K:=K) (V:=V) []) as Hs by constructor. revert Hs.
  generalize (@nil (K * V)). induction l as [|[k v] l IH]; intros m Hs; simpl; [done|].
  apply IH. by apply sorted_binsert.
Qed.
End extensionality.

#[export] Hint Resolve sorted_binsert sorted_bremove sorted_bcollect sorted_NoDup : arbor.

(** ** Binary search *)

(** ** Extending a map *)

(** [BTreeMap::extend]. *)
Definition bextend {K V : Type} `{TotalOrder K} (m : btree K V) (l : list (K * V)) : btree K V :=
  foldl (λ m e, binsert e.1 e.2 m) m l.

Section extend.
Context {K V : Type} `{TotalOrder K}.

Lemma bextend_app (m : btree K V) l1 l2 : bextend m (l1 ++ l2) = bextend (bextend m l1) l2.
Proof. apply foldl_app. Qed.

Lemma bextend_cons (m : btree K V) e l : bextend m (e :: l) = bextend (binsert e.1 e.2 m) l.
Proof. done. Qed.

Lemma sorted_bextend (m : btree K V) l : sorted m → sorted (bextend m l).
Proof. revert m. induction l as [|e l IH]; intros m Hm; [done|]. by apply IH, sorted_binsert. Qed.

(** A key keeps the value of the map when the list does not have it. *)
Lemma bget_bextend_notin (m : btree K V) l k : k ∉ l.*1 → bget k (bextend m l) = bget k m.
Proof.
  revert m. induction l as [|e l IH]; intros m Hk; [done|]. rewrite fmap_cons in Hk.
  apply not_elem_of_cons in Hk as [Hne Hk].
  rewrite bextend_cons, IH by done. by apply bget_binsert_ne.
Qed.

Definition functional (l : list (K * V)) : Prop := ∀ k v v', (k, v) ∈ l → (k, v') ∈ l → v = v'.

Lemma bget_bextend_in (m : btree K V) l k v : functional l → (k, v) ∈ l → bget k (bextend m l) = Some v.
Proof.
  revert m. induction l as [|[k' v'] l IH] using rev_ind; intros m Hf Hin; [by apply elem_of_nil in Hin|].
  rewrite bextend_app. cbn [bextend foldl fst snd]. destruct (decide (k = k')) as [->|Hne].
  - rewrite bget_binsert_eq. f_equal. eapply Hf; [|exact Hin]. apply elem_of_app. right. by left.
  - rewrite bget_binsert_ne by done. apply IH.
    + intros k0 v1 v2 H1 H2. eapply Hf; apply elem_of_app; by left.
    + apply elem_of_app in Hin as [Hin|Hin]; [done|]. apply list_elem_of_singleton in Hin. congruence.
Qed.

Lemma bget_bextend_inv (m : btree K V) l k v :
  bget k (bextend m l) = Some v → bget k m = Some v ∨ (k, v) ∈ l.
Proof.
  revert m. induction l as [|[k' v'] l IH]; intros m Hg; [by left|]. rewrite bextend_cons in Hg. cbn [fst snd] in Hg.
  apply IH in Hg as [Hg|Hg]; [|right; by right].
  rewrite bget_binsert in Hg. destruct (teqb k k') eqn:E; [|by left].
  apply teqb_eq in E as ->. injection Hg as ->. right. by left.
Qed.

(** The order of a list without conflicting entries does not matter. *)
Lemma bextend_same (m : btree K V) l1 l2 :
  sorted m → functional l1 → (∀ e, e ∈ l1 ↔ e ∈ l2) → bextend m l1 = bextend m l2.
Proof.
  intros Hm Hf Heq. apply btree_ext; [by apply sorted_bextend..|]. intros k.
  assert (functional l2) as Hf2 by (intros k0 v v' H1 H2; apply Heq in H1, H2; by eapply Hf).
  destruct (decide (k ∈ l1.*1)) as [Hin|Hin].
  - apply list_elem_of_fmap in Hin as ([k' v] & -> & Hin). cbn.
    rewrite (bget_bextend_in _ l1 _ v), (bget_bextend_in _ l2 _ v); auto. by apply Heq.
  - rewrite !bget_bextend_notin; [done| |done]. intros ([k' v] & -> & Hin2)%list_elem_of_fmap.
    apply Hin. apply list_elem_of_fmap. exists (k', v). split; [done|]. by apply Heq.
Qed.
End extend.


(** The comparator is monotone along the slice, as a sorted slice makes it. *)
Definition partitioned {A : Type} (f : A → comparison) (l : list A) : Prop :=
  ∀ i j a b, (i <= j)%nat → l !! i = Some a → l !! j = Some b →
    (f a = Gt → f b = Gt) ∧ (f b = Lt → f a = Lt).

Section binary_search.
Context {A : Type} (f : A → comparison) (l : list A).
Hypothesis Hpart : partitioned f l.

Lemma bsearch_loop_spec fuel base size :
  (size <= fuel)%nat → (1 <= size)%nat → (base + size <= length l)%nat →
  (∀ j a, l !! j = Some a → (base + size <= j)%nat → f a = Gt) →
  (base = 0%nat ∨ ∀ a, l !! base = Some a → f a ≠ Gt) →
  let r := bsearch_loop fuel f l base size in
  (r < length l)%nat ∧
  (∀ j a, l !! j = Some a → (r < j)%nat → f a = Gt) ∧
  (r = 0%nat ∨ ∀ a, l !! r = Some a → f a ≠ Gt).
Proof.
  revert base size. induction fuel as [|fuel IH]; intros base size Hf Hs Hlen Hgt Hlow; cbn [bsearch_loop]; cbv zeta.
  - lia.
  - destruct (Nat.leb_spec size 1) as [H1|H1].
    + split; [lia|]. split; [|done]. intros j a Hj Hr. apply (Hgt j a Hj). lia.
    + pose proof (Nat.div_lt size 2 ltac:(lia) ltac:(lia)).
      assert (1 <= size / 2)%nat by (apply Nat.div_le_lower_bound; lia).
      destruct (lookup_lt_is_Some_2 l (base + size / 2)) as [c Hc]; [lia|].
      rewrite Hc; cbn [fmap option_fmap option_map].
      assert (f c ≠ Gt ∨ f c = Gt) as [Hng|Hg] by (destruct (f c); auto).
      * replace (match f c with Gt => base | _ => (base + size / 2)%nat end)
          with (base + size / 2)%nat by (destruct (f c); done).
        apply IH; [lia|lia|lia| |].
        -- intros j a Hj Hr. apply (Hgt j a Hj). lia.
        -- right. intros a Ha. by simplify_eq.
      * rewrite Hg. apply IH; [lia|lia|lia| |done].
        intros j a Hj Hr. destruct (Hpart (base + size / 2)%nat j c a) as [Hup _]; auto.
        destruct (Nat.le_gt_cases (base + size / 2)%nat j); [done|].
        pose proof (Nat.Div0.div_mod size 2). pose proof (Nat.mod_upper_bound size 2). lia.
Qed.
End binary_search.

(** On a monotone comparator [Ok(i)] is a match, and [Err(i)] is the insertion
    point: everything before it is smaller, everything from it on is greater. *)
Lemma binary_search_by_spec {A : Type} (f : A → comparison) (l : list A) :
  partitioned f l →
  match binary_search_by f l with
  | inl i => ∃ a, l !! i = Some a ∧ f a = Eq
  | inr i => (i <= length l)%nat ∧
      ∀ j a, l !! j = Some a → f a = if (j <? i)%nat then Lt else Gt
  end.
Proof.
  intros Hp. destruct l as [|x l]; [split; [done|]; by intros j a|].
  set (L := x :: l). change (binary_search_by f L) with
    (let base := bsearch_loop (length L) f L 0 (length L) in
     match f <$> L !! base with Some Eq => inl base | Some Lt => inr (S base)
     | _ => inr base end); cbv zeta.
  destruct (bsearch_loop_spec f L Hp (length L) 0 (length L)) as (Hlt & Hgt & Hlow);
    [done|simpl; lia|simpl; lia| |by left|].
  { intros j a Hj%lookup_lt_Some Hr. lia. }
  set (r := bsearch_loop _ _ _ _ _) in *.
  destruct (lookup_lt_is_Some_2 L r Hlt) as [c Hc]. rewrite Hc; cbn [fmap option_fmap option_map].
  destruct (f c) eqn:Efc.
  - eauto.
  - split; [lia|]. intros j a Hj. destruct (Nat.ltb_spec j (S r)) as [Hjr|Hjr].
    + by apply (Hp j r a c); [lia| | |].
    + apply (Hgt j a Hj). lia.
  - split; [lia|]. destruct Hlow as [->|Hlow]; [|by specialize (Hlow c Hc)].
    intros j a Hj. simpl. by apply (Hp 0%nat j c a); [lia| | |].
Qed.

Lemma binary_search_by_inl {A : Type} (f : A → comparison) (l : list A) i :
  binary_search_by f l = inl i → ∃ a, l !! i = Some a ∧ f a = Eq.
Proof.
  unfold binary_search_by. destruct l as [|x l]; [done|].
  set (r := bsearch_loop _ _ _ _ _). intros Hr.
  destruct ((x :: l) !! r) as [c|] eqn:Hc; cbn [fmap option_fmap option_map] in Hr; [|done].
  destruct (f c) eqn:E; simplify_eq. eauto.
Qed.

Lemma partitioned_by_key {A K : Type} `{TotalOrder K} (key : A → K) k (l : list A) :
  StronglySorted tlt (key <$> l) → partitioned (λ a, tcompare (key a) k) l.
Proof.
  intros Hs i j a b Hij Ha Hb.
  destruct (decide (i = j)) as [->|Hne]; [by simplify_eq|].
  assert (tlt (key a) (key b)) as Hlt.
  { eapply (StronglySorted_lookup_lt _ _ i j); [exact Hs| | |lia];
      rewrite list_lookup_fmap, ?Ha, ?Hb; done. }
  split.
  - rewrite !tcompare_gt. intros Hk. by eapply tlt_trans.
  - intros Hk. by eapply tlt_trans.
Qed.

Lemma binary_search_by_key_complete {A K : Type} `{TotalOrder K} (key : A → K) a (l : list A) :
  StronglySorted tlt (key <$> l) → a ∈ l →
  ∃ i, binary_search_by_key key (key a) l = inl i ∧ l !! i = Some a.
Proof.
  intros Hs [j Hj]%list_elem_of_lookup.
  pose proof (binary_search_by_spec _ _ (partitioned_by_key key (key a) l Hs)) as Hspec.
  fold (binary_search_by_key key (key a) l) in Hspec.
  destruct (binary_search_by_key key (key a) l) as [i|i].
  - destruct Hspec as (b & Hb & Heq). exists i. split; [done|]. apply tcompare_eq in Heq.
    assert (i = j) as ->; [|congruence].
    apply (NoDup_lookup (key <$> l) i j (key a)); [by apply StronglySorted_NoDup| |];
      rewrite list_lookup_fmap, ?Hb, ?Hj; simpl; congruence.
  - destruct Hspec as [_ Hall]. specialize (Hall j a Hj). rewrite tcompare_refl in Hall.
    by destruct (j <? i)%nat.
Qed.

Lemma binary_search_by_key_inl {A K : Type} `{TotalOrder K} (key : A → K) k (l : list A) i :
  binary_search_by_key key k l = inl i → ∃ a, l !! i = Some a ∧ key a = k.
Proof. intros (a & Ha & E%tcompare_eq)%binary_search_by_inl. eauto. Qed.

Lemma binary_search_by_key_inr {A K : Type} `{TotalOrder K} (key : A → K) k (l : list A) i :
  StronglySorted tlt (key <$> l) → binary_search_by_key key k l = inr i →
  (i <= length l)%nat ∧
  ∀ j a, l !! j = Some a → if (j <? i)%nat then tlt (key a) k else tlt k (key a).
Proof.
  intros Hs Hr.
  pose proof (binary_search_by_spec _ _ (partitioned_by_key key k l Hs)) as Hspec.
  unfold binary_search_by_key in Hr. rewrite Hr in Hspec. destruct Hspec as [Hi Hall].
  split; [done|]. intros j a Hj. specialize (Hall j a Hj).
  destruct (j <? i)%nat; [done|]. by apply tcompare_gt.
Qed.

(** A partition point splits a partitioned slice into the two filters. *)
Lemma partition_point_split {A : Type} (pred : A → bool) (l : list A) :
  partitioned (λ a, if pred a then Lt else Gt) l →
  take (partition_point pred l) l = List.filter pred l ∧
  drop (partition_point pred l) l = List.filter (λ a, negb (pred a)) l.
Proof.
  intros Hp. pose proof (binary_search_by_spec _ _ Hp) as Hs. unfold partition_point.
  destruct (binary_search_by _ l) as [i|i].
  - destruct Hs as (a & _ & Ha). by destruct (pred a).
  - destruct Hs as [Hi Hs].
    assert (Forall (λ a, pred a = true) (take i l)) as Ht.
    { apply Forall_lookup. intros j a Hj. pose proof (lookup_lt_Some _ _ _ Hj) as Hlt.
      rewrite length_take in Hlt. rewrite lookup_take in Hj.
      destruct (decide (j < i)%nat); [|done].
      specialize (Hs j a Hj). rewrite (proj2 (Nat.ltb_lt j i)) in Hs by lia. by destruct (pred a). }
    assert (Forall (λ a, pred a = false) (drop i l)) as Hd.
    { apply Forall_lookup. intros j a Hj. rewrite lookup_drop in Hj.
      specialize (Hs _ a Hj). rewrite (proj2 (Nat.ltb_ge (i + j) i)) in Hs by lia.
      by destruct (pred a). }
    rewrite <-(take_drop i l) at 2 4. rewrite !List.filter_app.
    clear -Ht Hd. split.
    + replace (List.filter pred (drop i l)) with (@nil A); [rewrite app_nil_r|];
        [induction Ht as [|a k Ha _ IH]|induction Hd as [|a k Ha _ IH]]; simpl; rewrite ?Ha; congruence.
    + replace (List.filter _ (take i l)) with (@nil A); [rewrite app_nil_l|];
        [induction Hd as [|a k Ha _ IH]|induction Ht as [|a k Ha _ IH]]; simpl; rewrite ?Ha; simpl;
        congruence.
Qed.

Lemma partition_point_length {A : Type} (pred : A → bool) (l : list A) :
  partitioned (λ a, if pred a then Lt else Gt) l →
  partition_point pred l = length (List.filter pred l).
Proof.
  intros Hp. destruct (partition_point_split pred l Hp) as [<- _]. rewrite length_take.
  pose proof (binary_search_by_spec _ _ Hp) as Hs. unfold partition_point.
  destruct (binary_search_by _ l) as [i|i].
  - destruct Hs as (a & _ & Ha). by destruct (pred a).
  - lia.
Qed.

(** ** Sorting *)

Lemma sort_insert_perm {A K : Type} `{TotalOrder K} (key : A → K) a l :
  sort_insert key a l ≡ₚ a :: l.
Proof.
  induction l as [|b l IH]; simpl; [done|]. destruct (tltb (key b) (key a)); [|done].
  rewrite IH. apply Permutation_swap.
Qed.

Lemma sort_by_key_perm {A K : Type} `{TotalOrder K} (key : A → K) l : sort_by_key key l ≡ₚ l.
Proof. induction l as [|a l IH]; simpl; [done|]. by rewrite sort_insert_perm, IH. Qed.

Section sorting.
Context {A K : Type} `{TotalOrder K} (key : A → K).

Definition key_le (a b : A) : Prop := tltb (key b) (key a) = false.

Lemma key_le_trans a b c : key_le a b → key_le b c → key_le a c.
Proof.
  unfold key_le. rewrite <-!not_true_iff_false, !tltb_tlt. intros Hab Hbc Hca.
  destruct (tlt_trichotomy (key a) (key b)) as [Hl|[E|Hl]]; [|by rewrite E in Hca|done].
  apply Hbc. by eapply tlt_trans.
Qed.

Lemma sort_insert_sorted a l : StronglySorted key_le l → StronglySorted key_le (sort_insert key a l).
Proof.
  induction 1 as [|b l Hs IH Hb]; cbn; [repeat constructor|].
  destruct (tltb (key b) (key a)) eqn:E.
  - constructor; [done|]. rewrite sort_insert_perm. constructor; [|done]. unfold key_le.
    apply not_true_iff_false. rewrite tltb_tlt. apply tltb_tlt in E. by apply tlt_asym.
  - constructor; [by constructor|]. constructor; [done|]. eapply list.Forall_impl; [exact Hb|].
    intros c Hc. by eapply key_le_trans.
Qed.

Lemma sort_by_key_sorted l : StronglySorted key_le (sort_by_key key l).
Proof. induction l as [|a l IH]; cbn; [constructor|]. by apply sort_insert_sorted. Qed.

(** A prefix of a sorted list is closed downwards. *)
Lemma sorted_prefix l1 l2 x y :
  StronglySorted key_le (l1 ++ l2) → x ∈ l1 → y ∈ l1 ++ l2 → tlt (key y) (key x) → y ∈ l1.
Proof.
  intros Hs Hx Hy Hlt. apply elem_of_app in Hy as [Hy|Hy]; [done|]. exfalso.
  induction l1 as [|a l1 IH]; [by apply elem_of_nil in Hx|]. cbn in Hs. apply StronglySorted_inv in Hs as [Hs Ha].
  apply elem_of_cons in Hx as [->|Hx]; [|by apply IH]. rewrite list.Forall_forall in Ha.
  specialize (Ha y ltac:(apply elem_of_app; by right)). unfold key_le in Ha.
  rewrite <-not_true_iff_false, tltb_tlt in Ha. done.
Qed.
End sorting.
