(* ===== verification/Primitives.v ===== *)
(** The consensus-facing data types of [arbor-primitives].

    Identifiers and hashes are byte strings, numbers are [Z]; the [wf]
    predicates state what the Rust types guarantee (array lengths, integer
    widths, UTF-8 strings). *)

From S2P Require Import Prelude Bytes.

Local Open Scope Z_scope.

Definition PROTOCOL_VERSION : Z := 1.
Definition CANONICAL_CODEC_VERSION : Z := 1.

(** The newtypes around [B256] and [u64]. *)
Definition NetworkId : Type := bytes.
Definition DomainId : Type := bytes.
Definition ValidatorId : Type := bytes.
Definition ConsensusHeight : Type := Z.
Definition DomainNumber : Type := Z.
Definition ConsensusRound : Type := Z.
Definition VotePhase : Type := Z.
Definition ConsensusPublicKey : Type := bytes.
Definition ConsensusSignature : Type := bytes.

Record ConsensusBlockHeader := {
  ch_protocol_version : Z;
  ch_network_id : NetworkId;
  ch_height : ConsensusHeight;
  ch_parent_hash : bytes;
  ch_timestamp : Z;
  ch_batches_root : bytes;
  ch_domain_results_root : bytes;
  ch_domain_heads_root : bytes;
  ch_validator_set_hash : bytes;
  ch_next_validator_set_hash : bytes;
  ch_proposer : bytes;
}.

Record DomainBatch := {
  db_domain_id : DomainId;
  db_parent_domain_block_hash : bytes;
  db_transactions : list bytes;
}.

Record DomainBlockHeader := {
  dh_protocol_version : Z;
  dh_domain_id : DomainId;
  dh_number : DomainNumber;
  dh_parent_hash : bytes;
  dh_consensus_height : ConsensusHeight;
  dh_transactions_root : bytes;
  dh_state_root : bytes;
  dh_receipts_root : bytes;
  dh_logs_bloom : bytes;
  dh_gas_limit : Z;
  dh_gas_used : Z;
  dh_base_fee_per_gas : Z;
}.

Record Log := {
  log_address : bytes;
  log_topics : list bytes;
  log_data : bytes;
}.

Record Receipt := {
  rc_status : bool;
  rc_cumulative_gas_used : Z;
  rc_logs_bloom : bytes;
  rc_logs : list Log;
}.

Record AccessListItem := {
  al_address : bytes;
  al_storage_keys : list bytes;
}.

Record Eip1559Transaction := {
  tx_chain_id : Z;
  tx_nonce : Z;
  tx_max_priority_fee_per_gas : Z;
  tx_max_fee_per_gas : Z;
  tx_gas_limit : Z;
  tx_to : option bytes;
  tx_value : Z;
  tx_input : bytes;
  tx_access_list : list AccessListItem;
  tx_y_parity : bool;
  tx_r : Z;
  tx_s : Z;
}.

Inductive DomainStatus := Pending | Active | Frozen.

(** [status as u8]. *)
Definition status_u8 (s : DomainStatus) : Z :=
  match s with Pending => 0 | Active => 1 | Frozen => 2 end.

Record DomainDescriptor := {
  dd_domain_id : DomainId;
  dd_parent_domain_id : DomainId;
  dd_joint_domain_block_hash : bytes;
  dd_create_tx_hash : bytes;
  dd_origin_hash : bytes;
  dd_name : bytes;
  dd_symbol : bytes;
  dd_evm_chain_id : Z;
  dd_owner : bytes;
  dd_protocol_revision : Z;
  dd_gas_limit : Z;
  dd_initial_base_fee : Z;
  dd_initial_supply : Z;
  dd_creation_deposit : Z;
  dd_status : DomainStatus;
}.

Record DomainGenesis := {
  dg_domain_id : DomainId;
  dg_parent_domain_id : DomainId;
  dg_joint_domain_block_hash : bytes;
  dg_create_tx_hash : bytes;
  dg_name : bytes;
  dg_symbol : bytes;
  dg_evm_chain_id : Z;
  dg_owner : bytes;
  dg_protocol_revision : Z;
  dg_gas_limit : Z;
  dg_initial_base_fee : Z;
  dg_initial_supply : Z;
  dg_initial_state_root : bytes;
}.

Record Validator := {
  vd_id : ValidatorId;
  vd_public_key : ConsensusPublicKey;
  vd_power : Z;
}.

Record ValidatorSet := {
  vs_epoch : Z;
  vs_validators : list Validator;
}.

Record Vote := {
  vt_network_id : NetworkId;
  vt_height : ConsensusHeight;
  vt_round : ConsensusRound;
  vt_phase : VotePhase;
  vt_block_hash : bytes;
  vt_validator_id : ValidatorId;
}.

Record CommitSignature := {
  cs_validator_id : ValidatorId;
  cs_signature : ConsensusSignature;
}.

Record QuorumCertificate := {
  qc_network_id : NetworkId;
  qc_height : ConsensusHeight;
  qc_round : ConsensusRound;
  qc_phase : VotePhase;
  qc_block_hash : bytes;
  qc_signatures : list CommitSignature;
}.

(** ** Type invariants *)

Definition is_bloom (b : bytes) : Prop := length b = 256%nat.
Definition is_string (b : bytes) : Prop := utf8_valid b = true.
Definition is_pubkey (b : bytes) : Prop := length b = 33%nat.
Definition is_signature (b : bytes) : Prop := length b = 64%nat.

Definition wf_consensus_header (h : ConsensusBlockHeader) : Prop :=
  u32 (ch_protocol_version h) ∧ is_b256 (ch_network_id h) ∧ u64 (ch_height h) ∧
  is_b256 (ch_parent_hash h) ∧ u64 (ch_timestamp h) ∧ is_b256 (ch_batches_root h) ∧
  is_b256 (ch_domain_results_root h) ∧ is_b256 (ch_domain_heads_root h) ∧
  is_b256 (ch_validator_set_hash h) ∧ is_b256 (ch_next_validator_set_hash h) ∧
  is_address (ch_proposer h).

Definition wf_domain_header (h : DomainBlockHeader) : Prop :=
  u32 (dh_protocol_version h) ∧ is_b256 (dh_domain_id h) ∧ u64 (dh_number h) ∧
  is_b256 (dh_parent_hash h) ∧ u64 (dh_consensus_height h) ∧
  is_b256 (dh_transactions_root h) ∧ is_b256 (dh_state_root h) ∧
  is_b256 (dh_receipts_root h) ∧ is_bloom (dh_logs_bloom h) ∧ u64 (dh_gas_limit h) ∧
  u64 (dh_gas_used h) ∧ u128 (dh_base_fee_per_gas h).

Definition wf_domain_batch (b : DomainBatch) : Prop :=
  is_b256 (db_domain_id b) ∧ is_b256 (db_parent_domain_block_hash b).

Definition wf_domain_descriptor (d : DomainDescriptor) : Prop :=
  is_b256 (dd_domain_id d) ∧ is_b256 (dd_parent_domain_id d) ∧
  is_b256 (dd_joint_domain_block_hash d) ∧ is_b256 (dd_create_tx_hash d) ∧
  is_b256 (dd_origin_hash d) ∧ is_string (dd_name d) ∧ is_string (dd_symbol d) ∧
  u64 (dd_evm_chain_id d) ∧ is_address (dd_owner d) ∧ u32 (dd_protocol_revision d) ∧
  u64 (dd_gas_limit d) ∧ u128 (dd_initial_base_fee d) ∧ u256 (dd_initial_supply d) ∧
  u256 (dd_creation_deposit d).

Definition wf_domain_genesis (g : DomainGenesis) : Prop :=
  is_b256 (dg_domain_id g) ∧ is_b256 (dg_parent_domain_id g) ∧
  is_b256 (dg_joint_domain_block_hash g) ∧ is_b256 (dg_create_tx_hash g) ∧
  is_string (dg_name g) ∧ is_string (dg_symbol g) ∧ u64 (dg_evm_chain_id g) ∧
  is_address (dg_owner g) ∧ u32 (dg_protocol_revision g) ∧ u64 (dg_gas_limit g) ∧
  u128 (dg_initial_base_fee g) ∧ u256 (dg_initial_supply g) ∧
  is_b256 (dg_initial_state_root g).

Definition wf_validator (v : Validator) : Prop :=
  is_b256 (vd_id v) ∧ is_pubkey (vd_public_key v) ∧ u64 (vd_power v).

Definition wf_validator_set (s : ValidatorSet) : Prop :=
  u64 (vs_epoch s) ∧ Forall wf_validator (vs_validators s).

Definition wf_vote (v : Vote) : Prop :=
  is_b256 (vt_network_id v) ∧ u64 (vt_height v) ∧ u64 (vt_round v) ∧ u8 (vt_phase v) ∧
  is_b256 (vt_block_hash v) ∧ is_b256 (vt_validator_id v).

Definition wf_commit_signature (s : CommitSignature) : Prop :=
  is_b256 (cs_validator_id s) ∧ is_signature (cs_signature s).

Definition wf_quorum_certificate (q : QuorumCertificate) : Prop :=
  is_b256 (qc_network_id q) ∧ u64 (qc_height q) ∧ u64 (qc_round q) ∧ u8 (qc_phase q) ∧
  is_b256 (qc_block_hash q) ∧ Forall wf_commit_signature (qc_signatures q).

(** ** Decidable equality ([#[derive(Eq)]]) *)

#[export] Instance ConsensusBlockHeader_eq_dec : EqDecision ConsensusBlockHeader.
Proof. solve_decision. Defined.
#[export] Instance DomainBatch_eq_dec : EqDecision DomainBatch.
Proof. solve_decision. Defined.
#[export] Instance DomainBlockHeader_eq_dec : EqDecision DomainBlockHeader.
Proof. solve_decision. Defined.
#[export] Instance Log_eq_dec : EqDecision Log.
Proof. solve_decision. Defined.
#[export] Instance Receipt_eq_dec : EqDecision Receipt.
Proof. solve_decision. Defined.
#[export] Instance AccessListItem_eq_dec : EqDecision AccessListItem.
Proof. solve_decision. Defined.
#[export] Instance Eip1559Transaction_eq_dec : EqDecision Eip1559Transaction.
Proof. solve_decision. Defined.
#[export] Instance DomainStatus_eq_dec : EqDecision DomainStatus.
Proof. solve_decision. Defined.
#[export] Instance DomainDescriptor_eq_dec : EqDecision DomainDescriptor.
Proof. solve_decision. Defined.
#[export] Instance DomainGenesis_eq_dec : EqDecision DomainGenesis.
Proof. solve_decision. Defined.
#[export] Instance Validator_eq_dec : EqDecision Validator.
Proof. solve_decision. Defined.
#[export] Instance ValidatorSet_eq_dec : EqDecision ValidatorSet.
Proof. solve_decision. Defined.
#[export] Instance Vote_eq_dec : EqDecision Vote.
Proof. solve_decision. Defined.
#[export] Instance CommitSignature_eq_dec : EqDecision CommitSignature.
Proof. solve_decision. Defined.
#[export] Instance QuorumCertificate_eq_dec : EqDecision QuorumCertificate.
Proof. solve_decision. Defined.

(** ** The type invariants are decidable *)

Ltac solve_wf_decision := unfold is_b256, is_address, is_bloom, is_string, is_pubkey,
  is_signature; apply _.

#[export] Instance wf_consensus_header_dec h : Decision (wf_consensus_header h).
Proof. unfold wf_consensus_header; solve_wf_decision. Defined.
#[export] Instance wf_domain_header_dec h : Decision (wf_domain_header h).
Proof. unfold wf_domain_header; solve_wf_decision. Defined.
#[export] Instance wf_domain_batch_dec b : Decision (wf_domain_batch b).
Proof. unfold wf_domain_batch; solve_wf_decision. Defined.
#[export] Instance wf_domain_descriptor_dec d : Decision (wf_domain_descriptor d).
Proof. unfold wf_domain_descriptor; solve_wf_decision. Defined.
#[export] Instance wf_domain_genesis_dec g : Decision (wf_domain_genesis g).
Proof. unfold wf_domain_genesis; solve_wf_decision. Defined.
#[export] Instance wf_validator_dec v : Decision (wf_validator v).
Proof. unfold wf_validator; solve_wf_decision. Defined.
#[export] Instance wf_validator_set_dec s : Decision (wf_validator_set s).
Proof. unfold wf_validator_set; solve_wf_decision. Defined.
#[export] Instance wf_vote_dec v : Decision (wf_vote v).
Proof. unfold wf_vote; solve_wf_decision. Defined.
#[export] Instance wf_commit_signature_dec s : Decision (wf_commit_signature s).
Proof. unfold wf_commit_signature; solve_wf_decision. Defined.
#[export] Instance wf_quorum_certificate_dec q : Decision (wf_quorum_certificate q).
Proof. unfold wf_quorum_certificate; solve_wf_decision. Defined.
