(* ===== verification/Canonical.v ===== *)
(** The canonical codecs of [arbor-codec]: the bounded encoder and decoder, and
    the encodings of headers, batches, descriptors, genesis records, validator
    sets, votes and quorum certificates.

    Section [framework] relates the cursor of the decoder to the bytes that are
    left; the class [FieldCodec] states that a field decoder inverts a field encoder
    in both directions, and every object codec is proved canonical against it. *)

From S2P Require Import Prelude Bytes BTreeMap Primitives.

Local Open Scope Z_scope.

(** ** Limits and errors (src/crates/arbor-codec/src/lib.rs) *)

Definition MAX_TRANSACTION_ENVELOPE_BYTES : Z := 256 * 1024.
Definition MAX_CALLDATA_BYTES : Z := 128 * 1024.
Definition MAX_INITCODE_BYTES : Z := 49152.
Definition MAX_ACCESS_LIST_ADDRESSES : Z := 1024.
Definition MAX_ACCESS_LIST_STORAGE_KEYS : Z := 1024.
Definition MAX_BATCHES_PER_BLOCK : Z := 256.
Definition MAX_TRANSACTIONS_PER_BATCH : Z := 10000.
Definition MAX_CANONICAL_COLLECTION_ITEMS : Z := 65536.
Definition MAX_ACTIVE_VALIDATORS : Z := 100.
Definition MAX_CANONICAL_OBJECT_BYTES : Z := 16 * 1024 * 1024.

Inductive CodecError :=
| InputTooLarge (kind : string) (limit actual : Z)
| UnexpectedEof
| InvalidTag
| UnknownVersion (version : Z)
| TrailingBytes
| LimitExceeded (field : string) (limit actual : Z)
| InvalidUtf8 (field : string)
| InvalidValue (field : string)
| NonCanonicalOrder (field : string)
| Rlp (message : string).

#[export] Instance CodecError_eq_dec : EqDecision CodecError.
Proof. solve_decision. Defined.

(** ** Encoder and decoder (src/crates/arbor-codec/src/canonical.rs) *)

Definition CONSENSUS_HEADER_TAG : bytes := bstr "ARBOR_CONSENSUS_HEADER_V1".
Definition DOMAIN_HEADER_TAG : bytes := bstr "ARBOR_DOMAIN_HEADER_V1".
Definition DOMAIN_BATCH_TAG : bytes := bstr "ARBOR_DOMAIN_BATCH_V1".
Definition DOMAIN_DESCRIPTOR_TAG : bytes := bstr "ARBOR_DOMAIN_DESCRIPTOR_V1".
Definition DOMAIN_GENESIS_TAG : bytes := bstr "ARBOR_DOMAIN_GENESIS_V1".
Definition VALIDATOR_SET_TAG : bytes := bstr "ARBOR_VALIDATOR_SET_V1".
Definition VOTE_TAG : bytes := bstr "ARBOR_VOTE_V1".
Definition QC_TAG : bytes := bstr "ARBOR_QC_V1".

Definition check_limit (field : string) (actual limit : Z) : outcome CodecError unit :=
  if limit <? actual then Err (LimitExceeded field limit actual) else Ok tt.

Definition check_strictly_sorted {T : Type} `{TotalOrder T} (values : list T) (field : string)
    : outcome CodecError unit :=
  if (zlen values <? 2) || windows2_all tltb values
  then Ok tt
  else Err (NonCanonicalOrder field).

Module Encoder.

Definition tagged (tag : bytes) : bytes := tag ++ [byte_of CANONICAL_CODEC_VERSION].

Definition u8 (out : bytes) (value : Z) : bytes := out ++ [byte_of value].
Definition u32 (out : bytes) (value : Z) : bytes := out ++ to_be_bytes 4 value.
Definition u64 (out : bytes) (value : Z) : bytes := out ++ to_be_bytes 8 value.
Definition u128 (out : bytes) (value : Z) : bytes := out ++ to_be_bytes 16 value.
Definition b256 (out : bytes) (value : bytes) : bytes := out ++ value.
Definition address (out : bytes) (value : bytes) : bytes := out ++ value.
Definition bloom (out : bytes) (value : bytes) : bytes := out ++ value.
Definition u256 (out : bytes) (value : Z) : bytes := out ++ to_be_bytes 32 value.

Definition bytes_ (out value : bytes) : outcome CodecError bytes :=
  let? length := expect (try_from 32 (zlen value)) "protocol limits fit u32" in
  Ok (u32 out length ++ value).

Definition count (out : bytes) (value : Z) : outcome CodecError bytes :=
  let? value := expect (try_from 32 value) "protocol collection limits fit u32" in
  Ok (u32 out value).

Definition finish (out : bytes) : outcome CodecError bytes :=
  run? check_limit "canonical object" (zlen out) MAX_CANONICAL_OBJECT_BYTES in
  Ok out.

End Encoder.

Record Decoder := { input : bytes; position : Z }.

(** A field decoder returns the value and the advanced decoder. *)
Notation decodes A := (Decoder → outcome CodecError (A * Decoder)).

Module Decode.

Definition take (length : Z) : decodes bytes := fun d =>
  let? end_ := ok_or (checked_add 64 (position d) length) UnexpectedEof in
  let? value := ok_or (get_range (input d) (position d) end_) UnexpectedEof in
  Ok (value, {| input := input d; position := end_ |}).

Definition array (n : nat) : decodes bytes := fun d =>
  let? '(value, d) := take (Z.of_nat n) d in
  if zlen value =? Z.of_nat n then Ok (value, d) else Err UnexpectedEof.

Definition u8 : decodes Z := fun d =>
  let? '(a, d) := array 1 d in
  let? b := expect (a !! 0%nat) "index out of bounds" in
  Ok (byte_val b, d).

Definition u32 : decodes Z := fun d =>
  let? '(a, d) := array 4 d in Ok (from_be_bytes a, d).

Definition u64 : decodes Z := fun d =>
  let? '(a, d) := array 8 d in Ok (from_be_bytes a, d).

Definition u128 : decodes Z := fun d =>
  let? '(a, d) := array 16 d in Ok (from_be_bytes a, d).

Definition b256 : decodes bytes := array 32.

Definition address : decodes bytes := array 20.

Definition bloom : decodes bytes := array 256.

Definition u256 : decodes Z := fun d =>
  let? '(a, d) := array 32 d in Ok (from_be_bytes a, d).

Definition count (field : string) (limit : Z) : decodes Z := fun d =>
  let? '(count, d) := u32 d in
  run? check_limit field count limit in
  Ok (count, d).

Definition bytes_ (field : string) (limit : Z) : decodes bytes := fun d =>
  let? '(length, d) := u32 d in
  run? check_limit field length limit in
  take length d.

Definition string_ (field : string) (limit : Z) : decodes bytes := fun d =>
  let? '(value, d) := bytes_ field limit d in
  if utf8_valid value then Ok (value, d) else Err (InvalidUtf8 field).

Definition finish (d : Decoder) : outcome CodecError unit :=
  if position d =? zlen (input d) then Ok tt else Err TrailingBytes.

Definition tagged (input : bytes) (tag : bytes) : outcome CodecError Decoder :=
  run? check_limit "canonical object" (zlen input) MAX_CANONICAL_OBJECT_BYTES in
  let decoder := {| input := input; position := 0 |} in
  let? '(t, decoder) := take (zlen tag) decoder in
  if negb (bool_decide (t = tag)) then Err InvalidTag
  else
    let? '(version, decoder) := u8 decoder in
    if negb (version =? CANONICAL_CODEC_VERSION) then Err (UnknownVersion version)
    else Ok decoder.

(** [for _ in 0..count { values.push(item(decoder)?) }]. *)
Fixpoint times {A : Type} (n : nat) (item : decodes A) (d : Decoder)
    : outcome CodecError (list A * Decoder) :=
  match n with
  | O => Ok ([], d)
  | S n' =>
      let? '(a, d) := item d in
      let? '(l, d) := times n' item d in
      Ok (a :: l, d)
  end.

End Decode.

(** ** Object codecs *)

Definition encode_consensus_header (value : ConsensusBlockHeader) : outcome CodecError bytes :=
  let out := Encoder.tagged CONSENSUS_HEADER_TAG in
  let out := Encoder.u32 out (ch_protocol_version value) in
  let out := Encoder.b256 out (ch_network_id value) in
  let out := Encoder.u64 out (ch_height value) in
  let out := Encoder.b256 out (ch_parent_hash value) in
  let out := Encoder.u64 out (ch_timestamp value) in
  let out := Encoder.b256 out (ch_batches_root value) in
  let out := Encoder.b256 out (ch_domain_results_root value) in
  let out := Encoder.b256 out (ch_domain_heads_root value) in
  let out := Encoder.b256 out (ch_validator_set_hash value) in
  let out := Encoder.b256 out (ch_next_validator_set_hash value) in
  let out := Encoder.address out (ch_proposer value) in
  Encoder.finish out.

Definition decode_consensus_header (input : bytes) : outcome CodecError ConsensusBlockHeader :=
  let? decoder := Decode.tagged input CONSENSUS_HEADER_TAG in
  let? '(protocol_version, decoder) := Decode.u32 decoder in
  let? '(network_id, decoder) := Decode.b256 decoder in
  let? '(height, decoder) := Decode.u64 decoder in
  let? '(parent_hash, decoder) := Decode.b256 decoder in
  let? '(timestamp, decoder) := Decode.u64 decoder in
  let? '(batches_root, decoder) := Decode.b256 decoder in
  let? '(domain_results_root, decoder) := Decode.b256 decoder in
  let? '(domain_heads_root, decoder) := Decode.b256 decoder in
  let? '(validator_set_hash, decoder) := Decode.b256 decoder in
  let? '(next_validator_set_hash, decoder) := Decode.b256 decoder in
  let? '(proposer, decoder) := Decode.address decoder in
  run? Decode.finish decoder in
  Ok {| ch_protocol_version := protocol_version;
        ch_network_id := network_id;
        ch_height := height;
        ch_parent_hash := parent_hash;
        ch_timestamp := timestamp;
        ch_batches_root := batches_root;
        ch_domain_results_root := domain_results_root;
        ch_domain_heads_root := domain_heads_root;
        ch_validator_set_hash := validator_set_hash;
        ch_next_validator_set_hash := next_validator_set_hash;
        ch_proposer := proposer |}.

Definition encode_domain_header (value : DomainBlockHeader) : outcome CodecError bytes :=
  let out := Encoder.tagged DOMAIN_HEADER_TAG in
  let out := Encoder.u32 out (dh_protocol_version value) in
  let out := Encoder.b256 out (dh_domain_id value) in
  let out := Encoder.u64 out (dh_number value) in
  let out := Encoder.b256 out (dh_parent_hash value) in
  let out := Encoder.u64 out (dh_consensus_height value) in
  let out := Encoder.b256 out (dh_transactions_root value) in
  let out := Encoder.b256 out (dh_state_root value) in
  let out := Encoder.b256 out (dh_receipts_root value) in
  let out := Encoder.bloom out (dh_logs_bloom value) in
  let out := Encoder.u64 out (dh_gas_limit value) in
  let out := Encoder.u64 out (dh_gas_used value) in
  let out := Encoder.u128 out (dh_base_fee_per_gas value) in
  Encoder.finish out.

Definition decode_domain_header (input : bytes) : outcome CodecError DomainBlockHeader :=
  let? decoder := Decode.tagged input DOMAIN_HEADER_TAG in
  let? '(protocol_version, decoder) := Decode.u32 decoder in
  let? '(domain_id, decoder) := Decode.b256 decoder in
  let? '(number, decoder) := Decode.u64 decoder in
  let? '(parent_hash, decoder) := Decode.b256 decoder in
  let? '(consensus_height, decoder) := Decode.u64 decoder in
  let? '(transactions_root, decoder) := Decode.b256 decoder in
  let? '(state_root, decoder) := Decode.b256 decoder in
  let? '(receipts_root, decoder) := Decode.b256 decoder in
  let? '(logs_bloom, decoder) := Decode.bloom decoder in
  let? '(gas_limit, decoder) := Decode.u64 decoder in
  let? '(gas_used, decoder) := Decode.u64 decoder in
  let? '(base_fee_per_gas, decoder) := Decode.u128 decoder in
  run? Decode.finish decoder in
  Ok {| dh_protocol_version := protocol_version;
        dh_domain_id := domain_id;
        dh_number := number;
        dh_parent_hash := parent_hash;
        dh_consensus_height := consensus_height;
        dh_transactions_root := transactions_root;
        dh_state_root := state_root;
        dh_receipts_root := receipts_root;
        dh_logs_bloom := logs_bloom;
        dh_gas_limit := gas_limit;
        dh_gas_used := gas_used;
        dh_base_fee_per_gas := base_fee_per_gas |}.

Definition encode_domain_batch (value : DomainBatch) : outcome CodecError bytes :=
  run? check_limit "domain batch transactions" (zlen (db_transactions value))
         MAX_TRANSACTIONS_PER_BATCH in
  let out := Encoder.tagged DOMAIN_BATCH_TAG in
  let out := Encoder.b256 out (db_domain_id value) in
  let out := Encoder.b256 out (db_parent_domain_block_hash value) in
  let? out := Encoder.count out (zlen (db_transactions value)) in
  let? out := for_each (fun out transaction =>
    run? check_limit "transaction envelope" (zlen transaction)
           MAX_TRANSACTION_ENVELOPE_BYTES in
    Encoder.bytes_ out transaction) out (db_transactions value) in
  Encoder.finish out.

Definition decode_domain_batch (input : bytes) : outcome CodecError DomainBatch :=
  let? decoder := Decode.tagged input DOMAIN_BATCH_TAG in
  let? '(domain_id, decoder) := Decode.b256 decoder in
  let? '(parent_domain_block_hash, decoder) := Decode.b256 decoder in
  let? '(count, decoder) :=
    Decode.count "domain batch transactions" MAX_TRANSACTIONS_PER_BATCH decoder in
  let? '(transactions, decoder) :=
    Decode.times (Z.to_nat count)
      (Decode.bytes_ "transaction envelope" MAX_TRANSACTION_ENVELOPE_BYTES) decoder in
  run? Decode.finish decoder in
  Ok {| db_domain_id := domain_id;
        db_parent_domain_block_hash := parent_domain_block_hash;
        db_transactions := transactions |}.

Definition encode_domain_descriptor (value : DomainDescriptor) : outcome CodecError bytes :=
  run? check_limit "domain name" (zlen (dd_name value)) 64 in
  run? check_limit "domain symbol" (zlen (dd_symbol value)) 16 in
  if dd_evm_chain_id value =? 0 then Err (InvalidValue "evm chain id")
  else
    let out := Encoder.tagged DOMAIN_DESCRIPTOR_TAG in
    let out := Encoder.b256 out (dd_domain_id value) in
    let out := Encoder.b256 out (dd_parent_domain_id value) in
    let out := Encoder.b256 out (dd_joint_domain_block_hash value) in
    let out := Encoder.b256 out (dd_create_tx_hash value) in
    let out := Encoder.b256 out (dd_origin_hash value) in
    let? out := Encoder.bytes_ out (dd_name value) in
    let? out := Encoder.bytes_ out (dd_symbol value) in
    let out := Encoder.u64 out (dd_evm_chain_id value) in
    let out := Encoder.address out (dd_owner value) in
    let out := Encoder.u32 out (dd_protocol_revision value) in
    let out := Encoder.u64 out (dd_gas_limit value) in
    let out := Encoder.u128 out (dd_initial_base_fee value) in
    let out := Encoder.u256 out (dd_initial_supply value) in
    let out := Encoder.u256 out (dd_creation_deposit value) in
    let out := Encoder.u8 out (status_u8 (dd_status value)) in
    Encoder.finish out.

(** The [match] on the status byte. *)
Definition status_of_u8 (b : Z) : outcome CodecError DomainStatus :=
  if b =? 0 then Ok Pending
  else if b =? 1 then Ok Active
  else if b =? 2 then Ok Frozen
  else Err (InvalidValue "domain status").

Definition decode_domain_descriptor (input : bytes) : outcome CodecError DomainDescriptor :=
  let? decoder := Decode.tagged input DOMAIN_DESCRIPTOR_TAG in
  let? '(domain_id, decoder) := Decode.b256 decoder in
  let? '(parent_domain_id, decoder) := Decode.b256 decoder in
  let? '(joint_domain_block_hash, decoder) := Decode.b256 decoder in
  let? '(create_tx_hash, decoder) := Decode.b256 decoder in
  let? '(origin_hash, decoder) := Decode.b256 decoder in
  let? '(name, decoder) := Decode.string_ "domain name" 64 decoder in
  let? '(symbol, decoder) := Decode.string_ "domain symbol" 16 decoder in
  let? '(evm_chain_id, decoder) := Decode.u64 decoder in
  if evm_chain_id =? 0 then Err (InvalidValue "evm chain id")
  else
    let? '(owner, decoder) := Decode.address decoder in
    let? '(protocol_revision, decoder) := Decode.u32 decoder in
    let? '(gas_limit, decoder) := Decode.u64 decoder in
    let? '(initial_base_fee, decoder) := Decode.u128 decoder in
    let? '(initial_supply, decoder) := Decode.u256 decoder in
    let? '(creation_deposit, decoder) := Decode.u256 decoder in
    let? '(status, decoder) := Decode.u8 decoder in
    let? status := status_of_u8 status in
    run? Decode.finish decoder in
    Ok {| dd_domain_id := domain_id;
          dd_parent_domain_id := parent_domain_id;
          dd_joint_domain_block_hash := joint_domain_block_hash;
          dd_create_tx_hash := create_tx_hash;
          dd_origin_hash := origin_hash;
          dd_name := name;
          dd_symbol := symbol;
          dd_evm_chain_id := evm_chain_id;
          dd_owner := owner;
          dd_protocol_revision := protocol_revision;
          dd_gas_limit := gas_limit;
          dd_initial_base_fee := initial_base_fee;
          dd_initial_supply := initial_supply;
          dd_creation_deposit := creation_deposit;
          dd_status := status |}.

Definition encode_domain_genesis (value : DomainGenesis) : outcome CodecError bytes :=
  run? check_limit "domain name" (zlen (dg_name value)) 64 in
  run? check_limit "domain symbol" (zlen (dg_symbol value)) 16 in
  if dg_evm_chain_id value =? 0 then Err (InvalidValue "evm chain id")
  else
    let out := Encoder.tagged DOMAIN_GENESIS_TAG in
    let out := Encoder.b256 out (dg_domain_id value) in
    let out := Encoder.b256 out (dg_parent_domain_id value) in
    let out := Encoder.b256 out (dg_joint_domain_block_hash value) in
    let out := Encoder.b256 out (dg_create_tx_hash value) in
    let? out := Encoder.bytes_ out (dg_name value) in
    let? out := Encoder.bytes_ out (dg_symbol value) in
    let out := Encoder.u64 out (dg_evm_chain_id value) in
    let out := Encoder.address out (dg_owner value) in
    let out := Encoder.u32 out (dg_protocol_revision value) in
    let out := Encoder.u64 out (dg_gas_limit value) in
    let out := Encoder.u128 out (dg_initial_base_fee value) in
    let out := Encoder.u256 out (dg_initial_supply value) in
    let out := Encoder.b256 out (dg_initial_state_root value) in
    Encoder.finish out.

Definition decode_domain_genesis (input : bytes) : outcome CodecError DomainGenesis :=
  let? decoder := Decode.tagged input DOMAIN_GENESIS_TAG in
  let? '(domain_id, decoder) := Decode.b256 decoder in
  let? '(parent_domain_id, decoder) := Decode.b256 decoder in
  let? '(joint_domain_block_hash, decoder) := Decode.b256 decoder in
  let? '(create_tx_hash, decoder) := Decode.b256 decoder in
  let? '(name, decoder) := Decode.string_ "domain name" 64 decoder in
  let? '(symbol, decoder) := Decode.string_ "domain symbol" 16 decoder in
  let? '(evm_chain_id, decoder) := Decode.u64 decoder in
  if evm_chain_id =? 0 then Err (InvalidValue "evm chain id")
  else
    let? '(owner, decoder) := Decode.address decoder in
    let? '(protocol_revision, decoder) := Decode.u32 decoder in
    let? '(gas_limit, decoder) := Decode.u64 decoder in
    let? '(initial_base_fee, decoder) := Decode.u128 decoder in
    let? '(initial_supply, decoder) := Decode.u256 decoder in
    let? '(initial_state_root, decoder) := Decode.b256 decoder in
    run? Decode.finish decoder in
    Ok {| dg_domain_id := domain_id;
          dg_parent_domain_id := parent_domain_id;
          dg_joint_domain_block_hash := joint_domain_block_hash;
          dg_create_tx_hash := create_tx_hash;
          dg_name := name;
          dg_symbol := symbol;
          dg_evm_chain_id := evm_chain_id;
          dg_owner := owner;
          dg_protocol_revision := protocol_revision;
          dg_gas_limit := gas_limit;
          dg_initial_base_fee := initial_base_fee;
          dg_initial_supply := initial_supply;
          dg_initial_state_root := initial_state_root |}.

Definition encode_validator_set (value : ValidatorSet) : outcome CodecError bytes :=
  run? check_limit "validators" (zlen (vs_validators value)) MAX_ACTIVE_VALIDATORS in
  if zlen (vs_validators value) =? 0 then Err (InvalidValue "validator set")
  else
    let ids := map vd_id (vs_validators value) in
    run? check_strictly_sorted ids "validators" in
    let out := Encoder.tagged VALIDATOR_SET_TAG in
    let out := Encoder.u64 out (vs_epoch value) in
    let? out := Encoder.count out (zlen (vs_validators value)) in
    let? out := for_each (fun out validator =>
      if vd_power validator =? 0 then Err (InvalidValue "validator power")
      else
        let out := Encoder.b256 out (vd_id validator) in
        let out := out ++ vd_public_key validator in
        Ok (Encoder.u64 out (vd_power validator))) out (vs_validators value) in
    Encoder.finish out.

(** One iteration of the decoding loop. *)
Definition decode_validator : decodes Validator := fun decoder =>
  let? '(id, decoder) := Decode.b256 decoder in
  let? '(public_key, decoder) := Decode.array 33 decoder in
  let? '(power, decoder) := Decode.u64 decoder in
  if power =? 0 then Err (InvalidValue "validator power")
  else Ok ({| vd_id := id; vd_public_key := public_key; vd_power := power |}, decoder).

Definition decode_validator_set (input : bytes) : outcome CodecError ValidatorSet :=
  let? decoder := Decode.tagged input VALIDATOR_SET_TAG in
  let? '(epoch, decoder) := Decode.u64 decoder in
  let? '(count, decoder) := Decode.count "validators" MAX_ACTIVE_VALIDATORS decoder in
  if count =? 0 then Err (InvalidValue "validator set")
  else
    let? '(validators, decoder) := Decode.times (Z.to_nat count) decode_validator decoder in
    let ids := map vd_id validators in
    run? check_strictly_sorted ids "validators" in
    run? Decode.finish decoder in
    Ok {| vs_epoch := epoch; vs_validators := validators |}.

Definition encode_vote (value : Vote) : outcome CodecError bytes :=
  if vt_phase value =? 0 then Err (InvalidValue "vote phase")
  else
    let out := Encoder.tagged VOTE_TAG in
    let out := Encoder.b256 out (vt_network_id value) in
    let out := Encoder.u64 out (vt_height value) in
    let out := Encoder.u64 out (vt_round value) in
    let out := Encoder.u8 out (vt_phase value) in
    let out := Encoder.b256 out (vt_block_hash value) in
    let out := Encoder.b256 out (vt_validator_id value) in
    Encoder.finish out.

Definition decode_vote (input : bytes) : outcome CodecError Vote :=
  let? decoder := Decode.tagged input VOTE_TAG in
  let? '(network_id, decoder) := Decode.b256 decoder in
  let? '(height, decoder) := Decode.u64 decoder in
  let? '(round, decoder) := Decode.u64 decoder in
  let? '(phase, decoder) := Decode.u8 decoder in
  if phase =? 0 then Err (InvalidValue "vote phase")
  else
    let? '(block_hash, decoder) := Decode.b256 decoder in
    let? '(validator_id, decoder) := Decode.b256 decoder in
    run? Decode.finish decoder in
    Ok {| vt_network_id := network_id;
          vt_height := height;
          vt_round := round;
          vt_phase := phase;
          vt_block_hash := block_hash;
          vt_validator_id := validator_id |}.

Definition encode_quorum_certificate (value : QuorumCertificate) : outcome CodecError bytes :=
  if qc_phase value =? 0 then Err (InvalidValue "certificate phase")
  else
    run? check_limit "certificate signatures" (zlen (qc_signatures value))
           MAX_ACTIVE_VALIDATORS in
    if zlen (qc_signatures value) =? 0 then Err (InvalidValue "certificate signatures")
    else
      let ids := map cs_validator_id (qc_signatures value) in
      run? check_strictly_sorted ids "certificate signatures" in
      let out := Encoder.tagged QC_TAG in
      let out := Encoder.b256 out (qc_network_id value) in
      let out := Encoder.u64 out (qc_height value) in
      let out := Encoder.u64 out (qc_round value) in
      let out := Encoder.u8 out (qc_phase value) in
      let out := Encoder.b256 out (qc_block_hash value) in
      let? out := Encoder.count out (zlen (qc_signatures value)) in
      let? out := for_each (fun out signature =>
        let out := Encoder.b256 out (cs_validator_id signature) in
        Ok (out ++ cs_signature signature)) out (qc_signatures value) in
      Encoder.finish out.

(** One iteration of the decoding loop. *)
Definition decode_commit_signature : decodes CommitSignature := fun decoder =>
  let? '(validator_id, decoder) := Decode.b256 decoder in
  let? '(signature, decoder) := Decode.array 64 decoder in
  Ok ({| cs_validator_id := validator_id; cs_signature := signature |}, decoder).

Definition decode_quorum_certificate (input : bytes) : outcome CodecError QuorumCertificate :=
  let? decoder := Decode.tagged input QC_TAG in
  let? '(network_id, decoder) := Decode.b256 decoder in
  let? '(height, decoder) := Decode.u64 decoder in
  let? '(round, decoder) := Decode.u64 decoder in
  let? '(phase, decoder) := Decode.u8 decoder in
  if phase =? 0 then Err (InvalidValue "certificate phase")
  else
    let? '(block_hash, decoder) := Decode.b256 decoder in
    let? '(count, decoder) :=
      Decode.count "certificate signatures" MAX_ACTIVE_VALIDATORS decoder in
    if count =? 0 then Err (InvalidValue "certificate signatures")
    else
      let? '(signatures, decoder) :=
        Decode.times (Z.to_nat count) decode_commit_signature decoder in
      let ids := map cs_validator_id signatures in
      run? check_strictly_sorted ids "certificate signatures" in
      run? Decode.finish decoder in
      Ok {| qc_network_id := network_id;
            qc_height := height;
            qc_round := round;
            qc_phase := phase;
            qc_block_hash := block_hash;
            qc_signatures := signatures |}.

(** ** The decoder against the bytes that are left *)

(** What a codec promises: encoding then decoding gives the value back, only
    canonical bytes decode, decoded values respect their types, and neither
    direction panics. *)
Definition canonical {E A : Type} (wf : A → Prop) (encode : A → outcome E bytes)
    (decode : bytes → outcome E A) : Prop :=
  (∀ v b, wf v → encode v = Ok b → decode b = Ok v) ∧
  (∀ v b, decode b = Ok v → wf v ∧ encode v = Ok b) ∧
  (∀ v m, encode v ≠ Panic m) ∧
  (∀ b m, decode b ≠ Panic m).

(** The cursor stands before [rest]. *)
Definition remaining (d : Decoder) (rest : bytes) : Prop :=
  ∃ pre, input d = pre ++ rest ∧ position d = zlen pre ∧
    zlen (input d) ≤ MAX_CANONICAL_OBJECT_BYTES.

(** A field decoder and the field encoding it inverts. *)
Class FieldCodec {A : Type} (dec : decodes A) (wf : A → Prop) (enc : A → bytes) := {
  codec_accepts : ∀ d v rest, wf v → remaining d (enc v ++ rest) →
    ∃ d', dec d = Ok (v, d') ∧ remaining d' rest;
  codec_sound : ∀ d v d' rest, remaining d rest → dec d = Ok (v, d') →
    wf v ∧ ∃ rest', rest = enc v ++ rest' ∧ remaining d' rest';
  codec_no_panic : ∀ d m, dec d ≠ Panic m;
}.

Arguments codec_accepts {A} dec {wf enc _}.
Arguments codec_sound {A} dec {wf enc _}.
Arguments codec_no_panic {A} dec {wf enc _}.

(** A bind panics only where its parts do. *)
Lemma obind_no_panic {E A B : Type} (c : outcome E A) (k : A → outcome E B) m :
  c ≠ Panic m → (∀ a, c = Ok a → k a ≠ Panic m) → obind c k ≠ Panic m.
Proof. destruct c; simpl; try done; [by intros _ H; apply H|congruence]. Qed.

Lemma ok_or_no_panic {E A : Type} (o : option A) (e : E) m : ok_or o e ≠ Panic m.
Proof. by destruct o. Qed.

Lemma check_limit_no_panic f a l m : check_limit f a l ≠ Panic m.
Proof. unfold check_limit. by destruct (l <? a). Qed.

Lemma check_limit_Ok f a l u : check_limit f a l = Ok u ↔ a ≤ l.
Proof.
  unfold check_limit. destruct u, (Z.ltb_spec l a); split; try done; lia.
Qed.

Lemma check_strictly_sorted_Ok {T : Type} `{TotalOrder T} (l : list T) f u :
  check_strictly_sorted l f = Ok u ↔ StronglySorted tlt l.
Proof.
  unfold check_strictly_sorted. rewrite <-strict_StronglySorted. destruct u.
  destruct (windows2_all tltb l) eqn:E; [by rewrite orb_true_r|].
  destruct l as [|a [|b l]]; [done..|]. split; [|done].
  rewrite orb_false_r, !zlen_cons. pose proof (zlen_nonneg l).
  by rewrite (proj2 (Z.ltb_ge _ _)) by lia.
Qed.

Lemma check_strictly_sorted_no_panic {T : Type} `{TotalOrder T} (l : list T) f m :
  check_strictly_sorted l f ≠ Panic m.
Proof. unfold check_strictly_sorted. by destruct (_ || _). Qed.

#[export] Hint Resolve ok_or_no_panic check_limit_no_panic check_strictly_sorted_no_panic
  : arbor.

Ltac no_panic :=
  repeat first
    [ progress intros
    | progress cbv beta zeta
    | match goal with
      | |- obind _ _ ≠ Panic _ => apply obind_no_panic
      | |- (if ?b then _ else _) ≠ Panic _ => destruct b eqn:?
      | |- (let '(_, _) := ?p in _) ≠ Panic _ => destruct p
      | |- Ok _ ≠ Panic _ => discriminate
      | |- Err _ ≠ Panic _ => discriminate
      | |- ?dec ?d ≠ Panic _ => apply (codec_no_panic dec)
      end
    | solve [eauto with arbor] ].

Lemma take_accepts d v rest :
  remaining d (v ++ rest) →
  ∃ d', Decode.take (zlen v) d = Ok (v, d') ∧ remaining d' rest.
Proof.
  intros (pre & Hin & Hpos & Hlen). unfold Decode.take.
  pose proof (zlen_nonneg pre). pose proof (zlen_nonneg rest).
  rewrite Hin in Hlen. autorewrite with arbor in Hlen. unfold MAX_CANONICAL_OBJECT_BYTES in Hlen.
  assert (checked_add 64 (position d) (zlen v) = Some (zlen pre + zlen v)) as ->.
  { apply checked_add_Some. rewrite Hpos. split; [done|]. lia. }
  simpl. rewrite Hin, Hpos, (get_range_app pre v rest) by done. simpl.
  eexists. split; [done|]. exists (pre ++ v). simpl. rewrite <-app_assoc, zlen_app.
  repeat split. autorewrite with arbor. unfold MAX_CANONICAL_OBJECT_BYTES. lia.
Qed.

Lemma take_sound d n v d' rest :
  remaining d rest → Decode.take n d = Ok (v, d') →
  zlen v = n ∧ ∃ rest', rest = v ++ rest' ∧ remaining d' rest'.
Proof.
  intros (pre & Hin & Hpos & Hlen) Ht. unfold Decode.take in Ht. ok_inv. simplify_eq.
  apply checked_add_Some in Hok as [-> _].
  pose proof (get_range_length _ _ _ _ Hok0) as Hv.
  pose proof (get_range_split _ _ _ _ Hok0) as Hs.
  rewrite Hpos in *. rewrite Hin in Hs at 1.
  replace (take (Z.to_nat (zlen pre)) (input d)) with pre in Hs.
  2:{ rewrite Hin. unfold zlen. by rewrite Nat2Z.id, take_app_length. }
  apply app_inv_head in Hs. split; [lia|]. eexists. split; [exact Hs|].
  exists (pre ++ v). simpl. rewrite <-app_assoc, zlen_app, <-Hs. repeat split; [done|lia|done].
Qed.

Lemma take_no_panic n d m : Decode.take n d ≠ Panic m.
Proof. unfold Decode.take. no_panic. Qed.
#[export] Hint Resolve take_no_panic : arbor.

(** ** Field codecs *)

#[export] Instance array_codec n : FieldCodec (Decode.array n) (λ v, length v = n) (λ v, v).
Proof.
  split.
  - intros d v rest Hv Hrem. unfold Decode.array.
    destruct (take_accepts _ _ _ Hrem) as (d' & Ht & Hr). rewrite (zlen_length v n Hv) in Ht.
    rewrite Ht; simpl. rewrite (zlen_length v n Hv), Z.eqb_refl. eauto.
  - intros d v d' rest Hrem Ha. unfold Decode.array in Ha. ok_inv. bool_prop.
    destruct (take_sound _ _ _ _ _ Hrem Hok) as (Hl & rest' & -> & Hr). simplify_eq.
    split; [|eauto]. unfold zlen in Hl. lia.
  - intros d m. unfold Decode.array. no_panic.
Qed.

#[export] Instance b256_codec : FieldCodec Decode.b256 is_b256 (λ v, v) := array_codec 32.
#[export] Instance address_codec : FieldCodec Decode.address is_address (λ v, v) := array_codec 20.
#[export] Instance bloom_codec : FieldCodec Decode.bloom is_bloom (λ v, v) := array_codec 256.
#[export] Instance pubkey_codec : FieldCodec (Decode.array 33) is_pubkey (λ v, v) := array_codec 33.
#[export] Instance signature_codec : FieldCodec (Decode.array 64) is_signature (λ v, v) :=
  array_codec 64.

Lemma array_length n d v d' : Decode.array n d = Ok (v, d') → length v = n.
Proof. unfold Decode.array. intros H. ok_inv. bool_prop. simplify_eq. unfold zlen in *. lia. Qed.

(** Integers of [n] bytes. *)
Lemma be_codec n (dec : decodes Z) :
  (∀ d, dec d = let? '(a, d) := Decode.array n d in Ok (from_be_bytes a, d)) →
  FieldCodec dec (fits (8 * Z.of_nat n)) (to_be_bytes n).
Proof.
  intros Hdec. split.
  - intros d v rest Hv Hrem. rewrite Hdec.
    destruct (codec_accepts (Decode.array n) d _ _ (length_to_be_bytes n v) Hrem)
      as (d' & -> & Hr). simpl. rewrite from_to_be_bytes by done. eauto.
  - intros d v d' rest Hrem Hd. rewrite Hdec in Hd. ok_inv. simplify_eq.
    destruct (codec_sound (Decode.array n) _ _ _ _ Hrem Hok) as (Hl & rest' & -> & Hr).
    split; [by apply from_be_bytes_fits|]. exists rest'. by rewrite to_from_be_bytes.
  - intros d m. rewrite Hdec. no_panic.
Qed.

#[export] Instance u32_codec : FieldCodec Decode.u32 (fits 32) (to_be_bytes 4).
Proof. by apply (be_codec 4). Qed.
#[export] Instance u64_codec : FieldCodec Decode.u64 (fits 64) (to_be_bytes 8).
Proof. by apply (be_codec 8). Qed.
#[export] Instance u128_codec : FieldCodec Decode.u128 (fits 128) (to_be_bytes 16).
Proof. by apply (be_codec 16). Qed.
#[export] Instance u256_codec : FieldCodec Decode.u256 (fits 256) (to_be_bytes 32).
Proof. by apply (be_codec 32). Qed.

#[export] Instance u8_codec : FieldCodec Decode.u8 (fits 8) (λ v, [byte_of v]).
Proof.
  split.
  - intros d v rest Hv Hrem. unfold Decode.u8.
    destruct (codec_accepts (Decode.array 1) d [byte_of v] rest eq_refl Hrem) as (d' & -> & Hr).
    simpl. rewrite byte_val_of, Z.mod_small by done. eauto.
  - intros d v d' rest Hrem Hd. unfold Decode.u8 in Hd. ok_inv. simplify_eq.
    destruct (codec_sound (Decode.array 1) _ _ _ _ Hrem Hok) as (Hl & rest' & -> & Hr).
    destruct l as [|b [|]]; try done. simplify_eq/=.
    split; [exact (byte_val_range _)|]. exists rest'. by rewrite byte_of_val.
  - intros d m. unfold Decode.u8. no_panic.
    by match goal with H : Decode.array 1 _ = Ok _ |- _ =>
      apply array_length in H; destruct l as [|b [|]] end.
Qed.

#[export] Instance count_codec f l : FieldCodec (Decode.count f l) (λ v, u32 v ∧ v ≤ l) of_u32.
Proof.
  split.
  - intros d v rest [Hv Hl] Hrem. unfold Decode.count.
    destruct (codec_accepts Decode.u32 d v rest Hv Hrem) as (d' & -> & Hr). simpl.
    rewrite (proj2 (check_limit_Ok f v l tt)) by done. simpl. eauto.
  - intros d v d' rest Hrem Hd. unfold Decode.count in Hd. ok_inv. simplify_eq.
    destruct (codec_sound Decode.u32 _ _ _ _ Hrem Hok) as (Hl & rest' & -> & Hr).
    apply check_limit_Ok in Hok0. eauto.
  - intros d m. unfold Decode.count. no_panic.
Qed.

(** A length-prefixed byte string. *)
Definition prefixed (v : bytes) : bytes := of_u32 (zlen v) ++ v.

#[export] Instance bytes_codec f l :
  FieldCodec (Decode.bytes_ f l) (λ v, u32 (zlen v) ∧ zlen v ≤ l) prefixed.
Proof.
  split.
  - intros d v rest [Hv Hl] Hrem. unfold Decode.bytes_, prefixed in *.
    rewrite <-app_assoc in Hrem.
    destruct (codec_accepts Decode.u32 d _ _ Hv Hrem) as (d' & -> & Hr). simpl.
    rewrite (proj2 (check_limit_Ok f (zlen v) l tt)) by done. simpl. by apply take_accepts.
  - intros d v d' rest Hrem Hd. unfold Decode.bytes_ in Hd. ok_inv. simplify_eq.
    destruct (codec_sound Decode.u32 _ _ _ _ Hrem Hok) as (Hl & rest' & -> & Hr).
    apply check_limit_Ok in Hok0.
    destruct (take_sound _ _ _ _ _ Hr Hd) as (<- & rest'' & -> & Hr').
    split; [done|]. exists rest''. unfold prefixed. by rewrite <-app_assoc.
  - intros d m. unfold Decode.bytes_. no_panic.
Qed.

#[export] Instance string_codec f l :
  FieldCodec (Decode.string_ f l) (λ v, (u32 (zlen v) ∧ zlen v ≤ l) ∧ is_string v) prefixed.
Proof.
  split.
  - intros d v rest [Hv Hu] Hrem. unfold Decode.string_.
    destruct (codec_accepts (Decode.bytes_ f l) d v rest Hv Hrem) as (d' & -> & Hr). simpl.
    rewrite Hu. eauto.
  - intros d v d' rest Hrem Hd. unfold Decode.string_ in Hd. ok_inv. simplify_eq.
    destruct (codec_sound (Decode.bytes_ f l) _ _ _ _ Hrem Hok) as (Hl & rest' & -> & Hr).
    eauto.
  - intros d m. unfold Decode.string_. no_panic.
Qed.

#[export] Instance times_codec {A : Type} n (item : decodes A) wf enc :
  FieldCodec item wf enc →
  FieldCodec (Decode.times n item) (λ l, length l = n ∧ Forall wf l) (λ l, concat (map enc l)).
Proof.
  intros Hitem. split.
  - induction n as [|n IH]; intros d l rest [Hn Hl] Hrem; destruct Hl as [|a l Ha Hl]; try done;
      simpl in *; [eauto|].
    rewrite <-app_assoc in Hrem.
    destruct (codec_accepts item d a _ Ha Hrem) as (d1 & -> & Hr1). simpl.
    destruct (IH d1 l rest) as (d2 & -> & Hr2); [by auto with lia|done|]. simpl. eauto.
  - induction n as [|n IH]; intros d l d' rest Hrem Hd; simpl in *; ok_inv; simplify_eq; simpl.
    + eauto.
    + destruct (codec_sound item _ _ _ _ Hrem Hok) as (Ha & rest' & -> & Hr).
      destruct (IH _ _ _ _ Hr Hok0) as ([Hn Hl] & rest'' & -> & Hr').
      split; [split; [by f_equal|by constructor]|]. exists rest''. by rewrite <-app_assoc.
  - induction n as [|n IH]; intros d m; simpl; no_panic.
Qed.

(** ** The frame of an object: tag, version, fields, end of input *)

Definition tagged_body (tag body : bytes) : bytes :=
  tag ++ byte_of CANONICAL_CODEC_VERSION :: body.

Lemma tagged_accepts tag body :
  zlen (tagged_body tag body) ≤ MAX_CANONICAL_OBJECT_BYTES →
  ∃ d, Decode.tagged (tagged_body tag body) tag = Ok d ∧ remaining d body.
Proof.
  intros Hl. unfold Decode.tagged. rewrite (proj2 (check_limit_Ok _ _ _ tt)) by done. simpl.
  destruct (take_accepts {| input := tagged_body tag body; position := 0 |} tag
    (byte_of CANONICAL_CODEC_VERSION :: body)) as (d1 & -> & Hr1); [by exists []|]. simpl.
  rewrite bool_decide_true by done. simpl.
  by destruct (codec_accepts Decode.u8 d1 1 body) as (d2 & -> & Hr2); [done..|]; eauto.
Qed.

Lemma tagged_sound inp tag d :
  Decode.tagged inp tag = Ok d →
  ∃ body, inp = tagged_body tag body ∧ remaining d body ∧
    zlen inp ≤ MAX_CANONICAL_OBJECT_BYTES.
Proof.
  unfold Decode.tagged. intros H. ok_inv. bool_prop. apply check_limit_Ok in Hok.
  assert (remaining {| input := inp; position := 0 |} inp) as Hr0 by by exists [].
  destruct (take_sound _ _ _ _ inp Hr0 Hok0) as (_ & rest & Hin & Hr).
  destruct (codec_sound Decode.u8 _ _ _ _ Hr Hok1) as (_ & rest' & Hin' & Hr').
  exists rest'. by simplify_eq.
Qed.

Lemma tagged_no_panic inp tag m : Decode.tagged inp tag ≠ Panic m.
Proof. unfold Decode.tagged. no_panic. Qed.

Lemma finish_accepts d : remaining d [] → Decode.finish d = Ok tt.
Proof.
  intros (pre & Hin & Hpos & _). unfold Decode.finish. rewrite Hin, app_nil_r, Hpos.
  by rewrite Z.eqb_refl.
Qed.

Lemma finish_sound d rest u : remaining d rest → Decode.finish d = Ok u → rest = [].
Proof.
  intros (pre & Hin & Hpos & _). unfold Decode.finish. intros H. ok_inv. bool_prop.
  rewrite Hin, Hpos, zlen_app in Hif. destruct rest; [done|].
  rewrite zlen_cons in Hif. pose proof (zlen_nonneg rest). lia.
Qed.

Lemma finish_no_panic d m : Decode.finish d ≠ Panic m.
Proof. unfold Decode.finish. no_panic. Qed.

Lemma enc_finish_Ok out b :
  Encoder.finish out = Ok b ↔ b = out ∧ zlen out ≤ MAX_CANONICAL_OBJECT_BYTES.
Proof.
  unfold Encoder.finish. split.
  - intros H. ok_inv. apply check_limit_Ok in Hok. done.
  - intros [-> H]. by rewrite (proj2 (check_limit_Ok _ _ _ tt)).
Qed.

Lemma enc_finish_no_panic out m : Encoder.finish out ≠ Panic m.
Proof. unfold Encoder.finish. no_panic. Qed.

Lemma enc_bytes_Ok out v b :
  Encoder.bytes_ out v = Ok b ↔ u32 (zlen v) ∧ b = out ++ prefixed v.
Proof.
  unfold Encoder.bytes_, Encoder.u32, prefixed. split.
  - intros H. ok_inv. apply try_from_Some in Hok as [-> Hok]. subst. by rewrite <-app_assoc.
  - intros [Hv ->]. rewrite (proj2 (try_from_Some 32 (zlen v) _) (conj eq_refl Hv)). simpl.
    by rewrite <-app_assoc.
Qed.

Lemma enc_count_Ok out v b :
  Encoder.count out v = Ok b ↔ u32 v ∧ b = out ++ of_u32 v.
Proof.
  unfold Encoder.count, Encoder.u32. split.
  - intros H. ok_inv. apply try_from_Some in Hok as [-> Hok]. done.
  - intros [Hv ->]. by rewrite (proj2 (try_from_Some 32 v _) (conj eq_refl Hv)).
Qed.

Lemma enc_bytes_no_panic out v m : zlen v < 2 ^ 32 → Encoder.bytes_ out v ≠ Panic m.
Proof.
  intros Hv. assert (u32 (zlen v)) as Hu by (pose proof (zlen_nonneg v); split; lia).
  by rewrite (proj2 (enc_bytes_Ok out v _) (conj Hu eq_refl)).
Qed.

Lemma enc_count_no_panic out v m : u32 v → Encoder.count out v ≠ Panic m.
Proof. intros Hv. by rewrite (proj2 (enc_count_Ok out v _) (conj Hv eq_refl)). Qed.

#[export] Hint Resolve tagged_no_panic finish_no_panic enc_finish_no_panic : arbor.

(** Reading a counted collection: the count is the length of what was read. *)
Lemma count_length {A : Type} (l : list A) z : u32 z → length l = Z.to_nat z → z = zlen l.
Proof. unfold fits, zlen. lia. Qed.

Lemma length_zlen {A : Type} (l : list A) : length l = Z.to_nat (zlen l).
Proof. unfold zlen. lia. Qed.

Lemma small_u32 {A : Type} (l : list A) n : n < 2 ^ 32 → zlen l ≤ n → u32 (zlen l).
Proof. intros Hn Hl. pose proof (zlen_nonneg l). split; lia. Qed.

Ltac wf_side := split_and?; first [done | eapply small_u32; [|eassumption]; done | auto with arbor].

(** Decodes the next field of a goal [decode ... = Ok v] from the cursor fact. *)
Ltac accept_field :=
  match goal with
  | Hrem : remaining ?d _ |- obind (?dec ?d) _ = Ok _ =>
      let Hacc := fresh "Hacc" in let d' := fresh "d" in
      let Hd := fresh "Hd" in let Hr := fresh "Hrem" in
      pose proof (codec_accepts dec d) as Hacc; cbn beta in Hacc;
      edestruct Hacc as (d' & Hd & Hr); [clear Hacc| |];
      [ |exact Hrem|rewrite Hd; clear Hacc Hd Hrem; cbn [obind]; cbv beta iota ];
      [ try wf_side | ]
  end.

(** Splits the field that a successful decoder read off the remaining bytes. *)
Ltac sound_field :=
  match goal with
  | Hrem : remaining ?d ?rest, Hok : ?dec ?d = Ok (?v, ?d') |- _ =>
      let Hwf := fresh "Hwf" in let r := fresh "rest" in
      let E := fresh "E" in let Hr := fresh "Hrem" in
      destruct (codec_sound dec d v d' rest Hrem Hok) as (Hwf & r & E & Hr);
      cbn beta in Hwf, E; clear Hok Hrem; subst rest
  | Hrem : remaining ?d ?rest, Hok : Decode.finish ?d = Ok _ |- _ =>
      pose proof (finish_sound d rest _ Hrem Hok); clear Hok Hrem; subst rest
  | Hok : Decode.tagged ?inp _ = Ok _ |- _ =>
      let b := fresh "rest" in let E := fresh "E" in let Hr := fresh "Hrem" in
      destruct (tagged_sound _ _ _ Hok) as (b & E & Hr & Hlimit); clear Hok; subst inp
  | Hok : check_limit _ _ _ = Ok _ |- _ => apply check_limit_Ok in Hok
  | Hok : check_strictly_sorted _ _ = Ok _ |- _ => apply check_strictly_sorted_Ok in Hok
  end.

(** The fields of an object: [body v] is what the encoder appends after the tag
    when the checks [ok v] pass, [fields] reads it back. *)
Lemma canonical_of_fields {A : Type} (wf ok : A → Prop) (body : A → bytes) tag
    (encode : A → outcome CodecError bytes) decode (fields : Decoder → outcome CodecError A) :
  (∀ v b, encode v = Ok b ↔
    ok v ∧ b = tagged_body tag (body v) ∧ zlen b ≤ MAX_CANONICAL_OBJECT_BYTES) →
  (∀ v m, encode v ≠ Panic m) →
  (∀ inp, decode inp = let? d := Decode.tagged inp tag in fields d) →
  (∀ v d, wf v → ok v → remaining d (body v) → fields d = Ok v) →
  (∀ v d rest, remaining d rest → fields d = Ok v → wf v ∧ ok v ∧ rest = body v) →
  (∀ d m, fields d ≠ Panic m) →
  canonical wf encode decode.
Proof.
  intros Henc Hnp Hdec Hacc Hsound Hfp. split; [|split; [|split]].
  - intros v b Hwf (Hok & -> & Hl)%Henc. rewrite Hdec.
    destruct (tagged_accepts _ _ Hl) as (d & -> & Hrem). by apply Hacc.
  - intros v b Hd. rewrite Hdec in Hd. ok_inv.
    destruct (tagged_sound _ _ _ Hok) as (rest & -> & Hrem & Hl).
    destruct (Hsound _ _ _ Hrem Hd) as (Hwf & Hv & ->). split; [done|]. by apply Henc.
  - exact Hnp.
  - intros b m. rewrite Hdec. apply obind_no_panic; auto with arbor.
Qed.

Ltac unfold_encoder :=
  unfold Encoder.tagged, Encoder.u8, Encoder.u32, Encoder.u64, Encoder.u128, Encoder.b256,
    Encoder.address, Encoder.bloom, Encoder.u256, tagged_body in *.

(** A fixed-layout encoder appends its fields in order. *)
Ltac encode_fixed :=
  intros; cbv zeta; rewrite enc_finish_Ok; unfold_encoder; rewrite <-!app_assoc, ?app_nil_r;
  simpl; naive_solver.

Ltac accept_steps :=
  repeat (destruct_and?; first [accept_field | progress guards; cbv iota]).

Ltac accept_fields :=
  intros v d Hwf Hok Hrem; destruct v; simpl in *; cbv beta in *; accept_steps;
  try (rewrite finish_accepts by done; try done).

Ltac sound_fields :=
  intros v d rest Hrem Hd; ok_inv; repeat sound_field; subst v; destruct_and?;
  repeat match goal with
    | Hu : u32 ?z, Hl : length _ = Z.to_nat ?z |- _ =>
        pose proof (count_length _ z Hu Hl); clear Hl; subst z
    end;
  simpl; split_and!; try done; try tauto.

(** ** Consensus headers *)

Definition consensus_header_body (v : ConsensusBlockHeader) : bytes :=
  of_u32 (ch_protocol_version v) ++ ch_network_id v ++ of_u64 (ch_height v) ++
  ch_parent_hash v ++ of_u64 (ch_timestamp v) ++ ch_batches_root v ++
  ch_domain_results_root v ++ ch_domain_heads_root v ++ ch_validator_set_hash v ++
  ch_next_validator_set_hash v ++ ch_proposer v ++ [].

Lemma encode_consensus_header_Ok v b :
  encode_consensus_header v = Ok b ↔
    True ∧ b = tagged_body CONSENSUS_HEADER_TAG (consensus_header_body v) ∧ zlen b ≤ MAX_CANONICAL_OBJECT_BYTES.
Proof. unfold encode_consensus_header, consensus_header_body. encode_fixed. Qed.

Lemma consensus_header_codec :
  canonical wf_consensus_header encode_consensus_header decode_consensus_header.
Proof.
  eapply (canonical_of_fields _ (λ _, True) consensus_header_body CONSENSUS_HEADER_TAG);
    [exact encode_consensus_header_Ok| |intros; reflexivity| | |].
  - intros. apply enc_finish_no_panic.
  - unfold wf_consensus_header, consensus_header_body. accept_fields.
  - unfold wf_consensus_header, consensus_header_body. sound_fields.
  - no_panic.
Qed.

(** ** Domain headers *)

Definition domain_header_body (v : DomainBlockHeader) : bytes :=
  of_u32 (dh_protocol_version v) ++ dh_domain_id v ++ of_u64 (dh_number v) ++
  dh_parent_hash v ++ of_u64 (dh_consensus_height v) ++ dh_transactions_root v ++
  dh_state_root v ++ dh_receipts_root v ++ dh_logs_bloom v ++ of_u64 (dh_gas_limit v) ++
  of_u64 (dh_gas_used v) ++ of_u128 (dh_base_fee_per_gas v) ++ [].

Lemma encode_domain_header_Ok v b :
  encode_domain_header v = Ok b ↔
    True ∧ b = tagged_body DOMAIN_HEADER_TAG (domain_header_body v) ∧ zlen b ≤ MAX_CANONICAL_OBJECT_BYTES.
Proof. unfold encode_domain_header, domain_header_body. encode_fixed. Qed.

Lemma domain_header_codec :
  canonical wf_domain_header encode_domain_header decode_domain_header.
Proof.
  eapply (canonical_of_fields _ (λ _, True) domain_header_body DOMAIN_HEADER_TAG);
    [exact encode_domain_header_Ok| |intros; reflexivity| | |].
  - intros. apply enc_finish_no_panic.
  - unfold wf_domain_header, domain_header_body. accept_fields.
  - unfold wf_domain_header, domain_header_body. sound_fields.
  - no_panic.
Qed.

(** ** Votes *)

Definition vote_body (v : Vote) : bytes :=
  vt_network_id v ++ of_u64 (vt_height v) ++ of_u64 (vt_round v) ++ [byte_of (vt_phase v)] ++
  vt_block_hash v ++ vt_validator_id v ++ [].

Lemma encode_vote_Ok v b :
  encode_vote v = Ok b ↔
    vt_phase v ≠ 0 ∧ b = tagged_body VOTE_TAG (vote_body v) ∧
    zlen b ≤ MAX_CANONICAL_OBJECT_BYTES.
Proof.
  unfold encode_vote, vote_body. destruct (Z.eqb_spec (vt_phase v) 0); [naive_solver|].
  encode_fixed.
Qed.

Lemma vote_codec : canonical wf_vote encode_vote decode_vote.
Proof.
  eapply (canonical_of_fields _ (λ v, vt_phase v ≠ 0) vote_body VOTE_TAG);
    [exact encode_vote_Ok| |intros; reflexivity| | |].
  - unfold encode_vote. no_panic.
  - unfold wf_vote, vote_body. accept_fields.
  - unfold wf_vote, vote_body. sound_fields. by bool_prop.
  - no_panic.
Qed.

(** ** Domain descriptors and genesis records *)

Definition metadata_ok (name symbol : bytes) (evm_chain_id : Z) : Prop :=
  zlen name ≤ 64 ∧ zlen symbol ≤ 16 ∧ evm_chain_id ≠ 0.

Definition domain_descriptor_body (v : DomainDescriptor) : bytes :=
  dd_domain_id v ++ dd_parent_domain_id v ++ dd_joint_domain_block_hash v ++
  dd_create_tx_hash v ++ dd_origin_hash v ++ prefixed (dd_name v) ++ prefixed (dd_symbol v) ++
  of_u64 (dd_evm_chain_id v) ++ dd_owner v ++ of_u32 (dd_protocol_revision v) ++
  of_u64 (dd_gas_limit v) ++ of_u128 (dd_initial_base_fee v) ++ of_u256 (dd_initial_supply v) ++
  of_u256 (dd_creation_deposit v) ++ [byte_of (status_u8 (dd_status v))] ++ [].

Lemma status_u8_of s b : status_of_u8 b = Ok s ↔ b = status_u8 s.
Proof.
  unfold status_of_u8. destruct (Z.eqb_spec b 0), (Z.eqb_spec b 1), (Z.eqb_spec b 2);
    subst; destruct s; simpl; split; try done; congruence || lia.
Qed.

Lemma status_u8_fits s : u8 (status_u8 s).
Proof. by destruct s. Qed.

Lemma status_of_u8_no_panic b m : status_of_u8 b ≠ Panic m.
Proof. unfold status_of_u8. no_panic. Qed.

#[export] Hint Resolve status_of_u8_no_panic status_u8_fits : arbor.

Lemma enc_bytes_small out v n :
  n < 2 ^ 32 → zlen v ≤ n → Encoder.bytes_ out v = Ok (out ++ prefixed v).
Proof. intros Hn Hv. apply enc_bytes_Ok. by eauto using small_u32. Qed.

Lemma enc_count_small {A : Type} out (l : list A) n :
  n < 2 ^ 32 → zlen l ≤ n → Encoder.count out (zlen l) = Ok (out ++ of_u32 (zlen l)).
Proof. intros Hn Hl. apply enc_count_Ok. by eauto using small_u32. Qed.

Lemma encode_domain_descriptor_Ok v b :
  encode_domain_descriptor v = Ok b ↔
    metadata_ok (dd_name v) (dd_symbol v) (dd_evm_chain_id v) ∧
    b = tagged_body DOMAIN_DESCRIPTOR_TAG (domain_descriptor_body v) ∧
    zlen b ≤ MAX_CANONICAL_OBJECT_BYTES.
Proof.
  unfold encode_domain_descriptor, metadata_ok, domain_descriptor_body. cbv zeta. split.
  - intros H. ok_inv. bool_prop. apply enc_finish_Ok in H as [-> H].
    rewrite !enc_bytes_Ok, !check_limit_Ok in *. destruct_and!. subst.
    unfold_encoder. rewrite <-!app_assoc in *. rewrite !app_nil_r. done.
  - intros ((Hn & Hs & Hc) & -> & Hl). rewrite !(proj2 (check_limit_Ok _ _ _ tt)) by done.
    cbn [obind]. guards. cbv iota. rewrite (enc_bytes_small _ _ 64) by done. cbn [obind].
    rewrite (enc_bytes_small _ _ 16) by done. cbn [obind].
    apply enc_finish_Ok. unfold_encoder. rewrite <-!app_assoc in *. rewrite !app_nil_r in *. done.
Qed.

Lemma domain_descriptor_codec :
  canonical wf_domain_descriptor encode_domain_descriptor decode_domain_descriptor.
Proof.
  eapply (canonical_of_fields _ _ domain_descriptor_body DOMAIN_DESCRIPTOR_TAG);
    [exact encode_domain_descriptor_Ok| |intros; reflexivity| | |].
  - unfold encode_domain_descriptor. no_panic; rewrite check_limit_Ok in *;
      by eapply enc_bytes_no_panic; lia.
  - unfold wf_domain_descriptor, metadata_ok, domain_descriptor_body. accept_fields.
    rewrite (proj2 (status_u8_of dd_status _) eq_refl). done.
  - unfold wf_domain_descriptor, metadata_ok, domain_descriptor_body. sound_fields.
    + by bool_prop.
    + match goal with H : status_of_u8 _ = Ok _ |- _ => by apply status_u8_of in H as -> end.
  - no_panic.
Qed.

Definition domain_genesis_body (v : DomainGenesis) : bytes :=
  dg_domain_id v ++ dg_parent_domain_id v ++ dg_joint_domain_block_hash v ++
  dg_create_tx_hash v ++ prefixed (dg_name v) ++ prefixed (dg_symbol v) ++
  of_u64 (dg_evm_chain_id v) ++ dg_owner v ++ of_u32 (dg_protocol_revision v) ++
  of_u64 (dg_gas_limit v) ++ of_u128 (dg_initial_base_fee v) ++ of_u256 (dg_initial_supply v) ++
  dg_initial_state_root v ++ [].

Lemma encode_domain_genesis_Ok v b :
  encode_domain_genesis v = Ok b ↔
    metadata_ok (dg_name v) (dg_symbol v) (dg_evm_chain_id v) ∧
    b = tagged_body DOMAIN_GENESIS_TAG (domain_genesis_body v) ∧
    zlen b ≤ MAX_CANONICAL_OBJECT_BYTES.
Proof.
  unfold encode_domain_genesis, metadata_ok, domain_genesis_body. cbv zeta. split.
  - intros H. ok_inv. bool_prop. apply enc_finish_Ok in H as [-> H].
    rewrite !enc_bytes_Ok, !check_limit_Ok in *. destruct_and!. subst.
    unfold_encoder. rewrite <-!app_assoc in *. rewrite !app_nil_r. done.
  - intros ((Hn & Hs & Hc) & -> & Hl). rewrite !(proj2 (check_limit_Ok _ _ _ tt)) by done.
    cbn [obind]. guards. cbv iota. rewrite (enc_bytes_small _ _ 64) by done. cbn [obind].
    rewrite (enc_bytes_small _ _ 16) by done. cbn [obind].
    apply enc_finish_Ok. unfold_encoder. rewrite <-!app_assoc in *. rewrite !app_nil_r in *. done.
Qed.

Lemma domain_genesis_codec :
  canonical wf_domain_genesis encode_domain_genesis decode_domain_genesis.
Proof.
  eapply (canonical_of_fields _ _ domain_genesis_body DOMAIN_GENESIS_TAG);
    [exact encode_domain_genesis_Ok| |intros; reflexivity| | |].
  - unfold encode_domain_genesis. no_panic; rewrite check_limit_Ok in *;
      by eapply enc_bytes_no_panic; lia.
  - unfold wf_domain_genesis, metadata_ok, domain_genesis_body. accept_fields.
  - unfold wf_domain_genesis, metadata_ok, domain_genesis_body. sound_fields. by bool_prop.
  - no_panic.
Qed.

(** ** Collections *)

(** A loop that appends one encoded item per element. *)
Lemma for_each_append {A : Type} (body : bytes → A → outcome CodecError bytes) (ok : A → Prop)
    (enc : A → bytes) :
  (∀ out a b, body out a = Ok b ↔ ok a ∧ b = out ++ enc a) →
  ∀ l out b, for_each body out l = Ok b ↔ Forall ok l ∧ b = out ++ concat (map enc l).
Proof.
  intros Hbody l. induction l as [|a l IH]; intros out b; simpl.
  - rewrite app_nil_r. split; [intros [= <-]; split; [constructor|done]|by intros [_ ->]].
  - split.
    + intros H. ok_inv. apply Hbody in Hok as [Ha ->]. apply IH in H as [Hl ->].
      split; [by constructor|]. by rewrite app_assoc.
    + intros [Hl ->]. inversion Hl; subst.
      rewrite (proj2 (Hbody out a (out ++ enc a))) by done. cbn [obind].
      apply IH. by rewrite app_assoc.
Qed.

Lemma for_each_no_panic {E S A : Type} (body : S → A → outcome E S) l s m :
  (∀ s a, a ∈ l → body s a ≠ Panic m) → for_each body s l ≠ Panic m.
Proof.
  revert s. induction l as [|a l IH]; intros s Hb; simpl; [done|].
  apply obind_no_panic; [apply Hb; by left|]. intros s' _. apply IH. intros ???. apply Hb. by right.
Qed.

Definition domain_batch_ok (v : DomainBatch) : Prop :=
  zlen (db_transactions v) ≤ MAX_TRANSACTIONS_PER_BATCH ∧
  Forall (λ t, zlen t ≤ MAX_TRANSACTION_ENVELOPE_BYTES) (db_transactions v).

Definition domain_batch_body (v : DomainBatch) : bytes :=
  db_domain_id v ++ db_parent_domain_block_hash v ++ of_u32 (zlen (db_transactions v)) ++
  concat (map prefixed (db_transactions v)) ++ [].

Lemma encode_transaction_Ok out t b :
  (run? check_limit "transaction envelope" (zlen t) MAX_TRANSACTION_ENVELOPE_BYTES in
   Encoder.bytes_ out t) = Ok b ↔
  zlen t ≤ MAX_TRANSACTION_ENVELOPE_BYTES ∧ b = out ++ prefixed t.
Proof.
  split.
  - intros H. ok_inv. apply check_limit_Ok in Hok. by apply enc_bytes_Ok in H as [_ ->].
  - intros [Ht ->]. rewrite (proj2 (check_limit_Ok _ _ _ tt)) by done. cbn [obind].
    by apply (enc_bytes_small _ _ MAX_TRANSACTION_ENVELOPE_BYTES).
Qed.

Lemma encode_domain_batch_Ok v b :
  encode_domain_batch v = Ok b ↔
    domain_batch_ok v ∧ b = tagged_body DOMAIN_BATCH_TAG (domain_batch_body v) ∧
    zlen b ≤ MAX_CANONICAL_OBJECT_BYTES.
Proof.
  unfold encode_domain_batch, domain_batch_ok, domain_batch_body. cbv zeta. split.
  - intros H. ok_inv. apply enc_finish_Ok in H as [-> H]. apply check_limit_Ok in Hok.
    apply enc_count_Ok in Hok0 as [_ ->].
    apply (for_each_append _ _ _ encode_transaction_Ok) in Hok1 as [Hall ->].
    unfold_encoder. rewrite <-!app_assoc, ?app_nil_r in *. done.
  - intros ((Hc & Hall) & -> & Hl). rewrite (proj2 (check_limit_Ok _ _ _ tt)) by done.
    cbn [obind]. rewrite (enc_count_small _ _ MAX_TRANSACTIONS_PER_BATCH) by done.
    cbn [obind]. rewrite (proj2 (for_each_append _ _ _ encode_transaction_Ok _ _ _) (conj Hall eq_refl)).
    cbn [obind]. apply enc_finish_Ok. unfold_encoder. rewrite <-!app_assoc, ?app_nil_r in *. done.
Qed.

Lemma domain_batch_codec :
  canonical wf_domain_batch encode_domain_batch decode_domain_batch.
Proof.
  eapply (canonical_of_fields _ _ domain_batch_body DOMAIN_BATCH_TAG);
    [exact encode_domain_batch_Ok| |intros; reflexivity| | |].
  - unfold encode_domain_batch. no_panic.
    + rewrite check_limit_Ok in *. apply enc_count_no_panic. wf_side.
    + apply for_each_no_panic. intros s t _. no_panic. rewrite check_limit_Ok in *.
      apply enc_bytes_no_panic. unfold MAX_TRANSACTION_ENVELOPE_BYTES in *. lia.
  - unfold wf_domain_batch, domain_batch_ok, domain_batch_body. accept_fields.
    + apply length_zlen.
    + eapply list.Forall_impl; [eassumption|]. intros t Ht. cbv beta in *. wf_side.
  - unfold wf_domain_batch, domain_batch_ok, domain_batch_body. sound_fields.
    eapply list.Forall_impl; [eassumption|]. by intros t [].
  - no_panic.
Qed.

(** ** Validator sets *)

Definition validator_bytes (v : Validator) : bytes :=
  vd_id v ++ vd_public_key v ++ of_u64 (vd_power v).

#[export] Instance validator_codec :
  FieldCodec decode_validator (λ v, wf_validator v ∧ vd_power v ≠ 0) validator_bytes.
Proof.
  unfold wf_validator, validator_bytes, decode_validator. split.
  - intros d v rest [Hwf Hp] Hrem. destruct v; simpl in *. rewrite <-!app_assoc in Hrem.
    destruct_and!.
    destruct (codec_accepts Decode.b256 d _ _ ltac:(done) Hrem) as (d1 & -> & Hr1). cbn [obind].
    destruct (codec_accepts (Decode.array 33) d1 _ _ ltac:(done) Hr1) as (d2 & -> & Hr2).
    cbn [obind].
    destruct (codec_accepts Decode.u64 d2 _ _ ltac:(done) Hr2) as (d3 & -> & Hr3). cbn [obind].
    guards. cbv iota. eauto.
  - intros d v d' rest Hrem Hd. ok_inv. bool_prop. simplify_eq. repeat sound_field. simpl.
    split; [done|]. eexists. rewrite <-!app_assoc. done.
  - no_panic.
Qed.

Definition validator_set_ok (v : ValidatorSet) : Prop :=
  zlen (vs_validators v) ≤ MAX_ACTIVE_VALIDATORS ∧ zlen (vs_validators v) ≠ 0 ∧
  StronglySorted tlt (map vd_id (vs_validators v)) ∧
  Forall (λ x, vd_power x ≠ 0) (vs_validators v).

Definition validator_set_body (v : ValidatorSet) : bytes :=
  of_u64 (vs_epoch v) ++ of_u32 (zlen (vs_validators v)) ++
  concat (map validator_bytes (vs_validators v)) ++ [].

Lemma encode_validator_Ok out x b :
  (if vd_power x =? 0 then Err (InvalidValue "validator power")
   else Ok (Encoder.u64 (Encoder.b256 out (vd_id x) ++ vd_public_key x) (vd_power x))) = Ok b ↔
  vd_power x ≠ 0 ∧ b = out ++ validator_bytes x.
Proof.
  unfold_encoder. unfold validator_bytes. rewrite <-!app_assoc.
  destruct (Z.eqb_spec (vd_power x) 0); naive_solver.
Qed.

Lemma encode_validator_set_Ok v b :
  encode_validator_set v = Ok b ↔
    validator_set_ok v ∧ b = tagged_body VALIDATOR_SET_TAG (validator_set_body v) ∧
    zlen b ≤ MAX_CANONICAL_OBJECT_BYTES.
Proof.
  unfold encode_validator_set, validator_set_ok, validator_set_body. cbv zeta. split.
  - intros H. ok_inv. bool_prop. apply enc_finish_Ok in H as [-> H]. apply check_limit_Ok in Hok.
    apply check_strictly_sorted_Ok in Hok0. apply enc_count_Ok in Hok1 as [_ ->].
    apply (for_each_append _ _ _ encode_validator_Ok) in Hok2 as [Hall ->].
    unfold_encoder. rewrite <-!app_assoc, ?app_nil_r in *. done.
  - intros ((Hc & Hz & Hs & Hall) & -> & Hl). rewrite (proj2 (check_limit_Ok _ _ _ tt)) by done.
    cbn [obind]. guards. cbv iota. rewrite (proj2 (check_strictly_sorted_Ok _ _ tt)) by done.
    cbn [obind]. rewrite (enc_count_small _ _ MAX_ACTIVE_VALIDATORS) by done. cbn [obind].
    rewrite (proj2 (for_each_append _ _ _ encode_validator_Ok _ _ _) (conj Hall eq_refl)).
    cbn [obind]. apply enc_finish_Ok. unfold_encoder. rewrite <-!app_assoc, ?app_nil_r in *. done.
Qed.

Lemma validator_set_codec :
  canonical wf_validator_set encode_validator_set decode_validator_set.
Proof.
  eapply (canonical_of_fields _ _ validator_set_body VALIDATOR_SET_TAG);
    [exact encode_validator_set_Ok| |intros; reflexivity| | |].
  - unfold encode_validator_set. no_panic.
    + rewrite check_limit_Ok in *. apply enc_count_no_panic. wf_side.
    + apply for_each_no_panic. no_panic.
  - unfold wf_validator_set, validator_set_ok, validator_set_body. accept_fields.
    + apply length_zlen.
    + by apply Forall_and.
    + by rewrite (proj2 (check_strictly_sorted_Ok _ _ tt)).
  - unfold wf_validator_set, validator_set_ok, validator_set_body. sound_fields.
    + eapply list.Forall_impl; [eassumption|]. by intros x [].
    + by bool_prop.
    + eapply list.Forall_impl; [eassumption|]. by intros x [].
  - no_panic.
Qed.

(** ** Quorum certificates *)

Definition commit_signature_bytes (s : CommitSignature) : bytes :=
  cs_validator_id s ++ cs_signature s.

#[export] Instance commit_signature_codec :
  FieldCodec decode_commit_signature wf_commit_signature commit_signature_bytes.
Proof.
  unfold wf_commit_signature, commit_signature_bytes, decode_commit_signature. split.
  - intros d v rest Hwf Hrem. destruct v; simpl in *. rewrite <-!app_assoc in Hrem.
    destruct_and!.
    destruct (codec_accepts Decode.b256 d _ _ ltac:(done) Hrem) as (d1 & -> & Hr1). cbn [obind].
    destruct (codec_accepts (Decode.array 64) d1 _ _ ltac:(done) Hr1) as (d2 & -> & Hr2).
    cbn [obind]. eauto.
  - intros d v d' rest Hrem Hd. ok_inv. simplify_eq. repeat sound_field. simpl.
    split; [done|]. eexists. rewrite <-!app_assoc. done.
  - no_panic.
Qed.

Definition quorum_certificate_ok (q : QuorumCertificate) : Prop :=
  qc_phase q ≠ 0 ∧ zlen (qc_signatures q) ≤ MAX_ACTIVE_VALIDATORS ∧
  zlen (qc_signatures q) ≠ 0 ∧ StronglySorted tlt (map cs_validator_id (qc_signatures q)).

Definition quorum_certificate_body (q : QuorumCertificate) : bytes :=
  qc_network_id q ++ of_u64 (qc_height q) ++ of_u64 (qc_round q) ++ [byte_of (qc_phase q)] ++
  qc_block_hash q ++ of_u32 (zlen (qc_signatures q)) ++
  concat (map commit_signature_bytes (qc_signatures q)) ++ [].

Lemma encode_commit_signature_Ok out s b :
  Ok (E:=CodecError) (Encoder.b256 out (cs_validator_id s) ++ cs_signature s) = Ok b ↔
  True ∧ b = out ++ commit_signature_bytes s.
Proof.
  unfold_encoder. unfold commit_signature_bytes. rewrite <-!app_assoc. naive_solver.
Qed.

Lemma encode_quorum_certificate_Ok q b :
  encode_quorum_certificate q = Ok b ↔
    quorum_certificate_ok q ∧ b = tagged_body QC_TAG (quorum_certificate_body q) ∧
    zlen b ≤ MAX_CANONICAL_OBJECT_BYTES.
Proof.
  unfold encode_quorum_certificate, quorum_certificate_ok, quorum_certificate_body. cbv zeta.
  split.
  - intros H. ok_inv. bool_prop. apply enc_finish_Ok in H as [-> H]. apply check_limit_Ok in Hok.
    apply check_strictly_sorted_Ok in Hok0. apply enc_count_Ok in Hok1 as [_ ->].
    apply (for_each_append _ _ _ encode_commit_signature_Ok) in Hok2 as [_ ->].
    unfold_encoder. rewrite <-!app_assoc, ?app_nil_r in *. done.
  - intros ((Hp & Hc & Hz & Hs) & -> & Hl). guards. cbv iota.
    rewrite (proj2 (check_limit_Ok _ _ _ tt)) by done. cbn [obind].
    rewrite (proj2 (check_strictly_sorted_Ok _ _ tt)) by done.
    cbn [obind]. rewrite (enc_count_small _ _ MAX_ACTIVE_VALIDATORS) by done. cbn [obind].
    rewrite (proj2 (for_each_append _ _ _ encode_commit_signature_Ok _ _ _)
      (conj (Forall_true _ _ (λ _, I)) eq_refl)).
    cbn [obind]. apply enc_finish_Ok. unfold_encoder. rewrite <-!app_assoc, ?app_nil_r in *. done.
Qed.

Lemma quorum_certificate_codec :
  canonical wf_quorum_certificate encode_quorum_certificate decode_quorum_certificate.
Proof.
  eapply (canonical_of_fields _ _ quorum_certificate_body QC_TAG);
    [exact encode_quorum_certificate_Ok| |intros; reflexivity| | |].
  - unfold encode_quorum_certificate. no_panic.
    + rewrite check_limit_Ok in *. apply enc_count_no_panic. wf_side.
    + apply for_each_no_panic. no_panic.
  - unfold wf_quorum_certificate, quorum_certificate_ok, quorum_certificate_body.
    accept_fields.
    + apply length_zlen.
    + by rewrite (proj2 (check_strictly_sorted_Ok _ _ tt)).
  - unfold wf_quorum_certificate, quorum_certificate_ok, quorum_certificate_body.
    sound_fields; by bool_prop.
  - no_panic.
Qed.

(** ** Results *)

Section canonical_facts.
Context {E A : Type} {wf : A → Prop} {encode : A → outcome E bytes}.
Context {decode : bytes → outcome E A}.
Hypothesis Hcan : canonical wf encode decode.

Lemma canonical_encode_no_panic v m : encode v ≠ Panic m.
Proof. apply Hcan. Qed.

Lemma canonical_encode_inj v w b : wf v → wf w → encode v = Ok b → encode w = Ok b → v = w.
Proof.
  destruct Hcan as (Hr & _). intros Hv Hw H1 H2. apply Hr in H1, H2; [|done..]. congruence.
Qed.

Lemma canonical_decode_wf v b : decode b = Ok v → wf v.
Proof. intros Hd. by apply Hcan in Hd as [? _]. Qed.
End canonical_facts.

(** The codecs of what validators sign and store are canonical: consensus
    headers, votes, quorum certificates and validator sets. Encoding a
    well-typed object and decoding gives it back, only the canonical bytes
    decode, decoded objects are well-typed and nothing panics. A decoded
    certificate has a bounded, non-empty list of strictly sorted signers, and a
    decoded validator set is non-empty, bounded, strictly sorted by identifier
    and of non-zero powers. *)
Theorem consensus_codecs_canonical :
  canonical wf_consensus_header encode_consensus_header decode_consensus_header ∧
  canonical wf_vote encode_vote decode_vote ∧
  canonical wf_quorum_certificate encode_quorum_certificate decode_quorum_certificate ∧
  canonical wf_validator_set encode_validator_set decode_validator_set ∧
  (∀ q b, decode_quorum_certificate b = Ok q → quorum_certificate_ok q) ∧
  (∀ s b, decode_validator_set b = Ok s → validator_set_ok s).
Proof.
  split; [exact consensus_header_codec|]. split; [exact vote_codec|].
  split; [exact quorum_certificate_codec|]. split; [exact validator_set_codec|]. split.
  - intros q b [_ Hd]%quorum_certificate_codec. by apply encode_quorum_certificate_Ok in Hd as [? _].
  - intros s b [_ Hd]%validator_set_codec. by apply encode_validator_set_Ok in Hd as [? _].
Qed.

(** The codecs of a domain's records are canonical: domain headers, batches,
    descriptors and genesis records. A decoded batch is within the
    transaction-count and envelope limits, and a decoded descriptor or genesis
    record has bounded names and a non-zero chain id. *)
Theorem domain_codecs_canonical :
  canonical wf_domain_header encode_domain_header decode_domain_header ∧
  canonical wf_domain_batch encode_domain_batch decode_domain_batch ∧
  canonical wf_domain_descriptor encode_domain_descriptor decode_domain_descriptor ∧
  canonical wf_domain_genesis encode_domain_genesis decode_domain_genesis ∧
  (∀ v b, decode_domain_batch b = Ok v → domain_batch_ok v) ∧
  (∀ v b, decode_domain_descriptor b = Ok v →
    metadata_ok (dd_name v) (dd_symbol v) (dd_evm_chain_id v)) ∧
  (∀ v b, decode_domain_genesis b = Ok v →
    metadata_ok (dg_name v) (dg_symbol v) (dg_evm_chain_id v)).
Proof.
  split; [exact domain_header_codec|]. split; [exact domain_batch_codec|].
  split; [exact domain_descriptor_codec|]. split; [exact domain_genesis_codec|]. split_and!.
  - intros v b [_ Hd]%domain_batch_codec. by apply encode_domain_batch_Ok in Hd as [? _].
  - intros v b [_ Hd]%domain_descriptor_codec. by apply encode_domain_descriptor_Ok in Hd as [? _].
  - intros v b [_ Hd]%domain_genesis_codec. by apply encode_domain_genesis_Ok in Hd as [? _].
Qed.
