(* ===== verification/Cursor.v ===== *)
(** Byte cursors: the private [Cursor] type that the checkpoint codecs share
    (src/crates/arbor-network/src/snapshot.rs and
    src/crates/arbor-consensus/src/checkpoint.rs have the same methods, with their own
    errors), as readers that are composed in sequence.

    A reader is described by the relation between a value and the bytes it is read
    from ([reads]); the description of a composed reader follows from those of its
    parts, and a decoder that must consume its whole input accepts exactly the bytes
    its reader relates to a value ([run_exact]). *)

From Stdlib Require Import Strings.Byte.
From S2P Require Import Prelude Bytes Canonical.

Local Open Scope Z_scope.

(** A cursor is its input and a position; a method returns its value and the
    position it leaves. *)
Definition reader (E A : Type) : Type := bytes → Z → outcome E (A * Z).

Definition rret {E A : Type} (a : A) : reader E A := fun _ cursor => Ok (a, cursor).

Definition rbind {E A B : Type} (r : reader E A) (k : A → reader E B) : reader E B :=
  fun input cursor => let? '(a, cursor) := r input cursor in k a input cursor.

(** A computation that does not move the cursor. *)
Definition rlift {E A : Type} (c : outcome E A) : reader E A :=
  fun _ cursor => let? a := c in Ok (a, cursor).

Definition rguard {E : Type} (fails : bool) (e : E) : reader E unit :=
  rlift (if fails then Err e else Ok tt).

Declare Scope reader_scope.
Delimit Scope reader_scope with reader.
Notation "'let!' x ':=' r 'in' k" := (rbind r (fun x => k))
  (at level 10, x name, r at level 100, k at level 200) : reader_scope.
Notation "'run!' r 'in' k" := (rbind r (fun _ => k))
  (at level 10, r at level 100, k at level 200) : reader_scope.
Local Open Scope reader_scope.

(** What the methods report. *)
Class CursorErrors (E : Type) := {
  ce_overflow : E;
  ce_truncated : E;
  ce_tag : E;
  ce_width : nat → E;
  ce_trailing : E;
}.

Section methods.
Context {E : Type} `{!CursorErrors E}.

Definition cursor_take (length : Z) : reader E bytes := fun input position =>
  let? end_ := ok_or (checked_add 64 position length) ce_overflow in
  let? value := ok_or (get_range input position end_) ce_truncated in
  Ok (value, end_).

Definition cursor_expect (expected : bytes) : reader E unit :=
  let! value := cursor_take (zlen expected) in
  rguard (negb (bool_decide (value = expected))) ce_tag.

(** [u8], [u16], [u32], [u64] and [u128], by their width in bytes. *)
Definition cursor_uint (width : nat) : reader E Z :=
  let! value := cursor_take (Z.of_nat width) in
  run! rguard (negb (length value =? width)%nat) (ce_width width) in
  rret (from_be_bytes value).

Definition cursor_hash : reader E bytes := cursor_take 32.

Definition cursor_bytes : reader E bytes :=
  let! length := cursor_uint 4 in
  cursor_take length.

Definition cursor_finish : reader E unit := fun input position =>
  if negb (position =? zlen input) then Err ce_trailing else Ok (tt, position).

(** [for _ in 0..count { items.push(item) }]. *)
Fixpoint repeated {A : Type} (item : reader E A) (count : nat) : reader E (list A) :=
  match count with
  | O => rret []
  | S count' =>
      let! value := item in
      let! values := repeated item count' in
      rret (value :: values)
  end.

(** Reading all of an input. *)
Definition run_all {A : Type} (r : reader E A) (input : bytes) : outcome E A :=
  let? read := (let! value := r in run! cursor_finish in rret value) input 0 in
  Ok read.1.
End methods.

(** ** What readers read *)

Record reads {E A : Type} (r : reader E A) (R : A → bytes → Prop) : Prop := {
  rd_accepts : ∀ pre v b rest, R v b → zlen (pre ++ b ++ rest) < 2 ^ 64 →
    r (pre ++ b ++ rest) (zlen pre) = Ok (v, zlen pre + zlen b);
  rd_sound : ∀ pre input v cursor, zlen (pre ++ input) < 2 ^ 64 →
    r (pre ++ input) (zlen pre) = Ok (v, cursor) →
    ∃ b rest, R v b ∧ input = b ++ rest ∧ cursor = zlen pre + zlen b;
}.

(** One value read from one sequence of bytes, wherever it stands. *)
Definition accepts {E A : Type} (r : reader E A) (v : A) (b : bytes) : Prop :=
  ∀ pre rest, zlen (pre ++ b ++ rest) < 2 ^ 64 → r (pre ++ b ++ rest) (zlen pre) = Ok (v, zlen pre + zlen b).

(** A reader that never panics. *)
Definition rsafe {E A : Type} (r : reader E A) : Prop := ∀ input cursor m, r input cursor ≠ Panic m.

Create HintDb reader.

Section combinators.
Context {E : Type}.

Lemma reads_ret {A : Type} (a : A) : reads (E := E) (rret a) (λ v b, v = a ∧ b = []).
Proof.
  split.
  - intros pre v b rest [-> ->] _. unfold rret. by rewrite zlen_nil, Z.add_0_r.
  - intros pre input v cursor _ [= <- <-]. exists [], input. by rewrite zlen_nil, Z.add_0_r.
Qed.

Lemma reads_lift {A : Type} (c : outcome E A) : reads (rlift c) (λ v b, c = Ok v ∧ b = []).
Proof.
  split.
  - intros pre v b rest [-> ->] _. unfold rlift. cbn [obind]. by rewrite zlen_nil, Z.add_0_r.
  - intros pre input v cursor _ Hr. apply obind_Ok in Hr as (a & -> & [= <- <-]).
    exists [], input. by rewrite zlen_nil, Z.add_0_r.
Qed.

Lemma reads_guard fails (e : E) : reads (rguard fails e) (λ _ b, fails = false ∧ b = []).
Proof.
  destruct (reads_lift (if fails then Err e else Ok tt)) as [Ha Hs]. unfold rguard. split.
  - intros pre [] b rest [-> ->] Hl. by apply Ha.
  - intros pre input [] cursor Hl Hr. destruct (Hs _ _ _ _ Hl Hr) as (b & rest & [Hf ->] & Hrest).
    exists [], rest. by destruct fails.
Qed.

Lemma reads_bind {A B : Type} (r : reader E A) (k : A → reader E B) R S :
  reads r R → (∀ a, reads (k a) (S a)) →
  reads (rbind r k) (λ v b, ∃ a b1 b2, R a b1 ∧ S a v b2 ∧ b = b1 ++ b2).
Proof.
  intros Hr Hk. split.
  - intros pre v b rest (a & b1 & b2 & HR & HS & ->) Hl. unfold rbind. rewrite <-app_assoc in Hl |- *.
    rewrite (rd_accepts _ _ Hr _ a b1) by done. cbn [obind].
    rewrite (app_assoc pre) in Hl |- *. rewrite <-zlen_app, (rd_accepts _ _ (Hk a) _ v b2) by done.
    rewrite !zlen_app. do 2 f_equal. lia.
  - intros pre input v cursor Hl Hb. unfold rbind in Hb. apply obind_Ok in Hb as ([a c] & Ha & Hb).
    destruct (rd_sound _ _ Hr _ _ _ _ Hl Ha) as (b1 & rest & HR & -> & ->).
    rewrite (app_assoc pre) in Hl, Hb. rewrite <-zlen_app in Hb.
    destruct (rd_sound _ _ (Hk a) _ _ _ _ Hl Hb) as (b2 & rest2 & HS & -> & ->).
    exists (b1 ++ b2), rest2. rewrite <-!app_assoc. split_and!; [by exists a, b1, b2|done|].
    rewrite !zlen_app. lia.
Qed.

Lemma reads_equiv {A : Type} (r : reader E A) R R' : (∀ v b, R v b ↔ R' v b) → reads r R → reads r R'.
Proof.
  intros He [Ha Hs]. split.
  - intros pre v b rest HR Hl. apply Ha; [by apply He|done].
  - intros pre input v cursor Hl Hr. destruct (Hs _ _ _ _ Hl Hr) as (b & rest & HR & Hrest).
    exists b, rest. split; [by apply He|done].
Qed.

Lemma reads_accepts {A : Type} (r : reader E A) R v b : reads r R → R v b → accepts r v b.
Proof. intros Hr HR pre rest. by apply (rd_accepts _ _ Hr). Qed.

Lemma accepts_bind {A B : Type} (r : reader E A) (k : A → reader E B) a v b1 b2 :
  accepts r a b1 → accepts (k a) v b2 → accepts (rbind r k) v (b1 ++ b2).
Proof.
  intros Hr Hk pre rest Hl. unfold rbind. rewrite <-app_assoc in Hl |- *. rewrite Hr by done. cbn [obind].
  rewrite (app_assoc pre) in Hl |- *. rewrite <-zlen_app, Hk by done. rewrite !zlen_app. do 2 f_equal. lia.
Qed.

Lemma accepts_last {A B : Type} (r : reader E A) (f : A → B) a b :
  accepts r a b → accepts (rbind r (λ x, rret (f x))) (f a) b.
Proof.
  intros Hr. rewrite <-(app_nil_r b). eapply accepts_bind; [exact Hr|].
  by apply (reads_accepts _ _ _ _ (reads_ret _)).
Qed.

(** A step that reads nothing. *)
Lemma accepts_lift {A B : Type} (c : outcome E A) (k : A → reader E B) a v b :
  c = Ok a → accepts (k a) v b → accepts (rbind (rlift c) k) v b.
Proof.
  intros Hc Hk. apply (accepts_bind _ _ a v [] b); [|done]. by apply (reads_accepts _ _ _ _ (reads_lift _)).
Qed.

Lemma accepts_guard {B : Type} fails e (k : unit → reader E B) v b :
  fails = false → accepts (k tt) v b → accepts (rbind (rguard fails e) k) v b.
Proof. intros -> Hk. by apply (accepts_lift _ _ tt). Qed.

Lemma rsafe_ret {A : Type} (a : A) : rsafe (E := E) (rret a).
Proof. done. Qed.

Lemma rsafe_lift {A : Type} (c : outcome E A) : (∀ m, c ≠ Panic m) → rsafe (rlift c).
Proof. intros Hc input cursor m. unfold rlift. apply obind_no_panic; [apply Hc|done]. Qed.

Lemma rsafe_guard fails (e : E) : rsafe (rguard fails e).
Proof. apply rsafe_lift. by destruct fails. Qed.

Lemma rsafe_bind {A B : Type} (r : reader E A) (k : A → reader E B) :
  rsafe r → (∀ a, rsafe (k a)) → rsafe (rbind r k).
Proof.
  intros Hr Hk input cursor m. unfold rbind. apply obind_no_panic; [apply Hr|]. intros [a c] _. apply Hk.
Qed.
End combinators.

#[export] Hint Resolve rsafe_ret rsafe_guard rsafe_bind rsafe_lift : reader.

Section methods_read.
Context {E : Type} `{!CursorErrors E}.

Lemma reads_take n : reads (E := E) (cursor_take n) (λ v b, v = b ∧ zlen b = n).
Proof.
  split.
  - intros pre v b rest [-> <-] Hl. unfold cursor_take. rewrite !zlen_app in Hl. pose proof (zlen_nonneg rest).
    rewrite (proj2 (checked_add_Some 64 (zlen pre) (zlen b) (zlen pre + zlen b))) by lia. cbn [ok_or obind].
    by rewrite get_range_app.
  - intros pre input v cursor Hl Ht. unfold cursor_take in Ht. apply obind_Ok in Ht as (e & He & Ht).
    apply ok_or_Ok, checked_add_Some in He as [-> _]. apply obind_Ok in Ht as (w & Hg & [= <- <-]).
    apply ok_or_Ok in Hg. pose proof (get_range_length _ _ _ _ Hg) as Hn. pose proof (get_range_split _ _ _ _ Hg) as Hs.
    unfold zlen in Hs at 1. rewrite Nat2Z.id, take_app_length in Hs. apply app_inv_head in Hs.
    exists w. eexists. split; [split; [done|lia]|]. split; [exact Hs|lia].
Qed.

Lemma reads_tag tag : reads (E := E) (cursor_expect tag) (λ _ b, b = tag).
Proof.
  eapply reads_equiv; [|apply reads_bind; [apply reads_take|intros a; apply reads_guard]].
  intros [] b. split.
  - intros (v & b1 & b2 & [-> Hl] & [Hg ->] & ->). apply negb_false_iff, bool_decide_eq_true in Hg as ->. by rewrite app_nil_r.
  - intros ->. exists tag, tag, []. rewrite app_nil_r. split_and!; try done. by rewrite bool_decide_true.
Qed.

Lemma reads_uint w : reads (E := E) (cursor_uint w) (λ v b, fits (8 * Z.of_nat w) v ∧ b = to_be_bytes w v).
Proof.
  eapply reads_equiv; [|apply reads_bind; [apply reads_take|intros a; apply reads_bind; [apply reads_guard|intros u; apply reads_ret]]].
  intros v b. split.
  - intros (x & b1 & b2 & [-> Hl] & (_ & b3 & b4 & [Hg ->] & [-> ->] & ->) & ->). rewrite app_nil_r.
    apply negb_false_iff, Nat.eqb_eq in Hg. split; [by apply from_be_bytes_fits|]. by rewrite to_from_be_bytes.
  - intros [Hf ->]. exists (to_be_bytes w v), (to_be_bytes w v), []. rewrite app_nil_r.
    split_and!; [done|apply zlen_to_be_bytes| |done]. exists tt, [], []. rewrite length_to_be_bytes, Nat.eqb_refl.
    split_and!; try done. symmetry. by apply from_to_be_bytes.
Qed.

Lemma reads_hash : reads (E := E) cursor_hash (λ v b, v = b ∧ is_b256 v).
Proof.
  eapply reads_equiv; [|apply reads_take]. intros v b. unfold is_b256, zlen. naive_solver lia.
Qed.

Lemma reads_prefixed : reads (E := E) cursor_bytes (λ v b, u32 (zlen v) ∧ b = to_be_bytes 4 (zlen v) ++ v).
Proof.
  eapply reads_equiv; [|apply reads_bind; [apply reads_uint|intros a; apply reads_take]].
  intros v b. split.
  - intros (n & b1 & b2 & [Hf ->] & [-> <-] & ->). done.
  - intros [Hf ->]. by exists (zlen v), (to_be_bytes 4 (zlen v)), v.
Qed.

Lemma reads_repeated {A : Type} (item : reader E A) R n :
  reads item R → reads (repeated item n) (λ vs b, length vs = n ∧ ∃ bs, Forall2 R vs bs ∧ b = concat bs).
Proof.
  intros Hi. induction n as [|n IH].
  - eapply reads_equiv; [|apply reads_ret]. intros vs b. split.
    + intros [-> ->]. split; [done|]. by exists [].
    + intros (Hl & bs & Hf & ->). apply length_zero_iff_nil in Hl as ->. by apply Forall2_nil_inv_l in Hf as ->.
  - eapply reads_equiv; [|apply reads_bind; [exact Hi|intros a; apply reads_bind; [exact IH|intros l; apply reads_ret]]].
    intros vs b. split.
    + intros (a & b1 & b2 & HR & (l & b3 & b4 & (Hl & bs & Hf & ->) & [-> ->] & ->) & ->).
      split; [by cbn; f_equal|]. exists (b1 :: bs). rewrite app_nil_r. split; [by constructor|done].
    + intros (Hl & bs & Hf & ->). destruct vs as [|v vs]; [done|].
      apply Forall2_cons_inv_l in Hf as (b1 & bs' & HR & Hf & ->). injection Hl as Hl.
      exists v, b1, (concat bs'). split_and!; [done| |done]. exists vs, (concat bs'), []. rewrite app_nil_r.
      split_and!; try done. by exists bs'.
Qed.

Lemma run_exact {A : Type} (r : reader E A) R input v :
  reads r R → zlen input < 2 ^ 64 → run_all r input = Ok v ↔ R v input.
Proof.
  intros Hr Hl. unfold run_all, rbind, cursor_finish, rret. split.
  - intros Hd. apply obind_Ok in Hd as ([v0 c] & Hd & [= <-]). cbn [fst]. apply obind_Ok in Hd as ([v' c'] & Hr' & Hd).
    destruct (rd_sound _ _ Hr [] input v' c' Hl Hr') as (b & rest & HR & -> & ->).
    apply obind_Ok in Hd as ([[] c2] & Hf & [= <- _]).
    destruct (Z.eqb_spec (zlen (A := byte) [] + zlen b) (zlen (b ++ rest))) as [E1|]; [|done].
    rewrite zlen_app, zlen_nil in E1. assert (rest = []) as -> by (apply length_zero_iff_nil; unfold zlen in E1; lia).
    by rewrite app_nil_r.
  - intros HR. pose proof (rd_accepts _ _ Hr [] v input [] HR) as Ha. cbn [app] in Ha. rewrite app_nil_r in Ha.
    change (zlen (A := byte) []) with 0 in Ha. rewrite Ha by done. cbn [obind]. by rewrite Z.eqb_refl.
Qed.

Lemma accepts_hash v : is_b256 v → accepts (E := E) cursor_hash v v.
Proof. intros Hv. by apply (reads_accepts _ _ _ _ reads_hash). Qed.

Lemma accepts_take v : accepts (E := E) (cursor_take (zlen v)) v v.
Proof. by apply (reads_accepts _ _ _ _ (reads_take _)). Qed.

Lemma accepts_tag tag : accepts (E := E) (cursor_expect tag) tt tag.
Proof. by apply (reads_accepts _ _ _ _ (reads_tag _)). Qed.

Lemma accepts_uint w v : fits (8 * Z.of_nat w) v → accepts (E := E) (cursor_uint w) v (to_be_bytes w v).
Proof. intros Hv. by apply (reads_accepts _ _ _ _ (reads_uint _)). Qed.

Lemma accepts_prefixed v : u32 (zlen v) → accepts (E := E) cursor_bytes v (to_be_bytes 4 (zlen v) ++ v).
Proof. intros Hv. by apply (reads_accepts _ _ _ _ reads_prefixed). Qed.

Lemma accepts_repeated {A : Type} (item : reader E A) vs bs :
  Forall2 (accepts item) vs bs → accepts (repeated item (length vs)) vs (concat bs).
Proof.
  induction 1 as [|v b vs bs Hv _ IH]; [by apply (reads_accepts _ _ _ _ (reads_ret _))|].
  cbn. eapply accepts_bind; [exact Hv|]. by apply (accepts_last _ (cons v)).
Qed.

Lemma run_accepts {A : Type} (r : reader E A) v b : accepts r v b → zlen b < 2 ^ 64 → run_all r b = Ok v.
Proof.
  intros Hr Hl. pose proof (Hr [] []) as Ha. cbn [app] in Ha. rewrite app_nil_r in Ha.
  change (zlen (A := byte) []) with 0 in Ha. unfold run_all, rbind, cursor_finish, rret. rewrite Ha by done.
  cbn [obind]. by rewrite Z.eqb_refl.
Qed.

Lemma rsafe_take n : rsafe (E := E) (cursor_take n).
Proof. intros input cursor m. unfold cursor_take. no_panic. Qed.

Lemma rsafe_tag tag : rsafe (E := E) (cursor_expect tag).
Proof. apply rsafe_bind; [apply rsafe_take|intros; apply rsafe_guard]. Qed.

Lemma rsafe_uint w : rsafe (E := E) (cursor_uint w).
Proof. apply rsafe_bind; [apply rsafe_take|intros; apply rsafe_bind; [apply rsafe_guard|done]]. Qed.

Lemma rsafe_prefixed : rsafe (E := E) cursor_bytes.
Proof. apply rsafe_bind; [apply rsafe_uint|intros; apply rsafe_take]. Qed.

Lemma rsafe_repeated {A : Type} (item : reader E A) n : rsafe item → rsafe (repeated item n).
Proof. intros Hi. induction n as [|n IH]; [done|]. apply rsafe_bind; [done|]. intros a. by apply rsafe_bind. Qed.

Lemma run_no_panic {A : Type} (r : reader E A) input m : rsafe r → run_all r input ≠ Panic m.
Proof.
  intros Hr. unfold run_all. apply obind_no_panic; [|by intros [] _].
  apply rsafe_bind; [done|]. intros a. apply rsafe_bind; [|done]. intros i c m'. unfold cursor_finish. by destruct (negb _).
Qed.
End methods_read.

#[export] Hint Resolve rsafe_take rsafe_tag rsafe_uint rsafe_prefixed rsafe_repeated : reader.

(** Shows that a sequence of readers does not panic, leaving its own computations. *)
Ltac rsafe_steps :=
  repeat first [ assumption | apply rsafe_ret | apply rsafe_guard | apply rsafe_take | apply rsafe_tag
               | apply rsafe_uint | apply rsafe_prefixed | apply rsafe_repeated | apply rsafe_bind; [|intros ?] ].

Create HintDb reads.

(** Describes a sequence of readers, leaving the equivalence with the relation wanted. *)
Ltac reads_one :=
  first [ apply reads_ret | apply reads_guard | apply reads_lift | apply reads_hash | apply reads_tag
        | apply reads_uint | apply reads_prefixed | apply reads_take | solve [eauto with reads] ].

Ltac reads_sequence :=
  eapply reads_equiv; [|repeat (apply reads_bind; [reads_one|intros ?]); reads_one].

(** Opens the description of a sequence; rebuilds one from its parts. *)
Ltac reads_open :=
  repeat match goal with
  | H : ∃ _, _ |- _ => destruct H as [? H]
  | H : _ ∧ _ |- _ => destruct H as [? H]
  end; subst; rewrite ?app_nil_r; cbn [app].

Ltac reads_close :=
  repeat match goal with
  | |- ∃ _, _ => eexists
  | |- _ ∧ _ => split
  | |- _ = _ => first [reflexivity | rewrite app_nil_r; reflexivity]
  end.

(** One value of a description that is rebuilt, when its part is in the context. *)
Ltac reads_field v :=
  exists v; eexists; eexists; split;
  [first [split; [reflexivity|done] | split; [done|reflexivity]]|]; split; [|reflexivity].
