(* ===== verification/Crypto.v ===== *)
(** Hashes, validator identities and quorum certificates of [arbor-crypto].

    Keccak-256 and the secp256k1 operations come from libraries outside the
    repository: they are the classes [Keccak] and [Secp256k1]. No theorem
    assumes that Keccak-256 is injective; where the code relies on collision
    resistance, the theorem exhibits the two colliding preimages instead. *)

From Stdlib Require Import Strings.Byte.
From S2P Require Import Prelude Bytes BTreeMap Primitives Canonical.

Local Open Scope Z_scope.

(** ** The libraries the crate calls *)

(** [alloy_primitives::keccak256]. *)
Class Keccak := {
  keccak256 : bytes → bytes;
  keccak256_length : ∀ input, length (keccak256 input) = 32%nat;
}.

(** [k256::ecdsa]: parsing of compressed keys and fixed-size signatures, the
    high-s test ([normalize_s().is_some()]), prehash verification and signing.
    A signing key is its secret scalar. *)
Class Secp256k1 := {
  sec1_valid : bytes → bool;
  signature_parses : bytes → bool;
  high_s : bytes → bool;
  verify_prehash : bytes → bytes → bytes → bool;
  secret_valid : bytes → bool;
  compressed_key : bytes → bytes;
  sign_prehash : bytes → bytes → option bytes;
}.

(** What the signer documents: keys it derives parse, and its signatures are
    64 bytes, parse, are low-s and verify under its own key. *)
Class Secp256k1Laws `{Secp256k1} := {
  compressed_key_valid : ∀ sk, secret_valid sk = true →
    sec1_valid (compressed_key sk) = true ∧ length (compressed_key sk) = 33%nat;
  sign_prehash_verifies : ∀ sk digest sig, secret_valid sk = true →
    sign_prehash sk digest = Some sig →
    length sig = 64%nat ∧ signature_parses sig = true ∧ high_s sig = false ∧
    verify_prehash (compressed_key sk) digest sig = true;
}.

Inductive CryptoError :=
| Codec (e : CodecError)
| InvalidSecretKey
| InvalidPublicKey
| InvalidSignature
| ValidatorMismatch
| UnknownValidator
| InsufficientQuorum
| VotingPowerOverflow.

#[export] Instance CryptoError_eq_dec : EqDecision CryptoError.
Proof. solve_decision. Defined.

Definition DOMAIN_ID_TAG : bytes := bstr "ARBOR_DOMAIN_V1".
Definition VALIDATOR_ID_TAG : bytes := bstr "ARBOR_VALIDATOR_ID_V1".

(** [u128] multiplication with overflow checks. *)
Definition mul_u128 {E : Type} (a b : Z) : outcome E Z :=
  expect (checked_mul 128 a b) "attempt to multiply with overflow".

Section operations.
Context `{Keccak, Secp256k1}.

Definition keccak (input : bytes) : bytes := keccak256 input.

Definition derive_domain_id (network_id : NetworkId) (parent_domain_id : DomainId)
    (create_tx_hash : bytes) : DomainId :=
  keccak256 (DOMAIN_ID_TAG ++ [byte_of CANONICAL_CODEC_VERSION] ++ network_id ++
             parent_domain_id ++ create_tx_hash).

Definition consensus_header_hash (value : ConsensusBlockHeader) : outcome CryptoError bytes :=
  let? preimage := map_err Codec (encode_consensus_header value) in
  Ok (keccak256 preimage).

Definition domain_header_hash (value : DomainBlockHeader) : outcome CryptoError bytes :=
  let? preimage := map_err Codec (encode_domain_header value) in
  Ok (keccak256 preimage).

Definition domain_genesis_hash (value : DomainGenesis) : outcome CryptoError bytes :=
  let? preimage := map_err Codec (encode_domain_genesis value) in
  Ok (keccak256 preimage).

Definition validator_id (public_key : ConsensusPublicKey) : ValidatorId :=
  keccak256 (VALIDATOR_ID_TAG ++ [byte_of CANONICAL_CODEC_VERSION] ++ public_key).

(** One iteration of the loop of [validate_validator_set]. *)
Definition validate_validator (total : Z) (validator : Validator) : outcome CryptoError Z :=
  if negb (sec1_valid (vd_public_key validator)) then Err InvalidPublicKey
  else if negb (bool_decide (vd_id validator = validator_id (vd_public_key validator)))
  then Err ValidatorMismatch
  else ok_or (checked_add 128 total (vd_power validator)) VotingPowerOverflow.

Definition validate_validator_set (value : ValidatorSet) : outcome CryptoError unit :=
  let? total := for_each validate_validator 0 (vs_validators value) in
  if total =? 0 then Err InsufficientQuorum else Ok tt.

Definition validator_set_hash (value : ValidatorSet) : outcome CryptoError bytes :=
  run? validate_validator_set value in
  let? preimage := map_err Codec (encode_validator_set value) in
  Ok (keccak256 preimage).

Definition quorum_certificate_hash (value : QuorumCertificate) : outcome CryptoError bytes :=
  let? preimage := map_err Codec (encode_quorum_certificate value) in
  Ok (keccak256 preimage).

(** [ConsensusSigner]: the secret scalar it holds. *)
Definition from_secret_bytes (secret : bytes) : outcome CryptoError bytes :=
  if secret_valid secret then Ok secret else Err InvalidSecretKey.

Definition public_key (signer : bytes) : ConsensusPublicKey := compressed_key signer.

Definition sign_vote (signer : bytes) (vote : Vote) : outcome CryptoError ConsensusSignature :=
  if negb (bool_decide (vt_validator_id vote = validator_id (public_key signer)))
  then Err ValidatorMismatch
  else
    let? preimage := map_err Codec (encode_vote vote) in
    let digest := keccak256 preimage in
    ok_or (sign_prehash signer digest) InvalidSignature.

Definition verify_vote_signature (public_key : ConsensusPublicKey) (vote : Vote)
    (signature : ConsensusSignature) : outcome CryptoError unit :=
  if negb (bool_decide (vt_validator_id vote = validator_id public_key))
  then Err ValidatorMismatch
  else if negb (sec1_valid public_key) then Err InvalidPublicKey
  else if negb (signature_parses signature) then Err InvalidSignature
  else if high_s signature then Err InvalidSignature
  else
    let? preimage := map_err Codec (encode_vote vote) in
    let digest := keccak256 preimage in
    if verify_prehash public_key digest signature then Ok tt else Err InvalidSignature.

(** The vote a certificate claims for one of its signers. *)
Definition certificate_vote (certificate : QuorumCertificate) (signer : ValidatorId) : Vote :=
  {| vt_network_id := qc_network_id certificate;
     vt_height := qc_height certificate;
     vt_round := qc_round certificate;
     vt_phase := qc_phase certificate;
     vt_block_hash := qc_block_hash certificate;
     vt_validator_id := signer |}.

(** One iteration of the loop over the certificate's signatures. *)
Definition verify_commit (certificate : QuorumCertificate) (validators : list Validator)
    (signed_power : Z) (commit : CommitSignature) : outcome CryptoError Z :=
  match binary_search_by_key vd_id (cs_validator_id commit) validators with
  | inr _ => Err UnknownValidator
  | inl index =>
      let? validator := expect (validators !! index) "index out of bounds" in
      let vote := certificate_vote certificate (cs_validator_id commit) in
      run? verify_vote_signature (vd_public_key validator) vote (cs_signature commit) in
      ok_or (checked_add 128 signed_power (vd_power validator)) VotingPowerOverflow
  end.

Definition verify_quorum_certificate (certificate : QuorumCertificate)
    (validator_set : ValidatorSet) : outcome CryptoError unit :=
  run? validate_validator_set validator_set in
  run? map_err Codec (encode_quorum_certificate certificate) in
  let? total_power := for_each (fun total validator =>
    ok_or (checked_add 128 total (vd_power validator)) VotingPowerOverflow)
    0 (vs_validators validator_set) in
  let? signed_power :=
    for_each (verify_commit certificate (vs_validators validator_set)) 0
      (qc_signatures certificate) in
  let? signed3 := mul_u128 signed_power 3 in
  let? total2 := mul_u128 total_power 2 in
  if signed3 <=? total2 then Err InsufficientQuorum else Ok tt.

End operations.

(** ** Voting power *)

Definition total_power (vs : list Validator) : Z :=
  foldr (λ v t, vd_power v + t) 0 vs.

(** The power of the validators whose identifier is among [ids]. *)
Definition power_of (ids : list ValidatorId) (vs : list Validator) : Z :=
  total_power (filter (λ v, vd_id v ∈ ids) vs).

Definition signers (q : QuorumCertificate) : list ValidatorId :=
  map cs_validator_id (qc_signatures q).

Lemma wf_power_nonneg vs : Forall wf_validator vs → Forall (λ v, 0 ≤ vd_power v) vs.
Proof. intros Hvs. eapply list.Forall_impl; [exact Hvs|]. by intros v (_ & _ & Hp & _). Qed.

Lemma total_power_nonneg vs : Forall (λ v, 0 ≤ vd_power v) vs → 0 ≤ total_power vs.
Proof. induction 1; simpl; lia. Qed.

Lemma total_power_bound vs : Forall wf_validator vs → total_power vs ≤ zlen vs * 2 ^ 64.
Proof.
  induction 1 as [|v vs (_ & _ & Hp) _ IH]; [done|]. simpl total_power. rewrite zlen_cons.
  unfold fits in Hp. lia.
Qed.

Lemma total_power_perm vs vs' : vs ≡ₚ vs' → total_power vs = total_power vs'.
Proof. induction 1; simpl; lia. Qed.

Lemma total_power_submseteq vs vs' :
  Forall (λ v, 0 ≤ vd_power v) vs' → vs ⊆+ vs' → total_power vs ≤ total_power vs'.
Proof.
  intros Hpos [k Hk]%submseteq_Permutation. rewrite (total_power_perm _ _ Hk).
  rewrite Hk in Hpos. apply Forall_app in Hpos as [_ Hpos].
  pose proof (total_power_nonneg k Hpos). clear Hk. induction vs; simpl; lia.
Qed.

(** Powers of two signer sets overlap by at least their excess over the total. *)
Lemma power_of_overlap ids1 ids2 vs :
  Forall (λ v, 0 ≤ vd_power v) vs →
  power_of ids1 vs + power_of ids2 vs ≤
    total_power vs + power_of (filter (λ i, i ∈ ids2) ids1) vs.
Proof.
  unfold power_of. induction 1 as [|v vs Hv _ IH]; [done|].
  rewrite !filter_cons. simpl total_power.
  destruct (decide (vd_id v ∈ ids1)) as [H1|H1], (decide (vd_id v ∈ ids2)) as [H2|H2];
    destruct (decide (vd_id v ∈ filter (λ i, i ∈ ids2) ids1)) as [H3|H3];
    rewrite list_elem_of_filter in H3; simpl total_power; try lia; tauto.
Qed.

Lemma power_of_mono_on ids ids' vs :
  Forall (λ v, 0 ≤ vd_power v) vs → (∀ v, v ∈ vs → vd_id v ∈ ids → vd_id v ∈ ids') →
  power_of ids vs ≤ power_of ids' vs.
Proof.
  intros Hpos Hsub. unfold power_of. induction Hpos as [|v vs Hv _ IH]; [done|].
  rewrite !filter_cons.
  assert (∀ v, v ∈ vs → vd_id v ∈ ids → vd_id v ∈ ids') as Hsub'
    by (intros ??; apply Hsub; by right).
  specialize (IH Hsub').
  destruct (decide (vd_id v ∈ ids)) as [H1|H1], (decide (vd_id v ∈ ids')) as [H2|H2];
    simpl; try lia. by apply Hsub in H1; [|left].
Qed.

Lemma power_sum_Ok vs t0 (E : CryptoError) r :
  Forall (λ v, 0 ≤ vd_power v) vs → 0 ≤ t0 →
  for_each (λ t v, ok_or (checked_add 128 t (vd_power v)) E) t0 vs = Ok r ↔
    (vs = [] ∨ t0 + total_power vs < 2 ^ 128) ∧ r = t0 + total_power vs.
Proof.
  intros Hpos. revert t0. induction Hpos as [|v vs Hv Hvs IH]; intros t0 Ht0.
  - simpl. rewrite Z.add_0_r. naive_solver.
  - pose proof (total_power_nonneg vs Hvs). cbn [for_each]. split.
    + intros Hr. ok_inv. apply checked_add_Some in Hok as [-> Hlt].
      apply IH in Hr as [Hb ->]; [|lia]. simpl. split; [|lia]. right.
      destruct Hb as [->|Hb]; simpl; lia.
    + intros [[?|Hb] ->]; [done|]. simpl total_power in *.
      rewrite (proj2 (checked_add_Some 128 t0 (vd_power v) (t0 + vd_power v))) by lia.
      cbn [ok_or obind]. apply IH; [lia|]. split; [|lia]. right. lia.
Qed.

(** ** Validator sets and quorum certificates *)

Lemma mul_u128_Ok {E : Type} a b : a * b < 2 ^ 128 → mul_u128 (E:=E) a b = Ok (a * b).
Proof. intros Hab. unfold mul_u128. by rewrite (proj2 (checked_mul_Some 128 a b (a * b))). Qed.

Section certificates.
Context `{Keccak, Secp256k1}.

(** A validator whose key parses and whose identifier is derived from it. *)
Definition validator_valid (v : Validator) : Prop :=
  sec1_valid (vd_public_key v) = true ∧ vd_id v = validator_id (vd_public_key v).

(** A commit by a member of the set: the signature verifies over the
    certificate's own vote. *)
Definition commit_valid (q : QuorumCertificate) (vs : list Validator) (c : CommitSignature)
    : Prop :=
  ∃ v, v ∈ vs ∧ vd_id v = cs_validator_id c ∧
    verify_vote_signature (vd_public_key v) (certificate_vote q (cs_validator_id c))
      (cs_signature c) = Ok tt.

Lemma validate_loop_Ok vs t0 r :
  Forall (λ v, 0 ≤ vd_power v) vs → 0 ≤ t0 →
  for_each validate_validator t0 vs = Ok r ↔
    Forall validator_valid vs ∧ (vs = [] ∨ t0 + total_power vs < 2 ^ 128) ∧
    r = t0 + total_power vs.
Proof.
  intros Hpos. revert t0. induction Hpos as [|v vs Hv Hvs IH]; intros t0 Ht0.
  - simpl. rewrite Z.add_0_r. split; [intros [= ->]; auto|naive_solver].
  - pose proof (total_power_nonneg vs Hvs). cbn [for_each]. unfold validate_validator at 1. split.
    + intros Hr. ok_inv. bool_prop. apply checked_add_Some in Hok as [-> Hlt].
      apply IH in Hr as (Hall & Hb & ->); [|lia]. simpl. split; [by constructor|]. split; [|lia].
      right. destruct Hb as [->|Hb]; simpl; lia.
    + intros (Hall & [?|Hb] & ->); [done|]. inversion Hall as [|? ? [Hk Hid] Hall']; subst.
      rewrite Hk, bool_decide_true by done. cbn [negb]. simpl total_power in *.
      rewrite (proj2 (checked_add_Some 128 t0 (vd_power v) (t0 + vd_power v))) by lia.
      cbn [ok_or obind]. apply IH; [lia|]. split; [done|]. split; [|lia]. right. lia.
Qed.

Lemma validate_validator_set_Ok s :
  wf_validator_set s →
  validate_validator_set s = Ok tt ↔
    Forall validator_valid (vs_validators s) ∧ 0 < total_power (vs_validators s) < 2 ^ 128.
Proof.
  intros [_ Hwf]. apply wf_power_nonneg in Hwf. pose proof (total_power_nonneg _ Hwf).
  unfold validate_validator_set. split.
  - intros Hr. ok_inv. bool_prop. apply validate_loop_Ok in Hok as (Hall & Hb & ->); [|done..].
    destruct Hb as [E|Hb]; [rewrite E in *; done|]. split; [done|]. lia.
  - intros [Hall Hb].
    rewrite (proj2 (validate_loop_Ok _ 0 _ Hwf ltac:(lia)) (conj Hall (conj (or_intror (proj2 Hb)) eq_refl))).
    cbn [obind]. by guards.
Qed.

Lemma verify_commit_Ok q vs s c r :
  verify_commit q vs s c = Ok r →
  ∃ v, v ∈ vs ∧ vd_id v = cs_validator_id c ∧
    verify_vote_signature (vd_public_key v) (certificate_vote q (cs_validator_id c))
      (cs_signature c) = Ok tt ∧ r = s + vd_power v.
Proof.
  unfold verify_commit. destruct (binary_search_by_key _ _ _) as [i|i] eqn:Hi; [|done].
  intros Hr. ok_inv. destruct (binary_search_by_key_inl _ _ _ _ Hi) as (v & Hv & Hid).
  assert (a = v) as -> by congruence. exists v. apply checked_add_Some in Hr as [-> _]. destruct a0.
  split; [by eapply list_elem_of_lookup_2|]. done.
Qed.

Lemma verify_commits_Ok q vs cs s r :
  for_each (verify_commit q vs) s cs = Ok r →
  ∃ signed, Forall2 (λ c v, v ∈ vs ∧ vd_id v = cs_validator_id c ∧
      verify_vote_signature (vd_public_key v) (certificate_vote q (cs_validator_id c))
        (cs_signature c) = Ok tt) cs signed ∧ r = s + total_power signed.
Proof.
  revert s. induction cs as [|c cs IH]; intros s Hr; cbn [for_each] in Hr; ok_inv.
  - exists []. simpl. split; [constructor|lia].
  - apply verify_commit_Ok in Hok as (v & Hv & Hid & Hsig & ->).
    apply IH in Hr as (signed & Hall & ->). exists (v :: signed).
    split; [by constructor|]. simpl. lia.
Qed.

(** Distinct signers are distinct members, so the power the loop adds up is at
    most the power of the members with those identifiers. *)
Lemma signed_power_bound (P : CommitSignature → Validator → Prop) cs signed vs :
  Forall (λ v, 0 ≤ vd_power v) vs → NoDup (map cs_validator_id cs) →
  Forall2 (λ c v, v ∈ vs ∧ vd_id v = cs_validator_id c ∧ P c v) cs signed →
  total_power signed ≤ power_of (map cs_validator_id cs) vs.
Proof.
  intros Hpos Hnd Hall. apply total_power_submseteq.
  - apply list.Forall_forall. intros v [_ Hv]%list_elem_of_filter.
    rewrite list.Forall_forall in Hpos. auto.
  - assert (map vd_id signed = map cs_validator_id cs) as Hids.
    { clear -Hall. induction Hall as [|c v cs signed (_ & Hid & _) _ IH]; simpl; congruence. }
    apply NoDup_submseteq.
    + apply (NoDup_fmap_1 vd_id). change (NoDup (map vd_id signed)). by rewrite Hids.
    + intros v Hv. apply list_elem_of_filter. rewrite <-Hids.
      split; [by apply list_elem_of_fmap_2|].
      destruct (proj1 (list_elem_of_lookup _ _) Hv) as [i Hi].
      destruct (Forall2_lookup_r _ _ _ _ _ Hall Hi) as (c & _ & Hvs & _). done.
Qed.

Lemma verify_quorum_certificate_inv q s :
  wf_validator_set s → verify_quorum_certificate q s = Ok tt →
  validate_validator_set s = Ok tt ∧ (∃ b, encode_quorum_certificate q = Ok b) ∧
  Forall (commit_valid q (vs_validators s)) (qc_signatures q) ∧
  2 * total_power (vs_validators s) < 3 * power_of (signers q) (vs_validators s).
Proof.
  intros [Hep Hwf] Hv. pose proof (wf_power_nonneg _ Hwf) as Hpos.
  unfold verify_quorum_certificate, mul_u128 in Hv. ok_inv. bool_prop. destruct a.
  apply power_sum_Ok in Hok1 as [_ ->]; [|done..].
  apply verify_commits_Ok in Hok2 as (signed & Hall & ->).
  apply checked_mul_Some in Hok3 as [-> _], Hok4 as [-> _].
  pose proof Hok0 as (Hq & _)%encode_quorum_certificate_Ok.
  assert (NoDup (signers q)) as Hnd by apply StronglySorted_NoDup, Hq.
  pose proof (signed_power_bound _ _ _ _ Hpos Hnd Hall). split; [done|]. split; [eauto|].
  split; [|unfold signers in *; lia].
  apply list.Forall_forall. intros c [i Hi]%list_elem_of_lookup.
  destruct (Forall2_lookup_l _ _ _ _ _ Hall Hi) as (v & _ & Hx). by exists v.
Qed.

Definition commit_by (q : QuorumCertificate) (vs : list Validator) (c : CommitSignature)
    (v : Validator) : Prop :=
  v ∈ vs ∧ vd_id v = cs_validator_id c ∧
  verify_vote_signature (vd_public_key v) (certificate_vote q (cs_validator_id c))
    (cs_signature c) = Ok tt.

Lemma commits_by q vs cs :
  Forall (commit_valid q vs) cs → ∃ signed, Forall2 (commit_by q vs) cs signed.
Proof.
  induction 1 as [|c cs (v & Hv) _ [signed IH]]; [by exists []|].
  exists (v :: signed). by constructor.
Qed.

(** In a set with distinct identifiers the loop adds up exactly the power of
    the signers. *)
Lemma signed_power_exact q vs cs signed :
  NoDup (map vd_id vs) → NoDup (map cs_validator_id cs) → Forall2 (commit_by q vs) cs signed →
  total_power signed = power_of (map cs_validator_id cs) vs.
Proof.
  intros Hvs Hcs Hall. apply total_power_perm.
  assert (map vd_id signed = map cs_validator_id cs) as Hids.
  { clear -Hall. induction Hall as [|c v cs signed (_ & Hid & _) _ IH]; simpl; congruence. }
  apply NoDup_Permutation.
  - apply (NoDup_fmap_1 vd_id). change (NoDup (map vd_id signed)). by rewrite Hids.
  - apply list.NoDup_filter. by apply (NoDup_fmap_1 vd_id).
  - assert (∀ v, v ∈ signed → v ∈ vs) as Hsub.
    { intros v [i Hi]%list_elem_of_lookup.
      by destruct (Forall2_lookup_r _ _ _ _ _ Hall Hi) as (c & _ & Hv & _). }
    intros v. rewrite list_elem_of_filter, <-Hids. split.
    + intros Hv. split; [by apply (list_elem_of_fmap_2 vd_id)|auto].
    + intros [(w & Hid & Hw)%(list_elem_of_fmap vd_id) Hv].
      assert (w = v) as <-; [|done].
      apply list_elem_of_lookup in Hv as [i Hi].
      apply Hsub in Hw as [j Hj]%list_elem_of_lookup.
      assert (i = j) as ->; [|congruence].
      apply (NoDup_lookup (map vd_id vs) i j (vd_id v)); [done| |];
        rewrite list_lookup_fmap, ?Hi, ?Hj; simpl; congruence.
Qed.

Lemma verify_commits_complete q vs cs signed s :
  StronglySorted tlt (map vd_id vs) → Forall (λ v, 0 ≤ vd_power v) vs → 0 ≤ s →
  Forall2 (commit_by q vs) cs signed → s + total_power signed < 2 ^ 128 →
  for_each (verify_commit q vs) s cs = Ok (s + total_power signed).
Proof.
  intros Hsort Hpos Hs Hall. revert s Hs.
  induction Hall as [|c v cs signed (Hv & Hid & Hsig) Hall IH]; intros s Hs Hb; simpl in *.
  - by rewrite Z.add_0_r.
  - unfold verify_commit at 1. rewrite <-Hid.
    destruct (binary_search_by_key_complete vd_id v vs Hsort Hv) as (i & -> & Hi).
    rewrite Hi. cbn [expect obind]. rewrite Hid, Hsig. cbn [obind].
    assert (0 ≤ vd_power v) by (rewrite list.Forall_forall in Hpos; auto).
    assert (0 ≤ total_power signed).
    { apply total_power_nonneg. apply list.Forall_forall. intros w [j Hj]%list_elem_of_lookup.
      destruct (Forall2_lookup_r _ _ _ _ _ Hall Hj) as (c' & _ & Hw & _).
      rewrite list.Forall_forall in Hpos. auto. }
    rewrite (proj2 (checked_add_Some 128 s (vd_power v) (s + vd_power v))) by lia.
    cbn [ok_or obind]. rewrite IH by lia. f_equal. lia.
Qed.

Lemma signed_small q vs cs signed :
  Forall wf_validator vs → Forall2 (commit_by q vs) cs signed → zlen cs ≤ MAX_ACTIVE_VALIDATORS →
  0 ≤ total_power signed ≤ 100 * 2 ^ 64.
Proof.
  intros Hwf Hall Hlen.
  assert (Forall wf_validator signed) as Hws.
  { apply list.Forall_forall. intros w [j Hj]%list_elem_of_lookup.
    destruct (Forall2_lookup_r _ _ _ _ _ Hall Hj) as (c' & _ & Hw & _).
    rewrite list.Forall_forall in Hwf. auto. }
  pose proof (total_power_nonneg _ (wf_power_nonneg _ Hws)).
  pose proof (total_power_bound _ Hws). unfold zlen, MAX_ACTIVE_VALIDATORS in *.
  rewrite <-(Forall2_length Hall) in *. lia.
Qed.

Lemma validate_no_panic s m : validate_validator_set s ≠ Panic m.
Proof.
  unfold validate_validator_set. no_panic. apply for_each_no_panic. intros.
  unfold validate_validator. no_panic.
Qed.

Lemma map_err_no_panic {E F A : Type} (f : E → F) (c : outcome E A) m :
  c ≠ Panic m → map_err f c ≠ Panic m.
Proof. destruct c; simpl; congruence. Qed.

Lemma verify_vote_signature_no_panic pk v sig m : verify_vote_signature pk v sig ≠ Panic m.
Proof.
  unfold verify_vote_signature. no_panic. apply map_err_no_panic.
  apply (canonical_encode_no_panic vote_codec).
Qed.

Lemma verify_commit_no_panic q vs s c m : verify_commit q vs s c ≠ Panic m.
Proof.
  unfold verify_commit. destruct (binary_search_by_key _ _ _) as [i|i] eqn:Hi; [|done].
  destruct (binary_search_by_key_inl _ _ _ _ Hi) as (v & -> & Hid). cbn [expect obind].
  apply obind_no_panic; [apply verify_vote_signature_no_panic|]. no_panic.
Qed.

(** A quorum certificate verifies against a sorted validator set exactly
    when the set is valid, the certificate is canonical, every commit is a valid
    signature of a member over the certificate's vote, and the signers hold
    strictly more than two thirds of the voting power. *)
Theorem verify_quorum_certificate_iff q s :
  wf_validator_set s → StronglySorted tlt (map vd_id (vs_validators s)) →
  zlen (vs_validators s) < 2 ^ 63 →
  verify_quorum_certificate q s = Ok tt ↔
    validate_validator_set s = Ok tt ∧ (∃ b, encode_quorum_certificate q = Ok b) ∧
    Forall (commit_valid q (vs_validators s)) (qc_signatures q) ∧
    2 * total_power (vs_validators s) < 3 * power_of (signers q) (vs_validators s).
Proof.
  intros Hwf Hsort Hlen. split; [by apply verify_quorum_certificate_inv|].
  intros (Hval & [b Hq] & Hall & Hquorum). pose proof Hwf as [_ Hws].
  pose proof (wf_power_nonneg _ Hws) as Hpos. pose proof (total_power_nonneg _ Hpos).
  pose proof (total_power_bound _ Hws).
  destruct (commits_by _ _ _ Hall) as [signed Hsigned].
  pose proof Hq as ((_ & Hmax & _ & Hss) & _)%encode_quorum_certificate_Ok.
  pose proof (signed_small _ _ _ _ Hws Hsigned Hmax).
  unfold verify_quorum_certificate. rewrite Hval, Hq. cbn [obind map_err].
  rewrite (proj2 (power_sum_Ok _ 0 VotingPowerOverflow (0 + total_power (vs_validators s)) Hpos
    ltac:(lia))) by (split; [right; lia|done]). cbn [obind].
  rewrite (verify_commits_complete q _ _ signed 0) by (done || lia). cbn [obind].
  rewrite !mul_u128_Ok by lia. cbn [obind].
  rewrite (signed_power_exact q _ _ _ (StronglySorted_NoDup _ Hsort) (StronglySorted_NoDup _ Hss)
    Hsigned). unfold signers in Hquorum. by guards.
Qed.

(** C1. Quorum intersection: two certificates that verify against the same
    validator set share a signer outside any coalition of at most one third of
    the voting power. *)
Theorem quorum_intersection q1 q2 s faulty :
  wf_validator_set s →
  verify_quorum_certificate q1 s = Ok tt → verify_quorum_certificate q2 s = Ok tt →
  3 * power_of faulty (vs_validators s) ≤ total_power (vs_validators s) →
  ∃ v, v ∈ vs_validators s ∧ vd_id v ∈ signers q1 ∧ vd_id v ∈ signers q2 ∧ vd_id v ∉ faulty.
Proof.
  intros Hwf H1 H2 Hf. pose proof (wf_power_nonneg _ (proj2 Hwf)) as Hpos.
  apply verify_quorum_certificate_inv in H1 as (_ & _ & _ & H1); [|done].
  apply verify_quorum_certificate_inv in H2 as (_ & _ & _ & H2); [|done].
  pose proof (power_of_overlap (signers q1) (signers q2) _ Hpos) as Hov.
  set (both := filter _ _) in Hov.
  destruct (decide (Exists (λ v, vd_id v ∈ both ∧ vd_id v ∉ faulty) (vs_validators s)))
    as [He|Hn].
  - apply list.Exists_exists in He as (v & Hv & [Hid1 Hid2]%list_elem_of_filter & Hnf). by exists v.
  - exfalso. assert (power_of both (vs_validators s) ≤ power_of faulty (vs_validators s)); [|lia].
    apply power_of_mono_on; [done|]. intros v Hv Hb.
    destruct (decide (vd_id v ∈ faulty)); [done|]. exfalso. apply Hn, list.Exists_exists. eauto.
Qed.

(** Certificate verification never panics: power sums and the two-thirds
    comparison stay within 128 bits. *)
Theorem verify_quorum_certificate_no_panic q s m :
  wf_validator_set s → zlen (vs_validators s) < 2 ^ 63 →
  verify_quorum_certificate q s ≠ Panic m.
Proof.
  intros Hwf Hlen. pose proof (wf_power_nonneg _ (proj2 Hwf)) as Hpos.
  pose proof (total_power_bound _ (proj2 Hwf)).
  unfold verify_quorum_certificate. apply obind_no_panic; [apply validate_no_panic|intros _ _].
  apply obind_no_panic.
  { pose proof (canonical_encode_no_panic quorum_certificate_codec q) as Hq.
    by destruct (encode_quorum_certificate q); [..|exfalso; eapply Hq]. }
  intros b Hq. apply map_err_Ok in Hq.
  pose proof Hq as ((_ & Hmax & _ & Hss) & _)%encode_quorum_certificate_Ok.
  apply obind_no_panic; [apply for_each_no_panic; no_panic|].
  intros total [_ ->]%power_sum_Ok; [|done..].
  apply obind_no_panic; [apply for_each_no_panic; intros; apply verify_commit_no_panic|].
  intros signed' (signed & Hall & ->)%verify_commits_Ok.
  pose proof (signed_small _ _ _ _ (proj2 Hwf) Hall Hmax).
  rewrite !mul_u128_Ok by lia. cbn [obind]. no_panic.
Qed.

End certificates.

(** ** Signing, hashing and domain separation *)

(** A vote signed by a signer verifies under that signer's public key, and
    only by a signer whose derived identifier the vote names. *)
Theorem sign_vote_verifies `{Keccak, Secp256k1, !Secp256k1Laws} secret signer vote sig :
  from_secret_bytes secret = Ok signer → sign_vote signer vote = Ok sig →
  verify_vote_signature (public_key signer) vote sig = Ok tt ∧
  vt_validator_id vote = validator_id (public_key signer) ∧ is_signature sig.
Proof.
  unfold from_secret_bytes, sign_vote, verify_vote_signature, public_key.
  intros Hs Hv. ok_inv. bool_prop. subst secret. simpl.
  destruct (compressed_key_valid signer Hif0) as [-> _]. simpl. rewrite Hok. cbn [map_err obind].
  by destruct (sign_prehash_verifies _ _ _ Hif0 Hv) as (? & -> & -> & ->).
Qed.

(** Two values of one type under the same hash: either equal, or their
    canonical encodings are a Keccak-256 collision. *)
Definition binding `{Keccak} {A : Type} (wf : A → Prop) (encode : A → outcome CodecError bytes)
    (hash : A → outcome CryptoError bytes) : Prop :=
  ∀ v w h, wf v → wf w → hash v = Ok h → hash w = Ok h →
    v = w ∨ ∃ p q, encode v = Ok p ∧ encode w = Ok q ∧ p ≠ q ∧ keccak256 p = keccak256 q.

Lemma canonical_binding `{Keccak} {A : Type} (wf : A → Prop) encode decode
    (hash : A → outcome CryptoError bytes) :
  canonical wf encode decode →
  (∀ v h, hash v = Ok h → ∃ p, encode v = Ok p ∧ h = keccak256 p) →
  binding wf encode hash.
Proof.
  intros Hcan Hhash v w h Hv Hw (p & Hp & ->)%Hhash (q & Hq & E)%Hhash.
  destruct (decide (p = q)) as [->|Hne].
  - left. by eapply (canonical_encode_inj Hcan).
  - right. eauto 10.
Qed.

(** The hashes of consensus headers, domain headers, genesis records,
    validator sets and certificates bind their values: two different values
    with the same hash yield an explicit Keccak-256 collision. *)
Theorem hashes_bind `{Keccak, Secp256k1} :
  binding wf_consensus_header encode_consensus_header consensus_header_hash ∧
  binding wf_domain_header encode_domain_header domain_header_hash ∧
  binding wf_domain_genesis encode_domain_genesis domain_genesis_hash ∧
  binding wf_validator_set encode_validator_set validator_set_hash ∧
  binding wf_quorum_certificate encode_quorum_certificate quorum_certificate_hash.
Proof.
  split_and!.
  - eapply canonical_binding; [exact consensus_header_codec|].
    unfold consensus_header_hash. intros v h Hh. ok_inv. eauto.
  - eapply canonical_binding; [exact domain_header_codec|].
    unfold domain_header_hash. intros v h Hh. ok_inv. eauto.
  - eapply canonical_binding; [exact domain_genesis_codec|].
    unfold domain_genesis_hash. intros v h Hh. ok_inv. eauto.
  - eapply canonical_binding; [exact validator_set_codec|].
    unfold validator_set_hash. intros v h Hh. ok_inv. eauto.
  - eapply canonical_binding; [exact quorum_certificate_codec|].
    unfold quorum_certificate_hash. intros v h Hh. ok_inv. eauto.
Qed.

(** The tags that start a hashed or signed preimage. *)
Definition preimage_tags : list bytes :=
  [CONSENSUS_HEADER_TAG; DOMAIN_HEADER_TAG; DOMAIN_BATCH_TAG; DOMAIN_DESCRIPTOR_TAG;
   DOMAIN_GENESIS_TAG; VALIDATOR_SET_TAG; VOTE_TAG; QC_TAG; DOMAIN_ID_TAG; VALIDATOR_ID_TAG].

(** No versioned tag starts another one's preimages. *)
Definition separatedb (tags : list bytes) : bool :=
  forallb (λ t, forallb (λ u, bool_decide (t = u) ||
    negb (starts_with (t ++ [byte_of CANONICAL_CODEC_VERSION])
            (u ++ [byte_of CANONICAL_CODEC_VERSION]))) tags) tags.

Lemma prefix_total (p q b c : bytes) :
  p ++ b = q ++ c → starts_with p q = true ∨ starts_with q p = true.
Proof.
  revert q. induction p as [|x p IH]; intros [|y q] E; simpl in *; auto.
  injection E as -> E. rewrite Byte.byte_dec_lb by done. simpl. eauto.
Qed.

Lemma tagged_body_inj t u b c :
  t ∈ preimage_tags → u ∈ preimage_tags → tagged_body t b = tagged_body u c → t = u ∧ b = c.
Proof.
  intros Ht Hu E. assert (separatedb preimage_tags = true) as Hsep by (vm_compute; done).
  assert (∀ t u, t ∈ preimage_tags → u ∈ preimage_tags → starts_with
    (t ++ [byte_of CANONICAL_CODEC_VERSION]) (u ++ [byte_of CANONICAL_CODEC_VERSION]) = true →
    t = u) as Hpre.
  { intros t' u' Ht' Hu' Hs. unfold separatedb in Hsep. rewrite forallb_forall in Hsep.
    specialize (Hsep t' (proj1 (list_elem_of_In _ _) Ht')). rewrite forallb_forall in Hsep.
    specialize (Hsep u' (proj1 (list_elem_of_In _ _) Hu')). rewrite Hs, orb_false_r in Hsep.
    by bool_prop. }
  assert (t = u) as ->.
  { unfold tagged_body in E. rewrite !(cons_middle (byte_of _) _ _), !app_assoc in E.
    destruct (prefix_total _ _ _ _ E) as [Hs|Hs]; [|symmetry]; auto. }
  split; [done|]. unfold tagged_body in E. apply app_inv_head in E. by injection E.
Qed.

(** Domain separation: the preimage a validator signs as a vote is never
    the encoding of another protocol object, nor the preimage of a domain or
    validator identifier. *)
Theorem vote_preimage_separated v b :
  encode_vote v = Ok b →
  (∀ h, encode_consensus_header h ≠ Ok b) ∧ (∀ h, encode_domain_header h ≠ Ok b) ∧
  (∀ t, encode_domain_batch t ≠ Ok b) ∧ (∀ d, encode_domain_descriptor d ≠ Ok b) ∧
  (∀ g, encode_domain_genesis g ≠ Ok b) ∧ (∀ s, encode_validator_set s ≠ Ok b) ∧
  (∀ q, encode_quorum_certificate q ≠ Ok b) ∧
  (∀ n p c, DOMAIN_ID_TAG ++ [byte_of CANONICAL_CODEC_VERSION] ++ n ++ p ++ c ≠ b) ∧
  (∀ k, VALIDATOR_ID_TAG ++ [byte_of CANONICAL_CODEC_VERSION] ++ k ≠ b).
Proof.
  intros (_ & -> & _)%encode_vote_Ok.
  assert (∀ t c, bool_decide (t ∈ preimage_tags ∧ t ≠ VOTE_TAG) = true →
    tagged_body t c ≠ tagged_body VOTE_TAG (vote_body v)) as Hsep.
  { intros t c [Ht Hne]%bool_decide_eq_true E.
    apply Hne, (tagged_body_inj t VOTE_TAG c (vote_body v)); [done| |done].
    by apply (bool_decide_eq_true_1 (VOTE_TAG ∈ preimage_tags)). }
  split_and!; intros.
  - intros (_ & E & _)%encode_consensus_header_Ok. by apply symmetry, Hsep in E.
  - intros (_ & E & _)%encode_domain_header_Ok. by apply symmetry, Hsep in E.
  - intros (_ & E & _)%encode_domain_batch_Ok. by apply symmetry, Hsep in E.
  - intros (_ & E & _)%encode_domain_descriptor_Ok. by apply symmetry, Hsep in E.
  - intros (_ & E & _)%encode_domain_genesis_Ok. by apply symmetry, Hsep in E.
  - intros (_ & E & _)%encode_validator_set_Ok. by apply symmetry, Hsep in E.
  - intros (_ & E & _)%encode_quorum_certificate_Ok. by apply symmetry, Hsep in E.
  - by apply Hsep.
  - by apply Hsep.
Qed.

(** ** A concrete backend *)

(** A small hash and signature scheme that satisfy the classes' laws; the
    witnesses evaluate the model with them. *)
Module Toy.

(** The last 32 bytes of the input, last byte first. *)
Definition hash (input : bytes) : bytes := take 32 (rev_append input (repeat x00 32)).

Lemma hash_length input : length (hash input) = 32%nat.
Proof.
  unfold hash. rewrite rev_append_rev, length_take, length_app, repeat_length. lia.
Qed.

Definition toy_keccak : Keccak := {| keccak256 := hash; keccak256_length := hash_length |}.

Definition toy_secp : Secp256k1 := {|
  sec1_valid := λ k, zlen k =? 33;
  signature_parses := λ s, zlen s =? 64;
  high_s := λ _, false;
  verify_prehash := λ k digest s, bool_decide (s = digest ++ drop 1 k);
  secret_valid := λ sk, zlen sk =? 32;
  compressed_key := λ sk, byte_of 2 :: sk;
  sign_prehash := λ sk digest, if zlen digest =? 32 then Some (digest ++ sk) else None;
|}.

Lemma toy_laws : @Secp256k1Laws toy_secp.
Proof.
  split; cbn [sec1_valid signature_parses high_s verify_prehash secret_valid compressed_key
    sign_prehash toy_secp]; intros; bool_prop.
  - split; [apply Z.eqb_eq; rewrite zlen_cons; lia|]. simpl. unfold zlen in *. lia.
  - destruct (Z.eqb_spec (zlen digest) 32); simplify_eq.
    split; [unfold zlen in *; rewrite length_app; lia|].
    split; [apply Z.eqb_eq; rewrite zlen_app; lia|]. split; [done|].
    by apply bool_decide_eq_true.
Qed.

End Toy.

(** ** Witnesses *)

Module CryptoWitness.

Definition secret (i : Z) : bytes := repeat_byte 32 i.

Definition member (i : Z) : Validator :=
  {| vd_id := @validator_id Toy.toy_keccak (@public_key Toy.toy_secp (secret i));
     vd_public_key := @public_key Toy.toy_secp (secret i);
     vd_power := 10 |}.

Definition set4 : ValidatorSet :=
  {| vs_epoch := 3; vs_validators := [member 1; member 2; member 3; member 4] |}.

Definition vote_of (phase : Z) (i : Z) : Vote :=
  {| vt_network_id := repeat_byte 32 9; vt_height := 5; vt_round := 0; vt_phase := phase;
     vt_block_hash := repeat_byte 32 8; vt_validator_id := vd_id (member i) |}.

Definition commit_of (i : Z) : CommitSignature :=
  {| cs_validator_id := vd_id (member i);
     cs_signature :=
       match @sign_vote Toy.toy_keccak Toy.toy_secp (secret i) (vote_of 2 i) with
       | Ok s => s
       | _ => []
       end |}.

Definition cert (ids : list Z) : QuorumCertificate :=
  {| qc_network_id := repeat_byte 32 9; qc_height := 5; qc_round := 0; qc_phase := 2;
     qc_block_hash := repeat_byte 32 8; qc_signatures := map commit_of ids |}.

End CryptoWitness.

Import CryptoWitness.

Lemma verify_quorum_certificate_iff_witness :
  @verify_quorum_certificate Toy.toy_keccak Toy.toy_secp (cert [1; 2; 3]) set4 = Ok tt ↔
    @validate_validator_set Toy.toy_keccak Toy.toy_secp set4 = Ok tt ∧
    (∃ b, encode_quorum_certificate (cert [1; 2; 3]) = Ok b) ∧
    Forall (@commit_valid Toy.toy_keccak Toy.toy_secp (cert [1; 2; 3]) (vs_validators set4))
      (qc_signatures (cert [1; 2; 3])) ∧
    2 * total_power (vs_validators set4) <
      3 * power_of (signers (cert [1; 2; 3])) (vs_validators set4).
Proof.
  apply (@verify_quorum_certificate_iff Toy.toy_keccak Toy.toy_secp).
  - by_evaluation.
  - apply strict_StronglySorted. by_evaluation.
  - by_evaluation.
Defined.

Lemma quorum_intersection_witness :
  ∃ v, v ∈ vs_validators set4 ∧ vd_id v ∈ signers (cert [1; 2; 3]) ∧
    vd_id v ∈ signers (cert [2; 3; 4]) ∧ vd_id v ∉ [vd_id (member 3)].
Proof.
  apply (@quorum_intersection Toy.toy_keccak Toy.toy_secp (cert [1; 2; 3]) (cert [2; 3; 4])
    set4 [vd_id (member 3)]); by_evaluation.
Defined.

Lemma verify_quorum_certificate_no_panic_witness :
  @verify_quorum_certificate Toy.toy_keccak Toy.toy_secp (cert [1; 2]) set4 ≠ Panic "overflow".
Proof. apply verify_quorum_certificate_no_panic; by_evaluation. Defined.

Lemma sign_vote_verifies_witness :
  @verify_vote_signature Toy.toy_keccak Toy.toy_secp (@public_key Toy.toy_secp (secret 1))
    (vote_of 2 1) (cs_signature (commit_of 1)) = Ok tt ∧
  vt_validator_id (vote_of 2 1) =
    @validator_id Toy.toy_keccak (@public_key Toy.toy_secp (secret 1)) ∧
  is_signature (cs_signature (commit_of 1)).
Proof.
  apply (@sign_vote_verifies Toy.toy_keccak Toy.toy_secp Toy.toy_laws (secret 1)); by_evaluation.
Defined.

Lemma vote_preimage_separated_witness :
  encode_vote (vote_of 2 1) = Ok (tagged_body VOTE_TAG (vote_body (vote_of 2 1))) ∧
  ¬ ∃ h, encode_consensus_header h = Ok (tagged_body VOTE_TAG (vote_body (vote_of 2 1))).
Proof.
  assert (encode_vote (vote_of 2 1) = Ok (tagged_body VOTE_TAG (vote_body (vote_of 2 1)))) as E
    by by_evaluation.
  split; [exact E|]. intros [h Hh].
  destruct (vote_preimage_separated (vote_of 2 1) _ E) as [Hsep _]. exact (Hsep h Hh).
Defined.
