(* ===== verification/System.v ===== *)
(** The native system contracts: the [ChainRegistry] ABI, the deterministic
    preparation of a chain creation and the registry's storage layout
    (src/crates/arbor-system/src/lib.rs).

    Main results: [createChain] calldata round trips through the encoder up to
    the normalization of the display metadata, which is idempotent; a prepared
    creation names the domain it derives and carries the hashes of its own
    genesis and descriptor; storage slots of different purposes or keys are
    distinct up to a hash collision. *)

From Stdlib Require Import Strings.Byte.
From S2P Require Import Prelude Bytes BTreeMap Primitives Canonical Crypto.

Local Open Scope Z_scope.

Definition SYSTEM_ADDRESS_REGISTRY_VERSION : Z := 1.
Definition PROTOCOL_INFO_IMPLEMENTATION_VERSION : Z := 1.
Definition CHAIN_REGISTRY_IMPLEMENTATION_VERSION : Z := 1.
Definition PROTOCOL_INFO_GAS : Z := 500.
Definition CHAIN_REGISTRY_CREATE_GAS : Z := 180000.
Definition CHAIN_REGISTRY_DEPOSIT_GAS : Z := 45000.
Definition MIN_CREATION_DEPOSIT : Z := 1000000000000000000.
Definition CREATION_DEPOSIT_LOCK_BLOCKS : Z := 100.
Definition PROTOCOL_INFO_ADDRESS : bytes := repeat x00 18 ++ [byte_of 8; byte_of 0].
Definition CHAIN_REGISTRY_ADDRESS : bytes := repeat x00 18 ++ [byte_of 8; byte_of 1].
Definition PROTOCOL_INFO_ABI_SIGNATURE : bytes := bstr "protocolInfo()".
Definition CREATE_CHAIN_ABI_SIGNATURE : bytes :=
  bstr "createChain(bytes32,string,string,uint64,address,uint64,uint128,uint256,uint32)".
Definition REFUND_DEPOSIT_ABI_SIGNATURE : bytes := bstr "refundDeposit(bytes32)".
Definition BURN_DEPOSIT_ABI_SIGNATURE : bytes := bstr "burnDeposit(bytes32)".

Definition REGISTRY_DESCRIPTOR_TAG : bytes := bstr "ARBOR_CHAIN_REGISTRY_DESCRIPTOR_V1".
Definition REGISTRY_CHAIN_ID_TAG : bytes := bstr "ARBOR_CHAIN_REGISTRY_CHAIN_ID_V1".
Definition REGISTRY_CREATION_HEIGHT_TAG : bytes := bstr "ARBOR_CHAIN_REGISTRY_CREATION_HEIGHT_V1".
Definition REGISTRY_DEPOSIT_TAG : bytes := bstr "ARBOR_CHAIN_REGISTRY_DEPOSIT_V1".
Definition REGISTRY_DEPOSIT_UNLOCK_TAG : bytes := bstr "ARBOR_CHAIN_REGISTRY_DEPOSIT_UNLOCK_V1".
Definition REGISTRY_OWNER_TAG : bytes := bstr "ARBOR_CHAIN_REGISTRY_OWNER_V1".
Definition REGISTRY_DEPOSIT_STATUS_TAG : bytes := bstr "ARBOR_CHAIN_REGISTRY_DEPOSIT_STATUS_V1".
Definition ROOT_DOMAIN_MARKER_TAG : bytes := bstr "ARBOR_ROOT_DOMAIN_MARKER_V1".

Definition ADDRESS_ZERO : bytes := repeat x00 20.

Record SystemContract := {
  sc_address : bytes;
  sc_abi_hash : bytes;
  sc_implementation_version : Z;
  sc_max_gas_cost : Z;
}.

Record CreateChainRequest := {
  rq_parent_domain_id : DomainId;
  rq_name : bytes;
  rq_symbol : bytes;
  rq_evm_chain_id : Z;
  rq_owner : bytes;
  rq_gas_limit : Z;
  rq_initial_base_fee : Z;
  rq_initial_supply : Z;
  rq_protocol_revision : Z;
}.

#[export] Instance CreateChainRequest_eq_dec : EqDecision CreateChainRequest.
Proof. solve_decision. Defined.

Record PreparedChainCreation := {
  pc_request : CreateChainRequest;
  pc_descriptor : DomainDescriptor;
  pc_descriptor_hash : bytes;
  pc_creation_height : Z;
  pc_deposit_unlock_height : Z;
}.

Record ChainRegistryRuntime := {
  rt_root_domain_id : DomainId;
  rt_executing_domain_id : DomainId;
  rt_consensus_height : Z;
  rt_governance_address : bytes;
  rt_prepared_creation : option PreparedChainCreation;
}.

Inductive CreationDepositStatus := Locked | Refunded | Burned.

(** [status as u8]. *)
Definition deposit_status_u8 (s : CreationDepositStatus) : Z :=
  match s with Locked => 1 | Refunded => 2 | Burned => 3 end.

(** [Encoding] keeps the error whose message the Rust value holds. *)
Inductive ChainRegistryError :=
| InvalidCalldata
| InvalidMetadata
| InvalidParameter (what : string)
| InsufficientDeposit (minimum actual : Z)
| HeightOverflow
| Encoding (e : CryptoError).

(** ** Display metadata *)

(** [u8::is_ascii_whitespace], as [split_ascii_whitespace] uses it. *)
Definition is_ascii_whitespace (b : byte) : bool :=
  existsb (Z.eqb (byte_val b)) [9; 10; 12; 13; 32].

Definition is_ascii_alphanumeric (b : byte) : bool :=
  in_range 48 57 b || in_range 65 90 b || in_range 97 122 b.

(** [str::split_ascii_whitespace]: the maximal runs of other bytes. *)
Fixpoint split_words (word : bytes) (l : bytes) : list bytes :=
  match l with
  | [] => match word with [] => [] | _ => [word] end
  | b :: l' =>
      if is_ascii_whitespace b
      then match word with [] => split_words [] l' | _ => word :: split_words [] l' end
      else split_words (word ++ [b]) l'
  end.

(** [join(" ")]. *)
Fixpoint join_words (words : list bytes) : bytes :=
  match words with
  | [] => []
  | [w] => w
  | w :: words' => w ++ byte_of 32 :: join_words words'
  end.

Definition name_byte (b : byte) : bool :=
  is_ascii_alphanumeric b || existsb (Z.eqb (byte_val b)) [32; 45; 95; 46].

Definition normalize_name (b : bytes) : outcome ChainRegistryError bytes :=
  if negb (utf8_valid b) then Err InvalidMetadata
  else
    let normalized := join_words (split_words [] b) in
    if (length normalized =? 0)%nat || (64 <? zlen normalized) || negb (forallb name_byte normalized)
    then Err InvalidMetadata
    else Ok normalized.

(** The UTF-8 encodings of the characters [char::is_whitespace] accepts. *)
Definition whitespace1 (a : byte) : bool := in_range 9 13 a || (byte_val a =? 32).

Definition whitespace2 (a b : byte) : bool :=
  (byte_val a =? 194) && ((byte_val b =? 133) || (byte_val b =? 160)).

Definition whitespace3 (a b c : byte) : bool :=
  match byte_val a, byte_val b with
  | 225, 154 => byte_val c =? 128
  | 226, 128 => in_range 128 138 c || existsb (Z.eqb (byte_val c)) [168; 169; 175]
  | 226, 129 => byte_val c =? 159
  | 227, 128 => byte_val c =? 128
  | _, _ => false
  end.

(** [trim_start], and [trim_end] on the reversed bytes. *)
Fixpoint trim_start (l : bytes) : bytes :=
  match l with
  | [] => []
  | a :: l1 =>
      if whitespace1 a then trim_start l1
      else
        match l1 with
        | b :: l2 =>
            if whitespace2 a b then trim_start l2
            else
              match l2 with
              | c :: l3 => if whitespace3 a b c then trim_start l3 else l
              | [] => l
              end
        | [] => l
        end
  end.

Fixpoint trim_rev (l : bytes) : bytes :=
  match l with
  | [] => []
  | a :: l1 =>
      if whitespace1 a then trim_rev l1
      else
        match l1 with
        | b :: l2 =>
            if whitespace2 b a then trim_rev l2
            else
              match l2 with
              | c :: l3 => if whitespace3 c b a then trim_rev l3 else l
              | [] => l
              end
        | [] => l
        end
  end.

Definition trim (l : bytes) : bytes := rev (trim_rev (rev (trim_start l))).

Definition to_ascii_uppercase (b : byte) : byte :=
  if in_range 97 122 b then byte_of (byte_val b - 32) else b.

Definition normalize_symbol (b : bytes) : outcome ChainRegistryError bytes :=
  if negb (utf8_valid b) then Err InvalidMetadata
  else
    let normalized := to_ascii_uppercase <$> trim b in
    if (length normalized =? 0)%nat || (16 <? zlen normalized) ||
       negb (forallb is_ascii_alphanumeric normalized)
    then Err InvalidMetadata
    else Ok normalized.

Definition validate_request (r : CreateChainRequest) : outcome ChainRegistryError unit :=
  if bool_decide (rq_parent_domain_id r = B256_ZERO) then Err (InvalidParameter "zero parent domain")
  else if rq_evm_chain_id r =? 0 then Err (InvalidParameter "zero EVM chain ID")
  else if bool_decide (rq_owner r = ADDRESS_ZERO) then Err (InvalidParameter "zero owner")
  else if (rq_gas_limit r =? 0) || (30000000 <? rq_gas_limit r)
  then Err (InvalidParameter "domain gas limit")
  else if umax 64 <? rq_initial_base_fee r then Err (InvalidParameter "initial base fee")
  else if negb (rq_protocol_revision r =? 1) then Err (InvalidParameter "protocol revision")
  else Ok tt.

(** The request with its metadata normalized, validated. *)
Definition normalize_request (r : CreateChainRequest) : outcome ChainRegistryError CreateChainRequest :=
  let? name := normalize_name (rq_name r) in
  let? symbol := normalize_symbol (rq_symbol r) in
  let r :=
    {| rq_parent_domain_id := rq_parent_domain_id r; rq_name := name; rq_symbol := symbol;
       rq_evm_chain_id := rq_evm_chain_id r; rq_owner := rq_owner r;
       rq_gas_limit := rq_gas_limit r; rq_initial_base_fee := rq_initial_base_fee r;
       rq_initial_supply := rq_initial_supply r;
       rq_protocol_revision := rq_protocol_revision r |} in
  run? validate_request r in
  Ok r.

(** ** ABI words *)

Definition put_word_u64 (value : Z) : bytes := repeat x00 24 ++ of_u64 value.

(** A [usize] always fits [u64] here. *)
Definition put_word_usize (value : Z) : bytes := put_word_u64 value.

Definition put_word_u128 (value : Z) : bytes := repeat x00 16 ++ of_u128 value.

Definition put_word_u32 (value : Z) : bytes := repeat x00 28 ++ of_u32 value.

(** The value, padded with zeros to whole words ([resize]). *)
Definition abi_bytes_tail (value : bytes) : bytes :=
  let padded := div_ceil (zlen value) 32 * 32 in
  put_word_usize (zlen value) ++ value ++ repeat x00 (Z.to_nat (padded - zlen value)).

(** A word whose first [32 - n] bytes are zero, read as a big-endian integer. *)
Definition decode_word (n : nat) (word : bytes) : outcome ChainRegistryError Z :=
  if negb (length word =? 32)%nat || negb (bool_decide (take (32 - n) word = repeat x00 (32 - n)))
  then Err InvalidCalldata
  else Ok (from_be_bytes (drop (32 - n) word)).

Definition decode_usize_word (word : bytes) : outcome ChainRegistryError Z := decode_word 8 word.

Definition decode_u64_word (word : bytes) : outcome ChainRegistryError Z := decode_word 8 word.

Definition decode_u128_word (word : bytes) : outcome ChainRegistryError Z := decode_word 16 word.

Definition decode_u32_word (word : bytes) : outcome ChainRegistryError Z := decode_word 4 word.

Definition decode_dynamic_bytes (args : bytes) (offset limit : Z)
    : outcome ChainRegistryError (bytes * Z) :=
  if negb (offset mod 32 =? 0) then Err InvalidCalldata
  else
    let? word_end := add_usize offset 32 in
    let? length_word := ok_or (get_range args offset word_end) InvalidCalldata in
    let? length := decode_usize_word length_word in
    if limit <? length then Err InvalidMetadata
    else
      let? start := ok_or (checked_add 64 offset 32) InvalidCalldata in
      let? padded := ok_or (checked_add 64 length 31) InvalidCalldata in
      let padded := padded / 32 * 32 in
      let? end_ := ok_or (checked_add 64 start padded) InvalidCalldata in
      let? data_end := add_usize start length in
      let? data := ok_or (get_range args start data_end) InvalidCalldata in
      let? padding := ok_or (get_range args data_end end_) InvalidCalldata in
      if existsb (λ b, negb (byte_val b =? 0)) padding then Err InvalidCalldata
      else Ok (data, end_).

Definition encode_domain_id_call (selector : bytes) (domain_id : DomainId) : bytes :=
  selector ++ domain_id.

Definition decode_domain_id_call (input selector : bytes) : option DomainId :=
  if (length input =? 36)%nat && bool_decide (take 4 input = selector)
  then Some (drop 4 input)
  else None.

Section operations.
Context `{Keccak}.

Definition selector (signature : bytes) : bytes := take 4 (keccak256 signature).

Definition protocol_info_contract : SystemContract :=
  {| sc_address := PROTOCOL_INFO_ADDRESS;
     sc_abi_hash := keccak256 PROTOCOL_INFO_ABI_SIGNATURE;
     sc_implementation_version := PROTOCOL_INFO_IMPLEMENTATION_VERSION;
     sc_max_gas_cost := PROTOCOL_INFO_GAS |}.

Definition chain_registry_contract : SystemContract :=
  {| sc_address := CHAIN_REGISTRY_ADDRESS;
     sc_abi_hash := keccak256 (CREATE_CHAIN_ABI_SIGNATURE ++ REFUND_DEPOSIT_ABI_SIGNATURE ++
                               BURN_DEPOSIT_ABI_SIGNATURE);
     sc_implementation_version := CHAIN_REGISTRY_IMPLEMENTATION_VERSION;
     sc_max_gas_cost := CHAIN_REGISTRY_CREATE_GAS |}.

Definition protocol_info_selector : bytes := selector PROTOCOL_INFO_ABI_SIGNATURE.

Definition create_chain_selector : bytes := selector CREATE_CHAIN_ABI_SIGNATURE.

Definition refund_deposit_selector : bytes := selector REFUND_DEPOSIT_ABI_SIGNATURE.

Definition burn_deposit_selector : bytes := selector BURN_DEPOSIT_ABI_SIGNATURE.

Definition encode_refund_deposit_call (domain_id : DomainId) : bytes :=
  encode_domain_id_call refund_deposit_selector domain_id.

Definition encode_burn_deposit_call (domain_id : DomainId) : bytes :=
  encode_domain_id_call burn_deposit_selector domain_id.

Definition decode_refund_deposit_call (input : bytes) : option DomainId :=
  decode_domain_id_call input refund_deposit_selector.

Definition decode_burn_deposit_call (input : bytes) : option DomainId :=
  decode_domain_id_call input burn_deposit_selector.

(** Four words, each field written at its place in the zeroed output. *)
Definition encode_protocol_info (protocol_revision evm_revision chain_id : Z) : bytes :=
  repeat x00 28 ++ of_u32 protocol_revision ++ repeat x00 31 ++ [byte_of evm_revision] ++
  repeat x00 28 ++ of_u32 SYSTEM_ADDRESS_REGISTRY_VERSION ++ repeat x00 24 ++ of_u64 chain_id.

(** The calldata of a request whose metadata is normalized. *)
Definition create_chain_calldata (r : CreateChainRequest) : bytes :=
  let name_tail := abi_bytes_tail (rq_name r) in
  let symbol_tail := abi_bytes_tail (rq_symbol r) in
  let name_offset := 9 * 32 in
  let symbol_offset := name_offset + zlen name_tail in
  create_chain_selector ++ rq_parent_domain_id r ++ put_word_usize name_offset ++
  put_word_usize symbol_offset ++ put_word_u64 (rq_evm_chain_id r) ++ repeat x00 12 ++
  rq_owner r ++ put_word_u64 (rq_gas_limit r) ++ put_word_u128 (rq_initial_base_fee r) ++
  of_u256 (rq_initial_supply r) ++ put_word_u32 (rq_protocol_revision r) ++ name_tail ++ symbol_tail.

Definition encode_create_chain_call (request : CreateChainRequest)
    : outcome ChainRegistryError bytes :=
  let? request := normalize_request request in
  Ok (create_chain_calldata request).

Definition decode_create_chain_call (input : bytes)
    : outcome ChainRegistryError CreateChainRequest :=
  if (zlen input <? 4 + 9 * 32) || negb (bool_decide (take 4 input = create_chain_selector))
  then Err InvalidCalldata
  else
    let args := drop 4 input in
    let word (index : Z) := ok_or (get_range args (index * 32) ((index + 1) * 32)) InvalidCalldata in
    let? parent_domain_id := word 0 in
    let? w1 := word 1 in
    let? name_offset := decode_usize_word w1 in
    let? w2 := word 2 in
    let? symbol_offset := decode_usize_word w2 in
    if negb (name_offset =? 9 * 32) || (symbol_offset <? name_offset + 32) then Err InvalidCalldata
    else
      let? '(name_bytes, name_end) := decode_dynamic_bytes args name_offset 64 in
      if negb (symbol_offset =? name_end) then Err InvalidCalldata
      else
        let? '(symbol_bytes, symbol_end) := decode_dynamic_bytes args symbol_offset 16 in
        if negb (symbol_end =? zlen args) then Err InvalidCalldata
        else
          let? w3 := word 3 in
          let? evm_chain_id := decode_u64_word w3 in
          let? owner_word := word 4 in
          if negb (bool_decide (take 12 owner_word = repeat x00 12)) then Err InvalidCalldata
          else
            let owner := drop 12 owner_word in
            let? w5 := word 5 in
            let? gas_limit := decode_u64_word w5 in
            let? w6 := word 6 in
            let? initial_base_fee := decode_u128_word w6 in
            let? w7 := word 7 in
            let initial_supply := from_be_bytes w7 in
            let? w8 := word 8 in
            let? protocol_revision := decode_u32_word w8 in
            normalize_request
              {| rq_parent_domain_id := parent_domain_id; rq_name := name_bytes;
                 rq_symbol := symbol_bytes; rq_evm_chain_id := evm_chain_id; rq_owner := owner;
                 rq_gas_limit := gas_limit; rq_initial_base_fee := initial_base_fee;
                 rq_initial_supply := initial_supply; rq_protocol_revision := protocol_revision |}.

Definition genesis_of (r : CreateChainRequest) (domain_id joint_domain_block_hash create_tx_hash
    initial_state_root : bytes) : DomainGenesis :=
  {| dg_domain_id := domain_id;
     dg_parent_domain_id := rq_parent_domain_id r;
     dg_joint_domain_block_hash := joint_domain_block_hash;
     dg_create_tx_hash := create_tx_hash;
     dg_name := rq_name r;
     dg_symbol := rq_symbol r;
     dg_evm_chain_id := rq_evm_chain_id r;
     dg_owner := rq_owner r;
     dg_protocol_revision := rq_protocol_revision r;
     dg_gas_limit := rq_gas_limit r;
     dg_initial_base_fee := rq_initial_base_fee r;
     dg_initial_supply := rq_initial_supply r;
     dg_initial_state_root := initial_state_root |}.

Definition prepare_chain_creation (request : CreateChainRequest) (network_id : NetworkId)
    (create_tx_hash joint_domain_block_hash initial_state_root : bytes)
    (creation_deposit creation_height : Z)
    : outcome ChainRegistryError PreparedChainCreation :=
  let? request := normalize_request request in
  if creation_deposit <? MIN_CREATION_DEPOSIT
  then Err (InsufficientDeposit MIN_CREATION_DEPOSIT creation_deposit)
  else
    let domain_id := derive_domain_id network_id (rq_parent_domain_id request) create_tx_hash in
    let genesis :=
      genesis_of request domain_id joint_domain_block_hash create_tx_hash initial_state_root in
    let? origin_hash := map_err Encoding (domain_genesis_hash genesis) in
    let descriptor :=
      {| dd_domain_id := domain_id;
         dd_parent_domain_id := rq_parent_domain_id request;
         dd_joint_domain_block_hash := joint_domain_block_hash;
         dd_create_tx_hash := create_tx_hash;
         dd_origin_hash := origin_hash;
         dd_name := rq_name request;
         dd_symbol := rq_symbol request;
         dd_evm_chain_id := rq_evm_chain_id request;
         dd_owner := rq_owner request;
         dd_protocol_revision := rq_protocol_revision request;
         dd_gas_limit := rq_gas_limit request;
         dd_initial_base_fee := rq_initial_base_fee request;
         dd_initial_supply := rq_initial_supply request;
         dd_creation_deposit := creation_deposit;
         dd_status := Active |} in
    let? encoded := map_err (λ e, Encoding (Codec e)) (encode_domain_descriptor descriptor) in
    let? deposit_unlock_height :=
      ok_or (checked_add 64 creation_height CREATION_DEPOSIT_LOCK_BLOCKS) HeightOverflow in
    Ok {| pc_request := request;
          pc_descriptor := descriptor;
          pc_descriptor_hash := keccak256 encoded;
          pc_creation_height := creation_height;
          pc_deposit_unlock_height := deposit_unlock_height |}.

(** ** Registry storage *)

Definition tagged_slot (tag key : bytes) : Z := from_be_bytes (keccak256 (tag ++ key)).

Definition descriptor_slot (domain_id : DomainId) : Z := tagged_slot REGISTRY_DESCRIPTOR_TAG domain_id.

Definition chain_id_slot (chain_id : Z) : Z := tagged_slot REGISTRY_CHAIN_ID_TAG (of_u64 chain_id).

Definition creation_height_slot (domain_id : DomainId) : Z :=
  tagged_slot REGISTRY_CREATION_HEIGHT_TAG domain_id.

Definition deposit_slot (domain_id : DomainId) : Z := tagged_slot REGISTRY_DEPOSIT_TAG domain_id.

Definition deposit_unlock_slot (domain_id : DomainId) : Z :=
  tagged_slot REGISTRY_DEPOSIT_UNLOCK_TAG domain_id.

Definition owner_slot (domain_id : DomainId) : Z := tagged_slot REGISTRY_OWNER_TAG domain_id.

Definition deposit_status_slot (domain_id : DomainId) : Z :=
  tagged_slot REGISTRY_DEPOSIT_STATUS_TAG domain_id.

Definition creation_storage_writes (p : PreparedChainCreation) : list (Z * Z) :=
  let d := pc_descriptor p in
  let domain_id := dd_domain_id d in
  [(descriptor_slot domain_id, from_be_bytes (pc_descriptor_hash p));
   (chain_id_slot (dd_evm_chain_id d), from_be_bytes domain_id);
   (creation_height_slot domain_id, pc_creation_height p);
   (deposit_slot domain_id, dd_creation_deposit d);
   (deposit_unlock_slot domain_id, pc_deposit_unlock_height p);
   (owner_slot domain_id, from_be_bytes (dd_owner d));
   (deposit_status_slot domain_id, deposit_status_u8 Locked)].

Definition root_registry_genesis_storage (root_domain_id : DomainId) (root_chain_id : Z)
    : btree Z Z :=
  bcollect
    [(descriptor_slot root_domain_id,
      from_be_bytes (keccak256 (ROOT_DOMAIN_MARKER_TAG ++ root_domain_id)));
     (chain_id_slot root_chain_id, from_be_bytes root_domain_id)].
End operations.

(** ** Normalization is idempotent *)

Lemma name_byte_ascii b : name_byte b = true → byte_val b < 128.
Proof. destruct b; cbn; done || discriminate. Qed.

Lemma alphanumeric_ascii b : is_ascii_alphanumeric b = true → byte_val b < 128.
Proof. destruct b; cbn; done || discriminate. Qed.

Lemma utf8_of_forallb p l :
  (∀ b, p b = true → byte_val b < 128) → forallb p l = true → utf8_valid l = true.
Proof.
  intros Hp Hl. apply utf8_valid_ascii, list.Forall_forall. intros b Hb. apply Hp.
  rewrite forallb_forall in Hl. by apply Hl, list_elem_of_In.
Qed.

Definition is_word (w : bytes) : Prop :=
  w ≠ [] ∧ Forall (λ b, is_ascii_whitespace b = false) w.

Lemma split_words_are_words word l :
  Forall (λ b, is_ascii_whitespace b = false) word → Forall is_word (split_words word l).
Proof.
  revert word. induction l as [|b l IH]; intros word Hw; cbn [split_words].
  - destruct word; [constructor|]. by constructor; [|constructor].
  - destruct (is_ascii_whitespace b) eqn:Hb.
    + destruct word; [by apply IH|]. constructor; [done|]. by apply IH.
    + apply IH. apply Forall_app. split; [done|]. by constructor.
Qed.

Lemma split_words_app word w l :
  Forall (λ b, is_ascii_whitespace b = false) w → split_words word (w ++ l) = split_words (word ++ w) l.
Proof.
  revert word. induction w as [|b w IH]; intros word Hw; [by rewrite app_nil_r|].
  apply list.Forall_cons in Hw as [Hb Hw]. cbn [app split_words]. rewrite Hb, IH by done.
  by rewrite <-app_assoc.
Qed.

Lemma split_join_words words : Forall is_word words → split_words [] (join_words words) = words.
Proof.
  induction words as [|w words IH]; [done|]. intros Hall. apply list.Forall_cons in Hall as [[Hne Hw] Hws].
  destruct words as [|w' words].
  - cbn [join_words]. rewrite <-(app_nil_r w), split_words_app by done. cbn. rewrite app_nil_r.
    by destruct w.
  - change (join_words (w :: w' :: words)) with (w ++ byte_of 32 :: join_words (w' :: words)).
    rewrite split_words_app by done. cbn [app split_words]. change (is_ascii_whitespace (byte_of 32)) with true.
    cbn [app]. destruct w; [done|]. by rewrite IH.
Qed.

Lemma normalize_name_idem n m : normalize_name n = Ok m → normalize_name m = Ok m.
Proof.
  unfold normalize_name. intros Hn. ok_inv. subst m.
  assert (split_words [] (join_words (split_words [] n)) = split_words [] n) as ->.
  { apply split_join_words, split_words_are_words. constructor. }
  rewrite Hif0. apply orb_false_iff in Hif0 as [_ Hall]. apply negb_false_iff in Hall.
  by rewrite (utf8_of_forallb name_byte) by (done || apply name_byte_ascii).
Qed.

Lemma alphanumeric_not_space a :
  is_ascii_alphanumeric a = true →
  whitespace1 a = false ∧ (∀ b, whitespace2 a b = false ∧ whitespace2 b a = false) ∧
  (∀ b c, whitespace3 a b c = false ∧ whitespace3 c b a = false).
Proof.
  intros Ha. assert (byte_val a < 128) as Hlt by by apply alphanumeric_ascii.
  split; [by destruct a|]. split.
  - intros b. unfold whitespace2. split; [by destruct a|].
    destruct (byte_val b =? 194); [|done]. by destruct a.
  - intros b c. split; [by destruct a|]. unfold whitespace3. by destruct c; try done; destruct b; try done; destruct a.
Qed.

Lemma trim_start_alphanumeric l : forallb is_ascii_alphanumeric l = true → trim_start l = l.
Proof.
  destruct l as [|a l]; [done|]. cbn [forallb]. intros [Ha _]%andb_true_iff.
  destruct (alphanumeric_not_space a Ha) as (W1 & W2 & W3). cbn [trim_start]. rewrite W1.
  destruct l as [|b l]; [done|]. rewrite (proj1 (W2 b)). destruct l as [|c l]; [done|].
  by rewrite (proj1 (W3 b c)).
Qed.

Lemma trim_rev_alphanumeric l : forallb is_ascii_alphanumeric l = true → trim_rev l = l.
Proof.
  destruct l as [|a l]; [done|]. cbn [forallb]. intros [Ha _]%andb_true_iff.
  destruct (alphanumeric_not_space a Ha) as (W1 & W2 & W3). cbn [trim_rev]. rewrite W1.
  destruct l as [|b l]; [done|]. rewrite (proj2 (W2 b)). destruct l as [|c l]; [done|].
  by rewrite (proj2 (W3 b c)).
Qed.

Lemma forallb_rev {A : Type} (p : A → bool) l : forallb p (rev l) = forallb p l.
Proof.
  induction l as [|a l IH]; [done|]. cbn [rev]. rewrite forallb_app, IH. cbn [forallb].
  by rewrite andb_true_r, andb_comm.
Qed.

Lemma trim_alphanumeric l : forallb is_ascii_alphanumeric l = true → trim l = l.
Proof.
  intros Hl. unfold trim. rewrite trim_start_alphanumeric by done.
  rewrite trim_rev_alphanumeric by (by rewrite forallb_rev). apply rev_involutive.
Qed.

Lemma normalize_symbol_idem s m : normalize_symbol s = Ok m → normalize_symbol m = Ok m.
Proof.
  unfold normalize_symbol. intros Hs. ok_inv. pose proof Hif0 as Hall.
  apply orb_false_iff in Hall as [_ Hall]. apply negb_false_iff in Hall.
  rewrite Hs in Hall, Hif0.
  rewrite (utf8_of_forallb is_ascii_alphanumeric) by (done || apply alphanumeric_ascii).
  rewrite trim_alphanumeric by done. cbn [negb].
  assert (to_ascii_uppercase <$> m = m) as ->; [|by rewrite Hif0].
  subst m. rewrite <-list_fmap_compose. apply list_fmap_ext. intros _ b _. by destruct b.
Qed.

Lemma normalize_request_idem r r' : normalize_request r = Ok r' → normalize_request r' = Ok r'.
Proof.
  unfold normalize_request. intros Hr. ok_inv. subst r'. cbn [rq_name rq_symbol].
  rewrite (normalize_name_idem _ _ Hok), (normalize_symbol_idem _ _ Hok0). cbn [obind].
  cbn [rq_parent_domain_id rq_evm_chain_id rq_owner rq_gas_limit rq_initial_base_fee
       rq_initial_supply rq_protocol_revision]. by rewrite Hok1.
Qed.

(** ** ABI words *)

Lemma decode_word_iff n w v :
  (n <= 32)%nat →
  decode_word n w = Ok v ↔
    fits (8 * Z.of_nat n) v ∧ w = repeat x00 (32 - n) ++ to_be_bytes n v.
Proof.
  intros Hn. unfold decode_word. split.
  - intros Hd. ok_inv. bool_prop. apply Nat.eqb_eq in H.
    assert (length (drop (32 - n) w) = n) as Hl by (rewrite length_drop; lia).
    subst v. split; [by apply from_be_bytes_fits|].
    rewrite to_from_be_bytes by done. rewrite <-H0. by rewrite take_drop.
  - intros [Hf ->].
    rewrite length_app, repeat_length, length_to_be_bytes.
    replace (32 - n + n)%nat with 32%nat by lia. cbn [negb Nat.eqb orb].
    rewrite take_app_length', drop_app_length' by (by rewrite repeat_length).
    rewrite bool_decide_true by done. cbn [negb]. by rewrite from_to_be_bytes.
Qed.

Lemma word_length n v : (n <= 32)%nat → length (repeat x00 (32 - n) ++ to_be_bytes n v) = 32%nat.
Proof. intros Hn. rewrite length_app, repeat_length, length_to_be_bytes. lia. Qed.

Lemma zlen_concat_words (ws : list bytes) :
  Forall (λ w : bytes, length w = 32%nat) ws → zlen (concat ws) = Z.of_nat (length ws) * 32.
Proof.
  induction 1 as [|x l Hx _ IH]; [done|]. cbn [concat length]. rewrite zlen_app, IH.
  unfold zlen. lia.
Qed.

(** The words of a head. *)
Lemma get_word ws rest i :
  Forall (λ w : bytes, length w = 32%nat) ws → (i < length ws)%nat →
  get_range (concat ws ++ rest) (Z.of_nat i * 32) ((Z.of_nat i + 1) * 32) = ws !! i.
Proof.
  intros Hws Hi. destruct (lookup_lt_is_Some_2 ws i Hi) as [w Hw]. rewrite Hw.
  apply list_elem_of_split_length in Hw as (l1 & l2 & -> & ->).
  apply Forall_app in Hws as [H1 H2]. apply list.Forall_cons in H2 as [H2 _].
  pose proof (zlen_concat_words l1 H1) as Hz.
  rewrite concat_app. cbn [concat]. rewrite <-!app_assoc, <-Hz.
  replace ((Z.of_nat (length l1) + 1) * 32) with (zlen (concat l1) + zlen w) by (unfold zlen at 2; lia).
  by apply get_range_app.
Qed.

Lemma get_range_drop {A : Type} (l : list A) lo hi r :
  get_range l lo hi = Some r → drop (Z.to_nat lo) l = r ++ drop (Z.to_nat hi) l.
Proof.
  intros Hg. pose proof (get_range_length _ _ _ _ Hg) as Hl.
  apply get_range_Some in Hg as (H1 & H2 & ->).
  rewrite <-(take_drop (Z.to_nat (hi - lo)) (drop (Z.to_nat lo) l)) at 1. f_equal.
  rewrite drop_drop. f_equal. lia.
Qed.

Lemma zlen_abi_tail v :
  zlen (abi_bytes_tail v) = 32 + div_ceil (zlen v) 32 * 32 ∧
  zlen v ≤ div_ceil (zlen v) 32 * 32 < zlen v + 32.
Proof.
  assert (zlen v ≤ div_ceil (zlen v) 32 * 32 < zlen v + 32) as Hd.
  { unfold div_ceil. pose proof (zlen_nonneg v).
    pose proof (Z.div_mod (zlen v + 32 - 1) 32 ltac:(lia)).
    pose proof (Z.mod_pos_bound (zlen v + 32 - 1) 32 ltac:(lia)). lia. }
  split; [|done]. unfold abi_bytes_tail, put_word_usize, put_word_u64.
  rewrite !zlen_app, zlen_to_be_bytes. unfold zlen at 1 3. rewrite !repeat_length. unfold zlen in *. lia.
Qed.

Lemma forall_zero l : existsb (λ b, negb (byte_val b =? 0)) l = false ↔ l = repeat x00 (length l).
Proof.
  induction l as [|b l IH]; [done|]. cbn [existsb length repeat]. rewrite orb_false_iff, IH. split.
  - intros [Hb Hl]. rewrite <-Hl. f_equal. apply byte_val_inj. change (byte_val x00) with 0. by bool_prop.
  - intros [= Hb Hl]. rewrite <-Hl. by subst b.
Qed.

Lemma words_split args (ws : list bytes) :
  (∀ i w, ws !! i = Some w → get_range args (Z.of_nat i * 32) ((Z.of_nat i + 1) * 32) = Some w) →
  args = concat ws ++ drop (32 * length ws) args ∧ Forall (λ w : bytes, length w = 32%nat) ws.
Proof.
  intros Hws. induction ws as [|w ws IH] using rev_ind; [done|].
  destruct IH as [Ha Hl].
  { intros i x Hx. apply Hws. by apply lookup_app_l_Some. }
  specialize (Hws (length ws) w). rewrite list_lookup_middle in Hws by done. specialize (Hws eq_refl).
  pose proof (get_range_length _ _ _ _ Hws) as Lw. pose proof (get_range_drop _ _ _ _ Hws) as Dw.
  split.
  - rewrite concat_app, length_app. cbn [concat length]. rewrite app_nil_r, <-app_assoc.
    rewrite Ha at 1. f_equal. replace (32 * length ws)%nat with (Z.to_nat (Z.of_nat (length ws) * 32)) by lia.
    rewrite Dw. do 2 f_equal. lia.
  - apply Forall_app. split; [done|]. constructor; [|done]. unfold zlen in Lw. lia.
Qed.

Lemma div_ceil_31 n : div_ceil n 32 = (n + 31) / 32.
Proof. unfold div_ceil. f_equal. lia. Qed.

(** A dynamic field is read exactly where the encoder wrote it. *)
Lemma decode_dynamic_sound args offset limit data end_ :
  0 ≤ offset →
  decode_dynamic_bytes args offset limit = Ok (data, end_) →
    offset mod 32 = 0 ∧ zlen data ≤ limit ∧ end_ = offset + zlen (abi_bytes_tail data) ∧
    end_ ≤ zlen args ∧
    drop (Z.to_nat offset) args = abi_bytes_tail data ++ drop (Z.to_nat end_) args.
Proof.
  intros Ho. unfold decode_dynamic_bytes. intros Hd. ok_inv. bool_prop. subst.
  apply decode_word_iff in Hok1 as [Hf ->]; [|lia]. rewrite add_usize_Ok in Hok, Hok5.
  rewrite checked_add_Some in Hok2, Hok3, Hok4.
  destruct Hok as [-> _], Hok5 as [-> _], Hok2 as [-> _], Hok3 as [-> _], Hok4 as [-> _].
  pose proof (get_range_drop _ _ _ _ Hok0) as D0. pose proof (get_range_drop _ _ _ _ Hok6) as D1.
  pose proof (get_range_drop _ _ _ _ Hok7) as D2.
  pose proof (get_range_length _ _ _ _ Hok6) as L1. pose proof (get_range_length _ _ _ _ Hok7) as L2.
  apply get_range_Some in Hok7 as (_ & Hend & _).
  assert (zlen data = a1) as <- by lia. destruct (zlen_abi_tail data) as [Lt Lb].
  rewrite div_ceil_31 in Lt, Lb. split_and!; [done|lia|lia|lia|].
  rewrite D0, D1, D2. unfold abi_bytes_tail, put_word_usize, put_word_u64. rewrite <-!app_assoc.
  do 3 f_equal. f_equal. apply forall_zero in Hif1. rewrite Hif1. f_equal. rewrite div_ceil_31.
  unfold zlen in *. lia.
Qed.

Lemma decode_dynamic_no_panic args offset limit m :
  0 ≤ offset < 2 ^ 62 → limit < 2 ^ 62 → decode_dynamic_bytes args offset limit ≠ Panic m.
Proof.
  intros Ho Hl. unfold decode_dynamic_bytes, add_usize, checked_add, decode_usize_word, decode_word.
  rewrite (proj2 (Z.ltb_lt (offset + 32) _)) by lia. cbn [expect ok_or obind]. no_panic.
  bool_prop. ok_inv. rewrite (proj2 (Z.ltb_lt _ _)) by lia. no_panic.
Qed.

Lemma decode_dynamic_complete pre data rest limit :
  zlen pre mod 32 = 0 → zlen data ≤ limit → limit < 2 ^ 62 → zlen pre < 2 ^ 62 →
  decode_dynamic_bytes (pre ++ abi_bytes_tail data ++ rest) (zlen pre) limit =
    Ok (data, zlen pre + zlen (abi_bytes_tail data)).
Proof.
  intros Hm Hl Hlim Hpre. unfold decode_dynamic_bytes. rewrite (proj2 (Z.eqb_eq _ _) Hm). cbn [negb].
  pose proof (zlen_nonneg pre). pose proof (zlen_nonneg data).
  destruct (zlen_abi_tail data) as [Lt Lb]. rewrite Lt. rewrite div_ceil_31 in Lb |- *.
  set (pad := repeat x00 (Z.to_nat ((zlen data + 31) / 32 * 32 - zlen data))).
  assert (abi_bytes_tail data = put_word_usize (zlen data) ++ data ++ pad) as ->.
  { unfold abi_bytes_tail, pad. by rewrite div_ceil_31. }
  assert (zlen (put_word_usize (zlen data)) = 32) as Lw.
  { unfold put_word_usize, put_word_u64. by rewrite zlen_app, zlen_to_be_bytes. }
  assert (zlen pad = (zlen data + 31) / 32 * 32 - zlen data) as Lp.
  { unfold pad, zlen at 1. rewrite repeat_length. lia. }
  rewrite (proj2 (add_usize_Ok (zlen pre) 32 _)) by (split; [reflexivity|lia]). cbn [obind].
  rewrite <-!app_assoc, get_range_app by lia. cbn [ok_or obind].
  unfold decode_usize_word. rewrite (proj2 (decode_word_iff 8 _ (zlen data) ltac:(lia))).
  2:{ split; [unfold fits; lia|done]. }
  cbn [obind]. rewrite (proj2 (Z.ltb_ge _ _)) by done.
  rewrite (proj2 (checked_add_Some 64 (zlen pre) 32 _)) by (split; [reflexivity|lia]). cbn [ok_or obind].
  rewrite (proj2 (checked_add_Some 64 (zlen data) 31 _)) by (split; [reflexivity|lia]). cbn [ok_or obind].
  rewrite (proj2 (checked_add_Some 64 (zlen pre + 32) _ _)) by (split; [reflexivity|lia]).
  cbn [ok_or obind]. rewrite (proj2 (add_usize_Ok (zlen pre + 32) _ _)) by (split; [reflexivity|lia]).
  cbn [obind]. rewrite (app_assoc pre), get_range_app by (rewrite ?zlen_app; lia). cbn [ok_or obind].
  rewrite (app_assoc (pre ++ _)), get_range_app by (rewrite ?zlen_app; lia). cbn [ok_or obind].
  assert (existsb (λ b, negb (byte_val b =? 0)) pad = false) as ->.
  { apply forall_zero. unfold pad. by rewrite repeat_length. }
  f_equal. f_equal. lia.
Qed.

(** ** The [createChain] calldata *)

(** What the Rust types of a request guarantee. *)
Definition wf_request (r : CreateChainRequest) : Prop :=
  is_b256 (rq_parent_domain_id r) ∧ is_address (rq_owner r) ∧ u64 (rq_evm_chain_id r) ∧
  u64 (rq_gas_limit r) ∧ u128 (rq_initial_base_fee r) ∧ u256 (rq_initial_supply r) ∧
  u32 (rq_protocol_revision r).

(** The metadata fits the limits of the decoder. *)
Definition metadata_bounded (r : CreateChainRequest) : Prop :=
  zlen (rq_name r) ≤ 64 ∧ zlen (rq_symbol r) ≤ 16.

Definition head_words (r : CreateChainRequest) : list bytes :=
  [rq_parent_domain_id r; put_word_usize 288;
   put_word_usize (288 + zlen (abi_bytes_tail (rq_name r))); put_word_u64 (rq_evm_chain_id r);
   repeat x00 12 ++ rq_owner r; put_word_u64 (rq_gas_limit r);
   put_word_u128 (rq_initial_base_fee r); of_u256 (rq_initial_supply r);
   put_word_u32 (rq_protocol_revision r)].

Lemma tail_aligned v : (288 + zlen (abi_bytes_tail v)) mod 32 = 0.
Proof.
  destruct (zlen_abi_tail v) as [-> _]. replace (288 + (32 + div_ceil (zlen v) 32 * 32))
    with ((10 + div_ceil (zlen v) 32) * 32) by lia. apply Z.mod_mul. lia.
Qed.

Lemma decode_put_u64 v : u64 v → decode_word 8 (put_word_u64 v) = Ok v.
Proof. intros Hv. by apply decode_word_iff; [lia|]. Qed.

Lemma decode_put_u128 v : u128 v → decode_word 16 (put_word_u128 v) = Ok v.
Proof. intros Hv. by apply decode_word_iff; [lia|]. Qed.

Lemma decode_put_u32 v : u32 v → decode_word 4 (put_word_u32 v) = Ok v.
Proof. intros Hv. by apply decode_word_iff; [lia|]. Qed.

Section calldata.
Context `{Keccak}.

Lemma calldata_words r :
  create_chain_calldata r =
    create_chain_selector ++ concat (head_words r) ++ abi_bytes_tail (rq_name r) ++
    abi_bytes_tail (rq_symbol r).
Proof.
  unfold create_chain_calldata, head_words. cbn [concat]. rewrite !app_nil_r, <-!app_assoc. done.
Qed.

Lemma length_selector s : length (selector s) = 4%nat.
Proof. unfold selector. rewrite length_take, keccak256_length. done. Qed.

Lemma head_words_length r : wf_request r → Forall (λ w, length w = 32%nat) (head_words r).
Proof.
  intros (Hp & Ho & _). unfold is_b256, is_address in *. unfold head_words.
  repeat apply Forall_cons_2; [..|constructor]; unfold put_word_usize, put_word_u64, put_word_u128, put_word_u32;
    rewrite ?length_app, ?repeat_length, ?length_to_be_bytes; lia.
Qed.

Lemma get_head_word r rest (i : Z) :
  wf_request r → 0 ≤ i < 9 →
  get_range (concat (head_words r) ++ rest) (i * 32) ((i + 1) * 32) = head_words r !! Z.to_nat i.
Proof.
  intros Hr Hi. rewrite <-(get_word (head_words r) rest (Z.to_nat i)); [|by apply head_words_length|].
  - rewrite Z2Nat.id by lia. done.
  - change (length (head_words r)) with 9%nat. lia.
Qed.

Lemma zlen_head_words r : wf_request r → zlen (concat (head_words r)) = 288.
Proof.
  intros Hr. by rewrite zlen_concat_words by by apply head_words_length.
Qed.

Lemma tail_bound v limit : zlen v ≤ limit → 32 ≤ zlen (abi_bytes_tail v) < limit + 64.
Proof. intros Hv. destruct (zlen_abi_tail v) as [-> Hb]. pose proof (zlen_nonneg v). lia. Qed.

Local Opaque to_be_bytes.

Lemma decode_calldata r :
  wf_request r → metadata_bounded r →
  decode_create_chain_call (create_chain_calldata r) = normalize_request r.
Proof.
  intros Hr [Hn Hs]. pose proof (zlen_head_words r Hr) as Hh.
  pose proof (tail_bound _ _ Hn) as Tn. pose proof (tail_bound _ _ Hs) as Ts.
  pose proof Hr as (Hp & Ho & Hc & Hg & Hb & Hsu & Hv).
  unfold decode_create_chain_call. rewrite calldata_words.
  assert (zlen create_chain_selector = 4) as H4 by (unfold zlen, create_chain_selector; by rewrite length_selector).
  rewrite zlen_app, !zlen_app, Hh, H4.
  rewrite (proj2 (Z.ltb_ge _ _)) by lia.
  rewrite take_app_length', drop_app_length' by (symmetry; apply length_selector).
  rewrite bool_decide_true by done. cbn [orb negb]. cbv zeta.
  rewrite !get_head_word by (done || lia).
  change (head_words r !! Z.to_nat 0) with (Some (rq_parent_domain_id r)).
  change (head_words r !! Z.to_nat 1) with (Some (put_word_u64 288)).
  change (head_words r !! Z.to_nat 2)
    with (Some (put_word_u64 (288 + zlen (abi_bytes_tail (rq_name r))))).
  change (head_words r !! Z.to_nat 3) with (Some (put_word_u64 (rq_evm_chain_id r))).
  change (head_words r !! Z.to_nat 4) with (Some (repeat x00 12 ++ rq_owner r)).
  change (head_words r !! Z.to_nat 5) with (Some (put_word_u64 (rq_gas_limit r))).
  change (head_words r !! Z.to_nat 6) with (Some (put_word_u128 (rq_initial_base_fee r))).
  change (head_words r !! Z.to_nat 7) with (Some (of_u256 (rq_initial_supply r))).
  change (head_words r !! Z.to_nat 8) with (Some (put_word_u32 (rq_protocol_revision r))).
  cbn [ok_or obind]. unfold decode_usize_word, decode_u64_word, decode_u128_word, decode_u32_word.
  rewrite !decode_put_u64 by (done || unfold fits; lia). cbn [obind negb orb Z.eqb].
  rewrite (proj2 (Z.ltb_ge _ _)) by lia. cbn [Z.eqb negb orb Z.mul Pos.mul Pos.eqb Pos.add].
  rewrite <-Hh at 1. rewrite decode_dynamic_complete by (rewrite ?Hh; done || lia). cbn [obind].
  rewrite Hh, Z.eqb_refl. cbn [negb].
  assert (288 + zlen (abi_bytes_tail (rq_name r)) =
    zlen (concat (head_words r) ++ abi_bytes_tail (rq_name r))) as Hoff by (rewrite zlen_app; lia).
  rewrite Hoff, app_assoc, <-(app_nil_r (abi_bytes_tail (rq_symbol r))).
  rewrite decode_dynamic_complete; [|rewrite <-Hoff; apply tail_aligned|done|done|lia].
  cbn [obind]. rewrite app_nil_r, (zlen_app (_ ++ _)), Z.eqb_refl. cbn [negb].
  rewrite take_app_length', drop_app_length' by done. rewrite bool_decide_true by done. cbn [negb].
  rewrite decode_put_u128, decode_put_u32 by done. cbn [obind].
  rewrite from_to_be_bytes by done. by destruct r.
Qed.

Lemma decode_calldata_inv b r :
  decode_create_chain_call b = Ok r →
  ∃ r0, wf_request r0 ∧ metadata_bounded r0 ∧ b = create_chain_calldata r0 ∧
    normalize_request r0 = Ok r.
Proof.
  unfold decode_create_chain_call. cbv zeta. intros Hd. ok_inv. bool_prop.
  set (args := drop 4 b) in *.
  destruct (words_split args [a; a0; a2; a4; a6; a7; a9; a11; a12]) as [Hargs Hlen].
  { intros [|[|[|[|[|[|[|[|[|i]]]]]]]]] w [= <-]; done. }
  apply decode_word_iff in Hok1 as [F1 ->], Hok3 as [F3 ->], Hok7 as [F7 ->], Hok10 as [F10 ->],
    Hok12 as [F12 ->], Hok15 as [F15 ->]; try lia.
  rewrite !list.Forall_cons in Hlen. destruct Hlen as (L0 & _ & _ & _ & L4 & _ & _ & L7 & _).
  apply decode_dynamic_sound in Hok4 as (_ & Bn & -> & _ & Dn); [|apply F1].
  apply decode_dynamic_sound in Hok5 as (_ & Bs & E5 & _ & Ds); [|apply F3]. subst a1 a3 z0.
  match type of Hd with normalize_request ?r0 = _ => exists r0 end.
  split_and!; [|by split| |done].
  - unfold wf_request. cbn [rq_parent_domain_id rq_name rq_symbol rq_evm_chain_id rq_owner rq_gas_limit rq_initial_base_fee
      rq_initial_supply rq_protocol_revision]. unfold is_address. rewrite length_drop, L4.
    split_and!; try done. by apply (from_be_bytes_fits a11 32).
  - rewrite calldata_words, <-(take_drop 4 b). f_equal; [done|]. fold args.
    rewrite Hargs. cbn [rq_name rq_symbol]. f_equal.
    + unfold head_words. cbn [rq_parent_domain_id rq_name rq_symbol rq_evm_chain_id rq_owner
        rq_gas_limit rq_initial_base_fee rq_initial_supply rq_protocol_revision].
      rewrite to_from_be_bytes by done. do 6 f_equal. rewrite <-(take_drop 12 a6) at 1. congruence.
    + transitivity (drop (Z.to_nat (9 * 32)) args); [done|]. rewrite Dn, Ds.
      rewrite (drop_ge args) by (unfold zlen in *; lia). by rewrite app_nil_r.
Qed.

Lemma decode_calldata_no_panic b m : decode_create_chain_call b ≠ Panic m.
Proof.
  unfold decode_create_chain_call. cbv zeta.
  assert (∀ n w, decode_word n w ≠ Panic m) as Hw by (intros; unfold decode_word; no_panic).
  assert (∀ r, normalize_request r ≠ Panic m) as Hr.
  { intros r. unfold normalize_request, normalize_name, normalize_symbol, validate_request. no_panic. }
  no_panic; unfold decode_usize_word, decode_u64_word, decode_u128_word, decode_u32_word in *;
    bool_prop; try apply Hw; try apply Hr.
  - apply decode_dynamic_no_panic; lia.
  - match goal with Hd : decode_dynamic_bytes _ _ _ = Ok _ |- _ =>
      apply decode_dynamic_sound in Hd as (_ & Hl & -> & _); [|lia] end.
    pose proof (tail_bound _ _ Hl). apply decode_dynamic_no_panic; lia.
Qed.
End calldata.

(** ** Requests after normalization *)

Lemma normalize_request_inv r r' :
  normalize_request r = Ok r' →
  metadata_bounded r' ∧ 0 < zlen (rq_name r') ∧ 0 < zlen (rq_symbol r') ∧
  is_string (rq_name r') ∧ is_string (rq_symbol r') ∧
  rq_parent_domain_id r' ≠ B256_ZERO ∧ rq_evm_chain_id r' ≠ 0 ∧ rq_owner r' ≠ ADDRESS_ZERO ∧
  rq_gas_limit r' ≠ 0 ∧ rq_gas_limit r' ≤ 30000000 ∧ rq_initial_base_fee r' ≤ umax 64 ∧
  rq_protocol_revision r' = 1 ∧ (wf_request r → wf_request r').
Proof.
  intros Hr. pose proof (normalize_request_idem _ _ Hr) as Hi.
  assert (wf_request r → wf_request r') as Hwf.
  { unfold normalize_request in Hr. ok_inv. by subst r'. }
  clear Hr. unfold normalize_request, normalize_name, normalize_symbol, validate_request in Hi.
  destruct r'. cbn [rq_parent_domain_id rq_name rq_symbol rq_evm_chain_id rq_owner rq_gas_limit
    rq_initial_base_fee rq_initial_supply rq_protocol_revision] in *.
  ok_inv. bool_prop. subst. unfold metadata_bounded, is_string.
  cbn [rq_name rq_symbol].
  assert (∀ l : bytes, (length l =? 0)%nat = false → 0 < zlen l) as Hpos.
  { intros l Hl%Nat.eqb_neq. unfold zlen. lia. }
  rewrite Hi in H5, H7. rewrite H in H2, H4. split_and!; auto.
Qed.

Section results.
Context `{Keccak}.

(** The [createChain] calldata is exact. Calldata decodes to a request
    exactly when it is the ABI encoding of some request with bounded metadata
    whose normalization is that request; encoding a request gives calldata that
    decodes to its normalization, and encoding the normalization gives the same
    calldata; decoding never panics. *)
Theorem create_chain_abi_exact :
  (∀ b r, decode_create_chain_call b = Ok r ↔
    ∃ r0, wf_request r0 ∧ metadata_bounded r0 ∧ b = create_chain_calldata r0 ∧
      normalize_request r0 = Ok r) ∧
  (∀ r b, wf_request r → encode_create_chain_call r = Ok b →
    ∃ r', normalize_request r = Ok r' ∧ decode_create_chain_call b = Ok r' ∧
      encode_create_chain_call r' = Ok b) ∧
  (∀ b m, decode_create_chain_call b ≠ Panic m).
Proof.
  split_and!; [| |exact decode_calldata_no_panic].
  - intros b r. split; [apply decode_calldata_inv|]. intros (r0 & Hw & Hb & -> & Hn).
    by rewrite decode_calldata.
  - intros r b Hw He. unfold encode_create_chain_call in *. ok_inv. subst b. exists a.
    pose proof (normalize_request_inv _ _ Hok) as Hinv. pose proof (normalize_request_idem _ _ Hok) as Hi.
    split; [done|]. rewrite decode_calldata, Hi by tauto. done.
Qed.

Lemma encode_genesis_ok g :
  wf_domain_genesis g → zlen (dg_name g) ≤ 64 → zlen (dg_symbol g) ≤ 16 → dg_evm_chain_id g ≠ 0 →
  ∃ b, encode_domain_genesis g = Ok b.
Proof.
  intros Hwf Hn Hs Hc. eexists. apply encode_domain_genesis_Ok. split; [by split_and!|]. split; [done|].
  destruct Hwf as (E1 & E2 & E3 & E4 & _ & _ & _ & E5 & _ & _ & _ & _ & E6).
  unfold is_b256, is_address in *.
  unfold tagged_body, domain_genesis_body, prefixed.
  rewrite zlen_app, zlen_cons, !zlen_app, !zlen_to_be_bytes.
  unfold zlen in *. rewrite E1, E2, E3, E4, E5, E6. cbn. unfold MAX_CANONICAL_OBJECT_BYTES. lia.
Qed.

Lemma encode_descriptor_ok d :
  wf_domain_descriptor d → zlen (dd_name d) ≤ 64 → zlen (dd_symbol d) ≤ 16 → dd_evm_chain_id d ≠ 0 →
  ∃ b, encode_domain_descriptor d = Ok b.
Proof.
  intros Hwf Hn Hs Hc. eexists. apply encode_domain_descriptor_Ok. split; [by split_and!|]. split; [done|].
  destruct Hwf as (E1 & E2 & E3 & E4 & E5 & _ & _ & _ & E6 & _).
  unfold is_b256, is_address in *.
  unfold tagged_body, domain_descriptor_body, prefixed.
  rewrite zlen_app, zlen_cons, !zlen_app, !zlen_to_be_bytes.
  unfold zlen in *. rewrite E1, E2, E3, E4, E5, E6. cbn. unfold MAX_CANONICAL_OBJECT_BYTES. lia.
Qed.

(** What a prepared creation promises its users. *)
Record prepared_ok (network_id tx_hash joint state_root : bytes) (deposit height : Z)
    (p : PreparedChainCreation) : Prop := {
  po_request : normalize_request (pc_request p) = Ok (pc_request p);
  po_domain_id : dd_domain_id (pc_descriptor p) =
    derive_domain_id network_id (rq_parent_domain_id (pc_request p)) tx_hash;
  po_origin : domain_genesis_hash
      (genesis_of (pc_request p) (dd_domain_id (pc_descriptor p)) joint tx_hash state_root) =
    Ok (dd_origin_hash (pc_descriptor p));
  po_descriptor : ∃ encoded, encode_domain_descriptor (pc_descriptor p) = Ok encoded ∧
    pc_descriptor_hash p = keccak256 encoded;
  po_fields : genesis_of (pc_request p) (dd_domain_id (pc_descriptor p)) joint tx_hash state_root =
    {| dg_domain_id := dd_domain_id (pc_descriptor p);
       dg_parent_domain_id := dd_parent_domain_id (pc_descriptor p);
       dg_joint_domain_block_hash := dd_joint_domain_block_hash (pc_descriptor p);
       dg_create_tx_hash := dd_create_tx_hash (pc_descriptor p);
       dg_name := dd_name (pc_descriptor p);
       dg_symbol := dd_symbol (pc_descriptor p);
       dg_evm_chain_id := dd_evm_chain_id (pc_descriptor p);
       dg_owner := dd_owner (pc_descriptor p);
       dg_protocol_revision := dd_protocol_revision (pc_descriptor p);
       dg_gas_limit := dd_gas_limit (pc_descriptor p);
       dg_initial_base_fee := dd_initial_base_fee (pc_descriptor p);
       dg_initial_supply := dd_initial_supply (pc_descriptor p);
       dg_initial_state_root := state_root |};
  po_status : dd_status (pc_descriptor p) = Active;
  po_deposit : dd_creation_deposit (pc_descriptor p) = deposit ∧ MIN_CREATION_DEPOSIT ≤ deposit;
  po_height : pc_creation_height p = height;
  po_unlock : pc_deposit_unlock_height p = height + CREATION_DEPOSIT_LOCK_BLOCKS ∧
    u64 (pc_deposit_unlock_height p);
}.

Lemma prepare_inv r network_id tx_hash joint state_root deposit height p :
  0 ≤ height →
  prepare_chain_creation r network_id tx_hash joint state_root deposit height = Ok p →
  normalize_request r = Ok (pc_request p) ∧
  prepared_ok network_id tx_hash joint state_root deposit height p.
Proof.
  intros Hh. unfold prepare_chain_creation. intros Hp. ok_inv. apply checked_add_Some in Hok2 as [-> Hlt].
  bool_prop. subst p. split; [done|].
  split; cbn [pc_request pc_descriptor pc_descriptor_hash pc_creation_height pc_deposit_unlock_height
    dd_domain_id dd_origin_hash dd_status dd_creation_deposit]; try done.
  - by eapply normalize_request_idem.
  - eauto.
  - unfold fits, CREATION_DEPOSIT_LOCK_BLOCKS in *. split; [done|lia].
Qed.

(** Preparing a chain creation is deterministic and total on its domain: it
    succeeds exactly when the request normalizes, the deposit reaches the
    minimum and the unlock height does not overflow (no encoding error is
    possible), and what it returns names the domain derived from the network,
    the parent and the transaction, is active, carries the hash of exactly its
    own genesis and descriptor, and unlocks the deposit 100 heights later. *)
Theorem prepare_creation_spec r network_id tx_hash joint state_root deposit height :
  wf_request r → is_b256 network_id → is_b256 tx_hash → is_b256 joint → is_b256 state_root →
  u256 deposit → u64 height →
  (is_ok (prepare_chain_creation r network_id tx_hash joint state_root deposit height) = true ↔
    is_ok (normalize_request r) = true ∧ MIN_CREATION_DEPOSIT ≤ deposit ∧
    height + CREATION_DEPOSIT_LOCK_BLOCKS < 2 ^ 64) ∧
  (∀ p, prepare_chain_creation r network_id tx_hash joint state_root deposit height = Ok p →
    prepared_ok network_id tx_hash joint state_root deposit height p).
Proof.
  intros Hr Hnet Htx Hj Hsr Hdep Hh. split.
  2:{ intros p Hp. apply prepare_inv in Hp as [_ Hp]; [done|apply Hh]. }
  split.
  - destruct (prepare_chain_creation _ _ _ _ _ _ _) as [p| |] eqn:Hp; [|done..]. intros _.
    apply prepare_inv in Hp as [-> Hpo]; [|apply Hh]. destruct Hpo. split; [done|]. split; [tauto|].
    destruct po_unlock0 as [-> [_ Hu]]. done.
  - intros (Hn & Hmin & Hov). destruct (normalize_request r) as [r'| |] eqn:Hnr; [|done..].
    pose proof (normalize_request_inv _ _ Hnr) as ((B1 & B2) & _ & _ & S1 & S2 & _ & Hc & _ & _ & _ & _ & _ & Hw).
    specialize (Hw Hr). destruct Hw as (W1 & W2 & W3 & W4 & W5 & W6 & W7).
    unfold prepare_chain_creation. rewrite Hnr. cbn [obind]. rewrite (proj2 (Z.ltb_ge _ _)) by done.
    cbv zeta. unfold domain_genesis_hash.
    match goal with |- context [encode_domain_genesis ?g] =>
      destruct (encode_genesis_ok g) as [b1 ->]; [|exact B1|exact B2|exact Hc|] end.
    { split_and!; try done. apply keccak256_length. }
    cbn [map_err obind].
    match goal with |- context [encode_domain_descriptor ?d] =>
      destruct (encode_descriptor_ok d) as [b2 ->]; [|exact B1|exact B2|exact Hc|] end.
    { split_and!; try done; apply keccak256_length. }
    cbn [map_err obind]. by rewrite (proj2 (checked_add_Some _ _ _ _) (conj eq_refl Hov)).
Qed.
End results.

(** ** Slots *)

(** What a registry slot is for. *)
Inductive slot_use :=
| SDescriptor (id : DomainId)
| SChainId (chain_id : Z)
| SCreationHeight (id : DomainId)
| SDeposit (id : DomainId)
| SDepositUnlock (id : DomainId)
| SOwner (id : DomainId)
| SDepositStatus (id : DomainId).

Definition wf_slot_use (u : slot_use) : Prop :=
  match u with
  | SChainId c => u64 c
  | SDescriptor id | SCreationHeight id | SDeposit id | SDepositUnlock id | SOwner id
  | SDepositStatus id => is_b256 id
  end.

Definition slot_preimage (u : slot_use) : bytes :=
  match u with
  | SDescriptor id => REGISTRY_DESCRIPTOR_TAG ++ id
  | SChainId c => REGISTRY_CHAIN_ID_TAG ++ of_u64 c
  | SCreationHeight id => REGISTRY_CREATION_HEIGHT_TAG ++ id
  | SDeposit id => REGISTRY_DEPOSIT_TAG ++ id
  | SDepositUnlock id => REGISTRY_DEPOSIT_UNLOCK_TAG ++ id
  | SOwner id => REGISTRY_OWNER_TAG ++ id
  | SDepositStatus id => REGISTRY_DEPOSIT_STATUS_TAG ++ id
  end.

Lemma slot_preimage_inj u1 u2 :
  wf_slot_use u1 → wf_slot_use u2 → slot_preimage u1 = slot_preimage u2 → u1 = u2.
Proof.
  intros W1 W2. destruct u1, u2; cbn [slot_preimage]; intros E;
    try (apply app_inv_head in E; f_equal; done);
    try (apply (f_equal (take 30)) in E; lazy in E; discriminate E).
  apply app_inv_head in E. f_equal. by apply (to_be_bytes_inj 8) in E.
Qed.

Section slots.
Context `{Keccak}.

Definition slot_of (u : slot_use) : Z :=
  match u with
  | SDescriptor id => descriptor_slot id
  | SChainId c => chain_id_slot c
  | SCreationHeight id => creation_height_slot id
  | SDeposit id => deposit_slot id
  | SDepositUnlock id => deposit_unlock_slot id
  | SOwner id => owner_slot id
  | SDepositStatus id => deposit_status_slot id
  end.

Lemma slot_of_preimage u : slot_of u = from_be_bytes (keccak256 (slot_preimage u)).
Proof. by destruct u. Qed.

Lemma from_be_bytes_inj a b : length a = length b → from_be_bytes a = from_be_bytes b → a = b.
Proof.
  intros Hl E. rewrite <-(to_from_be_bytes a (length a)), <-(to_from_be_bytes b (length b)) by done.
  by rewrite Hl, E.
Qed.

Lemma slot_of_inj u1 u2 :
  wf_slot_use u1 → wf_slot_use u2 → slot_of u1 = slot_of u2 →
  u1 = u2 ∨ (slot_preimage u1 ≠ slot_preimage u2 ∧
             keccak256 (slot_preimage u1) = keccak256 (slot_preimage u2)).
Proof.
  intros W1 W2. rewrite !slot_of_preimage. intros E%from_be_bytes_inj.
  2:{ by rewrite !keccak256_length. }
  destruct (decide (slot_preimage u1 = slot_preimage u2)) as [Ep|Ep]; [|by right].
  left. by apply slot_preimage_inj.
Qed.

(** The registry's storage layout has no overlaps: two slots that serve
    different purposes, or the same purpose for different domains or chain IDs,
    are different, unless their two tagged preimages are a hash collision. *)
Theorem registry_slots_separated u1 u2 :
  wf_slot_use u1 → wf_slot_use u2 → u1 ≠ u2 →
  slot_of u1 ≠ slot_of u2 ∨
  (slot_preimage u1 ≠ slot_preimage u2 ∧
   keccak256 (slot_preimage u1) = keccak256 (slot_preimage u2)).
Proof.
  intros W1 W2 Hne. destruct (decide (slot_of u1 = slot_of u2)) as [E|]; [|by left].
  apply slot_of_inj in E as [|]; [done|by right|done|done].
Qed.
End slots.

Module SystemWitness.
#[local] Existing Instance Toy.toy_keccak.

Definition demo : CreateChainRequest :=
  {| rq_parent_domain_id := repeat_byte 32 17; rq_name := bstr " Demo   Child ";
     rq_symbol := bstr "dmo"; rq_evm_chain_id := 2049; rq_owner := repeat_byte 20 170;
     rq_gas_limit := 20000000; rq_initial_base_fee := 10; rq_initial_supply := 1000;
     rq_protocol_revision := 1 |}.

Lemma prepare_creation_spec_witness :
  (is_ok (prepare_chain_creation demo (repeat_byte 32 1) (repeat_byte 32 2) (repeat_byte 32 3)
            (repeat_byte 32 4) MIN_CREATION_DEPOSIT 7) = true ↔
    is_ok (normalize_request demo) = true ∧ MIN_CREATION_DEPOSIT ≤ MIN_CREATION_DEPOSIT ∧
    7 + CREATION_DEPOSIT_LOCK_BLOCKS < 2 ^ 64) ∧
  (∀ p, prepare_chain_creation demo (repeat_byte 32 1) (repeat_byte 32 2) (repeat_byte 32 3)
          (repeat_byte 32 4) MIN_CREATION_DEPOSIT 7 = Ok p →
    prepared_ok (repeat_byte 32 1) (repeat_byte 32 2) (repeat_byte 32 3) (repeat_byte 32 4)
      MIN_CREATION_DEPOSIT 7 p).
Proof. apply prepare_creation_spec; by_evaluation. Defined.

Lemma registry_slots_separated_witness :
  slot_of (SDeposit (repeat_byte 32 1)) ≠ slot_of (SDeposit (repeat_byte 32 2)) ∨
  (slot_preimage (SDeposit (repeat_byte 32 1)) ≠ slot_preimage (SDeposit (repeat_byte 32 2)) ∧
   keccak256 (slot_preimage (SDeposit (repeat_byte 32 1))) =
   keccak256 (slot_preimage (SDeposit (repeat_byte 32 2)))).
Proof. apply registry_slots_separated; [by_evaluation..|]. intros E. by vm_compute in E. Defined.
End SystemWitness.
