(* ===== verification/Registry.v ===== *)
(** The native system contracts as precompiles of the EVM: [protocolInfo] and
    the root-only [ChainRegistry] with its creation deposits
    (src/crates/arbor-evm/src/execute.rs).

    The EVM's journal is a parameter: [Journal] has the calls the contracts
    make, [JournalLaws] what revm documents about them.

    Main results: no call panics; every accepted call is one step of the deposit
    life cycle, which releases a deposit at most once, to its owner after the
    unlock height or by governance; outstanding deposits are always covered by
    the registry's balance. *)

From Stdlib Require Import Strings.Byte.
From stdpp Require Import relations.
From S2P Require Import Prelude Bytes BTreeMap Primitives Canonical Crypto System.

Local Open Scope Z_scope.

(** revm's journal: storage reads and writes and transfers fail on a database
    error ([None]); a transfer reports an error of its own ([true]), such as an
    insufficient balance. *)
Class Journal := {
  journal : Type;
  j_sload : journal → bytes → Z → option (Z * journal);
  j_sstore : journal → bytes → Z → Z → option journal;
  j_transfer : journal → bytes → bytes → Z → option (bool * journal);
  j_log : journal → Log → journal;
}.

(** What a journal holds, and what the calls do to it. *)
Class JournalLaws `{Journal} := {
  slot_at : journal → bytes → Z → Z;
  balance_at : journal → bytes → Z;
  sload_spec : ∀ j a s v j', j_sload j a s = Some (v, j') →
    v = slot_at j a s ∧ (∀ a s, slot_at j' a s = slot_at j a s) ∧
    (∀ a, balance_at j' a = balance_at j a);
  sstore_spec : ∀ j a s v j', j_sstore j a s v = Some j' →
    (∀ a' s', slot_at j' a' s' =
      if bool_decide (a' = a) && (s' =? s) then v else slot_at j a' s') ∧
    (∀ a, balance_at j' a = balance_at j a);
  transfer_spec : ∀ j a b v e j', j_transfer j a b v = Some (e, j') →
    (∀ a s, slot_at j' a s = slot_at j a s) ∧
    if (e : bool) then ∀ c, balance_at j' c = balance_at j c
    else v ≤ balance_at j a ∧
      ∀ c, balance_at j' c = balance_at j c - (if bool_decide (c = a) then v else 0)
                                            + (if bool_decide (c = b) then v else 0);
  log_spec : ∀ j l, (∀ a s, slot_at (j_log j l) a s = slot_at j a s) ∧
    (∀ a, balance_at (j_log j l) a = balance_at j a);
}.

(** The fields of revm's [CallInputs] the contracts read; [ci_transfer_value]
    is [transfer_value()], present when the call moves value. *)
Record CallInputs := {
  ci_bytecode_address : bytes;
  ci_caller : bytes;
  ci_is_static : bool;
  ci_transfer_value : option Z;
  ci_input : bytes;
  ci_reservoir : Z;
  ci_gas_limit : Z;
}.

Definition transfers_value (inputs : CallInputs) : bool :=
  match ci_transfer_value inputs with Some v => 0 <? v | None => false end.

Record PrecompileOutput := {
  out_gas : Z;
  out_bytes : bytes;
  out_reverted : bool;
  out_reservoir : Z;
}.

(** What is handed to [precompile_output_to_interpreter_result]. *)
Notation call_result := (PrecompileOutput * Z)%type.

Definition finished (gas : Z) (b : bytes) (inputs : CallInputs) : call_result :=
  ({| out_gas := gas; out_bytes := b; out_reverted := false; out_reservoir := ci_reservoir inputs |},
   ci_gas_limit inputs).

Definition reverted (gas : Z) (message : bytes) (inputs : CallInputs) : call_result :=
  ({| out_gas := gas; out_bytes := message; out_reverted := true;
      out_reservoir := ci_reservoir inputs |}, ci_gas_limit inputs).

Definition registry_revert (inputs : CallInputs) (message : string) : call_result :=
  reverted CHAIN_REGISTRY_CREATE_GAS (bstr message) inputs.

(** [Shanghai as u8]. *)
Definition EVM_REVISION_SHANGHAI : Z := 1.

Section precompiles.
Context `{Keccak, Journal}.

(** A call returns its result and the journal, or a fatal error. *)
Notation registry_call := (outcome string (call_result * journal)).

Definition sload (j : journal) (slot : Z) (error : string) : outcome string (Z * journal) :=
  ok_or (j_sload j CHAIN_REGISTRY_ADDRESS slot) error.

Definition sstore (j : journal) (slot value : Z) (error : string) : outcome string journal :=
  ok_or (j_sstore j CHAIN_REGISTRY_ADDRESS slot value) error.

Definition run_protocol_info (protocol_revision chain_id : Z) (inputs : CallInputs) : call_result :=
  if bool_decide (ci_input inputs = protocol_info_selector) && negb (transfers_value inputs)
  then finished PROTOCOL_INFO_GAS
         (encode_protocol_info protocol_revision EVM_REVISION_SHANGHAI chain_id) inputs
  else reverted PROTOCOL_INFO_GAS (bstr "invalid protocolInfo call") inputs.

Definition chain_created_log (p : PreparedChainCreation) : Log :=
  let d := pc_descriptor p in
  {| log_address := CHAIN_REGISTRY_ADDRESS;
     log_topics := [keccak256 (bstr "ChainCreated(bytes32,bytes32,uint64,address,uint256,uint64)");
                    dd_domain_id d];
     log_data := dd_parent_domain_id d ++ put_word_u64 (dd_evm_chain_id d) ++
                 (repeat x00 12 ++ dd_owner d) ++ of_u256 (dd_creation_deposit d) ++
                 put_word_u64 (pc_deposit_unlock_height p) |}.

(** One write of the storage loop of [run_create_chain]. *)
Definition store_write (j : journal) (w : Z * Z) : outcome string journal :=
  sstore j w.1 w.2 "ChainRegistry storage update failed".

Definition run_create_chain (j : journal) (inputs : CallInputs) (runtime : ChainRegistryRuntime)
    (calldata : bytes) : registry_call :=
  match rt_prepared_creation runtime with
  | None => Ok (registry_revert inputs "invalid createChain call", j)
  | Some prepared =>
      let d := pc_descriptor prepared in
      let? expected :=
        if ci_is_static inputs then Ok []
        else
          match encode_create_chain_call (pc_request prepared) with
          | Ok b => Ok b
          | _ => Panic "prepared ChainRegistry request is valid"
          end in
      if ci_is_static inputs || negb (bool_decide (calldata = expected)) ||
         negb (bool_decide (ci_transfer_value inputs = Some (dd_creation_deposit d)))
      then Ok (registry_revert inputs "invalid createChain call", j)
      else
        let? '(parent, j) :=
          sload j (descriptor_slot (dd_parent_domain_id d)) "ChainRegistry parent lookup failed" in
        if parent =? 0 then Ok (registry_revert inputs "unknown parent domain", j)
        else
          let? '(domain, j) :=
            sload j (descriptor_slot (dd_domain_id d)) "ChainRegistry domain lookup failed" in
          if negb (domain =? 0) then Ok (registry_revert inputs "domain already exists", j)
          else
            let? '(chain_id, j) :=
              sload j (chain_id_slot (dd_evm_chain_id d)) "ChainRegistry chain ID lookup failed" in
            if negb (chain_id =? 0) then Ok (registry_revert inputs "EVM chain ID already exists", j)
            else
              let? j := for_each store_write j (creation_storage_writes prepared) in
              Ok (finished CHAIN_REGISTRY_CREATE_GAS (dd_domain_id d) inputs,
                  j_log j (chain_created_log prepared))
  end.

(** Who is paid, the next status and the event; the call reverts on a message. *)
Definition authorize_release (j : journal) (inputs : CallInputs) (runtime : ChainRegistryRuntime)
    (domain_id : DomainId) (burn : bool)
    : outcome string ((string + bytes * CreationDepositStatus * bytes) * journal) :=
  if burn then
    if negb (bool_decide (ci_caller inputs = rt_governance_address runtime))
    then Ok (inl "unauthorized deposit burn", j)
    else Ok (inr (ADDRESS_ZERO, Burned,
                  keccak256 (bstr "CreationDepositBurned(bytes32,uint256,address)")), j)
  else
    let? '(unlock_height, j) :=
      sload j (deposit_unlock_slot domain_id) "ChainRegistry unlock-height lookup failed" in
    if rt_consensus_height runtime <? unlock_height then Ok (inl "deposit remains locked", j)
    else
      let? '(owner_word, j) := sload j (owner_slot domain_id) "ChainRegistry owner lookup failed" in
      let owner := drop 12 (of_u256 owner_word) in
      if negb (bool_decide (ci_caller inputs = owner)) then Ok (inl "deposit refund requires owner", j)
      else Ok (inr (owner, Refunded,
                    keccak256 (bstr "CreationDepositRefunded(bytes32,uint256,address)")), j).

Definition run_deposit_lifecycle (j : journal) (inputs : CallInputs)
    (runtime : ChainRegistryRuntime) (domain_id : DomainId) (burn : bool) : registry_call :=
  if ci_is_static inputs || transfers_value inputs
  then Ok (registry_revert inputs "invalid deposit lifecycle call", j)
  else
    let? '(status, j) :=
      sload j (deposit_status_slot domain_id) "ChainRegistry deposit status lookup failed" in
    if negb (status =? deposit_status_u8 Locked) then Ok (registry_revert inputs "deposit is not locked", j)
    else
      let? '(deposit, j) := sload j (deposit_slot domain_id) "ChainRegistry deposit lookup failed" in
      if deposit =? 0 then Ok (registry_revert inputs "deposit does not exist", j)
      else
        let? '(release, j) := authorize_release j inputs runtime domain_id burn in
        match release with
        | inl message => Ok (registry_revert inputs message, j)
        | inr (recipient, next_status, event) =>
            let? '(transfer_error, j) :=
              ok_or (j_transfer j CHAIN_REGISTRY_ADDRESS recipient deposit)
                "ChainRegistry deposit transfer failed" in
            if (transfer_error : bool)
            then Ok (registry_revert inputs "registry deposit balance unavailable", j)
            else
              let? j := sstore j (deposit_slot domain_id) 0 "ChainRegistry deposit update failed" in
              let? j :=
                sstore j (deposit_status_slot domain_id) (deposit_status_u8 next_status)
                  "ChainRegistry deposit status update failed" in
              let log :=
                {| log_address := CHAIN_REGISTRY_ADDRESS;
                   log_topics := [event; domain_id];
                   log_data := of_u256 deposit ++ (repeat x00 12 ++ ci_caller inputs) |} in
              Ok (finished CHAIN_REGISTRY_DEPOSIT_GAS domain_id inputs, j_log j log)
        end.

Definition run_chain_registry (registry : option ChainRegistryRuntime) (j : journal)
    (inputs : CallInputs) : registry_call :=
  match registry with
  | None => Ok (registry_revert inputs "ChainRegistry unavailable", j)
  | Some runtime =>
      if negb (bool_decide (rt_executing_domain_id runtime = rt_root_domain_id runtime))
      then Ok (registry_revert inputs "ChainRegistry is root-only", j)
      else
        let calldata := ci_input inputs in
        if starts_with create_chain_selector calldata
        then run_create_chain j inputs runtime calldata
        else
          match decode_refund_deposit_call calldata with
          | Some domain_id => run_deposit_lifecycle j inputs runtime domain_id false
          | None =>
              match decode_burn_deposit_call calldata with
              | Some domain_id => run_deposit_lifecycle j inputs runtime domain_id true
              | None => Ok (registry_revert inputs "unknown ChainRegistry call", j)
              end
          end
  end.

(** [PrecompileProvider::run]: the two native contracts, then Ethereum's own
    precompiles, which are revm's. *)
Definition run_precompile
    (ethereum : journal → CallInputs → outcome string (option call_result * journal))
    (protocol_revision chain_id : Z) (registry : option ChainRegistryRuntime)
    (j : journal) (inputs : CallInputs) : outcome string (option call_result * journal) :=
  if bool_decide (ci_bytecode_address inputs = PROTOCOL_INFO_ADDRESS)
  then Ok (Some (run_protocol_info protocol_revision chain_id inputs), j)
  else if bool_decide (ci_bytecode_address inputs = CHAIN_REGISTRY_ADDRESS) then
    let? '(r, j) := run_chain_registry registry j inputs in
    Ok (Some r, j)
  else ethereum j inputs.
End precompiles.

(** ** What an accepted call did *)

Definition accepted (r : call_result) : Prop := out_reverted r.1 = false.

Section calls.
Context `{Keccak, Journal, !JournalLaws}.

(** The registry's storage. *)
Definition reg (j : journal) (u : slot_use) : Z := slot_at j CHAIN_REGISTRY_ADDRESS (slot_of u).

(** The balance of the registry. *)
Definition funds (j : journal) : Z := balance_at j CHAIN_REGISTRY_ADDRESS.

(** Two journals hold the same storage and balances. *)
Definition same (j j' : journal) : Prop :=
  (∀ a s, slot_at j' a s = slot_at j a s) ∧ (∀ a, balance_at j' a = balance_at j a).

Lemma same_refl j : same j j.
Proof. by split. Qed.

Lemma same_trans j1 j2 j3 : same j1 j2 → same j2 j3 → same j1 j3.
Proof. intros [S1 B1] [S2 B2]. split; intros; [by rewrite S2, S1|by rewrite B2, B1]. Qed.

Lemma same_reg j j' u : same j j' → reg j' u = reg j u.
Proof. intros [Hs _]. apply Hs. Qed.

Lemma same_funds j j' : same j j' → funds j' = funds j.
Proof. intros [_ Hb]. apply Hb. Qed.

Lemma sload_Ok j u e v j' : sload j (slot_of u) e = Ok (v, j') → v = reg j u ∧ same j j'.
Proof. unfold sload. intros Hs%ok_or_Ok. apply sload_spec in Hs as (-> & Hs & Hb). by split. Qed.

Lemma log_same j l : same j (j_log j l).
Proof. apply log_spec. Qed.

(** The storage after a list of writes, the last one to a slot winning. *)
Definition written (ws : list (Z * Z)) (s : Z) (old : Z) : Z :=
  foldl (λ v w, if s =? w.1 then w.2 else v) old ws.

Lemma store_writes_spec ws j j' :
  for_each store_write j ws = Ok j' →
  (∀ s, slot_at j' CHAIN_REGISTRY_ADDRESS s = written ws s (slot_at j CHAIN_REGISTRY_ADDRESS s)) ∧
  (∀ a, balance_at j' a = balance_at j a).
Proof.
  revert j. induction ws as [|w ws IH]; intros j Hw; cbn [for_each] in Hw.
  { injection Hw as ->. done. }
  apply obind_Ok in Hw as (j1 & Hs & Hw). apply IH in Hw as [IHs IHb].
  unfold store_write, sstore in Hs. apply ok_or_Ok, sstore_spec in Hs as [Hs Hb].
  split; [|intros a; by rewrite IHb, Hb]. intros s. rewrite IHs, Hs. cbn [written foldl].
  by rewrite bool_decide_true by done.
Qed.

Lemma create_accepted j inputs rt calldata r j' :
  run_create_chain j inputs rt calldata = Ok (r, j') → accepted r →
  ∃ p, rt_prepared_creation rt = Some p ∧
    encode_create_chain_call (pc_request p) = Ok calldata ∧
    ci_transfer_value inputs = Some (dd_creation_deposit (pc_descriptor p)) ∧
    reg j (SDescriptor (dd_parent_domain_id (pc_descriptor p))) ≠ 0 ∧
    reg j (SDescriptor (dd_domain_id (pc_descriptor p))) = 0 ∧
    reg j (SChainId (dd_evm_chain_id (pc_descriptor p))) = 0 ∧
    (∀ u, reg j' u = written (creation_storage_writes p) (slot_of u) (reg j u)) ∧
    ∀ a, balance_at j' a = balance_at j a.
Proof.
  unfold run_create_chain. destruct (rt_prepared_creation rt) as [p|]; [|by intros [= <- _]].
  intros Hr Hacc. exists p. split; [done|]. destruct (ci_is_static inputs) eqn:Hst.
  { cbn in Hr. by injection Hr as <- _. }
  apply obind_Ok in Hr as (expected & He & Hr). cbn [orb] in Hr.
  destruct (encode_create_chain_call (pc_request p)) as [b| |]; try done. injection He as ->.
  destruct (_ || _) eqn:Hg; [injection Hr as <- _; done|]. bool_prop. subst calldata.
  apply obind_Ok in Hr as ([v1 j1] & [-> S1]%(sload_Ok _ (SDescriptor _)) & Hr).
  destruct (Z.eqb_spec (reg j (SDescriptor (dd_parent_domain_id (pc_descriptor p)))) 0) as [|Hp];
    [injection Hr as <- _; done|].
  apply obind_Ok in Hr as ([v2 j2] & [-> S2]%(sload_Ok _ (SDescriptor _)) & Hr).
  destruct (Z.eqb_spec (reg j1 (SDescriptor (dd_domain_id (pc_descriptor p)))) 0) as [Hd|];
    [|injection Hr as <- _; done].
  apply obind_Ok in Hr as ([v3 j3] & [-> S3]%(sload_Ok _ (SChainId _)) & Hr). cbn [negb] in Hr.
  destruct (Z.eqb_spec (reg j2 (SChainId (dd_evm_chain_id (pc_descriptor p)))) 0) as [Hc|];
    [|injection Hr as <- _; done]. cbn [negb] in Hr.
  apply obind_Ok in Hr as (j4 & [W4 B4]%store_writes_spec & Hr). injection Hr as <- <-.
  pose proof (same_trans _ _ _ S1 S2) as S12. pose proof (same_trans _ _ _ S12 S3) as S13.
  rewrite (same_reg _ _ _ S1) in Hd. rewrite (same_reg _ _ _ S12) in Hc.
  split_and!; try done.
  - intros u. rewrite (same_reg _ _ _ (log_same _ _)). unfold reg at 1. rewrite W4.
    fold (reg j3 u). by rewrite (same_reg _ _ _ S13).
  - intros a. by rewrite (proj2 (log_same _ _)), B4, (proj2 S13).
Qed.

(** Who may release a deposit. *)
Definition may_release (j : journal) (inputs : CallInputs) (rt : ChainRegistryRuntime) (id : DomainId)
    (burn : bool) (recipient : bytes) (next : CreationDepositStatus) : Prop :=
  if burn then
    ci_caller inputs = rt_governance_address rt ∧ recipient = ADDRESS_ZERO ∧ next = Burned
  else
    reg j (SDepositUnlock id) ≤ rt_consensus_height rt ∧
    ci_caller inputs = drop 12 (of_u256 (reg j (SOwner id))) ∧ recipient = ci_caller inputs ∧
    next = Refunded.

Lemma authorize_release_inr j inputs rt id burn recipient next event j' :
  authorize_release j inputs rt id burn = Ok (inr (recipient, next, event), j') →
  may_release j inputs rt id burn recipient next ∧ same j j'.
Proof.
  unfold authorize_release, may_release. destruct burn.
  - case_bool_decide as Hc; cbn [negb]; [|done]. intros [= <- <- <- <-]. by split; [|apply same_refl].
  - intros Hr. apply obind_Ok in Hr as ([v1 j1] & [-> S1]%(sload_Ok _ (SDepositUnlock _)) & Hr).
    destruct (Z.ltb_spec (rt_consensus_height rt) (reg j (SDepositUnlock id))); [done|].
    apply obind_Ok in Hr as ([v2 j2] & [-> S2]%(sload_Ok _ (SOwner _)) & Hr).
    rewrite (same_reg _ _ _ S1) in Hr. case_bool_decide as Hc; cbn [negb] in Hr; [|done].
    injection Hr as <- <- _ <-. split; [by split_and!|by eapply same_trans].
Qed.

Lemma release_accepted j inputs rt id burn r j' :
  run_deposit_lifecycle j inputs rt id burn = Ok (r, j') → accepted r →
  ∃ recipient next,
    reg j (SDepositStatus id) = 1 ∧ reg j (SDeposit id) ≠ 0 ∧ transfers_value inputs = false ∧
    may_release j inputs rt id burn recipient next ∧
    reg j (SDeposit id) ≤ funds j ∧
    (∀ a, balance_at j' a = balance_at j a
       - (if bool_decide (a = CHAIN_REGISTRY_ADDRESS) then reg j (SDeposit id) else 0)
       + (if bool_decide (a = recipient) then reg j (SDeposit id) else 0)) ∧
    (∀ u, reg j' u =
      written [(deposit_slot id, 0); (deposit_status_slot id, deposit_status_u8 next)]
        (slot_of u) (reg j u)).
Proof.
  unfold run_deposit_lifecycle. intros Hr Hacc.
  destruct (_ || _) eqn:Hg; [injection Hr as <- _; done|]. apply orb_false_iff in Hg as [_ Hv].
  apply obind_Ok in Hr as ([v1 j1] & [-> S1]%(sload_Ok _ (SDepositStatus _)) & Hr).
  destruct (Z.eqb_spec (reg j (SDepositStatus id)) (deposit_status_u8 Locked)) as [Hs|];
    [|injection Hr as <- _; done]. cbn [negb] in Hr.
  apply obind_Ok in Hr as ([v2 j2] & [-> S2]%(sload_Ok _ (SDeposit _)) & Hr).
  rewrite (same_reg _ _ _ S1) in Hr.
  destruct (Z.eqb_spec (reg j (SDeposit id)) 0) as [|Hd]; [injection Hr as <- _; done|].
  apply obind_Ok in Hr as ([[message|[[recipient next] event]] j3] & Ha & Hr);
    [injection Hr as <- _; done|].
  pose proof (same_trans _ _ _ S1 S2) as S12.
  apply authorize_release_inr in Ha as [Hm S3]. pose proof (same_trans _ _ _ S12 S3) as S13.
  apply obind_Ok in Hr as ([e j4] & Ht%ok_or_Ok & Hr). apply transfer_spec in Ht as [T4 B4].
  destruct e; [injection Hr as <- _; done|]. destruct B4 as [Hfunds B4].
  apply obind_Ok in Hr as (j5 & H5 & Hr). apply ok_or_Ok, sstore_spec in H5 as [T5 B5].
  apply obind_Ok in Hr as (j6 & H6 & Hr). apply ok_or_Ok, sstore_spec in H6 as [T6 B6].
  injection Hr as <- <-. exists recipient, next. split_and!; try done.
  - unfold may_release in *. destruct burn; [done|].
    by rewrite !(same_reg _ _ _ S12) in Hm.
  - fold (funds j3) in Hfunds. by rewrite (same_funds _ _ S13) in Hfunds.
  - intros a. rewrite (proj2 (log_same _ _)), B6, B5, B4. by rewrite (proj2 S13).
  - intros u. rewrite (same_reg _ _ _ (log_same _ _)). unfold reg at 1.
    rewrite T6, T5, T4, (proj1 S13), !bool_decide_true by done. done.
Qed.
End calls.

(** ** The registry as a state machine *)

#[export] Instance slot_use_eq_dec : EqDecision slot_use.
Proof. solve_decision. Defined.

Section machine.
Context `{Keccak, Journal, !JournalLaws}.

(** The domains and chain IDs the registry is used with. *)
Context (ids : list DomainId) (chains : list Z).

Definition known (u : slot_use) : Prop :=
  match u with
  | SChainId c => c ∈ chains
  | SDescriptor id | SCreationHeight id | SDeposit id | SDepositUnlock id | SOwner id
  | SDepositStatus id => id ∈ ids
  end.

(** The call's inputs as the executor supplies them: only known domains and chain
    IDs, and a prepared creation that [prepare_chain_creation] returned for the height
    of the call, whose descriptor hash is not the all-zero word. The registry itself
    calls nobody. *)
Definition inputs_ok (rt : ChainRegistryRuntime) (inputs : CallInputs) : Prop :=
  (∀ p, rt_prepared_creation rt = Some p →
    (∃ request network_id tx_hash joint state_root deposit,
      prepare_chain_creation request network_id tx_hash joint state_root deposit (rt_consensus_height rt) = Ok p) ∧
    is_address (dd_owner (pc_descriptor p)) ∧
    dd_domain_id (pc_descriptor p) ∈ ids ∧ dd_evm_chain_id (pc_descriptor p) ∈ chains ∧
    from_be_bytes (pc_descriptor_hash p) ≠ 0) ∧
  0 ≤ rt_consensus_height rt ∧ ci_caller inputs ≠ CHAIN_REGISTRY_ADDRESS ∧
  0 ≤ default 0 (ci_transfer_value inputs) ∧
  (∀ id, decode_refund_deposit_call (ci_input inputs) = Some id → id ∈ ids) ∧
  (∀ id, decode_burn_deposit_call (ci_input inputs) = Some id → id ∈ ids).

(** The balances after an amount has moved. *)
Definition moved (j j' : journal) (from to : bytes) (amount : Z) : Prop :=
  ∀ a, balance_at j' a =
    balance_at j a - (if bool_decide (a = from) then amount else 0) + (if bool_decide (a = to) then amount else 0).

(** One step of the root domain's state: an accepted registry call, before which the
    EVM has moved the value of the call from the caller to the registry, or any other
    activity, which neither writes the registry's storage nor takes its funds. *)
Inductive registry_step (j j' : journal) : option (ChainRegistryRuntime * CallInputs) → Prop :=
| step_call j0 rt inputs r :
    (∀ u, reg j0 u = reg j u) →
    moved j j0 (ci_caller inputs) CHAIN_REGISTRY_ADDRESS (default 0 (ci_transfer_value inputs)) →
    inputs_ok rt inputs →
    run_chain_registry (Some rt) j0 inputs = Ok (r, j') → accepted r →
    registry_step j j' (Some (rt, inputs))
| step_other :
    (∀ u, reg j' u = reg j u) → funds j ≤ funds j' → registry_step j j' None.

Definition registry_moves (j j' : journal) : Prop := ∃ l, registry_step j j' l.

Record registry_inv (j : journal) : Prop := {
  ri_status : ∀ id, id ∈ ids → 0 ≤ reg j (SDepositStatus id) ≤ 3;
  ri_created : ∀ id, id ∈ ids → reg j (SDepositStatus id) ≠ 0 → reg j (SDescriptor id) ≠ 0;
  ri_locked : ∀ id, id ∈ ids → reg j (SDepositStatus id) = 1 →
    MIN_CREATION_DEPOSIT ≤ reg j (SDeposit id);
  ri_closed : ∀ id, id ∈ ids → reg j (SDepositStatus id) ≠ 1 → reg j (SDeposit id) = 0;
  ri_solvent : zsum (λ id, reg j (SDeposit id)) ids ≤ funds j;
}.

Hypothesis slots_free : ∀ u1 u2, known u1 → known u2 → slot_of u1 = slot_of u2 → u1 = u2.
Hypothesis ids_distinct : NoDup ids.

Lemma slot_eqb u1 u2 : known u1 → known u2 → (slot_of u1 =? slot_of u2) = bool_decide (u1 = u2).
Proof.
  intros K1 K2. case_bool_decide as E; [by subst; apply Z.eqb_refl|].
  apply Z.eqb_neq. intros Hs. by apply E, slots_free.
Qed.

(** The effect of a creation on each slot. *)
Definition created (p : PreparedChainCreation) (u : slot_use) (old : Z) : Z :=
  let d := pc_descriptor p in
  match u with
  | SDescriptor id => if bool_decide (id = dd_domain_id d) then from_be_bytes (pc_descriptor_hash p) else old
  | SChainId c => if c =? dd_evm_chain_id d then from_be_bytes (dd_domain_id d) else old
  | SCreationHeight id => if bool_decide (id = dd_domain_id d) then pc_creation_height p else old
  | SDeposit id => if bool_decide (id = dd_domain_id d) then dd_creation_deposit d else old
  | SDepositUnlock id =>
      if bool_decide (id = dd_domain_id d) then pc_deposit_unlock_height p else old
  | SOwner id => if bool_decide (id = dd_domain_id d) then from_be_bytes (dd_owner d) else old
  | SDepositStatus id => if bool_decide (id = dd_domain_id d) then 1 else old
  end.

Lemma creation_writes p u old :
  dd_domain_id (pc_descriptor p) ∈ ids → dd_evm_chain_id (pc_descriptor p) ∈ chains → known u →
  written (creation_storage_writes p) (slot_of u) old = created p u old.
Proof.
  intros Hid Hc Hu. unfold creation_storage_writes, written. cbn [foldl fst snd].
  set (id := dd_domain_id _) in *. set (c := dd_evm_chain_id _) in *.
  change (descriptor_slot id) with (slot_of (SDescriptor id)).
  change (chain_id_slot c) with (slot_of (SChainId c)).
  change (creation_height_slot id) with (slot_of (SCreationHeight id)).
  change (deposit_slot id) with (slot_of (SDeposit id)).
  change (deposit_unlock_slot id) with (slot_of (SDepositUnlock id)).
  change (owner_slot id) with (slot_of (SOwner id)).
  change (deposit_status_slot id) with (slot_of (SDepositStatus id)).
  rewrite !slot_eqb by done. destruct u; cbn [created]; fold id; fold c;
    try destruct (Z.eqb_spec chain_id c); repeat case_bool_decide; by simplify_eq.
Qed.

(** The effect of a release on each slot. *)
Definition released (id : DomainId) (next : CreationDepositStatus) (u : slot_use) (old : Z) : Z :=
  match u with
  | SDeposit id' => if bool_decide (id' = id) then 0 else old
  | SDepositStatus id' => if bool_decide (id' = id) then deposit_status_u8 next else old
  | _ => old
  end.

Lemma release_writes id u next old :
  id ∈ ids → known u →
  written [(deposit_slot id, 0); (deposit_status_slot id, deposit_status_u8 next)] (slot_of u) old =
    released id next u old.
Proof.
  intros Hid Hu. unfold written. cbn [foldl fst snd].
  change (deposit_slot id) with (slot_of (SDeposit id)).
  change (deposit_status_slot id) with (slot_of (SDepositStatus id)).
  rewrite !slot_eqb by done. destruct u; cbn [released]; repeat case_bool_decide; by simplify_eq.
Qed.

(** What a step does to a domain. It leaves status, deposit, owner and unlock height
    alone; or it creates the domain: the deposit is the value of the call and at least
    the minimum, the owner is the one of the prepared descriptor and the unlock height
    lies the locking period ahead; or it releases the deposit in full, to the owner who
    calls at or after the unlock height, or to the zero address if governance calls. *)
Definition life_step (j j' : journal) (l : option (ChainRegistryRuntime * CallInputs)) (id : DomainId)
    : Prop :=
  let s := reg j (SDepositStatus id) in
  let s' := reg j' (SDepositStatus id) in
  let d := reg j (SDeposit id) in
  let d' := reg j' (SDeposit id) in
  let owner := reg j (SOwner id) in
  let unlock := reg j (SDepositUnlock id) in
  let kept := reg j' (SOwner id) = owner ∧ reg j' (SDepositUnlock id) = unlock in
  (s' = s ∧ d' = d ∧ kept) ∨
  (s = 0 ∧ s' = 1 ∧ MIN_CREATION_DEPOSIT ≤ d' ∧
   ∃ rt inputs p, l = Some (rt, inputs) ∧ rt_prepared_creation rt = Some p ∧ dd_domain_id (pc_descriptor p) = id ∧
     ci_transfer_value inputs = Some d' ∧ moved j j' (ci_caller inputs) CHAIN_REGISTRY_ADDRESS d' ∧
     drop 12 (of_u256 (reg j' (SOwner id))) = dd_owner (pc_descriptor p) ∧
     reg j' (SDepositUnlock id) = rt_consensus_height rt + CREATION_DEPOSIT_LOCK_BLOCKS) ∨
  (s = 1 ∧ d' = 0 ∧ MIN_CREATION_DEPOSIT ≤ d ∧ kept ∧
   ∃ rt inputs recipient, l = Some (rt, inputs) ∧ moved j j' CHAIN_REGISTRY_ADDRESS recipient d ∧
     ((s' = 2 ∧ recipient = drop 12 (of_u256 owner) ∧ ci_caller inputs = recipient ∧
       unlock ≤ rt_consensus_height rt) ∨
      (s' = 3 ∧ recipient = ADDRESS_ZERO ∧ ci_caller inputs = rt_governance_address rt))).

Lemma owner_word owner : is_address owner → drop 12 (of_u256 (from_be_bytes owner)) = owner.
Proof. intros Ho. exact (to_from_be_bytes owner 20 Ho). Qed.

(** What a registry call does, in terms of the state before the EVM moved the
    call's value. *)
Lemma registry_call_cases j j0 rt inputs r j' :
  (∀ u, reg j0 u = reg j u) →
  moved j j0 (ci_caller inputs) CHAIN_REGISTRY_ADDRESS (default 0 (ci_transfer_value inputs)) →
  inputs_ok rt inputs → run_chain_registry (Some rt) j0 inputs = Ok (r, j') → accepted r →
  (∃ p, rt_prepared_creation rt = Some p ∧ dd_domain_id (pc_descriptor p) ∈ ids ∧
    MIN_CREATION_DEPOSIT ≤ dd_creation_deposit (pc_descriptor p) ∧
    pc_deposit_unlock_height p = rt_consensus_height rt + CREATION_DEPOSIT_LOCK_BLOCKS ∧
    is_address (dd_owner (pc_descriptor p)) ∧ from_be_bytes (pc_descriptor_hash p) ≠ 0 ∧
    reg j (SDescriptor (dd_domain_id (pc_descriptor p))) = 0 ∧
    ci_transfer_value inputs = Some (dd_creation_deposit (pc_descriptor p)) ∧
    (∀ u, known u → reg j' u = created p u (reg j u)) ∧
    moved j j' (ci_caller inputs) CHAIN_REGISTRY_ADDRESS (dd_creation_deposit (pc_descriptor p))) ∨
  (∃ id burn recipient next, id ∈ ids ∧ reg j (SDepositStatus id) = 1 ∧
    may_release j inputs rt id burn recipient next ∧
    moved j j' CHAIN_REGISTRY_ADDRESS recipient (reg j (SDeposit id)) ∧
    ∀ u, known u → reg j' u = released id next u (reg j u)).
Proof.
  intros Hreg Hmv (Hp & Hh & _ & Hval & Hrf & Hbn) Hrun Hacc. unfold run_chain_registry in Hrun.
  case_bool_decide; cbn [negb] in Hrun; [|by injection Hrun as <- _].
  destruct (starts_with _ _).
  { left. apply create_accepted in Hrun as (p & Ep & _ & Ev & _ & Hd & _ & Hw & Hb); [|done].
    destruct (Hp p Ep) as ((? & ? & ? & ? & ? & ? & Hprep) & Ho & Hid & Hc & Hz). apply prepare_inv in Hprep as [_ Hpo]; [|done].
    destruct (po_deposit _ _ _ _ _ _ _ Hpo) as [Ed Hmin]. rewrite <-Ed in Hmin.
    exists p. rewrite <-Hreg. split_and!; try done; [apply Hpo| |].
    - intros u Hu. by rewrite Hw, creation_writes, Hreg.
    - intros a. rewrite Hb, Hmv, Ev. done. }
  right. assert (∀ id burn, id ∈ ids → run_deposit_lifecycle j0 inputs rt id burn = Ok (r, j') →
    ∃ id burn recipient next, id ∈ ids ∧ reg j (SDepositStatus id) = 1 ∧
      may_release j inputs rt id burn recipient next ∧
      moved j j' CHAIN_REGISTRY_ADDRESS recipient (reg j (SDeposit id)) ∧
      ∀ u, known u → reg j' u = released id next u (reg j u)) as Hlife.
  { intros id burn Hid Hl. apply release_accepted in Hl as (rc & next & Hs & Hd & Hv & Hm & _ & Hb & Hw);
      [|done]. exists id, burn, rc, next. rewrite Hreg in Hs. split_and!; try done.
    - unfold may_release in *. destruct burn; [done|]. by rewrite !Hreg in Hm.
    - intros a. rewrite Hb, Hmv, Hreg. unfold transfers_value in Hv.
      assert (default 0 (ci_transfer_value inputs) = 0) as ->; [|repeat case_bool_decide; lia].
      destruct (ci_transfer_value inputs) as [value|]; [|done]. apply Z.ltb_ge in Hv. cbn in *. lia.
    - intros u Hu. by rewrite Hw, release_writes, Hreg. }
  destruct (decode_refund_deposit_call _) as [id|] eqn:E1; [by eapply Hlife; [apply Hrf|]|].
  destruct (decode_burn_deposit_call _) as [id|] eqn:E2; [by eapply Hlife; [apply Hbn|]|].
  by injection Hrun as <- _.
Qed.

Lemma step_life j j' l id : registry_inv j → registry_step j j' l → id ∈ ids → life_step j j' l id.
Proof.
  intros Hinv Hstep Hid. unfold life_step. cbv zeta.
  destruct Hstep as [j0 rt inputs r Hreg Hmv Hin Hrun Hacc|Hreg _].
  2:{ left. by rewrite !Hreg. }
  destruct (registry_call_cases _ _ _ _ _ _ Hreg Hmv Hin Hrun Hacc)
    as [(p & Ep & Hp & Hmin & Hun & Ho & Hz & Hd & Ev & Hw & Hb)|(id' & burn & rc & next & Hid' & Hs & Hm & Hb & Hw)];
    rewrite !Hw by done; cbn [created released]; case_bool_decide as E; try (left; done).
  - right. left. subst id. split_and!; try done; [|].
    + destruct (decide (reg j (SDepositStatus (dd_domain_id (pc_descriptor p))) = 0)); [done|]. by eapply ri_created in n.
    + exists rt, inputs, p. split_and!; try done. by apply owner_word.
  - right. right. subst id'. split_and!; try done; [by apply ri_locked|]. exists rt, inputs, rc. split; [done|]. split; [done|].
    unfold may_release in Hm. destruct burn; [right|left]; naive_solver.
Qed.

Lemma moved_funds j j' from amount :
  moved j j' from CHAIN_REGISTRY_ADDRESS amount → from ≠ CHAIN_REGISTRY_ADDRESS → funds j' = funds j + amount.
Proof. intros Hm Hne. unfold funds. rewrite Hm, bool_decide_false, bool_decide_true by done. lia. Qed.

Lemma paid_funds j j' to amount :
  moved j j' CHAIN_REGISTRY_ADDRESS to amount → 0 ≤ amount → funds j - amount ≤ funds j'.
Proof. intros Hm Ha. unfold funds. rewrite Hm. repeat case_bool_decide; lia. Qed.

Lemma inv_step j j' l : registry_inv j → registry_step j j' l → registry_inv j'.
Proof.
  intros Hinv Hstep. pose proof Hinv as [I1 I2 I3 I4 I5].
  destruct Hstep as [j0 rt inputs r Hreg Hmv Hin Hrun Hacc|Hreg Hfu].
  2:{ split; intros *; rewrite ?Hreg; auto.
      rewrite (zsum_ext (λ id, reg j (SDeposit id))); [lia|]. intros; apply Hreg. }
  destruct (registry_call_cases _ _ _ _ _ _ Hreg Hmv Hin Hrun Hacc)
    as [(p & _ & Hp & Hmin & _ & _ & Hz & Hd & _ & Hw & Hb)|(id' & burn & rc & next & Hid' & Hs & Hm & Hb & Hw)].
  - apply moved_funds in Hb; [|apply Hin].
    assert (reg j (SDepositStatus (dd_domain_id (pc_descriptor p))) = 0) as Hs0.
    { destruct (decide (reg j (SDepositStatus (dd_domain_id (pc_descriptor p))) = 0)); [done|].
      by apply I2 in n. }
    split; try (intros id Hid; rewrite !Hw by done; cbn [created]; case_bool_decide; auto; lia).
    rewrite (zsum_update (λ id, reg j (SDeposit id)) _ _ (dd_domain_id (pc_descriptor p))); [|done|done|].
    + rewrite Hw by done. cbn [created]. rewrite bool_decide_true by done.
      rewrite (I4 _ Hp) by lia. lia.
    + intros id Hid Hne. rewrite Hw by done. cbn [created]. by rewrite bool_decide_false.
  - pose proof (I3 _ Hid' Hs) as Hmin. apply paid_funds in Hb; [|unfold MIN_CREATION_DEPOSIT in Hmin; lia].
    assert (0 ≤ deposit_status_u8 next ≤ 3 ∧ deposit_status_u8 next ≠ 0 ∧ deposit_status_u8 next ≠ 1)
      as (N1 & N2 & N3) by (unfold may_release in Hm; destruct burn; destruct_and!; subst next; cbn; lia).
    split; try (intros id Hid; rewrite !Hw by done; cbn [released]; case_bool_decide; subst; auto; lia).
    + intros id Hid. rewrite !Hw by done. cbn [released]. case_bool_decide; [|auto]. subst. intros _. apply I2; [done|lia].
    + rewrite (zsum_update (λ id, reg j (SDeposit id)) _ _ id'); [|done|done|].
      * rewrite Hw by done. cbn [released]. rewrite bool_decide_true by done. lia.
      * intros id Hid Hne. rewrite Hw by done. cbn [released]. by rewrite bool_decide_false.
Qed.

Lemma inv_reachable j0 j : registry_inv j0 → rtc registry_moves j0 j → registry_inv j.
Proof. intros Hinv Hr. induction Hr as [|j0 j1 j [l Hl] _ IH]; [done|]. eauto using inv_step. Qed.
End machine.

Section results.
Context `{Keccak, Journal, !JournalLaws}.

(** C22. Creation deposits are safe. Whatever sequence of registry calls and other
    activity follows a state in which the invariant holds, the registry's balance always
    covers all outstanding deposits, and each step does one of three things to a domain.
    It leaves its status, deposit, owner and unlock height alone; or it creates the
    domain, which had no deposit before: the caller pays the call's value to the
    registry, that value is the deposit and at least the minimum, the owner is that of
    the prepared descriptor and the unlock height lies the locking period ahead; or it
    releases a locked deposit, for good and in full: the registry pays exactly the
    deposit, to the recorded owner calling at or after the recorded unlock height, or to
    the zero address on a call of the governance address, and the records of owner and
    unlock height stay. Assumes that the registry slots of the domains and chain IDs in
    use do not collide, that prepared creations come from their preparation, with a
    descriptor hash other than zero, and that the value of a call reaches the
    registry. *)
Theorem registry_deposits_safe ids chains j0 j :
  (∀ u1 u2, known ids chains u1 → known ids chains u2 → slot_of u1 = slot_of u2 → u1 = u2) →
  NoDup ids → registry_inv ids j0 → rtc (registry_moves ids chains) j0 j →
  registry_inv ids j ∧
  ∀ j' l id, registry_step ids chains j j' l → id ∈ ids → life_step j j' l id.
Proof.
  intros Hfree Hnd Hinv Hr. assert (registry_inv ids j) as Hj by (by eapply inv_reachable).
  split; [done|]. intros j' l id Hstep Hid. by eapply step_life.
Qed.

Lemma run_create_no_panic j inputs rt b m :
  (∀ p, rt_prepared_creation rt = Some p → normalize_request (pc_request p) = Ok (pc_request p)) →
  run_create_chain j inputs rt b ≠ Panic m.
Proof.
  intros Hp. unfold run_create_chain. destruct (rt_prepared_creation rt) as [p|]; [|done].
  unfold encode_create_chain_call, sload. rewrite (Hp p eq_refl). cbn [obind].
  apply obind_no_panic; [by destruct (ci_is_static inputs)|]. intros expected _.
  destruct (_ || _); [done|].
  repeat first [progress no_panic | apply for_each_no_panic; intros s a _; unfold store_write, sstore].
Qed.

Lemma run_lifecycle_no_panic j inputs rt id burn m : run_deposit_lifecycle j inputs rt id burn ≠ Panic m.
Proof.
  unfold run_deposit_lifecycle, authorize_release, sload, sstore.
  no_panic; repeat case_match; no_panic.
Qed.

(** The registry never panics: the only panicking call, the re-encoding of
    the prepared request, always succeeds on requests that come from
    preparation, and every other failure is a revert or a fatal error value. *)
Theorem registry_no_panic registry j inputs m :
  (∀ rt p, registry = Some rt → rt_prepared_creation rt = Some p →
    normalize_request (pc_request p) = Ok (pc_request p)) →
  run_chain_registry registry j inputs ≠ Panic m.
Proof.
  intros Hp. unfold run_chain_registry. destruct registry as [rt|]; [|done].
  case_bool_decide; cbn [negb]; [|done]. destruct (starts_with _ _).
  { apply run_create_no_panic. intros p Ep. by eapply Hp. }
  destruct (decode_refund_deposit_call _); [apply run_lifecycle_no_panic|].
  destruct (decode_burn_deposit_call _); [apply run_lifecycle_no_panic|done].
Qed.
End results.

(** ** A concrete run *)

Module RegistryWitness.
Import SystemWitness.

(** A polynomial hash, which keeps the few preimages used here apart. *)
Definition poly_hash (input : bytes) : bytes :=
  repeat x00 24 ++
  to_be_bytes 8 (foldl (λ h b, Z.land (h * 65599 + byte_val b + 1) 18446744073709551615) 7 input).

Lemma poly_hash_length input : length (poly_hash input) = 32%nat.
Proof. unfold poly_hash. by rewrite length_app, length_to_be_bytes. Qed.

#[local] Instance poly_keccak : Keccak :=
  {| keccak256 := poly_hash; keccak256_length := poly_hash_length |}.

(** Storage and balances as functions; nothing fails. *)
Definition toy_journal : Type := (bytes → Z → Z) * (bytes → Z).

Definition toy_sstore (j : toy_journal) (a : bytes) (s v : Z) : toy_journal :=
  (λ a' s', if bool_decide (a' = a) && (s' =? s) then v else j.1 a' s', j.2).

Definition toy_transfer (j : toy_journal) (a b : bytes) (v : Z) : bool * toy_journal :=
  if v <=? j.2 a
  then (false, (j.1, λ c, j.2 c - (if bool_decide (c = a) then v else 0)
                                + (if bool_decide (c = b) then v else 0)))
  else (true, j).

#[local] Instance toy : Journal := {|
  journal := toy_journal;
  j_sload := λ j a s, Some (j.1 a s, j);
  j_sstore := λ j a s v, Some (toy_sstore j a s v);
  j_transfer := λ j a b v, Some (toy_transfer j a b v);
  j_log := λ j _, j;
|}.

#[local] Instance toy_laws : @JournalLaws toy.
Proof.
  refine (@Build_JournalLaws toy (λ j, fst j) (λ j, snd j) _ _ _ _).
  - intros j a s v j' Hs. simpl in *. by injection Hs as <- <-.
  - intros j a s v j' Hs. simpl in *. by injection Hs as <-.
  - intros j a b v e j' Ht. simpl in *. injection Ht as Ht. unfold toy_transfer in Ht.
    destruct (Z.leb_spec v (j.2 a)); by injection Ht as <- <-.
  - done.
Defined.

Definition tx_hash : bytes := repeat_byte 32 2.

Definition prepared : PreparedChainCreation := Eval vm_compute in
  match prepare_chain_creation demo (repeat_byte 32 1) tx_hash (repeat_byte 32 3) (repeat_byte 32 4)
          MIN_CREATION_DEPOSIT 7 with
  | Ok p => p
  | _ => {| pc_request := demo;
            pc_descriptor :=
              {| dd_domain_id := []; dd_parent_domain_id := []; dd_joint_domain_block_hash := [];
                 dd_create_tx_hash := []; dd_origin_hash := []; dd_name := []; dd_symbol := [];
                 dd_evm_chain_id := 0; dd_owner := []; dd_protocol_revision := 0;
                 dd_gas_limit := 0; dd_initial_base_fee := 0; dd_initial_supply := 0;
                 dd_creation_deposit := 0; dd_status := Pending |};
            pc_descriptor_hash := []; pc_creation_height := 0; pc_deposit_unlock_height := 0 |}
  end.

Definition child : DomainId := Eval vm_compute in dd_domain_id (pc_descriptor prepared).

Definition creator : bytes := repeat_byte 20 5.

(** The root domain is registered; the registry is otherwise empty. *)
Definition start : @journal toy :=
  (λ a s, if (s =? descriptor_slot (repeat_byte 32 17)) then 1 else 0,
   λ a, if bool_decide (a = creator) then MIN_CREATION_DEPOSIT else 0).

Definition funded : @journal toy :=
  (start.1, λ a, if bool_decide (a = CHAIN_REGISTRY_ADDRESS) then MIN_CREATION_DEPOSIT else 0).

Definition runtime : ChainRegistryRuntime :=
  {| rt_root_domain_id := repeat_byte 32 17; rt_executing_domain_id := repeat_byte 32 17;
     rt_consensus_height := 7; rt_governance_address := repeat_byte 20 9;
     rt_prepared_creation := Some prepared |}.

Definition creation : CallInputs :=
  {| ci_bytecode_address := CHAIN_REGISTRY_ADDRESS; ci_caller := creator;
     ci_is_static := false; ci_transfer_value := Some MIN_CREATION_DEPOSIT;
     ci_input := create_chain_calldata (pc_request prepared); ci_reservoir := 0;
     ci_gas_limit := 1000000 |}.

Definition after : @journal toy :=
  match run_chain_registry (Some runtime) funded creation with Ok (_, j) => j | _ => funded end.

Definition child_uses : list slot_use :=
  [SDescriptor child; SChainId 2049; SCreationHeight child; SDeposit child; SDepositUnlock child;
   SOwner child; SDepositStatus child].

Lemma known_child u : known [child] [2049] u → u ∈ child_uses.
Proof.
  unfold child_uses. rewrite !elem_of_cons. destruct u; cbn; rewrite list_elem_of_singleton; intros ->; tauto.
Qed.

Lemma child_slots_free u1 u2 :
  known [child] [2049] u1 → known [child] [2049] u2 → slot_of u1 = slot_of u2 → u1 = u2.
Proof.
  intros K1%known_child K2%known_child.
  assert (Forall (λ u1, Forall (λ u2, slot_of u1 = slot_of u2 → u1 = u2) child_uses) child_uses) as Hall
    by by_evaluation.
  rewrite list.Forall_forall in Hall. specialize (Hall _ K1). rewrite list.Forall_forall in Hall. auto.
Qed.

Lemma start_inv : registry_inv [child] start.
Proof.
  split; [intros id ->%list_elem_of_singleton..|]; by_evaluation.
Qed.

Lemma creation_inputs_ok : inputs_ok [child] [2049] runtime creation.
Proof.
  split_and!; [|by_evaluation..| |].
  - intros p Hp. assert (p = prepared) as -> by (cbn [rt_prepared_creation runtime] in Hp; congruence).
    split_and!; [|by_evaluation..].
    exists demo, (repeat_byte 32 1), tx_hash, (repeat_byte 32 3), (repeat_byte 32 4), MIN_CREATION_DEPOSIT. by_evaluation.
  - intros id Hd. vm_compute in Hd. discriminate Hd.
  - intros id Hd. vm_compute in Hd. discriminate Hd.
Qed.

Lemma creation_accepted :
  ∃ r, run_chain_registry (Some runtime) funded creation = Ok (r, after) ∧ accepted r.
Proof.
  assert (match run_chain_registry (Some runtime) funded creation with
          | Ok (r, _) => negb (out_reverted r.1) | _ => false end = true) as Hok by by_evaluation.
  unfold after. destruct (run_chain_registry (Some runtime) funded creation) as [[r j]| |]; [|done..].
  exists r. split; [done|]. by apply negb_true_iff in Hok.
Qed.

Lemma value_moved : moved start funded creator CHAIN_REGISTRY_ADDRESS MIN_CREATION_DEPOSIT.
Proof.
  intros a. cbn. destruct (decide (a = creator)) as [->|]; [by_evaluation|].
  rewrite (bool_decide_false (a = creator)) by done. by case_bool_decide.
Qed.

Lemma creation_step : registry_moves [child] [2049] start after.
Proof.
  destruct creation_accepted as (r & Hr & Hacc). exists (Some (runtime, creation)).
  apply (step_call _ _ _ _ funded _ _ r); [done|exact value_moved|exact creation_inputs_ok|done|done].
Qed.

Lemma registry_deposits_safe_witness :
  registry_inv [child] after ∧
  ∀ j' l id, registry_step [child] [2049] after j' l → id ∈ [child] → life_step after j' l id.
Proof.
  apply (registry_deposits_safe [child] [2049] start after).
  - exact child_slots_free.
  - by_evaluation.
  - exact start_inv.
  - apply rtc_once, creation_step.
Defined.

Lemma registry_no_panic_witness :
  run_chain_registry (Some runtime) funded creation ≠ Panic "prepared ChainRegistry request is valid"%string.
Proof.
  apply registry_no_panic. intros rt p Hrt Hp. assert (rt = runtime) as -> by congruence.
  assert (p = prepared) as -> by (cbn [rt_prepared_creation runtime] in Hp; congruence). by_evaluation.
Defined.
End RegistryWitness.
