(* ===== verification/StateError.v ===== *)
(** The error type the modules of arbor-state share
    (src/crates/arbor-state/src/mpt.rs, [StateError]). *)

From S2P Require Import Prelude Bytes.

Module SE.

Inductive StateError :=
| MissingNode (hash : bytes)
| NodeHashMismatch (expected actual : bytes)
| MalformedRlp (what : string)
| InvalidPath (what : string)
| Store (message : string)
| Proof (message : string)
| LimitExceeded (what : string).

End SE.

Notation StateError := SE.StateError.
