(* ===== verification/Snapshot.v ===== *)
(** The state snapshot manifest: a versioned list of content-addressed chunks
    (src/crates/arbor-state/src/snapshot.rs).

    Main results: the manifest codec is canonical (encoding and decoding invert
    each other, decoding never panics), the manifest hash binds the manifest,
    and a chunk that verifies against its descriptor is the described chunk up
    to a Keccak-256 collision. *)

From Stdlib Require Import Strings.Byte.
From S2P Require Import Prelude Bytes Primitives Canonical Crypto StateError.
Import SE.

Local Open Scope Z_scope.

Definition SNAPSHOT_TAG : bytes := bstr "ARBOR_SNAPSHOT_MANIFEST_V1".
Definition SNAPSHOT_VERSION : Z := 1.
Definition MAX_SNAPSHOT_CHUNKS : Z := 65536.
Definition MAX_SNAPSHOT_CHUNK_BYTES : Z := 8 * 1024 * 1024.

Record SnapshotChunk := {
  sc_index : Z;
  sc_bytes : Z;
  sc_hash : bytes;
}.

Record SnapshotManifest := {
  sm_consensus_height : Z;
  sm_domain_id : DomainId;
  sm_state_root : bytes;
  sm_chunks : list SnapshotChunk;
}.

#[export] Instance SnapshotChunk_eq_dec : EqDecision SnapshotChunk.
Proof. solve_decision. Defined.

#[export] Instance SnapshotManifest_eq_dec : EqDecision SnapshotManifest.
Proof. solve_decision. Defined.

Definition wf_chunk (c : SnapshotChunk) : Prop :=
  u32 (sc_index c) ∧ u32 (sc_bytes c) ∧ is_b256 (sc_hash c).

Definition wf_manifest (m : SnapshotManifest) : Prop :=
  u64 (sm_consensus_height m) ∧ is_b256 (sm_domain_id m) ∧ is_b256 (sm_state_root m) ∧
  Forall wf_chunk (sm_chunks m).

(** ** Operations *)

(** One iteration of the loop of [validate]; the state is the expected index. *)
Definition validate_chunk (expected : Z) (chunk : SnapshotChunk) : outcome StateError Z :=
  if negb (sc_index chunk =? expected) then Err (InvalidPath "snapshot chunk ordering")
  else if (sc_bytes chunk =? 0) || (MAX_SNAPSHOT_CHUNK_BYTES <? sc_bytes chunk)
  then Err (LimitExceeded "snapshot chunk bytes")
  else Ok (expected + 1).

Definition validate_manifest (m : SnapshotManifest) : outcome StateError unit :=
  if MAX_SNAPSHOT_CHUNKS <? zlen (sm_chunks m) then Err (LimitExceeded "snapshot chunk count")
  else
    run? for_each validate_chunk 0 (sm_chunks m) in
    Ok tt.

Definition encode_chunk (out : bytes) (chunk : SnapshotChunk) : bytes :=
  let out := out ++ to_be_bytes 4 (sc_index chunk) in
  let out := out ++ to_be_bytes 4 (sc_bytes chunk) in
  out ++ sc_hash chunk.

Definition encode_manifest (m : SnapshotManifest) : outcome StateError bytes :=
  run? validate_manifest m in
  let? count := ok_or (try_from 32 (zlen (sm_chunks m))) (LimitExceeded "snapshot chunk count") in
  let out := SNAPSHOT_TAG in
  let out := out ++ [byte_of SNAPSHOT_VERSION] in
  let out := out ++ to_be_bytes 8 (sm_consensus_height m) in
  let out := out ++ sm_domain_id m in
  let out := out ++ sm_state_root m in
  let out := out ++ to_be_bytes 4 count in
  Ok (foldl encode_chunk out (sm_chunks m)).

(** [input.get(cursor..cursor + n)] and the cursor after it. *)
Definition take_slice (what : string) (n : Z) (input : bytes) (cursor : Z)
    : outcome StateError (bytes * Z) :=
  let? b := ok_or (get_range input cursor (cursor + n)) (MalformedRlp what) in
  Ok (b, cursor + n).

Definition take_u32 (input : bytes) (cursor : Z) : outcome StateError (Z * Z) :=
  let? '(b, cursor) := take_slice "snapshot u32" 4 input cursor in
  Ok (from_be_bytes b, cursor).

Definition take_u64 (input : bytes) (cursor : Z) : outcome StateError (Z * Z) :=
  let? '(b, cursor) := take_slice "snapshot u64" 8 input cursor in
  Ok (from_be_bytes b, cursor).

Definition take_hash (input : bytes) (cursor : Z) : outcome StateError (bytes * Z) :=
  take_slice "snapshot hash" 32 input cursor.

Definition take_chunk (input : bytes) (cursor : Z) : outcome StateError (SnapshotChunk * Z) :=
  let? '(index, cursor) := take_u32 input cursor in
  let? '(size, cursor) := take_u32 input cursor in
  let? '(hash, cursor) := take_hash input cursor in
  Ok ({| sc_index := index; sc_bytes := size; sc_hash := hash |}, cursor).

(** [for _ in 0..count]. *)
Fixpoint take_chunks (count : nat) (input : bytes) (cursor : Z)
    : outcome StateError (list SnapshotChunk) :=
  match count with
  | O => Ok []
  | S count' =>
      let? '(chunk, cursor) := take_chunk input cursor in
      let? chunks := take_chunks count' input cursor in
      Ok (chunk :: chunks)
  end.

Definition decode_manifest (input : bytes) : outcome StateError SnapshotManifest :=
  let fixed := zlen SNAPSHOT_TAG + 1 + 8 + 32 + 32 + 4 in
  if (zlen input <? fixed) || negb (starts_with SNAPSHOT_TAG input)
  then Err (MalformedRlp "snapshot manifest tag/length")
  else
    let cursor := zlen SNAPSHOT_TAG in
    let? version := expect (input !! Z.to_nat cursor) "index out of bounds" in
    if negb (byte_val version =? SNAPSHOT_VERSION)
    then Err (MalformedRlp "snapshot manifest version")
    else
      let cursor := cursor + 1 in
      let? '(consensus_height, cursor) := take_u64 input cursor in
      let? '(domain_id, cursor) := take_hash input cursor in
      let? '(state_root, cursor) := take_hash input cursor in
      let? '(count, cursor) := take_u32 input cursor in
      if MAX_SNAPSHOT_CHUNKS <? count then Err (LimitExceeded "snapshot chunk count")
      else
        let? expected :=
          ok_or (checked_add 64 cursor (count * 40)) (LimitExceeded "snapshot encoded size") in
        if negb (zlen input =? expected)
        then Err (MalformedRlp "snapshot manifest trailing/truncated")
        else
          let? chunks := take_chunks (Z.to_nat count) input cursor in
          let manifest :=
            {| sm_consensus_height := consensus_height;
               sm_domain_id := domain_id;
               sm_state_root := state_root;
               sm_chunks := chunks |} in
          run? validate_manifest manifest in
          Ok manifest.

Section hashing.
Context `{Keccak}.

Definition manifest_hash (m : SnapshotManifest) : outcome StateError bytes :=
  let? encoded := encode_manifest m in
  Ok (keccak256 encoded).

Definition verify_chunk (chunk : SnapshotChunk) (b : bytes) : bool :=
  (sc_bytes chunk =? zlen b) && bool_decide (keccak256 b = sc_hash chunk).
End hashing.

(** ** The cursor *)

(** The cursor stands before [rest]. *)
Definition before (input : bytes) (cursor : Z) (rest : bytes) : Prop :=
  ∃ pre, input = pre ++ rest ∧ cursor = zlen pre.

Lemma take_slice_spec what n input cursor rest b c :
  before input cursor rest → 0 ≤ n →
  take_slice what n input cursor = Ok (b, c) ↔
    ∃ rest', rest = b ++ rest' ∧ zlen b = n ∧ c = cursor + n ∧ before input c rest'.
Proof.
  intros (pre & -> & ->) Hn. unfold take_slice. split.
  - intros Ht. ok_inv. simplify_eq. pose proof (get_range_length _ _ _ _ Hok) as Hlen.
    apply get_range_split in Hok as Hsplit. 
    replace (take (Z.to_nat (zlen pre)) (pre ++ rest)) with pre in Hsplit
      by (unfold zlen; rewrite Nat2Z.id; by rewrite take_app_length).
    apply app_inv_head in Hsplit. eexists. split_and!; [exact Hsplit|lia|done|].
    exists (pre ++ b). rewrite <-app_assoc, <-Hsplit, zlen_app. split; [done|lia].
  - intros (rest' & -> & Hb & -> & _). rewrite (get_range_app pre b rest') by lia. done.
Qed.

Lemma before_start input : before input 0 input.
Proof. by exists []. Qed.

Lemma before_step input cursor b rest :
  before input cursor (b ++ rest) → before input (cursor + zlen b) rest.
Proof.
  intros (pre & -> & ->). exists (pre ++ b). by rewrite <-app_assoc, zlen_app.
Qed.

Lemma take_slice_no_panic what n input cursor m : take_slice what n input cursor ≠ Panic m.
Proof. unfold take_slice. no_panic. Qed.

(** [take_u32] and [take_u64] read the big-endian integer of the next bytes. *)
Lemma take_uint_spec what k input cursor rest v c :
  before input cursor rest →
  (let? '(b, cursor) := take_slice what (Z.of_nat k) input cursor in
   Ok (from_be_bytes b, cursor)) = Ok (v, c) ↔
    ∃ rest', rest = to_be_bytes k v ++ rest' ∧ fits (8 * Z.of_nat k) v ∧
      c = cursor + Z.of_nat k ∧ before input c rest'.
Proof.
  intros Hb. split.
  - intros Ht. ok_inv. simplify_eq. apply (take_slice_spec _ _ _ _ rest) in Hok; [|done|lia].
    destruct Hok as (rest' & -> & Hlen & -> & Hb'). exists rest'. unfold zlen in Hlen.
    rewrite to_from_be_bytes by lia. split_and!; try done. apply from_be_bytes_fits. lia.
  - intros (rest' & -> & Hf & -> & Hb').
    assert (take_slice what (Z.of_nat k) input cursor =
      Ok (to_be_bytes k v, cursor + Z.of_nat k)) as ->.
    { apply (take_slice_spec _ _ _ _ _ _ _ Hb); [lia|]. exists rest'.
      by rewrite zlen_to_be_bytes. }
    cbn [obind]. by rewrite from_to_be_bytes.
Qed.

Lemma take_u64_at input cursor v rest :
  before input cursor (to_be_bytes 8 v ++ rest) → u64 v →
  take_u64 input cursor = Ok (v, cursor + 8) ∧ before input (cursor + 8) rest.
Proof.
  intros Hb Hv. pose proof (before_step _ _ _ _ Hb) as Hb'. rewrite zlen_to_be_bytes in Hb'.
  split; [|done]. apply (take_uint_spec _ 8 _ _ _ _ _ Hb). eauto.
Qed.

Lemma take_u32_at input cursor v rest :
  before input cursor (to_be_bytes 4 v ++ rest) → u32 v →
  take_u32 input cursor = Ok (v, cursor + 4) ∧ before input (cursor + 4) rest.
Proof.
  intros Hb Hv. pose proof (before_step _ _ _ _ Hb) as Hb'. rewrite zlen_to_be_bytes in Hb'.
  split; [|done]. apply (take_uint_spec _ 4 _ _ _ _ _ Hb). eauto.
Qed.

Lemma take_hash_at input cursor h rest :
  before input cursor (h ++ rest) → is_b256 h →
  take_hash input cursor = Ok (h, cursor + 32) ∧ before input (cursor + 32) rest.
Proof.
  intros Hb Hh. pose proof (before_step _ _ _ _ Hb) as Hb'.
  assert (zlen h = 32) as Hl by (unfold zlen; rewrite Hh; lia). rewrite Hl in Hb'.
  split; [|done]. apply (take_slice_spec _ _ _ _ _ _ _ Hb); [lia|]. eauto.
Qed.

Definition chunk_bytes (c : SnapshotChunk) : bytes :=
  to_be_bytes 4 (sc_index c) ++ to_be_bytes 4 (sc_bytes c) ++ sc_hash c.

Lemma zlen_chunk_bytes c : wf_chunk c → zlen (chunk_bytes c) = 40.
Proof.
  intros (_ & _ & Hh). unfold chunk_bytes. rewrite !zlen_app, !zlen_to_be_bytes.
  unfold zlen. rewrite Hh. lia.
Qed.

Lemma take_chunk_spec input cursor rest k c :
  before input cursor rest →
  take_chunk input cursor = Ok (k, c) ↔
    ∃ rest', rest = chunk_bytes k ++ rest' ∧ wf_chunk k ∧ c = cursor + 40 ∧ before input c rest'.
Proof.
  intros Hb. unfold take_chunk. split.
  - intros Ht. ok_inv. simplify_eq.
    apply (take_uint_spec _ 4 _ _ rest) in Hok as (r1 & -> & Hf1 & -> & Hb1); [|done].
    apply (take_uint_spec _ 4 _ _ r1) in Hok0 as (r2 & -> & Hf2 & -> & Hb2); [|done].
    apply (take_slice_spec _ _ _ _ r2) in Hok1 as (r3 & -> & Hl & -> & Hb3); [|done|lia].
    exists r3. unfold chunk_bytes. cbn [sc_index sc_bytes sc_hash]. rewrite <-!app_assoc. split_and!; try done; [|lia].
    unfold wf_chunk, is_b256. unfold zlen in Hl. split_and!; [done..|simpl; lia].
  - intros (rest' & -> & (H1 & H2 & H3) & -> & _). unfold chunk_bytes in Hb.
    rewrite <-!app_assoc in Hb.
    destruct (take_u32_at _ _ _ _ Hb H1) as [-> Hb1]. cbn [obind].
    destruct (take_u32_at _ _ _ _ Hb1 H2) as [-> Hb2]. cbn [obind].
    destruct (take_hash_at _ _ _ _ Hb2 H3) as [-> Hb3].
    cbn [obind]. destruct k; simpl. do 2 f_equal. lia.
Qed.

Lemma take_chunks_spec n input cursor rest l :
  before input cursor rest → zlen rest = 40 * Z.of_nat n →
  take_chunks n input cursor = Ok l ↔
    rest = concat (chunk_bytes <$> l) ∧ length l = n ∧ Forall wf_chunk l.
Proof.
  revert cursor rest l. induction n as [|n IH]; intros cursor rest l Hb Hz; cbn [take_chunks].
  - assert (rest = []) as -> by (apply length_zero_iff_nil; unfold zlen in Hz; lia). split.
    + intros [= <-]. done.
    + by intros (_ & ->%length_zero_iff_nil & _).
  - split.
    + intros Ht. ok_inv. simplify_eq.
      apply (take_chunk_spec _ _ rest) in Hok as (r & -> & Hk & -> & Hb'); [|done].
      rewrite zlen_app, zlen_chunk_bytes in Hz by done.
      apply (IH _ r) in Hok0 as (-> & <- & Hl); [|done|lia]. split_and!; [done..|by constructor].
    + intros (-> & Hlen & Hl). destruct l as [|k l]; [done|].
      inversion Hl as [|? ? Hk Hl']; subst. rewrite fmap_cons in Hb, Hz. cbn [concat length] in Hb, Hz, Hlen.
      rewrite zlen_app, zlen_chunk_bytes in Hz by done.
      pose proof (before_step _ _ _ _ Hb) as Hb'. rewrite zlen_chunk_bytes in Hb' by done.
      assert (take_chunk input cursor = Ok (k, cursor + 40)) as ->
        by (apply (take_chunk_spec _ _ _ _ _ Hb); eauto).
      cbn [obind]. rewrite (proj2 (IH (cursor + 40) (concat (chunk_bytes <$> l)) l Hb' ltac:(lia)));
        [done|]. split_and!; [done|lia|done].
Qed.

(** ** The codec *)

Local Opaque to_be_bytes SNAPSHOT_TAG byte_of.

Definition manifest_bytes (m : SnapshotManifest) : bytes :=
  SNAPSHOT_TAG ++ [byte_of SNAPSHOT_VERSION] ++ to_be_bytes 8 (sm_consensus_height m) ++
  sm_domain_id m ++ sm_state_root m ++ to_be_bytes 4 (zlen (sm_chunks m)) ++
  concat (chunk_bytes <$> sm_chunks m).

Lemma encode_chunks l out : foldl encode_chunk out l = out ++ concat (chunk_bytes <$> l).
Proof.
  revert out. induction l as [|c l IH]; intros out; cbn [foldl]; [by rewrite app_nil_r|].
  rewrite IH. unfold encode_chunk, chunk_bytes. cbn [fmap list_fmap concat].
  by rewrite <-!app_assoc.
Qed.

(** What [validate] accepts: at most [MAX_SNAPSHOT_CHUNKS] chunks, numbered from
    zero, none empty or oversized. *)
Definition manifest_ok (m : SnapshotManifest) : Prop :=
  zlen (sm_chunks m) ≤ MAX_SNAPSHOT_CHUNKS ∧
  ∀ i c, sm_chunks m !! i = Some c →
    sc_index c = Z.of_nat i ∧ 0 ≠ sc_bytes c ∧ sc_bytes c ≤ MAX_SNAPSHOT_CHUNK_BYTES.

Lemma validate_chunks_Ok l e :
  (∃ e', for_each validate_chunk e l = Ok e') ↔
  ∀ i c, l !! i = Some c →
    sc_index c = e + Z.of_nat i ∧ 0 ≠ sc_bytes c ∧ sc_bytes c ≤ MAX_SNAPSHOT_CHUNK_BYTES.
Proof.
  revert e. induction l as [|k l IH]; intros e; cbn [for_each].
  - split; [done|eauto].
  - split.
    + intros [e' Hf]. unfold validate_chunk at 1 in Hf. ok_inv. bool_prop.
      intros [|i] c Hl; simpl in Hl; [simplify_eq; lia|].
      destruct (proj1 (IH a) (ex_intro _ e' Hf) i c Hl) as (? & ? & ?). lia.
    + intros Hall. destruct (Hall 0%nat k eq_refl) as (Hi & H0 & Hm). unfold validate_chunk at 1.
      rewrite (proj2 (Z.eqb_eq _ _)) by lia. rewrite (proj2 (Z.eqb_neq (sc_bytes k) 0)) by lia.
      rewrite (proj2 (Z.ltb_ge _ _)) by lia. cbn [negb orb obind]. apply IH.
      intros i c Hl. destruct (Hall (S i) c Hl) as (? & ? & ?). lia.
Qed.

Lemma validate_manifest_Ok m : validate_manifest m = Ok tt ↔ manifest_ok m.
Proof.
  unfold validate_manifest, manifest_ok. pose proof (validate_chunks_Ok (sm_chunks m) 0) as Hv.
  destruct (Z.ltb_spec MAX_SNAPSHOT_CHUNKS (zlen (sm_chunks m))).
  - split; [done|lia].
  - destruct (for_each validate_chunk 0 (sm_chunks m)) as [e| |]; cbn [obind].
    + split; [|done]. intros _. split; [done|]. apply Hv. eauto.
    + split; [done|]. intros [_ [? ?]%Hv]. done.
    + split; [done|]. intros [_ [? ?]%Hv]. done.
Qed.

Lemma validate_manifest_no_panic m s : validate_manifest m ≠ Panic s.
Proof.
  unfold validate_manifest. no_panic. apply for_each_no_panic. intros e c _.
  unfold validate_chunk. no_panic.
Qed.

Lemma encode_manifest_Ok m b :
  encode_manifest m = Ok b ↔ manifest_ok m ∧ b = manifest_bytes m.
Proof.
  rewrite <-validate_manifest_Ok. unfold encode_manifest. split.
  - destruct (validate_manifest m) as [[]| |]; [|done..]. cbn [obind].
    destruct (try_from 32 (zlen (sm_chunks m))) as [count|] eqn:Hc; [|done].
    apply try_from_Some in Hc as [-> _]. cbn [ok_or obind]. intros [= <-]. split; [done|].
    rewrite encode_chunks. unfold manifest_bytes. by rewrite <-!app_assoc.
  - intros [Hv ->]. rewrite Hv. apply validate_manifest_Ok in Hv as [Hlen _]. cbn [obind].
    pose proof (zlen_nonneg (sm_chunks m)). unfold MAX_SNAPSHOT_CHUNKS in Hlen.
    assert (try_from 32 (zlen (sm_chunks m)) = Some (zlen (sm_chunks m))) as ->
      by (apply try_from_Some; split; [done|]; split; lia).
    cbn [ok_or obind]. rewrite encode_chunks. unfold manifest_bytes. by rewrite <-!app_assoc.
Qed.

Lemma take_chunks_no_panic n input cursor m : take_chunks n input cursor ≠ Panic m.
Proof.
  revert cursor. induction n as [|n IH]; intros cursor; cbn [take_chunks]; [done|].
  unfold take_chunk, take_u32, take_hash. no_panic; apply take_slice_no_panic.
Qed.

Lemma decode_manifest_no_panic b m : decode_manifest b ≠ Panic m.
Proof.
  unfold decode_manifest, take_u64, take_u32, take_hash. no_panic;
    try apply take_slice_no_panic; try apply take_chunks_no_panic;
    try apply validate_manifest_no_panic.
  bool_prop. destruct (lookup_lt_is_Some_2 b (Z.to_nat (zlen SNAPSHOT_TAG))) as [x ->]; [|done].
  unfold zlen in *. lia.
Qed.

Lemma manifest_before m :
  before (manifest_bytes m) (zlen SNAPSHOT_TAG + 1)
    (to_be_bytes 8 (sm_consensus_height m) ++ sm_domain_id m ++ sm_state_root m ++
     to_be_bytes 4 (zlen (sm_chunks m)) ++ concat (chunk_bytes <$> sm_chunks m)).
Proof.
  exists (SNAPSHOT_TAG ++ [byte_of SNAPSHOT_VERSION]). unfold manifest_bytes.
  rewrite <-app_assoc, zlen_app. done.
Qed.

Lemma zlen_chunks l :
  Forall wf_chunk l → zlen (concat (chunk_bytes <$> l)) = 40 * zlen l.
Proof.
  induction 1 as [|c l Hc _ IH]; [done|]. rewrite fmap_cons. cbn [concat].
  rewrite zlen_app, zlen_chunk_bytes, IH, zlen_cons by done. lia.
Qed.

Lemma zlen_manifest_bytes m :
  wf_manifest m → zlen (manifest_bytes m) = zlen SNAPSHOT_TAG + 77 + 40 * zlen (sm_chunks m).
Proof.
  intros (_ & Hd & Hr & Hc). unfold manifest_bytes. rewrite !zlen_app, !zlen_to_be_bytes.
  rewrite zlen_chunks by done.
  unfold zlen at 2 3 4. rewrite Hd, Hr. cbn [length]. lia.
Qed.

Lemma decode_encode_manifest m :
  wf_manifest m → manifest_ok m → decode_manifest (manifest_bytes m) = Ok m.
Proof.
  intros Hwf Hok. pose proof Hok as [Hlen _]. pose proof (zlen_nonneg (sm_chunks m)).
  pose proof (zlen_manifest_bytes m Hwf) as Hz. pose proof (zlen_nonneg SNAPSHOT_TAG).
  pose proof Hwf as (Hh & Hd & Hr & Hc). unfold decode_manifest, MAX_SNAPSHOT_CHUNKS in *.
  rewrite (proj2 (Z.ltb_ge _ _)) by lia.
  rewrite (proj2 (starts_with_spec _ _)) by (unfold manifest_bytes; eauto).
  cbn [orb negb]. cbv zeta.
  assert (manifest_bytes m !! Z.to_nat (zlen SNAPSHOT_TAG) = Some (byte_of SNAPSHOT_VERSION)) as ->.
  { unfold manifest_bytes, zlen. rewrite Nat2Z.id. rewrite lookup_app_r by lia.
    by rewrite Nat.sub_diag. }
  cbn [expect obind]. rewrite byte_val_of.
  change (SNAPSHOT_VERSION mod 256 =? SNAPSHOT_VERSION) with true. cbn [negb].
  destruct (take_u64_at _ _ _ _ (manifest_before m) Hh) as [-> Hb1]. cbn [obind].
  destruct (take_hash_at _ _ _ _ Hb1 Hd) as [-> Hb2]. cbn [obind].
  destruct (take_hash_at _ _ _ _ Hb2 Hr) as [-> Hb3]. cbn [obind].
  destruct (take_u32_at _ _ _ _ Hb3) as [-> Hb4]; [split; lia|]. cbn [obind].
  rewrite (proj2 (Z.ltb_ge _ _)) by lia.
  assert (zlen SNAPSHOT_TAG = 26) as Ht by reflexivity. rewrite Ht in *.
  rewrite (proj2 (checked_add_Some _ _ _ _)) by (split; [reflexivity|lia]).
  cbn [ok_or obind]. rewrite Hz, (proj2 (Z.eqb_eq _ _)) by lia. cbn [negb].
  assert (zlen (concat (chunk_bytes <$> sm_chunks m)) =
    40 * Z.of_nat (Z.to_nat (zlen (sm_chunks m)))) as Hcl by (rewrite zlen_chunks by done; lia).
  rewrite (proj2 (take_chunks_spec _ _ _ _ (sm_chunks m) Hb4 Hcl))
    by (split_and!; [done|unfold zlen; lia|done]).
  cbn [obind]. replace {| sm_chunks := sm_chunks m |} with m by (by destruct m).
  by rewrite (proj2 (validate_manifest_Ok m)).
Qed.

Lemma decode_manifest_sound b m :
  decode_manifest b = Ok m → wf_manifest m ∧ manifest_ok m ∧ b = manifest_bytes m.
Proof.
  intros Hd. unfold decode_manifest in Hd. ok_inv. bool_prop. destruct a2. subst m.
  apply starts_with_spec in H0 as [s ->].
  rewrite lookup_app_r in Hok by (unfold zlen; lia).
  replace (Z.to_nat (zlen SNAPSHOT_TAG) - length SNAPSHOT_TAG)%nat with 0%nat in Hok
    by (unfold zlen; lia).
  destruct s as [|v s]; [done|]. injection Hok as ->.
  assert (before (SNAPSHOT_TAG ++ a :: s) (zlen SNAPSHOT_TAG + 1) s) as Hb.
  { exists (SNAPSHOT_TAG ++ [a]). by rewrite <-app_assoc, zlen_app. }
  apply (take_uint_spec _ 8 _ _ _ _ _ Hb) in Hok0 as (r1 & -> & Hh & -> & Hb1).
  apply (take_slice_spec _ _ _ _ _ _ _ Hb1) in Hok1 as (r2 & -> & Hl1 & -> & Hb2); [|lia].
  apply (take_slice_spec _ _ _ _ _ _ _ Hb2) in Hok2 as (r3 & -> & Hl2 & -> & Hb3); [|lia].
  apply (take_uint_spec _ 4 _ _ _ _ _ Hb3) in Hok3 as (r4 & -> & Hc & -> & Hb4).
  apply checked_add_Some in Hok4 as [-> _]. destruct Hc as [Hc0 _].
  assert (zlen r4 = 40 * Z.of_nat (Z.to_nat z3)) as Hz.
  { destruct Hb4 as (pre & E & Hp). rewrite E, zlen_app in Hif2. lia. }
  apply (take_chunks_spec _ _ _ _ _ Hb4 Hz) in Hok5 as (-> & Hn & Hf).
  apply validate_manifest_Ok in Hok6. split_and!; [|done|].
  - unfold zlen in Hl1, Hl2. split_and!; [exact Hh|unfold is_b256; simpl; lia..|exact Hf].
  - unfold manifest_bytes. cbn [sm_chunks sm_consensus_height sm_domain_id sm_state_root].
    replace (zlen a1) with z3 by (unfold zlen; lia).
    rewrite <-Hif0, byte_of_val. done.
Qed.

Lemma manifest_codec : canonical wf_manifest encode_manifest decode_manifest.
Proof.
  split; [|split; [|split]].
  - intros m b Hwf [Hok ->]%encode_manifest_Ok. by apply decode_encode_manifest.
  - intros m b (Hwf & Hok & ->)%decode_manifest_sound. split; [done|]. by apply encode_manifest_Ok.
  - intros m s. unfold encode_manifest. no_panic. apply validate_manifest_no_panic.
  - apply decode_manifest_no_panic.
Qed.

(** ** Results *)

(** The snapshot manifest codec is canonical, and a decoded manifest has at
    most 65,536 chunks, numbered consecutively from zero, each between one byte
    and the chunk limit. *)
Theorem manifest_codec_canonical :
  canonical wf_manifest encode_manifest decode_manifest ∧
  ∀ b m, decode_manifest b = Ok m → manifest_ok m.
Proof.
  split; [exact manifest_codec|]. by intros b m (_ & ? & _)%decode_manifest_sound.
Qed.

(** Content addressing of a snapshot: two manifests with the same hash are
    equal, and two byte strings that verify against the same chunk descriptor
    are equal, unless they exhibit a Keccak-256 collision. *)
Theorem snapshot_binding `{Keccak} :
  (∀ m1 m2 h, wf_manifest m1 → wf_manifest m2 →
     manifest_hash m1 = Ok h → manifest_hash m2 = Ok h →
     m1 = m2 ∨ manifest_bytes m1 ≠ manifest_bytes m2 ∧
               keccak256 (manifest_bytes m1) = keccak256 (manifest_bytes m2)) ∧
  (∀ c b1 b2, verify_chunk c b1 = true → verify_chunk c b2 = true →
     b1 = b2 ∨ b1 ≠ b2 ∧ zlen b1 = zlen b2 ∧ keccak256 b1 = keccak256 b2).
Proof.
  split.
  - intros m1 m2 h Hw1 Hw2 H1 H2. unfold manifest_hash in *. ok_inv.
    apply encode_manifest_Ok in Hok as [Ho1 ->], Hok0 as [Ho2 ->].
    destruct (decide (manifest_bytes m1 = manifest_bytes m2)) as [E|E]; [left|right; split; congruence].
    apply (canonical_encode_inj manifest_codec _ _ (manifest_bytes m1)); try done;
      apply encode_manifest_Ok; done.
  - unfold verify_chunk. intros c b1 b2 H1 H2. bool_prop.
    destruct (decide (b1 = b2)); [by left|right]. split_and!; [done|lia|congruence].
Qed.
