(* ===== verification/DomainHeads.v ===== *)
(** The 256-level sparse Merkle commitment to the heads of all domains
    (src/crates/arbor-state/src/domain_heads.rs), with its membership and
    non-membership proofs.

    Main results: every proof the commitment produces verifies; a proof that
    verifies against the root of a commitment shows the committed value, or
    else hands over a Keccak-256 collision between two listed preimages; the
    root does not depend on the order of insertions. *)

From Stdlib Require Import Strings.Byte.
From S2P Require Import Prelude Bytes BTreeMap Primitives Canonical Crypto StateError.

Local Open Scope Z_scope.

Definition KEY_TAG : bytes := bstr "ARBOR_DOMAIN_HEAD_KEY_V1".
Definition VALUE_TAG : bytes := bstr "ARBOR_DOMAIN_HEAD_VALUE_V1".
Definition LEAF_TAG : bytes := bstr "ARBOR_SMT_LEAF_V1".
Definition BRANCH_TAG : bytes := bstr "ARBOR_SMT_BRANCH_V1".
Definition SMT_DEPTH : nat := 256.

Record DomainHead := { domain_block_hash : bytes; state_root : bytes }.

Record DomainHeadProof := {
  hp_root : bytes;
  hp_domain_id : DomainId;
  hp_value : option DomainHead;
  hp_siblings : list bytes;
}.

#[export] Instance DomainHead_eq_dec : EqDecision DomainHead.
Proof. solve_decision. Defined.

Definition wf_head (h : DomainHead) : Prop := is_b256 (domain_block_hash h) ∧ is_b256 (state_root h).

(** [(key[depth / 8] >> (7 - depth % 8)) & 1]. *)
Definition bit (key : bytes) (depth : nat) : Z :=
  Z.land (Z.shiftr (byte_val (default x00 (key !! (depth / 8)%nat)))
            (Z.of_nat (7 - depth mod 8))) 1.

Definition entry_left (depth : nat) (entry : bytes * bytes) : bool := bit entry.1 depth =? 0.

(** The preimages of the hash functions below. *)
Definition key_preimage (domain_id : DomainId) : bytes := KEY_TAG ++ domain_id.
Definition value_preimage (head : DomainHead) : bytes :=
  VALUE_TAG ++ domain_block_hash head ++ state_root head.
Definition leaf_preimage (key value : bytes) : bytes := LEAF_TAG ++ [byte_of 1] ++ key ++ value.
Definition empty_preimage : bytes := LEAF_TAG ++ [byte_of 0].
Definition branch_preimage (depth : nat) (left right : bytes) : bytes :=
  BRANCH_TAG ++ to_be_bytes 2 (Z.of_nat depth) ++ left ++ right.

Section operations.
Context `{Keccak}.

Definition domain_head_key (domain_id : DomainId) : bytes := keccak256 (key_preimage domain_id).

Definition domain_head_value (head : DomainHead) : bytes := keccak256 (value_preimage head).

Definition leaf_hash (key value : bytes) : bytes := keccak256 (leaf_preimage key value).

(** Depths are below [SMT_DEPTH], so the conversion to [u16] in the source
    cannot fail ([branch_depth_fits]). *)
Definition branch_hash (depth : nat) (left right : bytes) : bytes :=
  keccak256 (branch_preimage depth left right).

(** The entries of the array from depth [SMT_DEPTH - n] down to the leaves; the
    loop fills it from the leaf level up. *)
Fixpoint empty_from (n : nat) : list bytes :=
  match n with
  | O => [keccak256 empty_preimage]
  | S n' =>
      let hashes := empty_from n' in
      let below := default B256_ZERO (head hashes) in
      branch_hash (SMT_DEPTH - S n') below below :: hashes
  end.

Definition empty_hashes : list bytes := empty_from SMT_DEPTH.

Definition empty_at (empties : list bytes) (depth : nat) : bytes :=
  default B256_ZERO (empties !! depth).

(** [levels] is [SMT_DEPTH - depth]: it is zero exactly at the leaf level. *)
Fixpoint subtree_levels (levels : nat) (entries : list (bytes * bytes)) (depth : nat)
    (empties : list bytes) : bytes :=
  match entries with
  | [] => empty_at empties depth
  | entry :: _ =>
      match levels with
      | O => entry.2
      | S levels' =>
          let split := partition_point (entry_left depth) entries in
          branch_hash depth
            (subtree_levels levels' (take split entries) (S depth) empties)
            (subtree_levels levels' (drop split entries) (S depth) empties)
      end
  end.

Definition subtree_root (entries : list (bytes * bytes)) (depth : nat) (empties : list bytes)
    : bytes :=
  subtree_levels (SMT_DEPTH - depth) entries depth empties.

(** *** [DomainHeadProof::verify] *)

(** One step of the loop from the leaf level up. *)
Definition climb (key : bytes) (siblings : list bytes) (hash : bytes) (depth : nat) : bytes :=
  let sibling := default B256_ZERO (siblings !! depth) in
  if bit key depth =? 0 then branch_hash depth hash sibling
  else branch_hash depth sibling hash.

Definition start_hash (key : bytes) (value : option DomainHead) : bytes :=
  match value with
  | Some value => leaf_hash key (domain_head_value value)
  | None => empty_at empty_hashes SMT_DEPTH
  end.

Definition verify (p : DomainHeadProof) : outcome StateError unit :=
  if negb (zlen (hp_siblings p) =? Z.of_nat SMT_DEPTH)
  then Err (SE.InvalidPath "domain-head proof depth")
  else
    let key := domain_head_key (hp_domain_id p) in
    let hash := foldl (climb key (hp_siblings p)) (start_hash key (hp_value p))
                  (rev (seq 0 SMT_DEPTH)) in
    if negb (bool_decide (hash = hp_root p))
    then Err (SE.Proof "domain-head root mismatch")
    else Ok tt.

(** *** [DomainHeadsCommitment] *)

Definition commitment : Type := btree bytes (DomainId * DomainHead).

Definition new : commitment := [].

Definition insert (c : commitment) (domain_id : DomainId) (head : DomainHead) : commitment :=
  binsert (domain_head_key domain_id) (domain_id, head) c.

Definition remove (c : commitment) (domain_id : DomainId) : option DomainHead * commitment :=
  (snd <$> bget (domain_head_key domain_id) c, bremove (domain_head_key domain_id) c).

Definition entries (c : commitment) : list (bytes * bytes) :=
  map (λ '(key, (_, head)), (key, leaf_hash key (domain_head_value head))) c.

Definition root (c : commitment) : bytes := subtree_root (entries c) 0 empty_hashes.

(** The loop of [proof]: the sibling at each depth, and the shrinking range. *)
Fixpoint proof_siblings (levels : nat) (target : bytes) (range : list (bytes * bytes))
    (depth : nat) (empties : list bytes) : list bytes :=
  match levels with
  | O => []
  | S levels' =>
      let split := partition_point (entry_left depth) range in
      let left := take split range in
      let right := drop split range in
      if bit target depth =? 0
      then subtree_root right (S depth) empties
             :: proof_siblings levels' target left (S depth) empties
      else subtree_root left (S depth) empties
             :: proof_siblings levels' target right (S depth) empties
  end.

Definition proof (c : commitment) (domain_id : DomainId) : DomainHeadProof :=
  let target := domain_head_key domain_id in
  {| hp_root := root c;
     hp_domain_id := domain_id;
     hp_value := snd <$> bget target c;
     hp_siblings := proof_siblings SMT_DEPTH target (entries c) 0 empty_hashes |}.

End operations.

(** ** Bits of a key *)

Lemma branch_depth_fits depth :
  (depth <= SMT_DEPTH)%nat → try_from 16 (Z.of_nat depth) = Some (Z.of_nat depth).
Proof. unfold SMT_DEPTH. intros. apply try_from_Some. split; [done|]. split; lia. Qed.

Lemma land_1 z : Z.land z 1 = Z.b2z (Z.odd z).
Proof.
  change 1 with (Z.ones 1). rewrite Z.land_ones, Zmod_odd by lia. by destruct (Z.odd z).
Qed.

Lemma bit_testbit key d :
  is_b256 key → (d < SMT_DEPTH)%nat →
  bit key d = Z.b2z (Z.testbit (from_be_bytes key) (255 - Z.of_nat d)).
Proof.
  unfold is_b256, SMT_DEPTH. intros Hk Hd. unfold bit. rewrite land_1.
  pose proof (Nat.div_mod_eq d 8). pose proof (Nat.mod_upper_bound d 8 ltac:(lia)).
  destruct (lookup_lt_is_Some_2 key (d / 8)%nat) as [b Hb]; [lia|]. rewrite Hb.
  change (default x00 (Some b)) with b.
  rewrite <-Z.bit0_odd, Z.shiftr_spec, Z.add_0_l by lia.
  rewrite <-(testbit_from_be key (d / 8)%nat b) by (done || lia). do 2 f_equal.
  unfold zlen. rewrite Hk. lia.
Qed.

(** Two keys have the same first [d] bits. *)
Definition agree (d : nat) (a b : bytes) : Prop :=
  from_be_bytes a / 2 ^ (256 - Z.of_nat d) = from_be_bytes b / 2 ^ (256 - Z.of_nat d).

Lemma div_pow2_step x d : (d < SMT_DEPTH)%nat →
  x / 2 ^ (255 - Z.of_nat d) =
    2 * (x / 2 ^ (256 - Z.of_nat d)) + Z.b2z (Z.testbit x (255 - Z.of_nat d)).
Proof.
  unfold SMT_DEPTH. intros Hd. rewrite Z.testbit_spec' by lia.
  replace (256 - Z.of_nat d) with (255 - Z.of_nat d + 1) by lia.
  rewrite Z.pow_add_r by lia. rewrite <-Z.div_div by lia. change (2 ^ 1) with 2.
  pose proof (Z.div_mod (x / 2 ^ (255 - Z.of_nat d)) 2). lia.
Qed.

Lemma agree_refl d a : agree d a a.
Proof. done. Qed.

Lemma agree_0 a b : is_b256 a → is_b256 b → agree 0 a b.
Proof.
  intros Ha%from_be_bytes_fits Hb%from_be_bytes_fits. unfold agree, fits in *.
  rewrite !Z.div_small; [done|lia..].
Qed.

Lemma agree_step d a b :
  is_b256 a → is_b256 b → (d < SMT_DEPTH)%nat → agree d a b → bit a d = bit b d →
  agree (S d) a b.
Proof.
  intros Ha Hb Hd Hag Hbit. rewrite !bit_testbit in Hbit by done. unfold agree in *.
  replace (256 - Z.of_nat (S d)) with (255 - Z.of_nat d) by lia.
  rewrite !div_pow2_step by done. congruence.
Qed.

Lemma agree_full a b : is_b256 a → is_b256 b → agree SMT_DEPTH a b → a = b.
Proof.
  intros Ha Hb. unfold agree, SMT_DEPTH. change (256 - Z.of_nat 256) with 0.
  rewrite Z.pow_0_r, !Z.div_1_r. intros E.
  by rewrite <-(to_from_be_bytes a 32 Ha), E, to_from_be_bytes.
Qed.

(** Keys are sorted, so among keys with the same first [d] bits the next bit is
    monotone. *)
Lemma bit_mono d a b :
  is_b256 a → is_b256 b → (d < SMT_DEPTH)%nat → agree d a b → tlt a b → bit a d ≤ bit b d.
Proof.
  intros Ha Hb Hd Hag Hlt. rewrite !bit_testbit by done.
  unfold tlt in Hlt. cbn [tcompare list_total_order] in Hlt.
  rewrite list_compare_from_be in Hlt by (unfold is_b256 in *; congruence).
  apply Z.compare_lt_iff in Hlt. unfold agree in Hag.
  pose proof (div_pow2_step (from_be_bytes a) d Hd). pose proof (div_pow2_step (from_be_bytes b) d Hd).
  assert (0 < 2 ^ (255 - Z.of_nat d)) by (unfold SMT_DEPTH in Hd; apply Z.pow_pos_nonneg; lia).
  assert (from_be_bytes a / 2 ^ (255 - Z.of_nat d) ≤ from_be_bytes b / 2 ^ (255 - Z.of_nat d))
    by (apply Z.div_le_mono; [done|by apply Z.lt_le_incl]).
  lia.
Qed.

Lemma bit_01 key d : bit key d = 0 ∨ bit key d = 1.
Proof. unfold bit. rewrite land_1. destruct (Z.odd _); simpl; lia. Qed.

(** ** Splitting a sorted range *)

(** A range of entries at depth [d]: sorted keys that agree with [t] so far. *)
Definition range_ok (d : nat) (t : bytes) (l : list (bytes * bytes)) : Prop :=
  StronglySorted tlt l.*1 ∧ Forall (λ e, is_b256 e.1 ∧ agree d e.1 t) l.

Lemma range_partitioned d t l :
  (d < SMT_DEPTH)%nat → is_b256 t → range_ok d t l →
  partitioned (λ e, if entry_left d e then Lt else Gt) l.
Proof.
  intros Hd Ht [Hs Hall] i j a b Hij Ha Hb.
  destruct (decide (i = j)) as [->|Hne]; [by simplify_eq|].
  rewrite Forall_lookup in Hall.
  destruct (Hall i a Ha) as [Hka Haa], (Hall j b Hb) as [Hkb Hab].
  assert (tlt a.1 b.1) as Hlt.
  { eapply (StronglySorted_lookup_lt _ _ i j); [exact Hs| | |lia];
      rewrite list_lookup_fmap, ?Ha, ?Hb; done. }
  assert (agree d a.1 b.1) as Hag by (unfold agree in *; congruence).
  pose proof (bit_mono d a.1 b.1 Hka Hkb Hd Hag Hlt). unfold entry_left.
  destruct (bit_01 a.1 d) as [E1|E1], (bit_01 b.1 d) as [E2|E2]; rewrite E1, E2 in *; done.
Qed.

Lemma filter_sorted {A : Type} `{TotalOrder A} {B : Type} (p : A * B → bool) (l : list (A * B)) :
  StronglySorted tlt l.*1 → StronglySorted tlt (List.filter p l).*1.
Proof.
  induction l as [|e l IH]; simpl; intros Hs; [done|].
  inversion Hs as [|? ? Hs' Hall]; subst. destruct (p e); simpl; [|auto].
  constructor; [auto|]. rewrite list.Forall_forall in Hall |- *. intros x Hx. apply Hall.
  apply list_elem_of_fmap in Hx as (y & -> & Hy). apply list_elem_of_In, List.filter_In in Hy as [Hy _].
  apply list_elem_of_fmap. exists y. split; [done|]. by apply list_elem_of_In.
Qed.

(** The half of a range that has the target's next bit. *)
Lemma range_ok_filter d t l (p : bytes * bytes → bool) :
  (d < SMT_DEPTH)%nat → is_b256 t → range_ok d t l →
  (∀ e, e ∈ l → p e = true → bit e.1 d = bit t d) → range_ok (S d) t (List.filter p l).
Proof.
  intros Hd Ht [Hs Hall] Hp. split; [by apply filter_sorted|].
  apply list.Forall_forall. intros e [He Hpe]%list_elem_of_In%List.filter_In.
  apply list_elem_of_In in He. rewrite list.Forall_forall in Hall.
  destruct (Hall e He) as [Hk Hag]. split; [done|]. apply agree_step; auto.
Qed.

Section completeness.
Context `{Keccak}.

Lemma empty_from_drop m n : (m <= n)%nat → drop (n - m) (empty_from n) = empty_from m.
Proof.
  induction n as [|n IH]; intros Hm.
  - by replace m with 0%nat by lia.
  - destruct (decide (m = S n)) as [->|Hne]; [by rewrite Nat.sub_diag|].
    replace (S n - m)%nat with (S (n - m)) by lia. simpl drop. apply IH. lia.
Qed.

Lemma empty_at_from d :
  (d <= SMT_DEPTH)%nat →
  empty_at empty_hashes d = default B256_ZERO (head (empty_from (SMT_DEPTH - d))).
Proof.
  intros Hd. unfold empty_at, empty_hashes.
  rewrite <-(empty_from_drop (SMT_DEPTH - d) SMT_DEPTH) by lia.
  replace (SMT_DEPTH - (SMT_DEPTH - d))%nat with d by lia.
  rewrite head_lookup, lookup_drop. by rewrite Nat.add_0_r.
Qed.

Lemma empty_at_step d :
  (d < SMT_DEPTH)%nat →
  empty_at empty_hashes d =
    branch_hash d (empty_at empty_hashes (S d)) (empty_at empty_hashes (S d)).
Proof.
  intros Hd. rewrite !empty_at_from by lia.
  replace (SMT_DEPTH - d)%nat with (S (SMT_DEPTH - S d)) by lia. cbn [empty_from head].
  change (default B256_ZERO (Some ?x)) with x. f_equal. lia.
Qed.

Lemma empty_leaf : empty_at empty_hashes SMT_DEPTH = keccak256 empty_preimage.
Proof. by rewrite empty_at_from, Nat.sub_diag by lia. Qed.

Lemma subtree_step l d :
  (d < SMT_DEPTH)%nat →
  subtree_root l d empty_hashes =
    branch_hash d
      (subtree_root (take (partition_point (entry_left d) l) l) (S d) empty_hashes)
      (subtree_root (drop (partition_point (entry_left d) l) l) (S d) empty_hashes).
Proof.
  intros Hd. unfold subtree_root.
  replace (SMT_DEPTH - d)%nat with (S (SMT_DEPTH - S d)) by lia.
  destruct l as [|e l]; [|done]. rewrite take_nil, drop_nil.
  destruct (SMT_DEPTH - S d)%nat; cbn [subtree_levels]; by apply empty_at_step.
Qed.

Lemma subtree_leaf l :
  subtree_root l SMT_DEPTH empty_hashes =
    match l with [] => empty_at empty_hashes SMT_DEPTH | e :: _ => e.2 end.
Proof. unfold subtree_root. rewrite Nat.sub_diag. by destruct l. Qed.

(** Climbing with the siblings that [proof] collects rebuilds the subtree. *)
Lemma climb_proof t n range d (pre : list bytes) :
  (d + n = SMT_DEPTH)%nat → length pre = d → is_b256 t → range_ok d t range →
  foldl (climb t (pre ++ proof_siblings n t range d empty_hashes))
    (subtree_root (List.filter (λ e, teqb e.1 t) range) SMT_DEPTH empty_hashes)
    (rev (seq d n)) = subtree_root range d empty_hashes.
Proof.
  revert range d pre. induction n as [|n IH]; intros range d pre Hn Hpre Ht Hr.
  - replace d with SMT_DEPTH in * by lia. simpl. f_equal. destruct Hr as [_ Hall].
    induction Hall as [|e l [Hk Hag] _ IHl]; simpl; [done|].
    rewrite (agree_full _ _ Hk Ht Hag), teqb_refl. by f_equal.
  - assert (d < SMT_DEPTH)%nat as Hd by lia. cbn [seq rev]. rewrite foldl_app. cbn [foldl].
    rewrite (subtree_step range) by done. cbn [proof_siblings].
    destruct (partition_point_split (entry_left d) range) as [Etake Edrop];
      [by eapply range_partitioned|].
    set (p := partition_point (entry_left d) range) in *.
    assert (∀ q, (∀ e, teqb e.1 t = true → q e = true) →
      List.filter (λ e, teqb e.1 t) (List.filter q range)
        = List.filter (λ e, teqb e.1 t) range) as Hff.
    { intros q Hq. clear -Hq. induction range as [|e l IHl]; simpl; [done|].
      destruct (q e) eqn:Eq; simpl; rewrite IHl; destruct (teqb e.1 t) eqn:Et; try done.
      by rewrite (Hq e Et) in Eq. }
    destruct (Z.eqb_spec (bit t d) 0) as [Eb|Eb]; rewrite cons_middle, app_assoc.
    + rewrite <-(Hff (entry_left d))
        by (intros e He%teqb_eq; unfold entry_left; by rewrite He, Eb).
      rewrite <-Etake, IH; [|lia|rewrite length_app; simpl; lia|done|].
      * unfold climb. rewrite Eb. cbn [Z.eqb]. rewrite <-app_assoc; cbn [app]; by rewrite list_lookup_middle.
      * rewrite Etake. apply range_ok_filter; [done..|]. intros e _ He%Z.eqb_eq. congruence.
    + rewrite <-(Hff (λ e, negb (entry_left d e)))
        by (intros e He%teqb_eq; unfold entry_left; by rewrite He, (proj2 (Z.eqb_neq _ _) Eb)).
      rewrite <-Edrop, IH; [|lia|rewrite length_app; simpl; lia|done|].
      * unfold climb. rewrite (proj2 (Z.eqb_neq _ _) Eb).
        rewrite <-app_assoc; cbn [app]; by rewrite list_lookup_middle.
      * rewrite Edrop. apply range_ok_filter; [done..|].
        intros e _ He%negb_true_iff%Z.eqb_neq. destruct (bit_01 e.1 d), (bit_01 t d); lia.
Qed.
End completeness.

Local Opaque empty_hashes subtree_root.

(** ** The commitment and its proofs *)

Section commitment.
Context `{Keccak}.

(** Keys are sorted and derived from the domain they belong to. *)
Definition wf_commitment (c : commitment) : Prop :=
  sorted c ∧ Forall (λ e, e.1 = domain_head_key e.2.1 ∧ wf_head e.2.2) c.

Definition lookup_head (c : commitment) (domain_id : DomainId) : option DomainHead :=
  snd <$> bget (domain_head_key domain_id) c.

Lemma domain_head_key_b256 id : is_b256 (domain_head_key id).
Proof. apply keccak256_length. Qed.

Lemma wf_insert c id h : wf_commitment c → wf_head h → wf_commitment (insert c id h).
Proof.
  intros [Hs Hall] Hh. split; [by apply sorted_binsert|].
  rewrite list.Forall_forall in *. intros e [->|He]%binsert_elem_of; [done|auto].
Qed.

Lemma wf_remove c id : wf_commitment c → wf_commitment (remove c id).2.
Proof.
  intros [Hs Hall]. split; [by apply sorted_bremove|]. simpl. rewrite bremove_filter.
  rewrite list.Forall_forall in *. intros e [_ He]%list_elem_of_filter. auto.
Qed.

Lemma entries_keys c : (entries c).*1 = bkeys c.
Proof.
  unfold entries, bkeys. induction c as [|[k [id h]] c IH]; simpl; [done|]. by f_equal.
Qed.

Lemma entries_target c t :
  sorted c →
  List.filter (λ e, teqb e.1 t) (entries c) =
    match bget t c with
    | Some (_, h) => [(t, leaf_hash t (domain_head_value h))]
    | None => []
    end.
Proof.
  unfold sorted. induction c as [|[k [id h]] c IH]; simpl; intros Hs; [done|].
  inversion Hs as [|? ? Hs' Hall]; subst. destruct (teqb k t) eqn:E.
  - apply teqb_eq in E as ->. rewrite teqb_refl, IH by done.
    by rewrite (bget_below c t t) by auto.
  - rewrite IH by done. apply teqb_neq in E.
    by rewrite (proj2 (teqb_neq t k)) by congruence.
Qed.

Lemma entries_range c t : wf_commitment c → is_b256 t → range_ok 0 t (entries c).
Proof.
  intros [Hs Hall] Ht. split; [by rewrite entries_keys|].
  unfold entries. apply Forall_fmap. eapply list.Forall_impl; [exact Hall|].
  intros [k [id h]] [Hk _]; simpl in *. subst. pose proof (domain_head_key_b256 id).
  split; [done|]. by apply agree_0.
Qed.

Lemma length_proof_siblings n t range d E : length (proof_siblings n t range d E) = n.
Proof.
  revert range d. induction n as [|n IH]; intros range d; simpl; [done|].
  destruct (bit t d =? 0); simpl; by rewrite IH.
Qed.

Lemma verify_intro r id value siblings :
  length siblings = SMT_DEPTH →
  foldl (climb (domain_head_key id) siblings) (start_hash (domain_head_key id) value)
    (rev (seq 0 SMT_DEPTH)) = r →
  verify {| hp_root := r; hp_domain_id := id; hp_value := value; hp_siblings := siblings |} = Ok tt.
Proof.
  intros Hl Hr. unfold verify. cbn [hp_root hp_domain_id hp_value hp_siblings]. cbv zeta.
  rewrite Hr, bool_decide_true by reflexivity. unfold zlen. by rewrite Hl, Z.eqb_refl.
Qed.

Lemma start_hash_proof c t :
  sorted c →
  start_hash t (snd <$> bget t c) =
    subtree_root (List.filter (λ e, teqb e.1 t) (entries c)) SMT_DEPTH empty_hashes.
Proof.
  intros Hs. rewrite subtree_leaf, entries_target by done. by destruct (bget t c) as [[id' h]|].
Qed.

Lemma proof_verifies_aux c id : wf_commitment c → verify (proof c id) = Ok tt.
Proof.
  intros Hc. unfold proof. cbv zeta. apply verify_intro; [apply length_proof_siblings|].
  rewrite start_hash_proof by apply Hc. unfold root.
  pose proof (climb_proof (domain_head_key id) SMT_DEPTH (entries c) 0 [] eq_refl eq_refl
    (domain_head_key_b256 id) (entries_range c _ Hc (domain_head_key_b256 id))) as Hclimb.
  by rewrite app_nil_l in Hclimb.
Qed.

(** *** What a verifying proof hashes *)

Definition sibling_at (p : DomainHeadProof) (d : nat) : bytes :=
  default B256_ZERO (hp_siblings p !! d).

(** The hash the verifier holds when it has climbed up to depth [d]. *)
Definition node_at (p : DomainHeadProof) (d : nat) : bytes :=
  foldl (climb (domain_head_key (hp_domain_id p)) (hp_siblings p))
    (start_hash (domain_head_key (hp_domain_id p)) (hp_value p)) (rev (seq d (SMT_DEPTH - d))).

Definition branch_at (p : DomainHeadProof) (d : nat) : bytes :=
  if bit (domain_head_key (hp_domain_id p)) d =? 0
  then branch_preimage d (node_at p (S d)) (sibling_at p d)
  else branch_preimage d (sibling_at p d) (node_at p (S d)).

Definition leaf_preimages (p : DomainHeadProof) : list bytes :=
  match hp_value p with
  | Some v =>
      [leaf_preimage (domain_head_key (hp_domain_id p)) (domain_head_value v); value_preimage v]
  | None => [empty_preimage]
  end.

Definition proof_preimages (p : DomainHeadProof) : list bytes :=
  leaf_preimages p ++ map (branch_at p) (seq 0 SMT_DEPTH).

Definition collides (l1 l2 : list bytes) : Prop :=
  ∃ x y, x ∈ l1 ∧ y ∈ l2 ∧ x ≠ y ∧ keccak256 x = keccak256 y.

Definition wf_proof (p : DomainHeadProof) : Prop :=
  Forall is_b256 (hp_siblings p) ∧ from_option wf_head True (hp_value p).

Lemma node_step p d : (d < SMT_DEPTH)%nat → node_at p d = keccak256 (branch_at p d).
Proof.
  intros Hd. unfold node_at at 1, branch_at.
  replace (SMT_DEPTH - d)%nat with (S (SMT_DEPTH - S d)) by lia. cbn [seq rev].
  rewrite foldl_app. cbn [foldl]. fold (node_at p (S d)). unfold climb at 1, sibling_at.
  by destruct (bit _ d =? 0).
Qed.

Lemma node_length p d : (d <= SMT_DEPTH)%nat → is_b256 (node_at p d).
Proof.
  intros Hd. destruct (decide (d = SMT_DEPTH)) as [->|Hne].
  - unfold node_at. rewrite Nat.sub_diag. simpl.
    destruct (hp_value p); simpl; [|rewrite empty_leaf]; apply keccak256_length.
  - rewrite node_step by lia. apply keccak256_length.
Qed.

Lemma sibling_length p d : wf_proof p → is_b256 (sibling_at p d).
Proof.
  intros [Hs _]. unfold sibling_at. destruct (hp_siblings p !! d) as [x|] eqn:E; [|done].
  rewrite Forall_lookup in Hs. by eapply Hs.
Qed.

Lemma verify_inv p : verify p = Ok tt → zlen (hp_siblings p) = 256 ∧ node_at p 0 = hp_root p.
Proof. unfold verify, node_at. intros Hv. ok_inv. bool_prop. by rewrite Nat.sub_0_r. Qed.

Lemma branch_preimage_inj d l1 r1 l2 r2 :
  length l1 = length l2 → branch_preimage d l1 r1 = branch_preimage d l2 r2 → l1 = l2 ∧ r1 = r2.
Proof.
  unfold branch_preimage. intros Hl E. apply app_inv_head, app_inv_head in E.
  by apply app_inj_1.
Qed.

Lemma descend p1 p2 n :
  (n <= SMT_DEPTH)%nat → hp_domain_id p1 = hp_domain_id p2 → wf_proof p1 → wf_proof p2 →
  node_at p1 0 = node_at p2 0 →
  node_at p1 n = node_at p2 n ∨ collides (proof_preimages p1) (proof_preimages p2).
Proof.
  intros Hn Hid Hw1 Hw2 H0. induction n as [|n IH]; [left; exact H0|].
  destruct IH as [IH|IH]; [lia| |right; exact IH]. rewrite !node_step in IH by lia.
  destruct (decide (branch_at p1 n = branch_at p2 n)) as [E|Hne].
  - left. unfold branch_at in E. rewrite <-Hid in E.
    assert (length (node_at p1 (S n)) = length (node_at p2 (S n))) as Hl
      by (transitivity 32%nat; [|symmetry]; apply node_length; lia).
    assert (length (sibling_at p1 n) = length (sibling_at p2 n)) as Hsl
      by (transitivity 32%nat; [|symmetry]; by apply sibling_length).
    destruct (bit _ n =? 0).
    + apply (branch_preimage_inj n _ _ _ _ Hl) in E as [E _]. exact E.
    + apply (branch_preimage_inj n _ _ _ _ Hsl) in E as [_ E]. exact E.
  - right. exists (branch_at p1 n), (branch_at p2 n). unfold proof_preimages.
    rewrite !elem_of_app. split; [|split; [|split; [exact Hne|exact IH]]]; right;
      apply list_elem_of_fmap; exists n; (split; [reflexivity|]); apply elem_of_seq; lia.
Qed.

Lemma node_leaf p :
  node_at p SMT_DEPTH = start_hash (domain_head_key (hp_domain_id p)) (hp_value p).
Proof. unfold node_at. by rewrite Nat.sub_diag. Qed.

Local Opaque node_at branch_at.

Lemma collides_leaf p1 p2 :
  collides (leaf_preimages p1) (leaf_preimages p2) →
  collides (proof_preimages p1) (proof_preimages p2).
Proof.
  intros (x & y & Hx & Hy & Hxy). exists x, y. unfold proof_preimages. rewrite !elem_of_app.
  split; [by left|]. split; [by left|]. exact Hxy.
Qed.

Lemma leaf_preimage_inj k v w : leaf_preimage k v = leaf_preimage k w → v = w.
Proof. unfold leaf_preimage. intros E. by do 3 apply app_inv_head in E. Qed.

Lemma value_preimage_inj v w :
  wf_head v → wf_head w → value_preimage v = value_preimage w → v = w.
Proof.
  intros [Hv _] [Hw _] E. unfold value_preimage in E. apply app_inv_head in E.
  apply app_inj_1 in E as [E1 E2]; [|unfold is_b256 in *; congruence].
  destruct v, w; simpl in *; congruence.
Qed.

Lemma leaf_not_empty k v : is_b256 k → leaf_preimage k v ≠ empty_preimage.
Proof.
  intros Hk E. apply (f_equal length) in E. unfold leaf_preimage, empty_preimage in E.
  rewrite !length_app in E. unfold is_b256 in Hk. rewrite Hk in E. simpl in E. lia.
Qed.

(** Equal leaves carry equal values. *)
Lemma leaf_binding p1 p2 :
  hp_domain_id p1 = hp_domain_id p2 → wf_proof p1 → wf_proof p2 →
  node_at p1 SMT_DEPTH = node_at p2 SMT_DEPTH →
  hp_value p1 = hp_value p2 ∨ collides (leaf_preimages p1) (leaf_preimages p2).
Proof.
  intros Hid [_ Hw1] [_ Hw2]. rewrite !node_leaf. unfold leaf_preimages. rewrite <-Hid.
  set (k := domain_head_key (hp_domain_id p1)).
  assert (is_b256 k) as Hk by apply domain_head_key_b256.
  destruct (hp_value p1) as [v1|], (hp_value p2) as [v2|]; cbn [start_hash from_option] in *;
    unfold leaf_hash; rewrite ?empty_leaf; intros E.
  - destruct (decide (leaf_preimage k (domain_head_value v1)
      = leaf_preimage k (domain_head_value v2))) as [Ep|Hne].
    + apply leaf_preimage_inj in Ep. unfold domain_head_value in Ep.
      destruct (decide (value_preimage v1 = value_preimage v2)) as [Ev|Hne].
      * left. f_equal. by apply value_preimage_inj.
      * right. exists (value_preimage v1), (value_preimage v2).
        split; [right; left|]. split; [right; left|]. done.
    + right. eexists _, _. split; [left|]. split; [left|]. done.
  - right. eexists _, _. split; [left|]. split; [left|]. split; [by apply leaf_not_empty|done].
  - right. eexists _, _. split; [left|]. split; [left|].
    split; [apply not_eq_sym; by apply leaf_not_empty|done].
  - by left.
Qed.

Lemma proof_binding_aux p1 p2 :
  wf_proof p1 → wf_proof p2 → verify p1 = Ok tt → verify p2 = Ok tt →
  hp_root p1 = hp_root p2 → hp_domain_id p1 = hp_domain_id p2 →
  hp_value p1 = hp_value p2 ∨ collides (proof_preimages p1) (proof_preimages p2).
Proof.
  intros Hw1 Hw2 [_ H1]%verify_inv [_ H2]%verify_inv Hr Hid.
  destruct (descend p1 p2 SMT_DEPTH) as [Hd|Hd]; [lia|done|done|done|congruence| |by right].
  destruct (leaf_binding p1 p2) as [Hv|Hc]; [done..|by left|].
  right. by apply collides_leaf.
Qed.

(** Every hash in a tree is 32 bytes. *)
Lemma subtree_length n l d :
  (d + n = SMT_DEPTH)%nat → Forall (λ e, is_b256 e.2) l →
  is_b256 (subtree_levels n l d empty_hashes).
Proof.
  intros Hd Hall. destruct Hall as [|e l He Hall], n as [|n]; cbn [subtree_levels];
    try apply keccak256_length; try done.
  - replace d with SMT_DEPTH by lia. rewrite empty_leaf. apply keccak256_length.
  - rewrite empty_at_step by lia. apply keccak256_length.
Qed.

Lemma proof_siblings_b256 n t range d :
  (d + n = SMT_DEPTH)%nat → Forall (λ e, is_b256 e.2) range →
  Forall is_b256 (proof_siblings n t range d empty_hashes).
Proof.
  revert range d. induction n as [|n IH]; intros range d Hd Hall; cbn [proof_siblings];
    [constructor|].
  pose proof (Forall_take _ (partition_point (entry_left d) range) _ Hall).
  pose proof (Forall_drop _ (partition_point (entry_left d) range) _ Hall).
  Local Transparent subtree_root.
  destruct (bit t d =? 0); constructor; (apply IH; [lia|done]) || apply subtree_length;
    done || lia.
Qed.

Local Opaque subtree_root.

Lemma hp_root_proof c id : hp_root (proof c id) = root c.
Proof. reflexivity. Qed.

Lemma hp_value_proof c id : hp_value (proof c id) = lookup_head c id.
Proof. reflexivity. Qed.

Lemma hp_domain_id_proof c id : hp_domain_id (proof c id) = id.
Proof. reflexivity. Qed.

Lemma length_hp_siblings c id : length (hp_siblings (proof c id)) = SMT_DEPTH.
Proof. unfold proof. cbv zeta. cbn [hp_siblings]. apply length_proof_siblings. Qed.

Lemma wf_proof_of c id : wf_commitment c → wf_proof (proof c id).
Proof.
  intros [Hs Hall]. split; cbn [proof hp_siblings hp_value].
  - apply proof_siblings_b256; [done|]. unfold entries. apply Forall_fmap.
    apply list.Forall_forall. intros [k [i h]] _. apply keccak256_length.
  - destruct (bget (domain_head_key id) c) as [[i h]|] eqn:E; [|done]. simpl.
    apply bget_elem_of in E. rewrite list.Forall_forall in Hall. apply (Hall _ E).
Qed.

End commitment.

(** ** Results *)

Section results.
Context `{Keccak}.

(** Commitments the API can build. *)
Inductive built : commitment → Prop :=
| built_new : built new
| built_insert c id h : built c → wf_head h → built (insert c id h)
| built_remove c id : built c → built (remove c id).2.

Lemma built_wf c : built c → wf_commitment c.
Proof.
  induction 1; [|by apply wf_insert|by apply wf_remove]. split; constructor.
Qed.

(** Proof completeness: whatever was inserted and removed, the proof the
    commitment produces for any domain verifies, is rooted at the commitment's
    root, and carries the committed head, or [None] for an absent domain. *)
Theorem head_proof_complete c id :
  built c →
  verify (proof c id) = Ok tt ∧ hp_root (proof c id) = root c ∧
  hp_value (proof c id) = lookup_head c id.
Proof.
  intros Hc%built_wf. split; [by apply proof_verifies_aux|]. split; reflexivity.
Qed.

(** C17. Proof soundness: a proof that verifies against the root of a commitment
    shows exactly what the commitment holds for its domain (presence with that
    head, or absence); otherwise two of the listed preimages are a Keccak-256
    collision. *)
Theorem head_proof_sound c p :
  built c → wf_proof p → verify p = Ok tt → hp_root p = root c →
  hp_value p = lookup_head c (hp_domain_id p) ∨
  collides (proof_preimages p) (proof_preimages (proof c (hp_domain_id p))).
Proof.
  intros Hc%built_wf Hp Hv Hr.
  rewrite <-hp_value_proof. rewrite <-(hp_root_proof c (hp_domain_id p)) in Hr.
  pose proof (eq_sym (hp_domain_id_proof c (hp_domain_id p))) as E.
  exact (proof_binding_aux _ _ Hp (wf_proof_of _ _ Hc) Hv (proof_verifies_aux _ _ Hc) Hr E).
Qed.

(** The root commits to every head: commitments with the same root agree on
    every domain, or their proofs for it exhibit a Keccak-256 collision. *)
Theorem heads_root_binding c1 c2 id :
  built c1 → built c2 → root c1 = root c2 →
  lookup_head c1 id = lookup_head c2 id ∨
  collides (proof_preimages (proof c1 id)) (proof_preimages (proof c2 id)).
Proof.
  intros H1%built_wf H2%built_wf Hr.
  rewrite <-(hp_value_proof c1), <-(hp_value_proof c2).
  rewrite <-(hp_root_proof c1 id), <-(hp_root_proof c2 id) in Hr.
  pose proof (hp_domain_id_proof c1 id) as E1. rewrite <-(hp_domain_id_proof c2 id) in E1.
  exact (proof_binding_aux _ _ (wf_proof_of _ _ H1) (wf_proof_of _ _ H2)
    (proof_verifies_aux _ _ H1) (proof_verifies_aux _ _ H2) Hr E1).
Qed.

Local Opaque root.

(** Heads behave like a map, and the root is independent of history: insert
    and remove act on one domain only, and two insertions of domains with
    different keys commute, root included. *)
Theorem heads_map_laws c id1 id2 h1 h2 :
  built c → domain_head_key id1 ≠ domain_head_key id2 →
  lookup_head (insert c id1 h1) id1 = Some h1 ∧
  lookup_head (insert c id1 h1) id2 = lookup_head c id2 ∧
  (remove c id1).1 = lookup_head c id1 ∧
  lookup_head (remove c id1).2 id1 = None ∧
  lookup_head (remove c id1).2 id2 = lookup_head c id2 ∧
  root (insert (insert c id1 h1) id2 h2) = root (insert (insert c id2 h2) id1 h1) ∧
  (lookup_head c id1 = None → root (remove (insert c id1 h1) id1).2 = root c).
Proof.
  intros [Hs _]%built_wf Hne. unfold lookup_head, insert, remove. simpl.
  rewrite bget_binsert_eq, bget_binsert_ne, bget_bremove_eq, bget_bremove_ne by congruence.
  do 5 (split; [reflexivity|]). split.
  - rewrite (binsert_comm _ _ (domain_head_key id1)) by congruence. reflexivity.
  - destruct (bget (domain_head_key id1) c) eqn:E; [intros [=]|]. intros _.
    rewrite bremove_binsert by assumption. reflexivity.
Qed.

End results.

Module HeadsWitness.

Definition id (n : Z) : DomainId := repeat_byte 32 n.

Definition head_of (n : Z) : DomainHead :=
  {| domain_block_hash := repeat_byte 32 n; state_root := repeat_byte 32 (n + 1) |}.

Definition heads2 : commitment :=
  @insert Toy.toy_keccak (@insert Toy.toy_keccak new (id 1) (head_of 1)) (id 130) (head_of 2).

Lemma heads2_built : @built Toy.toy_keccak heads2.
Proof. apply built_insert; [apply built_insert; [apply built_new|]|]; by split. Qed.

End HeadsWitness.

Import HeadsWitness.

Lemma head_proof_complete_witness :
  @verify Toy.toy_keccak (@proof Toy.toy_keccak heads2 (id 1)) = Ok tt ∧
  hp_root (@proof Toy.toy_keccak heads2 (id 1)) = @root Toy.toy_keccak heads2 ∧
  hp_value (@proof Toy.toy_keccak heads2 (id 1)) =
    @lookup_head Toy.toy_keccak heads2 (id 1).
Proof. apply (@head_proof_complete Toy.toy_keccak heads2 (id 1)). apply heads2_built. Defined.

Lemma head_proof_sound_witness :
  hp_value (@proof Toy.toy_keccak heads2 (id 7)) = @lookup_head Toy.toy_keccak heads2 (id 7) ∨
  @collides Toy.toy_keccak
    (@proof_preimages Toy.toy_keccak (@proof Toy.toy_keccak heads2 (id 7)))
    (@proof_preimages Toy.toy_keccak (@proof Toy.toy_keccak heads2 (id 7))).
Proof.
  apply (@head_proof_sound Toy.toy_keccak heads2 (@proof Toy.toy_keccak heads2 (id 7))).
  - apply heads2_built.
  - apply wf_proof_of, built_wf, heads2_built.
  - vm_compute. reflexivity.
  - reflexivity.
Defined.

Lemma heads_root_binding_witness :
  @lookup_head Toy.toy_keccak heads2 (id 1) = @lookup_head Toy.toy_keccak heads2 (id 1) ∨
  @collides Toy.toy_keccak
    (@proof_preimages Toy.toy_keccak (@proof Toy.toy_keccak heads2 (id 1)))
    (@proof_preimages Toy.toy_keccak (@proof Toy.toy_keccak heads2 (id 1))).
Proof.
  apply (@heads_root_binding Toy.toy_keccak heads2 heads2 (id 1));
    [apply heads2_built|apply heads2_built|reflexivity].
Defined.

Lemma heads_map_laws_witness :
  @lookup_head Toy.toy_keccak (@insert Toy.toy_keccak heads2 (id 3) (head_of 3)) (id 3)
    = Some (head_of 3).
Proof.
  apply (@heads_map_laws Toy.toy_keccak heads2 (id 3) (id 1) (head_of 3) (head_of 1));
    [apply heads2_built|by_evaluation].
Defined.
