(* ===== verification/Rlp.v ===== *)
(** The interface of the [alloy_rlp] crate, as the repository uses it.

    [AlloyRlp] lists the calls (headers of lists, byte strings, fixed-size arrays,
    unsigned integers) and [AlloyRlpLaws] states what canonical RLP promises: a value
    decodes from its encoding whatever follows it, and what decodes is its
    canonical encoding. Module [Spec] is the encoding of the Ethereum yellow
    paper, an instance of the class whose laws are proved; the witnesses run
    the development with it. *)

From Stdlib Require Import Strings.Byte.
From S2P Require Import Prelude Bytes.

Local Open Scope Z_scope.

(** A decoder returns an error message, or the value and the rest of the input. *)
Notation rlp_result A := (string + A * bytes)%type.

Class AlloyRlp := {
  (** [Header { list: true, payload_length }.encode]. *)
  header_list : Z → bytes;
  (** [Header::decode]: is it a list, and its payload length. *)
  decode_header : bytes → rlp_result (bool * Z);
  (** [<[u8]>::encode], [Bytes::encode], [Address::encode], [B256::encode]. *)
  encode_str : bytes → bytes;
  (** [Bytes::decode]. *)
  decode_str : bytes → rlp_result bytes;
  (** [Address::decode] and [B256::decode], by length. *)
  decode_fixed : nat → bytes → rlp_result bytes;
  (** [encode] of an unsigned integer, and [decode] at a width in bits. *)
  encode_uint : Z → bytes;
  decode_uint : Z → bytes → rlp_result Z;
}.

Class AlloyRlpLaws `{AlloyRlp} := {
  header_roundtrip : ∀ n rest, u64 n → n ≤ zlen rest →
    decode_header (header_list n ++ rest) = inr ((true, n), rest);
  header_canonical : ∀ b n rest, decode_header b = inr ((true, n), rest) →
    b = header_list n ++ rest ∧ u64 n ∧ n ≤ zlen rest;
  header_nonempty : ∀ n, header_list n ≠ [];
  str_roundtrip : ∀ s rest, u64 (zlen s) → decode_str (encode_str s ++ rest) = inr (s, rest);
  str_canonical : ∀ b s rest, decode_str b = inr (s, rest) →
    b = encode_str s ++ rest ∧ u64 (zlen s);
  str_nonempty : ∀ s, encode_str s ≠ [];
  fixed_roundtrip : ∀ n s rest, Z.of_nat n < 2 ^ 64 → length s = n →
    decode_fixed n (encode_str s ++ rest) = inr (s, rest);
  fixed_canonical : ∀ n b s rest, decode_fixed n b = inr (s, rest) →
    b = encode_str s ++ rest ∧ length s = n;
  uint_roundtrip : ∀ w v rest, w ∈ [8; 64; 128; 256] → fits w v →
    decode_uint w (encode_uint v ++ rest) = inr (v, rest);
  uint_canonical : ∀ w b v rest, w ∈ [8; 64; 128; 256] →
    decode_uint w b = inr (v, rest) → b = encode_uint v ++ rest ∧ fits w v;
}.

(** ** The Ethereum encoding *)

Module Spec.

(** Big-endian bytes without leading zeros. *)
Definition be_min (n : Z) : bytes :=
  if n =? 0 then [] else to_be_bytes (Z.to_nat (Z.log2 n / 8 + 1)) n.

Definition leading_zero (l : bytes) : bool :=
  match l with b :: _ => byte_val b =? 0 | [] => false end.

(** A header with the offsets of its short and long forms. *)
Definition header (short long : Z) (n : Z) : bytes :=
  if n <? 56 then [byte_of (short + n)]
  else byte_of (long + zlen (be_min n)) :: be_min n.

Definition header_list (n : Z) : bytes := header 192 247 n.

Definition encode_str (s : bytes) : bytes :=
  match s with
  | [b] => if byte_val b <? 128 then [b] else header 128 183 1 ++ [b]
  | _ => header 128 183 (zlen s) ++ s
  end.

Definition encode_uint (v : Z) : bytes := encode_str (be_min v).

(** The length bytes of a long header. *)
Definition long_length (k : Z) (rest : bytes) : rlp_result Z :=
  match get_range rest 0 k with
  | None => inl "input too short"
  | Some l =>
      if leading_zero l then inl "leading zero"
      else if from_be_bytes l <? 56 then inl "non-canonical size"
      else inr (from_be_bytes l, drop (Z.to_nat k) rest)
  end.

(** The payload must be present. *)
Definition checked_header (list : bool) (r : rlp_result Z) : rlp_result (bool * Z) :=
  match r with
  | inl e => inl e
  | inr (n, rest) => if zlen rest <? n then inl "input too short" else inr ((list, n), rest)
  end.

Definition decode_header (b : bytes) : rlp_result (bool * Z) :=
  match b with
  | [] => inl "input too short"
  | b0 :: rest =>
      let x := byte_val b0 in
      if x <? 128 then inr ((false, 1), b)
      else if x <? 184 then
        let n := x - 128 in
        if (n =? 1) && match rest with c :: _ => byte_val c <? 128 | [] => false end
        then inl "non-canonical single byte"
        else checked_header false (inr (n, rest))
      else if x <? 192 then checked_header false (long_length (x - 183) rest)
      else if x <? 248 then checked_header true (inr (x - 192, rest))
      else checked_header true (long_length (x - 247) rest)
  end.

Definition decode_str (b : bytes) : rlp_result bytes :=
  match decode_header b with
  | inl e => inl e
  | inr ((true, _), _) => inl "unexpected list"
  | inr ((false, n), rest) => inr (take (Z.to_nat n) rest, drop (Z.to_nat n) rest)
  end.

Definition decode_fixed (n : nat) (b : bytes) : rlp_result bytes :=
  match decode_str b with
  | inl e => inl e
  | inr (s, rest) => if (length s =? n)%nat then inr (s, rest) else inl "unexpected length"
  end.

Definition decode_uint (w : Z) (b : bytes) : rlp_result Z :=
  match decode_str b with
  | inl e => inl e
  | inr (s, rest) =>
      if w <? 8 * zlen s then inl "overflow"
      else if leading_zero s then inl "leading zero"
      else inr (from_be_bytes s, rest)
  end.

Lemma be_min_length n : 0 < n → zlen (be_min n) = Z.log2 n / 8 + 1.
Proof.
  intros Hn. unfold be_min. rewrite (proj2 (Z.eqb_neq n 0)), zlen_to_be_bytes by lia.
  pose proof (Z.log2_nonneg n). pose proof (Z.div_pos (Z.log2 n) 8). lia.
Qed.

Lemma be_min_from n : 0 ≤ n → from_be_bytes (be_min n) = n.
Proof.
  intros Hn. unfold be_min. destruct (Z.eqb_spec n 0) as [->|Hne]; [done|].
  apply from_to_be_bytes. split; [done|]. pose proof (Z.log2_nonneg n).
  pose proof (Z.div_pos (Z.log2 n) 8 ltac:(lia) ltac:(lia)).
  rewrite Z2Nat.id by lia. apply Z.log2_lt_pow2; [lia|].
  pose proof (Z.mod_pos_bound (Z.log2 n) 8 ltac:(lia)). pose proof (Z.div_mod (Z.log2 n) 8). lia.
Qed.

Lemma log2_first b l :
  0 < byte_val b → Z.log2 (from_be_bytes (b :: l)) / 8 = zlen l.
Proof.
  intros Hb. rewrite from_be_bytes_cons. pose proof (from_be_bytes_range l).
  pose proof (byte_val_range b). pose proof (zlen_nonneg l).
  assert (256 ^ zlen l = 2 ^ (8 * zlen l)) as E by (by rewrite Z.pow_mul_r by lia).
  rewrite E in *.
  assert (0 < 2 ^ (8 * zlen l)) by (apply Z.pow_pos_nonneg; lia).
  set (P := 2 ^ (8 * zlen l)) in *. set (n := byte_val b * P + from_be_bytes l).
  assert (P ≤ n < P * 256) as [Hlo Hhi] by (unfold n; nia).
  assert (8 * zlen l ≤ Z.log2 n) by (apply Z.log2_le_pow2; [lia|exact Hlo]).
  assert (Z.log2 n < 8 * zlen l + 8).
  { apply Z.log2_lt_pow2; [lia|]. rewrite Z.pow_add_r by lia. exact Hhi. }
  symmetry. apply (Z.div_unique_pos _ 8 _ (Z.log2 n - 8 * zlen l)); lia.
Qed.

Lemma be_min_unique l : leading_zero l = false → be_min (from_be_bytes l) = l.
Proof.
  destruct l as [|b l]; [done|]. intros Hz%Z.eqb_neq. pose proof (byte_val_range b).
  unfold be_min. pose proof (from_be_bytes_range l).
  rewrite (proj2 (Z.eqb_neq _ 0)).
  - rewrite log2_first by lia. apply to_from_be_bytes. unfold zlen. simpl. lia.
  - rewrite from_be_bytes_cons. pose proof (Z.pow_pos_nonneg 256 (zlen l) ltac:(lia) (zlen_nonneg l)).
    nia.
Qed.

Lemma be_min_no_zero n : 0 ≤ n → leading_zero (be_min n) = false.
Proof.
  intros Hn. destruct (be_min n) as [|b l] eqn:E; [done|]. simpl. apply Z.eqb_neq. intros Hb.
  assert (0 < n) by (destruct (decide (n = 0)) as [->|]; [done|lia]).
  pose proof (be_min_length n) as Hl. pose proof (be_min_from n Hn) as Hf.
  rewrite E in Hl, Hf. rewrite from_be_bytes_cons, Hb in Hf. rewrite zlen_cons in Hl.
  pose proof (from_be_bytes_range l). pose proof (zlen_nonneg l).
  assert (n < 2 ^ (8 * zlen l)) as Hlt by (rewrite Z.pow_mul_r by lia; change (2 ^ 8) with 256; lia).
  apply Z.log2_lt_pow2 in Hlt; [|lia].
  pose proof (Z.mod_pos_bound (Z.log2 n) 8 ltac:(lia)). pose proof (Z.div_mod (Z.log2 n) 8). lia.
Qed.

Lemma be_min_width k n : 0 < k → fits (8 * k) n → zlen (be_min n) ≤ k.
Proof.
  intros Hk [Hn Hlt]. destruct (decide (n = 0)) as [->|Hne]; [change (zlen (be_min 0)) with 0; lia|].
  rewrite be_min_length by lia. apply Z.log2_lt_pow2 in Hlt; [|lia].
  pose proof (Z.div_lt_upper_bound (Z.log2 n) 8 k ltac:(lia) ltac:(lia)). lia.
Qed.

Lemma be_min_nonempty n : 0 < n → 1 ≤ zlen (be_min n).
Proof.
  intros Hn. rewrite be_min_length by done.
  pose proof (Z.div_pos (Z.log2 n) 8 (Z.log2_nonneg n) ltac:(lia)). lia.
Qed.

(** ** Long lengths *)

Lemma long_length_roundtrip n rest :
  56 ≤ n → u64 n → long_length (zlen (be_min n)) (be_min n ++ rest) = inr (n, rest).
Proof.
  intros Hn Hu. unfold long_length.
  pose proof (get_range_app [] (be_min n) rest 0 (zlen (be_min n)) eq_refl eq_refl) as Hg.
  rewrite app_nil_l in Hg. rewrite Hg.
  rewrite be_min_no_zero, be_min_from by lia. rewrite (proj2 (Z.ltb_ge _ _) Hn).
  unfold zlen. by rewrite Nat2Z.id, drop_app_length.
Qed.

Lemma long_length_canonical k rest n rest' :
  1 ≤ k ≤ 8 → long_length k rest = inr (n, rest') →
  rest = be_min n ++ rest' ∧ k = zlen (be_min n) ∧ 56 ≤ n ∧ u64 n.
Proof.
  intros Hk. unfold long_length. destruct (get_range rest 0 k) as [l|] eqn:Hg; [|done].
  destruct (leading_zero l) eqn:Hz; [done|].
  destruct (Z.ltb_spec (from_be_bytes l) 56) as [|H56]; [done|]. intros [= <- <-].
  rewrite be_min_unique by done. pose proof (get_range_split _ _ _ _ Hg) as Hs.
  pose proof (get_range_length _ _ _ _ Hg). change (take (Z.to_nat 0) rest) with (@nil byte) in Hs.
  rewrite app_nil_l in Hs. split; [done|]. split; [lia|]. split; [done|].
  eapply fits_mono; [|apply from_be_bytes_fits; reflexivity]. unfold zlen in *. lia.
Qed.

(** ** Headers *)

Lemma byte_val_small z : 0 ≤ z < 256 → byte_val (byte_of z) = z.
Proof. intros Hz. rewrite byte_val_of. by apply Z.mod_small. Qed.

Lemma be_min_u64 n : u64 n → zlen (be_min n) ≤ 8.
Proof. intros Hn. by apply (be_min_width 8). Qed.

Lemma header_list_roundtrip n rest :
  u64 n → n ≤ zlen rest → decode_header (header_list n ++ rest) = inr ((true, n), rest).
Proof.
  intros Hu Hr. pose proof Hu as [Hn _]. unfold header_list, header.
  destruct (Z.ltb_spec n 56) as [H56|H56]; cbn [app decode_header]; cbv zeta.
  - rewrite byte_val_small by lia. guards. unfold checked_header.
    replace (192 + n - 192) with n by lia. by guards.
  - pose proof (be_min_u64 n Hu). pose proof (be_min_nonempty n ltac:(lia)).
    rewrite byte_val_small by lia. guards.
    replace (247 + zlen (be_min n) - 247) with (zlen (be_min n)) by lia.
    rewrite long_length_roundtrip by done. unfold checked_header. by guards.
Qed.

Lemma header_str_roundtrip n rest :
  u64 n → n ≤ zlen rest → (n = 1 → ∀ b l, rest = b :: l → 128 ≤ byte_val b) →
  decode_header (header 128 183 n ++ rest) = inr ((false, n), rest).
Proof.
  intros Hu Hr H1. pose proof Hu as [Hn _]. unfold header.
  destruct (Z.ltb_spec n 56) as [H56|H56]; cbn [app decode_header]; cbv zeta.
  - rewrite byte_val_small by lia. guards. replace (128 + n - 128) with n by lia.
    assert ((n =? 1) && match rest with c :: _ => byte_val c <? 128 | [] => false end = false)
      as ->.
    { destruct (Z.eqb_spec n 1) as [E|]; [|done]. destruct rest as [|c rest]; [done|].
      simpl. apply Z.ltb_ge. by eapply (H1 E). }
    unfold checked_header. by guards.
  - pose proof (be_min_u64 n Hu). pose proof (be_min_nonempty n ltac:(lia)).
    rewrite byte_val_small by lia. guards.
    replace (183 + zlen (be_min n) - 183) with (zlen (be_min n)) by lia.
    rewrite long_length_roundtrip by done. unfold checked_header. by guards.
Qed.

Lemma checked_header_inv l r l' n rest :
  checked_header l r = inr ((l', n), rest) → r = inr (n, rest) ∧ l' = l ∧ n ≤ zlen rest.
Proof.
  unfold checked_header. destruct r as [e|[n0 rest0]]; [done|].
  destruct (Z.ltb_spec (zlen rest0) n0); [done|]. intros [= -> -> ->]. done.
Qed.

Lemma decode_header_inv b l n rest :
  decode_header b = inr ((l, n), rest) →
  (l = true ∧ b = header_list n ++ rest ∧ u64 n ∧ n ≤ zlen rest) ∨
  (l = false ∧ n = 1 ∧ rest = b ∧ ∃ c t, b = c :: t ∧ byte_val c < 128) ∨
  (l = false ∧ b = header 128 183 n ++ rest ∧ u64 n ∧ n ≤ zlen rest ∧
    (n = 1 → ∀ c t, rest = c :: t → 128 ≤ byte_val c)).
Proof.
  destruct b as [|b0 t]; [done|]. cbn [decode_header]. cbv zeta. pose proof (byte_val_range b0).
  destruct (Z.ltb_spec (byte_val b0) 128).
  { intros [= <- <- <-]. right; left. eauto 10. }
  destruct (Z.ltb_spec (byte_val b0) 184).
  { destruct (_ && _) eqn:E1; [done|]. intros ([= <- <-] & -> & Hr)%checked_header_inv.
    right; right. split; [done|]. unfold header. guards. split.
    - simpl. f_equal. apply byte_of_offset. lia.
    - split; [split; lia|]. split; [done|]. intros Hn1 c t' ->. rewrite Hn1 in E1. simpl in E1.
      by apply Z.ltb_ge in E1. }
  destruct (Z.ltb_spec (byte_val b0) 192).
  { intros (Hl & -> & Hr)%checked_header_inv. right; right. split; [done|].
    apply long_length_canonical in Hl as (-> & Hk & H56 & Hu); [|lia]. unfold header. guards.
    split; [|done || (split; [done|]; split; [done|]; lia)].
    simpl. f_equal. apply byte_of_offset. lia. }
  destruct (Z.ltb_spec (byte_val b0) 248).
  { intros ([= <- <-] & -> & Hr)%checked_header_inv. left. split; [done|].
    unfold header_list, header. guards. split.
    - simpl. f_equal. apply byte_of_offset. lia.
    - split; [split; lia|done]. }
  intros (Hl & -> & Hr)%checked_header_inv. left. split; [done|].
  apply long_length_canonical in Hl as (-> & Hk & H56 & Hu); [|lia].
  unfold header_list, header. guards. split; [|done]. simpl. f_equal. apply byte_of_offset. lia.
Qed.

(** ** Strings and integers *)

Lemma take_drop_app (s rest : bytes) :
  take (Z.to_nat (zlen s)) (s ++ rest) = s ∧ drop (Z.to_nat (zlen s)) (s ++ rest) = rest.
Proof. unfold zlen. by rewrite Nat2Z.id, take_app_length, drop_app_length. Qed.

Lemma encode_str_cases s :
  (∃ b, s = [b] ∧ byte_val b < 128 ∧ encode_str s = [b]) ∨
  (encode_str s = header 128 183 (zlen s) ++ s ∧
    (zlen s = 1 → ∀ c t, s = c :: t → 128 ≤ byte_val c)).
Proof.
  destruct s as [|b [|c s]]; simpl.
  - right. done.
  - destruct (Z.ltb_spec (byte_val b) 128); [left; eauto|].
    right. split; [done|]. intros _ c t [= <- _]. done.
  - right. split; [done|]. rewrite !zlen_cons. pose proof (zlen_nonneg s). lia.
Qed.

Lemma decode_encode_str s rest :
  u64 (zlen s) → decode_str (encode_str s ++ rest) = inr (s, rest).
Proof.
  intros Hs. unfold decode_str.
  destruct (encode_str_cases s) as [(b & -> & Hb & ->)|[-> H1]].
  - cbn [app decode_header]. cbv zeta. rewrite (proj2 (Z.ltb_lt _ _) Hb). done.
  - rewrite <-app_assoc, header_str_roundtrip; [|done| |].
    + by destruct (take_drop_app s rest) as [-> ->].
    + rewrite zlen_app. pose proof (zlen_nonneg rest). lia.
    + intros E b l. destruct s as [|c s]; [done|]. intros [= -> _]. by eapply (H1 E).
Qed.

Lemma decode_str_inv b s rest :
  decode_str b = inr (s, rest) → b = encode_str s ++ rest ∧ u64 (zlen s).
Proof.
  unfold decode_str. destruct (decode_header b) as [e|[[[] n] r]] eqn:Hd; [done|done|].
  intros [= <- <-]. apply decode_header_inv in Hd as [[? _]|[Hd|Hd]]; [done|..].
  - destruct Hd as (_ & -> & -> & c & t & -> & Hc). simpl. by rewrite (proj2 (Z.ltb_lt _ _) Hc), drop_0.
  - destruct Hd as (_ & -> & Hu & Hr & H1). pose proof Hu as [Hn _].
    set (s := take (Z.to_nat n) r).
    assert (zlen s = n) as Hs by (unfold s, zlen in *; rewrite length_take; lia).
    assert (s ++ drop (Z.to_nat n) r = r) as Hsr by apply take_drop.
    rewrite Hs. split; [|done]. rewrite <-Hsr at 1. rewrite app_assoc. f_equal.
    destruct (encode_str_cases s) as [(b & E & Hb & _)|[-> _]]; [|by rewrite Hs].
    exfalso. rewrite E in Hs, Hsr. change (zlen [b]) with 1 in Hs.
    specialize (H1 (eq_sym Hs) b _ (eq_sym Hsr)). lia.
Qed.

Lemma encode_str_nonempty s : encode_str s ≠ [].
Proof.
  destruct (encode_str_cases s) as [(b & _ & _ & ->)|[-> _]]; [done|].
  unfold header. by destruct (zlen s <? 56).
Qed.

End Spec.

#[local] Instance spec_rlp : AlloyRlp := {|
  header_list := Spec.header_list;
  decode_header := Spec.decode_header;
  encode_str := Spec.encode_str;
  decode_str := Spec.decode_str;
  decode_fixed := Spec.decode_fixed;
  encode_uint := Spec.encode_uint;
  decode_uint := Spec.decode_uint;
|}.

Lemma width_bytes w : w ∈ [8; 64; 128; 256] → ∃ k, w = 8 * k ∧ 0 < k ≤ 32.
Proof.
  rewrite !elem_of_cons, elem_of_nil. intros [->|[->|[->|[->|[]]]]];
    [exists 1|exists 8|exists 16|exists 32]; lia.
Qed.

(** The Ethereum encoding satisfies the laws. *)
Lemma spec_rlp_laws : AlloyRlpLaws.
Proof.
  split; cbn [header_list decode_header encode_str decode_str decode_fixed encode_uint decode_uint
    spec_rlp].
  - apply Spec.header_list_roundtrip.
  - intros b n rest [(_ & H)|[(? & _)|(? & _)]]%Spec.decode_header_inv; done.
  - intros n. unfold Spec.header_list, Spec.header. by destruct (n <? 56).
  - apply Spec.decode_encode_str.
  - apply Spec.decode_str_inv.
  - apply Spec.encode_str_nonempty.
  - intros n s rest Hn Hs. unfold Spec.decode_fixed.
    rewrite Spec.decode_encode_str by (unfold zlen; split; lia). by rewrite Hs, Nat.eqb_refl.
  - intros n b s rest. unfold Spec.decode_fixed.
    destruct (Spec.decode_str b) as [e|[s' r]] eqn:Hd; [done|].
    destruct (Nat.eqb_spec (length s') n); [|done]. intros [= <- <-].
    apply Spec.decode_str_inv in Hd as [-> _]. done.
  - intros w v rest (k & -> & Hk)%width_bytes Hv. unfold Spec.decode_uint, Spec.encode_uint.
    pose proof (Spec.be_min_width k v ltac:(lia) Hv). pose proof (zlen_nonneg (Spec.be_min v)).
    destruct Hv as [Hv _]. rewrite Spec.decode_encode_str by (split; lia).
    rewrite Spec.be_min_no_zero, Spec.be_min_from by done. by guards.
  - intros w b v rest (k & -> & Hk)%width_bytes. unfold Spec.decode_uint, Spec.encode_uint.
    destruct (Spec.decode_str b) as [e|[s' r]] eqn:Hd; [done|].
    destruct (Z.ltb_spec (8 * k) (8 * zlen s')); [done|].
    destruct (Spec.leading_zero s') eqn:Hz; [done|]. intros [= <- <-].
    apply Spec.decode_str_inv in Hd as [-> _]. rewrite Spec.be_min_unique by done.
    split; [done|]. eapply fits_mono; [|by apply from_be_bytes_fits]. unfold zlen in *. lia.
Qed.
