(* ===== verification/Ethereum.v ===== *)
(** The EIP-1559 transaction and receipt codecs of [arbor-codec]
    (src/crates/arbor-codec/src/ethereum.rs) over the RLP interface, and the
    transaction hashes and sender recovery of [arbor-crypto]. *)

From Stdlib Require Import Strings.Byte.
From S2P Require Import Prelude Bytes BTreeMap Primitives Canonical Crypto Rlp.

Local Open Scope Z_scope.

Definition EIP_1559_TX_TYPE : Z := 2.

(** The [From<alloy_rlp::Error>] conversion behind [?]. *)
Definition lift_rlp {A : Type} (r : rlp_result A) : outcome CodecError (A * bytes) :=
  match r with
  | inl e => Err (Canonical.Rlp e)
  | inr v => Ok v
  end.

(** A field decoder takes the input and returns the value and the rest. *)
Notation rlp_decodes A := (bytes → outcome CodecError (A * bytes)).

(** [for item in &access_list]: the storage-key limit. *)
Definition check_storage_keys (_ : unit) (item : AccessListItem) : outcome CodecError unit :=
  if MAX_ACCESS_LIST_STORAGE_KEYS <? zlen (al_storage_keys item)
  then Err (LimitExceeded "EIP-1559 storage keys" MAX_ACCESS_LIST_STORAGE_KEYS
              (zlen (al_storage_keys item)))
  else Ok tt.

Definition validate (transaction : Eip1559Transaction) (require_signature : bool)
    : outcome CodecError unit :=
  if tx_chain_id transaction =? 0 then Err (InvalidValue "EIP-1559 chain id")
  else if tx_max_fee_per_gas transaction <? tx_max_priority_fee_per_gas transaction
  then Err (InvalidValue "EIP-1559 priority fee")
  else
    let input_limit :=
      match tx_to transaction with
      | None => MAX_INITCODE_BYTES
      | Some _ => MAX_CALLDATA_BYTES
      end in
    if input_limit <? zlen (tx_input transaction)
    then Err (LimitExceeded "EIP-1559 input" input_limit (zlen (tx_input transaction)))
    else if MAX_ACCESS_LIST_ADDRESSES <? zlen (tx_access_list transaction)
    then Err (LimitExceeded "EIP-1559 access list" MAX_ACCESS_LIST_ADDRESSES
                (zlen (tx_access_list transaction)))
    else
      run? for_each check_storage_keys tt (tx_access_list transaction) in
      if require_signature && ((tx_r transaction =? 0) || (tx_s transaction =? 0))
      then Err (InvalidValue "EIP-1559 signature scalar")
      else Ok tt.

(** [while !input.is_empty()] with the element limit checked before each item.
    The limit stops the loop, so [S limit] rounds of fuel are enough. *)
Fixpoint while_items {A : Type} (fuel : nat) (field : string) (limit : Z) (item : rlp_decodes A)
    (input : bytes) (count : Z) : outcome CodecError (list A) :=
  match input with
  | [] => Ok []
  | _ :: _ =>
      match fuel with
      | O => Panic "out of fuel"
      | S fuel' =>
          if count =? limit then Err (LimitExceeded field limit (count + 1))
          else
            let? '(a, input) := item input in
            let? l := while_items fuel' field limit item input (count + 1) in
            Ok (a :: l)
      end
  end.

Definition decode_items {A : Type} (field : string) (limit : Z) (item : rlp_decodes A)
    (input : bytes) : outcome CodecError (list A) :=
  while_items (S (Z.to_nat limit)) field limit item input 0.

(** [Option<Address>]: no bytes, or twenty. *)
Definition to_of_bytes (to_bytes : bytes) : outcome CodecError (option bytes) :=
  if zlen to_bytes =? 0 then Ok None
  else if zlen to_bytes =? 20 then Ok (Some to_bytes)
  else Err (InvalidValue "EIP-1559 destination").

(** A byte that must be zero or one. *)
Definition bool_of_u8 (field : string) (b : Z) : outcome CodecError bool :=
  if b =? 0 then Ok false else if b =? 1 then Ok true else Err (InvalidValue field).

Definition u8_of_bool (b : bool) : Z := if b then 1 else 0.

Section codecs.
Context `{AlloyRlp}.

(** A list: its header and its payload. *)
Definition encode_list (payload : bytes) : bytes := header_list (zlen payload) ++ payload.

(** One iteration of the outer loop of [encode_access_list]. *)
Definition encode_access_item (item : AccessListItem) : bytes :=
  let keys_payload := concat (map encode_str (al_storage_keys item)) in
  let item_payload := encode_str (al_address item) ++ encode_list keys_payload in
  encode_list item_payload.

Definition encode_access_list (access_list : list AccessListItem) : bytes :=
  encode_list (concat (map encode_access_item access_list)).

Definition encode_fields (transaction : Eip1559Transaction) (signed : bool) : bytes :=
  encode_uint (tx_chain_id transaction) ++
  encode_uint (tx_nonce transaction) ++
  encode_uint (tx_max_priority_fee_per_gas transaction) ++
  encode_uint (tx_max_fee_per_gas transaction) ++
  encode_uint (tx_gas_limit transaction) ++
  match tx_to transaction with
  | Some address => encode_str address
  | None => encode_str []
  end ++
  encode_uint (tx_value transaction) ++
  encode_str (tx_input transaction) ++
  encode_access_list (tx_access_list transaction) ++
  (if signed
   then encode_uint (u8_of_bool (tx_y_parity transaction)) ++
        encode_uint (tx_r transaction) ++ encode_uint (tx_s transaction)
   else []).

Definition encode_envelope (transaction : Eip1559Transaction) (signed : bool)
    : outcome CodecError bytes :=
  run? validate transaction signed in
  let payload := encode_fields transaction signed in
  let encoded := [byte_of EIP_1559_TX_TYPE] ++ encode_list payload in
  if MAX_TRANSACTION_ENVELOPE_BYTES <? zlen encoded
  then Err (InputTooLarge "EIP-1559 envelope" MAX_TRANSACTION_ENVELOPE_BYTES (zlen encoded))
  else Ok encoded.

Definition encode_eip1559_signing_payload (transaction : Eip1559Transaction)
    : outcome CodecError bytes :=
  encode_envelope transaction false.

Definition encode_eip1559 (transaction : Eip1559Transaction) : outcome CodecError bytes :=
  encode_envelope transaction true.

(** The payload of the list at the front of [input], and the rest. *)
Definition list_payload (field : string) : rlp_decodes bytes := fun input =>
  let? '(h, input) := lift_rlp (decode_header input) in
  let '(list, payload_length) := (h : bool * Z) in
  if negb list then Err (InvalidValue field)
  else if zlen input <? payload_length then Err UnexpectedEof
  else Ok (take (Z.to_nat payload_length) input, drop (Z.to_nat payload_length) input).

(** One iteration of the outer loop of [decode_access_list]. *)
Definition decode_access_item : rlp_decodes AccessListItem := fun list =>
  let? '(item, list) := list_payload "EIP-1559 access-list item" list in
  let? '(address, item) := lift_rlp (decode_fixed 20 item) in
  let? '(keys, item) := list_payload "EIP-1559 storage-key list" item in
  if negb (bool_decide (item = [])) then Err TrailingBytes
  else
    let? storage_keys :=
      decode_items "EIP-1559 storage keys" MAX_ACCESS_LIST_STORAGE_KEYS
        (fun b => lift_rlp (decode_fixed 32 b)) keys in
    Ok ({| al_address := address; al_storage_keys := storage_keys |}, list).

Definition decode_access_list : rlp_decodes (list AccessListItem) := fun input =>
  let? '(list, input) := list_payload "EIP-1559 access list" input in
  let? access_list :=
    decode_items "EIP-1559 access list" MAX_ACCESS_LIST_ADDRESSES decode_access_item list in
  Ok (access_list, input).

Definition decode_eip1559 (input : bytes) : outcome CodecError Eip1559Transaction :=
  if MAX_TRANSACTION_ENVELOPE_BYTES <? zlen input
  then Err (InputTooLarge "EIP-1559 envelope" MAX_TRANSACTION_ENVELOPE_BYTES (zlen input))
  else
    match input with
    | [] => Err UnexpectedEof
    | transaction_type :: body =>
        if negb (byte_val transaction_type =? EIP_1559_TX_TYPE)
        then Err (InvalidValue "EIP-2718 transaction type")
        else
          let? '(fields, outer) := list_payload "EIP-1559 payload" body in
          if negb (bool_decide (outer = [])) then Err TrailingBytes
          else
            let? '(chain_id, fields) := lift_rlp (decode_uint 64 fields) in
            let? '(nonce, fields) := lift_rlp (decode_uint 64 fields) in
            let? '(max_priority_fee_per_gas, fields) := lift_rlp (decode_uint 128 fields) in
            let? '(max_fee_per_gas, fields) := lift_rlp (decode_uint 128 fields) in
            let? '(gas_limit, fields) := lift_rlp (decode_uint 64 fields) in
            let? '(to_bytes, fields) := lift_rlp (decode_str fields) in
            let? to := to_of_bytes to_bytes in
            let? '(value, fields) := lift_rlp (decode_uint 256 fields) in
            let? '(input, fields) := lift_rlp (decode_str fields) in
            let? '(access_list, fields) := decode_access_list fields in
            let? '(parity, fields) := lift_rlp (decode_uint 8 fields) in
            let? y_parity := bool_of_u8 "EIP-1559 y parity" parity in
            let? '(r, fields) := lift_rlp (decode_uint 256 fields) in
            let? '(s, fields) := lift_rlp (decode_uint 256 fields) in
            if negb (bool_decide (fields = [])) then Err TrailingBytes
            else
              let transaction :=
                {| tx_chain_id := chain_id;
                   tx_nonce := nonce;
                   tx_max_priority_fee_per_gas := max_priority_fee_per_gas;
                   tx_max_fee_per_gas := max_fee_per_gas;
                   tx_gas_limit := gas_limit;
                   tx_to := to;
                   tx_value := value;
                   tx_input := input;
                   tx_access_list := access_list;
                   tx_y_parity := y_parity;
                   tx_r := r;
                   tx_s := s |} in
              run? validate transaction true in
              Ok transaction
    end.

(** One iteration of the loop of [encode_logs]. *)
Definition encode_log (encoded_logs : bytes) (log : Log) : outcome CodecError bytes :=
  if 4 <? zlen (log_topics log)
  then Err (LimitExceeded "log topics" 4 (zlen (log_topics log)))
  else if MAX_CALLDATA_BYTES * 2 <? zlen (log_data log)
  then Err (LimitExceeded "log data" (MAX_CALLDATA_BYTES * 2) (zlen (log_data log)))
  else
    let topics_payload := concat (map encode_str (log_topics log)) in
    let encoded_log :=
      encode_str (log_address log) ++ encode_list topics_payload ++ encode_str (log_data log) in
    Ok (encoded_logs ++ encode_list encoded_log).

Definition encode_logs (logs : list Log) : outcome CodecError bytes :=
  if 1024 <? zlen logs then Err (LimitExceeded "receipt logs" 1024 (zlen logs))
  else
    let? encoded_logs := for_each encode_log [] logs in
    Ok (encode_list encoded_logs).

Definition encode_eip1559_receipt (receipt : Receipt) : outcome CodecError bytes :=
  let? logs := encode_logs (rc_logs receipt) in
  let payload :=
    encode_uint (u8_of_bool (rc_status receipt)) ++
    encode_uint (rc_cumulative_gas_used receipt) ++
    encode_str (rc_logs_bloom receipt) ++ logs in
  let encoded := [byte_of EIP_1559_TX_TYPE] ++ encode_list payload in
  if MAX_CANONICAL_OBJECT_BYTES <? zlen encoded
  then Err (InputTooLarge "EIP-1559 receipt" MAX_CANONICAL_OBJECT_BYTES (zlen encoded))
  else Ok encoded.

(** One iteration of the outer loop of [decode_logs]. *)
Definition decode_log : rlp_decodes Log := fun logs_payload =>
  let? '(log, logs_payload) := list_payload "receipt log" logs_payload in
  let? '(address, log) := lift_rlp (decode_fixed 20 log) in
  let? '(topics_payload, log) := list_payload "log topics" log in
  let? topics := decode_items "log topics" 4 (fun b => lift_rlp (decode_fixed 32 b))
                   topics_payload in
  let? '(data, log) := lift_rlp (decode_str log) in
  if MAX_CALLDATA_BYTES * 2 <? zlen data
  then Err (LimitExceeded "log data" (MAX_CALLDATA_BYTES * 2) (zlen data))
  else if negb (bool_decide (log = [])) then Err TrailingBytes
  else Ok ({| log_address := address; log_topics := topics; log_data := data |}, logs_payload).

Definition decode_logs : rlp_decodes (list Log) := fun input =>
  let? '(logs_payload, input) := list_payload "receipt logs" input in
  let? logs := decode_items "receipt logs" 1024 decode_log logs_payload in
  Ok (logs, input).

Definition decode_eip1559_receipt (input : bytes) : outcome CodecError Receipt :=
  if MAX_CANONICAL_OBJECT_BYTES <? zlen input
  then Err (InputTooLarge "EIP-1559 receipt" MAX_CANONICAL_OBJECT_BYTES (zlen input))
  else
    match input with
    | [] => Err UnexpectedEof
    | receipt_type :: body =>
        if negb (byte_val receipt_type =? EIP_1559_TX_TYPE)
        then Err (InvalidValue "EIP-2718 receipt type")
        else
          let? '(fields, outer) := list_payload "EIP-1559 receipt payload" body in
          if negb (bool_decide (outer = [])) then Err TrailingBytes
          else
            let? '(status, fields) := lift_rlp (decode_uint 8 fields) in
            let? status := bool_of_u8 "receipt status" status in
            let? '(cumulative_gas_used, fields) := lift_rlp (decode_uint 64 fields) in
            let? '(bloom_bytes, fields) := lift_rlp (decode_str fields) in
            if negb (zlen bloom_bytes =? 256) then Err (InvalidValue "receipt logs bloom")
            else
              let? '(logs, fields) := decode_logs fields in
              if negb (bool_decide (fields = [])) then Err TrailingBytes
              else Ok {| rc_status := status;
                         rc_cumulative_gas_used := cumulative_gas_used;
                         rc_logs_bloom := bloom_bytes;
                         rc_logs := logs |}
    end.

End codecs.

(** [alloy_primitives::Signature]: the high-s test and public-key recovery from
    a prehash, on the scalars as 32-byte strings and the parity. *)
Class SenderRecovery := {
  signature_high_s : bytes → bytes → bool → bool;
  recover_from_prehash : bytes → bytes → bool → bytes → option bytes;
  recover_length : ∀ r s p digest a, recover_from_prehash r s p digest = Some a → is_address a;
}.

Section hashes.
Context `{Keccak, AlloyRlp, SenderRecovery}.

Definition eip1559_signing_hash (value : Eip1559Transaction) : outcome CryptoError bytes :=
  let? preimage := map_err Codec (encode_eip1559_signing_payload value) in
  Ok (keccak256 preimage).

Definition eip1559_transaction_hash (value : Eip1559Transaction) : outcome CryptoError bytes :=
  let? preimage := map_err Codec (encode_eip1559 value) in
  Ok (keccak256 preimage).

Definition recover_eip1559_sender (value : Eip1559Transaction) : outcome CryptoError bytes :=
  let r := to_be_bytes 32 (tx_r value) in
  let s := to_be_bytes 32 (tx_s value) in
  let y_parity := tx_y_parity value in
  if signature_high_s r s y_parity then Err InvalidSignature
  else
    let? digest := eip1559_signing_hash value in
    ok_or (recover_from_prehash r s y_parity digest) InvalidSignature.

End hashes.

(** ** RLP fields *)

(** A field decoder against the field encoding it inverts. *)
Class RlpField {A : Type} (dec : rlp_decodes A) (wf : A → Prop) (enc : A → bytes) := {
  field_accepts : ∀ v rest, wf v → dec (enc v ++ rest) = Ok (v, rest);
  field_sound : ∀ b v rest, dec b = Ok (v, rest) → wf v ∧ b = enc v ++ rest;
  field_no_panic : ∀ b m, dec b ≠ Panic m;
}.

Arguments field_accepts {A} dec {wf enc _}.
Arguments field_sound {A} dec {wf enc _}.
Arguments field_no_panic {A} dec {wf enc _}.

Section fields.
Context `{AlloyRlp, !AlloyRlpLaws}.

Lemma lift_rlp_Ok {A : Type} (r : rlp_result A) v rest :
  lift_rlp r = Ok (v, rest) ↔ r = inr (v, rest).
Proof. destruct r; simpl; naive_solver. Qed.

Lemma lift_rlp_no_panic {A : Type} (r : rlp_result A) m : lift_rlp r ≠ Panic m.
Proof. by destruct r. Qed.

#[export] Instance uint_field w :
  TCOr (TCEq w 8) (TCOr (TCEq w 64) (TCOr (TCEq w 128) (TCEq w 256))) →
  RlpField (λ b, lift_rlp (decode_uint w b)) (fits w) encode_uint.
Proof.
  intros Hw. assert (w ∈ [8; 64; 128; 256]) as Hin.
  { destruct Hw as [[]|[[]|[[]|[]]]]; repeat first [left | right]. }
  split; intros.
  - apply lift_rlp_Ok. by apply uint_roundtrip.
  - rewrite lift_rlp_Ok in *. edestruct uint_canonical; eauto.
  - apply lift_rlp_no_panic.
Qed.

#[export] Instance str_field :
  RlpField (λ b, lift_rlp (decode_str b)) (λ s, u64 (zlen s)) encode_str.
Proof.
  split; intros.
  - apply lift_rlp_Ok. by apply str_roundtrip.
  - rewrite lift_rlp_Ok in *. edestruct str_canonical; eauto.
  - apply lift_rlp_no_panic.
Qed.

#[export] Instance address_field :
  RlpField (λ b, lift_rlp (decode_fixed 20 b)) is_address encode_str.
Proof.
  split; intros.
  - apply lift_rlp_Ok. by apply fixed_roundtrip.
  - rewrite lift_rlp_Ok in *. edestruct fixed_canonical; eauto.
  - apply lift_rlp_no_panic.
Qed.

#[export] Instance b256_field :
  RlpField (λ b, lift_rlp (decode_fixed 32 b)) is_b256 encode_str.
Proof.
  split; intros.
  - apply lift_rlp_Ok. by apply fixed_roundtrip.
  - rewrite lift_rlp_Ok in *. edestruct fixed_canonical; eauto.
  - apply lift_rlp_no_panic.
Qed.

#[export] Instance list_field f :
  RlpField (list_payload f) (λ p, u64 (zlen p)) encode_list.
Proof.
  unfold list_payload, encode_list. split.
  - intros p rest Hp. rewrite <-app_assoc.
    rewrite header_roundtrip by (rewrite ?zlen_app; pose proof (zlen_nonneg rest); done || lia).
    cbn [lift_rlp obind negb]. rewrite zlen_app. pose proof (zlen_nonneg rest). guards.
    unfold zlen. by rewrite Nat2Z.id, take_app_length, drop_app_length.
  - intros b p rest Hd. ok_inv. bool_prop. simplify_eq.
    apply lift_rlp_Ok, header_canonical in Hok as (-> & Hu & Hn). pose proof Hu as [Hn0 _].
    assert (zlen (take (Z.to_nat z) l) = z) as -> by (unfold zlen in *; rewrite length_take; lia).
    split; [done|]. rewrite <-app_assoc. by rewrite take_drop.
  - intros b m. no_panic; apply lift_rlp_no_panic || (destruct p; no_panic).
Qed.

(** ** Bounded loops *)

Section loops.
Context {A : Type} {item : rlp_decodes A} {wf : A → Prop} {enc : A → bytes}.
Context `{!RlpField item wf enc}.
Hypothesis enc_nonempty : ∀ a, enc a ≠ [].

Lemma while_items_accepts fuel f limit l count :
  Forall wf l → count + zlen l ≤ limit → (length l < fuel)%nat →
  while_items fuel f limit item (concat (map enc l)) count = Ok l.
Proof.
  revert fuel count. induction l as [|a l IH]; intros fuel count Hall Hc Hf.
  - by destruct fuel.
  - destruct fuel as [|fuel]; [simpl in Hf; lia|]. inversion Hall; subst.
    rewrite zlen_cons in Hc. pose proof (zlen_nonneg l). cbn [map concat].
    destruct (enc a ++ concat (map enc l)) as [|x t] eqn:E.
    { apply app_eq_nil in E as [E _]. by apply enc_nonempty in E. }
    cbn [while_items]. guards. rewrite <-E, (field_accepts item) by done. cbn [obind].
    rewrite IH; [done|done|lia|]. simpl in Hf. lia.
Qed.

Lemma while_items_sound fuel f limit b count l :
  count ≤ limit → while_items fuel f limit item b count = Ok l →
  Forall wf l ∧ b = concat (map enc l) ∧ count + zlen l ≤ limit.
Proof.
  revert b count l. induction fuel as [|fuel IH]; intros [|x b] count l Hc Hw;
    cbn [while_items] in Hw; ok_inv; simplify_eq.
  - rewrite zlen_nil. split; [constructor|]. split; [done|lia].
  - rewrite zlen_nil. split; [constructor|]. split; [done|lia].
  - bool_prop. destruct (field_sound item _ _ _ Hok) as [Ha E].
    apply IH in Hok0 as (Hl & -> & Hn); [|lia]. rewrite E, zlen_cons.
    split; [by constructor|]. split; [done|lia].
Qed.

Lemma while_items_no_panic fuel f limit b count m :
  0 ≤ count ≤ limit → limit - count < Z.of_nat fuel →
  while_items fuel f limit item b count ≠ Panic m.
Proof.
  revert b count. induction fuel as [|fuel IH]; intros [|x b] count Hc Hf; cbn [while_items];
    try done; [lia|].
  destruct (Z.eqb_spec count limit); [done|].
  apply obind_no_panic; [apply (field_no_panic item)|]. intros [a rest] _.
  apply obind_no_panic; [|done]. apply IH; lia.
Qed.

Lemma decode_items_accepts f limit l :
  0 ≤ limit → Forall wf l → zlen l ≤ limit →
  decode_items f limit item (concat (map enc l)) = Ok l.
Proof.
  intros Hl Hall Hz. apply while_items_accepts; [done|lia|]. unfold zlen in Hz. lia.
Qed.

Lemma decode_items_sound f limit b l :
  0 ≤ limit → decode_items f limit item b = Ok l →
  Forall wf l ∧ b = concat (map enc l) ∧ zlen l ≤ limit.
Proof. intros Hl Hd. by apply while_items_sound in Hd. Qed.

Lemma decode_items_no_panic f limit b m :
  0 ≤ limit → decode_items f limit item b ≠ Panic m.
Proof. intros Hl. apply while_items_no_panic; lia. Qed.
End loops.

Lemma encode_list_nonempty p : encode_list p ≠ [].
Proof. unfold encode_list. intros [E _]%app_eq_nil. by apply header_nonempty in E. Qed.

Lemma zlen_concat_elem {A : Type} (enc : A → bytes) a l :
  a ∈ l → zlen (enc a) ≤ zlen (concat (map enc l)).
Proof.
  induction l as [|x l IH]; [by intros ?%elem_of_nil|].
  rewrite elem_of_cons. cbn [map concat]. rewrite zlen_app.
  pose proof (zlen_nonneg (enc x)). pose proof (zlen_nonneg (concat (map enc l))).
  intros [->|Hin]; [lia|]. specialize (IH Hin). lia.
Qed.

Lemma zlen_encode_list p : zlen p ≤ zlen (encode_list p).
Proof. unfold encode_list. rewrite zlen_app. pose proof (zlen_nonneg (header_list (zlen p))). lia. Qed.

Lemma zlen_u64 (l : bytes) n : zlen l ≤ n → n < 2 ^ 64 → u64 (zlen l).
Proof. intros. pose proof (zlen_nonneg l). split; lia. Qed.

(** ** Reading and writing fields, as rewriting rules *)

Lemma read_uint w v rest :
  w ∈ [8; 64; 128; 256] → fits w v →
  lift_rlp (decode_uint w (encode_uint v ++ rest)) = Ok (v, rest).
Proof. intros Hw Hv. apply lift_rlp_Ok. by apply uint_roundtrip. Qed.

Lemma read_str s rest :
  u64 (zlen s) → lift_rlp (decode_str (encode_str s ++ rest)) = Ok (s, rest).
Proof. intros Hs. apply lift_rlp_Ok. by apply str_roundtrip. Qed.

Lemma read_fixed n s rest :
  Z.of_nat n < 2 ^ 64 → length s = n →
  lift_rlp (decode_fixed n (encode_str s ++ rest)) = Ok (s, rest).
Proof. intros Hn Hs. apply lift_rlp_Ok. by apply fixed_roundtrip. Qed.

Lemma read_list f p rest :
  u64 (zlen p) → list_payload f (encode_list p ++ rest) = Ok (p, rest).
Proof. intros Hp. by apply (field_accepts (list_payload f)). Qed.

Lemma list_payload_no_panic f b m : list_payload f b ≠ Panic m.
Proof. apply (field_no_panic (list_payload f)). Qed.

#[local] Hint Resolve lift_rlp_no_panic list_payload_no_panic : arbor.

(** Splits every field a successful decoder has read off its input. *)
Ltac rlp_sound :=
  repeat match goal with
  | Hd : lift_rlp (decode_uint ?w ?b) = Ok (?v, ?rest) |- _ =>
      apply lift_rlp_Ok, uint_canonical in Hd as [-> Hd];
        [|by apply (bool_decide_eq_true_1 _)]
  | Hd : lift_rlp (decode_str ?b) = Ok (?v, ?rest) |- _ =>
      apply lift_rlp_Ok, str_canonical in Hd as [-> Hd]
  | Hd : lift_rlp (decode_fixed ?n ?b) = Ok (?v, ?rest) |- _ =>
      apply lift_rlp_Ok, fixed_canonical in Hd as [-> Hd]
  | Hd : list_payload ?f ?b = Ok (?v, ?rest) |- _ =>
      apply (field_sound (list_payload f)) in Hd as [Hd ->]
  end.

Definition wf_access_item (it : AccessListItem) : Prop :=
  is_address (al_address it) ∧ Forall is_b256 (al_storage_keys it).

Definition access_item_payload (it : AccessListItem) : bytes :=
  encode_str (al_address it) ++ encode_list (concat (map encode_str (al_storage_keys it))).

#[export] Instance access_item_field :
  RlpField decode_access_item
    (λ it, wf_access_item it ∧ zlen (al_storage_keys it) ≤ MAX_ACCESS_LIST_STORAGE_KEYS ∧
           u64 (zlen (access_item_payload it))) encode_access_item.
Proof.
  unfold decode_access_item, encode_access_item, wf_access_item, access_item_payload.
  cbv zeta. split.
  - intros it rest ([Ha Hk] & Hn & Hu). rewrite read_list by done. cbn [obind].
    rewrite read_fixed by done. cbn [obind].
    rewrite <-(app_nil_r (encode_list (concat _))), read_list.
    + cbn [obind]. rewrite bool_decide_true by done. cbn [negb].
      rewrite (decode_items_accepts str_nonempty) by done. cbn [obind]. by destruct it.
    + rewrite zlen_app in Hu. pose proof (zlen_nonneg (encode_str (al_address it))).
      pose proof (zlen_encode_list (concat (map encode_str (al_storage_keys it)))).
      eapply (zlen_u64 _ (2 ^ 64 - 1)); [|lia]. destruct Hu. lia.
  - intros b it rest Hd. ok_inv. rlp_sound. bool_prop. subst.
    apply decode_items_sound in Hok2 as (Hall & -> & Hn); [|done].
    simplify_eq. simpl. rewrite app_nil_r in *. done.
  - no_panic. by apply decode_items_no_panic.
Qed.

Lemma encode_access_item_nonempty it : encode_access_item it ≠ [].
Proof. apply encode_list_nonempty. Qed.

#[export] Instance access_list_field :
  RlpField decode_access_list
    (λ l, Forall (λ it, wf_access_item it ∧
            zlen (al_storage_keys it) ≤ MAX_ACCESS_LIST_STORAGE_KEYS) l ∧
          zlen l ≤ MAX_ACCESS_LIST_ADDRESSES ∧ u64 (zlen (concat (map encode_access_item l))))
    encode_access_list.
Proof.
  unfold decode_access_list, encode_access_list. split.
  - intros l rest (Hall & Hn & Hu). rewrite read_list by done. cbn [obind].
    rewrite (decode_items_accepts encode_access_item_nonempty); [done|done| |done].
    rewrite list.Forall_forall in Hall |- *. intros it Hit. destruct (Hall it Hit) as [Hw Hk].
    split; [done|]. split; [done|].
    pose proof (zlen_concat_elem encode_access_item it l Hit).
    pose proof (zlen_encode_list (access_item_payload it)).
    eapply (zlen_u64 _ (2 ^ 64 - 1)); [|lia]. destruct Hu.
    change (encode_list (access_item_payload it)) with (encode_access_item it) in *. lia.
  - intros b l rest Hd. ok_inv. rlp_sound. simplify_eq.
    apply decode_items_sound in Hok0 as (Hall & -> & Hn); [|done].
    split; [|done]. split; [|done]. eapply list.Forall_impl; [exact Hall|]. by intros it (? & ? & _).
  - no_panic. by apply decode_items_no_panic.
Qed.

(** ** Transactions *)

Definition wf_transaction (t : Eip1559Transaction) : Prop :=
  u64 (tx_chain_id t) ∧ u64 (tx_nonce t) ∧ u128 (tx_max_priority_fee_per_gas t) ∧
  u128 (tx_max_fee_per_gas t) ∧ u64 (tx_gas_limit t) ∧ from_option is_address True (tx_to t) ∧
  u256 (tx_value t) ∧ Forall wf_access_item (tx_access_list t) ∧ u256 (tx_r t) ∧ u256 (tx_s t).

(** What [validate] accepts. *)
Definition tx_ok (t : Eip1559Transaction) (signed : bool) : Prop :=
  tx_chain_id t ≠ 0 ∧ tx_max_priority_fee_per_gas t ≤ tx_max_fee_per_gas t ∧
  zlen (tx_input t) ≤ (match tx_to t with None => MAX_INITCODE_BYTES | Some _ => MAX_CALLDATA_BYTES end) ∧
  zlen (tx_access_list t) ≤ MAX_ACCESS_LIST_ADDRESSES ∧
  Forall (λ it, zlen (al_storage_keys it) ≤ MAX_ACCESS_LIST_STORAGE_KEYS) (tx_access_list t) ∧
  (signed = true → tx_r t ≠ 0 ∧ tx_s t ≠ 0).

Lemma check_storage_keys_Ok l u :
  for_each check_storage_keys u l = Ok tt ↔
  Forall (λ it, zlen (al_storage_keys it) ≤ MAX_ACCESS_LIST_STORAGE_KEYS) l.
Proof.
  destruct u. induction l as [|it l IH]; cbn [for_each].
  - split; [constructor|done].
  - unfold check_storage_keys at 1.
    destruct (Z.ltb_spec MAX_ACCESS_LIST_STORAGE_KEYS (zlen (al_storage_keys it))); cbn [obind].
    + split; [done|]. inversion 1; lia.
    + rewrite IH. split; [by constructor|by inversion 1].
Qed.

Lemma validate_Ok t signed : validate t signed = Ok tt ↔ tx_ok t signed.
Proof.
  unfold validate, tx_ok. cbv zeta. split.
  - intros Hv. ok_inv. bool_prop. destruct a. apply check_storage_keys_Ok in Hok.
    split_and!; try done. intros ->. simpl in *. by bool_prop.
  - intros (Hc & Hf & Hi & Ha & Hk & Hs). guards. cbv iota.
    rewrite (proj2 (check_storage_keys_Ok _ tt)) by done. cbn [obind].
    destruct signed; [|done]. destruct (Hs eq_refl). by guards.
Qed.

Lemma validate_no_panic_tx t signed m : validate t signed ≠ Panic m.
Proof.
  unfold validate. no_panic. apply for_each_no_panic. intros. unfold check_storage_keys. no_panic.
Qed.

Lemma encode_envelope_Ok t signed b :
  encode_envelope t signed = Ok b ↔
    tx_ok t signed ∧ b = byte_of EIP_1559_TX_TYPE :: encode_list (encode_fields t signed) ∧
    zlen b ≤ MAX_TRANSACTION_ENVELOPE_BYTES.
Proof.
  unfold encode_envelope. cbv zeta. split.
  - intros He. ok_inv. bool_prop. destruct a. apply validate_Ok in Hok. by subst.
  - intros (Hv & -> & Hl). rewrite (proj2 (validate_Ok _ _)) by done. cbn [obind app]. by guards.
Qed.

Lemma to_of_bytes_Ok b to :
  to_of_bytes b = Ok to ↔ b = default [] to ∧ from_option is_address True to.
Proof.
  unfold to_of_bytes, is_address. destruct (Z.eqb_spec (zlen b) 0) as [E|E].
  - destruct b; [|rewrite zlen_cons in E; pose proof (zlen_nonneg b0); lia].
    destruct to as [a|]; simpl; split; try done. intros [<- ?]. done.
  - destruct (Z.eqb_spec (zlen b) 20) as [E'|E'].
    + destruct to as [a|]; simpl; split; try done.
      * intros [= ->]. unfold zlen in E'. split; [done|lia].
      * by intros [-> _].
      * by intros [-> _].
    + destruct to as [a|]; simpl; split; try done.
      * intros [-> Ha]. unfold zlen in E'. lia.
      * by intros [-> _].
Qed.

Lemma bool_of_u8_Ok f z b : bool_of_u8 f z = Ok b ↔ z = u8_of_bool b.
Proof.
  unfold bool_of_u8, u8_of_bool. destruct (Z.eqb_spec z 0), (Z.eqb_spec z 1), b; subst;
    split; try done; lia.
Qed.

Lemma encode_to to :
  match to with Some a => encode_str a | None => encode_str [] end = encode_str (default [] to).
Proof. by destruct to. Qed.

(** The fields of an encoded transaction are short enough for their headers. *)
Lemma encode_fields_parts t signed n :
  zlen (encode_list (encode_fields t signed)) ≤ n →
  zlen (encode_fields t signed) ≤ n ∧
  zlen (concat (map encode_access_item (tx_access_list t))) ≤ n.
Proof.
  intros Hn. pose proof (zlen_encode_list (encode_fields t signed)). split; [lia|].
  pose proof (zlen_encode_list (concat (map encode_access_item (tx_access_list t)))) as Hc.
  unfold encode_fields, encode_access_list in *. rewrite !zlen_app in *.
  repeat match goal with
    | |- context [zlen ?x] => lazymatch goal with _ : 0 ≤ zlen x |- _ => fail
                              | _ => pose proof (zlen_nonneg x) end
    | _ : context [zlen ?x] |- _ => lazymatch goal with _ : 0 ≤ zlen x |- _ => fail
                              | _ => pose proof (zlen_nonneg x) end
    end.
  lia.
Qed.

Lemma in_widths w : bool_decide (w ∈ [8; 64; 128; 256]) = true → w ∈ [8; 64; 128; 256].
Proof. apply bool_decide_eq_true_1. Qed.

Ltac read_field :=
  first
    [ rewrite read_uint by (first [by apply in_widths | done])
    | rewrite read_str by done
    | rewrite (field_accepts decode_access_list) by done ];
  cbn [obind].

Lemma u8_of_bool_fits b : u8 (u8_of_bool b).
Proof. by destruct b. Qed.

Lemma decode_encode_eip1559 t b :
  wf_transaction t → encode_eip1559 t = Ok b → decode_eip1559 b = Ok t.
Proof.
  intros (Hc & Hn & Hp & Hf & Hg & Hto & Hv & Hal & Hr & Hs) (Hok & -> & Hl)%encode_envelope_Ok.
  pose proof Hok as (Hchain & Hprio & Hin & Haln & Hkeys & Hsig). rewrite zlen_cons in Hl.
  destruct (encode_fields_parts t true MAX_TRANSACTION_ENVELOPE_BYTES) as [Hpay Hac]; [lia|].
  unfold decode_eip1559. rewrite zlen_cons. guards. cbv iota.
  change (byte_val (byte_of EIP_1559_TX_TYPE) =? EIP_1559_TX_TYPE) with true. cbn [negb].
  rewrite <-(app_nil_r (encode_list _)), read_list by (by eapply zlen_u64).
  cbn [obind]. rewrite bool_decide_true by done. cbn [negb].
  assert (u64 (zlen (tx_input t))) as Hinu.
  { eapply (zlen_u64 _ MAX_CALLDATA_BYTES); [|done]. destruct (tx_to t); [done|].
    unfold MAX_INITCODE_BYTES, MAX_CALLDATA_BYTES in *. lia. }
  assert (u64 (zlen (default [] (tx_to t)))) as Htou.
  { destruct (tx_to t) as [a|]; [|done]. simpl in *. unfold is_address in Hto.
    rewrite (zlen_length a 20 Hto). done. }
  assert (Forall (λ it, wf_access_item it ∧
    zlen (al_storage_keys it) ≤ MAX_ACCESS_LIST_STORAGE_KEYS) (tx_access_list t)) as Hitems
    by by apply Forall_and.
  assert (u64 (zlen (concat (map encode_access_item (tx_access_list t))))) as Hacu
    by by eapply zlen_u64.
  pose proof (u8_of_bool_fits (tx_y_parity t)).
  unfold encode_fields. rewrite encode_to. do 6 read_field.
  rewrite (proj2 (to_of_bytes_Ok _ (tx_to t))) by done. cbn [obind]. do 4 read_field.
  rewrite (proj2 (bool_of_u8_Ok _ _ (tx_y_parity t))) by done. cbn [obind].
  rewrite <-(app_nil_r (encode_uint (tx_s t))). do 2 read_field.
  rewrite bool_decide_true by done. cbn [negb]. destruct t; cbn in *.
  by rewrite (proj2 (validate_Ok _ true)).
Qed.

Lemma decode_eip1559_sound t b :
  decode_eip1559 b = Ok t → wf_transaction t ∧ encode_eip1559 t = Ok b.
Proof.
  unfold decode_eip1559. intros Hd. ok_inv. destruct b as [|ty body]; [done|]. ok_inv.
  bool_prop. rlp_sound.
  repeat match goal with
  | Hx : validate _ _ = Ok ?u |- _ => destruct u; apply validate_Ok in Hx
  | Hx : decode_access_list _ = Ok _ |- _ =>
      apply (field_sound decode_access_list) in Hx as [(? & ? & ?) ->]
  | Hx : to_of_bytes _ = Ok _ |- _ => apply to_of_bytes_Ok in Hx as [-> ?]
  | Hx : bool_of_u8 _ _ = Ok _ |- _ => apply bool_of_u8_Ok in Hx as ->
  end.
  subst. split.
  - split_and!; simpl; try done. eapply list.Forall_impl; [eassumption|]. by intros it [].
  - apply encode_envelope_Ok. split; [done|]. unfold encode_fields. rewrite encode_to. simpl.
    rewrite !app_nil_r in *. rewrite (byte_of_offset ty EIP_1559_TX_TYPE) by done. done.
Qed.

Lemma decode_eip1559_no_panic b m : decode_eip1559 b ≠ Panic m.
Proof.
  unfold decode_eip1559, to_of_bytes, bool_of_u8. no_panic. destruct b as [|ty body]; [done|].
  no_panic; (apply (field_no_panic decode_access_list) || apply validate_no_panic_tx).
Qed.

Lemma eip1559_codec : canonical wf_transaction encode_eip1559 decode_eip1559.
Proof.
  split; [exact decode_encode_eip1559|]. split; [exact decode_eip1559_sound|]. split.
  - intros t m. unfold encode_eip1559, encode_envelope. no_panic. apply validate_no_panic_tx.
  - exact decode_eip1559_no_panic.
Qed.

(** ** Receipts *)

Definition wf_log (l : Log) : Prop := is_address (log_address l) ∧ Forall is_b256 (log_topics l).

Definition log_ok (l : Log) : Prop :=
  zlen (log_topics l) ≤ 4 ∧ zlen (log_data l) ≤ MAX_CALLDATA_BYTES * 2.

Definition log_payload (l : Log) : bytes :=
  encode_str (log_address l) ++ encode_list (concat (map encode_str (log_topics l))) ++
  encode_str (log_data l).

Definition log_bytes (l : Log) : bytes := encode_list (log_payload l).

Definition wf_receipt (r : Receipt) : Prop :=
  u64 (rc_cumulative_gas_used r) ∧ is_bloom (rc_logs_bloom r) ∧ Forall wf_log (rc_logs r).

Lemma encode_log_Ok out l b : encode_log out l = Ok b ↔ log_ok l ∧ b = out ++ log_bytes l.
Proof.
  unfold encode_log, log_ok, log_bytes, log_payload. cbv zeta. split.
  - intros He. ok_inv. bool_prop. by subst.
  - intros [[Ht Hd] ->]. by guards.
Qed.

#[export] Instance log_field :
  RlpField decode_log (λ l, (wf_log l ∧ log_ok l) ∧ u64 (zlen (log_payload l))) log_bytes.
Proof.
  unfold decode_log, log_bytes, wf_log, log_ok. split.
  - intros l rest (([Ha Ht] & Hn & Hd) & Hu). rewrite read_list by done. cbn [obind].
    unfold log_payload in *. rewrite read_fixed by done. cbn [obind]. rewrite read_list.
    + cbn [obind]. rewrite (decode_items_accepts str_nonempty) by done. cbn [obind].
      rewrite <-(app_nil_r (encode_str (log_data l))), read_str by (by eapply zlen_u64).
      cbn [obind]. guards. rewrite bool_decide_true by done. simpl. by destruct l.
    + rewrite !zlen_app in Hu. pose proof (zlen_nonneg (encode_str (log_address l))).
      pose proof (zlen_nonneg (encode_str (log_data l))).
      pose proof (zlen_encode_list (concat (map encode_str (log_topics l)))).
      eapply (zlen_u64 _ (2 ^ 64 - 1)); [|lia]. destruct Hu. lia.
  - intros b l rest Hd. ok_inv. bool_prop. rlp_sound.
    repeat match goal with Hx : decode_items _ _ _ _ = Ok _ |- _ =>
      apply decode_items_sound in Hx as (? & -> & ?); [|done] end.
    subst. simplify_eq. unfold log_payload. simpl. rewrite !app_nil_r in *. done.
  - no_panic. by apply decode_items_no_panic.
Qed.

Lemma log_bytes_nonempty l : log_bytes l ≠ [].
Proof. apply encode_list_nonempty. Qed.

Definition logs_ok (l : list Log) : Prop := zlen l ≤ 1024 ∧ Forall log_ok l.

Lemma encode_logs_Ok l b :
  encode_logs l = Ok b ↔ logs_ok l ∧ b = encode_list (concat (map log_bytes l)).
Proof.
  unfold encode_logs, logs_ok. split.
  - intros He. ok_inv. bool_prop. apply (for_each_append _ _ _ encode_log_Ok) in Hok as [? ->].
    by subst.
  - intros [[Hn Hall] ->]. guards. cbv iota.
    by rewrite (proj2 (for_each_append _ _ _ encode_log_Ok _ _ _) (conj Hall eq_refl)).
Qed.

#[export] Instance logs_field :
  RlpField decode_logs (λ l, (Forall wf_log l ∧ logs_ok l) ∧ u64 (zlen (concat (map log_bytes l))))
    (λ l, encode_list (concat (map log_bytes l))).
Proof.
  unfold decode_logs, logs_ok. split.
  - intros l rest ((Hw & Hn & Hall) & Hu). rewrite read_list by done. cbn [obind].
    rewrite (decode_items_accepts log_bytes_nonempty); [done|done| |done].
    rewrite list.Forall_forall in *. intros x Hx. split; [by auto|].
    pose proof (zlen_concat_elem log_bytes x l Hx). pose proof (zlen_encode_list (log_payload x)).
    eapply (zlen_u64 _ (2 ^ 64 - 1)); [|lia]. destruct Hu.
    change (encode_list (log_payload x)) with (log_bytes x) in *. lia.
  - intros b l rest Hd. ok_inv. rlp_sound. simplify_eq.
    apply decode_items_sound in Hok0 as (Hall & -> & Hn); [|done].
    split; [|done]. split; [|done]. split; [|split; [done|]];
      (eapply list.Forall_impl; [exact Hall|]); by intros x [[] _].
  - no_panic. by apply decode_items_no_panic.
Qed.

Lemma read_logs l rest :
  (Forall wf_log l ∧ logs_ok l) ∧ u64 (zlen (concat (map log_bytes l))) →
  decode_logs (encode_list (concat (map log_bytes l)) ++ rest) = Ok (l, rest).
Proof. intros Hl. exact (@field_accepts _ _ _ _ logs_field l rest Hl). Qed.

Definition receipt_payload (r : Receipt) : bytes :=
  encode_uint (u8_of_bool (rc_status r)) ++ encode_uint (rc_cumulative_gas_used r) ++
  encode_str (rc_logs_bloom r) ++ encode_list (concat (map log_bytes (rc_logs r))).

Lemma encode_receipt_Ok r b :
  encode_eip1559_receipt r = Ok b ↔
    logs_ok (rc_logs r) ∧ b = byte_of EIP_1559_TX_TYPE :: encode_list (receipt_payload r) ∧
    zlen b ≤ MAX_CANONICAL_OBJECT_BYTES.
Proof.
  unfold encode_eip1559_receipt, receipt_payload. cbv zeta. split.
  - intros He. ok_inv. bool_prop. apply encode_logs_Ok in Hok as [? ->]. by subst.
  - intros (Hok & -> & Hl). rewrite (proj2 (encode_logs_Ok _ _) (conj Hok eq_refl)).
    cbn [obind app]. by guards.
Qed.

Lemma receipt_codec : canonical wf_receipt encode_eip1559_receipt decode_eip1559_receipt.
Proof.
  unfold wf_receipt. split; [|split; [|split]].
  - intros r b (Hg & Hb & Hw) (Hok & -> & Hl)%encode_receipt_Ok. rewrite zlen_cons in Hl.
    pose proof (zlen_encode_list (receipt_payload r)).
    unfold decode_eip1559_receipt. rewrite zlen_cons. guards. cbv iota.
    change (byte_val (byte_of EIP_1559_TX_TYPE) =? EIP_1559_TX_TYPE) with true. cbn [negb].
    rewrite <-(app_nil_r (encode_list _)), read_list
      by (eapply (zlen_u64 _ MAX_CANONICAL_OBJECT_BYTES); [lia|done]).
    cbn [obind]. rewrite bool_decide_true by done. cbn [negb].
    pose proof (u8_of_bool_fits (rc_status r)). unfold receipt_payload in *. read_field.
    rewrite (proj2 (bool_of_u8_Ok _ _ (rc_status r))) by done. cbn [obind]. read_field.
    assert (zlen (rc_logs_bloom r) = 256) as Hz by (by apply (zlen_length _ 256)).
    rewrite read_str by (by rewrite Hz). cbn [obind]. rewrite Hz. cbn [negb Z.eqb Pos.eqb].
    rewrite <-(app_nil_r (encode_list (concat _))), read_logs.
    + cbn [obind]. rewrite bool_decide_true by done. by destruct r.
    + split; [done|]. rewrite !zlen_app in *.
      pose proof (zlen_encode_list (concat (map log_bytes (rc_logs r)))).
      pose proof (zlen_nonneg (encode_uint (u8_of_bool (rc_status r)))).
      pose proof (zlen_nonneg (encode_uint (rc_cumulative_gas_used r))).
      pose proof (zlen_nonneg (encode_str (rc_logs_bloom r))).
      eapply (zlen_u64 _ MAX_CANONICAL_OBJECT_BYTES); [lia|done].
  - intros r b Hd. unfold decode_eip1559_receipt in Hd. ok_inv.
    destruct b as [|ty body]; [done|]. ok_inv. bool_prop. rlp_sound.
    repeat match goal with
    | Hx : decode_logs _ = Ok _ |- _ => apply (field_sound decode_logs) in Hx as [[[? ?] ?] ->]
    | Hx : bool_of_u8 _ _ = Ok _ |- _ => apply bool_of_u8_Ok in Hx as ->
    end.
    subst. split.
    + split_and!; simpl; try done. unfold is_bloom. unfold zlen in *. lia.
    + apply encode_receipt_Ok. split; [done|]. unfold receipt_payload. simpl.
      rewrite !app_nil_r in *. by rewrite (byte_of_offset ty EIP_1559_TX_TYPE).
  - intros r m. unfold encode_eip1559_receipt, encode_logs. no_panic.
    apply for_each_no_panic. intros. unfold encode_log. no_panic.
  - intros b m. unfold decode_eip1559_receipt, bool_of_u8. no_panic.
    destruct b as [|ty body]; [done|]. no_panic. apply (field_no_panic decode_logs).
Qed.

End fields.

(** ** Results *)

Section results.
Context `{Keccak, AlloyRlp, !AlloyRlpLaws}.

(** Two fields at the front of the same input are the same field. *)
Lemma field_inj {A : Type} (dec : rlp_decodes A) wf enc `{!RlpField dec wf enc} v w r1 r2 :
  wf v → wf w → enc v ++ r1 = enc w ++ r2 → v = w ∧ r1 = r2.
Proof.
  intros Hv Hw E. pose proof (field_accepts dec v r1 Hv) as Hacc.
  rewrite E, (field_accepts dec w r2 Hw) in Hacc. by simplify_eq.
Qed.

Definition same_unsigned (t u : Eip1559Transaction) : Prop :=
  tx_chain_id t = tx_chain_id u ∧ tx_nonce t = tx_nonce u ∧
  tx_max_priority_fee_per_gas t = tx_max_priority_fee_per_gas u ∧
  tx_max_fee_per_gas t = tx_max_fee_per_gas u ∧ tx_gas_limit t = tx_gas_limit u ∧
  tx_to t = tx_to u ∧ tx_value t = tx_value u ∧ tx_input t = tx_input u ∧
  tx_access_list t = tx_access_list u.

Lemma tx_parts_u64 t signed :
  tx_ok t signed → from_option is_address True (tx_to t) →
  u64 (zlen (tx_input t)) ∧ u64 (zlen (default [] (tx_to t))).
Proof.
  intros (_ & _ & Hin & _) Hto. split.
  - eapply (zlen_u64 _ MAX_CALLDATA_BYTES); [|done]. destruct (tx_to t); [done|].
    unfold MAX_INITCODE_BYTES, MAX_CALLDATA_BYTES in *. lia.
  - destruct (tx_to t) as [a|]; [|done]. simpl in *. unfold is_address in Hto.
    by rewrite (zlen_length a 20 Hto).
Qed.

Lemma to_inj a b :
  from_option is_address True a → from_option is_address True b →
  default [] a = default [] b → a = b.
Proof. destruct a, b; simpl; unfold is_address; intros; subst; done. Qed.

Lemma signing_payload_inj t u b :
  wf_transaction t → wf_transaction u → encode_eip1559_signing_payload t = Ok b →
  encode_eip1559_signing_payload u = Ok b → same_unsigned t u.
Proof.
  intros (?&?&?&?&?&?&?&?&_&_) (?&?&?&?&?&?&?&?&_&_).
  intros (Hok1 & -> & Hl1)%encode_envelope_Ok (Hok2 & E & Hl2)%encode_envelope_Ok.
  pose proof (tx_parts_u64 _ _ Hok1 ltac:(done)) as [? ?].
  pose proof (tx_parts_u64 _ _ Hok2 ltac:(done)) as [? ?].
  rewrite E in Hl2. rewrite zlen_cons in Hl1, Hl2. injection E as E.
  destruct (encode_fields_parts t false MAX_TRANSACTION_ENVELOPE_BYTES) as [? Ha1]; [lia|].
  destruct (encode_fields_parts u false MAX_TRANSACTION_ENVELOPE_BYTES) as [? Ha2]; [lia|].
  destruct Hok1 as (_ & _ & _ & ? & ? & _), Hok2 as (_ & _ & _ & ? & ? & _).
  rewrite <-(app_nil_r (encode_list (encode_fields t false))) in E.
  rewrite <-(app_nil_r (encode_list (encode_fields u false))) in E.
  apply (@field_inj _ _ _ _ (list_field "EIP-1559 payload")) in E as [E _];
    [|by eapply (zlen_u64 _ MAX_TRANSACTION_ENVELOPE_BYTES)..].
  unfold encode_fields in E. rewrite !encode_to in E.
  do 2 (apply (@field_inj _ _ _ _ (uint_field 64 _)) in E as [? E]; [|done..]).
  do 2 (apply (@field_inj _ _ _ _ (uint_field 128 _)) in E as [? E]; [|done..]).
  apply (@field_inj _ _ _ _ (uint_field 64 _)) in E as [? E]; [|done..].
  apply (@field_inj _ _ _ _ str_field) in E as [Hto E]; [|done..].
  apply (@field_inj _ _ _ _ (uint_field 256 _)) in E as [? E]; [|done..].
  apply (@field_inj _ _ _ _ str_field) in E as [? E]; [|done..].
  apply (@field_inj _ _ _ _ access_list_field) in E as [? _];
    [|split; [by apply Forall_and|]; split; [done|]; by eapply (zlen_u64 _ MAX_TRANSACTION_ENVELOPE_BYTES)..].
  apply to_inj in Hto; [|done..]. done.
Qed.

(** C39. The EIP-1559 transaction and receipt codecs are canonical over any
    canonical RLP: the envelope round-trips, only the canonical envelope
    decodes, decoded values respect their types, and nothing panics. *)
Theorem eip1559_codecs_canonical :
  canonical wf_transaction encode_eip1559 decode_eip1559 ∧
  canonical wf_receipt encode_eip1559_receipt decode_eip1559_receipt.
Proof. exact (conj eip1559_codec receipt_codec). Qed.

(** Transaction hashes and signing hashes bind: two transactions with the
    same hash are equal, and two with the same signing hash have the same
    unsigned fields, or else their encodings are a Keccak-256 collision. *)
Theorem eip1559_hashes_bind :
  binding wf_transaction encode_eip1559 eip1559_transaction_hash ∧
  (∀ t u h, wf_transaction t → wf_transaction u →
    eip1559_signing_hash t = Ok h → eip1559_signing_hash u = Ok h →
    same_unsigned t u ∨
    ∃ p q, encode_eip1559_signing_payload t = Ok p ∧
      encode_eip1559_signing_payload u = Ok q ∧ p ≠ q ∧ keccak256 p = keccak256 q).
Proof.
  split.
  - eapply canonical_binding; [exact eip1559_codec|].
    unfold eip1559_transaction_hash. intros v h Hh. ok_inv. eauto.
  - unfold eip1559_signing_hash. intros t u h Ht Hu Ht' Hu'. ok_inv.
    destruct (decide (a = a0)) as [->|Hne].
    + left. by eapply signing_payload_inj.
    + right. exists a0, a. split; [done|]. split; [done|]. split; [congruence|]. by subst.
Qed.

End results.

Lemma eip1559_codecs_canonical_witness :
  canonical wf_transaction (@encode_eip1559 spec_rlp) (@decode_eip1559 spec_rlp) ∧
  canonical wf_receipt (@encode_eip1559_receipt spec_rlp) (@decode_eip1559_receipt spec_rlp).
Proof. apply (@eip1559_codecs_canonical spec_rlp spec_rlp_laws). Defined.

Module EthereumWitness.

Definition tx1 : Eip1559Transaction :=
  {| tx_chain_id := 7; tx_nonce := 3; tx_max_priority_fee_per_gas := 2;
     tx_max_fee_per_gas := 1000; tx_gas_limit := 21000; tx_to := Some (repeat_byte 20 5);
     tx_value := 12; tx_input := [];
     tx_access_list := [{| al_address := repeat_byte 20 6; al_storage_keys := [repeat_byte 32 1] |}];
     tx_y_parity := true; tx_r := 5; tx_s := 9 |}.

End EthereumWitness.

(** The model runs: the transaction goes through the Ethereum encoding and back. *)
Example tx1_roundtrip :
  (let? b := @encode_eip1559 spec_rlp EthereumWitness.tx1 in @decode_eip1559 spec_rlp b) =
    Ok EthereumWitness.tx1.
Proof. vm_compute. reflexivity. Qed.

Lemma eip1559_hashes_bind_witness :
  @binding Toy.toy_keccak _ wf_transaction (@encode_eip1559 spec_rlp)
    (@eip1559_transaction_hash Toy.toy_keccak spec_rlp).
Proof. apply (@eip1559_hashes_bind Toy.toy_keccak spec_rlp spec_rlp_laws). Defined.
