(* ===== verification/Mempool.v ===== *)
(** The domain-isolated transaction pool (src/crates/arbor-mempool/src/lib.rs).

    The five maps of the pool are ordered maps; every operation returns the new
    pool. The invariant [pool_inv] ties entries, per-sender counters and
    chain-id routing together and is preserved by every operation, so it holds
    in every reachable pool. *)

From stdpp Require Import relations.
From S2P Require Import Prelude Bytes BTreeMap Primitives Canonical Crypto Rlp Ethereum.

Local Open Scope Z_scope.

Record MempoolConfig := {
  max_transactions : Z;
  max_transactions_per_sender : Z;
  max_transaction_bytes : Z;
  replacement_bump_percent : Z;
}.

Definition default_config : MempoolConfig :=
  {| max_transactions := 50000;
     max_transactions_per_sender := 128;
     max_transaction_bytes := MAX_TRANSACTION_ENVELOPE_BYTES;
     replacement_bump_percent := 10 |}.

Module QueueStatus.

Inductive t := Pending | Queued | Replaced.

End QueueStatus.

Record PoolEntry := {
  pe_domain_id : DomainId;
  pe_sender : bytes;
  pe_transaction_hash : bytes;
  pe_envelope : bytes;
  pe_transaction : Eip1559Transaction;
}.

(** [InvalidTransaction] carries the error whose text the code prints. *)
Inductive MempoolError :=
| UnknownDomain
| InvalidChainId
| DomainAlreadyRegistered
| DuplicateChainId
| EnvelopeTooLarge (limit actual : Z)
| InvalidTransaction (error : CryptoError)
| WrongChainId (expected actual : Z)
| NonceTooLow (state transaction : Z)
| ReplacementUnderpriced
| Capacity
| SenderCapacity.

Definition pool_key : Type := DomainId * bytes * Z.

Record Mempool := {
  config : MempoolConfig;
  chain_ids : btree DomainId Z;
  used_chain_ids : btree Z unit;
  pool_entries : btree (DomainId * bytes * Z) PoolEntry;
  sender_counts : btree (DomainId * bytes) Z;
}.

#[export] Instance PoolEntry_eq_dec : EqDecision PoolEntry.
Proof. solve_decision. Defined.

Definition entry_key (entry : PoolEntry) : DomainId * bytes * Z :=
  (pe_domain_id entry, pe_sender entry, tx_nonce (pe_transaction entry)).

Definition with_entries (pool : Mempool) (entries : btree (DomainId * bytes * Z) PoolEntry)
    (counts : btree (DomainId * bytes) Z) : Mempool :=
  {| config := config pool;
     chain_ids := chain_ids pool;
     used_chain_ids := used_chain_ids pool;
     pool_entries := entries;
     sender_counts := counts |}.

(** ** Replacement pricing *)

Definition replacement_min (value bump_percent : Z) : Z :=
  let quotient := value / 100 in
  let remainder := value mod 100 in
  let bump :=
    saturating_add 128 (saturating_mul 128 quotient bump_percent)
      (div_ceil (saturating_mul 128 remainder bump_percent) 100) in
  saturating_add 128 value bump.

Definition replacement_priced (old new : Eip1559Transaction) (bump_percent : Z) : bool :=
  (replacement_min (tx_max_fee_per_gas old) bump_percent <=? tx_max_fee_per_gas new) &&
  (replacement_min (tx_max_priority_fee_per_gas old) bump_percent
     <=? tx_max_priority_fee_per_gas new).

(** ** Operations *)

Definition new_pool (c : MempoolConfig) : Mempool :=
  {| config :=
       {| max_transactions := max_transactions c;
          max_transactions_per_sender := max_transactions_per_sender c;
          max_transaction_bytes :=
            Z.min (max_transaction_bytes c) MAX_TRANSACTION_ENVELOPE_BYTES;
          replacement_bump_percent := replacement_bump_percent c |};
     chain_ids := [];
     used_chain_ids := [];
     pool_entries := [];
     sender_counts := [] |}.

Definition register_domain (pool : Mempool) (domain_id : DomainId) (chain_id : Z)
    : outcome MempoolError Mempool :=
  if chain_id =? 0 then Err InvalidChainId
  else
    match bget domain_id (chain_ids pool) with
    | Some registered_chain_id =>
        if registered_chain_id =? chain_id then Ok pool else Err DomainAlreadyRegistered
    | None =>
        if bcontains chain_id (used_chain_ids pool) then Err DuplicateChainId
        else
          Ok {| config := config pool;
                chain_ids := binsert domain_id chain_id (chain_ids pool);
                used_chain_ids := binsert chain_id tt (used_chain_ids pool);
                pool_entries := pool_entries pool;
                sender_counts := sender_counts pool |}
    end.

(** [(state_nonce..=target).all(...)] stops at the first missing nonce; the
    nonces it passes are distinct entries, so one more round than there are
    entries is enough ([contiguous_spec]). *)
Fixpoint contiguous_from (fuel : nat) (entries : btree (DomainId * bytes * Z) PoolEntry)
    (domain_id : DomainId) (sender : bytes) (nonce target : Z) : bool :=
  if target <? nonce then true
  else
    match fuel with
    | O => false
    | S fuel' =>
        bcontains (domain_id, sender, nonce) entries &&
        contiguous_from fuel' entries domain_id sender (nonce + 1) target
    end.

Definition nonce_is_contiguous (pool : Mempool) (domain_id : DomainId) (sender : bytes)
    (state_nonce target : Z) : bool :=
  contiguous_from (S (length (pool_entries pool))) (pool_entries pool) domain_id sender
    state_nonce target.

(** The [while let] loop of [ready]; the same bound on the rounds. *)
Fixpoint ready_from (fuel : nat) (entries : btree (DomainId * bytes * Z) PoolEntry)
    (domain_id : DomainId) (sender : bytes) (nonce : Z) : list PoolEntry :=
  match fuel with
  | O => []
  | S fuel' =>
      match bget (domain_id, sender, nonce) entries with
      | None => []
      | Some entry =>
          entry ::
          match checked_add 64 nonce 1 with
          | None => []
          | Some next => ready_from fuel' entries domain_id sender next
          end
      end
  end.

Definition ready (pool : Mempool) (domain_id : DomainId) (sender : bytes) (state_nonce : Z)
    : list PoolEntry :=
  ready_from (S (length (pool_entries pool))) (pool_entries pool) domain_id sender state_nonce.

Definition senders (pool : Mempool) (domain_id : DomainId) : list bytes :=
  omap (λ k, if bool_decide (k.1 = domain_id) then Some k.2 else None)
    (bkeys (sender_counts pool)).

Definition decrement_sender (counts : btree (DomainId * bytes) Z) (domain_id : DomainId)
    (sender : bytes) (removed : Z) : btree (DomainId * bytes) Z :=
  match bget (domain_id, sender) counts with
  | None => counts
  | Some count =>
      let count := saturating_sub count removed in
      if count =? 0 then bremove (domain_id, sender) counts
      else binsert (domain_id, sender) count counts
  end.

(** One iteration of the loop of [reserve_hashes]. *)
Definition reserve_step (st : Mempool * list PoolEntry) (key : DomainId * bytes * Z)
    : Mempool * list PoolEntry :=
  let '(pool, reserved) := st in
  match bget key (pool_entries pool) with
  | None => st
  | Some entry =>
      (with_entries pool (bremove key (pool_entries pool))
         (decrement_sender (sender_counts pool) key.1.1 key.1.2 1),
       reserved ++ [entry])
  end.

Definition reserve_hashes (pool : Mempool) (hashes : btree bytes unit)
    : Mempool * list PoolEntry :=
  let keys :=
    omap (λ e, if bcontains (pe_transaction_hash e.2) hashes then Some e.1 else None)
      (pool_entries pool) in
  let '(pool, reserved) := foldl reserve_step (pool, []) keys in
  (pool, sort_by_key entry_key reserved).

(** One iteration of the loop of [restore_reserved]. *)
Definition restore_step (pool : Mempool) (entry : PoolEntry) : Mempool :=
  let key := entry_key entry in
  if bcontains key (pool_entries pool) || negb (bcontains (pe_domain_id entry) (chain_ids pool))
  then pool
  else
    let sender_key := (pe_domain_id entry, pe_sender entry) in
    let count := default 0 (bget sender_key (sender_counts pool)) in
    with_entries pool (binsert key entry (pool_entries pool))
      (binsert sender_key (count + 1) (sender_counts pool)).

Definition restore_reserved (pool : Mempool) (entries : list PoolEntry) : Mempool :=
  foldl restore_step pool entries.

(** [range((domain, sender, 0)..(domain, sender, state_nonce))]. *)
Definition nonce_range (pool : Mempool) (domain_id : DomainId) (sender : bytes)
    (state_nonce : Z) : list (DomainId * bytes * Z) :=
  List.filter (λ key, tleb (domain_id, sender, 0) key && tltb key (domain_id, sender, state_nonce))
    (bkeys (pool_entries pool)).

Definition advance_nonce (pool : Mempool) (domain_id : DomainId) (sender : bytes)
    (state_nonce : Z) : Mempool * Z :=
  let keys := nonce_range pool domain_id sender state_nonce in
  let entries := foldl (λ m key, bremove key m) (pool_entries pool) keys in
  (with_entries pool entries
     (decrement_sender (sender_counts pool) domain_id sender (zlen keys)),
   zlen keys).

Definition pool_len (pool : Mempool) : Z := zlen (pool_entries pool).

Definition is_empty (pool : Mempool) : bool := zlen (pool_entries pool) =? 0.

Section insert.
Context `{Keccak, AlloyRlp, SenderRecovery}.

Definition insert (pool : Mempool) (domain_id : DomainId) (envelope : bytes) (state_nonce : Z)
    : outcome MempoolError (Mempool * QueueStatus.t) :=
  let? chain_id := ok_or (bget domain_id (chain_ids pool)) UnknownDomain in
  if max_transaction_bytes (config pool) <? zlen envelope
  then Err (EnvelopeTooLarge (max_transaction_bytes (config pool)) (zlen envelope))
  else
    let? transaction := map_err (λ e, InvalidTransaction (Codec e)) (decode_eip1559 envelope) in
    if negb (tx_chain_id transaction =? chain_id)
    then Err (WrongChainId chain_id (tx_chain_id transaction))
    else if tx_nonce transaction <? state_nonce
    then Err (NonceTooLow state_nonce (tx_nonce transaction))
    else
      let? sender := map_err InvalidTransaction (recover_eip1559_sender transaction) in
      let? transaction_hash := map_err InvalidTransaction (eip1559_transaction_hash transaction) in
      let key := (domain_id, sender, tx_nonce transaction) in
      let entry :=
        {| pe_domain_id := domain_id;
           pe_sender := sender;
           pe_transaction_hash := transaction_hash;
           pe_envelope := envelope;
           pe_transaction := transaction |} in
      match bget key (pool_entries pool) with
      | Some existing =>
          if negb (replacement_priced (pe_transaction existing) transaction
                     (replacement_bump_percent (config pool)))
          then Err ReplacementUnderpriced
          else
            Ok (with_entries pool (binsert key entry (pool_entries pool)) (sender_counts pool),
                QueueStatus.Replaced)
      | None =>
          if max_transactions (config pool) <=? zlen (pool_entries pool) then Err Capacity
          else
            let sender_key := (domain_id, sender) in
            let sender_count := default 0 (bget sender_key (sender_counts pool)) in
            if max_transactions_per_sender (config pool) <=? sender_count then Err SenderCapacity
            else
              let nonce := tx_nonce transaction in
              let pool :=
                with_entries pool (binsert key entry (pool_entries pool))
                  (binsert sender_key (sender_count + 1) (sender_counts pool)) in
              Ok (pool,
                  if nonce_is_contiguous pool domain_id sender state_nonce nonce
                  then QueueStatus.Pending
                  else QueueStatus.Queued)
      end.

End insert.

(** ** Counting entries per sender *)

Definition count (ds : DomainId * bytes) (keys : list (DomainId * bytes * Z)) : Z :=
  zlen (filter (λ k, k.1 = ds) keys).

Definition counts_ok (counts : btree (DomainId * bytes) Z) (keys : list (DomainId * bytes * Z))
    : Prop :=
  ∀ ds, bget ds counts = if count ds keys =? 0 then None else Some (count ds keys).

Lemma count_nonneg ds keys : 0 ≤ count ds keys.
Proof. apply zlen_nonneg. Qed.

Lemma count_cons ds k keys :
  count ds (k :: keys) = (if decide (k.1 = ds) then 1 else 0) + count ds keys.
Proof.
  unfold count. rewrite filter_cons. destruct (decide (k.1 = ds)); [by rewrite zlen_cons|done].
Qed.

Lemma count_app ds l k : count ds (l ++ k) = count ds l + count ds k.
Proof. unfold count. by rewrite list.filter_app, zlen_app. Qed.

Lemma count_perm ds l k : l ≡ₚ k → count ds l = count ds k.
Proof. intros Hp. unfold count, zlen. by rewrite Hp. Qed.

Lemma count_all ds l : Forall (λ k, k.1 = ds) l → count ds l = zlen l.
Proof.
  induction 1 as [|k l Hk _ IH]; [done|]. rewrite count_cons, zlen_cons, IH.
  by rewrite decide_True.
Qed.

Lemma count_none ds ds' l : Forall (λ k, k.1 = ds) l → ds' ≠ ds → count ds' l = 0.
Proof.
  intros Hall Hne. induction Hall as [|k l Hk _ IH]; [done|]. rewrite count_cons, IH.
  by rewrite decide_False by congruence.
Qed.

Lemma counts_ok_perm counts l k : l ≡ₚ k → counts_ok counts l → counts_ok counts k.
Proof. intros Hp Hc ds. by rewrite Hc, (count_perm ds l k Hp). Qed.

Lemma counts_ok_default counts keys ds :
  counts_ok counts keys → default 0 (bget ds counts) = count ds keys.
Proof. intros Hc. rewrite Hc. by destruct (Z.eqb_spec (count ds keys) 0). Qed.

Lemma counts_ok_add counts keys k :
  counts_ok counts keys →
  counts_ok (binsert k.1 (default 0 (bget k.1 counts) + 1) counts) (k :: keys).
Proof.
  intros Hc ds. rewrite (counts_ok_default _ _ _ Hc), count_cons, bget_binsert.
  pose proof (count_nonneg k.1 keys).
  destruct (teqb ds k.1) eqn:E.
  - apply teqb_eq in E as ->. rewrite decide_True by done. guards. f_equal. lia.
  - apply teqb_neq in E. rewrite decide_False by congruence. apply Hc.
Qed.

Lemma counts_ok_remove counts keys removed keys' ds :
  counts_ok counts keys → keys ≡ₚ removed ++ keys' → Forall (λ k, k.1 = ds) removed →
  counts_ok (decrement_sender counts ds.1 ds.2 (zlen removed)) keys'.
Proof.
  intros Hc Hp Hr. destruct ds as [d s]; simpl.
  assert (∀ ds', count ds' keys = count ds' removed + count ds' keys') as Hsplit
    by (intros; by rewrite (count_perm _ _ _ Hp), count_app).
  pose proof (Hsplit (d, s)) as Hds. rewrite (count_all _ _ Hr) in Hds.
  pose proof (zlen_nonneg removed). pose proof (count_nonneg (d, s) keys').
  assert (∀ ds', ds' ≠ (d, s) → count ds' keys = count ds' keys') as Hother
    by (intros ds' Hne; rewrite Hsplit, (count_none _ _ _ Hr Hne); lia).
  unfold decrement_sender. rewrite (Hc (d, s)). destruct (Z.eqb_spec (count (d, s) keys) 0) as [E|E].
  - intros ds'. rewrite Hc. destruct (decide (ds' = (d, s))) as [->|Hne]; [|by rewrite Hother].
    by replace (count (d, s) keys') with (count (d, s) keys) by lia.
  - unfold saturating_sub. rewrite Z.max_l by lia.
    replace (count (d, s) keys - zlen removed) with (count (d, s) keys') by lia.
    intros ds'. destruct (Z.eqb_spec (count (d, s) keys') 0) as [E'|E'].
    + rewrite bget_bremove. destruct (teqb ds' (d, s)) eqn:Et.
      * apply teqb_eq in Et as ->. by rewrite E'.
      * apply teqb_neq in Et. by rewrite Hc, Hother.
    + rewrite bget_binsert. destruct (teqb ds' (d, s)) eqn:Et.
      * apply teqb_eq in Et as ->. by guards.
      * apply teqb_neq in Et. by rewrite Hc, Hother.
Qed.

Lemma sorted_decrement counts d s n : sorted counts → sorted (decrement_sender counts d s n).
Proof.
  intros Hs. unfold decrement_sender. destruct (bget (d, s) counts); [|done].
  destruct (_ =? 0); [by apply sorted_bremove|by apply sorted_binsert].
Qed.

(** ** The invariant *)

Section invariant.
Context `{Keccak, AlloyRlp, SenderRecovery}.

(** An entry that passed admission: routed by its chain id, decoded from its
    envelope, signed by its sender, hashed. *)
Definition entry_ok (pool : Mempool) (e : PoolEntry) : Prop :=
  bget (pe_domain_id e) (chain_ids pool) = Some (tx_chain_id (pe_transaction e)) ∧
  decode_eip1559 (pe_envelope e) = Ok (pe_transaction e) ∧
  recover_eip1559_sender (pe_transaction e) = Ok (pe_sender e) ∧
  eip1559_transaction_hash (pe_transaction e) = Ok (pe_transaction_hash e) ∧
  zlen (pe_envelope e) ≤ max_transaction_bytes (config pool).

Record pool_inv (pool : Mempool) : Prop := {
  inv_chain_sorted : sorted (chain_ids pool);
  inv_used_sorted : sorted (used_chain_ids pool);
  inv_entries_sorted : sorted (pool_entries pool);
  inv_counts_sorted : sorted (sender_counts pool);
  inv_used : ∀ c, is_Some (bget c (used_chain_ids pool)) ↔
    ∃ d, bget d (chain_ids pool) = Some c;
  inv_injective : ∀ d1 d2 c, bget d1 (chain_ids pool) = Some c →
    bget d2 (chain_ids pool) = Some c → d1 = d2;
  inv_nonzero : ∀ d c, bget d (chain_ids pool) = Some c → c ≠ 0;
  inv_entry : ∀ k e, bget k (pool_entries pool) = Some e → k = entry_key e ∧ entry_ok pool e;
  inv_counts : counts_ok (sender_counts pool) (bkeys (pool_entries pool));
  inv_limit : max_transaction_bytes (config pool) ≤ MAX_TRANSACTION_ENVELOPE_BYTES;
}.

Lemma new_inv c : pool_inv (new_pool c).
Proof.
  split; simpl; try (by constructor); try done.
  - intros x. split; [by intros [? ?]|by intros [? ?]].
  - lia.
Qed.

Lemma register_inv pool d c pool' :
  pool_inv pool → register_domain pool d c = Ok pool' →
  pool_inv pool' ∧ bget d (chain_ids pool') = Some c ∧
  pool_entries pool' = pool_entries pool ∧ config pool' = config pool ∧
  (∀ d' c', bget d' (chain_ids pool) = Some c' → bget d' (chain_ids pool') = Some c').
Proof.
  intros Hinv Hr. unfold register_domain in Hr. ok_inv. bool_prop.
  destruct (bget d (chain_ids pool)) as [c0|] eqn:Hd.
  { ok_inv. bool_prop. by subst. }
  ok_inv. subst pool'. simpl. apply bcontains_false in Hif0.
  assert (∀ d' c', bget d' (chain_ids pool) = Some c' →
    bget d' (binsert d c (chain_ids pool)) = Some c') as Hmono.
  { intros d' c' Hd'. rewrite bget_binsert_ne; [done|congruence]. }
  split; [|by rewrite bget_binsert_eq].
  destruct Hinv as [Hcs Hus Hes Hks Hused Hinj Hnz Hent Hcnt Hlim].
  split; simpl; auto with arbor.
  - intros x. rewrite bget_binsert. destruct (teqb x c) eqn:E.
    + apply teqb_eq in E as ->. split; [|eauto]. intros _. exists d. apply bget_binsert_eq.
    + apply teqb_neq in E. rewrite Hused. split.
      * intros [d' Hd']. eauto.
      * intros [d' Hd']. rewrite bget_binsert in Hd'. destruct (teqb d' d) eqn:Ed; [congruence|].
        eauto.
  - intros d1 d2 x. rewrite !bget_binsert.
    destruct (teqb d1 d) eqn:E1, (teqb d2 d) eqn:E2; intros H1' H2'; simplify_eq.
    + apply teqb_eq in E1, E2. congruence.
    + exfalso. destruct (proj2 (Hused x) (ex_intro _ d2 H2')). congruence.
    + exfalso. destruct (proj2 (Hused x) (ex_intro _ d1 H1')). congruence.
    + by eapply Hinj.
  - intros d' x. rewrite bget_binsert. destruct (teqb d' d); [congruence|apply Hnz].
  - intros k e He. destruct (Hent k e He) as (Hk & Hroute & Hrest). split; [done|].
    split; [|done]. simpl. by apply Hmono.
Qed.

(** Changing entries and counters together. *)
Lemma with_entries_inv pool entries counts :
  pool_inv pool → sorted entries → sorted counts → counts_ok counts (bkeys entries) →
  (∀ k e, bget k entries = Some e → k = entry_key e ∧ entry_ok pool e) →
  pool_inv (with_entries pool entries counts).
Proof. intros [] Hes Hcs Hcnt Hent. by split. Qed.

Lemma entry_ok_with pool entries counts e :
  entry_ok (with_entries pool entries counts) e ↔ entry_ok pool e.
Proof. done. Qed.

(** Adding an entry under a free key, as [insert] and [restore_reserved] do. *)
Lemma add_entry_inv pool e :
  pool_inv pool → entry_ok pool e → bget (entry_key e) (pool_entries pool) = None →
  pool_inv (with_entries pool (binsert (entry_key e) e (pool_entries pool))
    (binsert (entry_key e).1 (default 0 (bget (entry_key e).1 (sender_counts pool)) + 1)
       (sender_counts pool))).
Proof.
  intros Hinv He Hfree. apply with_entries_inv; [done|apply sorted_binsert, Hinv..| |].
  - eapply counts_ok_perm; [|by apply counts_ok_add, Hinv].
    by rewrite (bkeys_binsert_perm _ _ _ Hfree).
  - intros k e'. rewrite bget_binsert. destruct (teqb k (entry_key e)) eqn:E.
    + apply teqb_eq in E as ->. intros [= <-]. done.
    + apply Hinv.
Qed.

Lemma remove_entry_inv pool k e :
  pool_inv pool → bget k (pool_entries pool) = Some e →
  pool_inv (with_entries pool (bremove k (pool_entries pool))
    (decrement_sender (sender_counts pool) k.1.1 k.1.2 1)).
Proof.
  intros Hinv Hk. apply with_entries_inv; [done|apply sorted_bremove, Hinv| | |].
  - apply sorted_decrement, Hinv.
  - apply (counts_ok_remove _ (bkeys (pool_entries pool)) [k]); [apply Hinv| |by constructor].
    apply (bkeys_bremove_perm k e); [apply Hinv|done].
  - intros k' e'. rewrite bget_bremove. destruct (teqb k' k); [done|]. apply Hinv.
Qed.

Lemma insert_inv pool d env n pool' st :
  pool_inv pool → insert pool d env n = Ok (pool', st) →
  pool_inv pool' ∧ chain_ids pool' = chain_ids pool ∧ config pool' = config pool.
Proof.
  intros Hinv Hi. unfold insert in Hi. ok_inv. bool_prop. cbv zeta in Hi.
  set (e := {| pe_domain_id := d; pe_sender := a1 |}) in Hi.
  change (d, a1, tx_nonce a0) with (entry_key e) in Hi.
  assert (entry_ok pool e) as He.
  { split_and!; simpl; try done. by rewrite Hok, <-Hif0. }
  destruct (bget (entry_key e) (pool_entries pool)) as [ex|] eqn:Hex; ok_inv; simplify_eq.
  - split; [|done]. apply with_entries_inv; [done|apply sorted_binsert, Hinv|apply Hinv| |].
    + rewrite bkeys_binsert_old; [apply Hinv|apply Hinv|eauto].
    + intros k e'. rewrite bget_binsert. destruct (teqb k (entry_key e)) eqn:E.
      * apply teqb_eq in E as ->. intros [= <-]. done.
      * apply Hinv.
  - split; [|done]. by apply (add_entry_inv pool e).
Qed.

Lemma reserve_fold_inv keys pool r :
  pool_inv pool → Forall (entry_ok pool) r →
  let st := foldl reserve_step (pool, r) keys in
  pool_inv st.1 ∧ Forall (entry_ok pool) st.2 ∧ chain_ids st.1 = chain_ids pool ∧
  config st.1 = config pool.
Proof.
  revert pool r. induction keys as [|k keys IH]; intros pool r Hinv Hr; simpl; [done|].
  destruct (bget k (pool_entries pool)) as [e|] eqn:Hk; [|by apply IH].
  destruct (IH (with_entries pool (bremove k (pool_entries pool))
    (decrement_sender (sender_counts pool) k.1.1 k.1.2 1)) (r ++ [e])) as (? & ? & ? & ?).
  - by eapply remove_entry_inv.
  - apply Forall_app. split; [done|]. constructor; [|done]. by apply (inv_entry _ Hinv k).
  - done.
Qed.

(** ** Reserving and restoring *)

Lemma reserve_fold_lookup keys pool r k :
  bget k (pool_entries (foldl reserve_step (pool, r) keys).1) =
    if bool_decide (k ∈ keys) then None else bget k (pool_entries pool).
Proof.
  revert pool r. induction keys as [|k0 keys IH]; intros pool r; simpl; [done|].
  destruct (bget k0 (pool_entries pool)) as [e|] eqn:Hk; rewrite IH; simpl.
  - rewrite bget_bremove. destruct (teqb k k0) eqn:E.
    + apply teqb_eq in E as ->. rewrite (bool_decide_true (k0 ∈ k0 :: keys)) by left.
      by destruct (bool_decide _).
    + apply teqb_neq in E. rewrite (bool_decide_ext (k ∈ k0 :: keys) (k ∈ keys)); [done|].
      rewrite elem_of_cons. naive_solver.
  - destruct (decide (k = k0)) as [->|Hne].
    + rewrite Hk. by repeat destruct (bool_decide _).
    + rewrite (bool_decide_ext (k ∈ k0 :: keys) (k ∈ keys)); [done|].
      rewrite elem_of_cons. naive_solver.
Qed.

Lemma reserve_fold_elem keys pool r e :
  e ∈ (foldl reserve_step (pool, r) keys).2 ↔
    e ∈ r ∨ ∃ k, k ∈ keys ∧ bget k (pool_entries pool) = Some e.
Proof.
  revert pool r. induction keys as [|k0 keys IH]; intros pool r; simpl.
  - split; [by left|]. intros [?|(k & ?%elem_of_nil & _)]; done.
  - destruct (bget k0 (pool_entries pool)) as [e0|] eqn:Hk; rewrite IH; simpl.
    + rewrite elem_of_app, list_elem_of_singleton. split.
      * intros [[?| ->]|(k & Hin & Hg)]; [by left|right; exists k0; split; [left|done]|].
        rewrite bget_bremove in Hg. destruct (teqb k k0); [done|].
        right. exists k. split; [by right|done].
      * intros [?|(k & [->|Hin]%elem_of_cons & Hg)]; [by left; left|left; right; congruence|].
        destruct (decide (k = k0)) as [->|Hne]; [left; right; congruence|].
        right. exists k. split; [done|]. by rewrite bget_bremove_ne.
    + split.
      * intros [?|(k & Hin & Hg)]; [by left|]. right. exists k. split; [by right|done].
      * intros [?|(k & [->|Hin]%elem_of_cons & Hg)]; [by left|congruence|]. right. by exists k.
Qed.

Definition selected (pool : Mempool) (hashes : btree bytes unit) : list (DomainId * bytes * Z) :=
  omap (λ e, if bcontains (pe_transaction_hash e.2) hashes then Some e.1 else None)
    (pool_entries pool).

Lemma reserve_unfold pool hashes :
  reserve_hashes pool hashes =
    ((foldl reserve_step (pool, []) (selected pool hashes)).1,
     sort_by_key entry_key (foldl reserve_step (pool, []) (selected pool hashes)).2).
Proof. unfold reserve_hashes, selected. by destruct (foldl _ _ _). Qed.

Lemma selected_elem pool hashes k :
  pool_inv pool →
  k ∈ selected pool hashes ↔ ∃ e, bget k (pool_entries pool) = Some e ∧
    bcontains (pe_transaction_hash e) hashes = true.
Proof.
  intros Hinv. unfold selected. rewrite list_elem_of_omap. split.
  - intros ([k' e] & Hin & Hs). simpl in Hs.
    destruct (bcontains (pe_transaction_hash e) hashes) eqn:Hc; simplify_eq.
    exists e. split; [|done]. apply elem_of_bget; [apply Hinv|done].
  - intros (e & Hg & Hc). exists (k, e). split; [by apply bget_elem_of|]. simpl. by rewrite Hc.
Qed.

Lemma reserve_inv pool hashes :
  pool_inv pool →
  pool_inv (reserve_hashes pool hashes).1 ∧
  Forall (entry_ok pool) (reserve_hashes pool hashes).2 ∧
  chain_ids (reserve_hashes pool hashes).1 = chain_ids pool ∧
  config (reserve_hashes pool hashes).1 = config pool.
Proof.
  intros Hinv. rewrite reserve_unfold. cbn [fst snd].
  destruct (reserve_fold_inv (selected pool hashes) pool [] Hinv ltac:(constructor))
    as (H1' & H2' & H3' & H4').
  split; [done|]. split; [|done]. by rewrite sort_by_key_perm.
Qed.

Lemma restore_step_inv pool e :
  pool_inv pool → entry_ok pool e →
  pool_inv (restore_step pool e) ∧ chain_ids (restore_step pool e) = chain_ids pool ∧
  config (restore_step pool e) = config pool.
Proof.
  intros Hinv He. unfold restore_step. cbv zeta. destruct (_ || _) eqn:Hc; [done|]. bool_prop.
  split; [|done]. apply bcontains_false in H2. by apply (add_entry_inv pool e).
Qed.

Lemma restore_inv es pool :
  pool_inv pool → Forall (entry_ok pool) es →
  pool_inv (restore_reserved pool es) ∧ chain_ids (restore_reserved pool es) = chain_ids pool ∧
  config (restore_reserved pool es) = config pool.
Proof.
  unfold restore_reserved. revert pool. induction es as [|e es IH]; intros pool Hinv Hall; simpl;
    [done|].
  inversion Hall as [|? ? He Hes]; subst.
  destruct (restore_step_inv pool e Hinv He) as (Hi & Hc & Hg).
  destruct (IH (restore_step pool e) Hi) as (? & ? & ?).
  - eapply list.Forall_impl; [exact Hes|]. intros x Hx. unfold entry_ok in *. by rewrite Hc, Hg.
  - split; [done|]. split; congruence.
Qed.

Lemma restore_keeps es pool k x :
  bget k (pool_entries pool) = Some x →
  bget k (pool_entries (restore_reserved pool es)) = Some x.
Proof.
  unfold restore_reserved. revert pool. induction es as [|e es IH]; intros pool Hk; simpl; [done|].
  apply IH. unfold restore_step. cbv zeta. destruct (_ || _) eqn:Hc; [done|]. bool_prop. simpl.
  apply bcontains_false in H2. rewrite bget_binsert_ne; [done|congruence].
Qed.

Lemma restore_origin es pool k x :
  bget k (pool_entries (restore_reserved pool es)) = Some x →
  bget k (pool_entries pool) = Some x ∨ (x ∈ es ∧ k = entry_key x).
Proof.
  unfold restore_reserved. revert pool. induction es as [|e es IH]; intros pool Hk; simpl in *;
    [by left|].
  apply IH in Hk as [Hk|[Hin ->]]; [|right; split; [by right|done]].
  unfold restore_step in Hk. cbv zeta in Hk. destruct (_ || _) eqn:Hc; [by left|]. simpl in Hk.
  rewrite bget_binsert in Hk. destruct (teqb k (entry_key e)) eqn:E; [|by left].
  simplify_eq. apply teqb_eq in E as ->. right. split; [left|done].
Qed.

Lemma restore_present es pool e :
  e ∈ es → is_Some (bget (pe_domain_id e) (chain_ids pool)) →
  is_Some (bget (entry_key e) (pool_entries (restore_reserved pool es))).
Proof.
  unfold restore_reserved. revert pool. induction es as [|e0 es IH]; intros pool Hin Hd; simpl;
    [by apply elem_of_nil in Hin|].
  apply elem_of_cons in Hin as [<-|Hin].
  - assert (is_Some (bget (entry_key e) (pool_entries (restore_step pool e)))) as [x Hx].
    { unfold restore_step. cbv zeta. destruct (bcontains (entry_key e) (pool_entries pool)) eqn:E.
      - by apply bcontains_true in E.
      - rewrite (proj2 (bcontains_true _ _) Hd). simpl. rewrite bget_binsert_eq. eauto. }
    exists x. by apply (restore_keeps es).
  - apply IH; [done|]. unfold restore_step. cbv zeta. by destruct (_ || _).
Qed.

(** Entries determine the rest of the mutable state. *)
Lemma pool_ext p q :
  pool_inv p → pool_inv q → config p = config q → chain_ids p = chain_ids q →
  used_chain_ids p = used_chain_ids q →
  (∀ k, bget k (pool_entries p) = bget k (pool_entries q)) → p = q.
Proof.
  intros Hp Hq Hc Hch Hu Hlk.
  assert (pool_entries p = pool_entries q) as He
    by (apply btree_ext; [apply Hp|apply Hq|done]).
  assert (sender_counts p = sender_counts q) as Hs.
  { apply btree_ext; [apply Hp|apply Hq|]. intros ds.
    by rewrite (inv_counts _ Hp ds), (inv_counts _ Hq ds), He. }
  destruct p, q; simpl in *; congruence.
Qed.

Lemma reserve_used pool hashes :
  used_chain_ids (reserve_hashes pool hashes).1 = used_chain_ids pool.
Proof.
  rewrite reserve_unfold. cbn [fst]. generalize (@nil PoolEntry).
  generalize (selected pool hashes). intros keys. revert pool.
  induction keys as [|k keys IH]; intros pool r; simpl; [done|].
  destruct (bget k (pool_entries pool)); by rewrite IH.
Qed.

Lemma restore_used es pool : used_chain_ids (restore_reserved pool es) = used_chain_ids pool.
Proof.
  unfold restore_reserved. revert pool. induction es as [|e es IH]; intros pool; simpl; [done|].
  rewrite IH. unfold restore_step. cbv zeta. by destruct (_ || _).
Qed.

Lemma reserve_elem pool hashes e :
  pool_inv pool →
  e ∈ (reserve_hashes pool hashes).2 ↔
    bget (entry_key e) (pool_entries pool) = Some e ∧
    bcontains (pe_transaction_hash e) hashes = true.
Proof.
  intros Hinv. rewrite reserve_unfold. cbn [snd]. rewrite sort_by_key_perm, reserve_fold_elem.
  split.
  - intros [?%elem_of_nil|(k & Hk & Hg)]; [done|].
    apply selected_elem in Hk as (e' & Hg' & Hc); [|done].
    assert (e' = e) as -> by congruence.
    destruct (inv_entry _ Hinv k e Hg) as [-> _]. done.
  - intros [Hg Hc]. right. exists (entry_key e). split; [|done].
    apply selected_elem; [done|]. eauto.
Qed.

Lemma reserve_lookup pool hashes k :
  pool_inv pool →
  bget k (pool_entries (reserve_hashes pool hashes).1) =
    match bget k (pool_entries pool) with
    | Some e => if bcontains (pe_transaction_hash e) hashes then None else Some e
    | None => None
    end.
Proof.
  intros Hinv. rewrite reserve_unfold. cbn [fst]. rewrite reserve_fold_lookup.
  destruct (bool_decide (k ∈ selected pool hashes)) eqn:E; bool_prop.
  - apply selected_elem in E as (e & -> & ->); done.
  - destruct (bget k (pool_entries pool)) as [e|] eqn:Hk; [|done].
    destruct (bcontains (pe_transaction_hash e) hashes) eqn:Hc; [|done].
    exfalso. apply E, selected_elem; eauto.
Qed.

Lemma reserve_restore_aux pool hashes :
  pool_inv pool →
  restore_reserved (reserve_hashes pool hashes).1 (reserve_hashes pool hashes).2 = pool.
Proof.
  intros Hinv. destruct (reserve_inv pool hashes Hinv) as (Hq & Hes & Hch & Hcf).
  set (q := (reserve_hashes pool hashes).1) in *. set (es := (reserve_hashes pool hashes).2) in *.
  assert (Forall (entry_ok q) es) as Hes'.
  { eapply list.Forall_impl; [exact Hes|]. intros x Hx. unfold entry_ok in *. by rewrite Hch, Hcf. }
  destruct (restore_inv es q Hq Hes') as (Hr & Hrc & Hrf).
  apply pool_ext; [done|done|congruence|congruence| |].
  - rewrite restore_used. apply reserve_used.
  - intros k. destruct (bget k (pool_entries pool)) as [x|] eqn:Hk.
    + pose proof (reserve_lookup pool hashes k Hinv) as Hl. rewrite Hk in Hl.
      destruct (bcontains (pe_transaction_hash x) hashes) eqn:Hc.
      * destruct (inv_entry _ Hinv k x Hk) as [-> Hx].
        assert (x ∈ es) as Hin by (apply reserve_elem; done).
        destruct (restore_present es q x Hin) as [y Hy]; [rewrite Hch; destruct Hx; eauto|].
        rewrite Hy. apply restore_origin in Hy as [Hy|[Hy E]].
        -- change (bget (entry_key x) (pool_entries q) = None) in Hl. congruence.
        -- apply reserve_elem in Hy as [Hy _]; [|done]. rewrite <-E in Hy. congruence.
      * by apply restore_keeps.
    + destruct (bget k (pool_entries (restore_reserved q es))) as [y|] eqn:Hy; [|done].
      exfalso. apply restore_origin in Hy as [Hy|[Hy ->]].
      * unfold q in Hy. rewrite reserve_lookup, Hk in Hy by done. done.
      * apply reserve_elem in Hy as [Hy _]; [|done]. congruence.
Qed.

(** ** Advancing nonces *)

Lemma nonce_range_elem pool d s n k :
  k ∈ nonce_range pool d s n ↔ is_Some (bget k (pool_entries pool)) ∧ k.1 = (d, s) ∧ 0 ≤ k.2 < n.
Proof.
  unfold nonce_range. rewrite list_elem_of_In, List.filter_In, <-list_elem_of_In, bkeys_elem.
  rewrite andb_true_iff, tltb_tlt. destruct k as [ds x]; simpl.
  assert (tleb (d, s, 0) (ds, x) = true ↔ ¬ tlt (ds, x) (d, s, 0)) as ->.
  { unfold tleb. rewrite <-tcompare_gt. destruct (tcompare _ _); naive_solver. }
  assert (∀ y, tlt (ds, x) (d, s, y) ↔ tlt ds (d, s) ∨ ds = (d, s) ∧ x < y) as Hlt.
  { intros y. unfold tlt at 1. cbn [tcompare prod_total_order]. unfold prod_compare at 1.
    cbn [fst snd]. destruct (tcompare ds (d, s)) eqn:E.
    - apply tcompare_eq in E as ->. cbn [tcompare Z_total_order]. rewrite Z.compare_lt_iff.
      pose proof (tlt_irrefl (d, s)). naive_solver.
    - unfold tlt. rewrite E. naive_solver.
    - unfold tlt. rewrite E. split; [done|]. intros [?|[-> _]]; [done|].
      by rewrite tcompare_refl in E. }
  rewrite !Hlt. pose proof (tlt_irrefl (d, s)).
  destruct (decide (ds = (d, s))) as [->|Hne]; intuition (done || lia).
Qed.

Lemma foldl_bremove_lookup keys (m : btree (DomainId * bytes * Z) PoolEntry) k :
  bget k (foldl (λ m key, bremove key m) m keys) =
    if bool_decide (k ∈ keys) then None else bget k m.
Proof.
  revert m. induction keys as [|k0 keys IH]; intros m; simpl; [done|]. rewrite IH, bget_bremove.
  destruct (teqb k k0) eqn:E.
  - apply teqb_eq in E as ->. rewrite (bool_decide_true (k0 ∈ k0 :: keys)) by left.
    by destruct (bool_decide _).
  - apply teqb_neq in E. rewrite (bool_decide_ext (k ∈ k0 :: keys) (k ∈ keys)); [done|].
    rewrite elem_of_cons. naive_solver.
Qed.

Lemma foldl_bremove_sorted keys (m : btree (DomainId * bytes * Z) PoolEntry) :
  sorted m → sorted (foldl (λ m key, bremove key m) m keys).
Proof.
  revert m. induction keys as [|k0 keys IH]; intros m Hs; simpl; [done|].
  apply IH. by apply sorted_bremove.
Qed.

Lemma advance_lookup pool d s n k :
  bget k (pool_entries (advance_nonce pool d s n).1) =
    if bool_decide (k.1 = (d, s) ∧ 0 ≤ k.2 < n) then None else bget k (pool_entries pool).
Proof.
  unfold advance_nonce. simpl. rewrite foldl_bremove_lookup.
  destruct (decide (k ∈ nonce_range pool d s n)) as [Hin|Hin].
  - rewrite (bool_decide_true (k ∈ _)) by done. apply nonce_range_elem in Hin as (_ & Hk).
    by rewrite bool_decide_true.
  - rewrite (bool_decide_false (k ∈ _)) by done. case_bool_decide as Hk; [|done].
    destruct (bget k (pool_entries pool)) eqn:Hg; [|done].
    exfalso. apply Hin, nonce_range_elem. eauto.
Qed.

Lemma advance_inv pool d s n :
  pool_inv pool →
  pool_inv (advance_nonce pool d s n).1 ∧
  pool_len pool = pool_len (advance_nonce pool d s n).1 + (advance_nonce pool d s n).2.
Proof.
  intros Hinv. set (keys := nonce_range pool d s n).
  set (m := foldl (λ m key, bremove key m) (pool_entries pool) keys).
  assert (sorted m) as Hs by apply foldl_bremove_sorted, Hinv.
  assert (bkeys (pool_entries pool) ≡ₚ keys ++ bkeys m) as Hperm.
  { apply NoDup_Permutation.
    - apply sorted_NoDup, Hinv.
    - apply list.NoDup_app. split; [|split; [|by apply sorted_NoDup]].
      + apply NoDup_ListNoDup, List.NoDup_filter, NoDup_ListNoDup, sorted_NoDup, Hinv.
      + intros k Hk Hm. apply bkeys_elem in Hm as [e He]. unfold m in He.
        rewrite foldl_bremove_lookup, bool_decide_true in He; done.
    - intros k. rewrite elem_of_app, !bkeys_elem. unfold m. rewrite foldl_bremove_lookup.
      destruct (decide (k ∈ keys)) as [Hk|Hk].
      + split; [by left|]. intros _. by apply nonce_range_elem in Hk as [? _].
      + rewrite bool_decide_false by done. naive_solver. }
  split.
  - apply with_entries_inv; [done|done|apply sorted_decrement, Hinv| |].
    + apply (counts_ok_remove _ (bkeys (pool_entries pool)) keys _ (d, s)); [apply Hinv|done|].
      apply list.Forall_forall. intros k Hk. by apply nonce_range_elem in Hk as (_ & ? & _).
    + intros k e He. unfold m in He. rewrite foldl_bremove_lookup in He.
      destruct (bool_decide _); [done|]. by apply Hinv.
  - unfold pool_len, advance_nonce. simpl. fold keys m.
    apply Permutation_length in Hperm. rewrite length_app in Hperm. unfold bkeys in Hperm.
    rewrite !length_fmap in Hperm. unfold zlen. lia.
Qed.

End invariant.

(** ** Nonce queues *)

Section queues.
Context (m : btree (DomainId * bytes * Z) PoolEntry) (d : DomainId) (s : bytes).

(** Consecutive nonces are distinct keys, so a run is no longer than the map. *)
Lemma run_length n k :
  (∀ i, 0 ≤ i < Z.of_nat k → is_Some (bget (d, s, n + i) m)) → (k <= length m)%nat.
Proof.
  intros Hrun. set (l := (λ i, (d, s, n + Z.of_nat i)) <$> seq 0 k).
  assert (NoDup l) as Hnd.
  { apply NoDup_fmap_2_strong; [|apply NoDup_seq]. intros x y _ _ E. injection E. lia. }
  assert (l ⊆+ bkeys m) as Hsub.
  { apply NoDup_submseteq; [done|]. intros x (i & -> & Hi)%list_elem_of_fmap.
    apply elem_of_seq in Hi. apply bkeys_elem, Hrun. lia. }
  apply submseteq_length in Hsub. unfold l, bkeys in Hsub.
  rewrite !length_fmap, length_seq in Hsub. done.
Qed.

Lemma contiguous_sound fuel n t :
  contiguous_from fuel m d s n t = true → ∀ i, n ≤ i ≤ t → is_Some (bget (d, s, i) m).
Proof.
  revert n. induction fuel as [|fuel IH]; intros n Hc i Hi; cbn [contiguous_from] in Hc;
    destruct (Z.ltb_spec t n); try lia.
  bool_prop. destruct (decide (i = n)) as [->|Hne]; [by apply bcontains_true|].
  by apply (IH (n + 1)); [|lia].
Qed.

Lemma contiguous_complete fuel n t :
  (∀ i, n ≤ i ≤ t → is_Some (bget (d, s, i) m)) → t - n < Z.of_nat fuel →
  contiguous_from fuel m d s n t = true.
Proof.
  revert n. induction fuel as [|fuel IH]; intros n Hall Hf; cbn [contiguous_from];
    destruct (Z.ltb_spec t n); try done; [lia|].
  rewrite (proj2 (bcontains_true _ _)) by (apply Hall; lia). simpl.
  apply IH; [|lia]. intros i Hi. apply Hall. lia.
Qed.

Lemma contiguous_iff n t :
  contiguous_from (S (length m)) m d s n t = true ↔
  ∀ i, n ≤ i ≤ t → is_Some (bget (d, s, i) m).
Proof.
  split; [apply contiguous_sound|]. intros Hall. apply contiguous_complete; [done|].
  destruct (Z.ltb_spec t n); [lia|].
  pose proof (run_length n (Z.to_nat (t - n + 1))) as Hlen.
  assert (Z.to_nat (t - n + 1) <= length m)%nat; [|lia].
  apply Hlen. intros i Hi. apply Hall. lia.
Qed.

Lemma ready_from_lookup fuel n i e :
  ready_from fuel m d s n !! i = Some e → bget (d, s, n + Z.of_nat i) m = Some e.
Proof.
  revert n i. induction fuel as [|fuel IH]; intros n i Hl; cbn [ready_from] in Hl; [done|].
  destruct (bget (d, s, n) m) as [e0|] eqn:Hg; [|done]. destruct i as [|i]; simpl in Hl.
  - simplify_eq. by rewrite Z.add_0_r.
  - destruct (checked_add 64 n 1) as [next|] eqn:Hn; [|done].
    apply checked_add_Some in Hn as [-> _]. apply IH in Hl. rewrite <-Hl. do 2 f_equal. lia.
Qed.

Lemma ready_from_stop fuel n :
  u64 n → (length (ready_from fuel m d s n) < fuel)%nat →
  let k := Z.of_nat (length (ready_from fuel m d s n)) in
  n + k = 2 ^ 64 ∨ n + k < 2 ^ 64 ∧ bget (d, s, n + k) m = None.
Proof.
  revert n. induction fuel as [|fuel IH]; intros n Hn Hlt; cbn [ready_from] in *; [lia|].
  destruct (bget (d, s, n) m) as [e0|] eqn:Hg; cbn [length].
  2:{ right. rewrite Z.add_0_r. split; [apply Hn|done]. }
  destruct (checked_add 64 n 1) as [next|] eqn:Hc.
  - apply checked_add_Some in Hc as [-> Hlt']. cbn [length] in Hlt.
    specialize (IH (n + 1)). simpl in IH.
    replace (n + Z.of_nat (S (length (ready_from fuel m d s (n + 1)))))
      with (n + 1 + Z.of_nat (length (ready_from fuel m d s (n + 1)))) by lia.
    apply IH; [destruct Hn; split; lia|lia].
  - left. cbn [length]. unfold checked_add in Hc.
    destruct (Z.ltb_spec (n + 1) (2 ^ 64)); [done|]. destruct Hn. lia.
Qed.

Lemma ready_from_length fuel n : (length (ready_from fuel m d s n) <= length m)%nat.
Proof.
  apply (run_length n). intros i Hi.
  destruct (lookup_lt_is_Some_2 (ready_from fuel m d s n) (Z.to_nat i)) as [e He]; [lia|].
  apply ready_from_lookup in He. rewrite Z2Nat.id in He by lia. eauto.
Qed.
End queues.

(** ** Pricing *)

Lemma ceil_split q r b : 0 ≤ q → 0 ≤ r → 0 ≤ b → 
  q * b + div_ceil (r * b) 100 = div_ceil ((100 * q + r) * b) 100.
Proof.
  intros. unfold div_ceil.
  replace ((100 * q + r) * b + 100 - 1) with (q * b * 100 + (r * b + 100 - 1)) by lia.
  rewrite Z.div_add_l by lia. lia.
Qed.

Lemma replacement_min_exact v b :
  u128 v → u8 b → replacement_min v b = Z.min (v + div_ceil (v * b) 100) (umax 128).
Proof.
  intros [Hv0 Hv] [Hb0 Hb]. unfold replacement_min. cbv zeta.
  pose proof (Z.div_mod v 100 ltac:(lia)) as Hdm. pose proof (Z.mod_pos_bound v 100 ltac:(lia)).
  pose proof (Z.div_pos v 100 ltac:(lia) ltac:(lia)).
  set (q := v / 100) in *. set (r := v mod 100) in *.
  assert (div_ceil (v * b) 100 = q * b + div_ceil (r * b) 100) as ->
    by (rewrite ceil_split by lia; by rewrite <-Hdm).
  unfold saturating_mul, saturating_add, umax.
  assert (0 ≤ r * b < 100 * 256) by nia.
  rewrite (Z.min_l (r * b)) by lia. set (c := div_ceil (r * b) 100).
  assert (0 ≤ c) by (unfold c, div_ceil; apply Z.div_pos; lia).
  assert (0 ≤ q * b) by nia. lia.
Qed.

(** ** Reachable pools *)

Section reachable.
Context `{Keccak, AlloyRlp, SenderRecovery}.

(** What a node does with its pool: the second component holds the entries it
    has reserved for proposals and neither restored nor finalized yet. *)
Inductive pool_step : Mempool * list PoolEntry → Mempool * list PoolEntry → Prop :=
  | step_register p o d c p' :
      register_domain p d c = Ok p' → pool_step (p, o) (p', o)
  | step_insert p o d env n p' st :
      insert p d env n = Ok (p', st) → pool_step (p, o) (p', o)
  | step_reserve p o hashes :
      pool_step (p, o) ((reserve_hashes p hashes).1, (reserve_hashes p hashes).2 ++ o)
  | step_restore p es o o' :
      o ≡ₚ es ++ o' → pool_step (p, o) (restore_reserved p es, o')
  | step_finalize p es o o' :
      o ≡ₚ es ++ o' → pool_step (p, o) (p, o')
  | step_advance p o d s n :
      pool_step (p, o) ((advance_nonce p d s n).1, o).

Definition reachable (c : MempoolConfig) : Mempool * list PoolEntry → Prop :=
  rtc pool_step (new_pool c, []).

Lemma entry_ok_mono p q e :
  (∀ d c, bget d (chain_ids p) = Some c → bget d (chain_ids q) = Some c) →
  config q = config p → entry_ok p e → entry_ok q e.
Proof. intros Hc Hcfg (He & ?). unfold entry_ok. rewrite Hcfg. auto. Qed.

Lemma pool_step_inv s s' :
  pool_step s s' → pool_inv s.1 → Forall (entry_ok s.1) s.2 →
  pool_inv s'.1 ∧ Forall (entry_ok s'.1) s'.2 ∧ 
  max_transactions (config s'.1) = max_transactions (config s.1).
Proof.
  intros Hs Hinv Ho. destruct Hs as [p o d c p' Hr|p o d env n p' st Hi|p o hs|p es o o' Hp
    |p es o o' Hp|p o d s n]; simpl in *.
  - destruct (register_inv _ _ _ _ Hinv Hr) as (? & _ & _ & Hcfg & Hm).
    split_and!; [done| |by rewrite Hcfg].
    apply (list.Forall_impl _ _ _ Ho). intros e. by apply entry_ok_mono.
  - destruct (insert_inv _ _ _ _ _ _ Hinv Hi) as (? & Hc & Hcfg).
    split_and!; [done| |by rewrite Hcfg]. apply (list.Forall_impl _ _ _ Ho).
    intros e. apply entry_ok_mono; [|done]. by rewrite Hc.
  - destruct (reserve_inv p hs Hinv) as (? & Hr & Hc & Hcfg).
    split_and!; [done| |by rewrite Hcfg]. apply (list.Forall_impl (entry_ok p)).
    + by apply Forall_app.
    + intros e. apply entry_ok_mono; [|done]. by rewrite Hc.
  - rewrite Hp in Ho. apply Forall_app in Ho as [Hes Ho].
    destruct (restore_inv es p Hinv Hes) as (? & Hc & Hcfg).
    split_and!; [done| |by rewrite Hcfg]. apply (list.Forall_impl _ _ _ Ho).
    intros e. apply entry_ok_mono; [|done]. by rewrite Hc.
  - rewrite Hp in Ho. by apply Forall_app in Ho as [_ Ho].
  - destruct (advance_inv p d s n Hinv) as [? _]. done.
Qed.

Lemma reachable_inv c p o :
  reachable c (p, o) → pool_inv p ∧ Forall (entry_ok p) o.
Proof.
  intros Hr. change (pool_inv (p, o).1 ∧ Forall (entry_ok (p, o).1) (p, o).2).
  revert Hr. apply (rtc_ind_r (λ s, pool_inv s.1 ∧ Forall (entry_ok s.1) s.2)).
  - split; [apply new_inv|constructor].
  - intros s s' _ Hs [Hi Ho]. by destruct (pool_step_inv s s' Hs Hi Ho) as (? & ? & _).
Qed.

(** C29. In every state a pool reaches from [Mempool::new] by registering
    domains, admitting, reserving, restoring, finalizing and advancing: each
    entry is stored under its own domain, recovered sender and nonce; its
    envelope decodes to its transaction, within the byte limit, and its hash is
    that of the transaction; the transaction carries the chain id its domain is
    registered with, no two domains share one and none is zero; and the counter
    of each sender is exactly the number of its entries, present only when
    positive.  Entries reserved for a proposal keep these properties too. *)
Theorem mempool_invariant c p o :
  reachable c (p, o) → pool_inv p ∧ Forall (entry_ok p) o.
Proof.
  apply reachable_inv.
Qed.

(** Reserving transactions for a proposal and restoring them, with nothing
    in between, gives back the same pool: entries, counters and routing.  The
    reserved entries are exactly the pool's entries with one of the hashes. *)
Theorem reserve_restore c p o hashes p' es :
  reachable c (p, o) → reserve_hashes p hashes = (p', es) →
  restore_reserved p' es = p ∧
  (∀ e, e ∈ es ↔ bget (entry_key e) (pool_entries p) = Some e ∧
                 bcontains (pe_transaction_hash e) hashes = true) ∧
  (∀ k, bget k (pool_entries p') =
     match bget k (pool_entries p) with
     | Some e => if bcontains (pe_transaction_hash e) hashes then None else Some e
     | None => None
     end).
Proof.
  intros [Hinv _]%reachable_inv Hres.
  replace p' with (reserve_hashes p hashes).1 by (by rewrite Hres).
  replace es with (reserve_hashes p hashes).2 by (by rewrite Hres). split_and!.
  - by apply reserve_restore_aux.
  - intros e. by apply reserve_elem.
  - intros k. by apply reserve_lookup.
Qed.
End reachable.

(** ** Admission *)

Section admission.
Context `{Keccak, AlloyRlp, !AlloyRlpLaws, SenderRecovery}.

Lemma entry_ok_fees pool e : entry_ok pool e →
  u64 (tx_nonce (pe_transaction e)) ∧
  u128 (tx_max_fee_per_gas (pe_transaction e)) ∧ u128 (tx_max_priority_fee_per_gas (pe_transaction e)).
Proof.
  intros (_ & Hd & _). apply (canonical_decode_wf eip1559_codec) in Hd as (? & ? & ? & ? & _). done.
Qed.

(** What a successful [insert] of an envelope did. *)
Definition admitted (pool pool' : Mempool) (domain_id : DomainId) (envelope : bytes)
    (state_nonce : Z) (status : QueueStatus.t) (e : PoolEntry) : Prop :=
  let tx := pe_transaction e in
  pe_domain_id e = domain_id ∧ pe_envelope e = envelope ∧ entry_ok pool e ∧
  state_nonce ≤ tx_nonce tx ∧
  (∀ k, bget k (pool_entries pool') =
          if decide (k = entry_key e) then Some e else bget k (pool_entries pool)) ∧
  match bget (entry_key e) (pool_entries pool) with
  | Some old =>
      let bump v := Z.min (v + div_ceil (v * replacement_bump_percent (config pool)) 100) (umax 128) in
      status = QueueStatus.Replaced ∧ pool_len pool' = pool_len pool ∧
      bump (tx_max_fee_per_gas (pe_transaction old)) ≤ tx_max_fee_per_gas tx ∧
      bump (tx_max_priority_fee_per_gas (pe_transaction old)) ≤ tx_max_priority_fee_per_gas tx
  | None =>
      pool_len pool' = pool_len pool + 1 ∧ pool_len pool' ≤ max_transactions (config pool) ∧
      count (entry_key e).1 (bkeys (pool_entries pool')) ≤ max_transactions_per_sender (config pool) ∧
      status ≠ QueueStatus.Replaced ∧
      (status = QueueStatus.Pending ↔
         ∀ i, state_nonce ≤ i ≤ tx_nonce tx →
           is_Some (bget (domain_id, pe_sender e, i) (pool_entries pool')))
  end.

Lemma binsert_lookup_decide pool e k :
  bget k (binsert (entry_key e) e (pool_entries pool)) =
    if decide (k = entry_key e) then Some e else bget k (pool_entries pool).
Proof. case_decide; [subst; apply bget_binsert_eq|by apply bget_binsert_ne]. Qed.

Lemma priced_bumps pool old new b :
  entry_ok pool old → u8 b → replacement_priced (pe_transaction old) new b = true →
  let bump v := Z.min (v + div_ceil (v * b) 100) (umax 128) in
  bump (tx_max_fee_per_gas (pe_transaction old)) ≤ tx_max_fee_per_gas new ∧
  bump (tx_max_priority_fee_per_gas (pe_transaction old)) ≤ tx_max_priority_fee_per_gas new.
Proof.
  intros (_ & Hf & Hp)%entry_ok_fees Hb Hr. unfold replacement_priced in Hr. bool_prop.
  simpl. rewrite <-!replacement_min_exact by done. lia.
Qed.

Lemma insert_admitted pool d env n pool' st :
  pool_inv pool → u8 (replacement_bump_percent (config pool)) →
  insert pool d env n = Ok (pool', st) → ∃ e, admitted pool pool' d env n st e.
Proof.
  intros Hinv Hb Hi. unfold insert in Hi. ok_inv. bool_prop. cbv zeta in Hi.
  set (e := {| pe_domain_id := d; pe_sender := a1 |}) in Hi.
  change (d, a1, tx_nonce a0) with (entry_key e) in Hi.
  assert (entry_ok pool e) as He.
  { split_and!; simpl; try done. by rewrite Hok, <-Hif0. }
  exists e. unfold admitted. cbv zeta.
  destruct (bget (entry_key e) (pool_entries pool)) as [old|] eqn:Hold; ok_inv; simplify_eq; bool_prop.
  - destruct (inv_entry _ Hinv _ _ Hold) as [_ Hoe].
    split_and!; try done; try (by eapply priced_bumps).
    + intros k. apply binsert_lookup_decide.
    + unfold pool_len, with_entries. cbn [pool_entries].
      apply zlen_binsert_old; [apply Hinv|eauto].
  - split_and!; try done.
    + intros k. apply binsert_lookup_decide.
    + unfold pool_len, with_entries. cbn [pool_entries].
      rewrite zlen_binsert_new by (done || apply Hinv). lia.
    + unfold pool_len, with_entries. cbn [pool_entries].
      rewrite zlen_binsert_new by (done || apply Hinv). lia.
    + unfold with_entries. cbn [pool_entries].
      rewrite (count_perm _ _ _ (bkeys_binsert_perm _ e _ Hold)), count_cons, decide_True by done.
      rewrite <-(counts_ok_default (sender_counts pool)) by apply Hinv. 
      change (entry_key e).1 with (d, a1). lia.
    + by case_match.
    + unfold nonce_is_contiguous. case_match eqn:Hc.
      * split; [|done]. intros _. by apply contiguous_iff.
      * split; [done|]. intros Hall. assert (false = true); [|done].
        rewrite <-Hc. by apply contiguous_iff.
Qed.

(** C30. An envelope [insert] accepts becomes the pool's entry for its domain,
    recovered sender and nonce, and no other entry changes.  Its nonce is not
    below the state nonce.  If the key was taken, the status is [Replaced], the
    pool does not grow, and both fee caps are at least the old ones plus the
    configured percentage, rounded up, computed without overflow and capped at
    [u128::MAX].  If it was free, the pool grows by one and stays within its
    capacity, the sender within its quota, and the status is [Pending] exactly
    when every nonce from the state nonce to the transaction's is present. *)
Theorem insert_spec c p o domain_id envelope state_nonce p' status :
  reachable c (p, o) → u8 (replacement_bump_percent (config p)) →
  insert p domain_id envelope state_nonce = Ok (p', status) →
  ∃ e, admitted p p' domain_id envelope state_nonce status e.
Proof. intros [Hinv _]%reachable_inv. by apply insert_admitted. Qed.

(** [ready] returns the longest run of consecutive nonces from the state
    nonce: the [i]-th element is the entry of nonce [state_nonce + i], and the
    nonce after the last one is missing or past [u64::MAX]. *)
Theorem ready_spec p domain_id sender state_nonce :
  u64 state_nonce →
  let l := ready p domain_id sender state_nonce in
  (∀ i e, l !! i = Some e →
     bget (domain_id, sender, state_nonce + Z.of_nat i) (pool_entries p) = Some e) ∧
  (state_nonce + zlen l = 2 ^ 64 ∨
   state_nonce + zlen l < 2 ^ 64 ∧
   bget (domain_id, sender, state_nonce + zlen l) (pool_entries p) = None).
Proof.
  intros Hn. simpl. split; [apply ready_from_lookup|].
  unfold zlen, ready. apply ready_from_stop; [done|].
  pose proof (ready_from_length (pool_entries p) domain_id sender
    (S (length (pool_entries p))) state_nonce). lia.
Qed.

(** [advance_nonce] removes exactly the sender's entries in that domain
    below the new state nonce, reports how many they were, and leaves the
    counters equal to the number of entries left. *)
Theorem advance_spec c p o domain_id sender state_nonce p' removed :
  reachable c (p, o) → advance_nonce p domain_id sender state_nonce = (p', removed) →
  pool_inv p' ∧ pool_len p = pool_len p' + removed ∧
  (∀ k, bget k (pool_entries p') =
     if bool_decide (k.1 = (domain_id, sender) ∧ 0 ≤ k.2 < state_nonce) then None
     else bget k (pool_entries p)).
Proof.
  intros [Hinv _]%reachable_inv Ha.
  pose proof (advance_inv p domain_id sender state_nonce Hinv) as [? ?].
  pose proof (advance_lookup p domain_id sender state_nonce).
  rewrite Ha in *. done.
Qed.
End admission.

(** ** The definitions at work *)

Module MempoolWitness.

(** A recovery that reads the sender from [r]. *)
#[local] Instance toy_recovery : SenderRecovery := {|
  signature_high_s _ _ _ := false;
  recover_from_prehash r _ _ _ := Some (to_be_bytes 20 (from_be_bytes r));
  recover_length r s p digest a := ltac:(intros [= <-]; apply length_to_be_bytes);
|}.

#[local] Existing Instance Toy.toy_keccak.
#[local] Existing Instance spec_rlp.
#[local] Existing Instance spec_rlp_laws.

Definition tx (nonce fee : Z) : Eip1559Transaction :=
  {| tx_chain_id := 7; tx_nonce := nonce; tx_max_priority_fee_per_gas := 2;
     tx_max_fee_per_gas := fee; tx_gas_limit := 21000; tx_to := None;
     tx_value := 0; tx_input := []; tx_access_list := [];
     tx_y_parity := true; tx_r := 5; tx_s := 9 |}.

Definition envelope (nonce fee : Z) : bytes :=
  match encode_eip1559 (tx nonce fee) with Ok b => b | _ => [] end.

Definition domain : DomainId := repeat_byte 32 1.

Definition sender : bytes := to_be_bytes 20 5.

Definition small : MempoolConfig :=
  {| max_transactions := 1; max_transactions_per_sender := 1;
     max_transaction_bytes := 1000; replacement_bump_percent := 10 |}.

Definition routed : Mempool :=
  match register_domain (new_pool small) domain 7 with Ok p => p | _ => new_pool small end.

(** The pool after admitting nonce 0. *)
Definition pool1 : Mempool :=
  match insert routed domain (envelope 0 100) 0 with Ok (p, _) => p | _ => routed end.

Definition hashes1 : btree bytes unit :=
  (λ e, (pe_transaction_hash e.2, tt)) <$> pool_entries pool1.

(** The reserved entry is out of the pool while nonce 1 is admitted. *)
Definition pool2 : Mempool :=
  match insert (reserve_hashes pool1 hashes1).1 domain (envelope 1 100) 0 with
  | Ok (p, _) => p
  | _ => routed
  end.

Lemma reach1 : reachable small (pool1, []).
Proof.
  eapply rtc_l; [apply (step_register _ _ domain 7 routed); by_evaluation|].
  eapply rtc_l; [|apply rtc_refl].
  eapply (step_insert _ _ domain (envelope 0 100) 0 pool1 QueueStatus.Pending). by_evaluation.
Qed.

Lemma reach2 : reachable small (pool2, (reserve_hashes pool1 hashes1).2).
Proof.
  eapply rtc_r; [eapply rtc_r; [exact reach1|apply (step_reserve _ _ hashes1)]|].
  rewrite app_nil_r.
  apply (step_insert _ _ domain (envelope 1 100) 0 pool2 QueueStatus.Queued). by_evaluation.
Qed.

Lemma mempool_invariant_witness : pool_inv pool2 ∧ pool_len pool2 = 1.
Proof. split; [apply (mempool_invariant small _ _ reach2)|by_evaluation]. Defined.

Lemma reserve_restore_witness :
  restore_reserved (reserve_hashes pool1 hashes1).1 (reserve_hashes pool1 hashes1).2 = pool1 ∧
  pool_len (reserve_hashes pool1 hashes1).1 = 0.
Proof.
  split; [|by_evaluation].
  apply (reserve_restore small pool1 [] hashes1 _ (reserve_hashes pool1 hashes1).2 reach1).
  apply surjective_pairing.
Defined.

(** A free nonce is admitted; raising the fee cap alone replaces nothing. *)
Lemma insert_spec_witness :
  ∃ p' e, insert pool1 domain (envelope 0 110) 0 = Err ReplacementUnderpriced ∧
    insert routed domain (envelope 0 110) 0 = Ok (p', QueueStatus.Pending) ∧
    admitted routed p' domain (envelope 0 110) 0 QueueStatus.Pending e.
Proof.
  assert (reachable small (routed, [])) as Hr.
  { eapply rtc_l; [apply (step_register _ _ domain 7 routed); by_evaluation|apply rtc_refl]. }
  destruct (insert routed domain (envelope 0 110) 0) as [[p' st]| |] eqn:Hi;
    [|vm_compute in Hi; discriminate..].
  assert (st = QueueStatus.Pending) as ->.
  { vm_compute in Hi. injection Hi. auto. }
  destruct (insert_spec small routed [] domain (envelope 0 110) 0 p' QueueStatus.Pending Hr)
    as [e He]; [by_evaluation|exact Hi|].
  exists p', e. split_and!; [by_evaluation|done|done].
Defined.

Lemma ready_spec_witness :
  zlen (ready pool1 domain sender 0) = 1 ∧
  bget (domain, sender, 0 + zlen (ready pool1 domain sender 0)) (pool_entries pool1) = None.
Proof.
  split; [by_evaluation|].
  destruct (ready_spec pool1 domain sender 0) as [_ [Hx|[_ Hx]]]; [by_evaluation| |exact Hx].
  vm_compute in Hx. discriminate.
Defined.

Lemma advance_spec_witness :
  pool_inv (advance_nonce pool1 domain sender 1).1 ∧ (advance_nonce pool1 domain sender 1).2 = 1.
Proof.
  split; [|by_evaluation].
  apply (advance_spec small pool1 [] domain sender 1 _ (advance_nonce pool1 domain sender 1).2
    reach1 (surjective_pairing _)).
Defined.

(** Restoring an abandoned proposal checks neither bound of the pool:
    with room for one transaction, reserving it, admitting another one and
    restoring the first leaves two in the pool, both of the same sender. *)
Theorem restore_exceeds_capacity :
  ∃ c p, reachable c (p, []) ∧ max_transactions (config p) < pool_len p ∧
    ∃ ds, max_transactions_per_sender (config p) < count ds (bkeys (pool_entries p)).
Proof.
  exists small, (restore_reserved pool2 (reserve_hashes pool1 hashes1).2). split.
  - eapply rtc_r; [exact reach2|].
    apply (step_restore _ (reserve_hashes pool1 hashes1).2). by rewrite app_nil_r.
  - split; [vm_compute; reflexivity|]. exists (domain, sender). vm_compute. reflexivity.
Qed.

End MempoolWitness.
