(* ===== verification/Trie.v ===== *)
(** The node format of the secure Merkle-Patricia trie: nibble paths, their
    compact encoding, the RLP item reader and the node decoder
    (src/crates/arbor-state/src/mpt.rs).

    Main results: the compact path codec is a bijection between flagged nibble
    paths and the byte strings it accepts; the item reader accepts exactly the
    Ethereum encoding of its payload; a node read back from the list the trie
    builder writes has the fields that were written. *)

From Stdlib Require Import Strings.Byte.
From S2P Require Import Prelude Bytes BTreeMap Primitives Canonical Rlp Crypto StateError.
Import SE.

Local Open Scope Z_scope.

Definition SECURE_KEY_NIBBLES : nat := 64.

(** ** Nibble paths *)

(** A path is a vector of [u8] values below 16. *)
Notation nibbles := (list Z).

Definition is_nibble (n : Z) : Prop := 0 ≤ n < 16.

(** [byte >> 4] and [byte & 0x0f]. *)
Definition high_nibble (b : byte) : Z := Z.shiftr (byte_val b) 4.
Definition low_nibble (b : byte) : Z := Z.land (byte_val b) 15.

(** [(high << 4) | low] on [u8]: the bits shifted out are dropped. *)
Definition join_nibbles (high low : Z) : byte := byte_of (Z.lor (Z.shiftl high 4) low).

(** The pairs of a path of even length. *)
Fixpoint join_pairs (path : nibbles) : bytes :=
  match path with
  | high :: low :: path' => join_nibbles high low :: join_pairs path'
  | _ => []
  end.

Definition split_bytes (b : bytes) : nibbles :=
  b ≫= λ x, [high_nibble x; low_nibble x].

Definition unpack_nibbles (key : bytes) : nibbles := split_bytes key.

Definition pack_nibbles (path : nibbles) : outcome StateError bytes :=
  if negb (length path =? SECURE_KEY_NIBBLES)%nat
  then Err (InvalidPath "leaf is not a full secure key")
  else Ok (join_pairs path).

Definition compact_encode (path : nibbles) (leaf : bool) : bytes :=
  let odd := Nat.odd (length path) in
  let flag := if leaf then 2 else 0 in
  if odd then
    match path with
    | first :: path' => join_nibbles (Z.lor flag 1) first :: join_pairs path'
    | [] => []
    end
  else byte_of (Z.shiftl flag 4) :: join_pairs path.

Definition compact_decode (b : bytes) : outcome StateError (nibbles * bool) :=
  match b with
  | [] => Err (InvalidPath "empty compact path")
  | first :: rest =>
      let flag := Z.shiftr (byte_val first) 4 in
      if 3 <? flag then Err (InvalidPath "compact flag")
      else
        let odd := Z.land flag 1 =? 1 in
        if negb odd && negb (Z.land (byte_val first) 15 =? 0)
        then Err (InvalidPath "non-canonical compact padding")
        else
          Ok ((if odd then [Z.land (byte_val first) 15] else []) ++ split_bytes rest,
              Z.land flag 2 =? 2)
  end.

(** ** RLP items *)

Inductive RlpKind := KBytes | KList.

#[export] Instance RlpKind_eq_dec : EqDecision RlpKind.
Proof. solve_decision. Defined.

Record RlpItem := {
  item_raw : bytes;
  item_payload : bytes;
  item_kind : RlpKind;
}.

(** One round of the loop of [decode_rlp_length]. *)
Definition length_step (length : Z) (b : byte) : outcome StateError Z :=
  ok_or
    (match checked_mul 64 length 256 with
     | Some value => checked_add 64 value (byte_val b)
     | None => None
     end) (MalformedRlp "length overflow").

Definition decode_rlp_length (input : bytes) (length_bytes : Z) : outcome StateError Z :=
  let? b := ok_or (get_range input 1 (1 + length_bytes)) (MalformedRlp "truncated length") in
  if Spec.leading_zero b || (8 <? length_bytes)
  then Err (MalformedRlp "non-canonical length")
  else for_each length_step 0 b.

(** The kind, the offset of the payload and its length. *)
Definition item_layout (input : bytes) (first : Z) : outcome StateError (RlpKind * Z * Z) :=
  if first <=? 127 then Ok (KBytes, 0, 1)
  else if first <=? 183 then Ok (KBytes, 1, first - 128)
  else if first <=? 191 then
    let length_bytes := first - 183 in
    let? length := decode_rlp_length input length_bytes in
    if length <? 56 then Err (MalformedRlp "non-minimal long string")
    else Ok (KBytes, 1 + length_bytes, length)
  else if first <=? 247 then Ok (KList, 1, first - 192)
  else
    let length_bytes := first - 247 in
    let? length := decode_rlp_length input length_bytes in
    if length <? 56 then Err (MalformedRlp "non-minimal long list")
    else Ok (KList, 1 + length_bytes, length).

Definition decode_rlp_item (input : bytes) : outcome StateError RlpItem :=
  match input with
  | [] => Err (MalformedRlp "truncated item")
  | first :: _ =>
      let? '(kind, offset, length) := item_layout input (byte_val first) in
      let? end_ := ok_or (checked_add 64 offset length) (MalformedRlp "length overflow") in
      let? raw := ok_or (get_range input 0 end_) (MalformedRlp "truncated payload") in
      let payload := drop (Z.to_nat offset) raw in
      if (byte_val first =? 129) &&
         match payload with b :: _ => byte_val b <? 128 | [] => false end
      then Err (MalformedRlp "non-minimal single byte")
      else Ok {| item_raw := raw; item_payload := payload; item_kind := kind |}
  end.

(** The [while] loop of [decode_rlp_list]; an item is never empty, so a round
    per byte of the payload is enough ([decode_rlp_list_no_panic]). *)
Fixpoint rlp_fields (fuel : nat) (remaining : bytes) : outcome StateError (list RlpItem) :=
  match remaining with
  | [] => Ok []
  | _ =>
      match fuel with
      | O => Panic "out of fuel"
      | S fuel' =>
          let? item := decode_rlp_item remaining in
          let? fields := rlp_fields fuel' (drop (length (item_raw item)) remaining) in
          Ok (item :: fields)
      end
  end.

Definition decode_rlp_list (input : bytes) : outcome StateError (list RlpItem) :=
  let? top := decode_rlp_item input in
  if negb (bool_decide (item_kind top = KList)) || negb (length (item_raw top) =? length input)%nat
  then Err (MalformedRlp "expected one exact list")
  else rlp_fields (length (item_payload top)) (item_payload top).

(** ** Nodes *)

Inductive ChildReference :=
| Hash (hash : bytes)
| Embedded (encoded : bytes).

Inductive DecodedNode :=
| Leaf (path : nibbles) (value : bytes)
| Extension (path : nibbles) (child : ChildReference)
| Branch (children : list (option ChildReference)).

Definition decode_child (item : RlpItem) : outcome StateError (option ChildReference) :=
  match item_kind item with
  | KList =>
      if (32 <=? length (item_raw item))%nat then Err (InvalidPath "oversized embedded node")
      else Ok (Some (Embedded (item_raw item)))
  | KBytes =>
      if (length (item_payload item) =? 0)%nat then Ok None
      else if (length (item_payload item) =? 32)%nat then Ok (Some (Hash (item_payload item)))
      else Err (InvalidPath "invalid child reference")
  end.

Definition decode_short_node (path_item value_item : RlpItem) : outcome StateError DecodedNode :=
  if negb (bool_decide (item_kind path_item = KBytes))
  then Err (MalformedRlp "compact path type")
  else
    let? '(path, leaf) := compact_decode (item_payload path_item) in
    match path with
    | [] => Err (InvalidPath "empty leaf/extension path")
    | _ =>
        if leaf then
          if negb (bool_decide (item_kind value_item = KBytes))
          then Err (MalformedRlp "leaf value type")
          else Ok (Leaf path (item_payload value_item))
        else
          let? child := decode_child value_item in
          let? child := ok_or child (InvalidPath "empty extension") in
          Ok (Extension path child)
    end.

Definition decode_branch_node (fields : list RlpItem) (value_item : RlpItem)
    : outcome StateError DecodedNode :=
  if negb (bool_decide (item_kind value_item = KBytes)) ||
     negb (length (item_payload value_item) =? 0)%nat
  then Err (InvalidPath "secure branch value must be empty")
  else
    let? children := collect decode_child (take 16 fields) in
    Ok (Branch children).

Definition decode_node (encoded : bytes) : outcome StateError DecodedNode :=
  let? fields := decode_rlp_list encoded in
  if (length fields =? 2)%nat then
    let? path_item := expect (fields !! 0%nat) "index out of bounds" in
    let? value_item := expect (fields !! 1%nat) "index out of bounds" in
    decode_short_node path_item value_item
  else if (length fields =? 17)%nat then
    let? value_item := expect (fields !! 16%nat) "index out of bounds" in
    decode_branch_node fields value_item
  else Err (MalformedRlp "node arity").

Inductive EncodedItem :=
| EBytes (b : bytes)
| ERaw (raw : bytes).

Section encoding.
Context `{AlloyRlp}.

Definition encode_item (item : EncodedItem) : bytes :=
  match item with
  | EBytes b => encode_str b
  | ERaw raw => raw
  end.

Definition encode_items (items : list EncodedItem) : bytes :=
  let payload := items ≫= encode_item in
  header_list (zlen payload) ++ payload.
End encoding.

(** What the crate relies on in [alloy_rlp]'s encoders: they write the Ethereum
    encoding, which [decode_rlp_item] reads back by hand. *)
Class EthereumRlp `{AlloyRlp} : Prop := {
  header_list_ethereum : ∀ n, u64 n → header_list n = Spec.header_list n;
  encode_str_ethereum : ∀ s, u64 (zlen s) → encode_str s = Spec.encode_str s;
  encode_uint_ethereum : ∀ v, u256 v → encode_uint v = Spec.encode_uint v;
}.

(** ** Lemmas on nibbles *)

Lemma high_nibble_range b : is_nibble (high_nibble b).
Proof. by destruct b. Qed.

Lemma low_nibble_range b : is_nibble (low_nibble b).
Proof. by destruct b. Qed.

Lemma join_split b : join_nibbles (high_nibble b) (low_nibble b) = b.
Proof. by destruct b. Qed.

(** The sixteen nibbles, to check a fact on all of them by evaluation. *)
Definition nibble_values : list Z := [0;1;2;3;4;5;6;7;8;9;10;11;12;13;14;15].

Lemma is_nibble_values n : is_nibble n ↔ n ∈ nibble_values.
Proof.
  unfold nibble_values, is_nibble. rewrite !elem_of_cons, elem_of_nil. lia.
Qed.

Lemma nibbles_all (P : Z → Z → bool) :
  forallb (λ h, forallb (P h) nibble_values) nibble_values = true →
  ∀ h l, is_nibble h → is_nibble l → P h l = true.
Proof.
  intros Hall h l Hh%is_nibble_values Hl%is_nibble_values.
  rewrite forallb_forall in Hall. apply list_elem_of_In in Hh, Hl.
  specialize (Hall h Hh). rewrite forallb_forall in Hall. auto.
Qed.

Lemma split_join h l : is_nibble h → is_nibble l →
  high_nibble (join_nibbles h l) = h ∧ low_nibble (join_nibbles h l) = l.
Proof.
  intros Hh Hl.
  pose proof (nibbles_all (λ h l, (high_nibble (join_nibbles h l) =? h) &&
    (low_nibble (join_nibbles h l) =? l)) eq_refl h l Hh Hl) as E.
  cbv beta in E. by bool_prop.
Qed.

Lemma split_bytes_cons b l : split_bytes (b :: l) = high_nibble b :: low_nibble b :: split_bytes l.
Proof. done. Qed.

Lemma length_split_bytes b : length (split_bytes b) = (2 * length b)%nat.
Proof. induction b as [|x b IH]; [done|]. rewrite split_bytes_cons. simpl. lia. Qed.

Lemma split_bytes_nibbles b : Forall is_nibble (split_bytes b).
Proof.
  induction b as [|x b IH]; [constructor|]. rewrite split_bytes_cons.
  by apply Forall_cons_2; [apply high_nibble_range|apply Forall_cons_2; [apply low_nibble_range|]].
Qed.

Lemma join_split_bytes b : join_pairs (split_bytes b) = b.
Proof.
  induction b as [|x b IH]; [done|]. rewrite split_bytes_cons. cbn [join_pairs].
  by rewrite IH, join_split.
Qed.

Lemma even_pair_ind (P : nibbles → Prop) :
  P [] → (∀ h l p, Nat.even (length p) = true → P p → P (h :: l :: p)) →
  ∀ p, Nat.even (length p) = true → P p.
Proof.
  intros H0 H2. fix IH 1. intros [|h [|l p]] He; [done|done|]. apply H2; [done|]. by apply IH.
Qed.

Lemma split_join_pairs p :
  Nat.even (length p) = true → Forall is_nibble p → split_bytes (join_pairs p) = p.
Proof.
  intros He. revert p He. apply (even_pair_ind (λ p, _ → split_bytes (join_pairs p) = p)); [done|].
  intros h l p _ IH Hp. inversion Hp as [|? ? Hh Hp']; subst. inversion Hp' as [|? ? Hl Hp'']; subst.
  cbn [join_pairs]. rewrite split_bytes_cons, IH by done. by destruct (split_join h l Hh Hl) as [-> ->].
Qed.

Lemma length_join_pairs p :
  Nat.even (length p) = true → (2 * length (join_pairs p) = length p)%nat.
Proof.
  revert p. apply even_pair_ind; [done|]. intros h l p _ IH. cbn [join_pairs length]. lia.
Qed.

Lemma pack_unpack key : is_b256 key → pack_nibbles (unpack_nibbles key) = Ok key.
Proof.
  intros Hk. unfold pack_nibbles, unpack_nibbles. rewrite length_split_bytes, Hk. simpl.
  by rewrite join_split_bytes.
Qed.

Lemma pack_nibbles_Ok path key :
  Forall is_nibble path → pack_nibbles path = Ok key ↔ is_b256 key ∧ path = unpack_nibbles key.
Proof.
  intros Hp. split.
  - unfold pack_nibbles, SECURE_KEY_NIBBLES. intros Hk. ok_inv. apply negb_false_iff, Nat.eqb_eq in Hif. subst key.
    assert (Nat.even (length path) = true) as He by (by rewrite Hif).
    unfold is_b256, unpack_nibbles. rewrite split_join_pairs by done. split; [|done].
    pose proof (length_join_pairs path He). lia.
  - intros [Hk ->]. by apply pack_unpack.
Qed.

(** ** The compact path codec *)

Lemma odd_not_even n : Nat.odd (S n) = Nat.even n.
Proof. by rewrite Nat.odd_succ. Qed.

(** The first byte of an odd path, and of an even one. *)
Lemma compact_first_odd (leaf : bool) n : is_nibble n →
  let b := join_nibbles (Z.lor (if leaf then 2 else 0) 1) n in
  Z.shiftr (byte_val b) 4 = (if leaf then 3 else 1) ∧ Z.land (byte_val b) 15 = n.
Proof.
  intros Hn. destruct leaf; simpl Z.lor; (split; [|apply split_join; [done|done]]);
    apply (split_join _ n); done.
Qed.

Lemma compact_roundtrip path leaf :
  Forall is_nibble path → compact_decode (compact_encode path leaf) = Ok (path, leaf).
Proof.
  intros Hp. unfold compact_encode. destruct (Nat.odd (length path)) eqn:Hodd.
  - destruct path as [|n path]; [done|]. inversion Hp as [|? ? Hn Hp']; subst.
    unfold compact_decode. cbv zeta. destruct (compact_first_odd leaf n Hn) as [-> ->].
    cbn [length] in Hodd. rewrite odd_not_even in Hodd.
    rewrite split_join_pairs by done. by destruct leaf.
  - assert (Nat.even (length path) = true) as He by (by rewrite <-Nat.negb_odd, Hodd).
    unfold compact_decode. cbv zeta. rewrite split_join_pairs by done. by destruct leaf.
Qed.

Lemma compact_first b :
  let flag := Z.shiftr (byte_val b) 4 in
  flag ≤ 3 → (Z.land flag 1 = 1 ∨ Z.land (byte_val b) 15 = 0) →
  b = if Z.land flag 1 =? 1
      then join_nibbles (Z.lor (if Z.land flag 2 =? 2 then 2 else 0) 1) (Z.land (byte_val b) 15)
      else byte_of (Z.shiftl (if Z.land flag 2 =? 2 then 2 else 0) 4).
Proof. destruct b; vm_compute; intuition congruence. Qed.

Lemma compact_canonical b path leaf :
  compact_decode b = Ok (path, leaf) → compact_encode path leaf = b ∧ Forall is_nibble path.
Proof.
  destruct b as [|first rest]; [done|]. unfold compact_decode. cbv zeta. intros Hd. ok_inv.
  pose proof (compact_first first) as Hf. cbv zeta in Hf. apply Z.ltb_ge in Hif.
  rewrite H in Hf. subst path. unfold compact_encode.
  pose proof (split_bytes_nibbles rest) as Hn.
  destruct (Z.eqb_spec (Z.land (byte_val first ≫ 4) 1) 1) as [Hodd|Heven].
  - cbn [app length]. rewrite odd_not_even, length_split_bytes, Nat.even_mul.
    cbn [Nat.even orb]. rewrite join_split_bytes, <-Hf by auto. split; [done|].
    apply Forall_cons_2; [apply low_nibble_range|done].
  - cbn [app]. rewrite length_split_bytes, Nat.odd_mul. cbn [Nat.odd Nat.even negb andb].
    rewrite join_split_bytes, <-Hf; [done|done|]. right. simpl in Hif0.
    by destruct (Z.eqb_spec (Z.land (byte_val first) 15) 0).
Qed.

(** ** The item reader against the Ethereum encoding *)

Lemma length_steps l acc :
  0 ≤ acc → acc * 256 ^ zlen l + from_be_bytes l < 2 ^ 64 →
  for_each length_step acc l = Ok (acc * 256 ^ zlen l + from_be_bytes l).
Proof.
  revert acc. induction l as [|b l IH]; intros acc Hacc Hlt; cbn [for_each].
  - f_equal. change (from_be_bytes []) with 0. change (zlen []) with 0. lia.
  - rewrite from_be_bytes_cons, zlen_cons in *. pose proof (byte_val_range b).
    pose proof (from_be_bytes_range l). pose proof (zlen_nonneg l).
    rewrite Z.pow_add_r in * by lia. change (256 ^ 1) with 256 in *.
    pose proof (Z.pow_pos_nonneg 256 (zlen l) ltac:(lia) ltac:(lia)).
    assert (acc * 256 + byte_val b < 2 ^ 64) by nia. unfold length_step at 1.
    rewrite (proj2 (checked_mul_Some 64 acc 256 (acc * 256))) by lia.
    rewrite (proj2 (checked_add_Some 64 (acc * 256) (byte_val b) _)) by (split; [done|lia]).
    cbn [ok_or obind]. rewrite IH by nia. f_equal. lia.
Qed.

Lemma decode_rlp_length_eq b t k :
  1 ≤ k ≤ 8 →
  decode_rlp_length (b :: t) k =
    match get_range t 0 k with
    | None => Err (MalformedRlp "truncated length")
    | Some l => if Spec.leading_zero l then Err (MalformedRlp "non-canonical length")
                else Ok (from_be_bytes l)
    end.
Proof.
  intros Hk. unfold decode_rlp_length.
  assert (get_range (b :: t) 1 (1 + k) = get_range t 0 k) as ->.
  { unfold get_range. rewrite zlen_cons. replace (1 + k - 1) with (k - 0) by lia.
    change (drop (Z.to_nat 1) (b :: t)) with (drop (Z.to_nat 0) t).
    replace ((0 <=? 1) && (1 <=? 1 + k) && (1 + k <=? 1 + zlen t))
      with ((0 <=? 0) && (0 <=? k) && (k <=? zlen t)); [done|].
    apply eq_true_iff_eq. rewrite !andb_true_iff, !Z.leb_le. lia. }
  destruct (get_range t 0 k) as [l|] eqn:Hg; [|done]. cbn [ok_or obind].
  rewrite (proj2 (Z.ltb_ge 8 k)) by lia. rewrite orb_false_r.
  destruct (Spec.leading_zero l); [done|]. pose proof (get_range_length _ _ _ _ Hg).
  pose proof (from_be_bytes_range l) as [Hl0 Hl].
  assert (256 ^ zlen l ≤ 256 ^ 8) by (apply Z.pow_le_mono_r; lia).
  rewrite length_steps; [done|lia|]. rewrite Z.mul_0_l. lia.
Qed.

(** A long header read by both decoders. *)
Lemma long_layout b t k (kind : RlpKind) msg kind' o n :
  1 ≤ k ≤ 8 →
  (let? length := decode_rlp_length (b :: t) k in
   if length <? 56 then Err (MalformedRlp msg) else Ok (kind, 1 + k, length)) =
    Ok (kind', o, n) ↔
  kind' = kind ∧ o = 1 + k ∧ Spec.long_length k t = inr (n, drop (Z.to_nat k) t).
Proof.
  intros Hk. rewrite decode_rlp_length_eq by done. unfold Spec.long_length.
  destruct (get_range t 0 k) as [l|]; [|naive_solver].
  destruct (Spec.leading_zero l); [naive_solver|]. cbn [obind].
  destruct (from_be_bytes l <? 56); naive_solver.
Qed.

Definition is_list (k : RlpKind) : bool := match k with KList => true | KBytes => false end.

Definition single_low (first : byte) (payload : bytes) : bool :=
  (byte_val first =? 129) && match payload with b :: _ => byte_val b <? 128 | [] => false end.

(** What [decode_rlp_item] does after reading the layout. *)
Lemma item_finish b t kind o n it :
  u64 (zlen (b :: t)) → 0 ≤ o ≤ 9 → 0 ≤ n →
  let input := b :: t in
  (let? end_ := ok_or (checked_add 64 o n) (MalformedRlp "length overflow") in
   let? raw := ok_or (get_range input 0 end_) (MalformedRlp "truncated payload") in
   if single_low b (drop (Z.to_nat o) raw)
   then Err (MalformedRlp "non-minimal single byte")
   else Ok {| item_raw := raw; item_payload := drop (Z.to_nat o) raw; item_kind := kind |}) = Ok it ↔
  o + n ≤ zlen input ∧ single_low b (take (Z.to_nat n) (drop (Z.to_nat o) input)) = false ∧
  it = {| item_raw := take (Z.to_nat (o + n)) input;
          item_payload := take (Z.to_nat n) (drop (Z.to_nat o) input); item_kind := kind |}.
Proof.
  intros [_ Hu] Ho Hn input.
  assert (take (Z.to_nat n) (drop (Z.to_nat o) input) =
    drop (Z.to_nat o) (take (Z.to_nat (o + n)) input)) as ->
    by (rewrite Z2Nat.inj_add by lia; apply take_drop_commute).
  split.
  - intros Hi. ok_inv. apply checked_add_Some in Hok as [-> _].
    apply get_range_Some in Hok0 as (_ & Hle & ->). rewrite Z.sub_0_r in *.
    change (drop (Z.to_nat 0) input) with input in *. by split_and!.
  - intros (Hle & Hs & ->).
    rewrite (proj2 (checked_add_Some _ _ _ _)) by (split; [reflexivity|unfold input in *; lia]).
    cbn [ok_or obind]. unfold get_range. guards. cbn [ok_or obind]. rewrite Z.sub_0_r.
    change (drop (Z.to_nat 0) input) with input. by rewrite Hs.
Qed.

Lemma checked_header_iff l n rest l' n' rest' :
  Spec.checked_header l (inr (n, rest)) = inr ((l', n'), rest') ↔
    l' = l ∧ n' = n ∧ rest' = rest ∧ n ≤ zlen rest.
Proof.
  unfold Spec.checked_header. destruct (Z.ltb_spec (zlen rest) n); naive_solver lia.
Qed.

(** The two readers agree once their headers do. *)
Lemma item_branch b t kind o n it (header : rlp_result (bool * Z)) :
  let input := b :: t in
  u64 (zlen input) → 0 ≤ o ≤ 9 → 0 ≤ n →
  (∀ l n' rest', header = inr ((l, n'), rest') ↔
     l = is_list kind ∧ n' = n ∧ rest' = drop (Z.to_nat o) input ∧ o + n ≤ zlen input ∧
     single_low b (take (Z.to_nat n) (drop (Z.to_nat o) input)) = false) →
  (let? end_ := ok_or (checked_add 64 o n) (MalformedRlp "length overflow") in
   let? raw := ok_or (get_range input 0 end_) (MalformedRlp "truncated payload") in
   if single_low b (drop (Z.to_nat o) raw)
   then Err (MalformedRlp "non-minimal single byte")
   else Ok {| item_raw := raw; item_payload := drop (Z.to_nat o) raw; item_kind := kind |}) = Ok it ↔
  ∃ n' rest, header = inr ((is_list (item_kind it), n'), rest) ∧
    item_payload it = take (Z.to_nat n') rest ∧ input = item_raw it ++ drop (Z.to_nat n') rest.
Proof.
  intros input Hu Ho Hn Hh. unfold input. rewrite item_finish by done. fold input.
  assert (drop (Z.to_nat n) (drop (Z.to_nat o) input) = drop (Z.to_nat (o + n)) input) as Hd
    by (rewrite drop_drop, <-Z2Nat.inj_add by lia; done).
  split.
  - intros (Hle & Hs & ->). exists n, (drop (Z.to_nat o) input). cbn.
    split; [by apply Hh|]. split; [done|]. rewrite Hd. by rewrite take_drop.
  - intros (n' & rest & (Hk & -> & -> & Hle & Hs)%Hh & Hp & Hr). split_and!; [done..|].
    destruct it as [raw payload k]. cbn in *. f_equal; [|done|by destruct k, kind].
    rewrite Hd in Hr. rewrite <-(take_drop (Z.to_nat (o + n)) input) in Hr at 1.
    by apply app_inv_tail in Hr.
Qed.

Lemma single_low_other b payload : byte_val b ≠ 129 → single_low b payload = false.
Proof. intros Hb. unfold single_low. by rewrite (proj2 (Z.eqb_neq _ _) Hb). Qed.

Lemma long_branch b t k kind msg it :
  u64 (zlen (b :: t)) → 1 ≤ k ≤ 8 → byte_val b ≠ 129 →
  (let? '(kind, o, n) :=
     (let? length := decode_rlp_length (b :: t) k in
      if length <? 56 then Err (MalformedRlp msg) else Ok (kind, 1 + k, length)) in
   let? end_ := ok_or (checked_add 64 o n) (MalformedRlp "length overflow") in
   let? raw := ok_or (get_range (b :: t) 0 end_) (MalformedRlp "truncated payload") in
   if single_low b (drop (Z.to_nat o) raw)
   then Err (MalformedRlp "non-minimal single byte")
   else Ok {| item_raw := raw; item_payload := drop (Z.to_nat o) raw; item_kind := kind |}) = Ok it ↔
  ∃ n rest, Spec.checked_header (is_list kind) (Spec.long_length k t) =
      inr ((is_list (item_kind it), n), rest) ∧
    item_payload it = take (Z.to_nat n) rest ∧ b :: t = item_raw it ++ drop (Z.to_nat n) rest.
Proof.
  intros Hu Hk Hb. pose proof (zlen_cons b t) as Hlen.
  destruct (Spec.long_length k t) as [e|[n rest]] eqn:Hl.
  - split; [|by intros (? & ? & [=] & _)]. intros Hx. apply obind_Ok in Hx as ([[kd o] n] & Hx & _).
    apply long_layout in Hx as (_ & _ & Hx); [|done]. congruence.
  - pose proof (Spec.long_length_canonical _ _ _ _ Hk Hl) as (Ht & Hkl & Hn & _).
    assert (rest = drop (Z.to_nat k) t) as ->.
    { rewrite Ht, Hkl. unfold zlen. by rewrite Nat2Z.id, drop_app_length. }
    assert (drop (Z.to_nat (1 + k)) (b :: t) = drop (Z.to_nat k) t) as Hd.
    { replace (Z.to_nat (1 + k)) with (S (Z.to_nat k)) by lia. done. }
    rewrite (proj2 (long_layout b t k kind msg kind (1 + k) n Hk)) by done. cbn [obind].
    apply (item_branch b t kind (1 + k) n); [done|lia..|]. intros l n' rest'.
    rewrite single_low_other by done. rewrite checked_header_iff, Hlen, Hd.
    assert (zlen (drop (Z.to_nat k) t) = zlen t - k) as ->; [|naive_solver lia].
    unfold zlen. rewrite length_drop. rewrite Ht, length_app. unfold zlen in Hkl. lia.
Qed.

Lemma decode_rlp_item_header b t it :
  u64 (zlen (b :: t)) →
  decode_rlp_item (b :: t) = Ok it ↔
    ∃ n rest, Spec.decode_header (b :: t) = inr ((is_list (item_kind it), n), rest) ∧
      item_payload it = take (Z.to_nat n) rest ∧ b :: t = item_raw it ++ drop (Z.to_nat n) rest.
Proof.
  intros Hu. unfold decode_rlp_item, item_layout. cbv zeta. pose proof (byte_val_range b).
  pose proof (zlen_nonneg t) as Ht. pose proof (zlen_cons b t) as Hlen.
  cbn [Spec.decode_header]. cbv zeta.
  destruct (Z.leb_spec (byte_val b) 127); destruct (Z.ltb_spec (byte_val b) 128); try lia.
  { cbn [obind]. apply (item_branch b t KBytes 0 1); [done|lia..|]. intros l n' rest'.
    rewrite single_low_other by lia. split; [intros [= <- <- <-]; split_and!; try done; lia|].
    by intros (-> & -> & -> & _). }
  destruct (Z.leb_spec (byte_val b) 183); destruct (Z.ltb_spec (byte_val b) 184); try lia.
  { cbn [obind]. apply (item_branch b t KBytes 1 (byte_val b - 128)); [done|lia..|].
    intros l n' rest'. change (drop (Z.to_nat 1) (b :: t)) with t.
    assert ((byte_val b - 128 =? 1) && match t with c :: _ => byte_val c <? 128 | [] => false end =
      single_low b (take (Z.to_nat (byte_val b - 128)) t)) as ->.
    { unfold single_low. destruct (Z.eqb_spec (byte_val b) 129) as [->|]; [by destruct t|].
      by rewrite (proj2 (Z.eqb_neq (byte_val b - 128) 1)) by lia. }
    destruct (single_low _ _); [naive_solver|]. rewrite checked_header_iff. rewrite Hlen.
    naive_solver lia. }
  destruct (Z.leb_spec (byte_val b) 191); destruct (Z.ltb_spec (byte_val b) 192); try lia.
  { apply (long_branch b t (byte_val b - 183) KBytes); [done|lia..]. }
  destruct (Z.leb_spec (byte_val b) 247); destruct (Z.ltb_spec (byte_val b) 248); try lia.
  { cbn [obind]. apply (item_branch b t KList 1 (byte_val b - 192)); [done|lia..|].
    intros l n' rest'. change (drop (Z.to_nat 1) (b :: t)) with t.
    rewrite single_low_other by lia. rewrite checked_header_iff, Hlen. naive_solver lia. }
  apply (long_branch b t (byte_val b - 247) KList); [done|lia..].
Qed.

(** The Ethereum encoding of an item. *)
Definition item_encoding (kind : RlpKind) (payload : bytes) : bytes :=
  match kind with
  | KBytes => Spec.encode_str payload
  | KList => Spec.header_list (zlen payload) ++ payload
  end.

Lemma decode_rlp_item_sound input it :
  u64 (zlen input) → decode_rlp_item input = Ok it →
  item_raw it = item_encoding (item_kind it) (item_payload it) ∧
  ∃ rest, input = item_raw it ++ rest.
Proof.
  intros Hu Hd. destruct input as [|b t]; [done|].
  apply decode_rlp_item_header in Hd as (n & rest & Hh & Hp & Hr); [|done].
  split; [|eauto]. destruct it as [raw payload kind].
  cbn [item_kind item_payload item_raw] in *. subst payload.
  apply Spec.decode_header_inv in Hh as [Hh|[Hh|Hh]].
  - destruct Hh as (Hk & Hb & [Hn _] & Hle). destruct kind; [done|]. cbn.
    assert (zlen (take (Z.to_nat n) rest) = n) as Hz by (unfold zlen in *; rewrite length_take; lia).
    rewrite Hz. rewrite Hb in Hr. rewrite <-(take_drop (Z.to_nat n) rest) in Hr at 1.
    rewrite app_assoc in Hr. by apply app_inv_tail in Hr.
  - destruct Hh as (Hk & -> & -> & c & t' & [= <- <-] & Hc). destruct kind; [|done].
    change (take (Z.to_nat 1) (b :: t)) with [b]. cbn [item_encoding Spec.encode_str].
    rewrite (proj2 (Z.ltb_lt _ _) Hc). change (drop (Z.to_nat 1) (b :: t)) with t in Hr.
    change (b :: t) with ([b] ++ t) in Hr. by apply app_inv_tail in Hr.
  - destruct Hh as (Hk & Hb & [Hn _] & Hle & H1). destruct kind; [|done]. cbn [item_encoding].
    set (p := take (Z.to_nat n) rest).
    assert (zlen p = n) as Hz by (unfold p, zlen in *; rewrite length_take; lia).
    rewrite Hb in Hr. rewrite <-(take_drop (Z.to_nat n) rest) in Hr at 1.
    rewrite app_assoc in Hr. apply app_inv_tail in Hr as <-. fold p.
    destruct (Spec.encode_str_cases p) as [(c & E & Hc & _)|[-> _]]; [|by rewrite Hz].
    exfalso. rewrite E in Hz. change (zlen [c]) with 1 in Hz.
    assert (rest = c :: drop (Z.to_nat n) rest) as Hrest.
    { rewrite <-(take_drop (Z.to_nat n) rest) at 1. fold p. by rewrite E. }
    specialize (H1 (eq_sym Hz) c _ Hrest). lia.
Qed.

Lemma item_encoding_nonempty k p : item_encoding k p ≠ [].
Proof.
  destruct k; cbn; [apply Spec.encode_str_nonempty|].
  unfold Spec.header_list, Spec.header. by destruct (zlen p <? 56).
Qed.

Lemma decode_rlp_item_complete k p rest :
  u64 (zlen (item_encoding k p ++ rest)) →
  decode_rlp_item (item_encoding k p ++ rest) =
    Ok {| item_raw := item_encoding k p; item_payload := p; item_kind := k |}.
Proof.
  intros Hu. destruct (item_encoding k p ++ rest) as [|b t] eqn:E.
  { by apply app_nil in E as [E%item_encoding_nonempty _]. }
  apply decode_rlp_item_header; [done|]. cbn [item_kind item_payload item_raw]. rewrite <-E in *.
  pose proof (zlen_nonneg p). pose proof (zlen_nonneg rest). destruct Hu as [_ Hu].
  destruct k; cbn [item_encoding is_list] in *.
  - destruct (Spec.encode_str_cases p) as [(c & -> & Hc & Henc)|[Henc H1]]; rewrite Henc in *.
    + exists 1, ([c] ++ rest). split_and!; [|done|done]. cbn. by rewrite (proj2 (Z.ltb_lt _ _) Hc).
    + exists (zlen p), (p ++ rest). destruct (Spec.take_drop_app p rest) as [-> ->].
      split_and!; [|done|done]. rewrite !zlen_app in Hu.
      pose proof (zlen_nonneg (Spec.header 128 183 (zlen p))).
      rewrite <-app_assoc. apply Spec.header_str_roundtrip; [split; lia|rewrite zlen_app; lia|].
      intros Hp1 c l Hc. destruct p as [|c' p]; [done|]. injection Hc as -> _. by eapply H1.
  - exists (zlen p), (p ++ rest). destruct (Spec.take_drop_app p rest) as [-> ->].
    rewrite <-!app_assoc. split_and!; [|done|done]. rewrite !zlen_app in Hu.
    pose proof (zlen_nonneg (Spec.header_list (zlen p))).
    apply Spec.header_list_roundtrip; [split; lia|rewrite zlen_app; lia].
Qed.

(** ** Lists of items *)

(** An item as [decode_rlp_item] returns it. *)
Definition item_ok (it : RlpItem) : Prop :=
  item_raw it = item_encoding (item_kind it) (item_payload it).

Lemma item_ok_nonempty it : item_ok it → item_raw it ≠ [].
Proof. unfold item_ok. intros ->. apply item_encoding_nonempty. Qed.

Lemma decode_rlp_item_ok it rest :
  item_ok it → u64 (zlen (item_raw it ++ rest)) → decode_rlp_item (item_raw it ++ rest) = Ok it.
Proof.
  unfold item_ok. intros E Hu. rewrite E in *. rewrite decode_rlp_item_complete by done.
  f_equal. destruct it; cbn in *. by rewrite E.
Qed.

Lemma u64_app_r {A : Type} (a b : list A) : u64 (zlen (a ++ b)) → u64 (zlen b).
Proof.
  unfold fits. rewrite zlen_app. pose proof (zlen_nonneg a). pose proof (zlen_nonneg b). lia.
Qed.

Lemma rlp_fields_complete l fuel :
  Forall item_ok l → u64 (zlen (concat (item_raw <$> l))) →
  (length (concat (item_raw <$> l)) <= fuel)%nat →
  rlp_fields fuel (concat (item_raw <$> l)) = Ok l.
Proof.
  intros Hl. revert fuel. induction Hl as [|it l Hit Hl IH]; intros fuel Hu Hf; [by destruct fuel|].
  rewrite fmap_cons in *. cbn [concat] in *. pose proof (item_ok_nonempty it Hit) as Hne.
  rewrite length_app in Hf. destruct (item_raw it) as [|b raw] eqn:Hraw; [done|].
  destruct fuel as [|fuel]; [cbn in Hf; lia|]. cbn [app rlp_fields].
  change (b :: raw ++ concat (item_raw <$> l)) with ((b :: raw) ++ concat (item_raw <$> l)).
  rewrite <-Hraw in *. rewrite decode_rlp_item_ok by done. cbn [obind].
  rewrite drop_app_length, IH; [done|by eapply u64_app_r|].
  rewrite Hraw in Hf. cbn in Hf. lia.
Qed.

Lemma rlp_fields_sound fuel r l :
  u64 (zlen r) → rlp_fields fuel r = Ok l → r = concat (item_raw <$> l) ∧ Forall item_ok l.
Proof.
  revert r l. induction fuel as [|fuel IH]; intros r l Hu Hf.
  - destruct r; [|done]. injection Hf as <-. by split.
  - destruct r as [|b r]; [injection Hf as <-; by split|]. cbn [rlp_fields] in Hf. ok_inv. subst l.
    apply decode_rlp_item_sound in Hok as [Hit [rest Hr]]; [|done].
    rewrite Hr in Hok0, Hu. rewrite drop_app_length in Hok0.
    apply IH in Hok0 as [-> Hl]; [|by eapply u64_app_r].
    rewrite Hr, fmap_cons. cbn [concat]. split; [done|]. by constructor.
Qed.

Lemma decode_rlp_list_iff input l :
  u64 (zlen input) →
  decode_rlp_list input = Ok l ↔
    input = item_encoding KList (concat (item_raw <$> l)) ∧ Forall item_ok l.
Proof.
  intros Hu. unfold decode_rlp_list. split.
  - intros Hd. ok_inv. apply orb_false_iff in Hif as [Hk Hlen].
    apply negb_false_iff, bool_decide_eq_true in Hk. apply negb_false_iff, Nat.eqb_eq in Hlen.
    apply decode_rlp_item_sound in Hok as [Hit [rest Hr]]; [|done].
    assert (rest = []) as ->.
    { apply length_zero_iff_nil. rewrite Hr, length_app in Hlen. lia. }
    rewrite app_nil_r in Hr. rewrite Hk in Hit. subst input. rewrite Hit in *.
    apply rlp_fields_sound in Hd as [Hp Hl]; [by rewrite <-Hp|].
    by apply (u64_app_r (Spec.header_list (zlen (item_payload a)))).
  - intros [-> Hl]. set (p := concat (item_raw <$> l)) in *.
    pose proof (decode_rlp_item_complete KList p []) as Hd. rewrite app_nil_r in Hd.
    rewrite Hd by done. cbn [obind item_kind item_raw item_payload].
    rewrite Nat.eqb_refl, bool_decide_true by done. cbn [negb orb].
    apply rlp_fields_complete; [done| |done].
    by apply (u64_app_r (Spec.header_list (zlen p))).
Qed.

Lemma get_range_no_panic {A E : Type} (l : list A) lo hi (e : E) m :
  ok_or (get_range l lo hi) e ≠ Panic m.
Proof. by destruct (get_range l lo hi). Qed.

Lemma decode_rlp_length_no_panic input k m : decode_rlp_length input k ≠ Panic m.
Proof.
  unfold decode_rlp_length. no_panic. apply for_each_no_panic. intros. unfold length_step. no_panic.
Qed.

Lemma decode_rlp_item_no_panic input m : decode_rlp_item input ≠ Panic m.
Proof.
  unfold decode_rlp_item, item_layout. destruct input as [|b t]; [done|].
  no_panic; apply decode_rlp_length_no_panic.
Qed.

Lemma rlp_fields_no_panic fuel r m :
  u64 (zlen r) → (length r <= fuel)%nat → rlp_fields fuel r ≠ Panic m.
Proof.
  revert r. induction fuel as [|fuel IH]; intros r Hu Hf.
  - destruct r; [done|]. cbn in Hf. lia.
  - destruct r as [|b r]; [done|]. cbn [rlp_fields]. no_panic; [apply decode_rlp_item_no_panic|].
    match goal with Hx : decode_rlp_item _ = Ok ?x |- _ =>
      apply decode_rlp_item_sound in Hx as [Hit [rest Hr]]; [|done];
      pose proof (item_ok_nonempty x Hit) as Hne end.
    rewrite Hr in *. rewrite drop_app_length. apply IH; [by eapply u64_app_r|].
    rewrite length_app in Hf. destruct (item_raw a); [done|]. cbn in Hf. lia.
Qed.

Lemma item_payload_short k p : zlen p ≤ zlen (item_encoding k p).
Proof.
  destruct k; cbn [item_encoding].
  - destruct (Spec.encode_str_cases p) as [(b & -> & _ & ->)|[-> _]]; [done|].
    rewrite zlen_app. pose proof (zlen_nonneg (Spec.header 128 183 (zlen p))). lia.
  - rewrite zlen_app. pose proof (zlen_nonneg (Spec.header_list (zlen p))). lia.
Qed.

Lemma decode_rlp_list_no_panic input m : u64 (zlen input) → decode_rlp_list input ≠ Panic m.
Proof.
  intros Hu. unfold decode_rlp_list. no_panic; [apply decode_rlp_item_no_panic|].
  apply rlp_fields_no_panic; [|done].
  match goal with Hx : decode_rlp_item _ = Ok ?x |- _ =>
    apply decode_rlp_item_sound in Hx as [Hit [rest Hr]]; [|done];
    pose proof (item_payload_short (item_kind x) (item_payload x)) as Hle end.
  rewrite <-Hit in Hle. rewrite Hr, zlen_app in Hu. unfold fits in *.
  pose proof (zlen_nonneg rest). pose proof (zlen_nonneg (item_payload a)). lia.
Qed.

(** ** What the builder writes *)

Section written.
Context `{AlloyRlp, !EthereumRlp}.

(** A written item as the reader returns it; a raw item is itself a list. *)
Definition item_written (e : EncodedItem) (it : RlpItem) : Prop :=
  match e with
  | EBytes b => it = {| item_raw := Spec.encode_str b; item_payload := b; item_kind := KBytes |}
  | ERaw raw => item_ok it ∧ item_raw it = raw ∧ item_kind it = KList
  end.

Lemma item_written_ok e it : item_written e it → item_ok it.
Proof. destruct e; cbn; [by intros ->|by intros [? _]]. Qed.

(** Fields far below the limits of the encoding. *)
Definition field_bytes (e : EncodedItem) : bytes := match e with EBytes b => b | ERaw r => r end.

Definition small (b : bytes) : Prop := zlen b < 2 ^ 40.

Lemma small_u64 b : small b → u64 (zlen b).
Proof. unfold small, fits. pose proof (zlen_nonneg b). lia. Qed.

Lemma item_written_raw e it :
  item_written e it → small (field_bytes e) → item_raw it = encode_item e.
Proof.
  destruct e as [b|raw]; cbn; [|by intros (_ & -> & _)]. intros -> Hs. cbn.
  by rewrite encode_str_ethereum by by apply small_u64.
Qed.

Lemma zlen_header short long n : u64 n → zlen (Spec.header short long n) ≤ 9.
Proof.
  intros Hn. unfold Spec.header. destruct (n <? 56); [unfold zlen; simpl; lia|].
  rewrite zlen_cons. pose proof (Spec.be_min_u64 n Hn). lia.
Qed.

Lemma zlen_encode_item e : small (field_bytes e) → zlen (encode_item e) ≤ 9 + zlen (field_bytes e).
Proof.
  intros Hs. destruct e as [b|r]; cbn [encode_item field_bytes] in *; [|lia].
  rewrite encode_str_ethereum by by apply small_u64.
  pose proof (zlen_header 128 183 (zlen b) (small_u64 _ Hs)).
  destruct (Spec.encode_str_cases b) as [(c & -> & _ & ->)|[-> _]]; [lia|].
  rewrite zlen_app. lia.
Qed.

(** The fields of a node, all together, are as large as their parts. *)
Lemma zlen_fields items :
  Forall (λ e, small (field_bytes e)) items →
  zlen (items ≫= encode_item) ≤ 9 * zlen items + zlen (items ≫= field_bytes).
Proof.
  induction 1 as [|e items He _ IH]; [done|]. rewrite !bind_cons, !zlen_app, zlen_cons. pose proof (zlen_encode_item e He). lia.
Qed.

Lemma written_concat items its :
  Forall2 item_written items its → Forall (λ e, small (field_bytes e)) items →
  items ≫= encode_item = concat (item_raw <$> its).
Proof.
  induction 1 as [|e it items its He Hw IH]; [done|]. intros Hall. inversion Hall; subst.
  rewrite fmap_cons, bind_cons. cbn [concat].
  rewrite (item_written_raw e it) by done. f_equal. by apply IH.
Qed.

Lemma encode_items_read items its :
  Forall2 item_written items its → zlen items ≤ 17 → small (items ≫= field_bytes) →
  decode_rlp_list (encode_items items) = Ok its ∧
  encode_items items = item_encoding KList (concat (item_raw <$> its)) ∧
  zlen (encode_items items) ≤ 9 + 9 * zlen items + zlen (items ≫= field_bytes).
Proof.
  intros Hw Hlen Hs.
  assert (Forall (λ e, small (field_bytes e)) items) as Hall.
  { clear -Hs. induction items as [|e items IH]; [constructor|]. unfold small in Hs.
    rewrite bind_cons, zlen_app in Hs. pose proof (zlen_nonneg (field_bytes e)).
    pose proof (zlen_nonneg (items ≫= field_bytes)). constructor; [unfold small; lia|].
    apply IH. unfold small. lia. }
  pose proof (zlen_fields items Hall) as Hz. unfold small in Hs.
  assert (items ≫= encode_item = concat (item_raw <$> its)) as Hc by (by apply written_concat).
  pose proof (zlen_nonneg (items ≫= encode_item)).
  assert (u64 (zlen (items ≫= encode_item))) as Hu by (unfold fits; lia).
  pose proof (zlen_header 192 247 _ Hu) as Hh.
  assert (encode_items items = item_encoding KList (concat (item_raw <$> its))) as He.
  { unfold encode_items. cbn [item_encoding]. rewrite <-Hc. by rewrite header_list_ethereum. }
  assert (zlen (encode_items items) ≤ 9 + 9 * zlen items + zlen (items ≫= field_bytes)) as Hz'.
  { unfold encode_items. rewrite zlen_app, header_list_ethereum by done. unfold Spec.header_list. lia. }
  split_and!; [|done|done]. apply decode_rlp_list_iff.
  - pose proof (zlen_nonneg (encode_items items)). unfold fits. lia.
  - split; [done|]. clear -Hw. induction Hw; constructor; [by eapply item_written_ok|done].
Qed.
End written.
