(* ===== verification/Mpt.v ===== *)
(** The secure Merkle-Patricia trie: building a snapshot from its leaves,
    looking a key up through a node store, and collecting all leaves of a root
    (src/crates/arbor-state/src/mpt.rs).

    Main results: whatever leaves a store yields for a root, looking up any key in
    that store agrees with them, and another store can
    only yield the same leaves, up to a collision between stored nodes; both
    traversals terminate. *)

From Stdlib Require Import Strings.Byte.
From S2P Require Import Prelude Bytes BTreeMap Primitives Canonical Rlp Crypto StateError.
From S2P Require Import Trie.
Import SE.

Local Open Scope Z_scope.

(** What the crate uses of [alloy_trie]: the two constants and the proof
    verifier, which reports its error as a message. *)
Class AlloyTrie `{Keccak} := {
  EMPTY_ROOT_HASH : bytes;
  KECCAK_EMPTY : bytes;
  verify_proof : bytes → nibbles → option bytes → list bytes → outcome string unit;
  empty_root_hash : EMPTY_ROOT_HASH = keccak256 [byte_of 128];
  keccak_empty : KECCAK_EMPTY = keccak256 [];
  verify_proof_returns : ∀ root key value nodes m, verify_proof root key value nodes ≠ Panic m;
}.

(** ** Building *)

Record BuiltNode := {
  built_encoded : bytes;
  built_hash : bytes;
}.

Record TrieSnapshot := {
  snap_root : bytes;
  snap_nodes : btree bytes bytes;
  snap_leaves : btree bytes bytes;
}.

Record StateProof := {
  sp_root : bytes;
  sp_key : bytes;
  sp_value : option bytes;
  sp_nodes : list bytes;
}.

Notation entry := (nibbles * bytes)%type.

(** [entry.0[depth]]; the paths have [SECURE_KEY_NIBBLES] nibbles. *)
Definition nibble_at (e : entry) (depth : nat) : Z := default 0 (e.1 !! depth).

Fixpoint equal_prefix (left right : nibbles) : nat :=
  match left, right with
  | l :: left', r :: right' => if l =? r then S (equal_prefix left' right') else O
  | _, _ => O
  end.

Definition common_prefix (entries : list entry) (depth : nat) : nat :=
  match entries, list.last entries with
  | first :: _, Some last => equal_prefix (drop depth first.1) (drop depth last.1)
  | _, _ => O
  end.

Definition child_item (child : BuiltNode) : EncodedItem :=
  if (length (built_encoded child) <? 32)%nat then ERaw (built_encoded child)
  else EBytes (built_hash child).

Definition node_store : Type := bytes → outcome StateError (option bytes).

Definition memory_store (nodes : btree bytes bytes) : node_store := λ hash, Ok (bget hash nodes).

(** The leaves collected so far and the hashes visited. *)
Notation walk_state := (btree bytes bytes * btree bytes unit)%type.

Section operations.
Context `{Keccak, AlloyRlp}.

(** One nibble of the branch loop of [build_node]. *)
Definition branch_item
    (build : list entry → nat → btree bytes bytes →
             outcome StateError (BuiltNode * btree bytes bytes))
    (entries : list entry) (depth : nat) (st : list EncodedItem * btree bytes bytes) (nibble : Z)
    : outcome StateError (list EncodedItem * btree bytes bytes) :=
  let '(items, nodes) := st in
  let start := partition_point (λ e, nibble_at e depth <? nibble) entries in
  let end_ := partition_point (λ e, nibble_at e depth <=? nibble) entries in
  if (start =? end_)%nat then Ok (items ++ [EBytes []], nodes)
  else
    let? '(child, nodes) := build (take (end_ - start) (drop start entries)) (S depth) nodes in
    Ok (items ++ [child_item child], nodes).

(** The recursion moves at least one nibble down at each call and stops past
    the last one, so [SECURE_KEY_NIBBLES + 2] rounds are enough
    ([build_node_spec]). *)
Fixpoint build_node (fuel : nat) (entries : list entry) (depth : nat) (nodes : btree bytes bytes)
    : outcome StateError (BuiltNode * btree bytes bytes) :=
  match fuel with
  | O => Panic "out of fuel"
  | S fuel' =>
      if (length entries =? 0)%nat || (SECURE_KEY_NIBBLES <? depth)%nat
      then Err (InvalidPath "invalid recursive trie range")
      else
        let? '(encoded, nodes) :=
          match entries with
          | [(path, value)] =>
              if (length path <? depth)%nat then Err (InvalidPath "leaf depth")
              else
                Ok (encode_items [EBytes (compact_encode (drop depth path) true); EBytes value],
                    nodes)
          | _ =>
              let common := common_prefix entries depth in
              if (0 <? common)%nat then
                let? '(child, nodes) := build_node fuel' entries (depth + common) nodes in
                let first := default [] (fst <$> head entries) in
                Ok (encode_items
                      [EBytes (compact_encode (take common (drop depth first)) false);
                       child_item child], nodes)
              else if (SECURE_KEY_NIBBLES <=? depth)%nat
              then Err (InvalidPath "duplicate secure key")
              else
                let? '(items, nodes) :=
                  for_each (branch_item (build_node fuel') entries depth) ([], nodes)
                    nibble_values in
                Ok (encode_items (items ++ [EBytes []]), nodes)
          end in
        let hash := keccak256 encoded in
        Ok ({| built_encoded := encoded; built_hash := hash |}, binsert hash encoded nodes)
  end.

Definition build `{!AlloyTrie} (leaves : btree bytes bytes) : outcome StateError TrieSnapshot :=
  match leaves with
  | [] => Ok {| snap_root := EMPTY_ROOT_HASH; snap_nodes := []; snap_leaves := [] |}
  | _ =>
      if umax 32 <? zlen leaves then Err (LimitExceeded "secure trie leaves")
      else
        let entries := (λ l, (unpack_nibbles l.1, l.2)) <$> leaves in
        let? '(root, nodes) := build_node (SECURE_KEY_NIBBLES + 2) entries 0 [] in
        Ok {| snap_root := built_hash root; snap_nodes := nodes; snap_leaves := leaves |}
  end.

Definition commit `{!AlloyTrie} (leaves : btree bytes bytes) : outcome StateError TrieSnapshot :=
  build leaves.

(** One node of the loop of [extend_nodes]. *)
Definition extend_node (nodes : btree bytes bytes) (node : bytes * bytes)
    : outcome StateError (btree bytes bytes) :=
  let '(hash, b) := node in
  if negb (bool_decide (keccak256 b = hash)) then Err (NodeHashMismatch hash (keccak256 b))
  else
    match bget hash nodes with
    | Some existing =>
        if negb (bool_decide (existing = b)) then Err (Proof "content hash collision")
        else Ok (binsert hash b nodes)
    | None => Ok (binsert hash b nodes)
    end.

Definition extend_nodes (snapshot : TrieSnapshot) (nodes : list (bytes * bytes))
    : outcome StateError TrieSnapshot :=
  let? nodes := for_each extend_node (snap_nodes snapshot) nodes in
  Ok {| snap_root := snap_root snapshot; snap_nodes := nodes; snap_leaves := snap_leaves snapshot |}.

(** ** Reading *)

Definition load_hashed (store : node_store) (expected : bytes) : outcome StateError bytes :=
  let? found := store expected in
  let? encoded := ok_or found (MissingNode expected) in
  let actual := keccak256 encoded in
  if negb (bool_decide (actual = expected)) then Err (NodeHashMismatch expected actual)
  else Ok encoded.

Definition resolve_child (store : node_store) (child : ChildReference)
    : outcome StateError bytes :=
  match child with
  | Hash hash => load_hashed store hash
  | Embedded encoded => Ok encoded
  end.

(** The loop of [proof]: an extension or a branch moves at least one nibble
    down and none is followed past the last one, so [SECURE_KEY_NIBBLES + 1]
    rounds are enough ([proof_loop_no_panic]). *)
Fixpoint proof_loop (fuel : nat) (store : node_store) (target : nibbles) (encoded : bytes)
    (depth : nat) (nodes : list bytes) : outcome StateError (option bytes * list bytes) :=
  match fuel with
  | O => Panic "out of fuel"
  | S fuel' =>
      let nodes := nodes ++ [encoded] in
      let? node := decode_node encoded in
      match node with
      | Leaf path value =>
          Ok (if bool_decide (drop depth target = path) then Some value else None, nodes)
      | Extension path child =>
          if negb (bool_decide (take (length path) (drop depth target) = path)) then Ok (None, nodes)
          else
            let? encoded := resolve_child store child in
            proof_loop fuel' store target encoded (depth + length path) nodes
      | Branch children =>
          if (SECURE_KEY_NIBBLES <=? depth)%nat
          then Err (InvalidPath "branch beyond secure key")
          else
            match default None (children !! Z.to_nat (default 0 (target !! depth))) with
            | None => Ok (None, nodes)
            | Some child =>
                let? encoded := resolve_child store child in
                proof_loop fuel' store target encoded (S depth) nodes
            end
      end
  end.

Definition verify `{!AlloyTrie} (p : StateProof) : outcome StateError unit :=
  map_err Proof
    (verify_proof (sp_root p) (unpack_nibbles (sp_key p)) (sp_value p) (sp_nodes p)).

Definition proof `{!AlloyTrie} (root key : bytes) (store : node_store)
    : outcome StateError StateProof :=
  if bool_decide (root = EMPTY_ROOT_HASH)
  then Ok {| sp_root := root; sp_key := key; sp_value := None; sp_nodes := [] |}
  else
    let target := unpack_nibbles key in
    let? encoded := load_hashed store root in
    let? '(value, nodes) := proof_loop (SECURE_KEY_NIBBLES + 1) store target encoded 0 [] in
    let proof := {| sp_root := root; sp_key := key; sp_value := value; sp_nodes := nodes |} in
    run? verify proof in
    Ok proof.

Definition snapshot_proof `{!AlloyTrie} (snapshot : TrieSnapshot) (key : bytes)
    : outcome StateError StateProof :=
  proof (snap_root snapshot) key (memory_store (snap_nodes snapshot)).

Definition walk_child
    (walk : bytes → nibbles → walk_state → outcome StateError walk_state)
    (store : node_store) (child : ChildReference) (path : nibbles) (st : walk_state)
    : outcome StateError walk_state :=
  match child with
  | Embedded encoded => walk encoded path st
  | Hash hash =>
      let '(leaves, visited) := st in
      if bcontains hash visited then Err (InvalidPath "trie node cycle")
      else
        let? encoded := load_hashed store hash in
        walk encoded path (leaves, binsert hash tt visited)
  end.

Definition walk_branch
    (walk : bytes → nibbles → walk_state → outcome StateError walk_state)
    (store : node_store) (path : nibbles) (st : walk_state) (child : Z * option ChildReference)
    : outcome StateError walk_state :=
  match child.2 with
  | None => Ok st
  | Some c => walk_child walk store c (path ++ [child.1]) st
  end.

(** The path is restored on every return, so it is passed by value. *)
Fixpoint walk_node (fuel : nat) (store : node_store) (encoded : bytes) (path : nibbles)
    (st : walk_state) : outcome StateError walk_state :=
  match fuel with
  | O => Panic "out of fuel"
  | S fuel' =>
      let? node := decode_node encoded in
      match node with
      | Leaf suffix value =>
          let '(leaves, visited) := st in
          let? key := pack_nibbles (path ++ suffix) in
          if bcontains key leaves then Err (InvalidPath "duplicate leaf")
          else Ok (binsert key value leaves, visited)
      | Extension extension child =>
          walk_child (walk_node fuel' store) store child (path ++ extension) st
      | Branch children =>
          if (SECURE_KEY_NIBBLES <=? length path)%nat then Err (InvalidPath "branch depth")
          else for_each (walk_branch (walk_node fuel' store) store path) st
                 (zip nibble_values children)
      end
  end.

Definition collect_leaves `{!AlloyTrie} (fuel : nat) (root : bytes) (store : node_store)
    : outcome StateError (btree bytes bytes) :=
  if bool_decide (root = EMPTY_ROOT_HASH) then Ok []
  else
    let? encoded := load_hashed store root in
    let? st := walk_node fuel store encoded [] ([], [(root, tt)]) in
    Ok st.1.

(** Reading all leaves of a root from nodes in memory: 33 references per node
    are enough ([reads_terminate]). *)
Definition memory_leaves `{!AlloyTrie} (root : bytes) (nodes : btree bytes bytes)
    : outcome StateError (btree bytes bytes) :=
  collect_leaves (33 * (length nodes + 1)) root (memory_store nodes).

Definition secure_account_key (address : bytes) : bytes := keccak256 address.

Definition secure_storage_key (slot : Z) : bytes := keccak256 (to_be_bytes 32 slot).
End operations.

(** ** Every node is stored under its hash *)

Section addressed.
Context `{Keccak, AlloyRlp}.

Definition addressed (nodes : btree bytes bytes) : Prop :=
  sorted nodes ∧ ∀ h e, (h, e) ∈ nodes → h = keccak256 e.

Lemma addressed_nil : addressed [].
Proof. split; [constructor|]. by intros h e Hn%elem_of_nil. Qed.

Lemma addressed_insert e nodes : addressed nodes → addressed (binsert (keccak256 e) e nodes).
Proof.
  intros [Hs Ha]. split; [by apply sorted_binsert|]. intros h x Hx.
  apply binsert_elem_of in Hx as [[= -> ->]|Hx]; [done|by apply Ha].
Qed.

Lemma branch_addressed bld entries depth xs items nodes items' nodes' :
  (∀ es d ns b ns', addressed ns → bld es d ns = Ok (b, ns') → addressed ns') →
  addressed nodes → for_each (branch_item bld entries depth) (items, nodes) xs = Ok (items', nodes') →
  addressed nodes'.
Proof.
  intros Hb. revert items nodes. induction xs as [|x xs IH]; intros items nodes Hn Hl;
    cbn [for_each] in Hl; [by injection Hl as <- <-|].
  apply obind_Ok in Hl as ([it ns] & Hi & Hl). apply (IH it ns); [|done].
  unfold branch_item in Hi. destruct (_ =? _)%nat; [by injection Hi as <- <-|].
  apply obind_Ok in Hi as ([c ns1] & Hc & Hi). injection Hi as <- <-. by eapply Hb.
Qed.

Lemma build_node_addressed fuel entries depth nodes b nodes' :
  addressed nodes → build_node fuel entries depth nodes = Ok (b, nodes') → addressed nodes'.
Proof.
  revert entries depth nodes b nodes'. induction fuel as [|fuel IH]; [done|].
  intros entries depth nodes b nodes' Hn Hb. cbn [build_node] in Hb.
  destruct (_ || _); [done|]. apply obind_Ok in Hb as ([encoded ns] & He & Hb).
  injection Hb as <- <-. apply addressed_insert.
  assert (∀ l ns, (if (0 <? common_prefix l depth)%nat then
      let? '(child, nodes) := build_node fuel l (depth + common_prefix l depth) nodes in
      Ok (encode_items [EBytes (compact_encode (take (common_prefix l depth)
            (drop depth (default [] (fst <$> head l)))) false); child_item child], nodes)
    else if (SECURE_KEY_NIBBLES <=? depth)%nat then Err (InvalidPath "duplicate secure key")
    else let? '(items, nodes) := for_each (branch_item (build_node fuel) l depth) ([], nodes) nibble_values in
         Ok (encode_items (items ++ [EBytes []]), nodes)) = Ok (encoded, ns) → addressed ns) as Hmany.
  { intros l ns0 Hm. destruct (0 <? common_prefix l depth)%nat.
    - apply obind_Ok in Hm as ([c ns1] & Hc & Hm). injection Hm as _ <-. by eapply IH.
    - destruct (SECURE_KEY_NIBBLES <=? depth)%nat; [done|]. apply obind_Ok in Hm as ([it ns1] & Hc & Hm).
      injection Hm as _ <-. eapply branch_addressed; [|exact Hn|exact Hc]. intros. by eapply IH. }
  destruct entries as [|[path value] [|e entries]]; [by eapply Hmany| |by eapply Hmany].
  destruct (_ <? _)%nat; [done|]. by injection He as _ <-.
Qed.

Lemma build_addressed `{!AlloyTrie} leaves snap : build leaves = Ok snap → addressed (snap_nodes snap).
Proof.
  unfold build. destruct leaves as [|l leaves]; [intros [= <-]; apply addressed_nil|].
  intros Hb. ok_inv. subst snap. eapply build_node_addressed; [|done]. apply addressed_nil.
Qed.

Lemma build_leaves `{!AlloyTrie} leaves snap : build leaves = Ok snap → snap_leaves snap = leaves.
Proof. unfold build. destruct leaves as [|l leaves]; [by intros [= <-]|]. intros Hb. ok_inv. by subst snap. Qed.

(** Extending with nodes under their hashes. *)
Lemma extend_nodes_Ok snap nodes snap' :
  extend_nodes snap nodes = Ok snap' →
  snap_root snap' = snap_root snap ∧ snap_leaves snap' = snap_leaves snap.
Proof. unfold extend_nodes. intros He. ok_inv. by subst snap'. Qed.
(** The leaves collected form a map. *)
Lemma walk_sorted fuel store e p st st' :
  sorted st.1 → walk_node fuel store e p st = Ok st' → sorted st'.1.
Proof.
  revert e p st st'. induction fuel as [|fuel IH]; intros e p st st' Hst Hw; [done|].
  assert (∀ c p st st', sorted st.1 → walk_child (walk_node fuel store) store c p st = Ok st' →
    sorted st'.1) as Hchild.
  { intros [hash|encoded] p0 [lv v] st0 Hs Hc; cbn [walk_child] in Hc; [|exact (IH _ _ _ _ Hs Hc)].
    destruct (bcontains hash v); [done|]. apply obind_Ok in Hc as (encoded & _ & Hc).
    exact (IH _ _ (lv, binsert hash tt v) _ Hs Hc). }
  cbn [walk_node] in Hw. apply obind_Ok in Hw as (n & _ & Hw).
  destruct n as [suffix value|ext child|children].
  - destruct st as [lv v]. ok_inv. subst. by apply sorted_binsert.
  - exact (Hchild _ _ _ _ Hst Hw).
  - ok_inv. eapply (for_each_inv (λ st, sorted st.1)); [|exact Hst|exact Hw].
    intros s [x [c|]] s' Hin Hs Hf; cbn in Hf; [exact (Hchild _ _ _ _ Hs Hf)|by injection Hf as <-].
Qed.

Lemma collect_leaves_sorted `{!AlloyTrie} fuel root store leaves :
  collect_leaves fuel root store = Ok leaves → sorted leaves.
Proof.
  unfold collect_leaves. case_bool_decide; [intros [= <-]; constructor|]. intros Hc. ok_inv. subst leaves.
  eapply walk_sorted; [|done]. constructor.
Qed.
End addressed.

(** ** What the node decoder guarantees *)

Definition node_ok (n : DecodedNode) : Prop :=
  match n with
  | Leaf path _ => path ≠ [] ∧ Forall is_nibble path
  | Extension path _ => path ≠ [] ∧ Forall is_nibble path
  | Branch children => length children = 16%nat
  end.

Lemma decode_short_node_ok a b n : decode_short_node a b = Ok n → node_ok n.
Proof.
  unfold decode_short_node. intros Hd. ok_inv. apply compact_canonical in Hok as [_ Hn].
  case_match; ok_inv; subst n; by split.
Qed.

Lemma decode_node_ok encoded n : decode_node encoded = Ok n → node_ok n.
Proof.
  unfold decode_node. intros Hd. ok_inv. case_match; ok_inv; [by eapply decode_short_node_ok|].
  unfold decode_branch_node in Hd. ok_inv. subst n. cbn.
  apply collect_length in Hok1 as ->. apply Nat.eqb_eq in Hif. rewrite length_take. lia.
Qed.

Lemma compact_decode_no_panic b m : compact_decode b ≠ Panic m.
Proof. destruct b; cbn [compact_decode]; no_panic. Qed.

Lemma decode_child_no_panic it m : decode_child it ≠ Panic m.
Proof. unfold decode_child. destruct (item_kind it); no_panic. Qed.

Lemma collect_no_panic {E A B : Type} (f : A → outcome E B) l m :
  (∀ a, f a ≠ Panic m) → collect f l ≠ Panic m.
Proof. intros Hf. induction l as [|a l IH]; cbn [collect]; [done|]. no_panic; auto. Qed.

Lemma decode_node_no_panic encoded m : u64 (zlen encoded) → decode_node encoded ≠ Panic m.
Proof.
  intros Hu. unfold decode_node. apply obind_no_panic; [by apply decode_rlp_list_no_panic|].
  intros fields _. destruct (Nat.eqb_spec (length fields) 2) as [H2|_].
  - destruct fields as [|a [|b fields]]; try done. cbn. unfold decode_short_node. no_panic.
    + apply compact_decode_no_panic.
    + apply decode_child_no_panic.
  - destruct (Nat.eqb_spec (length fields) 17) as [H17|_]; [|done].
    destruct (lookup_lt_is_Some_2 fields 16) as [x ->]; [lia|]. cbn [expect obind].
    unfold decode_branch_node. no_panic. apply collect_no_panic. intros. apply decode_child_no_panic.
Qed.

(** ** Walking a root *)

Section reading.
Context `{Keccak, AlloyRlp}.

Lemma walk_child_inv walk store c path st st' :
  walk_child walk store c path st = Ok st' →
  ∃ encoded visited, resolve_child store c = Ok encoded ∧
    walk encoded path (st.1, visited) = Ok st'.
Proof.
  destruct st as [leaves visited], c as [h|e]; cbn; intros Hw; [|eauto].
  ok_inv. eauto.
Qed.

(** A node below the last nibble holds no leaf: the walk fails there. *)
Lemma walk_node_depth fuel store encoded path st st' :
  walk_node fuel store encoded path st = Ok st' → (length path < SECURE_KEY_NIBBLES)%nat.
Proof.
  unfold SECURE_KEY_NIBBLES. revert encoded path st st'.
  induction fuel as [|fuel IH]; intros encoded path st st' Hw; [done|].
  cbn [walk_node] in Hw. ok_inv. pose proof (decode_node_ok _ _ Hok) as Hn.
  destruct a as [suffix value|ext child|children]; cbn in Hn.
  - destruct st as [leaves visited]. ok_inv. unfold pack_nibbles, SECURE_KEY_NIBBLES in Hok0. ok_inv.
    apply negb_false_iff, Nat.eqb_eq in Hif0. rewrite length_app in Hif0.
    destruct suffix; [naive_solver|]. cbn in Hif0. lia.
  - apply walk_child_inv in Hw as (e & v & _ & Hw). apply IH in Hw. rewrite length_app in Hw. lia.
  - ok_inv. apply Nat.leb_gt in Hif. done.
Qed.

(** The key lies below the path. *)
Definition below (path : nibbles) (key : bytes) : Prop :=
  take (length path) (unpack_nibbles key) = path.

#[local] Instance below_dec path key : Decision (below path key).
Proof. unfold below. apply _. Defined.

(** Looking the key up from a node at that depth gives [v], with a round per
    nibble left. *)
Definition finds (store : node_store) (encoded : bytes) (depth : nat) (key : bytes)
    (v : option bytes) : Prop :=
  ∀ fuel nodes, (SECURE_KEY_NIBBLES - depth <= fuel)%nat →
    ∃ nodes', proof_loop fuel store (unpack_nibbles key) encoded depth nodes = Ok (v, nodes').

(** The walk below a path added exactly what looking the keys up there finds. *)
Definition agrees (store : node_store) (encoded : bytes) (path : nibbles)
    (leaves leaves' : btree bytes bytes) : Prop :=
  ∀ key, is_b256 key →
    if decide (below path key)
    then ∃ v, finds store encoded (length path) key v ∧
              bget key leaves' = match v with Some x => Some x | None => bget key leaves end
    else bget key leaves' = bget key leaves.

Lemma below_app path ext key :
  below (path ++ ext) key ↔
    below path key ∧ take (length ext) (drop (length path) (unpack_nibbles key)) = ext.
Proof.
  unfold below. rewrite length_app, <-take_take_drop. split.
  - intros E. assert (length (take (length path) (unpack_nibbles key)) = length path) as Hl.
    { apply (f_equal length) in E. rewrite !length_app, !length_take in *. lia. }
    apply app_inj_1 in E; [done|done].
  - by intros [-> ->].
Qed.

Lemma below_snoc path x key :
  below (path ++ [x]) key ↔ below path key ∧ unpack_nibbles key !! length path = Some x.
Proof.
  rewrite below_app. cbn [length].
  assert (∀ (l : nibbles) n, take 1 (drop n l) = [x] ↔ l !! n = Some x) as ->; [|done].
  intros l n. replace (l !! n) with (drop n l !! 0%nat) by (rewrite lookup_drop; f_equal; lia).
  destruct (drop n l); naive_solver.
Qed.

Lemma length_unpack key : is_b256 key → length (unpack_nibbles key) = SECURE_KEY_NIBBLES.
Proof. intros Hk. unfold unpack_nibbles. by rewrite length_split_bytes, Hk. Qed.

Lemma agrees_leaf store encoded path suffix value key0 leaves :
  decode_node encoded = Ok (Leaf suffix value) → Forall is_nibble path →
  pack_nibbles (path ++ suffix) = Ok key0 → agrees store encoded path leaves (binsert key0 value leaves).
Proof.
  intros Hd Hp Hk key Hkey. pose proof (decode_node_ok _ _ Hd) as [_ Hs].
  apply pack_nibbles_Ok in Hk as [Hk0 Hk]; [|by apply Forall_app].
  assert (key = key0 ↔ below path key ∧ drop (length path) (unpack_nibbles key) = suffix) as Heq.
  { split.
    - intros ->. unfold below. rewrite <-Hk, take_app_length, drop_app_length. done.
    - intros [Hb Hdr]. assert (unpack_nibbles key = unpack_nibbles key0) as E.
      { rewrite <-Hk, <-(take_drop (length path) (unpack_nibbles key)). congruence. }
      pose proof (pack_unpack key Hkey) as E1. rewrite E, pack_unpack in E1 by done. congruence. }
  destruct (decide (below path key)) as [Hb|Hb].
  - exists (if bool_decide (drop (length path) (unpack_nibbles key) = suffix) then Some value else None).
    split.
    + intros [|fuel] nodes Hf.
      { assert (length path + length suffix = 64)%nat as Hl.
        { rewrite <-length_app, Hk, length_unpack by done. done. }
        unfold SECURE_KEY_NIBBLES in Hf. destruct suffix; [|cbn in Hl; lia].
        by destruct (decode_node_ok _ _ Hd). }
      cbn [proof_loop]. rewrite Hd. cbn [obind]. eauto.
    + rewrite bget_binsert. case_bool_decide as Hdr.
      * rewrite (proj2 (teqb_eq key key0)) by tauto. done.
      * destruct (teqb key key0) eqn:E; [|done]. apply teqb_eq in E. tauto.
  - rewrite bget_binsert_ne; [done|]. tauto.
Qed.

Lemma agrees_extension store encoded path ext child e leaves leaves' :
  decode_node encoded = Ok (Extension ext child) → (length path < SECURE_KEY_NIBBLES)%nat →
  resolve_child store child = Ok e → agrees store e (path ++ ext) leaves leaves' →
  agrees store encoded path leaves leaves'.
Proof.
  intros Hd Hlen Hr Ha key Hkey. specialize (Ha key Hkey). pose proof (below_app path ext key) as Hb.
  pose proof (decode_node_ok _ _ Hd) as [Hne _].
  destruct (decide (below path key)) as [Hp|Hp].
  2:{ rewrite decide_False in Ha by tauto. done. }
  destruct (decide (below (path ++ ext) key)) as [Hpe|Hpe].
  - destruct Ha as (v & Hf & Hg). exists v. split; [|done]. intros [|fuel] nodes Hfu; [lia|].
    cbn [proof_loop]. rewrite Hd. cbn [obind]. rewrite bool_decide_true by tauto. cbn [negb].
    rewrite Hr. cbn [obind]. rewrite <-length_app. apply Hf. rewrite length_app.
    destruct ext; [done|]. cbn [length]. lia.
  - exists None. split; [|done]. intros [|fuel] nodes Hfu; [lia|]. cbn [proof_loop]. rewrite Hd.
    cbn [obind]. rewrite bool_decide_false by tauto. cbn [negb]. eauto.
Qed.

(** The children of a branch, each below its own nibble. *)
Lemma agrees_children walk store path l leaves visited leaves' visited' :
  (∀ c x lv v lv' v', (x, Some c) ∈ l → walk_child walk store c (path ++ [x]) (lv, v) = Ok (lv', v') →
     ∃ e, resolve_child store c = Ok e ∧ agrees store e (path ++ [x]) lv lv') →
  NoDup l.*1 →
  for_each (walk_branch walk store path) (leaves, visited) l = Ok (leaves', visited') →
  ∀ key, is_b256 key →
    (∀ x c, below path key → unpack_nibbles key !! length path = Some x → (x, Some c) ∈ l →
       ∃ e v, resolve_child store c = Ok e ∧ finds store e (S (length path)) key v ∧
         bget key leaves' = match v with Some y => Some y | None => bget key leaves end) ∧
    ((∀ x c, below path key → unpack_nibbles key !! length path = Some x → (x, Some c) ∉ l) →
       bget key leaves' = bget key leaves).
Proof.
  intros Hw Hnd. revert leaves visited.
  induction l as [|[y c0] l IH]; intros leaves visited Hf key Hkey; cbn [for_each] in Hf.
  { injection Hf as <- <-. split; [|done]. intros x c _ _ Hx%elem_of_nil. done. }
  rewrite fmap_cons in Hnd. apply list.NoDup_cons in Hnd as [Hy Hnd].
  apply obind_Ok in Hf as ([lv v] & Hstep & Hf).
  assert (∀ x c, (x, Some c) ∈ l → x ≠ y) as Hxy.
  { intros x c Hx ->. apply Hy. apply list_elem_of_fmap. by exists (y, Some c). }
  destruct (IH ltac:(intros; eapply Hw; [by right|done]) Hnd lv v Hf key Hkey) as [IH1 IH2].
  destruct c0 as [c0|]; cbn in Hstep.
  - apply Hw in Hstep as (e & Hr & Ha); [|by left]. specialize (Ha key Hkey).
    pose proof (below_snoc path y key) as Hb. rewrite length_app in Ha. cbn [length] in Ha.
    destruct (decide (below (path ++ [y]) key)) as [Hby|Hby].
    + destruct Ha as (w & Hfi & Hg). apply Hb in Hby as [Hp Hn].
      assert (bget key leaves' = bget key lv) as Hsame.
      { apply IH2. intros x c _ Hx Hin. rewrite Hn in Hx. injection Hx as ->. by eapply Hxy. }
      split.
      * intros x c _ Hx Hin. rewrite Hn in Hx. injection Hx as <-.
        apply elem_of_cons in Hin as [[= ->]|Hin]; [|by apply Hxy in Hin].
        exists e, w. rewrite Hsame. replace (S (length path)) with (length path + 1)%nat by lia. done.
      * intros Hno. exfalso. eapply (Hno y c0); [done|done|by left].
    + split.
      * intros x c Hp Hx Hin. apply elem_of_cons in Hin as [[= -> ->]|Hin]; [tauto|].
        destruct (IH1 x c Hp Hx Hin) as (e' & w & ? & ? & Hg). exists e', w. by rewrite Hg, Ha.
      * intros Hno. rewrite IH2, Ha; [done|]. intros x c Hp Hx Hin. eapply Hno; [done..|by right].
  - injection Hstep as <- <-. split.
    + intros x c Hp Hx Hin. apply elem_of_cons in Hin as [[=]|Hin]. by apply (IH1 x c).
    + intros Hno. apply IH2. intros x c Hp Hx Hin. eapply Hno; [done..|by right].
Qed.

Lemma zip_children (children : list (option ChildReference)) x o :
  length children = 16%nat → is_nibble x →
  (x, o) ∈ zip nibble_values children ↔ children !! Z.to_nat x = Some o.
Proof.
  intros Hl Hx. assert (∀ i, (i < 16)%nat → nibble_values !! i = Some (Z.of_nat i)) as Hv.
  { intros i Hi. do 16 (destruct i as [|i]; [done|]). lia. }
  rewrite list_elem_of_lookup. split.
  - intros [i Hi]. apply lookup_zip_Some in Hi as [H1 H2].
    pose proof (lookup_lt_Some _ _ _ H2) as Hlt. rewrite Hv in H1 by lia. simplify_eq.
    by rewrite Nat2Z.id.
  - intros Hc. exists (Z.to_nat x). apply lookup_zip_Some. split; [|done].
    unfold is_nibble in Hx. rewrite Hv by lia. f_equal. lia.
Qed.

Lemma agrees_branch fuel store encoded path children leaves visited leaves' visited' :
  decode_node encoded = Ok (Branch children) → (length path < SECURE_KEY_NIBBLES)%nat →
  (∀ e p lv v lv' v', Forall is_nibble p → walk_node fuel store e p (lv, v) = Ok (lv', v') →
     agrees store e p lv lv') → Forall is_nibble path →
  for_each (walk_branch (walk_node fuel store) store path) (leaves, visited)
    (zip nibble_values children) = Ok (leaves', visited') →
  agrees store encoded path leaves leaves'.
Proof.
  intros Hd Hlen IH Hp Hf key Hkey. pose proof (decode_node_ok _ _ Hd) as H16. cbn in H16.
  assert ((zip nibble_values children).*1 = nibble_values) as Hfst
    by (apply fst_zip; rewrite H16; done).
  destruct (lookup_lt_is_Some_2 (unpack_nibbles key) (length path)) as [x Hx];
    [by rewrite length_unpack|].
  assert (is_nibble x) as Hnx.
  { pose proof (split_bytes_nibbles key) as Hall. rewrite Forall_lookup in Hall. by eapply Hall. }
  assert (∀ c x0 lv v lv' v', (x0, Some c) ∈ zip nibble_values children →
    walk_child (walk_node fuel store) store c (path ++ [x0]) (lv, v) = Ok (lv', v') →
    ∃ e, resolve_child store c = Ok e ∧ agrees store e (path ++ [x0]) lv lv') as Hstep.
  { intros c x0 lv v lv' v' Hin (e & v2 & Hr & Hwk)%walk_child_inv. exists e. split; [done|].
    eapply IH; [|exact Hwk]. apply Forall_app. split; [done|]. constructor; [|done].
    apply is_nibble_values. rewrite <-Hfst. apply list_elem_of_fmap. by exists (x0, Some c). }
  destruct (agrees_children _ _ _ _ _ _ _ _ Hstep ltac:(rewrite Hfst; by_evaluation) Hf key Hkey)
    as [Hin Hout].
  destruct (decide (below path key)) as [Hb|Hb]; [|by apply Hout].
  destruct (children !! Z.to_nat x) as [[c|]|] eqn:Hc.
  - destruct (Hin x c Hb Hx) as (e & v & Hr & Hfi & Hg); [by apply zip_children|].
    exists v. split; [|done]. intros [|pf] nodes Hfu; [lia|]. cbn [proof_loop]. rewrite Hd.
    cbn [obind]. rewrite (proj2 (Nat.leb_gt _ _)) by done. rewrite Hx. cbn [default from_option id].
    rewrite Hc. cbn. rewrite Hr. cbn [obind]. apply Hfi. lia.
  - exists None. split.
    + intros [|pf] nodes Hfu; [lia|]. cbn [proof_loop]. rewrite Hd. cbn [obind].
      rewrite (proj2 (Nat.leb_gt _ _)) by done. rewrite Hx. cbn [default from_option id].
      rewrite Hc. cbn. eauto.
    + apply Hout. intros y c _ Hy Hin'. rewrite Hx in Hy. injection Hy as <-.
      apply zip_children in Hin'; [congruence|done|done].
  - apply lookup_ge_None in Hc. unfold is_nibble in Hnx. lia.
Qed.

Lemma walk_agrees fuel store encoded path leaves visited leaves' visited' :
  Forall is_nibble path → walk_node fuel store encoded path (leaves, visited) = Ok (leaves', visited') →
  agrees store encoded path leaves leaves'.
Proof.
  revert encoded path leaves visited leaves' visited'.
  induction fuel as [|fuel IH]; intros encoded path leaves visited leaves' visited' Hp Hw; [done|].
  pose proof (walk_node_depth _ _ _ _ _ _ Hw) as Hlen. cbn [walk_node] in Hw.
  apply obind_Ok in Hw as (n & Hd & Hw).
  destruct n as [suffix value|ext child|children].
  - ok_inv. subst. by eapply agrees_leaf.
  - apply walk_child_inv in Hw as (e & v & Hr & Hw). cbn in Hw.
    eapply agrees_extension; [done..|]. eapply IH; [|done]. apply Forall_app. split; [done|].
    by destruct (decode_node_ok _ _ Hd).
  - ok_inv. by eapply agrees_branch.
Qed.

(** ** Two stores with the same root *)

(** The stores hold different nodes under the same hash. *)
Definition stores_collide (s1 s2 : node_store) : Prop :=
  ∃ a b, a ≠ b ∧ keccak256 a = keccak256 b ∧
    s1 (keccak256 a) = Ok (Some a) ∧ s2 (keccak256 b) = Ok (Some b).

Lemma load_hashed_Ok store h e :
  load_hashed store h = Ok e ↔ h = keccak256 e ∧ store h = Ok (Some e).
Proof.
  unfold load_hashed. split.
  - intros Hl. ok_inv. apply negb_false_iff, bool_decide_eq_true in Hif. by subst.
  - intros [-> ->]. cbn. by rewrite bool_decide_true.
Qed.

Lemma load_hashed_same s1 s2 h e1 e2 :
  load_hashed s1 h = Ok e1 → load_hashed s2 h = Ok e2 → e1 = e2 ∨ stores_collide s1 s2.
Proof.
  intros [-> H1]%load_hashed_Ok [E H2]%load_hashed_Ok.
  destruct (decide (e1 = e2)) as [|Hne]; [by left|right]. exists e1, e2. rewrite <-E at 2.
  by split_and!.
Qed.

Lemma for_each_same {E S A : Type} (f g : S → A → outcome E S) (P : Prop) l s r1 r2 :
  (∀ s a r1 r2, f s a = Ok r1 → g s a = Ok r2 → r1 = r2 ∨ P) →
  for_each f s l = Ok r1 → for_each g s l = Ok r2 → r1 = r2 ∨ P.
Proof.
  intros Hfg. revert s. induction l as [|a l IH]; intros s H1 H2; cbn [for_each] in *.
  - left. congruence.
  - apply obind_Ok in H1 as (s1 & Hf & H1). apply obind_Ok in H2 as (s2 & Hg & H2).
    destruct (Hfg _ _ _ _ Hf Hg) as [->|]; [|by right]. by eapply IH.
Qed.

Lemma walk_child_same w1 w2 s1 s2 c path st r1 r2 :
  (∀ e p st r1 r2, w1 e p st = Ok r1 → w2 e p st = Ok r2 → r1 = r2 ∨ stores_collide s1 s2) →
  walk_child w1 s1 c path st = Ok r1 → walk_child w2 s2 c path st = Ok r2 →
  r1 = r2 ∨ stores_collide s1 s2.
Proof.
  intros Hw H1 H2. destruct c as [h|e]; cbn in *; [|by eapply Hw].
  destruct st as [lv v]. destruct (bcontains h v); [done|].
  apply obind_Ok in H1 as (e1 & L1 & H1). apply obind_Ok in H2 as (e2 & L2 & H2).
  destruct (load_hashed_same _ _ _ _ _ L1 L2) as [->|]; [|by right]. by eapply Hw.
Qed.

Lemma walk_same f1 f2 s1 s2 e path st r1 r2 :
  walk_node f1 s1 e path st = Ok r1 → walk_node f2 s2 e path st = Ok r2 →
  r1 = r2 ∨ stores_collide s1 s2.
Proof.
  revert f2 e path st r1 r2. induction f1 as [|f1 IH]; intros f2 e path st r1 r2 H1 H2; [done|].
  destruct f2 as [|f2]; [done|]. cbn [walk_node] in *.
  apply obind_Ok in H1 as (n & Hd & H1). rewrite Hd in H2. cbn [obind] in H2.
  destruct n as [suffix value|ext child|children].
  - left. congruence.
  - eapply (walk_child_same _ _ s1 s2); [|exact H1|exact H2]. intros. by eapply IH.
  - ok_inv. eapply (for_each_same _ _ (stores_collide s1 s2)); [|exact H1|exact H2].
    intros st' [x [c|]] r r' Hr Hr'; cbn in *; [|left; congruence].
    eapply (walk_child_same _ _ s1 s2); [|exact Hr|exact Hr']. intros. by eapply IH.
Qed.

(** ** A larger store *)

(** Every node of [s1] is in [s2]. *)
Definition store_extends (s1 s2 : node_store) : Prop :=
  ∀ h e, s1 h = Ok (Some e) → s2 h = Ok (Some e).

Lemma for_each_extends {E S A : Type} (f g : S → A → outcome E S) l s r :
  (∀ s a r, f s a = Ok r → g s a = Ok r) → for_each f s l = Ok r → for_each g s l = Ok r.
Proof.
  intros Hfg. revert s. induction l as [|a l IH]; intros s Hr; cbn [for_each] in *; [done|].
  apply obind_Ok in Hr as (s' & Hf & Hr). rewrite (Hfg _ _ _ Hf). by apply IH.
Qed.

Section extends.
Context (s1 s2 : node_store) (Hext : store_extends s1 s2).

Lemma load_hashed_extends h e : load_hashed s1 h = Ok e → load_hashed s2 h = Ok e.
Proof. rewrite !load_hashed_Ok. intros [-> Hs]. split; [done|]. by apply Hext. Qed.

Lemma walk_child_extends (w1 w2 : bytes → nibbles → walk_state → outcome StateError walk_state) c path st r :
  (∀ e p st r, w1 e p st = Ok r → w2 e p st = Ok r) →
  walk_child w1 s1 c path st = Ok r → walk_child w2 s2 c path st = Ok r.
Proof.
  intros Hw Hr. destruct c as [h|e]; cbn in *; [|by apply Hw].
  destruct st as [lv v]. destruct (bcontains h v); [done|].
  apply obind_Ok in Hr as (e & Hl & Hr). rewrite (load_hashed_extends _ _ Hl). by apply Hw.
Qed.

(** Whatever is read with less fuel from the smaller store is read from the larger one. *)
Lemma walk_extends f1 f2 e path st r :
  (f1 <= f2)%nat → walk_node f1 s1 e path st = Ok r → walk_node f2 s2 e path st = Ok r.
Proof.
  revert f2 e path st r. induction f1 as [|f1 IH]; intros f2 e path st r Hf Hr; [done|].
  destruct f2 as [|f2]; [lia|]. cbn [walk_node] in *.
  apply obind_Ok in Hr as (n & -> & Hr). cbn [obind].
  assert (∀ e p st r, walk_node f1 s1 e p st = Ok r → walk_node f2 s2 e p st = Ok r) as Hw
    by (intros; eapply IH; [lia|done]).
  destruct n as [suffix value|ext child|children]; [done|by eapply walk_child_extends|].
  destruct (_ <=? _)%nat; [done|]. eapply for_each_extends; [|exact Hr].
  intros st' [x [c|]] r' Hr'; cbn in *; [by eapply walk_child_extends|done].
Qed.

Lemma collect_extends `{!AlloyTrie} f1 f2 root leaves :
  (f1 <= f2)%nat → collect_leaves f1 root s1 = Ok leaves → collect_leaves f2 root s2 = Ok leaves.
Proof.
  intros Hf. unfold collect_leaves. case_bool_decide; [done|]. intros Hc.
  apply obind_Ok in Hc as (e & Hl & Hc). apply obind_Ok in Hc as (st & Hw & Hc).
  rewrite (load_hashed_extends _ _ Hl). cbn [obind]. by rewrite (walk_extends _ _ _ _ _ _ Hf Hw).
Qed.
End extends.

(** ** Termination *)

Definition node_children (n : DecodedNode) : list ChildReference :=
  match n with
  | Leaf _ _ => []
  | Extension _ c => [c]
  | Branch children => omap id children
  end.

Lemma decode_child_embedded it e :
  decode_child it = Ok (Some (Embedded e)) → e = item_raw it ∧ (length e < 32)%nat.
Proof.
  unfold decode_child. destruct (item_kind it).
  - by repeat case_match.
  - destruct (Nat.leb_spec 32 (length (item_raw it))); [done|]. intros [= <-]. done.
Qed.

(** An embedded child is a proper part of its parent. *)
Lemma decode_node_embedded encoded n e :
  u64 (zlen encoded) → decode_node encoded = Ok n → Embedded e ∈ node_children n →
  (length e < length encoded)%nat ∧ (length e < 32)%nat.
Proof.
  intros Hu Hd He.
  assert (∃ fields it, decode_rlp_list encoded = Ok fields ∧ it ∈ fields ∧
    decode_child it = Ok (Some (Embedded e))) as (fields & it & Hf & Hit & Hc).
  { unfold decode_node in Hd. apply obind_Ok in Hd as (fields & Hf & Hd). exists fields.
    case_match; ok_inv.
    - exists a0. split; [done|]. split; [by eapply list_elem_of_lookup_2|].
      unfold decode_short_node in Hd. ok_inv. case_match; ok_inv; subst n; cbn in He.
      + by apply elem_of_nil in He.
      + apply list_elem_of_singleton in He as <-. congruence.
    - unfold decode_branch_node in Hd. ok_inv. subst n. cbn in He.
      apply list_elem_of_omap in He as (c & Hc & E). cbn in E. subst c.
      apply collect_Ok in Hok0. apply list_elem_of_lookup in Hc as [i Hi].
      apply (Forall2_lookup_r _ _ _ i _ Hok0) in Hi as (it & Hi & Hdc). exists it.
      split; [done|]. split; [|done]. apply list_elem_of_lookup. exists i.
      apply lookup_take_Some in Hi. tauto. }
  apply decode_child_embedded in Hc as [-> H32]. split; [|done].
  apply decode_rlp_list_iff in Hf as [-> _]; [|done]. cbn [item_encoding].
  apply list_elem_of_split in Hit as (l1 & l2 & ->). rewrite fmap_app, fmap_cons, concat_app.
  cbn [concat]. rewrite !length_app.
  assert (length (Spec.header_list (zlen (concat (item_raw <$> l1) ++
    item_raw it ++ concat (item_raw <$> l2)))) ≠ 0)%nat; [|lia].
  unfold Spec.header_list, Spec.header. by case_match.
Qed.
End reading.

Lemma filter_length_mono {A : Type} (P Q : A → Prop) `{!∀ x, Decision (P x), !∀ x, Decision (Q x)} l :
  (∀ x, P x → Q x) → (length (filter P l) <= length (filter Q l))%nat.
Proof.
  intros HPQ. induction l as [|x l IH]; [done|]. rewrite !filter_cons. specialize (HPQ x).
  repeat case_decide; cbn [length]; tauto || lia.
Qed.

Section termination.
Context `{Keccak, AlloyRlp}.
Context (store : node_store) (dom : list bytes).
Hypothesis store_returns : ∀ h m, store h ≠ Panic m.
Hypothesis store_finite : ∀ h e, store h = Ok (Some e) → h ∈ dom ∧ u64 (zlen e).

(** The stored hashes not visited yet. *)
Definition unvisited (visited : btree bytes unit) : nat :=
  length (filter (λ h, bcontains h visited = false) dom).

Definition walk_measure (encoded : bytes) (visited : btree bytes unit) : nat :=
  33 * unvisited visited + Nat.min 32 (length encoded).

Lemma unvisited_mono v v' :
  (∀ h, bcontains h v = true → bcontains h v' = true) → (unvisited v' <= unvisited v)%nat.
Proof.
  intros Hm. apply filter_length_mono. intros h Hv'. specialize (Hm h).
  destruct (bcontains h v); [|done]. rewrite Hm in Hv' by done. done.
Qed.

Lemma bcontains_binsert h k (v : btree bytes unit) :
  bcontains h (binsert k tt v) = teqb h k || bcontains h v.
Proof. unfold bcontains. rewrite bget_binsert. by destruct (teqb h k). Qed.

Lemma unvisited_visit h v :
  h ∈ dom → bcontains h v = false → (unvisited (binsert h tt v) < unvisited v)%nat.
Proof.
  intros Hh Hv. assert (∀ l, (length (filter (λ x, bcontains x (binsert h tt v) = false) l) <=
    length (filter (λ x, bcontains x v = false) l))%nat) as Hle.
  { intros l. apply filter_length_mono. intros x. rewrite bcontains_binsert.
    by intros [_ ?]%orb_false_iff. }
  unfold unvisited. apply list_elem_of_split in Hh as (l1 & l2 & ->).
  rewrite !list.filter_app, !filter_cons, !length_app, bcontains_binsert, Hv.
  rewrite (proj2 (teqb_eq h h) eq_refl). cbn [orb]. rewrite decide_False, decide_True by done.
  cbn [length]. pose proof (Hle l1). pose proof (Hle l2). lia.
Qed.

Lemma load_hashed_no_panic h m : load_hashed store h ≠ Panic m.
Proof. unfold load_hashed. no_panic. Qed.

Definition grows (st st' : walk_state) : Prop :=
  ∀ h, bcontains h st.2 = true → bcontains h st'.2 = true.

Lemma walk_child_grows walk c p st st' :
  (∀ e p st st', walk e p st = Ok st' → grows st st') →
  walk_child walk store c p st = Ok st' → grows st st'.
Proof.
  intros Hw Hc. destruct st as [lv v], c as [h|e]; cbn in Hc; [|by eapply Hw].
  destruct (bcontains h v); [done|]. apply obind_Ok in Hc as (e & _ & Hc).
  intros x Hx. apply (Hw _ _ _ _ Hc). cbn. rewrite bcontains_binsert. cbn in Hx. by rewrite Hx, orb_true_r.
Qed.

Lemma for_each_grows {A : Type} (f : walk_state → A → outcome StateError walk_state) l st st' :
  (∀ st a st', f st a = Ok st' → grows st st') → for_each f st l = Ok st' → grows st st'.
Proof.
  intros Hf. revert st. induction l as [|a l IH]; intros st Hl; cbn [for_each] in Hl.
  - injection Hl as ->. by intros h.
  - apply obind_Ok in Hl as (s & Hs & Hl). intros h Hh. apply (IH _ Hl), (Hf _ _ _ Hs), Hh.
Qed.

Lemma walk_grows fuel e p st st' : walk_node fuel store e p st = Ok st' → grows st st'.
Proof.
  revert e p st st'. induction fuel as [|fuel IH]; intros e p st st' Hw; [done|].
  cbn [walk_node] in Hw. apply obind_Ok in Hw as (n & _ & Hw).
  destruct n as [suffix value|ext child|children].
  - destruct st as [lv v]. ok_inv. subst. by intros h.
  - by eapply walk_child_grows.
  - ok_inv. eapply for_each_grows; [|done]. intros s [x [c|]] s' Hs; cbn in Hs.
    + by eapply walk_child_grows.
    + injection Hs as ->. by intros h.
Qed.

(** The walk never follows more references than its measure. *)
Lemma walk_no_panic fuel e p st m :
  u64 (zlen e) → (walk_measure e st.2 < fuel)%nat → walk_node fuel store e p st ≠ Panic m.
Proof.
  revert e p st. induction fuel as [|fuel IH]; intros e p st Hu Hf; [lia|].
  assert (∀ n c p st', decode_node e = Ok n → c ∈ node_children n → grows st st' →
    walk_child (walk_node fuel store) store c p st' ≠ Panic m) as Hchild.
  { intros n c p' st' Hd Hc Hg. pose proof (unvisited_mono _ _ Hg) as Hm. unfold walk_measure in *.
    destruct c as [h|e'].
    - destruct st' as [lv v]. cbn. destruct (bcontains h v) eqn:Hv; [done|].
      apply obind_no_panic; [apply load_hashed_no_panic|]. intros e' [-> Hs]%load_hashed_Ok.
      apply store_finite in Hs as [Hdom Hu']. apply IH; [done|]. cbn [snd] in *.
      pose proof (unvisited_visit _ _ Hdom Hv). unfold walk_measure. lia.
    - destruct (decode_node_embedded _ _ _ Hu Hd Hc) as [Hlt H32]. cbn. apply IH.
      + unfold fits in *. unfold zlen in *. lia.
      + unfold walk_measure. lia. }
  cbn [walk_node]. apply obind_no_panic; [by apply decode_node_no_panic|]. intros n Hd.
  destruct n as [suffix value|ext child|children].
  - destruct st as [lv v]. unfold pack_nibbles. no_panic.
  - eapply Hchild; [done|by left|by intros h].
  - case_match; [done|].
    assert (∀ x c, (x, Some c) ∈ zip nibble_values children → c ∈ node_children (Branch children)) as Hin.
    { intros x c Hx. cbn. apply list_elem_of_omap. exists (Some c). split; [|done].
      by apply elem_of_zip_r in Hx. }
    clear Hu Hf. revert Hin Hchild. generalize (zip nibble_values children).
    intros l Hin Hchild. assert (grows st st) as Hg by (by intros h). revert Hg.
    generalize st at 2 3. induction l as [|[x c] l IHl]; intros st' Hg; [done|].
    cbn [for_each]. apply obind_no_panic.
    + destruct c as [c|]; [|done]. eapply Hchild; [done|by eapply Hin; left|done].
    + intros s Hs. apply IHl; [intros; eapply Hin; by right|]. intros h Hh.
      destruct c as [c|]; cbn in Hs; [|injection Hs as <-; by apply Hg].
      eapply walk_child_grows; [|exact Hs|by apply Hg]. intros. by eapply walk_grows.
Qed.

Lemma proof_loop_no_panic fuel target e depth nodes m :
  u64 (zlen e) → length target = SECURE_KEY_NIBBLES → (depth <= SECURE_KEY_NIBBLES)%nat →
  (SECURE_KEY_NIBBLES < fuel + depth)%nat → proof_loop fuel store target e depth nodes ≠ Panic m.
Proof.
  intros Hu Ht. revert e depth nodes Hu. induction fuel as [|fuel IH]; intros e depth nodes Hu Hd Hf.
  { lia. }
  assert (∀ n c d nodes, decode_node e = Ok n → c ∈ node_children n → (depth < d <= SECURE_KEY_NIBBLES)%nat →
    (let? encoded := resolve_child store c in proof_loop fuel store target encoded d nodes) ≠ Panic m)
    as Hchild.
  { intros n c d ns Hn Hc Hdd. apply obind_no_panic.
    - destruct c; [apply load_hashed_no_panic|done].
    - intros e' He'. apply IH; [|lia..]. destruct c as [h|e0]; cbn in He'.
      + apply load_hashed_Ok in He' as [_ Hs]. by apply store_finite in Hs as [_ ?].
      + injection He' as <-. destruct (decode_node_embedded _ _ _ Hu Hn Hc) as [Hlt _].
        unfold fits, zlen in *. lia. }
  cbn [proof_loop]. apply obind_no_panic; [by apply decode_node_no_panic|]. intros n Hn.
  destruct n as [suffix value|ext child|children]; [done| |].
  - case_bool_decide as Hp; cbn [negb]; [|done]. eapply Hchild; [done|by left|].
    destruct (decode_node_ok _ _ Hn) as [Hne _]. apply (f_equal length) in Hp.
    rewrite length_take, length_drop, Ht in Hp.
    assert (1 <= length ext)%nat by (destruct ext; [done|cbn [length]; lia]). lia.
  - destruct (Nat.leb_spec SECURE_KEY_NIBBLES depth); [done|].
    destruct (children !! _) as [[c|]|] eqn:Hc; cbn; [|done..].
    eapply Hchild; [done| |lia]. cbn. apply list_elem_of_omap. exists (Some c).
    split; [by eapply list_elem_of_lookup_2|done].
Qed.
End termination.

(** ** Results *)

Section results.
Context `{Keccak, AlloyRlp, !AlloyTrie}.

Lemma collect_proof_value fuel root store leaves key :
  collect_leaves fuel root store = Ok leaves → is_b256 key →
  ∃ nodes,
    let p := {| sp_root := root; sp_key := key; sp_value := bget key leaves; sp_nodes := nodes |} in
    proof root key store =
      if bool_decide (root = EMPTY_ROOT_HASH) then Ok p
      else run? verify p in Ok p.
Proof.
  unfold collect_leaves, proof. case_bool_decide.
  { intros [= <-] _. by exists []. }
  intros Hc Hkey. apply obind_Ok in Hc as (e & Hl & Hc). apply obind_Ok in Hc as ([lv v] & Hw & Hc).
  injection Hc as <-. apply walk_agrees in Hw; [|constructor]. specialize (Hw key Hkey).
  rewrite decide_True in Hw by done. destruct Hw as (w & Hf & Hg).
  destruct (Hf (SECURE_KEY_NIBBLES + 1)%nat [] ltac:(cbn; lia)) as [ns Hp].
  exists ns. rewrite Hl. cbn [obind]. cbn [length] in Hp. rewrite Hp. cbn [obind fst] in *.
  replace w with (bget key lv); [done|]. rewrite Hg. by destruct w.
Qed.

(** Reading one key and reading all leaves agree: if collecting the leaves
    of a root from a store succeeds, then the proof of any key through that
    store carries exactly the collected value, or [None] for an absent key, and
    is returned when the independent verifier accepts it. *)
Theorem collect_proof_agree fuel root store leaves key :
  collect_leaves fuel root store = Ok leaves → is_b256 key →
  ∃ nodes,
    let p := {| sp_root := root; sp_key := key; sp_value := bget key leaves; sp_nodes := nodes |} in
    proof root key store =
      if bool_decide (root = EMPTY_ROOT_HASH) then Ok p
      else run? verify p in Ok p.
Proof. apply collect_proof_value. Qed.

Lemma collect_same_leaves fuel1 fuel2 root s1 s2 leaves1 leaves2 :
  collect_leaves fuel1 root s1 = Ok leaves1 → collect_leaves fuel2 root s2 = Ok leaves2 →
  leaves1 = leaves2 ∨ stores_collide s1 s2.
Proof.
  unfold collect_leaves. case_bool_decide; [left; congruence|]. intros C1 C2.
  apply obind_Ok in C1 as (e1 & L1 & C1). apply obind_Ok in C2 as (e2 & L2 & C2).
  destruct (load_hashed_same _ _ _ _ _ L1 L2) as [->|]; [|by right].
  apply obind_Ok in C1 as (st1 & W1 & [= <-]). apply obind_Ok in C2 as (st2 & W2 & [= <-]).
  destruct (walk_same _ _ _ _ _ _ _ _ _ W1 W2) as [->|]; [by left|by right].
Qed.

(** A state root commits to the whole state: two stores that yield leaves
    for the same root yield the same leaves, unless they hold different nodes
    under the same hash. *)
Theorem collect_binding fuel1 fuel2 root s1 s2 leaves1 leaves2 :
  collect_leaves fuel1 root s1 = Ok leaves1 → collect_leaves fuel2 root s2 = Ok leaves2 →
  leaves1 = leaves2 ∨ stores_collide s1 s2.
Proof. apply collect_same_leaves. Qed.

(** C35. Reading terminates on any finite store, even one that holds cycles or
    malformed nodes: a lookup follows at most one reference per nibble of the
    key, and collecting the leaves at most 33 references per stored node. *)
Theorem reads_terminate fuel root key store dom m :
  (∀ h m', store h ≠ Panic m') →
  (∀ h e, store h = Ok (Some e) → h ∈ dom ∧ u64 (zlen e)) → is_b256 key →
  (33 * (length dom + 1) <= fuel)%nat →
  proof root key store ≠ Panic m ∧ collect_leaves fuel root store ≠ Panic m.
Proof.
  intros Hret Hfin Hkey Hf. unfold proof, collect_leaves. case_bool_decide; [done|].
  split; (apply obind_no_panic; [by apply load_hashed_no_panic|]);
    intros e [-> Hs]%load_hashed_Ok; apply Hfin in Hs as [Hd Hu].
  - apply obind_no_panic.
    + eapply proof_loop_no_panic; [done|done|done|by apply length_unpack|lia|lia].
    + intros [v ns] _. apply obind_no_panic; [|done]. unfold verify.
      pose proof (verify_proof_returns (keccak256 e) (unpack_nibbles key) v ns) as Hv.
      cbn. destruct (verify_proof _ _ _ _); cbn; [done..|]. by intros [= ->]; eapply Hv.
  - apply obind_no_panic; [|done]. apply (walk_no_panic _ dom); [done..|].
    unfold walk_measure. assert (unvisited dom [(keccak256 e, tt)] ≤ length dom)%nat; [|cbn [snd]; lia].
    unfold unvisited. apply length_filter.
Qed.
End results.

(** ** A concrete trie *)

Module MptWitness.
#[local] Existing Instance Toy.toy_keccak.
#[local] Existing Instance spec_rlp.

(** Reads the key again from the proof's own nodes. *)
Definition toy_verify (root : bytes) (key : nibbles) (value : option bytes) (nodes : list bytes)
    : outcome string unit :=
  let store := memory_store (foldl (λ m e, binsert (keccak256 e) e m) [] nodes) in
  match load_hashed store root with
  | Ok encoded =>
      match proof_loop (SECURE_KEY_NIBBLES + 1) store key encoded 0 [] with
      | Ok (v, _) => if bool_decide (v = value) then Ok tt else Err "value mismatch"%string
      | _ => Err "malformed node"%string
      end
  | _ => Err "root mismatch"%string
  end.

Lemma toy_verify_returns root key value nodes m : toy_verify root key value nodes ≠ Panic m.
Proof. unfold toy_verify. repeat case_match; done. Qed.

#[local] Instance toy_trie : AlloyTrie := {|
  EMPTY_ROOT_HASH := keccak256 [byte_of 128];
  KECCAK_EMPTY := keccak256 [];
  verify_proof := toy_verify;
  empty_root_hash := eq_refl;
  keccak_empty := eq_refl;
  verify_proof_returns := toy_verify_returns;
|}.

Definition key1 : bytes := repeat_byte 32 17.

Definition key2 : bytes := repeat_byte 32 34.

Definition two_leaves : btree bytes bytes := [(key1, [byte_of 1]); (key2, [byte_of 2])].

Definition two_snapshot : TrieSnapshot :=
  match build two_leaves with
  | Ok snap => snap
  | _ => {| snap_root := []; snap_nodes := []; snap_leaves := [] |}
  end.

(** The store's nodes, evaluated. *)
Definition two_nodes : btree bytes bytes := Eval vm_compute in snap_nodes two_snapshot.

Definition two_root : bytes := Eval vm_compute in snap_root two_snapshot.

Lemma memory_store_finite (nodes : btree bytes bytes) h e :
  Forall (λ n : bytes * bytes, zlen n.2 < 2 ^ 64) nodes →
  memory_store nodes h = Ok (Some e) → h ∈ bkeys nodes ∧ u64 (zlen e).
Proof.
  intros Hall [= Hg]. split; [by apply bkeys_elem; eauto|]. apply bget_elem_of in Hg.
  apply (proj1 (list.Forall_forall _ _) Hall) in Hg. cbn in Hg. unfold fits, zlen in *. lia.
Qed.

Lemma collect_proof_agree_witness :
  ∃ nodes,
    let p := {| sp_root := two_root; sp_key := key2; sp_value := bget key2 two_leaves;
                sp_nodes := nodes |} in
    proof two_root key2 (memory_store two_nodes) =
      if bool_decide (two_root = EMPTY_ROOT_HASH) then Ok p else run? verify p in Ok p.
Proof. apply (collect_proof_agree 4 two_root (memory_store two_nodes) two_leaves key2); by_evaluation. Defined.

Lemma collect_binding_witness :
  two_leaves = two_leaves ∨ stores_collide (memory_store two_nodes) (memory_store two_nodes).
Proof.
  apply (collect_binding 4 5 two_root (memory_store two_nodes) (memory_store two_nodes)); by_evaluation.
Defined.

Lemma reads_terminate_witness :
  proof two_root key1 (memory_store two_nodes) ≠ Panic "out of fuel"%string ∧
  collect_leaves 132 two_root (memory_store two_nodes) ≠ Panic "out of fuel"%string.
Proof.
  apply (reads_terminate 132 two_root key1 (memory_store two_nodes) (bkeys two_nodes));
    [done|intros h e; apply memory_store_finite; by_evaluation|by_evaluation|].
  apply Nat.leb_le. by_evaluation.
Defined.
End MptWitness.
