(* ===== verification/MptBuild.v ===== *)
(** Correctness of the trie builder ([build_node] and [build] of
    src/crates/arbor-state/src/mpt.rs) against the lookup of Mpt.v.

    Main results: building succeeds on every bounded set of 32-byte keys; looking a
    key up in a built trie gives its value, up to a hash collision among the nodes
    built, when no two keys agree on all but their last nibble; and a key of two that
    do is never read back from the trie built ([near_keys_rejected]). *)

From Stdlib Require Import Strings.Byte.
From S2P Require Import Prelude Bytes BTreeMap Primitives Canonical Rlp Crypto StateError.
From S2P Require Import Trie Mpt.
Import SE.

Local Open Scope Z_scope.

(** ** Lexicographic order of nibble paths *)

Lemma lex_between n (a b c : nibbles) :
  length a = length b → length b = length c → ¬ tlt b a → ¬ tlt c b →
  take n a = take n c → take n b = take n a.
Proof.
  revert a b c. induction n as [|n IH]; intros [|x a] [|y b] [|z c] Hab Hbc Hlt1 Hlt2 Ht; try done.
  cbn [take] in *. injection Ht as -> Ht. unfold tlt in *. cbn in Hlt1, Hlt2, Hab, Hbc.
  destruct (Z.compare_spec y z) as [->|Hyz|Hyz]; [|done|].
  - rewrite Z.compare_refl in Hlt2. f_equal. apply (IH a b c); auto; lia.
  - exfalso. apply Hlt2. rewrite (proj2 (Z.compare_lt_iff z y)) by lia. done.
Qed.

(** Paths that agree up to a nibble are ordered by it. *)
Lemma lex_next n (a b : nibbles) :
  tlt a b → take n a = take n b → (n < length a)%nat → length a = length b →
  default 0 (a !! n) ≤ default 0 (b !! n).
Proof.
  revert a b. induction n as [|n IH]; intros [|x a] [|y b] Hlt Ht Hn Hl; cbn in Hn, Hl; try lia.
  - unfold tlt in Hlt. cbn in Hlt |- *. destruct (Z.compare_spec x y); try lia. done.
  - cbn [take] in Ht. injection Ht as -> Ht. unfold tlt in Hlt. cbn in Hlt.
    rewrite Z.compare_refl in Hlt. apply IH; [done|done|lia|lia].
Qed.

Lemma nibble_order a b : 
  list_compare (unpack_nibbles a) (unpack_nibbles b) =
    list_compare a b.
Proof.
  revert b. induction a as [|x a IH]; intros [|y b]; try done.
  unfold unpack_nibbles in *. rewrite !split_bytes_cons. cbn [list_compare]. rewrite IH.
  change (tcompare x y) with (Z.compare (byte_val x) (byte_val y)).
  change (tcompare (high_nibble x) (high_nibble y)) with (Z.compare (high_nibble x) (high_nibble y)).
  change (tcompare (low_nibble x) (low_nibble y)) with (Z.compare (low_nibble x) (low_nibble y)).
  assert (∀ z, byte_val z = 16 * high_nibble z + low_nibble z) as Hz by (by intros []).
  rewrite (Hz x), (Hz y). pose proof (low_nibble_range x) as Hx. pose proof (low_nibble_range y) as Hy.
  unfold is_nibble in *.
  destruct (Z.compare_spec (high_nibble x) (high_nibble y)) as [->|Hh|Hh].
  - destruct (Z.compare_spec (low_nibble x) (low_nibble y)) as [->|Hw|Hw].
    + by rewrite Z.compare_refl.
    + by rewrite (proj2 (Z.compare_lt_iff _ _)) by lia.
    + by rewrite (proj2 (Z.compare_gt_iff _ _)) by lia.
  - by rewrite (proj2 (Z.compare_lt_iff _ _)) by lia.
  - by rewrite (proj2 (Z.compare_gt_iff _ _)) by lia.
Qed.

Lemma equal_prefix_take a b : take (equal_prefix a b) a = take (equal_prefix a b) b.
Proof.
  revert b. induction a as [|x a IH]; intros [|y b]; try done. cbn [equal_prefix].
  destruct (Z.eqb_spec x y) as [->|]; [|done]. cbn [take]. by rewrite IH.
Qed.

Lemma equal_prefix_zero a b : a ≠ [] → equal_prefix a b = O → length a = length b → head a ≠ head b.
Proof.
  destruct a as [|x a], b as [|y b]; try done. intros _. cbn [equal_prefix head].
  destruct (Z.eqb_spec x y); [done|]. congruence.
Qed.

Lemma equal_prefix_length a b : (equal_prefix a b <= length a)%nat.
Proof.
  revert b. induction a as [|x a IH]; intros [|y b]; cbn [equal_prefix length]; try lia.
  specialize (IH b). destruct (x =? y); lia.
Qed.

(** ** Ranges of entries *)

Definition path_ok (e : entry) : Prop :=
  length e.1 = SECURE_KEY_NIBBLES ∧ Forall is_nibble e.1 ∧ zlen e.2 < 2 ^ 32.

(** The entries a recursive call works on: sorted, and equal up to its depth. *)
Record entries_ok (depth : nat) (l : list entry) : Prop := {
  eo_sorted : StronglySorted tlt l.*1;
  eo_paths : Forall path_ok l;
  eo_share : ∀ e1 e2, e1 ∈ l → e2 ∈ l → take depth e1.1 = take depth e2.1;
}.

(** The entries with a given nibble. *)
Definition group (depth : nat) (x : Z) (l : list entry) : list entry :=
  List.filter (λ e, nibble_at e depth =? x) l.

Lemma group_elem depth x l e : e ∈ group depth x l ↔ e ∈ l ∧ nibble_at e depth = x.
Proof.
  unfold group. rewrite !list_elem_of_In, List.filter_In, Z.eqb_eq. done.
Qed.

Lemma StronglySorted_filter_map {A K : Type} (R : relation K) (key : A → K) f l :
  StronglySorted R (key <$> l) → StronglySorted R (key <$> List.filter f l).
Proof.
  induction l as [|a l IH]; [done|]. rewrite fmap_cons. intros Hs.
  apply StronglySorted_inv in Hs as [Hs Ha]. cbn [List.filter]. destruct (f a); [|auto].
  rewrite fmap_cons. constructor; [auto|]. rewrite list.Forall_forall in *.
  intros k (b & -> & Hb)%list_elem_of_fmap. apply Ha, list_elem_of_fmap. exists b. split; [done|].
  apply list_elem_of_In. apply list_elem_of_In, List.filter_In in Hb. tauto.
Qed.

Lemma StronglySorted_fmap_mono {A K L : Type} (R : relation K) (R' : relation L) (f : A → K) (g : A → L) l :
  (∀ a b, R (f a) (f b) → R' (g a) (g b)) → StronglySorted R (f <$> l) → StronglySorted R' (g <$> l).
Proof.
  intros Hfg. induction l as [|a l IH]; [constructor|]. rewrite !fmap_cons. intros Hs.
  apply StronglySorted_inv in Hs as [Hs Ha]. constructor; [auto|].
  apply list.Forall_forall. intros k (b & -> & Hb)%list_elem_of_fmap.
  apply Hfg, (proj1 (list.Forall_forall _ _) Ha). by apply list_elem_of_fmap_2.
Qed.

Lemma take_succ_default (l : nibbles) d :
  (d < length l)%nat → take (S d) l = take d l ++ [default 0 (l !! d)].
Proof.
  intros Hd. destruct (lookup_lt_is_Some_2 l d Hd) as [x Hx]. rewrite Hx. by apply take_S_r.
Qed.

Lemma group_ok depth x l :
  (depth < SECURE_KEY_NIBBLES)%nat → entries_ok depth l → entries_ok (S depth) (group depth x l).
Proof.
  intros Hd [Hs Hp Hsh]. split.
  - by apply StronglySorted_filter_map.
  - rewrite list.Forall_forall in *. intros e [He _]%group_elem. auto.
  - intros e1 e2 [H1 N1]%group_elem [H2 N2]%group_elem. rewrite list.Forall_forall in Hp.
    destruct (Hp e1 H1) as [L1 _], (Hp e2 H2) as [L2 _].
    rewrite !take_succ_default by lia. unfold nibble_at in *. rewrite (Hsh e1 e2), N1, N2 by done. done.
Qed.

(** The nibble after the shared ones does not decrease along the range. *)
Lemma nibble_sorted depth l i j a b :
  (depth < SECURE_KEY_NIBBLES)%nat → entries_ok depth l → (i <= j)%nat →
  l !! i = Some a → l !! j = Some b → nibble_at a depth ≤ nibble_at b depth.
Proof.
  intros Hd [Hs Hp Hsh] Hij Ha Hb. destruct (decide (i = j)) as [->|Hne]; [by simplify_eq|].
  rewrite Forall_lookup in Hp. destruct (Hp i a Ha) as [L1 _], (Hp j b Hb) as [L2 _].
  apply lex_next; [|by apply Hsh; eapply list_elem_of_lookup_2|lia|lia].
  eapply (StronglySorted_lookup_lt _ _ i j); [exact Hs| | |lia];
    rewrite list_lookup_fmap, ?Ha, ?Hb; done.
Qed.

Lemma filter_twice {A : Type} (f g h : A → bool) l :
  (∀ a, f a && g a = h a) → List.filter g (List.filter f l) = List.filter h l.
Proof.
  intros Hfg. induction l as [|a l IH]; [done|]. cbn [List.filter]. rewrite <-Hfg.
  destruct (f a); cbn [List.filter andb]; [|done]. destruct (g a); congruence.
Qed.

Lemma range_group depth x l :
  (depth < SECURE_KEY_NIBBLES)%nat → entries_ok depth l →
  let start := partition_point (λ e, nibble_at e depth <? x) l in
  let end_ := partition_point (λ e, nibble_at e depth <=? x) l in
  take (end_ - start) (drop start l) = group depth x l ∧
  (start = end_ ↔ group depth x l = []).
Proof.
  intros Hd Hok. cbv zeta.
  assert (partitioned (λ e, if nibble_at e depth <? x then Lt else Gt) l) as P1.
  { intros i j a b Hij Ha Hb. pose proof (nibble_sorted _ _ _ _ _ _ Hd Hok Hij Ha Hb).
    destruct (Z.ltb_spec (nibble_at a depth) x), (Z.ltb_spec (nibble_at b depth) x); split; done || lia. }
  assert (partitioned (λ e, if nibble_at e depth <=? x then Lt else Gt) l) as P2.
  { intros i j a b Hij Ha Hb. pose proof (nibble_sorted _ _ _ _ _ _ Hd Hok Hij Ha Hb).
    destruct (Z.leb_spec (nibble_at a depth) x), (Z.leb_spec (nibble_at b depth) x); split; done || lia. }
  destruct (partition_point_split _ _ P1) as [T1 D1]. destruct (partition_point_split _ _ P2) as [T2 _].
  pose proof (partition_point_length _ _ P1) as S1. pose proof (partition_point_length _ _ P2) as S2.
  set (start := partition_point (λ e, nibble_at e depth <? x) l) in *.
  set (end_ := partition_point (λ e, nibble_at e depth <=? x) l) in *.
  assert (start <= end_)%nat as Hle.
  { rewrite S1, S2. rewrite <-(filter_twice (λ e, nibble_at e depth <=? x) (λ e, nibble_at e depth <? x)).
    - apply List.filter_length_le.
    - intros a. destruct (Z.leb_spec (nibble_at a depth) x), (Z.ltb_spec (nibble_at a depth) x);
        done || lia. }
  assert (take (end_ - start) (drop start l) = group depth x l) as Hg.
  { assert (length (take start l) = start) as HlA by (rewrite T1; lia).
    assert (take end_ l = take start l ++ take (end_ - start) (drop start l)) as E.
    { rewrite take_take_drop. f_equal. lia. }
    rewrite T2, <-(take_drop start l) in E at 1. rewrite List.filter_app in E.
    assert (List.filter (λ e, nibble_at e depth <=? x) (take start l) = take start l) as HA.
    { rewrite T1. apply filter_twice. intros a.
      destruct (Z.ltb_spec (nibble_at a depth) x), (Z.leb_spec (nibble_at a depth) x); done || lia. }
    rewrite HA in E. apply app_inv_head in E. rewrite <-E, D1. apply filter_twice. intros a.
    destruct (Z.ltb_spec (nibble_at a depth) x), (Z.leb_spec (nibble_at a depth) x),
      (Z.eqb_spec (nibble_at a depth) x); done || lia. }
  split; [done|]. rewrite <-Hg, <-length_zero_iff_nil, length_take, length_drop.
  assert (end_ <= length l)%nat by (rewrite S2; apply List.filter_length_le). lia.
Qed.

Lemma entries_order depth l i j a b :
  entries_ok depth l → l !! i = Some a → l !! j = Some b → (i <= j)%nat → ¬ tlt b.1 a.1.
Proof.
  intros [Hs _ _] Ha Hb Hij. destruct (decide (i = j)) as [->|Hne].
  - simplify_eq. apply tlt_irrefl.
  - apply tlt_asym. eapply (StronglySorted_lookup_lt _ _ i j); [exact Hs| | |lia];
      rewrite list_lookup_fmap, ?Ha, ?Hb; done.
Qed.

(** Two entries differ somewhere below the shared nibbles. *)
Lemma two_entries depth l e1 e2 :
  entries_ok depth l → e1 ∈ l → e2 ∈ l → e1.1 ≠ e2.1 → (depth < SECURE_KEY_NIBBLES)%nat.
Proof.
  intros [_ Hp Hsh] H1 H2 Hne. rewrite list.Forall_forall in Hp.
  destruct (Hp _ H1) as [L1 _], (Hp _ H2) as [L2 _]. specialize (Hsh _ _ H1 H2).
  destruct (decide (depth < SECURE_KEY_NIBBLES)%nat); [done|].
  rewrite !take_ge in Hsh by lia. done.
Qed.

Lemma entries_two depth a b l :
  entries_ok depth (a :: b :: l) → a.1 ≠ b.1.
Proof.
  intros [Hs _ _] E. rewrite !fmap_cons in Hs. apply StronglySorted_NoDup in Hs.
  apply list.NoDup_cons in Hs as [Hn _]. apply Hn. rewrite E. by left.
Qed.

Lemma common_prefix_ok depth l :
  (depth <= SECURE_KEY_NIBBLES)%nat → entries_ok depth l →
  entries_ok (depth + common_prefix l depth) l ∧ (depth + common_prefix l depth <= SECURE_KEY_NIBBLES)%nat.
Proof.
  intros Hd Hok. unfold common_prefix. destruct l as [|first l].
  { rewrite Nat.add_0_r. split; [done|lia]. }
  destruct (list.last (first :: l)) as [lst|] eqn:Hlast.
  2:{ rewrite Nat.add_0_r. split; [done|lia]. }
  rewrite last_lookup in Hlast. set (c := equal_prefix _ _).
  pose proof Hok as [Hs Hp Hsh]. rewrite list.Forall_forall in Hp.
  pose proof (list_elem_of_lookup_2 _ _ _ Hlast) as Hin.
  assert (take (depth + c) first.1 = take (depth + c) lst.1) as Hfl.
  { rewrite <-!take_take_drop. f_equal; [apply Hsh; [by left|done]|]. apply equal_prefix_take. }
  assert (∀ e, e ∈ first :: l → take (depth + c) e.1 = take (depth + c) first.1) as Hall.
  { intros e He. pose proof He as [i Hi]%list_elem_of_lookup.
    destruct (Hp _ He) as [Le _], (Hp first ltac:(by left)) as [Lf _], (Hp _ Hin) as [Ll _].
    apply (lex_between _ first.1 e.1 lst.1); [lia|lia| | |done].
    - apply (entries_order depth (first :: l) 0 i); [done|done|done|lia].
    - eapply (entries_order depth (first :: l) i); [done|done|exact Hlast|].
      apply lookup_lt_Some in Hi. lia. }
  split.
  - split; [done|by apply list.Forall_forall|]. intros e1 e2 H1 H2. by rewrite (Hall e1), (Hall e2).
  - pose proof (equal_prefix_length (drop depth first.1) (drop depth lst.1)) as Hc. fold c in Hc.
    rewrite length_drop in Hc. destruct (Hp first ltac:(by left)) as [Lf _]. lia.
Qed.

(** ** Nodes as they are written and read *)

Section build.
Context `{Keccak, AlloyRlp, !EthereumRlp}.

(** A built node: the list encoding and its hash. *)
Definition built_ok (b : BuiltNode) : Prop :=
  built_hash b = keccak256 (built_encoded b) ∧ ∃ p, built_encoded b = item_encoding KList p.

Definition child_ref (b : BuiltNode) : ChildReference :=
  if (length (built_encoded b) <? 32)%nat then Embedded (built_encoded b) else Hash (built_hash b).

Lemma child_written b :
  built_ok b → ∃ it, item_written (child_item b) it ∧ decode_child it = Ok (Some (child_ref b)).
Proof.
  intros (Hh & p & Hp). unfold child_item, child_ref.
  destruct (Nat.ltb_spec (length (built_encoded b)) 32) as [Hlt|Hge].
  - exists {| item_raw := built_encoded b; item_payload := p; item_kind := KList |}.
    split; [done|]. unfold decode_child. cbn [item_kind item_raw].
    by rewrite (proj2 (Nat.leb_gt _ _)).
  - eexists. split; [done|]. unfold decode_child. cbn [item_kind item_payload].
    by rewrite Hh, keccak256_length.
Qed.

Lemma child_item_short b : built_ok b → (length (field_bytes (child_item b)) <= 32)%nat.
Proof.
  intros [Hh _]. unfold child_item. destruct (Nat.ltb_spec (length (built_encoded b)) 32); cbn; [lia|].
  by rewrite Hh, keccak256_length.
Qed.

Lemma resolve_child_ref store b :
  built_ok b → store (keccak256 (built_encoded b)) = Ok (Some (built_encoded b)) →
  resolve_child store (child_ref b) = Ok (built_encoded b).
Proof.
  intros [Hh _] Hs. unfold child_ref. destruct (_ <? 32)%nat; [done|]. cbn.
  apply load_hashed_Ok. by rewrite Hh.
Qed.

Lemma length_compact path leaf : (length (compact_encode path leaf) <= S (length path))%nat.
Proof.
  assert (∀ p, (length (join_pairs p) <= length p)%nat) as Hj.
  { fix IH 1. intros [|h [|l p]]; cbn [join_pairs length]; [lia|lia|]. specialize (IH p). lia. }
  unfold compact_encode. destruct (Nat.odd (length path)).
  - destruct path as [|x path]; cbn [length]; [lia|]. specialize (Hj path). lia.
  - cbn [length]. specialize (Hj path). lia.
Qed.

(** A node of two fields, read back. *)
Lemma short_node_read path leaf item it :
  Forall is_nibble path → (length path <= SECURE_KEY_NIBBLES)%nat →
  item_written item it → zlen (field_bytes item) < 2 ^ 33 →
  let encoded := encode_items [EBytes (compact_encode path leaf); item] in
  (∃ p, encoded = item_encoding KList p) ∧
  decode_node encoded =
    decode_short_node
      {| item_raw := Spec.encode_str (compact_encode path leaf);
         item_payload := compact_encode path leaf; item_kind := KBytes |} it.
Proof.
  intros Hp Hl Hw Hz encoded.
  pose proof (length_compact path leaf). unfold SECURE_KEY_NIBBLES in *.
  destruct (encode_items_read [EBytes (compact_encode path leaf); item]
    [{| item_raw := Spec.encode_str (compact_encode path leaf);
        item_payload := compact_encode path leaf; item_kind := KBytes |}; it]) as (Hd & He & _).
  - constructor; [done|]. by constructor.
  - done.
  - unfold small. rewrite !bind_cons. cbn [mbind list_bind].
    rewrite app_nil_r, zlen_app. cbn [field_bytes].
    unfold zlen in *. lia.
  - split; [by eexists|]. unfold decode_node, encoded. by rewrite Hd.
Qed.

(** ** What building gives *)

(** The store after the builder inserted the encodings, in order. *)
Definition inserts (encs : list bytes) (nodes : btree bytes bytes) : btree bytes bytes :=
  foldl (λ m e, binsert (keccak256 e) e m) nodes encs.

Definition holds (store : node_store) (encs : list bytes) : Prop :=
  ∀ e, e ∈ encs → store (keccak256 e) = Ok (Some e).

Definition entry_for (key : bytes) (entries : list entry) (v : option bytes) : Prop :=
  match v with
  | Some x => (unpack_nibbles key, x) ∈ entries
  | None => ∀ e, e ∈ entries → e.1 ≠ unpack_nibbles key
  end.

(** No two paths agree on all but the last nibble. *)
Definition near_free (entries : list entry) : Prop :=
  ∀ e1 e2, e1 ∈ entries → e2 ∈ entries →
    take (SECURE_KEY_NIBBLES - 1) e1.1 = take (SECURE_KEY_NIBBLES - 1) e2.1 → e1.1 = e2.1.

(** Looking the target up from a node at that depth ends at a node refused for
    its empty path. *)
Definition rejects (store : node_store) (encoded : bytes) (depth : nat) (target : nibbles) : Prop :=
  ∀ fuel nodes, (SECURE_KEY_NIBBLES + 1 - depth <= fuel)%nat →
    proof_loop fuel store target encoded depth nodes =
      Err (InvalidPath "empty leaf/extension path").

(** The entry has no nibble left, or shares all but the last with another. *)
Definition doomed (depth : nat) (entries : list entry) (e : entry) : Prop :=
  e ∈ entries ∧
  (depth = SECURE_KEY_NIBBLES ∨
   ∃ e', e' ∈ entries ∧ e.1 ≠ e'.1 ∧
     take (SECURE_KEY_NIBBLES - 1) e.1 = take (SECURE_KEY_NIBBLES - 1) e'.1).

Record build_result (depth : nat) (entries : list entry) (b : BuiltNode) (encs : list bytes)
    : Prop := {
  br_node : built_ok b;
  br_in : built_encoded b ∈ encs;
  br_finds : ∀ store, holds store encs → near_free entries → (depth < SECURE_KEY_NIBBLES)%nat →
    ∀ key, is_b256 key → (∀ e, e ∈ entries → take depth e.1 = take depth (unpack_nibbles key)) →
    ∃ v, finds store (built_encoded b) depth key v ∧ entry_for key entries v;
  br_rejects : ∀ store, holds store encs → ∀ e, doomed depth entries e →
    rejects store (built_encoded b) depth e.1;
}.

Definition built_of (encoded : bytes) : BuiltNode :=
  {| built_encoded := encoded; built_hash := keccak256 encoded |}.

Lemma leaf_result depth path value :
  entries_ok depth [(path, value)] → (depth <= SECURE_KEY_NIBBLES)%nat →
  let encoded := encode_items [EBytes (compact_encode (drop depth path) true); EBytes value] in
  build_result depth [(path, value)] (built_of encoded) [encoded].
Proof.
  intros [_ Hp _] Hd encoded. apply Forall_singleton in Hp as (Hl & Hn & Hv). cbn [fst snd] in *.
  assert (Forall is_nibble (drop depth path)) as Hnd by (by apply Forall_drop).
  destruct (short_node_read (drop depth path) true (EBytes value)
    {| item_raw := Spec.encode_str value; item_payload := value; item_kind := KBytes |})
    as [He Hdec]; [done|rewrite length_drop; lia|done|cbn; lia|].
  split; [by split|by left| |].
  2:{ intros store _ e [->%list_elem_of_singleton [->|(e' & ->%list_elem_of_singleton & Hne & _)]] fuel nodes Hf;
        [|done].
      destruct fuel as [|fuel]; [unfold SECURE_KEY_NIBBLES in Hf; lia|].
      cbn [proof_loop built_of built_encoded]. fold encoded. unfold encoded at 1. rewrite Hdec.
      unfold decode_short_node. cbn [item_kind item_payload]. rewrite compact_roundtrip by done.
      by rewrite drop_ge by lia. }
  intros store _ _ Hlt key Hkey Hb.
  specialize (Hb (path, value) ltac:(by left)). cbn [fst] in Hb.
  assert (decode_node encoded = Ok (Leaf (drop depth path) value)) as Hn2.
  { unfold encoded. rewrite Hdec. unfold decode_short_node. cbn [item_kind item_payload].
    rewrite compact_roundtrip by done. cbn [obind bool_decide].
    destruct (drop depth path) eqn:E; [|done]. apply (f_equal length) in E.
    rewrite length_drop in E. cbn in E. lia. }
  exists (if bool_decide (drop depth (unpack_nibbles key) = drop depth path) then Some value else None).
  split.
  - intros [|fuel] nodes Hf; [lia|]. cbn [proof_loop built_of built_encoded]. fold encoded.
    rewrite Hn2. cbn [obind]. eauto.
  - case_bool_decide as E; cbn.
    + apply list_elem_of_singleton. f_equal.
      rewrite <-(take_drop depth path), <-(take_drop depth (unpack_nibbles key)). congruence.
    + intros e ->%list_elem_of_singleton Hk. cbn in Hk. congruence.
Qed.

Lemma built_small b : built_ok b → zlen (field_bytes (child_item b)) < 2 ^ 33.
Proof. intros Hb. pose proof (child_item_short b Hb). unfold zlen. lia. Qed.

(** An extension follows its child when the key has its nibbles. *)
Lemma extension_result depth common entries child encs first :
  first ∈ entries → path_ok first → (1 <= common)%nat →
  (depth + common < SECURE_KEY_NIBBLES)%nat →
  (∀ e, e ∈ entries → take (depth + common) e.1 = take (depth + common) first.1) →
  build_result (depth + common) entries child encs →
  let encoded :=
    encode_items [EBytes (compact_encode (take common (drop depth first.1)) false); child_item child] in
  build_result depth entries (built_of encoded) (encs ++ [encoded]).
Proof.
  intros Hfi (Hl & Hn & _) Hc Hdc Hsh [Hb Hin Hfinds Hrej] encoded.
  set (ext := take common (drop depth first.1)) in *.
  assert (length ext = common) as Hle by (unfold ext; rewrite length_take, length_drop; lia).
  assert (Forall is_nibble ext) as Hne by (by apply Forall_take, Forall_drop).
  destruct (child_written child Hb) as (it & Hw & Hdc').
  destruct (short_node_read ext false (child_item child) it) as [He Hdec];
    [done|lia|done|by apply built_small|].
  assert (decode_node encoded = Ok (Extension ext (child_ref child))) as Hnode.
  { unfold encoded. rewrite Hdec. unfold decode_short_node. cbn [item_kind item_payload].
    rewrite compact_roundtrip by done. cbn [obind bool_decide].
    destruct ext eqn:E; [cbn in Hle; lia|]. cbn. rewrite Hdc'. done. }
  assert (∀ store, holds store (encs ++ [encoded]) →
    resolve_child store (child_ref child) = Ok (built_encoded child) ∧ holds store encs) as Hhold.
  { intros store Hst. split; [apply resolve_child_ref; [done|]; apply Hst, elem_of_app; by left|].
    intros e Hee. apply Hst, elem_of_app. by left. }
  split; [by split|apply elem_of_app; right; by left| |].
  2:{ intros store [Hres Hst]%Hhold e [He1 Hor] [|fuel] nodes Hf; [lia|].
      destruct Hor as [->|Hor]; [lia|]. cbn [proof_loop built_of built_encoded]. fold encoded.
      rewrite Hnode. cbn [obind]. rewrite Hle, bool_decide_true.
      - cbn [negb]. rewrite Hres. cbn [obind]. apply Hrej; [done| |lia]. split; auto.
      - unfold ext. specialize (Hsh e He1). apply (f_equal (drop depth)) in Hsh.
        by rewrite <-!take_drop_commute in Hsh. }
  intros store [Hres Hst]%Hhold Hnf Hlt key Hkey Hb'.
  assert (take depth first.1 = take depth (unpack_nibbles key)) as Hfd by (by apply Hb').
  destruct (decide (take common (drop depth (unpack_nibbles key)) = ext)) as [E|E].
  - destruct (Hfinds store) with (key := key) as (v & Hv & Hf); [done|done|lia|done| |].
    { intros e Hee. rewrite (Hsh e Hee), <-!take_take_drop. fold ext. congruence. }
    exists v. split; [|done]. intros [|fuel] nodes Hfu; [lia|]. cbn [proof_loop built_of built_encoded].
    fold encoded. rewrite Hnode. cbn [obind]. rewrite Hle, bool_decide_true by done. cbn [negb].
    rewrite Hres. cbn [obind]. apply Hv. lia.
  - exists None. split.
    + intros [|fuel] nodes Hfu; [lia|]. cbn [proof_loop built_of built_encoded]. fold encoded.
      rewrite Hnode. cbn [obind]. rewrite Hle, bool_decide_false by done. cbn [negb]. eauto.
    + intros e Hee Hk. apply E. unfold ext. specialize (Hsh e Hee). rewrite Hk in Hsh.
      apply (f_equal (drop depth)) in Hsh. rewrite <-!take_drop_commute in Hsh. done.
Qed.

Definition opt_item (o : option BuiltNode) : EncodedItem :=
  match o with Some b => child_item b | None => EBytes [] end.

Definition opt_ok (o : option BuiltNode) : Prop :=
  match o with Some b => built_ok b | None => True end.

Lemma opts_written opts :
  Forall opt_ok opts →
  ∃ its, Forall2 item_written (opt_item <$> opts) its ∧
    Forall2 (λ it c, decode_child it = Ok c) its (option_map child_ref <$> opts).
Proof.
  induction 1 as [|o opts Ho _ (its & Hw & Hc)]; [by exists []|].
  destruct o as [b|].
  - destruct (child_written b Ho) as (it & Hit & Hd). exists (it :: its). by split; constructor.
  - exists ({| item_raw := Spec.encode_str []; item_payload := []; item_kind := KBytes |} :: its).
    by split; constructor.
Qed.

Lemma opts_size opts :
  Forall opt_ok opts → zlen ((opt_item <$> opts) ≫= field_bytes) ≤ 32 * zlen opts.
Proof.
  induction 1 as [|o opts Ho _ IH]; [done|]. rewrite fmap_cons, bind_cons, zlen_app, zlen_cons.
  assert (zlen (field_bytes (opt_item o)) ≤ 32); [|lia].
  destruct o as [b|]; [|done]. pose proof (child_item_short b Ho). unfold zlen. cbn. lia.
Qed.

Lemma branch_read opts :
  length opts = 16%nat → Forall opt_ok opts →
  let encoded := encode_items ((opt_item <$> opts) ++ [EBytes []]) in
  (∃ p, encoded = item_encoding KList p) ∧
  decode_node encoded = Ok (Branch (option_map child_ref <$> opts)).
Proof.
  intros Hlen Hok encoded. destruct (opts_written opts Hok) as (its & Hw & Hc).
  set (last := {| item_raw := Spec.encode_str []; item_payload := []; item_kind := KBytes |}).
  pose proof (Forall2_length Hw) as Hl. rewrite length_fmap, Hlen in Hl.
  destruct (encode_items_read ((opt_item <$> opts) ++ [EBytes []]) (its ++ [last])) as (Hd & He & _).
  - apply Forall2_app; [done|]. by constructor.
  - unfold zlen. rewrite length_app, length_fmap, Hlen. done.
  - unfold small. rewrite bind_app, zlen_app. pose proof (opts_size opts Hok).
    change (zlen ([EBytes []] ≫= field_bytes)) with 0. unfold zlen in *. lia.
  - split; [by eexists|]. unfold decode_node, encoded. rewrite Hd. cbn [obind].
    rewrite length_app, <-Hl. cbn [length Nat.add Nat.eqb].
    rewrite lookup_app_r by lia. rewrite <-Hl. cbn [Nat.sub lookup list_lookup expect obind].
    unfold decode_branch_node. cbn [item_kind item_payload last bool_decide length negb orb Nat.eqb].
    rewrite take_app_le, take_ge by lia. by rewrite (proj2 (collect_Ok _ _ _) Hc).
Qed.

(** Each nibble has the node of its group, or none. *)
Definition groups_built (depth : nat) (entries : list entry) (encs : list bytes) (x : Z)
    (o : option BuiltNode) : Prop :=
  match o with
  | None => group depth x entries = []
  | Some b => ∃ encs', encs' ⊆ encs ∧ build_result (S depth) (group depth x entries) b encs'
  end.

Lemma groups_built_ok depth entries encs xs opts :
  Forall2 (groups_built depth entries encs) xs opts → Forall opt_ok opts.
Proof.
  induction 1 as [|x o xs opts Ho _ IH]; constructor; [|done].
  destruct o as [b|]; [|done]. destruct Ho as (e & _ & Hb). apply Hb.
Qed.

Lemma near_free_group depth x entries : near_free entries → near_free (group depth x entries).
Proof. intros Hn e1 e2 [He1 _]%group_elem [He2 _]%group_elem. by apply Hn. Qed.

Lemma nibble_value_at x : is_nibble x → nibble_values !! Z.to_nat x = Some x.
Proof.
  intros Hx%is_nibble_values. unfold nibble_values in *.
  rewrite !elem_of_cons, elem_of_nil in Hx. naive_solver.
Qed.

(** A branch passes the look-up on to the child of the next nibble. *)
Lemma branch_step store encoded opts depth target x c fuel nodes :
  decode_node encoded = Ok (Branch (option_map child_ref <$> opts)) →
  (depth < SECURE_KEY_NIBBLES)%nat → target !! depth = Some x → opts !! Z.to_nat x = Some (Some c) →
  built_ok c → store (keccak256 (built_encoded c)) = Ok (Some (built_encoded c)) →
  proof_loop (S fuel) store target encoded depth nodes =
    proof_loop fuel store target (built_encoded c) (S depth) (nodes ++ [encoded]).
Proof.
  intros Hdec Hlt Hx Ho Hc Hst. cbn [proof_loop]. rewrite Hdec. cbn [obind].
  rewrite (proj2 (Nat.leb_gt _ _)) by done. rewrite Hx. cbn [default from_option id].
  rewrite list_lookup_fmap, Ho. cbn. by rewrite resolve_child_ref.
Qed.

(** Below a branch the entry is at its end, or still beside the other one. *)
Lemma doomed_group depth entries e :
  entries_ok depth entries → (depth < SECURE_KEY_NIBBLES)%nat → doomed depth entries e →
  doomed (S depth) (group depth (nibble_at e depth) entries) e.
Proof.
  intros Hok Hlt [He Hor]. split; [by apply group_elem|].
  destruct (decide (S depth = SECURE_KEY_NIBBLES)) as [|Hne]; [by left|]. right.
  destruct Hor as [->|(e' & He' & Hd & Ht)]; [lia|]. exists e'. split_and!; [|done|done].
  apply group_elem. split; [done|]. unfold nibble_at.
  by rewrite <-(lookup_take_lt e'.1 (SECURE_KEY_NIBBLES - 1)), <-Ht, lookup_take_lt by lia.
Qed.

Lemma branch_rejects depth entries opts encs encoded store e :
  entries_ok depth entries → (depth < SECURE_KEY_NIBBLES)%nat →
  Forall2 (groups_built depth entries encs) nibble_values opts →
  decode_node encoded = Ok (Branch (option_map child_ref <$> opts)) →
  holds store encs → doomed depth entries e → rejects store encoded depth e.1.
Proof.
  intros Hok Hlt Hg Hdec Hst Hdo. pose proof Hok as [_ Hp _]. rewrite list.Forall_forall in Hp.
  destruct (Hp e (proj1 Hdo)) as (Hl & Hn & _).
  pose proof (doomed_group _ _ _ Hok Hlt Hdo) as Hdg.
  destruct (lookup_lt_is_Some_2 e.1 depth) as [x Hx]; [lia|].
  unfold nibble_at in Hdg. rewrite Hx in Hdg. cbn [default from_option id] in Hdg.
  assert (is_nibble x) as Hnx by (rewrite Forall_lookup in Hn; by eapply Hn).
  destruct (Forall2_lookup_l _ _ _ _ _ Hg (nibble_value_at x Hnx)) as (o & Ho & Hgo).
  destruct o as [c|]; cbn in Hgo.
  2:{ destruct Hdg as [Hin _]. rewrite Hgo in Hin. by apply elem_of_nil in Hin. }
  destruct Hgo as (encs' & Hsub & [Hc Hin _ Hrej]). intros [|fuel] nodes Hf; [lia|].
  rewrite (branch_step _ _ _ _ _ _ c) with (1 := Hdec) (3 := Hx) by eauto.
  apply Hrej; [by intros z Hz%Hsub%Hst|done|lia].
Qed.

Lemma branch_result depth entries opts encs a b :
  entries_ok depth entries → a ∈ entries → b ∈ entries → a.1 ≠ b.1 →
  Forall2 (groups_built depth entries encs) nibble_values opts →
  let encoded := encode_items ((opt_item <$> opts) ++ [EBytes []]) in
  build_result depth entries (built_of encoded) (encs ++ [encoded]).
Proof.
  intros Hok Ha Hb Hab Hg encoded. pose proof (Forall2_length Hg) as H16. cbn in H16.
  destruct (branch_read opts) as [He Hdec]; [done|by eapply groups_built_ok|].
  fold encoded in Hdec.
  split; [by split|apply elem_of_app; right; by left| |].
  2:{ intros store Hst e Hdo. eapply branch_rejects;
        [done|by eapply (two_entries _ _ a b)|done|done| |done].
      intros z Hz. apply Hst, elem_of_app. by left. }
  intros store Hst Hnf Hlt key Hkey Hpre.
  assert (S depth < SECURE_KEY_NIBBLES)%nat as Hlt2.
  { destruct (decide (S depth < SECURE_KEY_NIBBLES)%nat); [done|]. exfalso.
    apply Hab, (Hnf a b Ha Hb). replace (SECURE_KEY_NIBBLES - 1)%nat with depth by lia. by apply Hok. }
  destruct (lookup_lt_is_Some_2 (unpack_nibbles key) depth) as [x Hx]; [by rewrite length_unpack|].
  assert (is_nibble x) as Hnx.
  { pose proof (split_bytes_nibbles key) as Hall. rewrite Forall_lookup in Hall. by eapply Hall. }
  pose proof (nibble_value_at x Hnx) as Hvx.
  destruct (Forall2_lookup_l _ _ _ _ _ Hg Hvx) as (o & Ho & Hgo).
  assert (∀ e, e ∈ entries → e.1 = unpack_nibbles key → nibble_at e depth = x) as Hnib.
  { intros e _ Hk. unfold nibble_at. by rewrite Hk, Hx. }
  destruct o as [c|]; cbn in Hgo.
  - destruct Hgo as (encs' & Hsub & [Hc Hin Hf _]).
    destruct (Hf store) with (key := key) as (v & Hv & Hent).
    { intros e Hee. apply Hst, elem_of_app. left. by apply Hsub. }
    { by apply near_free_group. } { done. } { done. }
    { intros e [Hee Hne]%group_elem. destruct Hok as [_ Hp _]. rewrite list.Forall_forall in Hp.
      destruct (Hp e Hee) as [Hl _]. rewrite (take_succ_default e.1), (take_succ_default (unpack_nibbles key))
        by (rewrite ?length_unpack by done; lia).
      rewrite (Hpre e Hee). unfold nibble_at in Hne. by rewrite Hne, Hx. }
    exists v. split.
    + intros [|fuel] nodes Hfu; [lia|]. cbn [built_of built_encoded]. fold encoded.
      rewrite (branch_step _ _ _ _ _ _ c) with (1 := Hdec) (3 := Hx); [|done..|].
      { apply Hv. lia. }
      apply Hst, elem_of_app. left. by apply Hsub.
    + destruct v as [y|]; cbn in *; [by apply group_elem in Hent as [? _]|].
      intros e Hee Hk. apply (Hent e); [|done]. apply group_elem. auto.
  - exists None. split.
    + intros [|fuel] nodes Hfu; [lia|]. cbn [proof_loop built_of built_encoded]. fold encoded.
      rewrite Hdec. cbn [obind]. rewrite (proj2 (Nat.leb_gt _ _)) by done. rewrite Hx.
      cbn [default from_option id]. rewrite list_lookup_fmap, Ho. cbn. eauto.
    + intros e Hee Hk. assert (e ∈ group depth x entries) as Hin by (apply group_elem; auto).
      rewrite Hgo in Hin. by apply elem_of_nil in Hin.
Qed.

(** An encoding written for some of the entries. *)
Definition range_node (entries : list entry) (e : bytes) : Prop :=
  ∃ fuel sub depth nodes nodes' b,
    sub ⊆ entries ∧ build_node fuel sub depth nodes = Ok (b, nodes') ∧ built_encoded b = e.

Lemma range_node_sub sub entries e : sub ⊆ entries → range_node sub e → range_node entries e.
Proof.
  intros Hs (f & s & d & n & n' & b & Hss & Hb & He). exists f, s, d, n, n', b.
  split; [|done]. by intros z Hz%Hss%Hs.
Qed.

(** Building these entries at this depth writes these encodings, the last one
    the node's own. *)
Definition builds (fuel depth : nat) (entries : list entry) (b : BuiltNode) (encs : list bytes) : Prop :=
  (∀ nodes, build_node fuel entries depth nodes = Ok (b, inserts encs nodes)) ∧
  Forall (range_node entries) encs ∧ build_result depth entries b encs.

Lemma builds_node fuel depth entries b encs :
  (∀ nodes, build_node fuel entries depth nodes = Ok (b, inserts (encs ++ [built_encoded b]) nodes)) →
  Forall (range_node entries) encs → build_result depth entries b (encs ++ [built_encoded b]) →
  builds fuel depth entries b (encs ++ [built_encoded b]).
Proof.
  intros Hb Hr Hres. split; [done|]. split; [|done]. apply Forall_app. split; [done|].
  constructor; [|done]. exists fuel, entries, depth, [], (inserts (encs ++ [built_encoded b]) []), b.
  by split_and!.
Qed.

Lemma inserts_app encs1 encs2 nodes :
  inserts (encs1 ++ encs2) nodes = inserts encs2 (inserts encs1 nodes).
Proof. apply foldl_app. Qed.

Lemma groups_built_weaken depth entries encs encs' xs opts :
  encs ⊆ encs' →
  Forall2 (groups_built depth entries encs) xs opts →
  Forall2 (groups_built depth entries encs') xs opts.
Proof.
  intros Hsub Hg. eapply list.Forall2_impl; [exact Hg|]. intros x [b|]; [|done].
  intros (e & He & Hb). exists e. split; [by intros z Hz%He%Hsub|done].
Qed.

(** The branch loop, when every group of entries can be built. *)
Lemma branch_loop fuel depth entries xs :
  (depth < SECURE_KEY_NIBBLES)%nat → entries_ok depth entries →
  (∀ x, group depth x entries ≠ [] →
    ∃ b encs, builds fuel (S depth) (group depth x entries) b encs) →
  ∃ opts encs, Forall (range_node entries) encs ∧
    (∀ items nodes, for_each (branch_item (build_node fuel) entries depth) (items, nodes) xs =
      Ok (items ++ (opt_item <$> opts), inserts encs nodes)) ∧
    Forall2 (groups_built depth entries encs) xs opts.
Proof.
  intros Hd Hok Hb. induction xs as [|x xs (opts & encs & Hrn & Hl & Hg)].
  { exists [], []. split; [done|]. split; [|done]. intros items nodes. cbn. by rewrite app_nil_r. }
  destruct (range_group depth x entries Hd Hok) as [Hr Hse].
  destruct (decide (group depth x entries = [])) as [E|E].
  - exists (None :: opts), encs. split; [done|]. split; [|by constructor]. intros items nodes.
    cbn [for_each branch_item]. rewrite (proj2 (Nat.eqb_eq _ _)) by tauto. cbn [obind].
    rewrite Hl, <-app_assoc. done.
  - destruct (Hb x E) as (b & encs' & Hbu & Hrn' & Hbr).
    exists (Some b :: opts), (encs' ++ encs). split.
    { apply Forall_app. split; [|done]. eapply list.Forall_impl; [exact Hrn'|]. intros e.
      apply range_node_sub. by intros z [Hz _]%group_elem. }
    split.
    + intros items nodes. cbn [for_each branch_item].
      rewrite (proj2 (Nat.eqb_neq _ _)) by tauto. rewrite Hr, Hbu. cbn [obind].
      rewrite Hl, <-app_assoc, inserts_app. done.
    + constructor; [exists encs'; split; [intros z Hz; apply elem_of_app; by left|done]|].
      eapply groups_built_weaken; [|done]. intros z Hz. apply elem_of_app. by right.
Qed.

(** [build_node] on two or more entries, by what it does on smaller ranges. *)
Lemma build_node_many fuel depth a c l :
  (∀ depth' entries', entries_ok depth' entries' → entries' ≠ [] →
    (depth' <= SECURE_KEY_NIBBLES)%nat → (depth < depth')%nat →
    ∃ b encs, builds fuel depth' entries' b encs) →
  entries_ok depth (a :: c :: l) → (depth <= SECURE_KEY_NIBBLES)%nat →
  ∃ b encs, builds (S fuel) depth (a :: c :: l) b encs.
Proof.
  intros IH Hok Hd. pose proof (entries_two _ _ _ _ Hok) as Hac.
  destruct (common_prefix_ok _ _ Hd Hok) as [Hok' Hd'].
  assert (a ∈ a :: c :: l) as Ha by (by left). assert (c ∈ a :: c :: l) as Hc by (right; by left).
  assert ((SECURE_KEY_NIBBLES <? depth)%nat = false) as Hdb by (by apply Nat.ltb_ge).
  destruct a as [path value]. set (entries := (path, value) :: c :: l) in *.
  destruct (Nat.ltb_spec 0 (common_prefix entries depth)) as [Hcm|Hcm].
  - destruct (IH _ entries Hok') as (b & encs & Hb & Hrn & Hr); [done|done|lia|].
    pose proof (two_entries _ _ _ _ Hok' Ha Hc Hac) as Hlt.
    pose proof Hok' as [_ Hp Hsh]. rewrite list.Forall_forall in Hp.
    eexists (built_of _), (encs ++ [_]). apply builds_node; [|done|].
    2:{ apply (extension_result depth (common_prefix entries depth) entries b encs (path, value));
        auto. }
    intros nodes. cbn [build_node length Nat.eqb orb entries]. fold entries. rewrite Hdb.
    rewrite (proj2 (Nat.ltb_lt _ _)) by done. rewrite Hb. cbn [obind]. by rewrite inserts_app.
  - pose proof (two_entries _ _ _ _ Hok Ha Hc Hac) as Hlt.
    destruct (branch_loop fuel depth entries nibble_values Hlt Hok) as (opts & encs & Hrn & Hl & Hg).
    { intros x Hx. apply IH; [by apply group_ok|done|lia|lia]. }
    eexists (built_of _), (encs ++ [_]). apply builds_node; [|done|].
    2:{ by apply (branch_result depth entries opts encs (path, value) c). }
    intros nodes. cbn [build_node length Nat.eqb orb entries]. fold entries. rewrite Hdb.
    rewrite (proj2 (Nat.ltb_ge _ _)) by done. rewrite (proj2 (Nat.leb_gt _ _)) by done.
    rewrite Hl. cbn [obind app]. by rewrite inserts_app.
Qed.

(** [build_node] succeeds on every range of entries and writes nodes through
    which every key of the range is found. *)
Lemma build_node_spec fuel depth entries :
  entries_ok depth entries → entries ≠ [] → (depth <= SECURE_KEY_NIBBLES)%nat →
  (SECURE_KEY_NIBBLES + 2 <= fuel + depth)%nat →
  ∃ b encs, builds fuel depth entries b encs.
Proof.
  revert depth entries. induction fuel as [|fuel IH]; intros depth entries Hok Hne Hd Hf; [lia|].
  destruct entries as [|a [|c l]]; [done| |].
  - destruct a as [path value]. pose proof (leaf_result depth path value Hok Hd) as Hr.
    eexists (built_of _), ([] ++ [_]). apply builds_node; [|done|exact Hr].
    intros nodes. cbn [build_node length Nat.eqb orb].
    rewrite (proj2 (Nat.ltb_ge _ _)) by done. destruct Hok as [_ Hp _].
    apply Forall_singleton in Hp as [Hp _]. cbn [fst] in Hp.
    by rewrite (proj2 (Nat.ltb_ge _ _)) by lia.
  - apply build_node_many; [|done|done]. intros depth' entries' ????. apply IH; [done..|lia].
Qed.

(** ** Snapshots *)

Definition collision (P : bytes → Prop) : Prop :=
  ∃ e1 e2, P e1 ∧ P e2 ∧ e1 ≠ e2 ∧ keccak256 e1 = keccak256 e2.

Lemma inserts_addressed encs h e nodes :
  bget h (inserts encs nodes) = Some e → bget h nodes = Some e ∨ (e ∈ encs ∧ h = keccak256 e).
Proof.
  revert nodes. induction encs as [|c encs IH]; intros nodes Hg; [by left|]. cbn in Hg.
  apply IH in Hg as [Hg|[Hin ->]]; [|right; split; [by right|done]].
  rewrite bget_binsert in Hg. destruct (teqb h (keccak256 c)) eqn:E; [|by left].
  apply teqb_eq in E as ->. injection Hg as <-. right. split; [by left|done].
Qed.

Lemma inserts_kept encs h nodes :
  is_Some (bget h nodes) → is_Some (bget h (inserts encs nodes)).
Proof.
  revert nodes. induction encs as [|c encs IH]; intros nodes Hg; [done|]. cbn. apply IH.
  rewrite bget_binsert. by destruct (teqb h (keccak256 c)).
Qed.

Lemma inserts_in encs e nodes : e ∈ encs → is_Some (bget (keccak256 e) (inserts encs nodes)).
Proof.
  intros (l1 & l2 & ->)%list_elem_of_split. rewrite inserts_app. cbn. apply inserts_kept.
  by rewrite bget_binsert_eq.
Qed.

Lemma inserts_sorted encs nodes : sorted nodes → sorted (inserts encs nodes).
Proof.
  revert nodes. induction encs as [|c encs IH]; intros nodes Hs; [done|]. cbn.
  by apply IH, sorted_binsert.
Qed.

(** Every encoding written is still there, unless two of them collide. *)
Lemma inserts_holds encs (P : bytes → Prop) :
  Forall P encs → holds (memory_store (inserts encs [])) encs ∨ collision P.
Proof.
  intros HP. rewrite list.Forall_forall in HP.
  assert (∀ l, l ⊆ encs → holds (memory_store (inserts encs [])) l ∨ collision P) as Hl; [|by apply Hl].
  induction l as [|e l IH]; intros Hsub; [left; by intros e He%elem_of_nil|].
  destruct IH as [Hh|]; [by intros z Hz; apply Hsub; right| |by right].
  assert (e ∈ encs) as He by (apply Hsub; by left).
  destruct (inserts_in encs e [] He) as [e' He'].
  destruct (decide (e' = e)) as [->|Hne].
  - left. intros z [->|Hz]%elem_of_cons; [|by apply Hh]. unfold memory_store. by rewrite He'.
  - right. apply inserts_addressed in He' as [?|[Hin Heq]]; [done|].
    exists e, e'. split_and!; auto.
Qed.
End build.

(** The leaves of a trie: 32-byte keys in order, values of bounded size. *)
Record leaves_ok (leaves : btree bytes bytes) : Prop := {
  lo_sorted : sorted leaves;
  lo_leaves : Forall (λ l, is_b256 l.1 ∧ zlen l.2 < 2 ^ 32) leaves;
  lo_count : zlen leaves ≤ umax 32;
}.

(** No two keys agree on all but their last nibble. *)
Definition keys_apart (leaves : btree bytes bytes) : Prop :=
  ∀ k1 k2, k1 ∈ bkeys leaves → k2 ∈ bkeys leaves →
    take (SECURE_KEY_NIBBLES - 1) (unpack_nibbles k1) =
    take (SECURE_KEY_NIBBLES - 1) (unpack_nibbles k2) → k1 = k2.

Definition leaf_entries (leaves : btree bytes bytes) : list entry :=
  (λ l, (unpack_nibbles l.1, l.2)) <$> leaves.

Lemma leaf_entries_ok leaves : leaves_ok leaves → entries_ok 0 (leaf_entries leaves).
Proof.
  intros [Hs Hl _]. split; [| |done].
  - unfold leaf_entries. rewrite <-list_fmap_compose. eapply StronglySorted_fmap_mono; [|exact Hs].
    intros a b. unfold tlt. cbn. by rewrite nibble_order.
  - rewrite list.Forall_forall in Hl. apply list.Forall_forall.
    intros e (l & -> & Hin)%list_elem_of_fmap. destruct (Hl l Hin) as [Hk Hv]. split_and!; [by apply length_unpack|apply split_bytes_nibbles|done].
Qed.

Lemma unpack_inj k1 k2 : is_b256 k1 → is_b256 k2 → unpack_nibbles k1 = unpack_nibbles k2 → k1 = k2.
Proof.
  intros H1 H2 E. pose proof (pack_unpack k1 H1) as E1. rewrite E, pack_unpack in E1 by done. congruence.
Qed.

Lemma leaf_entries_apart leaves : keys_apart leaves → near_free (leaf_entries leaves).
Proof.
  intros Ha e1 e2 (l1 & -> & H1)%list_elem_of_fmap (l2 & -> & H2)%list_elem_of_fmap Ht.
  cbn [fst] in *. f_equal. apply Ha; [by apply list_elem_of_fmap_2..|done].
Qed.

Lemma leaf_entries_get leaves key v :
  leaves_ok leaves → is_b256 key → entry_for key (leaf_entries leaves) v → bget key leaves = v.
Proof.
  intros [Hs Hl _] Hk He. rewrite list.Forall_forall in Hl. destruct v as [x|]; cbn in He.
  - apply list_elem_of_fmap in He as ([k y] & [= E ->] & Hin). apply elem_of_bget; [done|].
    destruct (Hl _ Hin) as [Hk' _]. cbn in *. by rewrite (unpack_inj key k).
  - apply bget_None. intros (l & -> & Hin)%list_elem_of_fmap.
    eapply He; [apply list_elem_of_fmap_2, Hin|done].
Qed.

Lemma list_encoding_not_empty p : item_encoding KList p ≠ [byte_of 128].
Proof.
  cbn [item_encoding]. destruct p as [|x p]; [done|]. intros E%(f_equal length).
  rewrite length_app in E. unfold Spec.header_list, Spec.header in E. case_match; cbn in E; lia.
Qed.

Section snapshots.
Context `{Keccak, AlloyRlp, !EthereumRlp, !AlloyTrie}.

(** An encoding the builder writes for some of the leaves, or the empty node. *)
Definition built_for (leaves : btree bytes bytes) (e : bytes) : Prop :=
  e = [byte_of 128] ∨ range_node (leaf_entries leaves) e.

Lemma build_builds leaves :
  leaves_ok leaves → leaves ≠ [] →
  ∃ b encs, build leaves =
      Ok {| snap_root := built_hash b; snap_nodes := inserts encs []; snap_leaves := leaves |} ∧
    builds (SECURE_KEY_NIBBLES + 2) 0 (leaf_entries leaves) b encs.
Proof.
  intros Hok Hne. destruct (build_node_spec (SECURE_KEY_NIBBLES + 2) 0 (leaf_entries leaves))
    as (b & encs & Hb); [by apply leaf_entries_ok|by destruct leaves|lia|lia|].
  exists b, encs. split; [|done]. destruct Hb as [Hb _]. unfold build. destruct leaves as [|l leaves]; [done|].
  destruct Hok as [_ _ Hc]. rewrite (proj2 (Z.ltb_ge _ _)) by done.
  fold (leaf_entries (l :: leaves)). by rewrite Hb.
Qed.

(** Building a trie succeeds for every set of up to 2^32 - 1 leaves with
    32-byte keys: the recursion ends within the nibbles of a key, no error and
    no index panic is reached, the snapshot keeps its leaves, and every node is
    stored under its own hash. *)
Theorem build_total leaves :
  leaves_ok leaves →
  ∃ snap, build leaves = Ok snap ∧ snap_leaves snap = leaves ∧ sorted (snap_nodes snap) ∧
    (∀ h e, bget h (snap_nodes snap) = Some e → h = keccak256 e) ∧
    (leaves ≠ [] → is_Some (bget (snap_root snap) (snap_nodes snap))).
Proof.
  intros Hok. destruct (decide (leaves = [])) as [->|Hne].
  { eexists. split; [done|]. by split_and!; [|constructor| |]. }
  destruct (build_builds leaves Hok Hne) as (b & encs & Hb & _ & _ & [Hn Hin _ _]).
  eexists. split; [exact Hb|]. cbn [snap_root snap_nodes snap_leaves].
  split_and!; [done|apply inserts_sorted; constructor| |].
  - intros h e He. by apply inserts_addressed in He as [?|[_ ?]].
  - intros _. destruct Hn as [-> _]. by apply inserts_in.
Qed.

Lemma build_ok leaves : leaves_ok leaves → ∃ snap, build leaves = Ok snap.
Proof.
  intros Hok. destruct (decide (leaves = [])) as [->|Hne]; [by eexists|].
  destruct (build_builds leaves Hok Hne) as (b & encs & Hb & _). by eexists.
Qed.

(** Reading a built trie reads its nodes from the root down. *)
Lemma build_reads leaves snap :
  leaves_ok leaves → leaves ≠ [] → build leaves = Ok snap →
  (∃ b encs, build_result 0 (leaf_entries leaves) b encs ∧
    holds (memory_store (snap_nodes snap)) encs ∧
    ∀ key, snapshot_proof snap key =
      let? '(value, nodes) := proof_loop (SECURE_KEY_NIBBLES + 1) (memory_store (snap_nodes snap))
        (unpack_nibbles key) (built_encoded b) 0 [] in
      let p := {| sp_root := snap_root snap; sp_key := key; sp_value := value; sp_nodes := nodes |} in
      run? verify p in Ok p) ∧ snap_root snap ≠ EMPTY_ROOT_HASH ∨
  collision (built_for leaves).
Proof.
  intros Hok Hne Hb. destruct (build_builds leaves Hok Hne) as (b & encs & Hb' & _ & Hrn & Hr).
  rewrite Hb in Hb'. injection Hb' as ->. pose proof Hr as [[Hh He] Hin _ _].
  assert (Forall (built_for leaves) encs) as Hbf.
  { eapply list.Forall_impl; [exact Hrn|]. by right. }
  destruct (inserts_holds encs (built_for leaves) Hbf) as [Hst|]; [|by right].
  cbn [snap_root snap_nodes]. destruct (decide (built_hash b = EMPTY_ROOT_HASH)) as [Hroot|Hroot].
  - right. exists [byte_of 128], (built_encoded b). rewrite empty_root_hash in Hroot.
    split_and!; [by left|by apply (proj1 (list.Forall_forall _ _) Hbf)| |congruence].
    destruct He as [p ->]. intros E%eq_sym. by eapply list_encoding_not_empty.
  - left. split; [|done]. exists b, encs. split_and!; [done|done|]. intros key.
    unfold snapshot_proof, proof. cbn [snap_root snap_nodes]. rewrite bool_decide_false by done.
    by rewrite Hh, (proj2 (load_hashed_Ok _ _ _) (conj eq_refl (Hst _ Hin))).
Qed.

(** Reading any key of a built trie. *)
Lemma build_lookup leaves snap key :
  leaves_ok leaves → keys_apart leaves → build leaves = Ok snap → is_b256 key →
  (∃ nodes,
    let p := {| sp_root := snap_root snap; sp_key := key; sp_value := bget key leaves;
                sp_nodes := nodes |} in
    snapshot_proof snap key =
      if bool_decide (snap_root snap = EMPTY_ROOT_HASH) then Ok p else run? verify p in Ok p) ∨
  collision (built_for leaves).
Proof.
  intros Hok Hap Hb Hkey. destruct (decide (leaves = [])) as [->|Hne].
  { injection Hb as <-. left. exists []. unfold snapshot_proof, proof. cbn. by case_bool_decide. }
  destruct (build_reads leaves snap Hok Hne Hb) as [[(b & encs & [_ _ Hf _] & Hst & Hp) Hroot]|];
    [left|by right].
  destruct (Hf _ Hst (leaf_entries_apart _ Hap)) with (key := key)
    as (v & Hv & Hent); [unfold SECURE_KEY_NIBBLES; lia|done|done|].
  apply leaf_entries_get in Hent as <-; [|done..].
  destruct (Hv (SECURE_KEY_NIBBLES + 1)%nat [] ltac:(lia)) as [ns Hl]. exists ns.
  rewrite Hp, Hl. by rewrite bool_decide_false.
Qed.


End snapshots.

Module BuildWitness.
Import MptWitness.
#[local] Existing Instance Toy.toy_keccak.
#[local] Existing Instance spec_rlp.
#[local] Existing Instance toy_trie.

Lemma spec_ethereum : EthereumRlp.
Proof. by split. Qed.

Lemma two_leaves_ok : leaves_ok two_leaves.
Proof.
  split; [|by_evaluation|by_evaluation]. repeat constructor; by_evaluation.
Qed.

Lemma two_leaves_apart : keys_apart two_leaves.
Proof.
  intros k1 k2 H1 H2. cbn in H1, H2. rewrite !elem_of_cons, elem_of_nil in H1, H2.
  destruct H1 as [->|[->|[]]], H2 as [->|[->|[]]]; done.
Qed.

Lemma build_total_witness :
  ∃ snap, build two_leaves = Ok snap ∧ snap_leaves snap = two_leaves ∧ sorted (snap_nodes snap) ∧
    (∀ h e, bget h (snap_nodes snap) = Some e → h = keccak256 e) ∧
    (two_leaves ≠ [] → is_Some (bget (snap_root snap) (snap_nodes snap))).
Proof. apply (@build_total _ _ spec_ethereum _ two_leaves). exact two_leaves_ok. Defined.


(** Two keys that differ in their last nibble only. *)
Definition near_leaves : btree bytes bytes :=
  [(repeat_byte 31 1 ++ [byte_of 1], [byte_of 7]); (repeat_byte 31 1 ++ [byte_of 2], [byte_of 8])].

Definition near_snapshot : TrieSnapshot :=
  Eval vm_compute in
    match build near_leaves with Ok s => s | _ => {| snap_root := []; snap_nodes := []; snap_leaves := [] |} end.

Lemma near_leaves_ok : leaves_ok near_leaves.
Proof.
  split; [|by_evaluation|by_evaluation]. repeat constructor; by_evaluation.
Qed.


(** Two keys that differ in their first nibble only, with the same value. *)
Definition twin_leaves : btree bytes bytes :=
  [(byte_of 17 :: repeat_byte 31 1, [byte_of 7]); (byte_of 33 :: repeat_byte 31 1, [byte_of 7])].

(** Both children of the root of this trie are the same node, and its second
    visit is reported as a cycle. *)
Example twin_leaves_rejected :
  (let? snap := build twin_leaves in
   collect_leaves 200 (snap_root snap) (memory_store (snap_nodes snap))) =
    Err (InvalidPath "trie node cycle"%string).
Proof. vm_compute; reflexivity. Qed.
End BuildWitness.
