(* ===== verification/Account.v ===== *)
(** The account and storage leaves of the state trie
    (src/crates/arbor-state/src/account.rs).

    Main result: both leaf codecs accept exactly the encodings they write. *)

From Stdlib Require Import Strings.Byte.
From S2P Require Import Prelude Bytes BTreeMap Primitives Canonical Rlp Crypto StateError.
From S2P Require Import Trie Mpt.
Import SE.

Local Open Scope Z_scope.

Record Account := {
  nonce : Z;
  balance : Z;
  storage_root : bytes;
  code_hash : bytes;
}.

Definition reject_leading_zero (b : bytes) : outcome StateError unit :=
  match b with
  | x :: _ => if byte_val x =? 0 then Err (MalformedRlp "non-minimal integer") else Ok tt
  | [] => Ok tt
  end.

(** The bytes are copied to the end of a zeroed word, which is then read in
    full. *)
Definition decode_u64 (b : bytes) : outcome StateError Z :=
  run? reject_leading_zero b in
  if (8 <? length b)%nat then Err (MalformedRlp "u64 overflow")
  else Ok (from_be_bytes (repeat x00 (8 - length b) ++ b)).

Definition decode_u256 (b : bytes) : outcome StateError Z :=
  run? reject_leading_zero b in
  if (32 <? length b)%nat then Err (MalformedRlp "U256 overflow")
  else Ok (from_be_bytes b).

(** [B256::try_from] of a slice. *)
Definition b256_try_from (b : bytes) : option bytes :=
  if (length b =? 32)%nat then Some b else None.

Definition decode_account (input : bytes) : outcome StateError Account :=
  let? fields := decode_rlp_list input in
  match fields with
  | [f0; f1; f2; f3] =>
      if existsb (λ f, negb (bool_decide (item_kind f = KBytes))) fields
      then Err (MalformedRlp "account field layout")
      else
        let? nonce := decode_u64 (item_payload f0) in
        let? balance := decode_u256 (item_payload f1) in
        let? storage_root :=
          ok_or (b256_try_from (item_payload f2)) (MalformedRlp "account storage root") in
        let? code_hash :=
          ok_or (b256_try_from (item_payload f3)) (MalformedRlp "account code hash") in
        Ok {| nonce := nonce; balance := balance; storage_root := storage_root;
              code_hash := code_hash |}
  | _ => Err (MalformedRlp "account field layout")
  end.

Section account.
Context `{Keccak, AlloyRlp}.

Definition default_account `{!AlloyTrie} : Account :=
  {| nonce := 0; balance := 0; storage_root := EMPTY_ROOT_HASH; code_hash := KECCAK_EMPTY |}.

Definition is_empty `{!AlloyTrie} (a : Account) : bool :=
  (nonce a =? 0) && (balance a =? 0) && bool_decide (code_hash a = KECCAK_EMPTY).

Definition encode_account (a : Account) : bytes :=
  let payload :=
    encode_uint (nonce a) ++ encode_uint (balance a) ++ encode_str (storage_root a) ++
    encode_str (code_hash a) in
  header_list (zlen payload) ++ payload.

Definition storage_trie_value (value : Z) : option bytes :=
  if value =? 0 then None else Some (encode_uint value).

Definition decode_storage_trie_value (input : bytes) : outcome StateError Z :=
  match decode_uint 256 input with
  | inl _ => Err (MalformedRlp "storage value layout")
  | inr (value, remaining) =>
      if negb (length remaining =? 0)%nat then Err (MalformedRlp "storage value trailing bytes")
      else if value =? 0 then Err (MalformedRlp "zero storage leaf")
      else Ok value
  end.
End account.

Definition wf_account (a : Account) : Prop :=
  u64 (nonce a) ∧ u256 (balance a) ∧ is_b256 (storage_root a) ∧ is_b256 (code_hash a).

(** ** Integers *)

Lemma reject_leading_zero_Ok b : reject_leading_zero b = Ok tt ↔ Spec.leading_zero b = false.
Proof. destruct b as [|x b]; [done|]. cbn. by destruct (byte_val x =? 0). Qed.

Lemma from_be_padded n b : from_be_bytes (repeat x00 n ++ b) = from_be_bytes b.
Proof.
  induction n as [|n IH]; [done|]. cbn [repeat app]. rewrite from_be_bytes_cons, IH.
  change (byte_val x00) with 0. lia.
Qed.

(** Both integer readers accept exactly the minimal encodings of their width. *)
Lemma decode_uint_iff (b : bytes) (v k : Z) (width : nat) :
  (k = 8 ∧ width = 8%nat ∨ k = 32 ∧ width = 32%nat) →
  Spec.leading_zero b = false ∧ (length b <= width)%nat ∧ from_be_bytes b = v ↔
    fits (8 * k) v ∧ b = Spec.be_min v.
Proof.
  intros Hk. split.
  - intros (Hz & Hl & <-). split; [|by rewrite Spec.be_min_unique].
    pose proof (from_be_bytes_range b) as [H0 Hlt]. split; [done|].
    eapply Z.lt_le_trans; [exact Hlt|]. change 256 with (2 ^ 8). rewrite <-Z.pow_mul_r by (unfold zlen; lia).
    apply Z.pow_le_mono_r; unfold zlen; lia.
  - intros [Hf ->]. split_and!.
    + apply Spec.be_min_no_zero. apply Hf.
    + assert (zlen (Spec.be_min v) ≤ k) by (apply Spec.be_min_width; [lia|done]). unfold zlen in *. lia.
    + apply Spec.be_min_from. apply Hf.
Qed.

Lemma decode_u64_iff b v : decode_u64 b = Ok v ↔ u64 v ∧ b = Spec.be_min v.
Proof.
  rewrite <-(decode_uint_iff b v 8 8) by (left; done). unfold decode_u64.
  rewrite <-reject_leading_zero_Ok, from_be_padded.
  destruct (reject_leading_zero b) as [[]| |]; cbn [obind]; try naive_solver.
  destruct (Nat.ltb_spec 8 (length b)); [|naive_solver lia]. split; [done|]. intros (_ & ? & _). lia.
Qed.

Lemma decode_u256_iff b v : decode_u256 b = Ok v ↔ u256 v ∧ b = Spec.be_min v.
Proof.
  rewrite <-(decode_uint_iff b v 32 32) by (right; done). unfold decode_u256.
  rewrite <-reject_leading_zero_Ok.
  destruct (reject_leading_zero b) as [[]| |]; cbn [obind]; try naive_solver.
  destruct (Nat.ltb_spec 32 (length b)); [|naive_solver lia]. split; [done|]. intros (_ & ? & _). lia.
Qed.

Lemma b256_try_from_Some b c : b256_try_from b = Some c ↔ is_b256 c ∧ b = c.
Proof. unfold b256_try_from, is_b256. destruct (Nat.eqb_spec (length b) 32); naive_solver. Qed.

(** ** Accounts *)

Section codec.
Context `{Keccak, AlloyRlp, !EthereumRlp, !AlloyRlpLaws}.

Definition bytes_item (b : bytes) : RlpItem :=
  {| item_raw := Spec.encode_str b; item_payload := b; item_kind := KBytes |}.

Definition account_fields (a : Account) : list bytes :=
  [Spec.be_min (nonce a); Spec.be_min (balance a); storage_root a; code_hash a].

Lemma account_fields_small a :
  wf_account a → small ((EBytes <$> account_fields a) ≫= field_bytes) ∧
  Forall (λ f, u64 (zlen f)) (account_fields a).
Proof.
  intros (Hn & Hb & Hs & Hc). unfold is_b256 in *.
  pose proof (Spec.be_min_width 8 (nonce a) ltac:(lia) Hn) as L1.
  pose proof (Spec.be_min_width 32 (balance a) ltac:(lia) Hb) as L2.
  pose proof (zlen_nonneg (Spec.be_min (nonce a))). pose proof (zlen_nonneg (Spec.be_min (balance a))).
  unfold small, account_fields. cbn. rewrite app_nil_r, !zlen_app. unfold fits.
  assert (zlen (storage_root a) = 32) as -> by (unfold zlen; lia).
  assert (zlen (code_hash a) = 32) as -> by (unfold zlen; lia).
  split; [lia|]. repeat constructor; try lia; unfold zlen; lia.
Qed.

Lemma encode_account_items a :
  wf_account a → encode_account a = encode_items (EBytes <$> account_fields a).
Proof.
  intros Hwf. pose proof (account_fields_small a Hwf) as [_ Hu]. destruct Hwf as (Hn & Hb & _).
  unfold encode_account, encode_items, account_fields in *. cbn. rewrite app_nil_r.
  assert (u256 (nonce a)) by (unfold fits in *; lia).
  rewrite !list.Forall_cons in Hu. destruct Hu as (U1 & U2 & U3 & U4 & _).
  rewrite !encode_uint_ethereum by done. unfold Spec.encode_uint.
  by rewrite !(encode_str_ethereum (Spec.be_min _)).
Qed.

Lemma account_read a :
  wf_account a →
  decode_rlp_list (encode_account a) = Ok (bytes_item <$> account_fields a) ∧
  encode_account a = item_encoding KList (concat (item_raw <$> (bytes_item <$> account_fields a))).
Proof.
  intros Hwf. rewrite encode_account_items by done. pose proof (account_fields_small a Hwf) as [Hs _].
  destruct (encode_items_read (EBytes <$> account_fields a) (bytes_item <$> account_fields a))
    as (Hd & He & _); [|done|done|done]. unfold account_fields. cbn. repeat constructor.
Qed.

Lemma encode_account_size a : wf_account a → u64 (zlen (encode_account a)).
Proof.
  intros Hwf. rewrite encode_account_items by done. pose proof (account_fields_small a Hwf) as [Hs _].
  destruct (encode_items_read (EBytes <$> account_fields a) (bytes_item <$> account_fields a))
    as (_ & _ & Hz); [|done|done|].
  - unfold account_fields. cbn. repeat constructor.
  - unfold small in Hs. pose proof (zlen_nonneg (encode_items (EBytes <$> account_fields a))).
    assert (zlen (EBytes <$> account_fields a) = 4) as E by done. rewrite E in Hz. unfold fits. lia.
Qed.

Lemma bytes_item_eq it : item_ok it → item_kind it = KBytes → it = bytes_item (item_payload it).
Proof. destruct it as [raw p kind]. unfold item_ok. cbn. by intros -> ->. Qed.

Lemma decode_account_iff b a :
  u64 (zlen b) → decode_account b = Ok a ↔ wf_account a ∧ encode_account a = b.
Proof.
  intros Hu. split.
  - unfold decode_account. intros Hd. apply obind_Ok in Hd as (fields & Hf & Hd).
    apply decode_rlp_list_iff in Hf as [-> Hok]; [|done].
    destruct fields as [|f0 [|f1 [|f2 [|f3 [|f4 fields]]]]]; try done.
    cbn [existsb] in Hd. rewrite !list.Forall_cons in Hok. destruct Hok as (I0 & I1 & I2 & I3 & _).
    ok_inv. bool_prop.
    apply decode_u64_iff in Hok. apply decode_u256_iff in Hok0.
    apply b256_try_from_Some in Hok1. apply b256_try_from_Some in Hok2.
    destruct Hok as [Hn P0], Hok0 as [Hb P1], Hok1 as [Hs P2], Hok2 as [Hc P3].
    assert (wf_account a) as Hwf by (by subst a).
    split; [done|]. rewrite (proj2 (account_read a Hwf)). do 3 f_equal.
    unfold account_fields. cbn [fmap list_fmap]. subst a. cbn [nonce balance storage_root code_hash].
    rewrite (bytes_item_eq f0), (bytes_item_eq f1), (bytes_item_eq f2), (bytes_item_eq f3) by done.
    by rewrite P0, P1, P2, P3.
  - intros [Hwf <-]. unfold decode_account. destruct (account_read a Hwf) as [-> _]. cbn.
    destruct Hwf as (Hn & Hb & Hs & Hc). 
    rewrite (proj2 (decode_u64_iff _ _) (conj Hn eq_refl)). cbn.
    rewrite (proj2 (decode_u256_iff _ _) (conj Hb eq_refl)). cbn.
    rewrite (proj2 (b256_try_from_Some _ _) (conj Hs eq_refl)). cbn.
    rewrite (proj2 (b256_try_from_Some _ _) (conj Hc eq_refl)). by destruct a.
Qed.

Lemma decode_account_no_panic b m : u64 (zlen b) → decode_account b ≠ Panic m.
Proof.
  intros Hu. unfold decode_account. apply obind_no_panic; [by apply decode_rlp_list_no_panic|].
  intros fields _. do 5 (destruct fields as [|? fields]; try done).
  unfold decode_u64, decode_u256. no_panic; unfold reject_leading_zero; by repeat case_match.
Qed.

(** The two leaf codecs of the state trie are canonical. An account leaf
    decodes to an account exactly when the account is well formed and the leaf
    is its encoding; a storage leaf decodes to a word exactly when the word is
    not zero and the leaf is its encoding; decoding never panics on any slice. *)
Theorem leaf_codecs_canonical :
  (∀ b a, u64 (zlen b) → decode_account b = Ok a ↔ wf_account a ∧ encode_account a = b) ∧
  (∀ b v, decode_storage_trie_value b = Ok v ↔ u256 v ∧ storage_trie_value v = Some b) ∧
  (∀ b m, u64 (zlen b) → decode_account b ≠ Panic m) ∧
  (∀ b m, decode_storage_trie_value b ≠ Panic m).
Proof.
  split_and!; [exact decode_account_iff| |exact decode_account_no_panic|].
  - intros b v. unfold decode_storage_trie_value, storage_trie_value. split.
    + destruct (decode_uint 256 b) as [e|[w rest]] eqn:Hd; [done|]. intros Hv. ok_inv. subst w.
      apply uint_canonical in Hd as [-> Hf]; [|repeat constructor].
      apply negb_false_iff, Nat.eqb_eq, length_zero_iff_nil in Hif as ->.
      rewrite Hif0, app_nil_r. done.
    + intros [Hf Hs]. destruct (Z.eqb_spec v 0) as [|Hnz]; [done|]. injection Hs as <-.
      rewrite <-(app_nil_r (encode_uint v)), uint_roundtrip; [|repeat constructor|done]. cbn.
      by rewrite (proj2 (Z.eqb_neq _ _)).
  - intros b m. unfold decode_storage_trie_value. by repeat case_match.
Qed.
End codec.

Lemma leaf_codecs_canonical_witness :
  (∀ b a, u64 (zlen b) →
    decode_account b = Ok a ↔ wf_account a ∧ @encode_account spec_rlp a = b) ∧
  (∀ b v, @decode_storage_trie_value spec_rlp b = Ok v ↔
    u256 v ∧ @storage_trie_value spec_rlp v = Some b) ∧
  (∀ b m, u64 (zlen b) → decode_account b ≠ Panic m) ∧
  (∀ b m, @decode_storage_trie_value spec_rlp b ≠ Panic m).
Proof. apply (@leaf_codecs_canonical spec_rlp ltac:(by split) spec_rlp_laws). Defined.
