(* ===== verification/Overlay.v ===== *)
(** The copy-on-write overlay over the leaves of a state trie
    (src/crates/arbor-state/src/overlay.rs).

    Main results: an overlay reads as the map its writes were applied to,
    committing materializes exactly that map whatever the order of the writes,
    and the committed snapshot proves it. *)

From Stdlib Require Import Strings.Byte.
From S2P Require Import Prelude Bytes BTreeMap Primitives Canonical Rlp Crypto StateError.
From S2P Require Import Trie Mpt MptBuild Account.
Import SE.

Local Open Scope Z_scope.

Record StateOverlay := {
  base : btree bytes bytes;
  writes : btree bytes (option bytes);
}.

Definition new_overlay (base : btree bytes bytes) : StateOverlay := {| base := base; writes := [] |}.

Definition from_snapshot (snapshot : TrieSnapshot) : StateOverlay := new_overlay (snap_leaves snapshot).

Definition set_secure_leaf (ov : StateOverlay) (key : bytes) (value : option bytes) : StateOverlay :=
  {| base := base ov; writes := binsert key value (writes ov) |}.

Definition changed_keys (ov : StateOverlay) : nat := length (writes ov).

(** One write of the loop of [commit]. *)
Definition apply_write (m : btree bytes bytes) (w : bytes * option bytes) : btree bytes bytes :=
  match w.2 with
  | Some value => binsert w.1 value m
  | None => bremove w.1 m
  end.

Definition discard (ov : StateOverlay) : btree bytes bytes := base ov.

Definition secure_leaf (ov : StateOverlay) (key : bytes) : option bytes :=
  match bget key (writes ov) with
  | Some (Some value) => Some value
  | Some None => None
  | None => bget key (base ov)
  end.

Section operations.
Context `{Keccak, AlloyRlp, !AlloyTrie}.

Definition set_account (ov : StateOverlay) (address : bytes) (a : Account) : StateOverlay :=
  let key := secure_account_key address in
  if is_empty a then set_secure_leaf ov key None
  else set_secure_leaf ov key (Some (encode_account a)).

Definition delete_account (ov : StateOverlay) (address : bytes) : StateOverlay :=
  set_secure_leaf ov (secure_account_key address) None.

Definition commit_overlay (ov : StateOverlay) : outcome StateError TrieSnapshot :=
  build (foldl apply_write (base ov) (writes ov)).

Definition account (ov : StateOverlay) (address : bytes) : outcome StateError (option Account) :=
  match secure_leaf ov (secure_account_key address) with
  | Some leaf => let? a := decode_account leaf in Ok (Some a)
  | None => Ok None
  end.

(** The writes a proposal makes. *)
Inductive overlay_write : Type :=
| WSet (address : bytes) (a : Account)
| WDelete (address : bytes)
| WLeaf (key : bytes) (value : option bytes).

Definition write (ov : StateOverlay) (w : overlay_write) : StateOverlay :=
  match w with
  | WSet address a => set_account ov address a
  | WDelete address => delete_account ov address
  | WLeaf key value => set_secure_leaf ov key value
  end.

(** ** The map an overlay stands for *)

Definition write_key (w : overlay_write) : bytes :=
  match w with
  | WSet address _ | WDelete address => secure_account_key address
  | WLeaf key _ => key
  end.

Definition write_value (w : overlay_write) : option bytes :=
  match w with
  | WSet _ a => if is_empty a then None else Some (encode_account a)
  | WDelete _ => None
  | WLeaf _ value => value
  end.

Definition write_spec (m : bytes → option bytes) (w : overlay_write) (key : bytes) : option bytes :=
  if bool_decide (key = write_key w) then write_value w else m key.

Record overlay_ok (ov : StateOverlay) : Prop := {
  ov_base : sorted (base ov);
  ov_writes : sorted (writes ov);
}.

Lemma write_leaf ov w : write ov w = set_secure_leaf ov (write_key w) (write_value w).
Proof. destruct w; cbn; [|done..]. unfold set_account. by destruct (is_empty a). Qed.

Lemma secure_leaf_write ov w key :
  secure_leaf (write ov w) key = write_spec (secure_leaf ov) w key.
Proof.
  rewrite write_leaf. unfold secure_leaf, write_spec, set_secure_leaf. cbn.
  case_bool_decide as E.
  - subst key. rewrite bget_binsert_eq. by destruct (write_value w).
  - by rewrite bget_binsert_ne.
Qed.

Lemma write_ok ov w : overlay_ok ov → overlay_ok (write ov w).
Proof. intros [Hb Hw]. rewrite write_leaf. split; [done|]. by apply sorted_binsert. Qed.

Lemma write_base ov w : base (write ov w) = base ov.
Proof. by rewrite write_leaf. Qed.

Lemma sorted_apply m w : sorted m → sorted (apply_write m w).
Proof. intros Hm. unfold apply_write. destruct w.2; [by apply sorted_binsert|by apply sorted_bremove]. Qed.

(** What the loop of [commit] leaves at a key. *)
Lemma apply_writes_get m ws key :
  sorted ws →
  bget key (foldl apply_write m ws) = match bget key ws with Some v => v | None => bget key m end.
Proof.
  revert m. induction ws as [|[k v] ws IH]; intros m Hs; [done|]. cbn [foldl bget].
  pose proof (sorted_NoDup _ Hs) as Hnd. apply list.NoDup_cons in Hnd as [Hk _].
  apply StronglySorted_inv in Hs as [Hs _]. rewrite IH by done.
  destruct (teqb key k) eqn:E.
  - apply teqb_eq in E as ->. apply bget_None in Hk. cbn in Hk. rewrite Hk.
    destruct v; cbn; [by rewrite bget_binsert_eq|by rewrite bget_bremove_eq].
  - destruct (bget key ws) as [u|]; [done|].
    assert (key ≠ k) by (intros ->; by rewrite (proj2 (teqb_eq k k)) in E).
    destruct v; cbn; [by rewrite bget_binsert_ne|by rewrite bget_bremove_ne].
Qed.

Lemma sorted_apply_writes m ws : sorted m → sorted (foldl apply_write m ws).
Proof. revert m. induction ws as [|w ws IH]; intros m Hm; [done|]. by apply IH, sorted_apply. Qed.

Definition write_all (base : btree bytes bytes) (ws : list overlay_write) : StateOverlay :=
  foldl write (new_overlay base) ws.

Lemma write_all_ok m ws :
  sorted m →
  overlay_ok (write_all m ws) ∧ base (write_all m ws) = m ∧
  (∀ key, secure_leaf (write_all m ws) key = foldl write_spec (λ k, bget k m) ws key).
Proof.
  intros Hm. unfold write_all. induction ws as [|w ws IH] using rev_ind.
  - split; [by split; [|constructor]|done].
  - rewrite !foldl_app. cbn [foldl]. destruct IH as (Hok & Hb & Hv).
    split; [by apply write_ok|]. split; [by rewrite write_base|]. intros key.
    rewrite secure_leaf_write. unfold write_spec at 1 2. by case_bool_decide.
Qed.

(** The leaves [commit] builds a trie of: the overlay's view. *)
Lemma commit_leaves_view ov key :
  overlay_ok ov → bget key (foldl apply_write (base ov) (writes ov)) = secure_leaf ov key.
Proof.
  intros [_ Hw]. rewrite apply_writes_get by done. unfold secure_leaf.
  by destruct (bget key (writes ov)) as [[]|].
Qed.

Lemma commit_same ov1 ov2 :
  overlay_ok ov1 → overlay_ok ov2 → (∀ key, secure_leaf ov1 key = secure_leaf ov2 key) →
  commit_overlay ov1 = commit_overlay ov2.
Proof.
  intros Ho1 Ho2 Hv. unfold commit_overlay. f_equal.
  apply btree_ext; [apply sorted_apply_writes, Ho1|apply sorted_apply_writes, Ho2|].
  intros key. rewrite !commit_leaves_view by done. apply Hv.
Qed.
End operations.

(** ** Results *)

Section results.
Context `{Keccak, AlloyRlp, !AlloyTrie, !EthereumRlp}.

(** An overlay behaves as the map it stands for. After any sequence of
    writes over any leaves, every key reads as its last write, or as the base
    when it was not written; an account just set reads back as itself, or as
    absent when it is empty (EIP-161); discarding gives the base leaves back
    unchanged; and two write sequences that end in the same map commit to the
    same snapshot, whatever their order. *)
Theorem overlay_refines_map m ws :
  sorted m →
  (∀ key, secure_leaf (write_all m ws) key = foldl write_spec (λ k, bget k m) ws key) ∧
  (∀ address a, wf_account a →
    account (write (write_all m ws) (WSet address a)) address =
      Ok (if is_empty a then None else Some a)) ∧
  discard (write_all m ws) = m ∧
  (∀ m' ws', sorted m' →
    (∀ key, foldl write_spec (λ k, bget k m) ws key = foldl write_spec (λ k, bget k m') ws' key) →
    commit_overlay (write_all m ws) = commit_overlay (write_all m' ws')).
Proof.
  intros Hm. destruct (write_all_ok m ws Hm) as (Hok & Hb & Hv). split_and!; [done| |done|].
  - intros address a Hwf. unfold account. rewrite secure_leaf_write. unfold write_spec.
    cbn [write_key write_value]. rewrite bool_decide_true by done.
    destruct (is_empty a); [done|]. pose proof (encode_account_size a Hwf) as Hsz.
    by rewrite (proj2 (decode_account_iff _ a Hsz)).
  - intros m' ws' Hm' Heq. destruct (write_all_ok m' ws' Hm') as (Hok' & _ & Hv').
    apply commit_same; [done..|]. intros key. by rewrite Hv, Hv'.
Qed.

(** A committed overlay proves its own view: when the leaves it
    materializes are within the limits of the trie and no two of their keys
    agree on all but the last nibble, committing succeeds and the proof of any
    key read from the new snapshot carries what the overlay read there, unless
    two encodings the builder writes for these leaves have the same hash. *)
Theorem overlay_commit_proves ov key :
  overlay_ok ov → leaves_ok (foldl apply_write (base ov) (writes ov)) →
  keys_apart (foldl apply_write (base ov) (writes ov)) → is_b256 key →
  ∃ snap, commit_overlay ov = Ok snap ∧
    ((∃ nodes,
      let p := {| sp_root := snap_root snap; sp_key := key; sp_value := secure_leaf ov key;
                  sp_nodes := nodes |} in
      snapshot_proof snap key =
        if bool_decide (snap_root snap = EMPTY_ROOT_HASH) then Ok p else run? verify p in Ok p) ∨
    collision (built_for (foldl apply_write (base ov) (writes ov)))).
Proof.
  intros Hov Hl Ha Hk. destruct (build_ok _ Hl) as [snap Hs]. exists snap. split; [done|].
  rewrite <-(commit_leaves_view ov key) by done. by apply build_lookup.
Qed.
End results.

Module OverlayWitness.
Import MptWitness.
#[local] Existing Instance Toy.toy_keccak.
#[local] Existing Instance spec_rlp.
#[local] Existing Instance toy_trie.
#[local] Existing Instance BuildWitness.spec_ethereum.

Definition alice : bytes := repeat_byte 20 5.

Definition rich : Account :=
  {| nonce := 1; balance := 1000; storage_root := EMPTY_ROOT_HASH; code_hash := KECCAK_EMPTY |}.

Lemma two_sorted : sorted two_leaves.
Proof. apply BuildWitness.two_leaves_ok. Qed.

Lemma overlay_refines_map_witness :
  (∀ key, secure_leaf (write_all two_leaves [WSet alice rich]) key =
     foldl write_spec (λ k, bget k two_leaves) [WSet alice rich] key) ∧
  (∀ address a, wf_account a →
    account (write (write_all two_leaves [WSet alice rich]) (WSet address a)) address =
      Ok (if is_empty a then None else Some a)) ∧
  discard (write_all two_leaves [WSet alice rich]) = two_leaves ∧
  (∀ m' ws', sorted m' →
    (∀ key, foldl write_spec (λ k, bget k two_leaves) [WSet alice rich] key =
            foldl write_spec (λ k, bget k m') ws' key) →
    commit_overlay (write_all two_leaves [WSet alice rich]) = commit_overlay (write_all m' ws')).
Proof. apply (overlay_refines_map two_leaves [WSet alice rich]). exact two_sorted. Defined.

Definition two_overlay : StateOverlay := set_secure_leaf (new_overlay two_leaves) key1 (Some [byte_of 9]).

Lemma two_overlay_apart : keys_apart (foldl apply_write (base two_overlay) (writes two_overlay)).
Proof.
  assert (bkeys (foldl apply_write (base two_overlay) (writes two_overlay)) = [key1; key2]) as Hkeys
    by by_evaluation.
  unfold keys_apart. rewrite Hkeys. intros k1 k2 E1 E2. rewrite !elem_of_cons, elem_of_nil in E1, E2.
  destruct E1 as [->|[->|[]]], E2 as [->|[->|[]]]; done.
Qed.

Lemma overlay_commit_proves_witness :
  ∃ snap, commit_overlay two_overlay = Ok snap ∧
    ((∃ nodes,
      let p := {| sp_root := snap_root snap; sp_key := key1; sp_value := Some [byte_of 9];
                  sp_nodes := nodes |} in
      snapshot_proof snap key1 =
        if bool_decide (snap_root snap = EMPTY_ROOT_HASH) then Ok p else run? verify p in Ok p) ∨
    collision (built_for (foldl apply_write (base two_overlay) (writes two_overlay)))).
Proof.
  apply (overlay_commit_proves two_overlay key1).
  - split; [exact two_sorted|repeat constructor].
  - split; [repeat constructor; by_evaluation|by_evaluation|by_evaluation].
  - exact two_overlay_apart.
  - by_evaluation.
Defined.
End OverlayWitness.
