(* ===== verification/Storage.v ===== *)
(** The durable database (src/crates/arbor-storage/src/lib.rs): the schema, the
    atomic commit of a finalized block, reads through the stored tries, the
    flat-state cache, pruning and retention.

    parity-db is the class [ParityDb], with what the code relies on in
    [ParityDbLaws]: a read returns what is stored, a scan returns the entries in
    key order, a commit of changes to distinct keys applies all of them, no commit
    touches another key, and a commit that fails applies none.

    Main results: whatever is committed, pruned or retained, every root still
    recorded reads back exactly the leaves that were committed for it
    ([storage_invariant]), commits publish all of a block or nothing
    ([commit_publishes]), and retention removes only what its policy names. *)

From Stdlib Require Import Strings.Byte.
From stdpp Require Import relations.
From S2P Require Import Prelude Bytes BTreeMap Primitives Canonical Crypto StateError.
From S2P Require Import Snapshot Rlp Trie Mpt Account.

Local Open Scope Z_scope.

Definition SCHEMA_VERSION : Z := 1.

Definition COLUMN_META : Z := 0.
Definition COLUMN_TRIE_NODES : Z := 1.
Definition COLUMN_FLAT_STATE : Z := 2.
Definition COLUMN_CONTRACT_CODE : Z := 3.
Definition COLUMN_RECEIPTS : Z := 4.
Definition COLUMN_INDEXES : Z := 5.
Definition COLUMN_DOMAIN_REGISTRY : Z := 6.
Definition COLUMN_SNAPSHOTS : Z := 7.

Definition KEY_SCHEMA : bytes := bstr "schema-version".
Definition KEY_NETWORK : bytes := bstr "network-id".
Definition KEY_GENESIS : bytes := bstr "genesis-hash".
Definition KEY_MARKER : bytes := bstr "finalized-marker".
Definition PREFIX_ROOT : bytes := bstr "root:".
Definition PREFIX_MANIFEST : bytes := bstr "manifest:".
Definition PREFIX_HEAD : bytes := bstr "head:".

(** One change of a transaction: column, key, and the value or a deletion. *)
Notation db_change := (Z * bytes * option bytes)%type.

(** [parity_db::Db]; errors carry their rendered text. [pdb_scan] is what an
    iterator yields after [seek]. *)
Class ParityDb := {
  Db : Type;
  pdb_get : Db → Z → bytes → outcome string (option bytes);
  pdb_scan : Db → Z → bytes → outcome string (list (bytes * bytes));
  pdb_commit : Db → list db_change → outcome string unit * Db;
}.

(** What a transaction writes under a key. *)
Fixpoint written (t : list db_change) (column : Z) (key : bytes) : option (option bytes) :=
  match t with
  | [] => None
  | (c, k, v) :: t' => if bool_decide ((c, k) = (column, key)) then Some v else written t' column key
  end.

Class ParityDbLaws `{ParityDb} := {
  contents : Db → Z → btree bytes bytes;
  contents_sorted : ∀ d c, sorted (contents d c);
  pdb_get_reads : ∀ d c k v, pdb_get d c k = Ok v → v = bget k (contents d c);
  pdb_scan_reads : ∀ d c k l,
    pdb_scan d c k = Ok l → l = List.filter (λ e, tleb k e.1) (contents d c);
  pdb_commit_applies : ∀ d t d', NoDup t.*1 → pdb_commit d t = (Ok tt, d') →
    ∀ c k, bget k (contents d' c) = default (bget k (contents d c)) (written t c k);
  pdb_commit_frame : ∀ d t d', pdb_commit d t = (Ok tt, d') →
    ∀ c k, (c, k) ∉ t.*1 → bget k (contents d' c) = bget k (contents d c);
  pdb_commit_fails : ∀ d t r d', pdb_commit d t = (r, d') → r ≠ Ok tt →
    ∀ c k, bget k (contents d' c) = bget k (contents d c);
}.

(** ** Data *)

Record Migration := { mg_from : Z; mg_to : Z }.

Definition MIGRATIONS : list Migration := [].

Record DatabaseIdentity := {
  id_network_id : NetworkId;
  id_genesis_hash : bytes;
}.

Inductive RetentionPolicy :=
| Archive
| Full (history : Z).

Record FinalizedMarker := {
  mk_height : Z;
  mk_consensus_hash : bytes;
  mk_domain_heads_root : bytes;
}.

Record DomainStateCommit := {
  ds_domain_id : DomainId;
  ds_consensus_height : Z;
  ds_snapshot : TrieSnapshot;
}.

Record IndexedValue := {
  iv_key : bytes;
  iv_value : bytes;
}.

Record CommitBatch := {
  cm_marker : FinalizedMarker;
  cm_states : list DomainStateCommit;
  cm_contract_code : btree bytes bytes;
  cm_receipts : list IndexedValue;
  cm_indexes : list IndexedValue;
  cm_domain_registry : list IndexedValue;
}.

(** [CommitBatch::new]. *)
Definition new_commit (marker : FinalizedMarker) : CommitBatch :=
  {| cm_marker := marker; cm_states := []; cm_contract_code := []; cm_receipts := [];
     cm_indexes := []; cm_domain_registry := [] |}.

Inductive StorageError :=
| DatabaseFailed (text : string)
| StateFailed (e : StateError)
| UnsupportedSchema (expected actual : Z)
| IdentityMismatch
| CorruptMetadata (what : string)
| NonMonotonicCommit (current proposed : Z)
| DuplicateCommitKey (what : string)
| InvalidRetention
| MissingRoot (domain_id : DomainId) (height : Z)
| PruneCurrentHead
| StorageLimit (what : string).

(** [pruning_error] and [RootHealth::error] keep the error itself; the code
    keeps its rendered text. *)
Record CommitStats := {
  st_new_nodes : Z;
  st_new_node_bytes : Z;
  st_pruned_roots : Z;
  st_pruning_error : option StorageError;
}.

Record RootHealth := {
  rh_domain_id : DomainId;
  rh_state_root : bytes;
  rh_leaves : option Z;
  rh_error : option StorageError;
}.

Record DatabaseInspection := {
  di_schema_version : Z;
  di_identity : DatabaseIdentity;
  di_finalized : option FinalizedMarker;
  di_roots : list RootHealth;
}.

#[export] Instance DatabaseIdentity_eq_dec : EqDecision DatabaseIdentity.
Proof. solve_decision. Defined.

#[export] Instance RetentionPolicy_eq_dec : EqDecision RetentionPolicy.
Proof. solve_decision. Defined.

#[export] Instance FinalizedMarker_eq_dec : EqDecision FinalizedMarker.
Proof. solve_decision. Defined.

(** [RetentionPolicy::validate]. *)
Definition validate_retention (r : RetentionPolicy) : outcome StorageError unit :=
  if bool_decide (r = Full 0) then Err InvalidRetention else Ok tt.

(** ** Keys and metadata records *)

Definition root_prefix (domain_id : DomainId) : bytes := PREFIX_ROOT ++ domain_id.

Definition root_key (domain_id : DomainId) (height : Z) : bytes :=
  root_prefix domain_id ++ of_u64 height.

Definition manifest_key (domain_id : DomainId) (height : Z) : bytes :=
  PREFIX_MANIFEST ++ domain_id ++ of_u64 height.

Definition head_key (domain_id : DomainId) : bytes := PREFIX_HEAD ++ domain_id.

Definition flat_key (domain_id : DomainId) (secure_key : bytes) : bytes := domain_id ++ secure_key.

Definition decode_hash (b : bytes) (name : string) : outcome StorageError bytes :=
  if (length b =? 32)%nat then Ok b else Err (CorruptMetadata name).

(** A cursor over stored bytes; positions stay far below the range of [usize]. *)
Definition take_field (n : Z) (what : string) (b : bytes) (cursor : Z)
    : outcome StorageError (bytes * Z) :=
  let? v := ok_or (get_range b cursor (cursor + n)) (CorruptMetadata what) in
  Ok (v, cursor + n).

Definition take_u32 (b : bytes) (cursor : Z) : outcome StorageError (Z * Z) :=
  let? '(v, cursor) := take_field 4 "manifest u32" b cursor in
  Ok (from_be_bytes v, cursor).

Definition take_u64 (b : bytes) (cursor : Z) : outcome StorageError (Z * Z) :=
  let? '(v, cursor) := take_field 8 "metadata u64" b cursor in
  Ok (from_be_bytes v, cursor).

Definition take_hash (b : bytes) (cursor : Z) : outcome StorageError (bytes * Z) :=
  let? '(v, cursor) := take_field 32 "metadata hash" b cursor in
  let? v := decode_hash v "metadata hash" in
  Ok (v, cursor).

Definition encode_marker (marker : FinalizedMarker) : bytes :=
  of_u64 (mk_height marker) ++ mk_consensus_hash marker ++ mk_domain_heads_root marker.

Definition decode_marker (b : bytes) : outcome StorageError FinalizedMarker :=
  if negb (zlen b =? 72) then Err (CorruptMetadata "finalized marker")
  else
    let? '(height, cursor) := take_u64 b 0 in
    let? '(consensus_hash, cursor) := take_hash b cursor in
    let? '(domain_heads_root, cursor) := take_hash b cursor in
    Ok {| mk_height := height; mk_consensus_hash := consensus_hash;
          mk_domain_heads_root := domain_heads_root |}.

Definition encode_head (height : Z) (root : bytes) : bytes := of_u64 height ++ root.

Definition decode_head (b : bytes) : outcome StorageError (Z * bytes) :=
  if negb (zlen b =? 40) then Err (CorruptMetadata "domain head")
  else
    let? '(height, cursor) := take_u64 b 0 in
    let? '(root, cursor) := take_hash b cursor in
    Ok (height, root).

(** [key.strip_prefix(prefix)] and the domain after it. *)
Definition decode_domain_suffix (key prefix : bytes) : outcome StorageError DomainId :=
  if negb (starts_with prefix key) then Err (CorruptMetadata "domain key prefix")
  else decode_hash (drop (length prefix) key) "domain key".

Record ReachabilityManifest := {
  rm_node_hashes : list bytes;
  rm_leaf_keys : list bytes;
}.

Definition strictly_sorted (values : list bytes) : bool := windows2_all tltb values.

(** [ReachabilityManifest::encode]. *)
Definition encode_reachability (m : ReachabilityManifest) : outcome StorageError bytes :=
  let? node_count := ok_or (try_from 32 (zlen (rm_node_hashes m))) (StorageLimit "manifest nodes") in
  let? leaf_count := ok_or (try_from 32 (zlen (rm_leaf_keys m))) (StorageLimit "manifest leaves") in
  Ok (of_u32 node_count ++ concat (rm_node_hashes m) ++
      of_u32 leaf_count ++ concat (rm_leaf_keys m)).

(** [for _ in 0..count]. *)
Fixpoint take_hashes (count : nat) (b : bytes) (cursor : Z) : outcome StorageError (list bytes * Z) :=
  match count with
  | O => Ok ([], cursor)
  | S count' =>
      let? '(hash, cursor) := take_hash b cursor in
      let? '(hashes, cursor) := take_hashes count' b cursor in
      Ok (hash :: hashes, cursor)
  end.

(** [ReachabilityManifest::decode]; the counts are [u32], so the products by 32
    are within [usize]. *)
Definition decode_reachability (b : bytes) : outcome StorageError ReachabilityManifest :=
  let? '(node_count, cursor) := take_u32 b 0 in
  let? node_bytes := ok_or (checked_mul 64 node_count 32) (StorageLimit "manifest nodes") in
  if saturating_sub (zlen b) cursor <? node_bytes + 4
  then Err (CorruptMetadata "truncated node manifest")
  else
    let? '(node_hashes, cursor) := take_hashes (Z.to_nat node_count) b cursor in
    let? '(leaf_count, cursor) := take_u32 b cursor in
    let? expected := ok_or (checked_add 64 cursor (leaf_count * 32)) (StorageLimit "manifest leaves") in
    if negb (expected =? zlen b) then Err (CorruptMetadata "manifest length")
    else
      let? '(leaf_keys, cursor) := take_hashes (Z.to_nat leaf_count) b cursor in
      if negb (strictly_sorted node_hashes) || negb (strictly_sorted leaf_keys)
      then Err (CorruptMetadata "non-canonical manifest order")
      else Ok {| rm_node_hashes := node_hashes; rm_leaf_keys := leaf_keys |}.

(** A repeated element: [any(|x| !set.insert(x))]. *)
Fixpoint repeats (seen : btree bytes unit) (l : list bytes) : bool :=
  match l with
  | [] => false
  | x :: l' => if bcontains x seen then true else repeats (binsert x tt seen) l'
  end.

Definition validate_unique (batch : CommitBatch) : outcome StorageError unit :=
  if repeats [] (ds_domain_id <$> cm_states batch) then Err (DuplicateCommitKey "domain state")
  else if repeats [] (iv_key <$> cm_receipts batch) then Err (DuplicateCommitKey "receipt")
  else if repeats [] (iv_key <$> cm_indexes batch) then Err (DuplicateCommitKey "index")
  else if repeats [] (iv_key <$> cm_domain_registry batch)
  then Err (DuplicateCommitKey "domain registry")
  else Ok tt.

(** ** Operations *)

(** [?] from a parity-db error and from a [StateError]. *)
Definition db_err {A : Type} (c : outcome string A) : outcome StorageError A :=
  map_err DatabaseFailed c.

Definition trie_err {A : Type} (c : outcome StateError A) : outcome StorageError A :=
  map_err StateFailed c.

(** [option.map(decode).transpose()?]. *)
Definition decoded {E A : Type} (found : option bytes) (decode : bytes → outcome E A)
    : outcome E (option A) :=
  match found with
  | Some b => let? a := decode b in Ok (Some a)
  | None => Ok None
  end.

Section database.
Context `{Keccak, AlloyRlp, !AlloyTrie, ParityDb}.

Record Database := {
  da_db : Db;
  da_identity : DatabaseIdentity;
  da_retention : RetentionPolicy;
}.

Definition with_db (self : Database) (db : Db) : Database :=
  {| da_db := db; da_identity := da_identity self; da_retention := da_retention self |}.

(** The database as a [NodeStore]. *)
Definition db_store (self : Database) : node_store := λ hash,
  map_err SE.Store (pdb_get (da_db self) COLUMN_TRIE_NODES hash).

(** A transaction: the outcome and the database it leaves. *)
Definition submit (self : Database) (t : list db_change) : outcome StorageError unit * Database :=
  let '(r, db) := pdb_commit (da_db self) t in
  (db_err r, with_db self db).

(** Continues after the database changed; an error keeps what was changed. *)
Definition after {A B : Type} (c : outcome StorageError A * Database)
    (k : A → Database → outcome StorageError B * Database) : outcome StorageError B * Database :=
  match c with
  | (Ok a, self) => k a self
  | (Err e, self) => (Err e, self)
  | (Panic m, self) => (Panic m, self)
  end.

Definition finalized_marker (self : Database) : outcome StorageError (option FinalizedMarker) :=
  let? found := db_err (pdb_get (da_db self) COLUMN_META KEY_MARKER) in
  decoded found decode_marker.

Definition latest_head (self : Database) (domain_id : DomainId)
    : outcome StorageError (option (Z * bytes)) :=
  let? found := db_err (pdb_get (da_db self) COLUMN_META (head_key domain_id)) in
  decoded found decode_head.

Definition load_manifest (self : Database) (domain_id : DomainId) (height : Z)
    : outcome StorageError (option ReachabilityManifest) :=
  let? found := db_err (pdb_get (da_db self) COLUMN_META (manifest_key domain_id height)) in
  decoded found decode_reachability.

(** What [commit] accumulates over the states of a batch. *)
Notation commit_state := (list db_change * btree bytes unit * CommitStats)%type.

(** One node of the loop of [append_state_changes]. *)
Definition append_node (self : Database) (acc : commit_state) (node : bytes * bytes)
    : outcome StorageError commit_state :=
  let '(transaction, pending, stats) := acc in
  let '(hash, encoded) := node in
  let? found := db_err (pdb_get (da_db self) COLUMN_TRIE_NODES hash) in
  match found with
  | Some existing =>
      if negb (bool_decide (existing = encoded)) then Err (CorruptMetadata "content hash collision")
      else Ok acc
  | None =>
      if bcontains hash pending then Ok acc
      else
        let? new_nodes := add_usize (st_new_nodes stats) 1 in
        let? new_node_bytes := add_usize (st_new_node_bytes stats) (zlen encoded) in
        Ok (transaction ++ [(COLUMN_TRIE_NODES, hash, Some encoded)], binsert hash tt pending,
            {| st_new_nodes := new_nodes; st_new_node_bytes := new_node_bytes;
               st_pruned_roots := st_pruned_roots stats;
               st_pruning_error := st_pruning_error stats |})
  end.

(** The leaf keys of the domain's head before the commit. *)
Definition old_leaf_keys (self : Database) (domain_id : DomainId) : outcome StorageError (list bytes) :=
  let? head := latest_head self domain_id in
  match head with
  | None => Ok []
  | Some (old_height, _) =>
      let? found := load_manifest self domain_id old_height in
      let? manifest := ok_or found (CorruptMetadata "missing latest manifest") in
      Ok (rm_leaf_keys manifest)
  end.

Definition snapshot_manifest_of (snapshot : TrieSnapshot) : ReachabilityManifest :=
  {| rm_node_hashes := bkeys (snap_nodes snapshot); rm_leaf_keys := bkeys (snap_leaves snapshot) |}.

Definition append_state_changes (self : Database) (state : DomainStateCommit) (acc : commit_state)
    : outcome StorageError commit_state :=
  let domain_id := ds_domain_id state in
  let height := ds_consensus_height state in
  let snapshot := ds_snapshot state in
  let? rebuilt := trie_err (memory_leaves (snap_root snapshot) (snap_nodes snapshot)) in
  if negb (bool_decide (rebuilt = snap_leaves snapshot))
  then Err (CorruptMetadata "snapshot leaves differ from trie")
  else
    let? '(transaction, pending, stats) := for_each (append_node self) acc (snap_nodes snapshot) in
    let? old_keys := old_leaf_keys self domain_id in
    let new_keys := bkeys (snap_leaves snapshot) in
    let removed := List.filter (λ k, negb (bool_decide (k ∈ new_keys))) old_keys in
    let? manifest := encode_reachability (snapshot_manifest_of snapshot) in
    Ok (transaction ++
        ((λ k, (COLUMN_FLAT_STATE, flat_key domain_id k, None)) <$> removed) ++
        ((λ e, (COLUMN_FLAT_STATE, flat_key domain_id e.1, Some e.2)) <$> snap_leaves snapshot) ++
        [(COLUMN_META, root_key domain_id height, Some (snap_root snapshot));
         (COLUMN_META, manifest_key domain_id height, Some manifest);
         (COLUMN_META, head_key domain_id, Some (encode_head height (snap_root snapshot)))],
        pending, stats).

(** One state of the loop of [commit]. *)
Definition append_state (self : Database) (marker_height : Z) (acc : commit_state)
    (state : DomainStateCommit) : outcome StorageError commit_state :=
  if marker_height <? ds_consensus_height state
  then Err (CorruptMetadata "domain state height exceeds finalized marker")
  else append_state_changes self state acc.

Definition append_code (transaction : list db_change) (entry : bytes * bytes)
    : outcome StorageError (list db_change) :=
  let '(hash, code) := entry in
  if negb (bool_decide (keccak256 code = hash)) then Err (CorruptMetadata "contract code hash")
  else Ok (transaction ++ [(COLUMN_CONTRACT_CODE, hash, Some code)]).

Definition append_registry (self : Database) (transaction : list db_change) (record : IndexedValue)
    : outcome StorageError (list db_change) :=
  if negb (zlen (iv_key record) =? 32) then Err (CorruptMetadata "domain registry key length")
  else
    let? found := db_err (pdb_get (da_db self) COLUMN_DOMAIN_REGISTRY (iv_key record)) in
    match found with
    | Some existing =>
        if negb (bool_decide (existing = iv_value record))
        then Err (CorruptMetadata "immutable domain registry conflict")
        else Ok transaction
    | None => Ok (transaction ++ [(COLUMN_DOMAIN_REGISTRY, iv_key record, Some (iv_value record))])
    end.

Definition indexed_change (column : Z) (record : IndexedValue) : db_change :=
  (column, iv_key record, Some (iv_value record)).

(** [Database::commit] up to the parity-db transaction. *)
Definition commit_transaction (self : Database) (batch : CommitBatch)
    : outcome StorageError (list db_change * CommitStats) :=
  let? current := finalized_marker self in
  run?
    match current with
    | Some current =>
        if mk_height (cm_marker batch) <=? mk_height current
        then Err (NonMonotonicCommit (mk_height current) (mk_height (cm_marker batch)))
        else Ok tt
    | None => Ok tt
    end in
  run? validate_unique batch in
  let empty :=
    {| st_new_nodes := 0; st_new_node_bytes := 0; st_pruned_roots := 0; st_pruning_error := None |} in
  let? '(transaction, pending, stats) :=
    for_each (append_state self (mk_height (cm_marker batch))) ([], [], empty) (cm_states batch) in
  let? transaction := for_each append_code transaction (cm_contract_code batch) in
  let transaction := transaction ++ (indexed_change COLUMN_RECEIPTS <$> cm_receipts batch) in
  let transaction := transaction ++ (indexed_change COLUMN_INDEXES <$> cm_indexes batch) in
  let? transaction := for_each (append_registry self) transaction (cm_domain_registry batch) in
  Ok (transaction ++ [(COLUMN_META, KEY_MARKER, Some (encode_marker (cm_marker batch)))], stats).

(** [iterator.seek(prefix)] and the entries up to the first other key. *)
Fixpoint while_prefixed (prefix : bytes) (l : list (bytes * bytes)) : list (bytes * bytes) :=
  match l with
  | [] => []
  | e :: l' => if starts_with prefix e.1 then e :: while_prefixed prefix l' else []
  end.

Definition scan_prefix (self : Database) (column : Z) (prefix : bytes)
    : outcome StorageError (list (bytes * bytes)) :=
  let? entries := db_err (pdb_scan (da_db self) column prefix) in
  Ok (while_prefixed prefix entries).

Definition prefixed_keys (self : Database) (column : Z) (prefix : bytes)
    : outcome StorageError (list bytes) :=
  let? entries := scan_prefix self column prefix in
  Ok entries.*1.

Definition all_keys (self : Database) (column : Z) : outcome StorageError (list bytes) :=
  let? entries := db_err (pdb_scan (da_db self) column []) in
  Ok entries.*1.

(** One manifest of the loop of [live_node_hashes]. *)
Definition add_live (excluding : option (DomainId * Z)) (live : btree bytes unit)
    (entry : bytes * bytes) : outcome StorageError (btree bytes unit) :=
  let '(key, value) := entry in
  let excluded :=
    match excluding with
    | Some (domain_id, height) => bool_decide (key = manifest_key domain_id height)
    | None => false
    end in
  if excluded then Ok live
  else
    let? manifest := decode_reachability value in
    Ok (bextend live ((λ h, (h, tt)) <$> rm_node_hashes manifest)).

Definition live_node_hashes (self : Database) (excluding : option (DomainId * Z))
    : outcome StorageError (btree bytes unit) :=
  let? entries := scan_prefix self COLUMN_META PREFIX_MANIFEST in
  for_each (add_live excluding) [] entries.

(** [prune_root] up to its transaction, with the hashes it deletes. *)
Definition prune_transaction (self : Database) (domain_id : DomainId) (height : Z)
    : outcome StorageError (list db_change * Z) :=
  let? head := latest_head self domain_id in
  if bool_decide (fst <$> head = Some height) then Err PruneCurrentHead
  else
    let? found := load_manifest self domain_id height in
    let? removed := ok_or found (MissingRoot domain_id height) in
    let? live := live_node_hashes self (Some (domain_id, height)) in
    let dead := List.filter (λ h, negb (bcontains h live)) (rm_node_hashes removed) in
    Ok ([(COLUMN_META, root_key domain_id height, None);
         (COLUMN_META, manifest_key domain_id height, None)] ++
        ((λ h, (COLUMN_TRIE_NODES, h, None)) <$> dead), zlen dead).

Definition prune_root (self : Database) (domain_id : DomainId) (height : Z)
    : outcome StorageError Z * Database :=
  match prune_transaction self domain_id height with
  | Ok (transaction, deleted) => after (submit self transaction) (λ _ self, (Ok deleted, self))
  | Err e => (Err e, self)
  | Panic m => (Panic m, self)
  end.

(** The height at the end of a root key. *)
Definition root_height (prefix : bytes) (entry : bytes * bytes) : outcome StorageError Z :=
  let suffix := drop (length prefix) entry.1 in
  if negb (length suffix =? 8)%nat then Err (CorruptMetadata "root height key")
  else Ok (from_be_bytes suffix).

Definition root_heights (self : Database) (domain_id : DomainId) : outcome StorageError (list Z) :=
  let prefix := root_prefix domain_id in
  let? entries := scan_prefix self COLUMN_META prefix in
  collect (root_height prefix) entries.

(** The inner loop of [apply_retention]. *)
Fixpoint prune_heights (self : Database) (domain_id : DomainId) (cutoff pruned : Z) (heights : list Z)
    : outcome StorageError Z * Database :=
  match heights with
  | [] => (Ok pruned, self)
  | old_height :: heights' =>
      if old_height <? cutoff
      then after (prune_root self domain_id old_height)
             (λ _ self, prune_heights self domain_id cutoff (pruned + 1) heights')
      else prune_heights self domain_id cutoff pruned heights'
  end.

(** The outer loop of [apply_retention]. *)
Fixpoint retain_states (self : Database) (cutoff pruned : Z) (states : list DomainStateCommit)
    : outcome StorageError Z * Database :=
  match states with
  | [] => (Ok pruned, self)
  | state :: states' =>
      after (root_heights self (ds_domain_id state), self) (λ heights self,
        after (prune_heights self (ds_domain_id state) cutoff pruned heights) (λ pruned self,
          retain_states self cutoff pruned states'))
  end.

Definition apply_retention (self : Database) (height : Z) (states : list DomainStateCommit)
    : outcome StorageError Z * Database :=
  match da_retention self with
  | Archive => (Ok 0, self)
  | Full history =>
      let cutoff := saturating_sub height (saturating_sub history 1) in
      retain_states self cutoff 0 states
  end.

Definition with_pruning (stats : CommitStats) (pruned : Z) (error : option StorageError) : CommitStats :=
  {| st_new_nodes := st_new_nodes stats; st_new_node_bytes := st_new_node_bytes stats;
     st_pruned_roots := pruned; st_pruning_error := error |}.

(** [Database::commit]. *)
Definition database_commit (self : Database) (batch : CommitBatch)
    : outcome StorageError CommitStats * Database :=
  after (commit_transaction self batch, self) (λ prepared self,
    let '(transaction, stats) := prepared in
    after (submit self transaction) (λ _ self,
      match apply_retention self (mk_height (cm_marker batch)) (cm_states batch) with
      | (Ok pruned, self) => (Ok (with_pruning stats pruned None), self)
      | (Err e, self) => (Ok (with_pruning stats (st_pruned_roots stats) (Some e)), self)
      | (Panic m, self) => (Panic m, self)
      end)).

(** [Database::state_root]. *)
Definition db_state_root (self : Database) (domain_id : DomainId) (height : Z)
    : outcome StorageError bytes :=
  let? found := db_err (pdb_get (da_db self) COLUMN_META (root_key domain_id height)) in
  let? b := ok_or found (MissingRoot domain_id height) in
  decode_hash b "state root".

Definition state_proof (self : Database) (domain_id : DomainId) (height : Z) (secure_key : bytes)
    : outcome StorageError StateProof :=
  let? root := db_state_root self domain_id height in
  trie_err (proof root secure_key (db_store self)).

Definition flat_state (self : Database) (domain_id : DomainId) (secure_key : bytes)
    : outcome StorageError (option bytes) :=
  db_err (pdb_get (da_db self) COLUMN_FLAT_STATE (flat_key domain_id secure_key)).

(** [Database::contract_code]. *)
Definition db_contract_code (self : Database) (code_hash : bytes) : outcome StorageError (option bytes) :=
  let? code := db_err (pdb_get (da_db self) COLUMN_CONTRACT_CODE code_hash) in
  match code with
  | Some b =>
      if negb (bool_decide (keccak256 b = code_hash)) then Err (CorruptMetadata "contract code hash")
      else Ok (Some b)
  | None => Ok None
  end.

(** [Database::receipt] and [Database::index]. *)
Definition db_receipt (self : Database) (key : bytes) : outcome StorageError (option bytes) :=
  db_err (pdb_get (da_db self) COLUMN_RECEIPTS key).

Definition db_index (self : Database) (key : bytes) : outcome StorageError (option bytes) :=
  db_err (pdb_get (da_db self) COLUMN_INDEXES key).

Definition clear_flat_state (self : Database) (domain_id : DomainId) : outcome StorageError Z * Database :=
  after (prefixed_keys self COLUMN_FLAT_STATE domain_id, self) (λ keys self,
    after (submit self ((λ key, (COLUMN_FLAT_STATE, key, None)) <$> keys)) (λ _ self,
      (Ok (zlen keys), self))).

(** [fuel] bounds the references followed through the stored nodes. *)
Definition rebuild_flat_state (fuel : nat) (self : Database) (domain_id : DomainId) (root : bytes)
    : outcome StorageError Z * Database :=
  after (trie_err (collect_leaves fuel root (db_store self)), self) (λ leaves self,
    after (submit self ((λ e, (COLUMN_FLAT_STATE, flat_key domain_id e.1, Some e.2)) <$> leaves))
      (λ _ self, (Ok (zlen leaves), self))).

Definition put_snapshot_manifest (self : Database) (manifest : SnapshotManifest)
    : outcome StorageError unit * Database :=
  after (trie_err (encode_manifest manifest), self) (λ encoded self,
    submit self
      [(COLUMN_SNAPSHOTS, root_key (sm_domain_id manifest) (sm_consensus_height manifest), Some encoded)]).

Definition snapshot_manifest (self : Database) (domain_id : DomainId) (height : Z)
    : outcome StorageError (option SnapshotManifest) :=
  let? found := db_err (pdb_get (da_db self) COLUMN_SNAPSHOTS (root_key domain_id height)) in
  decoded found (λ b, trie_err (decode_manifest b)).

(** One entry of the loop of [replace_domain_registry]. *)
Definition replace_entry (acc : list db_change * btree bytes unit) (entry : DomainId * bytes)
    : outcome StorageError (list db_change * btree bytes unit) :=
  let '(transaction, seen) := acc in
  let '(domain_id, value) := entry in
  if bcontains domain_id seen then Err (DuplicateCommitKey "domain registry")
  else Ok (transaction ++ [(COLUMN_DOMAIN_REGISTRY, domain_id, Some value)], binsert domain_id tt seen).

Definition replace_domain_registry (self : Database) (entries : list (DomainId * bytes))
    : outcome StorageError unit * Database :=
  after (all_keys self COLUMN_DOMAIN_REGISTRY, self) (λ existing self,
    after
      (for_each replace_entry ((λ key, (COLUMN_DOMAIN_REGISTRY, key, None)) <$> existing, []) entries,
       self)
      (λ acc self, submit self acc.1)).

Definition domain_registry (self : Database) (domain_id : DomainId) : outcome StorageError (option bytes) :=
  db_err (pdb_get (da_db self) COLUMN_DOMAIN_REGISTRY domain_id).

(** One account of the loop of [validate_execution_root]. *)
Definition validate_account (fuel : nat) (self : Database) (_ : unit) (encoded : bytes)
    : outcome StorageError unit :=
  let? account := trie_err (decode_account encoded) in
  run?
    if bool_decide (storage_root account = EMPTY_ROOT_HASH) then Ok []
    else trie_err (collect_leaves fuel (storage_root account) (db_store self)) in
  if bool_decide (code_hash account = KECCAK_EMPTY) then Ok tt
  else
    let? code := db_contract_code self (code_hash account) in
    run? ok_or code (CorruptMetadata "missing current contract code") in
    Ok tt.

Definition validate_execution_root (fuel : nat) (self : Database) (state_root : bytes)
    : outcome StorageError Z :=
  let? leaves := trie_err (collect_leaves fuel state_root (db_store self)) in
  run? for_each (validate_account fuel self) tt (bvalues leaves) in
  Ok (zlen leaves).

Definition read_schema (db : Db) : outcome StorageError Z :=
  let? found := db_err (pdb_get db COLUMN_META KEY_SCHEMA) in
  let? b := ok_or found (CorruptMetadata "missing schema version") in
  if negb (length b =? 4)%nat then Err (CorruptMetadata "schema version") else Ok (from_be_bytes b).

(** One head of the loop of [inspect]. *)
Definition inspect_head (fuel : nat) (self : Database) (entry : bytes * bytes)
    : outcome StorageError RootHealth :=
  let? domain_id := decode_domain_suffix entry.1 PREFIX_HEAD in
  let? '(height, state_root) := decode_head entry.2 in
  match validate_execution_root fuel self state_root with
  | Ok leaf_count =>
      Ok {| rh_domain_id := domain_id; rh_state_root := state_root; rh_leaves := Some leaf_count;
            rh_error := None |}
  | Err e =>
      Ok {| rh_domain_id := domain_id; rh_state_root := state_root; rh_leaves := None;
            rh_error := Some e |}
  | Panic m => Panic m
  end.

Definition inspect (fuel : nat) (self : Database) : outcome StorageError DatabaseInspection :=
  let? schema_version := read_schema (da_db self) in
  let? entries := scan_prefix self COLUMN_META PREFIX_HEAD in
  let? roots := collect (inspect_head fuel self) entries in
  let? finalized := finalized_marker self in
  Ok {| di_schema_version := schema_version; di_identity := da_identity self;
        di_finalized := finalized; di_roots := roots |}.

Definition initialize_or_validate (db : Db) (identity : DatabaseIdentity)
    : outcome StorageError unit * Db :=
  let get key := db_err (pdb_get db COLUMN_META key) in
  let checked :=
    let? schema := get KEY_SCHEMA in
    match schema with
    | None =>
        let? network := get KEY_NETWORK in
        let? partial :=
          if bool_decide (network = None) then
            let? genesis := get KEY_GENESIS in
            if bool_decide (genesis = None) then
              let? marker := get KEY_MARKER in
              Ok (negb (bool_decide (marker = None)))
            else Ok true
          else Ok true in
        if (partial : bool) then Err (CorruptMetadata "partial schema identity")
        else
          Ok [(COLUMN_META, KEY_SCHEMA, Some (of_u32 SCHEMA_VERSION));
              (COLUMN_META, KEY_NETWORK, Some (id_network_id identity));
              (COLUMN_META, KEY_GENESIS, Some (id_genesis_hash identity))]
    | Some _ =>
        let? actual := read_schema db in
        if negb (actual =? SCHEMA_VERSION) then Err (UnsupportedSchema SCHEMA_VERSION actual)
        else
          let? network := get KEY_NETWORK in
          let? network := ok_or network (CorruptMetadata "missing network id") in
          let? genesis := get KEY_GENESIS in
          let? genesis := ok_or genesis (CorruptMetadata "missing genesis hash") in
          let? network := decode_hash network "network id" in
          if negb (bool_decide (network = id_network_id identity)) then Err IdentityMismatch
          else
            let? genesis := decode_hash genesis "genesis hash" in
            if negb (bool_decide (genesis = id_genesis_hash identity)) then Err IdentityMismatch
            else Ok []
    end in
  match checked with
  | Ok [] => (Ok tt, db)
  | Ok transaction => let '(r, db) := pdb_commit db transaction in (db_err r, db)
  | Err e => (Err e, db)
  | Panic m => (Panic m, db)
  end.

(** [Database::open]; [opened] is what [Db::open_or_create] returned. *)
Definition open_database (opened : outcome string Db) (identity : DatabaseIdentity)
    (retention : RetentionPolicy) : outcome StorageError Database :=
  run? validate_retention retention in
  let? db := db_err opened in
  let '(r, db) := initialize_or_validate db identity in
  run? r in
  Ok {| da_db := db; da_identity := identity; da_retention := retention |}.
End database.

(** ** Records round-trip *)

Lemma take_field_at n what pre v rest cursor :
  cursor = zlen pre → zlen v = n → take_field n what (pre ++ v ++ rest) cursor = Ok (v, cursor + n).
Proof. intros -> <-. unfold take_field. by rewrite (get_range_app pre v rest). Qed.

Lemma read_u32_at pre v rest cursor :
  cursor = zlen pre → u32 v → take_u32 (pre ++ of_u32 v ++ rest) cursor = Ok (v, cursor + 4).
Proof.
  intros -> Hv. unfold take_u32. rewrite take_field_at by (rewrite ?zlen_to_be_bytes; done).
  cbn [obind]. by rewrite from_to_be_bytes.
Qed.

Lemma read_u64_at pre v rest cursor :
  cursor = zlen pre → u64 v → take_u64 (pre ++ of_u64 v ++ rest) cursor = Ok (v, cursor + 8).
Proof.
  intros -> Hv. unfold take_u64. rewrite take_field_at by (rewrite ?zlen_to_be_bytes; done).
  cbn [obind]. by rewrite from_to_be_bytes.
Qed.

Lemma take_u32_first v rest : u32 v → take_u32 (of_u32 v ++ rest) 0 = Ok (v, 4).
Proof. exact (read_u32_at [] v rest 0 eq_refl). Qed.

Lemma take_u64_first v rest : u64 v → take_u64 (of_u64 v ++ rest) 0 = Ok (v, 8).
Proof. exact (read_u64_at [] v rest 0 eq_refl). Qed.

Lemma decode_hash_ok b name : is_b256 b → decode_hash b name = Ok b.
Proof. unfold decode_hash. by intros ->. Qed.

Lemma zlen_b256 b : is_b256 b → zlen b = 32.
Proof. unfold zlen. by intros ->. Qed.

Lemma read_hash_at pre v rest cursor :
  cursor = zlen pre → is_b256 v → take_hash (pre ++ v ++ rest) cursor = Ok (v, cursor + 32).
Proof.
  intros -> Hv. unfold take_hash. rewrite take_field_at by (done || by apply zlen_b256).
  cbn [obind]. by rewrite decode_hash_ok.
Qed.

Lemma take_hashes_at hs pre rest cursor :
  cursor = zlen pre → Forall is_b256 hs →
  take_hashes (length hs) (pre ++ concat hs ++ rest) cursor = Ok (hs, cursor + 32 * zlen hs).
Proof.
  intros Hc Hall. revert pre cursor Hc. induction Hall as [|h hs Hh Hall IH]; intros pre cursor Hc; cbn.
  - by rewrite Z.add_0_r.
  - rewrite <-app_assoc, read_hash_at by done. cbn [obind].
    rewrite app_assoc, IH; [|by rewrite zlen_app, Hc, (zlen_b256 h)]. cbn. rewrite zlen_cons.
    do 2 f_equal. lia.
Qed.

Lemma zlen_concat_b256 hs : Forall is_b256 hs → zlen (concat hs) = 32 * zlen hs.
Proof. induction 1 as [|h hs Hh _ IH]; [done|]. cbn. rewrite zlen_app, zlen_cons, IH, (zlen_b256 h); [lia|done]. Qed.

(** Lengths of the parts of a record. *)
Ltac sized := rewrite ?zlen_app, ?zlen_to_be_bytes, ?zlen_b256, ?zlen_concat_b256 by done; done || lia.

Definition wf_marker (m : FinalizedMarker) : Prop :=
  u64 (mk_height m) ∧ is_b256 (mk_consensus_hash m) ∧ is_b256 (mk_domain_heads_root m).

Lemma decode_encode_marker m : wf_marker m → decode_marker (encode_marker m) = Ok m.
Proof.
  intros (Hh & Hc & Hr). unfold decode_marker, encode_marker.
  rewrite !zlen_app, zlen_to_be_bytes, !zlen_b256 by done. cbn [negb].
  rewrite take_u64_first by done. cbn [obind].
  rewrite read_hash_at by sized. cbn [obind].
  rewrite <-(app_nil_r (mk_domain_heads_root m)), app_assoc.
  rewrite read_hash_at by sized. cbn. by destruct m.
Qed.

Lemma decode_encode_head h root : u64 h → is_b256 root → decode_head (encode_head h root) = Ok (h, root).
Proof.
  intros Hh Hr. unfold decode_head, encode_head.
  rewrite !zlen_app, zlen_to_be_bytes, !zlen_b256 by done. cbn [negb].
  rewrite take_u64_first by done. cbn [obind]. rewrite <-(app_nil_r root).
  rewrite read_hash_at by sized. cbn [obind]. by rewrite app_nil_r.
Qed.

Definition wf_reachability (m : ReachabilityManifest) : Prop :=
  Forall is_b256 (rm_node_hashes m) ∧ Forall is_b256 (rm_leaf_keys m) ∧
  StronglySorted tlt (rm_node_hashes m) ∧ StronglySorted tlt (rm_leaf_keys m).

(** What is written as a manifest reads back. *)
Lemma decode_encode_reachability m b :
  wf_reachability m → encode_reachability m = Ok b → decode_reachability b = Ok m.
Proof.
  intros (Hn & Hl & Sn & Sl) He. unfold encode_reachability in He.
  apply obind_Ok in He as (n & Hok & He). apply obind_Ok in He as (l & Hok0 & He). apply Ok_inj in He as <-.
  apply ok_or_Ok, try_from_Some in Hok as [-> Un]. apply ok_or_Ok, try_from_Some in Hok0 as [-> Ul].
  unfold decode_reachability.
  rewrite take_u32_first by done. cbn [obind].
  pose proof (zlen_nonneg (rm_node_hashes m)). pose proof (zlen_nonneg (rm_leaf_keys m)).
  unfold fits in Un, Ul. unfold checked_mul, checked_add, saturating_sub.
  rewrite !zlen_app, !zlen_to_be_bytes, !zlen_concat_b256 by done. guards. cbn [ok_or obind].
  guards. rewrite <-length_zlen.
  rewrite take_hashes_at by sized. cbn [obind].
  rewrite app_assoc, read_u32_at by sized.
  cbn [obind]. guards. cbn [ok_or obind]. guards. rewrite <-length_zlen.
  rewrite app_assoc, <-(app_nil_r (concat (rm_leaf_keys m))).
  rewrite take_hashes_at by sized. cbn [obind].
  unfold strictly_sorted. rewrite (proj2 (strict_StronglySorted _) Sn), (proj2 (strict_StronglySorted _) Sl).
  by destruct m.
Qed.

(** ** Keys *)

(** The record a key of the metadata column names. *)
Lemma root_key_inj d h d' h' :
  is_b256 d → is_b256 d' → u64 h → u64 h' → root_key d h = root_key d' h' → d = d' ∧ h = h'.
Proof.
  unfold root_key, root_prefix. intros Hd Hd' Hh Hh' E. rewrite <-!app_assoc in E.
  apply app_inv_head in E. apply app_inj_1 in E as [-> E]; [|congruence].
  split; [done|]. by apply to_be_bytes_inj in E.
Qed.

Lemma manifest_key_inj d h d' h' :
  is_b256 d → is_b256 d' → u64 h → u64 h' → manifest_key d h = manifest_key d' h' → d = d' ∧ h = h'.
Proof.
  unfold manifest_key. intros Hd Hd' Hh Hh' E.
  apply app_inv_head in E. apply app_inj_1 in E as [-> E]; [|congruence].
  split; [done|]. by apply to_be_bytes_inj in E.
Qed.

Lemma head_key_inj d d' : head_key d = head_key d' → d = d'.
Proof. apply app_inv_head. Qed.

Lemma flat_key_inj d k d' k' : is_b256 d → is_b256 d' → flat_key d k = flat_key d' k' → d = d' ∧ k = k'.
Proof. intros Hd Hd' E. apply app_inj_1 in E as [-> ->]; [done|congruence]. Qed.

(** ** Scans *)

(** Keys with a prefix are the first of those from the prefix on. *)
Lemma prefix_interval (p a b : bytes) : tleb p a = true → tlt a b → starts_with p b = true → starts_with p a = true.
Proof.
  unfold tleb, tlt. cbn [tcompare list_total_order]. revert a b.
  induction p as [|x p IH]; intros [|y a] [|z b] Hle Hlt Hb; cbn in *; try done.
  apply andb_true_iff in Hb as [Hx Hb]. apply Byte.byte_dec_bl in Hx as ->.
  rewrite (Z.compare_antisym (byte_val z) (byte_val y)) in Hlt.
  destruct (Z.compare_spec (byte_val z) (byte_val y)) as [E|E|E]; cbn in *; [|done|done].
  apply byte_val_inj in E as ->. rewrite (Byte.byte_dec_lb (eq_refl y)). cbn. by eapply IH.
Qed.

Lemma starts_with_le p a : starts_with p a = true → tleb p a = true.
Proof.
  unfold tleb. cbn [tcompare list_total_order]. revert a.
  induction p as [|x p IH]; intros [|y a] Ha; cbn in *; try done.
  apply andb_true_iff in Ha as [Hx Ha]. apply Byte.byte_dec_bl in Hx as ->.
  rewrite Z.compare_refl. by apply IH.
Qed.

Lemma while_prefixed_in p (m : btree bytes bytes) e :
  sorted m → Forall (λ e, tleb p e.1 = true) m →
  e ∈ while_prefixed p m ↔ e ∈ m ∧ starts_with p e.1 = true.
Proof.
  intros Hs. induction m as [|e0 m IH]; intros Hall; cbn.
  - split; [by intros ?%elem_of_nil|by intros [?%elem_of_nil _]].
  - inversion Hall as [|? ? Hle Hall']; subst. inversion Hs as [|? ? Hs' Hlt]; subst.
    destruct (starts_with p e0.1) eqn:E0.
    + rewrite !elem_of_cons, IH by done. naive_solver.
    + split; [by intros ?%elem_of_nil|]. intros [[->|Hin]%elem_of_cons Hp]; [congruence|].
      rewrite list.Forall_forall in Hlt. exfalso.
      rewrite (prefix_interval p e0.1 e.1) in E0; [done|done| |done].
      apply Hlt, list_elem_of_fmap. by exists e.
Qed.

Section scans.
Context `{ParityDb, !ParityDbLaws}.

Lemma scan_prefix_in (d : Database) c p l k v :
  scan_prefix d c p = Ok l →
  (k, v) ∈ l ↔ bget k (contents (da_db d) c) = Some v ∧ starts_with p k = true.
Proof.
  unfold scan_prefix. intros Hs. ok_inv. subst l. unfold db_err in Hok. apply map_err_Ok in Hok.
  apply pdb_scan_reads in Hok as ->. rewrite while_prefixed_in.
  - cbn. rewrite list_elem_of_In, filter_In, <-list_elem_of_In. cbn. split.
    + intros [[Hin _] Hp]. split; [|done]. apply elem_of_bget; [apply contents_sorted|done].
    + intros [Hg Hp]. split; [|done]. split; [by apply bget_elem_of|by apply starts_with_le].
  - eapply sorted_sublist; [|exact (contents_sorted (da_db d) c)].
    induction (contents (da_db d) c) as [|e m IH]; cbn; [constructor|]. destruct (tleb p e.1); by constructor.
  - apply list.Forall_forall. intros e. rewrite list_elem_of_In, filter_In. naive_solver.
Qed.
End scans.

(** ** Transactions *)

Lemma written_in t c k w : NoDup t.*1 → written t c k = Some w ↔ (c, k, w) ∈ t.
Proof.
  induction t as [|[[c0 k0] v0] t IH]; cbn; intros Hn.
  - split; [done|by intros ?%elem_of_nil].
  - apply list.NoDup_cons in Hn as [Hni Hn]. case_bool_decide as E.
    + injection E as -> ->. split; [intros [= ->]; by left|]. intros [[= ->]|Hin]%elem_of_cons; [done|].
      exfalso. apply Hni, list_elem_of_fmap. by exists (c, k, w).
    + rewrite IH by done. rewrite elem_of_cons. naive_solver.
Qed.

Lemma written_Some_in t c k w : written t c k = Some w → (c, k, w) ∈ t.
Proof.
  induction t as [|[[c0 k0] v0] t IH]; cbn; [done|]. case_bool_decide as E; [|intros; right; auto].
  injection E as -> ->. intros [= ->]. by left.
Qed.

Lemma written_app t1 t2 c k :
  written (t1 ++ t2) c k = match written t1 c k with Some w => Some w | None => written t2 c k end.
Proof. induction t1 as [|[[c0 k0] v0] t1 IH]; cbn; [done|]. by case_bool_decide. Qed.

Lemma written_none t c k : written t c k = None ↔ (c, k) ∉ t.*1.
Proof.
  induction t as [|[[c0 k0] v0] t IH]; cbn; [split; [intros _ ?%elem_of_nil|]; done|].
  rewrite not_elem_of_cons. case_bool_decide; naive_solver.
Qed.

Section submit.
Context `{ParityDb, !ParityDbLaws}.

(** The stored value of a key of a column. *)
Definition stored (d : Database) (c : Z) (k : bytes) : option bytes := bget k (contents (da_db d) c).

Lemma get_stored (d : Database) c k v : pdb_get (da_db d) c k = Ok v → v = stored d c k.
Proof. apply pdb_get_reads. Qed.

Lemma submit_Ok (d d' : Database) t u :
  submit d t = (Ok u, d') → NoDup t.*1 →
  da_retention d' = da_retention d ∧
  (∀ c k w, (c, k, w) ∈ t → stored d' c k = w) ∧
  (∀ c k, (c, k) ∉ t.*1 → stored d' c k = stored d c k).
Proof.
  unfold submit, stored. destruct (pdb_commit (da_db d) t) as [r db] eqn:Ec. intros [= Hr <-] Hn.
  destruct r as [[]| |]; try done. cbn. split; [done|].
  pose proof (pdb_commit_applies _ _ _ Hn Ec) as Ha. split.
  - intros c k w Hin. rewrite Ha. by apply written_in in Hin as ->.
  - intros c k Hni. rewrite Ha. by apply written_none in Hni as ->.
Qed.

Lemma submit_frame (d d' : Database) t r :
  submit d t = (r, d') → da_retention d' = da_retention d ∧ ∀ c k, (c, k) ∉ t.*1 → stored d' c k = stored d c k.
Proof.
  unfold submit, stored. destruct (pdb_commit (da_db d) t) as [r0 db] eqn:Ec. intros [= _ <-]. split; [done|].
  intros c k Hni. destruct r0 as [[]|e|m]; [by apply (pdb_commit_frame _ _ _ Ec)|by apply (pdb_commit_fails _ _ _ _ Ec)..].
Qed.

Lemma submit_not_Ok (d d' : Database) t r :
  submit d t = (r, d') → r ≠ Ok tt →
  da_retention d' = da_retention d ∧ ∀ c k, stored d' c k = stored d c k.
Proof.
  unfold submit, stored. destruct (pdb_commit (da_db d) t) as [r0 db] eqn:Ec. intros [= <- <-] Hr.
  split; [done|]. eapply pdb_commit_fails; [exact Ec|]. intros ->. by apply Hr.
Qed.
End submit.

(** ** What a commit writes *)

(** Contract code, receipts, indexes and registry records. *)
Definition record_columns : list Z :=
  [COLUMN_CONTRACT_CODE; COLUMN_RECEIPTS; COLUMN_INDEXES; COLUMN_DOMAIN_REGISTRY].

(** A column that is not in a list of columns. *)
Ltac no_column Hin :=
  cbn [fst snd] in Hin; unfold record_columns in Hin;
  unfold COLUMN_META, COLUMN_TRIE_NODES, COLUMN_FLAT_STATE, COLUMN_CONTRACT_CODE, COLUMN_RECEIPTS,
    COLUMN_INDEXES, COLUMN_DOMAIN_REGISTRY in Hin; rewrite ?elem_of_cons, elem_of_nil in Hin; lia.

(** The maps of a snapshot as the types of the code make them. *)
Definition wf_snapshot (s : TrieSnapshot) : Prop :=
  is_b256 (snap_root s) ∧ sorted (snap_nodes s) ∧ sorted (snap_leaves s) ∧
  Forall is_b256 (bkeys (snap_nodes s)) ∧ Forall is_b256 (bkeys (snap_leaves s)).

Definition wf_state (s : DomainStateCommit) : Prop :=
  is_b256 (ds_domain_id s) ∧ u64 (ds_consensus_height s) ∧ wf_snapshot (ds_snapshot s).

Definition wf_batch (b : CommitBatch) : Prop :=
  wf_marker (cm_marker b) ∧ Forall wf_state (cm_states b) ∧ sorted (cm_contract_code b).

Section commit.
Context `{Keccak, AlloyRlp, !AlloyTrie, ParityDb, !ParityDbLaws}.

Definition manifest_bytes (s : TrieSnapshot) : bytes :=
  match encode_reachability (snapshot_manifest_of s) with Ok b => b | _ => [] end.

(** A snapshot whose leaves are those of its nodes and whose manifest is encodable. *)
Definition snapshot_ok (s : TrieSnapshot) : Prop :=
  wf_snapshot s ∧ memory_leaves (snap_root s) (snap_nodes s) = Ok (snap_leaves s) ∧
  encode_reachability (snapshot_manifest_of s) = Ok (manifest_bytes s).

Section loop.
Context (d : Database).

Definition old_keys_of (domain_id : DomainId) : list bytes :=
  match old_leaf_keys d domain_id with Ok ks => ks | _ => [] end.

Definition removed_keys (s : DomainStateCommit) : list bytes :=
  List.filter (λ k, negb (bool_decide (k ∈ bkeys (snap_leaves (ds_snapshot s)))))
    (old_keys_of (ds_domain_id s)).

Definition state_changes (s : DomainStateCommit) : list db_change :=
  ((λ k, (COLUMN_FLAT_STATE, flat_key (ds_domain_id s) k, None)) <$> removed_keys s) ++
  ((λ e, (COLUMN_FLAT_STATE, flat_key (ds_domain_id s) e.1, Some e.2)) <$> snap_leaves (ds_snapshot s)) ++
  [(COLUMN_META, root_key (ds_domain_id s) (ds_consensus_height s), Some (snap_root (ds_snapshot s)));
   (COLUMN_META, manifest_key (ds_domain_id s) (ds_consensus_height s),
    Some (manifest_bytes (ds_snapshot s)));
   (COLUMN_META, head_key (ds_domain_id s),
    Some (encode_head (ds_consensus_height s) (snap_root (ds_snapshot s))))].

Definition node_change (e : bytes * bytes) : db_change := (COLUMN_TRIE_NODES, e.1, Some e.2).

(** A node is stored, or is among those the transaction adds. *)
Definition accounted (pending : btree bytes unit) (e : bytes * bytes) : Prop :=
  stored d COLUMN_TRIE_NODES e.1 = Some e.2 ∨
  stored d COLUMN_TRIE_NODES e.1 = None ∧ bcontains e.1 pending = true.

Lemma contains_insert h k (pending : btree bytes unit) :
  bcontains h (binsert k tt pending) = true ↔ h = k ∨ bcontains h pending = true.
Proof.
  rewrite !bcontains_true, bget_binsert. destruct (teqb h k) eqn:E.
  - apply teqb_eq in E. naive_solver.
  - apply teqb_neq in E. naive_solver.
Qed.

Lemma append_nodes nodes t pending stats t' pending' stats' :
  for_each (append_node d) (t, pending, stats) nodes = Ok (t', pending', stats') →
  ∃ added, t' = t ++ (node_change <$> added) ∧ NoDup added.*1 ∧
    (∀ e, e ∈ added → e ∈ nodes ∧ stored d COLUMN_TRIE_NODES e.1 = None ∧ bcontains e.1 pending = false) ∧
    (∀ h, bcontains h pending' = true ↔ bcontains h pending = true ∨ h ∈ added.*1) ∧
    Forall (accounted pending') nodes.
Proof.
  revert t pending stats. induction nodes as [|[h e] nodes IH]; intros t pending stats Hr; cbn in Hr.
  { injection Hr as <- <- <-. exists []. cbn [fmap list_fmap]. rewrite app_nil_r. split_and!; [done|constructor| | |constructor].
    - by intros ? ?%elem_of_nil.
    - intros h. rewrite elem_of_nil. naive_solver. }
  apply obind_Ok in Hr as ([[t1 p1] s1] & Hn & Hr). ok_inv. rename a into found.
  unfold db_err in Hok. apply map_err_Ok, get_stored in Hok as ->.
  destruct (stored d COLUMN_TRIE_NODES h) as [existing|] eqn:Hst; [|destruct (bcontains h pending) eqn:Hp].
  - ok_inv. simplify_eq. bool_prop. subst existing.
    apply IH in Hr as (added & -> & Hnd & Hin & Hpe & Hac). exists added. split_and!; try done.
    + intros x Hx. destruct (Hin x Hx) as (? & ? & ?). split_and!; [by right|done..].
    + constructor; [by left|done].
  - injection Hn as -> -> ->.
    apply IH in Hr as (added & -> & Hnd & Hin & Hpe & Hac). exists added. split_and!; try done.
    + intros x Hx. destruct (Hin x Hx) as (? & ? & ?). split_and!; [by right|done..].
    + constructor; [right; split; [done|]; apply Hpe; by left|done].
  - ok_inv. simplify_eq.
    apply IH in Hr as (added & -> & Hnd & Hin & Hpe & Hac). exists ((h, e) :: added).
    assert (∀ x, x ∈ added → bcontains x.1 pending = false ∧ x.1 ≠ h) as Hfresh.
    { intros x Hx. destruct (Hin x Hx) as (_ & _ & Hc). apply not_true_iff_false in Hc.
      rewrite contains_insert in Hc. split; [apply not_true_iff_false; naive_solver|naive_solver]. }
    split_and!.
    + by rewrite <-app_assoc.
    + cbn. apply list.NoDup_cons. split; [|done]. intros (x & E & Hx)%list_elem_of_fmap.
      by destruct (Hfresh x Hx) as [_ []].
    + intros x [->|Hx]%elem_of_cons; [split_and!; [by left|done..]|].
      destruct (Hin x Hx) as (? & ? & _), (Hfresh x Hx) as [? _]. split_and!; [by right|done..].
    + intros h'. rewrite Hpe, contains_insert. cbn. rewrite elem_of_cons. naive_solver.
    + constructor; [|done]. right. split; [done|]. cbn. apply Hpe. left. apply contains_insert. by left.
Qed.

Lemma append_state_inv mh t pending stats s t' pending' stats' :
  append_state d mh (t, pending, stats) s = Ok (t', pending', stats') → wf_state s →
  ∃ added, t' = t ++ (node_change <$> added) ++ state_changes s ∧ NoDup added.*1 ∧
    (∀ e, e ∈ added → e ∈ snap_nodes (ds_snapshot s) ∧ stored d COLUMN_TRIE_NODES e.1 = None ∧
          bcontains e.1 pending = false) ∧
    (∀ h, bcontains h pending' = true ↔ bcontains h pending = true ∨ h ∈ added.*1) ∧
    Forall (accounted pending') (snap_nodes (ds_snapshot s)) ∧
    snapshot_ok (ds_snapshot s) ∧ ds_consensus_height s ≤ mh ∧
    old_leaf_keys d (ds_domain_id s) = Ok (old_keys_of (ds_domain_id s)).
Proof.
  unfold append_state, append_state_changes. intros Hr (Hd & Hh & Hw).
  destruct (mh <? _) eqn:Hlt; [done|]. apply obind_Ok in Hr as (rebuilt & Hok & Hr).
  destruct (negb _) eqn:Hif; [done|]. apply obind_Ok in Hr as ([[t1 p1] s1] & Hok0 & Hr). bool_prop. apply append_nodes in Hok0 as (added & -> & Hnd & Hin & Hpe & Hac).
  apply obind_Ok in Hr as (old & Ho & Hr). apply obind_Ok in Hr as (man & Hm & Hr).
  injection Hr as <- <- <-. exists added. subst rebuilt. unfold trie_err in Hok. apply map_err_Ok in Hok.
  split_and!; try done.
  - rewrite <-app_assoc. unfold state_changes, removed_keys, old_keys_of, manifest_bytes. by rewrite Ho, Hm.
  - split_and!; [done..|]. unfold manifest_bytes. by rewrite Hm.
  - unfold old_keys_of. by rewrite Ho.
Qed.

(** The keys of one domain. *)
Definition key_of (domain_id : DomainId) (ck : Z * bytes) : Prop :=
  ck.1 = COLUMN_FLAT_STATE ∧ (∃ x, ck.2 = flat_key domain_id x) ∨
  ck.1 = COLUMN_META ∧
    ((∃ h, u64 h ∧ ck.2 = root_key domain_id h) ∨ (∃ h, u64 h ∧ ck.2 = manifest_key domain_id h) ∨
     ck.2 = head_key domain_id).

Lemma key_of_inj d1 d2 ck : is_b256 d1 → is_b256 d2 → key_of d1 ck → key_of d2 ck → d1 = d2.
Proof.
  intros Hd1 Hd2. destruct ck as [c k]. unfold key_of. cbn [fst snd].
  intros [[-> [x ->]]|[-> [(h & Hh & ->)|[(h & Hh & ->)| ->]]]]
         [[? [y E]]|[? [(h' & Hh' & E)|[(h' & Hh' & E)|E]]]]; try done.
  - by apply flat_key_inj in E as [-> _].
  - by apply root_key_inj in E as [-> _].
  - by apply manifest_key_inj in E as [-> _].
  - by apply head_key_inj in E.
Qed.

Lemma key_of_not_node dom h : ¬ key_of dom (COLUMN_TRIE_NODES, h).
Proof. by intros [[? _]|[? _]]. Qed.

Lemma state_changes_keys s ch : wf_state s → ch ∈ state_changes s → key_of (ds_domain_id s) ch.1.
Proof.
  intros (_ & Hh & _). unfold state_changes. rewrite !elem_of_app, !list_elem_of_fmap.
  intros [(x & -> & _)|[(x & -> & _)|Hin]].
  - left. split; [done|]. by exists x.
  - left. split; [done|]. by exists x.1.
  - right. repeat (apply elem_of_cons in Hin as [->|Hin]; [split; [done|]; cbn; eauto|]).
    by apply elem_of_nil in Hin.
Qed.

Lemma old_leaf_keys_NoDup dom ks : old_leaf_keys d dom = Ok ks → NoDup ks.
Proof.
  unfold old_leaf_keys. intros Ho. apply obind_Ok in Ho as ([[h r]|] & _ & Ho); [|injection Ho as <-; constructor].
  apply obind_Ok in Ho as (found & Hl & Ho). unfold load_manifest in Hl.
  apply obind_Ok in Hl as (b & _ & Hl). unfold decoded in Hl. destruct b as [b|]; [|by injection Hl as <-].
  apply obind_Ok in Hl as (m & Hd & Hl). injection Hl as <-. cbn in Ho. injection Ho as <-.
  unfold decode_reachability in Hd. ok_inv. subst m. cbn.
  apply StronglySorted_NoDup, strict_StronglySorted. bool_prop. done.
Qed.

Lemma NoDup_filter_bool {A : Type} (p : A → bool) l : NoDup l → NoDup (List.filter p l).
Proof.
  induction 1 as [|x l Hx _ IH]; cbn; [constructor|]. destruct (p x); [|done]. constructor; [|done].
  rewrite list_elem_of_In, filter_In, <-list_elem_of_In. naive_solver.
Qed.

Lemma state_changes_NoDup s :
  wf_state s → old_leaf_keys d (ds_domain_id s) = Ok (old_keys_of (ds_domain_id s)) →
  NoDup (state_changes s).*1.
Proof.
  intros (Hd & Hh & (_ & _ & Hl & _)) Ho. unfold state_changes. rewrite !fmap_app.
  assert (∀ x y, flat_key (ds_domain_id s) x = flat_key (ds_domain_id s) y → x = y) as Hinj
    by (intros x y; apply app_inv_head).
  rewrite <-!list_fmap_compose. apply list.NoDup_app. split_and!.
  - apply NoDup_fmap_2.
    + intros x y [= E]. by apply Hinj.
    + by apply NoDup_filter_bool, (old_leaf_keys_NoDup (ds_domain_id s)).
  - intros ck Hin Hin'. apply list_elem_of_fmap in Hin as (k & -> & Hk). apply elem_of_app in Hin' as [Hin'|Hin'].
    + apply list_elem_of_fmap in Hin' as ([k' v] & [= E%Hinj] & Hk'). cbn in E. subst k'.
      unfold removed_keys in Hk. rewrite list_elem_of_In, filter_In in Hk. destruct Hk as [_ Hk].
      bool_prop. apply Hk, list_elem_of_fmap. by exists (k, v).
    + cbn in Hin'. repeat (apply elem_of_cons in Hin' as [[=]|Hin']). by apply elem_of_nil in Hin'.
  - apply list.NoDup_app. split_and!.
    + assert (NoDup ((λ k, (COLUMN_FLAT_STATE, flat_key (ds_domain_id s) k)) <$>
                     bkeys (snap_leaves (ds_snapshot s)))) as Hnd.
      { apply NoDup_fmap_2; [intros x y [= E]; by apply Hinj|]. by apply sorted_NoDup. }
      unfold bkeys in Hnd. by rewrite <-list_fmap_compose in Hnd.
    + intros ck Hin Hin'. apply list_elem_of_fmap in Hin as (k & -> & Hk). cbn in Hin'.
      repeat (apply elem_of_cons in Hin' as [[=]|Hin']). by apply elem_of_nil in Hin'.
    + cbn. repeat (apply list.NoDup_cons; split; [rewrite ?not_elem_of_cons, elem_of_nil; naive_solver|]).
      constructor.
Qed.

(** The transaction after some of the states. *)
Record loop_ok (mh : Z) (done : list DomainStateCommit) (t : list db_change) (pending : btree bytes unit)
    : Prop := {
  lo_nodup : NoDup t.*1;
  lo_origin : ∀ ch, ch ∈ t →
    (∃ s e, s ∈ done ∧ e ∈ snap_nodes (ds_snapshot s) ∧ ch = node_change e ∧
            stored d COLUMN_TRIE_NODES e.1 = None ∧ bcontains e.1 pending = true) ∨
    (∃ s, s ∈ done ∧ ch ∈ state_changes s);
  lo_changes : ∀ s ch, s ∈ done → ch ∈ state_changes s → ch ∈ t;
  lo_nodes : ∀ s, s ∈ done → Forall (accounted pending) (snap_nodes (ds_snapshot s));
  lo_pending : ∀ h, bcontains h pending = true → ∃ e, node_change (h, e) ∈ t;
  lo_states : ∀ s, s ∈ done → wf_state s ∧ snapshot_ok (ds_snapshot s) ∧ ds_consensus_height s ≤ mh ∧
    old_leaf_keys d (ds_domain_id s) = Ok (old_keys_of (ds_domain_id s));
}.

Lemma NoDup_keys_app (t1 t2 : list db_change) :
  NoDup t1.*1 → NoDup t2.*1 → (∀ a b, a ∈ t1 → b ∈ t2 → a.1 ≠ b.1) → NoDup (t1 ++ t2).*1.
Proof.
  intros Hn1 Hn2 Hd. rewrite fmap_app. apply list.NoDup_app. split_and!; [done| |done].
  intros ck (a & -> & Ha)%list_elem_of_fmap (b & E & Hb)%list_elem_of_fmap. by eapply Hd.
Qed.

Lemma node_changes_NoDup added : NoDup added.*1 → NoDup (node_change <$> added).*1.
Proof.
  intros Hn. rewrite <-list_fmap_compose.
  assert (NoDup ((λ k, (COLUMN_TRIE_NODES, k)) <$> added.*1)) as Hm
    by (apply NoDup_fmap_2; [by intros x y [=]|done]).
  by rewrite <-list_fmap_compose in Hm.
Qed.

Lemma accounted_mono p p' e :
  (∀ h, bcontains h p = true → bcontains h p' = true) → accounted p e → accounted p' e.
Proof. intros Hp [?|[? ?]]; [by left|right; auto]. Qed.

Lemma append_loop_step mh done t pending stats s t' pending' stats' :
  loop_ok mh done t pending → wf_state s → ds_domain_id s ∉ ds_domain_id <$> done →
  append_state d mh (t, pending, stats) s = Ok (t', pending', stats') →
  loop_ok mh (done ++ [s]) t' pending'.
Proof.
  intros [Hnd Hor Hch Hno Hpe Hst] Hw Hnew Ha.
  apply append_state_inv in Ha as (added & -> & Hna & Hin & Hp' & Hac & Hok & Hle & Hold); [|done].
  assert (∀ h, bcontains h pending = true → bcontains h pending' = true) as Hmono by (intros h; rewrite Hp'; auto).
  split.
  - rewrite app_assoc. apply NoDup_keys_app.
    + apply NoDup_keys_app; [done|by apply node_changes_NoDup|].
      intros a b Hia (e & -> & He)%list_elem_of_fmap E. apply Hor in Hia as [(s0 & e0 & _ & _ & -> & _ & Hc)|(s0 & Hs0 & Hs)].
      * cbn in E. destruct (Hin e He) as (_ & _ & Hc'). congruence.
      * apply state_changes_keys in Hs; [|by apply Hst]. rewrite E in Hs. by apply key_of_not_node in Hs.
    + by apply state_changes_NoDup.
    + intros a b [Hia|(e & -> & He)%list_elem_of_fmap]%elem_of_app Hib E.
      * apply state_changes_keys in Hib as Hkb; [|done]. rewrite <-E in Hkb.
        apply Hor in Hia as [(s0 & e0 & _ & _ & -> & _)|(s0 & Hs0 & Hs)]; [by apply key_of_not_node in Hkb|].
        apply Hnew, list_elem_of_fmap. exists s0. split; [|done].
        apply state_changes_keys in Hs; [|by apply Hst]. eapply key_of_inj; [apply Hw|by apply Hst|done|done].
      * apply state_changes_keys in Hib; [|done]. rewrite <-E in Hib. by apply key_of_not_node in Hib.
  - intros ch. rewrite !elem_of_app. intros [Hc|[(e & -> & He)%list_elem_of_fmap|Hc]].
    + apply Hor in Hc as [(s0 & e0 & ? & ? & ? & ? & ?)|(s0 & ? & ?)].
      * left. exists s0, e0. rewrite elem_of_app. split_and!; auto.
      * right. exists s0. rewrite elem_of_app. auto.
    + left. destruct (Hin e He) as (? & ? & _). exists s, e. rewrite elem_of_app, list_elem_of_singleton.
      split_and!; auto. apply Hp'. right. apply list_elem_of_fmap. eauto.
    + right. exists s. rewrite elem_of_app, list_elem_of_singleton. auto.
  - intros s0 ch. rewrite !elem_of_app, list_elem_of_singleton. intros [Hs0| ->] Hc; [left; eauto|by right; right].
  - intros s0 [Hs0| ->%list_elem_of_singleton]%elem_of_app; [|done].
    eapply list.Forall_impl; [by apply Hno|]. intros e. by apply accounted_mono.
  - intros h [Hc|(e & -> & He)%list_elem_of_fmap]%Hp'.
    + destruct (Hpe h Hc) as [e He]. exists e. apply elem_of_app. by left.
    + exists e.2. rewrite !elem_of_app. right. left. apply list_elem_of_fmap. exists e. by destruct e.
  - intros s0 [Hs0| ->%list_elem_of_singleton]%elem_of_app; [by apply Hst|done].
Qed.

Lemma append_states mh done todo t pending stats t' pending' stats' :
  loop_ok mh done t pending → Forall wf_state todo → NoDup (ds_domain_id <$> done ++ todo) →
  for_each (append_state d mh) (t, pending, stats) todo = Ok (t', pending', stats') →
  loop_ok mh (done ++ todo) t' pending'.
Proof.
  revert done t pending stats. induction todo as [|s todo IH]; intros done t pending stats Hlo Hw Hn Hr.
  - cbn in Hr. injection Hr as <- <- <-. by rewrite app_nil_r.
  - cbn in Hr. apply obind_Ok in Hr as ([[t1 p1] s1] & Ha & Hr). inversion Hw; subst.
    replace (done ++ s :: todo) with ((done ++ [s]) ++ todo) in * by (by rewrite <-app_assoc).
    eapply IH; [|done|done|exact Hr]. eapply append_loop_step; [done|done| |exact Ha].
    rewrite !fmap_app in Hn. apply list.NoDup_app in Hn as (Hn & _). apply list.NoDup_app in Hn as (_ & Hn & _).
    intros Hc. apply (Hn _ Hc). cbn. by left.
Qed.

Lemma repeats_NoDup seen l :
  repeats seen l = false → NoDup l ∧ ∀ x, x ∈ l → bcontains x seen = false.
Proof.
  revert seen. induction l as [|x l IH]; intros seen Hr; cbn in Hr; [split; [constructor|by intros ? ?%elem_of_nil]|].
  destruct (bcontains x seen) eqn:Hx; [done|]. apply IH in Hr as [Hn Hd].
  assert (∀ y, y ∈ l → y ≠ x ∧ bcontains y seen = false) as Hy.
  { intros y Hy%Hd. apply not_true_iff_false in Hy. rewrite contains_insert in Hy.
    split; [naive_solver|apply not_true_iff_false; naive_solver]. }
  split; [constructor; [|done]; intros [? _]%Hy; done|].
  intros y [->|Hin]%elem_of_cons; [done|by apply Hy].
Qed.

Lemma append_codes t codes t' :
  for_each append_code t codes = Ok t' →
  t' = t ++ ((λ e, (COLUMN_CONTRACT_CODE, e.1, Some e.2)) <$> codes) ∧
  Forall (λ e, e.1 = keccak256 e.2) codes.
Proof.
  revert t. induction codes as [|[h c] codes IH]; intros t Hr; cbn in Hr.
  - injection Hr as <-. split; [by rewrite app_nil_r|constructor].
  - apply obind_Ok in Hr as (t1 & Ha & Hr). ok_inv. bool_prop. subst t1. apply IH in Hr as [-> Hall].
    split; [by rewrite <-app_assoc|]. by constructor.
Qed.

(** The registry records a commit adds. *)
Definition fresh_record (r : IndexedValue) : bool :=
  bool_decide (stored d COLUMN_DOMAIN_REGISTRY (iv_key r) = None).

(** A record agrees with what is stored under its key. *)
Definition registered (r : IndexedValue) : Prop :=
  stored d COLUMN_DOMAIN_REGISTRY (iv_key r) = None ∨
  stored d COLUMN_DOMAIN_REGISTRY (iv_key r) = Some (iv_value r).

Lemma append_registries t rs t' :
  for_each (append_registry d) t rs = Ok t' →
  t' = t ++ (indexed_change COLUMN_DOMAIN_REGISTRY <$> List.filter fresh_record rs) ∧
  Forall registered rs.
Proof.
  revert t. induction rs as [|r rs IH]; intros t Hr; cbn in Hr.
  - injection Hr as <-. split; [by rewrite app_nil_r|constructor].
  - apply obind_Ok in Hr as (t1 & Ha & Hr). unfold append_registry in Ha.
    destruct (negb _); [done|]. apply obind_Ok in Ha as (found & Hf & Ha).
    unfold db_err in Hf. apply map_err_Ok, get_stored in Hf as ->. cbn. unfold fresh_record at 1.
    destruct (stored d COLUMN_DOMAIN_REGISTRY (iv_key r)) as [v|] eqn:Hs.
    + ok_inv. bool_prop. subst. apply IH in Hr as [-> Hall]. split; [done|]. constructor; [by right|done].
    + injection Ha as <-. apply IH in Hr as [-> Hall]. split; [by rewrite <-app_assoc|]. constructor; [by left|done].
Qed.

Lemma indexed_NoDup c rs : NoDup (iv_key <$> rs) → NoDup (indexed_change c <$> rs).*1.
Proof.
  intros Hn. rewrite <-list_fmap_compose.
  assert (NoDup ((λ k, (c, k)) <$> (iv_key <$> rs))) as Hm by (apply NoDup_fmap_2; [by intros x y [=]|done]).
  by rewrite <-list_fmap_compose in Hm.
Qed.

(** What a commit appends after the states. *)
Definition rest_changes (b : CommitBatch) : list db_change :=
  ((λ e, (COLUMN_CONTRACT_CODE, e.1, Some e.2)) <$> cm_contract_code b) ++
  (indexed_change COLUMN_RECEIPTS <$> cm_receipts b) ++
  (indexed_change COLUMN_INDEXES <$> cm_indexes b) ++
  (indexed_change COLUMN_DOMAIN_REGISTRY <$> List.filter fresh_record (cm_domain_registry b)) ++
  [(COLUMN_META, KEY_MARKER, Some (encode_marker (cm_marker b)))].

Definition in_columns (cs : list Z) (t : list db_change) : Prop := ∀ ch, ch ∈ t → ch.1.1 ∈ cs.

Lemma in_columns_fmap {A : Type} (f : A → db_change) c l : (∀ a, (f a).1.1 = c) → in_columns [c] (f <$> l).
Proof. intros Hf ch (a & -> & _)%list_elem_of_fmap. rewrite Hf. by left. Qed.

Lemma NoDup_columns_app cs1 cs2 t1 t2 :
  NoDup t1.*1 → NoDup t2.*1 → in_columns cs1 t1 → in_columns cs2 t2 → (∀ c, c ∈ cs1 → c ∉ cs2) →
  NoDup (t1 ++ t2).*1.
Proof.
  intros Hn1 Hn2 Hc1 Hc2 Hd. apply NoDup_keys_app; [done|done|]. intros a b Ha%Hc1 Hb%Hc2 E.
  rewrite E in Ha. by eapply Hd.
Qed.

Lemma in_columns_app cs1 cs2 t1 t2 : in_columns cs1 t1 → in_columns cs2 t2 → in_columns (cs1 ++ cs2) (t1 ++ t2).
Proof. intros Hc1 Hc2 ch [?%Hc1|?%Hc2]%elem_of_app; apply elem_of_app; auto. Qed.

Lemma filter_keys (p : IndexedValue → bool) rs : NoDup (iv_key <$> rs) → NoDup (iv_key <$> List.filter p rs).
Proof.
  induction rs as [|r rs IH]; cbn; [done|]. intros [Hni Hn]%list.NoDup_cons. destruct (p r); [|auto].
  cbn. constructor; [|auto]. intros (x & E & Hx)%list_elem_of_fmap. apply Hni, list_elem_of_fmap. exists x.
  split; [done|]. rewrite list_elem_of_In, filter_In, <-list_elem_of_In in Hx. tauto.
Qed.

Lemma rest_NoDup b :
  sorted (cm_contract_code b) → NoDup (iv_key <$> cm_receipts b) → NoDup (iv_key <$> cm_indexes b) →
  NoDup (iv_key <$> cm_domain_registry b) → NoDup (rest_changes b).*1.
Proof.
  intros Hc Hr Hi Hg. unfold rest_changes.
  set (C1 := COLUMN_CONTRACT_CODE). set (C2 := COLUMN_RECEIPTS). set (C3 := COLUMN_INDEXES).
  set (C4 := COLUMN_DOMAIN_REGISTRY).
  assert (in_columns [COLUMN_META] [(COLUMN_META, KEY_MARKER, Some (encode_marker (cm_marker b)))]) as K5
    by (intros ch ->%list_elem_of_singleton; by left).
  assert (in_columns [C4; COLUMN_META]
    ((indexed_change C4 <$> List.filter fresh_record (cm_domain_registry b)) ++
     [(COLUMN_META, KEY_MARKER, Some (encode_marker (cm_marker b)))])) as K4.
  { apply (in_columns_app [_] [_]); [by apply in_columns_fmap|done]. }
  assert (∀ (c : Z) (cs : list Z), bool_decide (c ∈ cs) = false → ∀ x, x ∈ [c] → x ∉ cs) as Hout.
  { intros c cs Hb%bool_decide_eq_false x ->%list_elem_of_singleton. done. }
  eapply (NoDup_columns_app [C1] [C2; C3; C4; COLUMN_META]); [| |by apply in_columns_fmap| |by apply Hout].
  { assert (NoDup ((λ k, (C1, k)) <$> bkeys (cm_contract_code b))) as Hm
      by (apply NoDup_fmap_2; [by intros x y [=]|by apply sorted_NoDup]).
    unfold bkeys in Hm. rewrite <-list_fmap_compose in Hm. by rewrite <-list_fmap_compose. }
  2: { apply (in_columns_app [_] [_; _; _]); [by apply in_columns_fmap|].
       apply (in_columns_app [_] [_; _]); [by apply in_columns_fmap|done]. }
  eapply (NoDup_columns_app [C2] [C3; C4; COLUMN_META]);
    [by apply indexed_NoDup| |by apply in_columns_fmap| |by apply Hout].
  2: { apply (in_columns_app [_] [_; _]); [by apply in_columns_fmap|done]. }
  eapply (NoDup_columns_app [C3] [C4; COLUMN_META]);
    [by apply indexed_NoDup| |by apply in_columns_fmap|done|by apply Hout].
  eapply (NoDup_columns_app [C4] [COLUMN_META]);
    [by apply indexed_NoDup, filter_keys| |by apply in_columns_fmap|done|by apply Hout].
  cbn. repeat constructor. by intros ?%elem_of_nil.
Qed.

Lemma rest_keys b ch :
  ch ∈ rest_changes b →
  (∃ c, ch.1.1 = c ∧ c ∈ [COLUMN_CONTRACT_CODE; COLUMN_RECEIPTS; COLUMN_INDEXES; COLUMN_DOMAIN_REGISTRY]) ∨
  ch = (COLUMN_META, KEY_MARKER, Some (encode_marker (cm_marker b))).
Proof.
  unfold rest_changes. rewrite !elem_of_app, !list_elem_of_fmap, list_elem_of_singleton.
  intros [(x & -> & _)|[(x & -> & _)|[(x & -> & _)|[(x & -> & _)| ->]]]]; [left..|by right];
    eexists; (split; [reflexivity|]); rewrite !elem_of_cons; cbn [indexed_change fst]; auto 6.
Qed.

Lemma loop_keys mh states t p ch :
  loop_ok mh states t p → ch ∈ t →
  (∃ e, ch = node_change e) ∨ ∃ s, s ∈ states ∧ key_of (ds_domain_id s) ch.1.
Proof.
  intros Hlo Hin. apply (lo_origin _ _ _ _ Hlo) in Hin as [(s & e & _ & _ & -> & _)|(s & Hs & Hc)]; [left; eauto|].
  right. exists s. split; [done|]. apply state_changes_keys; [|done]. by apply (lo_states _ _ _ _ Hlo).
Qed.

Lemma rest_not_key_of b ch dom : ch ∈ rest_changes b → ¬ key_of dom ch.1.
Proof.
  intros [(c & Hc & Hin)| ->]%rest_keys; unfold key_of.
  - rewrite Hc. intros [[-> _]|[-> _]]; no_column Hin.
  - intros [[? _]|[_ [(h & _ & E)|[(h & _ & E)|E]]]]; done.
Qed.

(** A prepared commit: its transaction never names a key twice. *)
Lemma commit_transaction_inv b t stats :
  commit_transaction d b = Ok (t, stats) → wf_batch b →
  ∃ t0 pending, loop_ok (mk_height (cm_marker b)) (cm_states b) t0 pending ∧
    t = t0 ++ rest_changes b ∧ NoDup t.*1 ∧ NoDup (ds_domain_id <$> cm_states b) ∧
    (∀ m, finalized_marker d = Ok (Some m) → mk_height m < mk_height (cm_marker b)) ∧
    (∃ m, finalized_marker d = Ok m) ∧ Forall registered (cm_domain_registry b) ∧
    NoDup (iv_key <$> cm_indexes b).
Proof.
  unfold commit_transaction. intros Hr (Hm & Hs & Hc).
  apply obind_Ok in Hr as (cur & Hcur & Hr). apply obind_Ok in Hr as ([] & Hmono & Hr).
  apply obind_Ok in Hr as ([] & Hu & Hr). apply obind_Ok in Hr as ([[t0 p] st] & Hst & Hr).
  apply obind_Ok in Hr as (t1 & Hcode & Hr). apply obind_Ok in Hr as (t2 & Hreg & Hr). injection Hr as <- _.
  unfold validate_unique in Hu. destruct (repeats [] (ds_domain_id <$> _)) eqn:E1; [done|].
  destruct (repeats [] (iv_key <$> cm_receipts b)) eqn:E2; [done|].
  destruct (repeats [] (iv_key <$> cm_indexes b)) eqn:E3; [done|].
  destruct (repeats [] (iv_key <$> cm_domain_registry b)) eqn:E4; [done|].
  apply repeats_NoDup in E1 as [? _], E2 as [? _], E3 as [? _], E4 as [? _].
  apply append_codes in Hcode as [-> _]. apply append_registries in Hreg as [-> Hreg].
  assert (loop_ok (mk_height (cm_marker b)) [] [] []) as H0'.
  { split; [constructor|..]; by (intros; match goal with X : _ ∈ [] |- _ => by apply elem_of_nil in X end) || done. }
  apply (append_states _ []) in Hst as Hlo; [|done|done|done]. cbn in Hlo.
  exists t0, p. split_and!; try done.
  - unfold rest_changes. by rewrite <-!app_assoc.
  - rewrite <-!app_assoc. apply NoDup_keys_app; [apply Hlo|by apply rest_NoDup|].
    intros x y Hx Hy E. apply (loop_keys _ _ _ _ _ Hlo) in Hx as [[e ->]|(s & _ & Hk)].
    + apply rest_keys in Hy as [(c & Hy & Hin)| ->]; [|done]. rewrite <-E in Hy. cbn in Hy. subst c.
      no_column Hin.
    + rewrite E in Hk. by eapply rest_not_key_of.
  - intros m Hf. rewrite Hf in Hcur. injection Hcur as <-. by destruct (Z.leb_spec (mk_height (cm_marker b)) (mk_height m)).
  - eauto.
Qed.
End loop.

(** ** The abstract database *)

(** What the database stands for: the finalized marker, the height of every
    domain's head, the state committed for a domain at a height, the records of
    the other columns, and the flat cache. *)
Record view := {
  vw_marker : option FinalizedMarker;
  vw_head : DomainId → option Z;
  vw_state : DomainId → Z → option TrieSnapshot;
  vw_record : Z → bytes → option bytes;
  vw_flat : DomainId → bytes → option bytes;
}.

Definition record_changes (b : CommitBatch) : list db_change :=
  ((λ e, (COLUMN_CONTRACT_CODE, e.1, Some e.2)) <$> cm_contract_code b) ++
  (indexed_change COLUMN_RECEIPTS <$> cm_receipts b) ++
  (indexed_change COLUMN_INDEXES <$> cm_indexes b) ++
  (indexed_change COLUMN_DOMAIN_REGISTRY <$> cm_domain_registry b).

(** The domains whose flat cache is only ever rebuilt from their head; of the others the
    representation says nothing about the cache. *)
Context {clean : DomainId → Prop}.

Record represents_on (d : Database) (v : view) : Prop := {
  rp_marker : stored d COLUMN_META KEY_MARKER = encode_marker <$> vw_marker v;
  rp_marker_wf : ∀ m, vw_marker v = Some m → wf_marker m;
  rp_root : ∀ dom h, is_b256 dom → u64 h →
    stored d COLUMN_META (root_key dom h) = snap_root <$> vw_state v dom h;
  rp_manifest : ∀ dom h, is_b256 dom → u64 h →
    stored d COLUMN_META (manifest_key dom h) = manifest_bytes <$> vw_state v dom h;
  rp_roots : ∀ dom k w, is_b256 dom → stored d COLUMN_META k = Some w →
    starts_with (root_prefix dom) k = true → ∃ h, u64 h ∧ k = root_key dom h;
  rp_manifests : ∀ k w, stored d COLUMN_META k = Some w → starts_with PREFIX_MANIFEST k = true →
    ∃ dom h, is_b256 dom ∧ u64 h ∧ k = manifest_key dom h;
  rp_no_head : ∀ dom, is_b256 dom → vw_head v dom = None → stored d COLUMN_META (head_key dom) = None;
  rp_head : ∀ dom h, is_b256 dom → vw_head v dom = Some h →
    u64 h ∧ ∃ s, vw_state v dom h = Some s ∧
      stored d COLUMN_META (head_key dom) = Some (encode_head h (snap_root s));
  rp_state : ∀ dom h s, is_b256 dom → u64 h → vw_state v dom h = Some s →
    snapshot_ok s ∧ ∀ e, e ∈ snap_nodes s → stored d COLUMN_TRIE_NODES e.1 = Some e.2;
  rp_record : ∀ c k, c ∈ record_columns → stored d c k = vw_record v c k;
  rp_flat : ∀ dom k, is_b256 dom → clean dom → stored d COLUMN_FLAT_STATE (flat_key dom k) = vw_flat v dom k;
  rp_flat_leaf : ∀ dom k x, is_b256 dom → clean dom → vw_flat v dom k = Some x →
    ∃ h s, vw_head v dom = Some h ∧ vw_state v dom h = Some s ∧ bget k (snap_leaves s) = Some x;
}.

Definition state_of (states : list DomainStateCommit) (dom : DomainId) : option DomainStateCommit :=
  List.find (λ s, bool_decide (ds_domain_id s = dom)) states.

(** What a commit makes visible. *)
Definition publish (v : view) (b : CommitBatch) : view :=
  {| vw_marker := Some (cm_marker b);
     vw_head := λ dom,
       match state_of (cm_states b) dom with
       | Some s => Some (ds_consensus_height s)
       | None => vw_head v dom
       end;
     vw_state := λ dom h,
       match state_of (cm_states b) dom with
       | Some s => if h =? ds_consensus_height s then Some (ds_snapshot s) else vw_state v dom h
       | None => vw_state v dom h
       end;
     vw_record := λ c k, default (vw_record v c k) (written (record_changes b) c k);
     vw_flat := λ dom k,
       match state_of (cm_states b) dom with
       | Some s => bget k (snap_leaves (ds_snapshot s))
       | None => vw_flat v dom k
       end |}.

(** An index record of a batch is what the batch writes under its key. *)
Lemma index_written b i :
  NoDup (iv_key <$> cm_indexes b) → i ∈ cm_indexes b →
  written (record_changes b) COLUMN_INDEXES (iv_key i) = Some (Some (iv_value i)).
Proof.
  intros Hn Hi. unfold record_changes. rewrite !written_app.
  assert (∀ {A : Type} (f : A → db_change) l, (∀ a, (f a).1.1 ≠ COLUMN_INDEXES) →
    written (f <$> l) COLUMN_INDEXES (iv_key i) = None) as Hno.
  { intros A f l Hf. apply written_none. intros (ch & E & (a & -> & _)%list_elem_of_fmap)%list_elem_of_fmap.
    apply (Hf a). by rewrite <-E. }
  rewrite !Hno by done. cbn. assert (written (indexed_change COLUMN_INDEXES <$> cm_indexes b) COLUMN_INDEXES (iv_key i) =
    Some (Some (iv_value i))) as ->; [|done].
  apply written_in; [by apply indexed_NoDup|]. apply list_elem_of_fmap. by exists i.
Qed.

(** Forgetting one historical state. *)
Definition forget (v : view) (dom : DomainId) (h : Z) : view :=
  {| vw_marker := vw_marker v; vw_head := vw_head v;
     vw_state := λ dom' h', if bool_decide (dom' = dom ∧ h' = h) then None else vw_state v dom' h';
     vw_record := vw_record v; vw_flat := vw_flat v |}.

(** The snapshots of a batch hold no two nodes under one hash. *)
Definition batch_agrees (b : CommitBatch) : Prop :=
  ∀ s1 s2 e1 e2, s1 ∈ cm_states b → s2 ∈ cm_states b →
    e1 ∈ snap_nodes (ds_snapshot s1) → e2 ∈ snap_nodes (ds_snapshot s2) → e1.1 = e2.1 → e1 = e2.

Lemma state_of_Some states dom s :
  state_of states dom = Some s → s ∈ states ∧ ds_domain_id s = dom.
Proof. unfold state_of. intros [Hin Hb]%find_some. bool_prop. split; [by apply list_elem_of_In|done]. Qed.

Lemma state_of_None states dom s : state_of states dom = None → s ∈ states → ds_domain_id s ≠ dom.
Proof.
  unfold state_of. intros Hf Hin%list_elem_of_In. pose proof (find_none _ _ Hf _ Hin) as Hb. cbn in Hb. by bool_prop.
Qed.

Lemma state_of_in states s :
  NoDup (ds_domain_id <$> states) → s ∈ states → state_of states (ds_domain_id s) = Some s.
Proof.
  intros Hn Hin. destruct (state_of states (ds_domain_id s)) as [s'|] eqn:E; [|by apply (state_of_None _ _ s) in E].
  apply state_of_Some in E as [Hin' E]. f_equal.
  apply list_elem_of_lookup in Hin as [i Hi]. apply list_elem_of_lookup in Hin' as [j Hj].
  assert (i = j) as ->; [|congruence]. apply (NoDup_lookup _ i j (ds_domain_id s) Hn); rewrite list_lookup_fmap, ?Hi, ?Hj; cbn; congruence.
Qed.

Lemma state_change_meta d s k :
  (COLUMN_META, k) ∈ (state_changes d s).*1 →
  k = root_key (ds_domain_id s) (ds_consensus_height s) ∨
  k = manifest_key (ds_domain_id s) (ds_consensus_height s) ∨ k = head_key (ds_domain_id s).
Proof.
  intros (ch & E & Hc)%list_elem_of_fmap. unfold state_changes in Hc.
  rewrite !elem_of_app, !list_elem_of_fmap, !elem_of_cons, elem_of_nil in Hc. naive_solver.
Qed.

(** ** Reading the metadata *)

Lemma wf_manifest_of s : wf_snapshot s → wf_reachability (snapshot_manifest_of s).
Proof. intros (_ & Hn & Hl & Hbn & Hbl). by split_and!. Qed.

(** The manifest read for a committed state is that of the state. *)
Lemma load_manifest_of d v dom h m :
  represents_on d v → is_b256 dom → u64 h → load_manifest d dom h = Ok m →
  m = snapshot_manifest_of <$> vw_state v dom h.
Proof.
  intros Hrep Hd Hh. unfold load_manifest. intros Hl. apply obind_Ok in Hl as (b & Hb & Hl).
  unfold db_err in Hb. apply map_err_Ok, get_stored in Hb as ->. rewrite (rp_manifest _ _ Hrep) in Hl by done.
  destruct (vw_state v dom h) as [s|] eqn:Es; cbn in *; [|by injection Hl].
  destruct (rp_state _ _ Hrep dom h s Hd Hh Es) as [(Hw & _ & He) _].
  rewrite (decode_encode_reachability _ _ (wf_manifest_of _ Hw) He) in Hl. by injection Hl as <-.
Qed.
(** The head read for a domain. *)
Lemma latest_head_of d v dom r :
  represents_on d v → is_b256 dom → latest_head d dom = Ok r →
  match vw_head v dom with
  | Some h => ∃ s, vw_state v dom h = Some s ∧ r = Some (h, snap_root s)
  | None => r = None
  end.
Proof.
  intros Hrep Hd. unfold latest_head. intros Hl. apply obind_Ok in Hl as (b & Hb & Hl).
  unfold db_err in Hb. apply map_err_Ok, get_stored in Hb as ->.
  destruct (vw_head v dom) as [h|] eqn:Eh.
  - destruct (rp_head _ _ Hrep dom h Hd Eh) as (Hh & s & Es & Hst). rewrite Hst in Hl. cbn in Hl.
    destruct (rp_state _ _ Hrep dom h s Hd Hh Es) as [((Hr & _) & _) _].
    rewrite decode_encode_head in Hl by done. cbn in Hl. injection Hl as <-. eauto.
  - rewrite (rp_no_head _ _ Hrep dom Hd Eh) in Hl. by injection Hl.
Qed.

(** The leaf keys recorded for a domain are those of its head. *)
Lemma old_leaf_keys_of d v dom ks :
  represents_on d v → is_b256 dom → old_leaf_keys d dom = Ok ks →
  ks = match vw_head v dom with
       | Some h => match vw_state v dom h with Some s => bkeys (snap_leaves s) | None => [] end
       | None => []
       end.
Proof.
  intros Hrep Hd Ho. unfold old_leaf_keys in Ho. apply obind_Ok in Ho as (r & Hl & Ho).
  apply (latest_head_of _ v) in Hl; [|done..]. destruct (vw_head v dom) as [h|] eqn:Eh.
  - destruct Hl as (s & Es & ->). rewrite Es. apply obind_Ok in Ho as (m & Hm & Ho).
    destruct (rp_head _ _ Hrep dom h Hd Eh) as [Hh _].
    apply (load_manifest_of _ v) in Hm; [|done..]. rewrite Es in Hm. subst m. cbn in Ho. by injection Ho.
  - subst r. by injection Ho.
Qed.

Section published.
Context (d d' : Database) (v : view) (b : CommitBatch) (t0 : list db_change) (pending : btree bytes unit).
Hypothesis (Hrep : represents_on d v) (Hwf : wf_batch b) (Hagree : batch_agrees b).
Hypothesis (Hlo : loop_ok d (mk_height (cm_marker b)) (cm_states b) t0 pending).
Hypothesis (Hnd : NoDup (ds_domain_id <$> cm_states b)).
Hypothesis Hreg : Forall (registered d) (cm_domain_registry b).
Hypothesis Hnew : ∀ c k w, (c, k, w) ∈ t0 ++ rest_changes d b → stored d' c k = w.
Hypothesis Hold : ∀ c k, (c, k) ∉ (t0 ++ rest_changes d b).*1 → stored d' c k = stored d c k.

Lemma state_written s ch : s ∈ cm_states b → ch ∈ state_changes d s → stored d' ch.1.1 ch.1.2 = ch.2.
Proof.
  intros Hs Hc. destruct ch as [[c k] w]. apply Hnew, elem_of_app. left. by eapply lo_changes.
Qed.

(** The keys of a domain its new state does not write keep their value. *)
Lemma key_kept dom ck :
  is_b256 dom → key_of dom ck →
  (∀ s, s ∈ cm_states b → ds_domain_id s = dom → ck ∉ (state_changes d s).*1) →
  stored d' ck.1 ck.2 = stored d ck.1 ck.2.
Proof.
  intros Hd Hk Hn. destruct ck as [c k]. apply Hold. intros (ch & E & Hin)%list_elem_of_fmap.
  apply elem_of_app in Hin as [Hin|Hin].
  - apply (lo_origin _ _ _ _ _ Hlo) in Hin as [(s & e & _ & _ & -> & _)|(s & Hs & Hc)].
    + cbn in E. rewrite E in Hk. by apply key_of_not_node in Hk.
    + destruct (lo_states _ _ _ _ _ Hlo s Hs) as (Hw & _). apply (Hn s Hs).
      * eapply key_of_inj; [apply Hw|done|by apply (state_changes_keys d)|by rewrite <-E].
      * apply list_elem_of_fmap. by exists ch.
  - eapply rest_not_key_of; [exact Hin|]. by rewrite <-E.
Qed.

(** A metadata key that is not a domain's nor the marker keeps its value. *)
Lemma meta_origin k w :
  stored d' COLUMN_META k = Some w →
  stored d COLUMN_META k = Some w ∨ k = KEY_MARKER ∨
  ∃ s, s ∈ cm_states b ∧ wf_state s ∧
    (k = root_key (ds_domain_id s) (ds_consensus_height s) ∨
     k = manifest_key (ds_domain_id s) (ds_consensus_height s) ∨ k = head_key (ds_domain_id s)).
Proof.
  intros Hs. destruct (decide ((COLUMN_META, k) ∈ (t0 ++ rest_changes d b).*1)) as [Hin|Hni].
  - right. apply list_elem_of_fmap in Hin as ([[c k'] w'] & [= <- <-] & Hin). apply elem_of_app in Hin as [Hin|Hin].
    + right. apply (lo_origin _ _ _ _ _ Hlo) in Hin as [(s & e & _ & _ & [=] & _)|(s & Hs' & Hc)].
      exists s. split; [done|]. split; [by apply (lo_states _ _ _ _ _ Hlo)|].
      apply (state_change_meta d), list_elem_of_fmap. eexists. split; [|exact Hc]. done.
    + left. apply rest_keys in Hin as [(c & <- & Hin)|[= -> ->]]; [|done]. no_column Hin.
  - left. by rewrite <-Hold.
Qed.

Lemma published_meta dom h s :
  state_of (cm_states b) dom = Some s →
  stored d' COLUMN_META (root_key dom (ds_consensus_height s)) = Some (snap_root (ds_snapshot s)) ∧
  stored d' COLUMN_META (manifest_key dom (ds_consensus_height s)) = Some (manifest_bytes (ds_snapshot s)) ∧
  stored d' COLUMN_META (head_key dom) = Some (encode_head (ds_consensus_height s) (snap_root (ds_snapshot s))) ∧
  (is_b256 dom → u64 h → h ≠ ds_consensus_height s →
     stored d' COLUMN_META (root_key dom h) = stored d COLUMN_META (root_key dom h) ∧
     stored d' COLUMN_META (manifest_key dom h) = stored d COLUMN_META (manifest_key dom h)).
Proof.
  intros [Hs <-]%state_of_Some. split_and!.
  1-3: refine (state_written s (_, _, _) Hs _); unfold state_changes;
    rewrite !elem_of_app, !elem_of_cons; auto 8.
  intros Hd Hh Hne. assert (∀ s', s' ∈ cm_states b → ds_domain_id s' = ds_domain_id s → s' = s) as Huniq.
  { intros s' Hs' E. pose proof (state_of_in _ _ Hnd Hs') as E1. rewrite E, (state_of_in _ _ Hnd Hs) in E1. congruence. }
  assert (u64 (ds_consensus_height s)) as Hh' by (by apply (lo_states _ _ _ _ _ Hlo)).
  split; [refine (key_kept (ds_domain_id s) (COLUMN_META, root_key _ h) Hd _ _)|
          refine (key_kept (ds_domain_id s) (COLUMN_META, manifest_key _ h) Hd _ _)];
    try (right; split; [done|]; cbn; eauto; fail);
    intros s' Hs' E; rewrite (Huniq s' Hs' E); intros [E1|[E1|E1]]%state_change_meta; try done;
    [apply root_key_inj in E1 as [_ ?]|apply manifest_key_inj in E1 as [_ ?]]; done.
Qed.

Lemma unpublished_meta dom c k :
  is_b256 dom → state_of (cm_states b) dom = None → key_of dom (c, k) → stored d' c k = stored d c k.
Proof.
  intros Hd Hn Hk. apply (key_kept dom (c, k)); [done|done|]. intros s Hs E _. by eapply state_of_None.
Qed.

Lemma nodes_kept h e : stored d COLUMN_TRIE_NODES h = Some e → stored d' COLUMN_TRIE_NODES h = Some e.
Proof.
  intros Hs. rewrite Hold; [done|]. intros (ch & E & Hin)%list_elem_of_fmap.
  apply elem_of_app in Hin as [Hin|Hin].
  - apply (lo_origin _ _ _ _ _ Hlo) in Hin as [(s & e0 & _ & _ & -> & Hn & _)|(s & Hs' & Hc)].
    + cbn in E. injection E as ->. congruence.
    + apply state_changes_keys in Hc; [|by apply (lo_states _ _ _ _ _ Hlo)]. rewrite <-E in Hc.
      by apply key_of_not_node in Hc.
  - apply rest_keys in Hin as [(c & Hc & Hin)| ->]; [|done]. rewrite <-E in Hc. subst c. no_column Hin.
Qed.

Lemma nodes_published s e :
  s ∈ cm_states b → e ∈ snap_nodes (ds_snapshot s) → stored d' COLUMN_TRIE_NODES e.1 = Some e.2.
Proof.
  intros Hs He. pose proof (lo_nodes _ _ _ _ _ Hlo s Hs) as Ha. rewrite list.Forall_forall in Ha.
  destruct (Ha e He) as [Hst|[Hst Hp]]; [by apply nodes_kept|].
  destruct (lo_pending _ _ _ _ _ Hlo _ Hp) as [w Hw].
  apply (lo_origin _ _ _ _ _ Hlo) in Hw as Ho. destruct Ho as [(s' & e' & Hs' & He' & Ew & _)|(s' & Hs' & Hc)].
  - unfold node_change in Ew. cbn in Ew. injection Ew as E1 ->.
    rewrite (Hagree s s' e e' Hs Hs' He He' E1). apply Hnew, elem_of_app. left. by rewrite <-E1.
  - apply state_changes_keys in Hc; [|by apply (lo_states _ _ _ _ _ Hlo)]. by apply key_of_not_node in Hc.
Qed.

Lemma key_root dom h : u64 h → key_of dom (COLUMN_META, root_key dom h).
Proof. right. split; [done|]. cbn. eauto. Qed.

Lemma key_manifest dom h : u64 h → key_of dom (COLUMN_META, manifest_key dom h).
Proof. right. split; [done|]. cbn. eauto. Qed.

Lemma key_head dom : key_of dom (COLUMN_META, head_key dom).
Proof. right. split; [done|]. cbn. auto. Qed.

(** The other columns hold the records of the batch over the old ones. *)
Lemma records_published c k :
  c ∈ record_columns → stored d' c k = default (stored d c k) (written (record_changes b) c k).
Proof.
  intros Hc. assert (∀ w, (c, k, w) ∈ record_changes b → (c, k, w) ∈ rest_changes d b ∨
    (¬ (c, k) ∈ (rest_changes d b).*1) ∧ stored d c k = w) as Hrec.
  { intros w. unfold record_changes, rest_changes. rewrite !elem_of_app.
    intros [Hin|[Hin|[Hin|(r & E & Hin)%list_elem_of_fmap]]]; [by auto..|]. injection E as -> -> ->.
    rewrite list.Forall_forall in Hreg. destruct (Hreg r Hin) as [Hn|Hs].
    - left. right. right. right. left. apply list_elem_of_fmap. exists r. split; [done|].
      rewrite list_elem_of_In, filter_In, <-list_elem_of_In. unfold fresh_record. by rewrite bool_decide_true.
    - right. split; [|done]. rewrite !fmap_app, !elem_of_app, <-!list_fmap_compose.
      intros [Hi|[Hi|[Hi|[Hi|Hi]]]]; apply list_elem_of_fmap in Hi as (y & E & Hy); try discriminate E.
      + injection E as E. rewrite list_elem_of_In, filter_In in Hy. destruct Hy as [_ Hy].
        unfold fresh_record in Hy. bool_prop. cbn in E. congruence.
      + apply list_elem_of_singleton in Hy as ->. discriminate E. }
  assert ((c, k) ∉ t0.*1) as Ht0.
  { intros (ch & E & Hin)%list_elem_of_fmap.
    apply (loop_keys _ _ _ _ _ _ Hlo) in Hin as [[e ->]|(s & Hs & [[Hk _]|[Hk _]])];
      [cbn in E; injection E as -> _| |]; [|rewrite <-E in Hk; cbn in Hk; subst c..]; no_column Hc. }
  destruct (written (record_changes b) c k) as [w|] eqn:Hw; cbn.
  - apply written_Some_in in Hw. destruct (Hrec w Hw) as [Hin|[Hni Hst]]; [apply Hnew, elem_of_app; by right|].
    rewrite Hold; [done|]. rewrite fmap_app, elem_of_app. tauto.
  - apply written_none in Hw. apply Hold. rewrite fmap_app, elem_of_app. intros [?|Hin]; [done|].
    apply list_elem_of_fmap in Hin as (ch & E & Hin). apply Hw, list_elem_of_fmap. exists ch. split; [done|].
    unfold rest_changes in Hin. unfold record_changes. rewrite !elem_of_app, list_elem_of_singleton in *.
    destruct Hin as [?|[?|[?|[Hin| ->]]]]; auto.
    + right. right. right. apply list_elem_of_fmap in Hin as (r & -> & Hr). apply list_elem_of_fmap. exists r.
      split; [done|]. rewrite list_elem_of_In, filter_In, <-list_elem_of_In in Hr. tauto.
    + cbn in E. injection E as -> _. no_column Hc.
Qed.

(** The flat cache of a published domain holds exactly its leaves. *)
Lemma flat_published s k :
  s ∈ cm_states b → clean (ds_domain_id s) →
  stored d' COLUMN_FLAT_STATE (flat_key (ds_domain_id s) k) = bget k (snap_leaves (ds_snapshot s)).
Proof.
  intros Hs Hcl. destruct (lo_states _ _ _ _ _ Hlo s Hs) as ((Hd & _ & _ & _ & Hsl & _) & _ & _ & Ho).
  assert (∀ w, (COLUMN_FLAT_STATE, flat_key (ds_domain_id s) k, w) ∈ state_changes d s →
    stored d' COLUMN_FLAT_STATE (flat_key (ds_domain_id s) k) = w) as Hw.
  { intros w Hin. exact (state_written s _ Hs Hin). }
  destruct (bget k (snap_leaves (ds_snapshot s))) as [x|] eqn:Ek.
  - apply Hw. unfold state_changes. rewrite !elem_of_app. right. left. apply list_elem_of_fmap.
    exists (k, x). split; [done|]. by apply bget_elem_of.
  - apply bget_None in Ek. destruct (decide (k ∈ old_keys_of d (ds_domain_id s))) as [Hin|Hni].
    + apply Hw. unfold state_changes. rewrite !elem_of_app. left. apply list_elem_of_fmap. exists k. split; [done|].
      unfold removed_keys. rewrite list_elem_of_In, filter_In, <-list_elem_of_In. split; [done|]. by rewrite bool_decide_false.
    + assert (stored d' COLUMN_FLAT_STATE (flat_key (ds_domain_id s) k) =
              stored d COLUMN_FLAT_STATE (flat_key (ds_domain_id s) k)) as ->.
      2: { destruct (stored d _ _) as [x|] eqn:Ex; [|done].
        rewrite (rp_flat _ _ Hrep) in Ex by done.
        destruct (rp_flat_leaf _ _ Hrep _ _ _ Hd Hcl Ex) as (h & s0 & Eh & Es & Eg). exfalso. apply Hni.
        rewrite (old_leaf_keys_of _ _ _ _ Hrep Hd Ho), Eh, Es. apply bkeys_elem. eauto. }
      refine (key_kept (ds_domain_id s) (COLUMN_FLAT_STATE, _) Hd _ _); [left; split; [done|by eexists]|].
      intros s' Hs' E. assert (s' = s) as ->.
      { pose proof (state_of_in _ _ Hnd Hs') as E1. rewrite E, (state_of_in _ _ Hnd Hs) in E1. congruence. }
      intros (ch & Ech & Hin)%list_elem_of_fmap. unfold state_changes in Hin. rewrite !elem_of_app in Hin.
      destruct Hin as [(y & -> & Hy)%list_elem_of_fmap|[(y & -> & Hy)%list_elem_of_fmap|Hin]].
      -- injection Ech as Ey%app_inv_head. subst y. unfold removed_keys in Hy.
        rewrite list_elem_of_In, filter_In, <-list_elem_of_In in Hy. tauto.
      -- injection Ech as Ey%app_inv_head. subst k. apply Ek, list_elem_of_fmap. by exists y.
      -- repeat (apply elem_of_cons in Hin as [->|Hin]; [done|]). by apply elem_of_nil in Hin.
Qed.

Lemma publish_represents : represents_on d' (publish v b).
Proof.
  destruct Hrep as [Hma Hmw Hro Hmf Hrs Hms Hnh Hhd Hst Hrc Hfl Hfs]. destruct Hwf as (Hwm & Hws & _).
  assert (∀ s, s ∈ cm_states b → wf_state s ∧ snapshot_ok (ds_snapshot s)) as Hsok.
  { intros s Hs. by destruct (lo_states _ _ _ _ _ Hlo s Hs) as (? & ? & _). }
  split; cbn [publish vw_marker vw_head vw_state vw_record vw_flat].
  - apply Hnew, elem_of_app. right. unfold rest_changes. rewrite !elem_of_app, list_elem_of_singleton. auto.
  - by intros m [= <-].
  - intros dom h Hd Hh. destruct (state_of (cm_states b) dom) as [s|] eqn:Es.
    + destruct (published_meta dom h s Es) as (Hr & _ & _ & Hk). destruct (Z.eqb_spec h (ds_consensus_height s)) as [->|Hne]; [done|].
      destruct Hk as [-> _]; [done..|]. by apply Hro.
    + rewrite (unpublished_meta dom COLUMN_META (root_key dom h)); [by apply Hro|done|done|by apply key_root].
  - intros dom h Hd Hh. destruct (state_of (cm_states b) dom) as [s|] eqn:Es.
    + destruct (published_meta dom h s Es) as (_ & Hr & _ & Hk). destruct (Z.eqb_spec h (ds_consensus_height s)) as [->|Hne]; [done|].
      destruct Hk as [_ ->]; [done..|]. by apply Hmf.
    + rewrite (unpublished_meta dom COLUMN_META (manifest_key dom h)); [by apply Hmf|done|done|by apply key_manifest].
  - intros dom k w Hd Hs Hp. apply meta_origin in Hs as [Hs|[->|(s & Hs & (Hds & Hhs & _) & [->|[->| ->]])]]; try done.
    + by eapply Hrs.
    + apply starts_with_spec in Hp as [x Hx]. unfold root_key, root_prefix in Hx. rewrite <-!app_assoc in Hx.
      apply app_inv_head, app_inj_1 in Hx as [<- _]; [|congruence]. eauto.
  - intros k w Hs Hp. apply meta_origin in Hs as [Hs|[->|(s & Hs & (Hds & Hhs & _) & [->|[->| ->]])]]; try done.
    + by eapply Hms.
    + eauto.
  - intros dom Hd Hn. destruct (state_of (cm_states b) dom) as [s|] eqn:Es; [done|].
    rewrite (unpublished_meta dom COLUMN_META (head_key dom)); [by apply Hnh|done|done|apply key_head].
  - intros dom h Hd Hn. destruct (state_of (cm_states b) dom) as [s|] eqn:Es.
    + injection Hn as <-. destruct (published_meta dom 0 s Es) as (_ & _ & Hr & _).
      apply state_of_Some in Es as [Hs _]. split; [by apply (Hsok s Hs)|]. exists (ds_snapshot s). by rewrite Z.eqb_refl.
    + rewrite (unpublished_meta dom COLUMN_META (head_key dom)); [by apply Hhd|done|done|apply key_head].
  - intros dom h s0 Hd Hh Hv. assert (vw_state v dom h = Some s0 → snapshot_ok s0 ∧ ∀ e, e ∈ snap_nodes s0 → stored d' COLUMN_TRIE_NODES e.1 = Some e.2) as Hkeep.
    { intros Hv'. apply Hst in Hv' as [Hok Hn]; [|done..]. split; [done|]. intros e He. by apply nodes_kept, Hn. }
    destruct (state_of (cm_states b) dom) as [s|] eqn:Es; [|auto]. destruct (h =? ds_consensus_height s); [|auto].
    injection Hv as <-. apply state_of_Some in Es as [Hs _]. split; [by apply Hsok|]. intros e. by apply nodes_published.
  - intros c k Hc. rewrite records_published by done. by rewrite Hrc.
  - intros dom k Hd Hcl. destruct (state_of (cm_states b) dom) as [s|] eqn:Es.
    + apply state_of_Some in Es as [Hs <-]. by apply flat_published.
    + rewrite <-Hfl by done. apply (unpublished_meta dom); [done|done|]. left. split; [done|by eexists].
  - intros dom k x Hd Hcl Hx. destruct (state_of (cm_states b) dom) as [s|] eqn:Es; [|by apply Hfs].
    exists (ds_consensus_height s), (ds_snapshot s). by rewrite Z.eqb_refl.
Qed.
End published.

(** ** Pruning *)

Lemma add_live_all ex live l live' :
  for_each (add_live ex) live l = Ok live' →
  (∀ x, bcontains x live = true → bcontains x live' = true) ∧
  ∀ k w m x, (k, w) ∈ l → (∀ dom h, ex = Some (dom, h) → k ≠ manifest_key dom h) →
    decode_reachability w = Ok m → x ∈ rm_node_hashes m → bcontains x live' = true.
Proof.
  revert live. induction l as [|[k w] l IH]; intros live Hr; cbn in Hr.
  { injection Hr as <-. split; [done|]. by intros ? ? ? ? ?%elem_of_nil. }
  apply obind_Ok in Hr as (live1 & Ha & Hr). apply IH in Hr as [Hmono Hall].
  destruct (match ex with Some _ => _ | None => _ end) eqn:Hex.
  - injection Ha as <-. split; [done|]. intros k0 w0 m x [[= -> ->]|Hin]%elem_of_cons Hne Hd Hx; [|by eapply Hall].
    destruct ex as [[dom h]|]; [|done]. bool_prop. by destruct (Hne dom h).
  - apply obind_Ok in Ha as (m0 & Hd0 & Ha). injection Ha as <-.
    assert (∀ x, bcontains x live = true ∨ x ∈ rm_node_hashes m0 →
                 bcontains x (bextend live ((λ h, (h, tt)) <$> rm_node_hashes m0)) = true) as Hext.
    { intros x Hx. apply bcontains_true.
      destruct (bget x (bextend live _)) eqn:E; [eauto|]. exfalso. destruct Hx as [Hx|Hx].
      - apply bcontains_true in Hx as [[] Hx]. destruct (decide (x ∈ ((λ h, (h, tt)) <$> rm_node_hashes m0).*1)) as [Hi|Hi].
        + apply list_elem_of_fmap in Hi as ([y []] & -> & Hi).
          erewrite bget_bextend_in in E; [done| |exact Hi]. by intros ? [] [].
        + by rewrite bget_bextend_notin, Hx in E.
      - erewrite (bget_bextend_in _ _ x tt) in E; [done|by intros ? [] []|]. apply list_elem_of_fmap. eauto. }
    split; [intros x Hx; apply Hmono, Hext; auto|].
    intros k0 w0 m x [[= -> ->]|Hin]%elem_of_cons Hne Hd Hx; [|by eapply Hall].
    rewrite Hd0 in Hd. injection Hd as <-. apply Hmono, Hext. auto.
Qed.

Lemma live_covers d v dom h live dom' h' s x :
  represents_on d v → is_b256 dom → u64 h → is_b256 dom' → u64 h' → (dom', h') ≠ (dom, h) →
  live_node_hashes d (Some (dom, h)) = Ok live → vw_state v dom' h' = Some s → x ∈ bkeys (snap_nodes s) →
  bcontains x live = true.
Proof.
  intros Hrep Hd Hh Hd' Hh' Hne. unfold live_node_hashes. intros Hl Es Hx.
  apply obind_Ok in Hl as (entries & Hsc & Hl). apply add_live_all in Hl as [_ Hall].
  destruct (rp_state _ _ Hrep dom' h' s Hd' Hh' Es) as [(Hw & _ & He) _].
  eapply (Hall (manifest_key dom' h') (manifest_bytes s) (snapshot_manifest_of s)); [| |by apply decode_encode_reachability; [apply wf_manifest_of|]|done].
  - apply (scan_prefix_in _ _ _ _ _ _ Hsc). split; [|apply starts_with_spec; by eexists].
    change (stored d COLUMN_META (manifest_key dom' h') = Some (manifest_bytes s)).
    rewrite (rp_manifest _ _ Hrep) by done. by rewrite Es.
  - intros ? ? [= <- <-] E. apply manifest_key_inj in E as [-> ->]; done.
Qed.

(** A prune transaction deletes one root, its manifest, and only nodes that no
    other recorded state uses. *)
Lemma prune_transaction_inv d v dom h t n :
  represents_on d v → is_b256 dom → u64 h → prune_transaction d dom h = Ok (t, n) →
  ∃ s dead, vw_state v dom h = Some s ∧ vw_head v dom ≠ Some h ∧
    t = [(COLUMN_META, root_key dom h, None); (COLUMN_META, manifest_key dom h, None)] ++
        ((λ x, (COLUMN_TRIE_NODES, x, None)) <$> dead) ∧ NoDup t.*1 ∧
    ∀ x dom' h' s', x ∈ dead → is_b256 dom' → u64 h' → (dom', h') ≠ (dom, h) →
      vw_state v dom' h' = Some s' → x ∉ bkeys (snap_nodes s').
Proof.
  intros Hrep Hd Hh. unfold prune_transaction. intros Hp. apply obind_Ok in Hp as (head & Hhd & Hp).
  destruct (bool_decide _) eqn:Hcur; [done|]. bool_prop. apply obind_Ok in Hp as (found & Hf & Hp).
  apply obind_Ok in Hp as (m & Hm & Hp). apply obind_Ok in Hp as (live & Hlive & Hp). injection Hp as <- _.
  apply (load_manifest_of _ v) in Hf; [|done..]. subst found. apply ok_or_Ok in Hm.
  destruct (vw_state v dom h) as [s|] eqn:Es; [|done]. injection Hm as <-.
  exists s, (List.filter (λ x, negb (bcontains x live)) (bkeys (snap_nodes s))).
  split_and!; [done| |done| |].
  - apply (latest_head_of _ v) in Hhd; [|done..]. intros E. rewrite E in Hhd.
    destruct Hhd as (s' & _ & ->). by apply Hcur.
  - cbn. destruct (rp_state _ _ Hrep dom h s Hd Hh Es) as [((_ & Hs & _) & _) _].
    rewrite <-list_fmap_compose. constructor; [|constructor].
    + rewrite elem_of_cons, list_elem_of_fmap. intros [E|(x & [=] & _)]. done.
    + rewrite list_elem_of_fmap. by intros (x & [=] & _).
    + apply (NoDup_fmap_2 (λ x, (COLUMN_TRIE_NODES, x))).
      apply NoDup_filter_bool. by apply sorted_NoDup.
  - intros x dom' h' s' Hx Hd' Hh' Hne Es' Hin. rewrite list_elem_of_In, filter_In in Hx. destruct Hx as [_ Hx].
    bool_prop. rewrite (live_covers d v dom h live dom' h' s' x) in Hx; done.
Qed.
Lemma represents_ext d d' v : (∀ c k, stored d' c k = stored d c k) → represents_on d v → represents_on d' v.
Proof. intros E [? ? ? ? ? ? ? ? ? ? ? ?]. split; try setoid_rewrite E; done. Qed.

Lemma forget_represents d d' v dom h t dead :
  represents_on d v → is_b256 dom → u64 h → vw_head v dom ≠ Some h →
  t = [(COLUMN_META, root_key dom h, None); (COLUMN_META, manifest_key dom h, None)] ++
      ((λ x, (COLUMN_TRIE_NODES, x, None)) <$> dead) →
  (∀ x dom' h' s', x ∈ dead → is_b256 dom' → u64 h' → (dom', h') ≠ (dom, h) →
     vw_state v dom' h' = Some s' → x ∉ bkeys (snap_nodes s')) →
  (∀ c k w, (c, k, w) ∈ t → stored d' c k = w) →
  (∀ c k, (c, k) ∉ t.*1 → stored d' c k = stored d c k) →
  represents_on d' (forget v dom h).
Proof.
  intros [Hma Hmw Hro Hmf Hrs Hms Hnh Hhd Hst Hrc Hfl Hfs] Hd Hh Hcur -> Hdead Hnew Hold.
  assert (∀ k, k ≠ root_key dom h → k ≠ manifest_key dom h → stored d' COLUMN_META k = stored d COLUMN_META k) as Hmeta.
  { intros k Hk1 Hk2. apply Hold. cbn [fmap list_fmap app fst]. rewrite !not_elem_of_cons, <-list_fmap_compose, list_elem_of_fmap.
    split_and!; [congruence|congruence|]. by intros (x & [=] & _). }
  assert (stored d' COLUMN_META (root_key dom h) = None) as Hr0 by (apply Hnew; by left).
  assert (stored d' COLUMN_META (manifest_key dom h) = None) as Hm0 by (apply Hnew; right; by left).
  assert (∀ k w, stored d' COLUMN_META k = Some w → stored d COLUMN_META k = Some w) as Hsome.
  { intros k w Hk. rewrite <-Hmeta; [done| |]; congruence. }
  assert (∀ dom' h' : _, is_b256 dom' → u64 h' →
    (dom' = dom ∧ h' = h) ∨ (root_key dom' h' ≠ root_key dom h ∧ manifest_key dom' h' ≠ manifest_key dom h)) as Hcase.
  { intros dom' h' Hd' Hh'. destruct (decide (dom' = dom ∧ h' = h)) as [|Hne]; [by left|right].
    split; intros E; apply Hne; [by apply root_key_inj in E|by apply manifest_key_inj in E]. }
  split; cbn [forget vw_marker vw_head vw_state vw_record vw_flat].
  - rewrite Hmeta; done.
  - done.
  - intros dom' h' Hd' Hh'. destruct (Hcase dom' h' Hd' Hh') as [[-> ->]|[Hk1 Hk2]].
    + by rewrite bool_decide_true.
    + rewrite bool_decide_false by naive_solver. rewrite Hmeta; [by apply Hro|done|done].
  - intros dom' h' Hd' Hh'. destruct (Hcase dom' h' Hd' Hh') as [[-> ->]|[Hk1 Hk2]].
    + by rewrite bool_decide_true.
    + rewrite bool_decide_false by naive_solver. rewrite Hmeta; [by apply Hmf|done|done].
  - intros dom' k w Hd' Hk. by apply (Hrs dom' k w), Hsome.
  - intros k w Hk. by apply (Hms k w), Hsome.
  - intros dom' Hd' Hn. rewrite Hmeta; [by apply Hnh|done|done].
  - intros dom' h' Hd' Hn. destruct (Hhd dom' h' Hd' Hn) as (Hh' & s & Hs & Hk). split; [done|]. exists s.
    rewrite bool_decide_false by naive_solver. rewrite Hmeta; done.
  - intros dom' h' s Hd' Hh' Hv. case_bool_decide as Hne; [done|].
    destruct (Hst dom' h' s Hd' Hh' Hv) as [Hok Hn]. split; [done|]. intros e He. rewrite Hold; [by apply Hn|].
    cbn [fmap list_fmap app fst]. rewrite !not_elem_of_cons, <-list_fmap_compose, list_elem_of_fmap. split_and!; [done|done|].
    intros (x & [= <-] & Hx). eapply (Hdead e.1 dom' h' s); try done; [naive_solver|].
    apply list_elem_of_fmap. by exists e.
  - intros c k Hc. rewrite Hold; [by apply Hrc|]. cbn [fmap list_fmap app fst].
    rewrite !not_elem_of_cons, <-list_fmap_compose, list_elem_of_fmap.
    split_and!; [intros [= -> _]; no_column Hc|intros [= -> _]; no_column Hc|].
    intros (x & [= -> _] & _). no_column Hc.
  - intros dom' k Hd' Hcl. rewrite Hold; [by apply Hfl|].
    cbn [fmap list_fmap app fst]. rewrite !not_elem_of_cons, <-list_fmap_compose, list_elem_of_fmap.
    split_and!; [done|done|]. by intros (y & [=] & _).
  - intros dom' k x Hd' Hcl Hx. destruct (Hfs dom' k x Hd' Hcl Hx) as (h' & s & Eh & Es & Eg). exists h', s.
    split_and!; try done. rewrite bool_decide_false; naive_solver.
Qed.

(** Pruning a root forgets that state and keeps every other; a failure keeps all. *)
Lemma prune_root_refines d v dom h r d' :
  represents_on d v → is_b256 dom → u64 h → prune_root d dom h = (r, d') →
  da_retention d' = da_retention d ∧
  match r with
  | Ok _ => represents_on d' (forget v dom h) ∧ is_Some (vw_state v dom h) ∧ vw_head v dom ≠ Some h
  | _ => represents_on d' v
  end.
Proof.
  intros Hrep Hd Hh. unfold prune_root. destruct (prune_transaction d dom h) as [[t n]|e|m] eqn:Ht;
    [|by intros [= <- <-]..].
  destruct (prune_transaction_inv _ _ _ _ _ _ Hrep Hd Hh Ht) as (s & dead & Es & Hcur & Et & Hnd & Hdead).
  unfold after. destruct (submit d t) as [[u|e|m] d1] eqn:Hs; intros [= <- <-].
  - destruct (submit_Ok _ _ _ _ Hs Hnd) as (Hr & Hnew & Hold). split; [done|]. split; [|split; [eauto|done]].
    by eapply forget_represents.
  - apply submit_not_Ok in Hs as [? Hs]; [|done]. split; [done|]. by eapply represents_ext.
  - apply submit_not_Ok in Hs as [? Hs]; [|done]. split; [done|]. by eapply represents_ext.
Qed.

(** States below the cutoff of the given domains may be gone, heads never. *)
Record kept (cutoff : Z) (doms : list DomainId) (v v' : view) : Prop := {
  kp_marker : vw_marker v' = vw_marker v;
  kp_head : ∀ dom, vw_head v' dom = vw_head v dom;
  kp_state : ∀ dom h, vw_state v' dom h = vw_state v dom h ∨
    vw_state v' dom h = None ∧ dom ∈ doms ∧ h < cutoff ∧ vw_head v dom ≠ Some h;
  kp_record : ∀ c k, vw_record v' c k = vw_record v c k;
  kp_flat : ∀ dom k, vw_flat v' dom k = vw_flat v dom k;
}.

Lemma kept_refl cutoff doms v : kept cutoff doms v v.
Proof. split; auto. Qed.

Lemma kept_trans cutoff doms1 doms2 v1 v2 v3 :
  kept cutoff doms1 v1 v2 → kept cutoff doms2 v2 v3 → kept cutoff (doms1 ++ doms2) v1 v3.
Proof.
  intros [M1 H1' S1 R1 F1] [M2 H2' S2 R2 F2]. split; [congruence|congruence| |congruence|congruence]. intros dom h.
  destruct (S2 dom h) as [E2|(E2 & Hd & Hh & Hn)], (S1 dom h) as [E1|(E1 & Hd' & Hh' & Hn')].
  - left. congruence.
  - right. rewrite elem_of_app. split_and!; auto. congruence.
  - right. rewrite elem_of_app. rewrite H1' in Hn. split_and!; auto.
  - right. rewrite elem_of_app. split_and!; auto.
Qed.
Lemma forget_kept cutoff v dom h : h < cutoff → vw_head v dom ≠ Some h → kept cutoff [dom] v (forget v dom h).
Proof.
  intros Hh Hn. split; [done|done| |done|done]. intros dom' h'. cbn. case_bool_decide as E; [|by left].
  destruct E as [-> ->]. right. rewrite list_elem_of_singleton. auto.
Qed.

Lemma prune_heights_refines dom cutoff heights d v pruned r d' :
  represents_on d v → is_b256 dom → Forall u64 heights →
  prune_heights d dom cutoff pruned heights = (r, d') →
  ∃ v', represents_on d' v' ∧ da_retention d' = da_retention d ∧ kept cutoff [dom] v v' ∧
    (is_ok r = true → ∀ h, h ∈ heights → h < cutoff → vw_state v' dom h = None).
Proof.
  intros Hrep Hd Hall. revert d v pruned Hrep. induction Hall as [|h heights Hh Hall IH]; intros d v pruned Hrep Hr; cbn in Hr.
  { injection Hr as <- <-. exists v. split_and!; auto using kept_refl. by intros _ h ?%elem_of_nil. }
  destruct (Z.ltb_spec h cutoff) as [Hlt|Hge].
  - destruct (prune_root d dom h) as [r1 d1] eqn:Hp.
    destruct (prune_root_refines _ _ _ _ _ _ Hrep Hd Hh Hp) as [Hret Hr1].
    destruct r1 as [n|e|m]; cbn in Hr; [|injection Hr as <- <-; exists v; by split_and!; auto using kept_refl..].
    destruct Hr1 as (Hrep1 & _ & Hne). destruct (IH _ _ _ Hrep1 Hr) as (v' & Hrep' & Hret' & Hk & Hdone).
    pose proof (kept_trans _ _ _ _ _ _ (forget_kept cutoff v dom h Hlt Hne) Hk) as [M K S R F].
    exists v'. split_and!; [done|congruence| |].
    + split; [done|done| |done|done]. intros dom' h'. destruct (S dom' h') as [|(? & Hin & ?)]; [by left|right].
      split_and!; [done| |tauto|tauto]. by apply elem_of_app in Hin as [?|?].
    + intros Ho h' [->|Hin]%elem_of_cons Hl; [|by apply Hdone].
      destruct (kp_state _ _ _ _ Hk dom h) as [->|[? _]]; [|done]. cbn. by rewrite bool_decide_true.
  - destruct (IH _ _ _ Hrep Hr) as (v' & Hrep' & Hret' & Hk & Hdone). exists v'. split_and!; try done.
    intros Ho h' [->|Hin]%elem_of_cons Hl; [lia|by apply Hdone].
Qed.

(** The recorded heights of a domain. *)
Lemma root_heights_of d v dom heights :
  represents_on d v → is_b256 dom → root_heights d dom = Ok heights →
  Forall u64 heights ∧ ∀ h s, u64 h → vw_state v dom h = Some s → h ∈ heights.
Proof.
  intros Hrep Hd Hr. unfold root_heights in Hr. apply obind_Ok in Hr as (entries & Hs & Hc).
  apply collect_Ok in Hc.
  assert (∀ k w h, (k, w) ∈ entries → root_height (root_prefix dom) (k, w) = Ok h → u64 h ∧ k = root_key dom h) as Hkey.
  { intros k w h Hin He. apply (scan_prefix_in _ _ _ _ _ _ Hs) in Hin as [Hst Hp].
    destruct (rp_roots _ _ Hrep dom k w Hd Hst Hp) as (h' & Hh' & ->).
    unfold root_height in He. cbn [fst] in He. unfold root_key in He. rewrite drop_app_length in He.
    rewrite length_to_be_bytes in He. cbn in He. injection He as <-. by rewrite from_to_be_bytes. }
  split.
  - apply list.Forall_forall. intros h Hin. apply list_elem_of_lookup in Hin as [i Hi].
    destruct (Forall2_lookup_r _ _ _ _ _ Hc Hi) as ([k w] & Hk & He). apply list_elem_of_lookup_2 in Hk.
    by apply (Hkey k w).
  - intros h s Hh Es. pose proof (rp_root _ _ Hrep dom h Hd Hh) as Hst. rewrite Es in Hst. cbn in Hst.
    assert ((root_key dom h, snap_root s) ∈ entries) as Hin.
    { apply (scan_prefix_in _ _ _ _ _ _ Hs). split; [done|]. apply starts_with_spec. by eexists. }
    apply list_elem_of_lookup in Hin as [i Hi]. destruct (Forall2_lookup_l _ _ _ _ _ Hc Hi) as (h' & Hi' & He).
    apply Hkey in He as [Hh' E]; [|by apply list_elem_of_lookup_2 in Hi].
    apply root_key_inj in E as [_ ->]; [by apply list_elem_of_lookup_2 in Hi'|done..].
Qed.

Lemma retain_refines cutoff states d v pruned r d' :
  represents_on d v → Forall wf_state states → retain_states d cutoff pruned states = (r, d') →
  ∃ v', represents_on d' v' ∧ da_retention d' = da_retention d ∧ kept cutoff (ds_domain_id <$> states) v v' ∧
    (is_ok r = true → ∀ dom h, dom ∈ ds_domain_id <$> states → u64 h → h < cutoff → vw_state v' dom h = None).
Proof.
  intros Hrep Hall. revert d v pruned Hrep. induction Hall as [|s states (Hd & _) Hall IH]; intros d v pruned Hrep Hr; cbn in Hr.
  { injection Hr as <- <-. exists v. split_and!; auto using kept_refl. by intros _ ? ? ?%elem_of_nil. }
  destruct (root_heights d (ds_domain_id s)) as [heights|e|m] eqn:Hrh; cbn in Hr;
    [|injection Hr as <- <-; exists v; by split_and!; auto using kept_refl..].
  destruct (root_heights_of _ _ _ _ Hrep Hd Hrh) as [Hu Hcov].
  destruct (prune_heights d (ds_domain_id s) cutoff pruned heights) as [r1 d1] eqn:Hp.
  destruct (prune_heights_refines _ _ _ _ _ _ _ _ Hrep Hd Hu Hp) as (v1 & Hrep1 & Hret1 & Hk1 & Hdone1).
  assert (∀ v', kept cutoff (ds_domain_id <$> states) v1 v' → kept cutoff (ds_domain_id <$> s :: states) v v') as Hcons.
  { intros v' Hk. exact (kept_trans _ [_] _ _ _ _ Hk1 Hk). }
  destruct r1 as [n|e|m]; cbn in Hr.
  - destruct (IH _ _ _ Hrep1 Hr) as (v' & Hrep' & Hret' & Hk & Hdone). exists v'. split_and!; [done|congruence|auto|].
    intros Ho dom h Hin Hh Hl. apply elem_of_cons in Hin as [->|Hin]; [|by apply Hdone].
    assert (vw_state v1 (ds_domain_id s) h = None) as E1.
    { destruct (vw_state v (ds_domain_id s) h) as [x|] eqn:Ex; [apply Hdone1; eauto|].
      destruct (kp_state _ _ _ _ Hk1 (ds_domain_id s) h) as [->|[? _]]; done. }
    destruct (kp_state _ _ _ _ Hk (ds_domain_id s) h) as [->|[? _]]; done.
  - injection Hr as <- <-. exists v1. split_and!; try done. apply Hcons, kept_refl.
  - injection Hr as <- <-. exists v1. split_and!; try done. apply Hcons, kept_refl.
Qed.

(** The first height a policy keeps. *)
Definition cutoff_of (retention : RetentionPolicy) (height : Z) : Z :=
  match retention with
  | Archive => 0
  | Full history => saturating_sub height (saturating_sub history 1)
  end.

Lemma apply_retention_refines d v height states r d' :
  represents_on d v → Forall wf_state states → apply_retention d height states = (r, d') →
  ∃ v', represents_on d' v' ∧ da_retention d' = da_retention d ∧
    kept (cutoff_of (da_retention d) height) (ds_domain_id <$> states) v v' ∧
    (is_ok r = true → ∀ dom h, dom ∈ ds_domain_id <$> states → u64 h →
       h < cutoff_of (da_retention d) height → vw_state v' dom h = None).
Proof.
  intros Hrep Hall. unfold apply_retention. destruct (da_retention d) as [|history] eqn:Hr.
  - intros [= <- <-]. exists v. split_and!; auto using kept_refl. unfold fits. cbn. lia.
  - intros Hrt. destruct (retain_refines _ _ _ _ _ _ _ Hrep Hall Hrt) as (v' & ? & ? & ? & ?). exists v'.
    split_and!; try done. congruence.
Qed.

(** ** Reading *)

(** parity-db answers every read. *)
Definition answers (d : Database) : Prop := ∀ c k, ∃ r, pdb_get (da_db d) c k = Ok r.

Lemma get_answer d c k : answers d → pdb_get (da_db d) c k = Ok (stored d c k).
Proof. intros Ha. destruct (Ha c k) as [r Hr]. rewrite Hr. by apply get_stored in Hr as ->. Qed.

Lemma db_store_extends d v dom h s :
  represents_on d v → answers d → is_b256 dom → u64 h → vw_state v dom h = Some s →
  store_extends (memory_store (snap_nodes s)) (db_store d).
Proof.
  intros Hrep Ha Hd Hh Es x e Hx. unfold memory_store in Hx. injection Hx as Hx.
  unfold db_store. rewrite get_answer by done. cbn.
  destruct (rp_state _ _ Hrep dom h s Hd Hh Es) as [_ Hn].
  apply bget_elem_of in Hx. apply Hn in Hx. cbn in Hx. by rewrite Hx.
Qed.

(** A recorded state is read back in full and key by key. *)
Definition reads_back (d : Database) (dom : DomainId) (h : Z) (s : TrieSnapshot) : Prop :=
  db_state_root d dom h = Ok (snap_root s) ∧
  (∀ fuel, (33 * (length (snap_nodes s) + 1) <= fuel)%nat →
     collect_leaves fuel (snap_root s) (db_store d) = Ok (snap_leaves s)) ∧
  ∀ key, is_b256 key → ∃ nodes,
    let p := {| sp_root := snap_root s; sp_key := key; sp_value := bget key (snap_leaves s);
                sp_nodes := nodes |} in
    state_proof d dom h key =
      if bool_decide (snap_root s = EMPTY_ROOT_HASH) then Ok p
      else trie_err (run? verify p in Ok p).

Lemma state_reads_back d v dom h s :
  represents_on d v → answers d → is_b256 dom → u64 h → vw_state v dom h = Some s → reads_back d dom h s.
Proof.
  intros Hrep Ha Hd Hh Es. pose proof (db_store_extends _ _ _ _ _ Hrep Ha Hd Hh Es) as Hext.
  destruct (rp_state _ _ Hrep dom h s Hd Hh Es) as [((Hr & _) & Hm & _) _].
  assert (db_state_root d dom h = Ok (snap_root s)) as Hroot.
  { unfold db_state_root. rewrite get_answer, (rp_root _ _ Hrep), Es by done. cbn. by rewrite decode_hash_ok. }
  assert (∀ fuel, (33 * (length (snap_nodes s) + 1) <= fuel)%nat →
    collect_leaves fuel (snap_root s) (db_store d) = Ok (snap_leaves s)) as Hcol.
  { intros fuel Hf. eapply collect_extends; [exact Hext|exact Hf|exact Hm]. }
  split_and!; [done|done|]. intros key Hk.
  destruct (collect_proof_value _ _ _ _ key (Hcol _ (le_n _)) Hk) as [nodes Hp]. exists nodes.
  unfold state_proof. rewrite Hroot. cbn [obind]. rewrite Hp. by case_bool_decide.
Qed.

(** What is not recorded is reported missing. *)
Lemma missing_state d v dom h :
  represents_on d v → answers d → is_b256 dom → u64 h → vw_state v dom h = None →
  db_state_root d dom h = Err (MissingRoot dom h).
Proof. intros Hrep Ha Hd Hh Es. unfold db_state_root. by rewrite get_answer, (rp_root _ _ Hrep), Es by done. Qed.

Lemma finalized_marker_of d v m : represents_on d v → finalized_marker d = Ok m → m = vw_marker v.
Proof.
  intros Hrep Hf. unfold finalized_marker in Hf. apply obind_Ok in Hf as (b & Hb & Hf).
  unfold db_err in Hb. apply map_err_Ok, get_stored in Hb as ->. rewrite (rp_marker _ _ Hrep) in Hf.
  destruct (vw_marker v) as [m0|] eqn:Em; cbn in Hf; [|by injection Hf].
  rewrite decode_encode_marker in Hf by (by apply (rp_marker_wf _ _ Hrep)). by injection Hf.
Qed.

(** The database after a commit, whatever its outcome. *)
Lemma database_commit_inv d v b r d' :
  represents_on d v → wf_batch b → batch_agrees b → database_commit d b = (r, d') →
  da_retention d' = da_retention d ∧ ∃ v', represents_on d' v' ∧
  match r with
  | Ok stats =>
      let cutoff := cutoff_of (da_retention d) (mk_height (cm_marker b)) in
      kept cutoff (ds_domain_id <$> cm_states b) (publish v b) v' ∧
      (∀ m, vw_marker v = Some m → mk_height m < mk_height (cm_marker b)) ∧
      NoDup (ds_domain_id <$> cm_states b) ∧ NoDup (iv_key <$> cm_indexes b) ∧
      (st_pruning_error stats = None → ∀ dom h, dom ∈ ds_domain_id <$> cm_states b → u64 h → h < cutoff →
         vw_state v' dom h = None)
  | Err _ => v' = v
  | Panic _ => True
  end.
Proof.
  intros Hrep Hwf Hag. unfold database_commit. unfold after at 1.
  destruct (commit_transaction d b) as [[t stats]|e|m] eqn:Ht; [|intros [= <- <-]; eauto..].
  destruct (commit_transaction_inv _ _ _ _ Ht Hwf) as (t0 & p & Hlo & -> & Hn & Hnd & Hmono & [m Hm] & Hreg & Hix).
  apply finalized_marker_of with (v := v) in Hm as Hv; [|done]. subst m. unfold after.
  destruct (submit d _) as [[[]|e|m] d1] eqn:Hs.
  2-3: apply submit_not_Ok in Hs as [Hr Hs]; [|done]; intros [= <- <-]; split; [done|]; exists v;
       split; [by eapply represents_ext|done].
  destruct (submit_Ok _ _ _ _ Hs Hn) as (Hr1 & Hnew & Hold).
  pose proof (publish_represents _ _ _ _ _ _ Hrep Hwf Hag Hlo Hnd Hreg Hnew Hold) as Hrep1.
  destruct (apply_retention d1 _ _) as [r2 d2] eqn:Hrt.
  destruct (apply_retention_refines _ _ _ _ _ _ Hrep1 ltac:(apply Hwf) Hrt) as (v' & Hrep' & Hr2 & Hk & Hdone).
  rewrite Hr1 in *. destruct r2 as [pruned|e|m]; intros [= <- <-]; (split; [done|]); exists v'; (split; [done|]); [| |done].
  - split_and!; [done|intros m Em; apply Hmono; by rewrite Em in Hm|done|done|]. intros _. by apply Hdone.
  - split_and!; [done|intros m Em; apply Hmono; by rewrite Em in Hm|done..].
Qed.

(** ** The flat cache and the other operations *)

Definition with_flat (v : view) (dom : DomainId) (flat : bytes → option bytes) : view :=
  {| vw_marker := vw_marker v; vw_head := vw_head v; vw_state := vw_state v; vw_record := vw_record v;
     vw_flat := λ dom' k, if bool_decide (dom' = dom) then flat k else vw_flat v dom' k |}.

(** Only the flat cache of one domain changed. *)
Lemma with_flat_represents d d' v dom flat :
  represents_on d v → is_b256 dom →
  (∀ c k, c ≠ COLUMN_FLAT_STATE → stored d' c k = stored d c k) →
  (∀ dom' k, is_b256 dom' → clean dom' → stored d' COLUMN_FLAT_STATE (flat_key dom' k) =
     if bool_decide (dom' = dom) then flat k else stored d COLUMN_FLAT_STATE (flat_key dom' k)) →
  (∀ k x, clean dom → flat k = Some x →
     ∃ h s, vw_head v dom = Some h ∧ vw_state v dom h = Some s ∧ bget k (snap_leaves s) = Some x) →
  represents_on d' (with_flat v dom flat).
Proof.
  intros [Hma Hmw Hro Hmf Hrs Hms Hnh Hhd Hst Hrc Hfl Hfs] Hd Hoth Hflat Hleaf.
  assert (∀ k, stored d' COLUMN_META k = stored d COLUMN_META k) as Hmeta by (intros; by apply Hoth).
  assert (∀ k, stored d' COLUMN_TRIE_NODES k = stored d COLUMN_TRIE_NODES k) as Htrie by (intros; by apply Hoth).
  split; cbn [with_flat vw_marker vw_head vw_state vw_record vw_flat]; try setoid_rewrite Hmeta; try done.
  - intros dom' h s Hd' Hh Hv. setoid_rewrite Htrie. by apply (Hst dom' h).
  - intros c k Hc. rewrite Hoth; [by apply Hrc|]. intros ->. no_column Hc.
  - intros dom' k Hd' Hcl. rewrite Hflat by done. destruct (decide (dom' = dom)).
    + by rewrite !bool_decide_true.
    + rewrite !bool_decide_false by done. by apply Hfl.
  - intros dom' k x Hd' Hcl. case_bool_decide as E; [subst dom'; by apply Hleaf|by apply Hfs].
Qed.

Lemma flat_changes_NoDup {A : Type} dom (f : A → bytes) (w : A → option bytes) l :
  NoDup (f <$> l) → NoDup ((λ a, (COLUMN_FLAT_STATE, flat_key dom (f a), w a)) <$> l).*1.
Proof.
  intros Hn. rewrite <-list_fmap_compose.
  assert (NoDup ((λ k, (COLUMN_FLAT_STATE, flat_key dom k)) <$> (f <$> l))) as Hm
    by (apply NoDup_fmap_2; [intros x y [= E%app_inv_head]; done|done]).
  by rewrite <-list_fmap_compose in Hm.
Qed.

Lemma flat_dom_in {A : Type} dom dom' k (f : A → bytes) (w : A → option bytes) l :
  is_b256 dom → is_b256 dom' →
  (COLUMN_FLAT_STATE, flat_key dom' k) ∈ ((λ a, (COLUMN_FLAT_STATE, flat_key dom (f a), w a)) <$> l).*1 →
  dom' = dom ∧ k ∈ f <$> l.
Proof.
  intros Hd Hd'. rewrite <-list_fmap_compose. intros (a & [= E] & Ha)%list_elem_of_fmap.
  apply flat_key_inj in E as [-> ->]; [|done..]. split; [done|]. apply list_elem_of_fmap. eauto.
Qed.

Lemma while_prefixed_sublist p m : while_prefixed p m `sublist_of` m.
Proof.
  induction m as [|x m IH]; cbn; [done|]. destruct (starts_with p x.1); [by constructor|apply sublist_nil_l].
Qed.

Lemma filter_sublist_bool {A : Type} (f : A → bool) l : List.filter f l `sublist_of` l.
Proof. induction l as [|x l IH]; cbn; [done|]. destruct (f x); by constructor. Qed.

(** Clearing the cache of a domain empties it and nothing else. *)
Lemma clear_flat_refines d v dom r d' :
  represents_on d v → is_b256 dom → clear_flat_state d dom = (r, d') →
  da_retention d' = da_retention d ∧
  represents_on d' (if is_ok r then with_flat v dom (λ _, None) else v).
Proof.
  intros Hrep Hd. unfold clear_flat_state. unfold after at 1.
  destruct (prefixed_keys d COLUMN_FLAT_STATE dom) as [keys|e|m] eqn:Hk; [|by intros [= <- <-]..].
  unfold prefixed_keys in Hk. apply obind_Ok in Hk as (l & Hs & Hk). injection Hk as <-.
  assert (∀ k, k ∈ l.*1 ↔ is_Some (stored d COLUMN_FLAT_STATE k) ∧ starts_with dom k = true) as Hin.
  { intros k. rewrite list_elem_of_fmap. split.
    - intros ([k' w] & -> & Hi). apply (scan_prefix_in _ _ _ _ _ _ Hs) in Hi as [Hi Hp]. cbn. split; [by eexists|done].
    - intros [[w Hw] Hp]. exists (k, w). split; [done|]. by apply (scan_prefix_in _ _ _ _ _ _ Hs). }
  assert (NoDup ((λ key, (COLUMN_FLAT_STATE, key, None : option bytes)) <$> l.*1).*1) as Hnd.
  { rewrite <-list_fmap_compose. apply (NoDup_fmap_2 (λ key, (COLUMN_FLAT_STATE, key))).
    unfold scan_prefix in Hs. apply obind_Ok in Hs as (es & Hes & [= <-]). unfold db_err in Hes.
    apply map_err_Ok, pdb_scan_reads in Hes as ->.
    eapply sublist_NoDup; [exact (sorted_NoDup _ (contents_sorted (da_db d) COLUMN_FLAT_STATE))|]. apply fmap_sublist.
    etransitivity; [apply while_prefixed_sublist|apply filter_sublist_bool]. }
  unfold after. destruct (submit d _) as [[[]|e|m] d1] eqn:Hsub; intros [= <- <-]; cbn [is_ok].
  2-3: apply submit_not_Ok in Hsub as [? Hsub]; [|done]; split; [done|by eapply represents_ext].
  destruct (submit_Ok _ _ _ _ Hsub Hnd) as (Hr & Hnew & Hold). split; [done|].
  apply (with_flat_represents d); [done|done| | |done].
  - intros c k Hc. apply Hold. rewrite <-list_fmap_compose. intros (x & [= -> _] & _)%list_elem_of_fmap. done.
  - intros dom' k Hd' _. case_bool_decide as E.
    + subst dom'. destruct (decide (flat_key dom k ∈ l.*1)) as [Hi|Hi].
      * apply Hnew, list_elem_of_fmap. by exists (flat_key dom k).
      * rewrite Hold; [|rewrite <-list_fmap_compose; intros (x & [= E] & Hx)%list_elem_of_fmap; by subst x].
        destruct (stored d COLUMN_FLAT_STATE (flat_key dom k)) eqn:Ex; [|done]. exfalso. apply Hi, Hin.
        rewrite Ex. split; [by eexists|]. apply starts_with_spec. by eexists.
    + apply Hold. rewrite <-list_fmap_compose. intros (x & [= Ex] & Hx)%list_elem_of_fmap. subst x.
      apply Hin in Hx as [_ [y Hy]%starts_with_spec]. apply app_inj_1 in Hy as [-> _]; [done|congruence].
Qed.

(** What the stored nodes yield for a recorded root, whenever reading succeeds. *)
Lemma collect_recorded d v dom h s fuel leaves :
  represents_on d v → is_b256 dom → u64 h → vw_state v dom h = Some s →
  collect_leaves fuel (snap_root s) (db_store d) = Ok leaves → leaves = snap_leaves s.
Proof.
  intros Hrep Hd Hh Es Hc. destruct (rp_state _ _ Hrep dom h s Hd Hh Es) as [(_ & Hm & _) Hn].
  destruct (collect_same_leaves _ _ _ _ _ _ _ Hm Hc) as [->|(a & b & Hne & He & Ha & Hb)]; [done|]. exfalso.
  apply Hne. unfold memory_store in Ha. injection Ha as Ha. apply bget_elem_of, Hn in Ha. cbn in Ha.
  unfold db_store in Hb. apply map_err_Ok, get_stored in Hb. rewrite He in Ha. congruence.
Qed.

(** Rebuilding the cache of a domain from its head restores exactly the head's leaves. *)
Lemma rebuild_flat_refines fuel d v dom h s r d' :
  represents_on d v → is_b256 dom → clean dom → vw_head v dom = Some h → vw_state v dom h = Some s →
  rebuild_flat_state fuel d dom (snap_root s) = (r, d') →
  da_retention d' = da_retention d ∧
  represents_on d' (if is_ok r then with_flat v dom (λ k, bget k (snap_leaves s)) else v).
Proof.
  intros Hrep Hd Hcl Eh Es.
  assert (∀ k, vw_flat v dom k = None ∨ vw_flat v dom k = bget k (snap_leaves s)) as Hsub.
  { intros k. destruct (vw_flat v dom k) as [x|] eqn:Ek; [right|by left].
    destruct (rp_flat_leaf _ _ Hrep dom k x Hd Hcl Ek) as (h0 & s0 & ? & ? & ?). by simplify_eq. }
  destruct (rp_head _ _ Hrep dom h Hd Eh) as [Hh _].
  unfold rebuild_flat_state. unfold after at 1.
  destruct (collect_leaves fuel (snap_root s) (db_store d)) as [leaves|e|m] eqn:Hc; cbn [trie_err map_err];
    [|by intros [= <- <-]..].
  apply (collect_recorded d v dom h) in Hc as ->; [|done..].
  destruct (rp_state _ _ Hrep dom h s Hd Hh Es) as [((_ & _ & Hsl & _) & _) _].
  pose proof (flat_changes_NoDup dom fst (λ e : bytes * bytes, Some e.2) (snap_leaves s) (sorted_NoDup _ Hsl)) as Hnd.
  unfold after. destruct (submit d _) as [[[]|e|m] d1] eqn:Hs; intros [= <- <-]; cbn [is_ok].
  2-3: apply submit_not_Ok in Hs as [? Hs]; [|done]; split; [done|by eapply represents_ext].
  destruct (submit_Ok _ _ _ _ Hs Hnd) as (Hr & Hnew & Hold). split; [done|].
  apply (with_flat_represents d); [done|done| | |].
  - intros c k Hk. apply Hold. rewrite <-list_fmap_compose. intros (x & [= -> _] & _)%list_elem_of_fmap. done.
  - intros dom' k Hd' _. case_bool_decide as E.
    + subst dom'. destruct (bget k (snap_leaves s)) as [x|] eqn:Ek.
      * apply Hnew, list_elem_of_fmap. exists (k, x). split; [done|]. by apply bget_elem_of.
      * rewrite Hold; [|intros [_ Hi]%flat_dom_in; [by apply bget_None in Ek|done..]].
        rewrite (rp_flat _ _ Hrep) by done. destruct (Hsub k); congruence.
    + apply Hold. intros [? _]%flat_dom_in; done.
  - eauto.
Qed.

Lemma replaced_column entries t seen t' seen' :
  for_each replace_entry (t, seen) entries = Ok (t', seen') →
  (∀ ch, ch ∈ t → ch.1.1 = COLUMN_DOMAIN_REGISTRY) → ∀ ch, ch ∈ t' → ch.1.1 = COLUMN_DOMAIN_REGISTRY.
Proof.
  revert t seen. induction entries as [|[id x] entries IH]; intros t seen Hf Ht; cbn in Hf; [by injection Hf as <- _|].
  destruct (bcontains id seen); [done|]. cbn [obind] in Hf. apply (IH _ _ Hf).
  by intros ch [Hin| ->%list_elem_of_singleton]%elem_of_app; [apply Ht|].
Qed.

(** Rebuilding the cache from any root changes that cache only, and a clean domain is
    rebuilt from its head. *)
Lemma rebuild_flat_keeps fuel d v dom root r d' :
  represents_on d v → is_b256 dom →
  (clean dom → ∃ h s, vw_head v dom = Some h ∧ vw_state v dom h = Some s ∧ root = snap_root s) →
  rebuild_flat_state fuel d dom root = (r, d') → ∃ v', represents_on d' v'.
Proof.
  intros Hrep Hd Hhead Hr. exists (with_flat v dom (λ k, stored d' COLUMN_FLAT_STATE (flat_key dom k))).
  assert (∀ c k, (∀ x, (c, k) ≠ (COLUMN_FLAT_STATE, flat_key dom x)) → stored d' c k = stored d c k) as Hframe.
  { intros c k Hne. unfold rebuild_flat_state, after in Hr.
    destruct (trie_err _) as [leaves|e|m]; [|by injection Hr as _ <-..].
    destruct (submit d _) as [r1 d1] eqn:Hs. assert (d1 = d') as -> by (destruct r1; congruence).
    apply submit_frame in Hs as [_ Hf]. apply Hf. rewrite <-list_fmap_compose. intros (x & E & _)%list_elem_of_fmap. by destruct (Hne x.1). }
  apply (with_flat_represents d); [done|done| | |].
  - intros c k Hc. apply Hframe. by intros x [=].
  - intros dom' k Hd' _. case_bool_decide as E; [by subst|]. apply Hframe.
    intros x [= E']. apply flat_key_inj in E' as [? _]; done.
  - intros k x Hcl Hx. destruct (Hhead Hcl) as (h & s & Eh & Es & ->).
    destruct (rebuild_flat_refines _ _ _ _ _ _ _ _ Hrep Hd Hcl Eh Es Hr) as [_ Hrep'].
    rewrite (rp_flat _ _ Hrep') in Hx by done. apply (rp_flat_leaf _ _ Hrep') in Hx; [|done..]. by destruct (is_ok r).
Qed.

(** Replacing the registry projection changes that column only. *)
Lemma replace_registry_keeps d v entries r d' :
  represents_on d v → replace_domain_registry d entries = (r, d') → ∃ v', represents_on d' v'.
Proof.
  intros Hrep Hr.
  exists {| vw_marker := vw_marker v; vw_head := vw_head v; vw_state := vw_state v; vw_record := stored d'; vw_flat := vw_flat v |}.
  assert (∀ c k, c ≠ COLUMN_DOMAIN_REGISTRY → stored d' c k = stored d c k) as Hoth.
  { intros c k Hne. unfold replace_domain_registry, after in Hr. destruct (all_keys d _) as [keys|e|m]; [|by injection Hr as _ <-..].
    destruct (for_each _ _ _) as [[t seen]|e|m] eqn:Hf; [|by injection Hr as _ <-..]. cbn [fst] in Hr.
    apply submit_frame in Hr as [_ Hr]. apply Hr. intros (ch & E & Hin)%list_elem_of_fmap.
    apply (replaced_column _ _ _ _ _ Hf) in Hin; [by rewrite <-E in Hin|]. by intros x (y & -> & _)%list_elem_of_fmap. }
  destruct Hrep as [Hma Hmw Hro Hmf Hrs Hms Hnh Hhd Hst Hrc Hfl Hfs].
  assert (∀ k, stored d' COLUMN_META k = stored d COLUMN_META k) as Hmeta by (intros; by apply Hoth).
  assert (∀ k, stored d' COLUMN_TRIE_NODES k = stored d COLUMN_TRIE_NODES k) as Htrie by (intros; by apply Hoth).
  split; cbn [vw_marker vw_head vw_state vw_record vw_flat]; try setoid_rewrite Hmeta; try done.
  - intros dom' h s Hd' Hh Hv. setoid_rewrite Htrie. by apply (Hst dom' h).
  - intros dom' k Hd' Hcl. rewrite Hoth by done. by apply Hfl.
Qed.

Lemma put_manifest_refines d v m r d' :
  represents_on d v → put_snapshot_manifest d m = (r, d') →
  da_retention d' = da_retention d ∧ represents_on d' v.
Proof.
  intros Hrep. unfold put_snapshot_manifest, after.
  destruct (trie_err (encode_manifest m)) as [b|e|msg]; [|by intros [= <- <-]..]. intros Hs.
  assert (NoDup [(COLUMN_SNAPSHOTS, root_key (sm_domain_id m) (sm_consensus_height m), Some b)].*1) as Hnd
    by (cbn; repeat constructor; by intros ?%elem_of_nil).
  destruct r as [[]|e|msg].
  2-3: apply submit_not_Ok in Hs as [? Hs]; [|done]; split; [done|by eapply represents_ext].
  destruct (submit_Ok _ _ _ _ Hs Hnd) as (Hr & _ & Hold). split; [done|].
  assert (∀ c k, c ≠ COLUMN_SNAPSHOTS → stored d' c k = stored d c k) as Hoth.
  { intros c k Hc. apply Hold. cbn. rewrite list_elem_of_singleton. by intros [= -> _]. }
  destruct Hrep as [Hma Hmw Hro Hmf Hrs Hms Hnh Hhd Hst Hrc Hfl Hfs].
  assert (∀ k, stored d' COLUMN_META k = stored d COLUMN_META k) as Hmeta by (intros; by apply Hoth).
  assert (∀ k, stored d' COLUMN_TRIE_NODES k = stored d COLUMN_TRIE_NODES k) as Htrie by (intros; by apply Hoth).
  split; try setoid_rewrite Hmeta; try done.
  - intros dom' h s Hd' Hh Hv. setoid_rewrite Htrie. by apply (Hst dom' h).
  - intros c k Hc. rewrite Hoth; [by apply Hrc|]. intros ->. unfold COLUMN_SNAPSHOTS in Hc. no_column Hc.
  - intros dom' k Hd' Hcl. rewrite Hoth by done. by apply Hfl.
Qed.

(** ** Opening *)

Definition empty_view : view :=
  {| vw_marker := None; vw_head := λ _, None; vw_state := λ _ _, None; vw_record := λ _ _, None;
     vw_flat := λ _ _, None |}.

(** Opening writes at most the identity records. *)
Lemma initialize_stored db identity r db' k c :
  initialize_or_validate db identity = (r, db') →
  bget k (contents db' c) = bget k (contents db c) ∨
  c = COLUMN_META ∧ k ∈ [KEY_SCHEMA; KEY_NETWORK; KEY_GENESIS].
Proof.
  unfold initialize_or_validate. set (checked := obind _ _). intros Hi.
  assert (∀ t, checked = Ok t → t = [] ∨
    t = [(COLUMN_META, KEY_SCHEMA, Some (of_u32 SCHEMA_VERSION));
         (COLUMN_META, KEY_NETWORK, Some (id_network_id identity));
         (COLUMN_META, KEY_GENESIS, Some (id_genesis_hash identity))]) as Ht.
  { intros t. subst checked. intros Hc. apply obind_Ok in Hc as ([b|] & _ & Hc); ok_inv; subst; auto. }
  destruct checked as [[|ch t]|e|m]; [injection Hi as <- <-; by left| |injection Hi as <- <-; by left..].
  destruct (Ht _ eq_refl) as [|E]; [done|]. rewrite E in Hi. clear E Ht ch t.
  destruct (pdb_commit db _) as [r0 db0] eqn:Hc. injection Hi as _ <-. destruct r0 as [[]|e|m].
  2-3: left; by eapply pdb_commit_fails.
  match type of Hc with pdb_commit _ ?t = _ => assert (NoDup t.*1) as Hnd by (apply (bool_decide_unpack _); by vm_compute) end.
  rewrite (pdb_commit_applies _ _ _ Hnd Hc). destruct (written _ c k) as [w|] eqn:Hw; [right|by left].
  apply written_Some_in in Hw. rewrite !elem_of_cons, elem_of_nil in Hw.
  rewrite !elem_of_cons. naive_solver.
Qed.

(** The database over another handle. *)
Definition over (db : Db) (identity : DatabaseIdentity) (retention : RetentionPolicy) : Database :=
  {| da_db := db; da_identity := identity; da_retention := retention |}.

Lemma open_represents db identity retention d v :
  represents_on (over db identity retention) v → open_database (Ok db) identity retention = Ok d → represents_on d v.
Proof.
  intros [Hma Hmw Hro Hmf Hrs Hms Hnh Hhd Hst Hrc Hfl Hfs]. unfold open_database. intros Ho.
  apply obind_Ok in Ho as ([] & _ & Ho). cbn [db_err map_err obind] in Ho.
  destruct (initialize_or_validate db identity) as [r db'] eqn:Hi. apply obind_Ok in Ho as ([] & _ & [= <-]).
  assert (∀ c k, ¬ (c = COLUMN_META ∧ k ∈ [KEY_SCHEMA; KEY_NETWORK; KEY_GENESIS]) →
    stored (over db' identity retention) c k = stored (over db identity retention) c k) as Hk.
  { intros c k Hn. by destruct (initialize_stored _ _ _ _ k c Hi). }
  assert (∀ k, starts_with PREFIX_ROOT k = true ∨ starts_with PREFIX_MANIFEST k = true ∨
               starts_with PREFIX_HEAD k = true ∨ k = KEY_MARKER →
    stored (over db' identity retention) COLUMN_META k = stored (over db identity retention) COLUMN_META k) as Hm.
  { intros k Hp. apply Hk. intros [_ Hin]. rewrite !elem_of_cons, elem_of_nil in Hin.
    destruct Hin as [->|[->|[->|[]]]]; by destruct Hp as [?|[?|[?|?]]]. }
  assert (∀ c k, c ≠ COLUMN_META →
    stored (over db' identity retention) c k = stored (over db identity retention) c k) as Hc.
  { intros c k Hn. apply Hk. naive_solver. }
  change {| da_db := db'; da_identity := identity; da_retention := retention |} with (over db' identity retention).
  split; try done.
  - rewrite Hm; [done|auto].
  - intros dom h Hd Hh. rewrite Hm; [by apply Hro|]. left. done.
  - intros dom h Hd Hh. rewrite Hm; [by apply Hmf|]. right. left. done.
  - intros dom k w Hd Hs Hp. rewrite Hm in Hs; [by eapply Hrs|]. left. apply starts_with_spec in Hp as [x ->].
    unfold root_prefix. apply starts_with_spec. eexists. by rewrite <-app_assoc.
  - intros k w Hs Hp. rewrite Hm in Hs; [by eapply Hms|auto].
  - intros dom Hd Hn. rewrite Hm; [by apply Hnh|]. right. right. left. done.
  - intros dom h Hd Hn. rewrite Hm; [by apply Hhd|]. right. right. left. done.
  - intros dom h s Hd Hh Hv. destruct (Hst dom h s Hd Hh Hv) as [? Hn]. split; [done|].
    intros e He. rewrite Hc by done. by apply Hn.
  - intros c k Hin. rewrite Hc; [by apply Hrc|]. intros ->. no_column Hin.
  - intros dom k Hd Hcl. rewrite Hc by done. by apply Hfl.
Qed.

Lemma empty_represents db identity retention :
  (∀ c k, bget k (contents db c) = None) → represents_on (over db identity retention) empty_view.
Proof.
  intros He. assert (∀ c k, stored (over db identity retention) c k = None) as Hs by (intros; apply He).
  split; try setoid_rewrite Hs; done.
Qed.

(** ** Reachable databases *)

(** One operation on an open database, with any outcome, or a restart. The nodes of a
    committed batch are free of collisions of their hashes, and the cache of a clean
    domain is rebuilt from its head. *)
Inductive storage_step (d d' : Database) : Prop :=
| step_commit b r : wf_batch b → batch_agrees b → database_commit d b = (r, d') → storage_step d d'
| step_prune dom h r : is_b256 dom → u64 h → prune_root d dom h = (r, d') → storage_step d d'
| step_clear dom r : is_b256 dom → clear_flat_state d dom = (r, d') → storage_step d d'
| step_rebuild fuel dom root r : is_b256 dom → (clean dom → ∃ h, latest_head d dom = Ok (Some (h, root))) →
    rebuild_flat_state fuel d dom root = (r, d') → storage_step d d'
| step_manifest m r : put_snapshot_manifest d m = (r, d') → storage_step d d'
| step_registry entries r : replace_domain_registry d entries = (r, d') → storage_step d d'
| step_reopen retention : open_database (Ok (da_db d)) (da_identity d) retention = Ok d' → storage_step d d'.

Lemma storage_step_represents d d' v : represents_on d v → storage_step d d' → ∃ v', represents_on d' v'.
Proof.
  intros Hrep [b r Hw Ha Hc|dom h r Hd Hh Hp|dom r Hd Hc|fuel dom root r Hd Hl Hr|m r Hp|entries r Hr|retention Ho].
  - by destruct (database_commit_inv _ _ _ _ _ Hrep Hw Ha Hc) as (_ & v' & ? & _); eauto.
  - destruct (prune_root_refines _ _ _ _ _ _ Hrep Hd Hh Hp) as [_ Hr]. destruct r; [exists (forget v dom h); tauto|eauto..].
  - destruct (clear_flat_refines _ _ _ _ _ Hrep Hd Hc) as [_ ?]. eauto.
  - eapply rebuild_flat_keeps; [done|done| |done]. intros [h Hh]%Hl. apply (latest_head_of _ v) in Hh; [|done..].
    destruct (vw_head v dom) as [h'|] eqn:Eh; [|done]. destruct Hh as (s & Es & [= -> ->]). eauto.
  - destruct (put_manifest_refines _ _ _ _ _ Hrep Hp) as [_ ?]. eauto.
  - by eapply replace_registry_keeps.
  - exists v. apply (open_represents (da_db d) (da_identity d) retention); [|done]. by apply (represents_ext d).
Qed.

Lemma answered_head d v dom h s :
  represents_on d v → answers d → is_b256 dom → vw_head v dom = Some h → vw_state v dom h = Some s →
  latest_head d dom = Ok (Some (h, snap_root s)).
Proof.
  intros Hrep Ha Hd Eh Es. destruct (rp_head _ _ Hrep dom h Hd Eh) as (Hh & s' & Es' & Hst).
  rewrite Es in Es'. injection Es' as <-. destruct (rp_state _ _ Hrep dom h s Hd Hh Es) as [((Hr & _) & _) _].
  unfold latest_head. rewrite get_answer, Hst by done. cbn. by rewrite decode_encode_head.
Qed.

Lemma answered_flat d v dom k :
  represents_on d v → answers d → is_b256 dom → clean dom → flat_state d dom k = Ok (vw_flat v dom k).
Proof. intros Hrep Ha Hd Hcl. unfold flat_state. rewrite get_answer by done. cbn. by rewrite (rp_flat _ _ Hrep). Qed.

(** C20. Every recorded state stays readable. However a database that started empty was
    used since (commits with any outcome, pruning and retention, clearing the flat cache
    and rebuilding it from any root, manifests, registry projections, restarts), a state
    root that is not reported missing reads back in full and key by key: no deletion ever
    removes a node that a recorded state needs. The state of a domain's head is always
    recorded, and if the domain's flat cache was only ever rebuilt from the head of the
    time, the cache holds leaves of the head only. Assumes that the nodes of a committed
    batch have no two encodings under one hash, and that reads of the final database are
    answered. *)
Theorem storage_invariant db identity retention d0 d dom h :
  (∀ c k, bget k (contents db c) = None) → open_database (Ok db) identity retention = Ok d0 →
  rtc storage_step d0 d → answers d → is_b256 dom → u64 h →
  (db_state_root d dom h = Err (MissingRoot dom h) ∨ ∃ s, reads_back d dom h s) ∧
  (∀ h' root, latest_head d dom = Ok (Some (h', root)) →
     ∃ s, snap_root s = root ∧ reads_back d dom h' s ∧
       (clean dom → ∀ k x, flat_state d dom k = Ok (Some x) → bget k (snap_leaves s) = Some x)).
Proof.
  intros He Ho Hsteps Ha Hd Hh.
  assert (∃ v, represents_on d v) as [v Hrep].
  { pose proof (open_represents _ _ _ _ _ (empty_represents db identity retention He) Ho) as H0'.
    clear Ho He Ha. revert H0'. generalize empty_view. induction Hsteps as [|d1 d2 d3 Hs _ IH]; intros v Hv; [eauto|].
    destruct (storage_step_represents _ _ _ Hv Hs) as [v' Hv']. eauto. }
  split.
  - destruct (vw_state v dom h) as [s|] eqn:Es; [right; exists s; by apply (state_reads_back d v)|].
    left. by apply (missing_state d v).
  - intros h' root Hl. pose proof (latest_head_of _ _ _ _ Hrep Hd Hl) as Hv.
    destruct (vw_head v dom) as [h0|] eqn:Eh; [|done]. destruct Hv as (s & Es & [= -> ->]).
    destruct (rp_head _ _ Hrep dom h0 Hd Eh) as [Hh0 _]. exists s. split; [done|].
    split; [by apply (state_reads_back d v)|]. intros Hcl k x Hx. rewrite (answered_flat d v) in Hx by done.
    injection Hx as Hx. destruct (rp_flat_leaf _ _ Hrep dom k x Hd Hcl Hx) as (? & ? & ? & ? & ?). by simplify_eq.
Qed.
End commit.
Arguments represents_on {_ _ _ _} clean d v.
Arguments storage_step {_ _ _} clean d d'.

(** The database stands for the view, flat cache included. *)
Definition represents `{Keccak, AlloyRlp, !AlloyTrie, ParityDb, !ParityDbLaws} (d : Database) (v : view) : Prop :=
  represents_on (λ _, True) d v.

Section publishing.
Context `{Keccak, AlloyRlp, !AlloyTrie, ParityDb, !ParityDbLaws}.

(** C21. A commit publishes all of a finalized block or nothing. When it succeeds
    the marker is the batch's and is higher than before, every state of the batch
    is its domain's head, reads back from the stored nodes leaf by leaf and in
    full, and is what the flat cache holds; every index record can be read; every
    other state recorded before is still read back, except those of the batch's
    domains below the retention cutoff, which are gone when pruning reported no
    error. When it fails the database stands for what it stood for. Assumes that the
    nodes of the batch have no two encodings under one hash, and that reads of the
    database after the commit are answered. *)
Theorem commit_publishes d v b r d' :
  represents d v → wf_batch b → batch_agrees b → database_commit d b = (r, d') → answers d' →
  match r with
  | Ok stats =>
      let cutoff := cutoff_of (da_retention d) (mk_height (cm_marker b)) in
      (∃ v', represents d' v') ∧
      finalized_marker d' = Ok (Some (cm_marker b)) ∧
      (∀ m, vw_marker v = Some m → mk_height m < mk_height (cm_marker b)) ∧
      (∀ s, s ∈ cm_states b →
         let dom := ds_domain_id s in
         latest_head d' dom = Ok (Some (ds_consensus_height s, snap_root (ds_snapshot s))) ∧
         reads_back d' dom (ds_consensus_height s) (ds_snapshot s) ∧
         ∀ k, flat_state d' dom k = Ok (bget k (snap_leaves (ds_snapshot s)))) ∧
      (∀ i, i ∈ cm_indexes b → db_index d' (iv_key i) = Ok (Some (iv_value i))) ∧
      (∀ dom h s, is_b256 dom → u64 h → vw_state v dom h = Some s →
         state_of (cm_states b) dom = None ∨
         cutoff ≤ h ∧ (ds_consensus_height <$> state_of (cm_states b) dom) ≠ Some h →
         reads_back d' dom h s) ∧
      (st_pruning_error stats = None → ∀ s h, s ∈ cm_states b → u64 h → h < cutoff →
         db_state_root d' (ds_domain_id s) h = Err (MissingRoot (ds_domain_id s) h))
  | Err _ => represents d' v
  | Panic _ => True
  end.
Proof.
  intros Hrep Hw Hag Hc Ha. destruct (database_commit_inv _ _ _ _ _ Hrep Hw Hag Hc) as (_ & v' & Hrep' & Hr).
  destruct r as [stats|e|m]; [|by subst v'|done]. destruct Hr as (Hk & Hmono & Hnd & Hix & Hgone). cbv zeta.
  assert (∀ s, s ∈ cm_states b → wf_state s) as Hws by (intros s Hs; destruct Hw as (_ & Hw & _); rewrite list.Forall_forall in Hw; auto).
  assert (∀ s, s ∈ cm_states b → vw_head v' (ds_domain_id s) = Some (ds_consensus_height s) ∧
    vw_state v' (ds_domain_id s) (ds_consensus_height s) = Some (ds_snapshot s)) as Hpub.
  { intros s Hs. pose proof (state_of_in _ _ Hnd Hs) as Eo. rewrite (kp_head _ _ _ _ Hk). cbn. rewrite Eo. split; [done|].
    destruct (kp_state _ _ _ _ Hk (ds_domain_id s) (ds_consensus_height s)) as [->|(_ & _ & _ & Hn)]; cbn.
    - by rewrite Eo, Z.eqb_refl.
    - cbn in Hn. by rewrite Eo in Hn. }
  split_and!; [by exists v'| |done| | | |].
  - unfold finalized_marker. rewrite get_answer, (rp_marker _ _ Hrep'), (kp_marker _ _ _ _ Hk) by done. cbn.
    by rewrite decode_encode_marker by apply Hw.
  - intros s Hs. destruct (Hpub s Hs) as [Eh Es]. destruct (Hws s Hs) as (Hd & Hh & _). split_and!.
    + by apply (answered_head (clean := λ _, True) d' v').
    + by apply (state_reads_back (clean := λ _, True) d' v').
    + intros k. rewrite (answered_flat (clean := λ _, True) d' v') by done. rewrite (kp_flat _ _ _ _ Hk). cbn. by rewrite (state_of_in _ _ Hnd Hs).
  - intros i Hi. unfold db_index. rewrite get_answer by done. cbn.
    rewrite (rp_record _ _ Hrep'), (kp_record _ _ _ _ Hk) by (unfold record_columns; rewrite !elem_of_cons; auto). cbn.
    by rewrite index_written.
  - intros dom h s Hd Hh Es Hcase. apply (state_reads_back (clean := λ _, True) d' v'); [done..|].
    destruct (kp_state _ _ _ _ Hk dom h) as [->|(_ & Hin & Hlt & _)]; cbn.
    + destruct (state_of (cm_states b) dom) as [s0|] eqn:E0; [|done].
      destruct Hcase as [?|[_ Hne]]; [done|]. destruct (Z.eqb_spec h (ds_consensus_height s0)); [|done]. by subst.
    + apply list_elem_of_fmap in Hin as (s0 & -> & Hin). rewrite (state_of_in _ _ Hnd Hin) in Hcase.
      destruct Hcase as [?|[? _]]; [done|lia].
  - intros He s h Hs Hh Hl. destruct (Hws s Hs) as (Hd & _). apply (missing_state (clean := λ _, True) d' v'); [done..|].
    apply Hgone; [done| |done|done]. apply list_elem_of_fmap. by exists s.
Qed.

End publishing.

(** ** Witnesses *)

Module StorageWitness.
#[local] Existing Instance Toy.toy_keccak.
#[local] Existing Instance spec_rlp.
#[local] Existing Instance MptWitness.toy_trie.

(** Columns in memory; changes are applied in order. *)
Definition toy_apply (db : Z → btree bytes bytes) (ch : db_change) : Z → btree bytes bytes :=
  let '(column, key, value) := ch in
  λ c, if c =? column
       then match value with Some v => binsert key v (db c) | None => bremove key (db c) end
       else db c.

(** A handle whose columns are in key order. *)
Record toy_db := { toy_columns : Z → btree bytes bytes; toy_sorted : ∀ c, sorted (toy_columns c) }.

Lemma toy_apply_sorted db ch : (∀ c, sorted (db c)) → ∀ c, sorted (toy_apply db ch c).
Proof.
  intros Hs c. destruct ch as [[column key] [v|]]; cbn; destruct (c =? column); auto using sorted_binsert, sorted_bremove.
Qed.

Lemma toy_apply_all_sorted db t : (∀ c, sorted (db c)) → ∀ c, sorted (foldl toy_apply db t c).
Proof. revert db. induction t as [|ch t IH]; intros db Hs; cbn; [done|]. by apply IH, toy_apply_sorted. Qed.

#[local] Instance toy_parity : ParityDb := {|
  Db := toy_db;
  pdb_get := λ d c k, Ok (bget k (toy_columns d c));
  pdb_scan := λ d c k, Ok (List.filter (λ e, tleb k e.1) (toy_columns d c));
  pdb_commit := λ d t,
    (Ok tt, {| toy_columns := foldl toy_apply (toy_columns d) t;
               toy_sorted := toy_apply_all_sorted _ t (toy_sorted d) |});
|}.

Lemma toy_apply_get db ch c k :
  bget k (toy_apply db ch c) = if bool_decide (ch.1 = (c, k)) then ch.2 else bget k (db c).
Proof.
  destruct ch as [[column key] value]. cbn. destruct (Z.eqb_spec c column) as [->|Hne].
  - destruct value as [v|]; rewrite ?bget_binsert, ?bget_bremove; destruct (teqb k key) eqn:E.
    all: first [apply teqb_eq in E as ->; by rewrite bool_decide_true
               |apply teqb_neq in E; rewrite bool_decide_false by congruence; done].
  - by rewrite bool_decide_false by congruence.
Qed.

Lemma toy_commit_get t db c k :
  NoDup t.*1 → bget k (foldl toy_apply db t c) = default (bget k (db c)) (written t c k).
Proof.
  revert db. induction t as [|ch t IH]; intros db Hn; cbn; [done|].
  cbn in Hn. apply list.NoDup_cons in Hn as [Hni Hn]. rewrite IH by done. rewrite toy_apply_get.
  destruct ch as [[c0 k0] v0]. cbn in *. case_bool_decide as E; [|done].
  injection E as -> ->. by apply written_none in Hni as ->.
Qed.

Lemma toy_commit_frame t db c k : (c, k) ∉ t.*1 → bget k (foldl toy_apply db t c) = bget k (db c).
Proof.
  revert db. induction t as [|ch t IH]; intros db; cbn; [done|]. intros [Hne Hni]%not_elem_of_cons.
  rewrite IH by done. rewrite toy_apply_get. by rewrite bool_decide_false.
Qed.

#[local] Instance toy_parity_laws : ParityDbLaws.
Proof.
  refine {| contents := toy_columns; contents_sorted := toy_sorted |}.
  - by intros d c k v [= ->].
  - by intros d c k l [= ->].
  - intros d t d' Hn [= <-] c k. by apply toy_commit_get.
  - intros d t d' [= <-] c k. apply toy_commit_frame.
  - by intros d t r d' [= <- _] Hr.
Defined.

Lemma toy_answers (d : Database) : answers d.
Proof. intros c k. by eexists. Qed.

Definition empty_db : toy_db :=
  {| toy_columns := λ _, []; toy_sorted := λ _, SSorted_nil _ |}.

Definition identity : DatabaseIdentity :=
  {| id_network_id := repeat_byte 32 1; id_genesis_hash := repeat_byte 32 2 |}.

Definition dom1 : DomainId := repeat_byte 32 5.

Definition database0 : Database :=
  match open_database (Ok empty_db) identity (Full 1) with
  | Ok d => d
  | _ => over empty_db identity (Full 1)
  end.

(** A block that commits the two-leaf state at some height. *)
Definition batch (height : Z) : CommitBatch :=
  {| cm_marker := {| mk_height := height; mk_consensus_hash := repeat_byte 32 3;
                     mk_domain_heads_root := repeat_byte 32 4 |};
     cm_states := [{| ds_domain_id := dom1; ds_consensus_height := height;
                      ds_snapshot := MptWitness.two_snapshot |}];
     cm_contract_code := []; cm_receipts := [];
     cm_indexes := [{| iv_key := bstr "block"; iv_value := [x00] |}]; cm_domain_registry := [] |}.

Definition committed (height : Z) (d : Database) : outcome StorageError CommitStats * Database :=
  database_commit d (batch height).

Lemma database0_opened : open_database (Ok empty_db) identity (Full 1) = Ok database0.
Proof. reflexivity. Qed.

Lemma empty_db_empty c (k : bytes) : bget k (contents empty_db c) = None.
Proof. done. Qed.

Lemma batch_wf height : u64 height → wf_batch (batch height).
Proof.
  intros Hh. split; [by split_and!|]. split; [|constructor]. constructor; [|constructor].
  split; [by_evaluation|]. split; [done|].
  split_and!; [by_evaluation| | |by_evaluation|by_evaluation]; apply strict_StronglySorted; by_evaluation.
Qed.

Lemma batch_agreed height : batch_agrees (batch height).
Proof.
  intros s1 s2 e1 e2 ->%list_elem_of_singleton ->%list_elem_of_singleton He1 He2 E. cbn [ds_snapshot] in *.
  assert (sorted (snap_nodes MptWitness.two_snapshot)) as Hs by (apply strict_StronglySorted; by_evaluation).
  destruct e1 as [k1 x1], e2 as [k2 x2]. cbn in E. subst k2. apply elem_of_bget in He1, He2; [|done..]. congruence.
Qed.

Lemma database0_represents : represents database0 empty_view.
Proof.
  exact (open_represents (H2 := toy_parity) empty_db identity (Full 1) database0 empty_view
           (empty_represents (H2 := toy_parity) _ _ _ empty_db_empty) database0_opened).
Qed.

Lemma batch1_wf : wf_batch (batch 1).
Proof. by apply batch_wf. Qed.

Lemma batch1_committed : is_ok (database_commit database0 (batch 1)).1 = true.
Proof. by_evaluation. Qed.

Lemma commit_publishes_witness :
  ∃ stats d', database_commit database0 (batch 1) = (Ok stats, d') ∧
    finalized_marker d' = Ok (Some (cm_marker (batch 1))) ∧
    reads_back d' dom1 1 MptWitness.two_snapshot.
Proof.
  pose proof (commit_publishes database0 empty_view (batch 1) _ _ database0_represents batch1_wf
    (batch_agreed 1) (surjective_pairing _) (toy_answers _)) as Hc.
  pose proof batch1_committed as Hr. revert Hr Hc.
  generalize (database_commit database0 (batch 1)). intros [[stats|e|m] d'] Hr Hc; cbn [fst snd] in *; [|discriminate Hr..].
  destruct Hc as (_ & Hm & _ & Hs & _). exists stats, d'. split; [reflexivity|]. split; [exact Hm|].
  apply (Hs {| ds_domain_id := dom1; ds_consensus_height := 1; ds_snapshot := MptWitness.two_snapshot |}).
  by apply list_elem_of_singleton.
Defined.

(** Two commits; the policy keeps one height. *)
Definition database2 : Database := (committed 2 (committed 1 database0).2).2.

Lemma database2_reached : rtc (storage_step (λ _, True)) database0 database2.
Proof.
  eapply rtc_l; [|apply rtc_once].
  - eapply (step_commit _ _ (batch 1)); [by apply batch_wf|apply batch_agreed|apply surjective_pairing].
  - eapply (step_commit _ _ (batch 2)); [by apply batch_wf|apply batch_agreed|apply surjective_pairing].
Qed.

Lemma storage_invariant_witness :
  is_ok (db_state_root database2 dom1 1) = false ∧
  ((db_state_root database2 dom1 2 = Err (MissingRoot dom1 2) ∨ ∃ s, reads_back database2 dom1 2 s) ∧
   (∀ h' root, latest_head database2 dom1 = Ok (Some (h', root)) →
     ∃ s, snap_root s = root ∧ reads_back database2 dom1 h' s ∧
       (True → ∀ k x, flat_state database2 dom1 k = Ok (Some x) → bget k (snap_leaves s) = Some x))).
Proof.
  split; [by_evaluation|].
  apply (storage_invariant (H2 := toy_parity) (clean := λ _, True) empty_db identity (Full 1) database0 database2 dom1 2 empty_db_empty database0_opened
           database2_reached (toy_answers _)); by_evaluation.
Defined.
End StorageWitness.
