(* ===== verification/Evm.v ===== *)
(** The EVM adapter: the versioned execution rules, the authenticated execution
    state and the execution of one transaction
    (src/crates/arbor-evm/src/{lib,spec,state,execute}.rs).

    revm is a parameter ([Revm]): it is handed a database, a block, a
    configuration, the precompiles and a transaction, and returns a result with
    the accounts it changed, in an order that depends on its hash map.

    Main results: applying the changes gives the same state in whatever order
    revm lists accounts and slots, and the resulting state reads as the changes
    say, up to a collision between the hashed keys. *)

From Stdlib Require Import Strings.Byte.
From S2P Require Import Prelude Bytes BTreeMap Primitives Canonical Rlp Crypto StateError.
From S2P Require Import System Registry Trie Mpt MptBuild Account Overlay.

Local Open Scope Z_scope.

(** ** Errors and rules *)

(** The text of a state error: the message of a [StateError], a fixed message,
    or the one that names a missing contract. *)
Inductive state_message :=
| OfState (e : StateError)
| Message (text : string)
| MissingCode (hash : bytes).

(** The other constructors that hold text keep it as it is given to them. *)
Inductive EvmError :=
| UnsupportedProtocolRevision (revision : Z)
| InvalidEnvironment (text : string)
| State (m : state_message)
| InvalidTransaction (text : string)
| InvalidHeader (text : string)
| SystemFailure (text : string).

Record ProtocolSpec := {
  sp_protocol_revision : Z;
  sp_evm_revision : Z;
  sp_max_code_bytes : Z;
  sp_max_initcode_bytes : Z;
  sp_max_logs_per_transaction : Z;
}.

#[export] Instance ProtocolSpec_eq_dec : EqDecision ProtocolSpec.
Proof. solve_decision. Defined.

Definition PROTOCOL_SPEC_V1 : ProtocolSpec :=
  {| sp_protocol_revision := 1; sp_evm_revision := EVM_REVISION_SHANGHAI;
     sp_max_code_bytes := 24576; sp_max_initcode_bytes := 49152;
     sp_max_logs_per_transaction := 1024 |}.

Definition resolve (protocol_revision : Z) : outcome EvmError ProtocolSpec :=
  if protocol_revision =? 1 then Ok PROTOCOL_SPEC_V1
  else Err (UnsupportedProtocolRevision protocol_revision).

Record DomainEnv := {
  de_chain_id : Z;
  de_block_number : Z;
  de_timestamp : Z;
  de_beneficiary : bytes;
  de_gas_limit : Z;
  de_base_fee_per_gas : Z;
  de_prevrandao : bytes;
}.

Definition validate_env (env : DomainEnv) : outcome EvmError unit :=
  if de_chain_id env =? 0 then Err (InvalidEnvironment "chain ID must be non-zero")
  else if (de_gas_limit env =? 0) || (30000000 <? de_gas_limit env)
  then Err (InvalidEnvironment "domain gas limit must be in 1..=30,000,000")
  else if umax 64 <? de_base_fee_per_gas env
  then Err (InvalidEnvironment "base fee exceeds the fixed revm block field")
  else Ok tt.

(** ** State *)

Record GenesisAccount := {
  ga_nonce : Z;
  ga_balance : Z;
  ga_code : bytes;
  ga_storage : btree Z Z;
}.

Record ExecutionState := {
  es_accounts : TrieSnapshot;
  es_trie_nodes : btree bytes bytes;
  es_contract_code : btree bytes bytes;
  es_block_hashes : btree Z bytes;
}.

(** What revm reports about one changed account: its flags, the account after
    execution with its code when loaded, and the slots whose value changed. *)
Record ChangedAccount := {
  ca_touched : bool;
  ca_selfdestructed : bool;
  ca_created : bool;
  ca_nonce : Z;
  ca_balance : Z;
  ca_code_hash : bytes;
  ca_code : option bytes;
  ca_slots : list (Z * Z);
}.

(** [?] from a [StateError]. *)
Definition state_err {A : Type} (c : outcome StateError A) : outcome EvmError A :=
  map_err (λ e, State (OfState e)) c.

Section state.
Context `{Keccak, AlloyRlp, !AlloyTrie}.

Definition build_storage_snapshot (storage : btree Z Z) : outcome EvmError TrieSnapshot :=
  let leaves :=
    omap (λ e, value ← storage_trie_value e.2; Some (secure_storage_key e.1, value)) storage in
  state_err (build (bcollect leaves)).

(** The three maps [from_genesis] fills. *)
Notation genesis_maps := (btree bytes bytes * btree bytes bytes * btree bytes bytes)%type.

Definition genesis_account (maps : genesis_maps) (entry : bytes * GenesisAccount)
    : outcome EvmError genesis_maps :=
  let '(account_leaves, trie_nodes, contract_code) := maps in
  let '(address, allocation) := entry in
  let? storage := build_storage_snapshot (ga_storage allocation) in
  let trie_nodes := bextend trie_nodes (snap_nodes storage) in
  let '(code_hash, contract_code) :=
    if (length (ga_code allocation) =? 0)%nat then (KECCAK_EMPTY, contract_code)
    else (keccak256 (ga_code allocation),
          binsert (keccak256 (ga_code allocation)) (ga_code allocation) contract_code) in
  let account :=
    {| nonce := ga_nonce allocation; balance := ga_balance allocation;
       storage_root := snap_root storage; code_hash := code_hash |} in
  let account_leaves :=
    if is_empty account then account_leaves
    else binsert (secure_account_key address) (encode_account account) account_leaves in
  Ok (account_leaves, trie_nodes, contract_code).

Definition from_genesis (allocations : btree bytes GenesisAccount) : outcome EvmError ExecutionState :=
  let? '(account_leaves, trie_nodes, contract_code) :=
    for_each genesis_account ([], [], []) allocations in
  let? accounts := state_err (build account_leaves) in
  let trie_nodes := bextend trie_nodes (snap_nodes accounts) in
  let? accounts := state_err (extend_nodes accounts trie_nodes) in
  Ok {| es_accounts := accounts; es_trie_nodes := trie_nodes; es_contract_code := contract_code;
        es_block_hashes := [] |}.

(** One account of the loop of [from_persisted]. *)
Definition persisted_account (fuel : nat) (store : node_store)
    (load_code : bytes → outcome EvmError (option bytes))
    (maps : btree bytes bytes * btree bytes bytes) (encoded : bytes)
    : outcome EvmError (btree bytes bytes * btree bytes bytes) :=
  let '(trie_nodes, contract_code) := maps in
  let? account := state_err (decode_account encoded) in
  let? trie_nodes :=
    if bool_decide (storage_root account = EMPTY_ROOT_HASH) then Ok trie_nodes
    else
      let? leaves := state_err (collect_leaves fuel (storage_root account) store) in
      let? storage := state_err (build leaves) in
      if negb (bool_decide (snap_root storage = storage_root account))
      then Err (State (Message "persisted storage root mismatch"))
      else Ok (bextend trie_nodes (snap_nodes storage)) in
  if bool_decide (code_hash account = KECCAK_EMPTY) then Ok (trie_nodes, contract_code)
  else
    let? code := load_code (code_hash account) in
    let? code := ok_or code (State (MissingCode (code_hash account))) in
    if negb (bool_decide (keccak256 code = code_hash account))
    then Err (State (Message "contract code hash mismatch"))
    else Ok (trie_nodes, binsert (code_hash account) code contract_code).

(** [fuel] bounds the references followed in the store, which is the caller's. *)
Definition from_persisted (fuel : nat) (root : bytes) (store : node_store)
    (load_code : bytes → outcome EvmError (option bytes)) : outcome EvmError ExecutionState :=
  let? account_leaves := state_err (collect_leaves fuel root store) in
  let? accounts := state_err (build account_leaves) in
  if negb (bool_decide (snap_root accounts = root))
  then Err (State (Message "persisted account root mismatch"))
  else
    let? '(trie_nodes, contract_code) :=
      for_each (persisted_account fuel store load_code) (snap_nodes accounts, [])
        (bvalues account_leaves) in
    let? accounts := state_err (extend_nodes accounts trie_nodes) in
    Ok {| es_accounts := accounts; es_trie_nodes := trie_nodes; es_contract_code := contract_code;
          es_block_hashes := [] |}.

Definition state_root (s : ExecutionState) : bytes := snap_root (es_accounts s).

Definition insert_block_hash (s : ExecutionState) (number : Z) (hash : bytes) : ExecutionState :=
  {| es_accounts := es_accounts s; es_trie_nodes := es_trie_nodes s;
     es_contract_code := es_contract_code s;
     es_block_hashes := binsert number hash (es_block_hashes s) |}.

Definition state_account (s : ExecutionState) (address : bytes) : outcome EvmError (option Account) :=
  match bget (secure_account_key address) (snap_leaves (es_accounts s)) with
  | Some leaf => let? a := state_err (decode_account leaf) in Ok (Some a)
  | None => Ok None
  end.

Definition state_storage (s : ExecutionState) (address : bytes) (index : Z) : outcome EvmError Z :=
  let? account := state_account s address in
  match account with
  | None => Ok 0
  | Some account =>
      if bool_decide (storage_root account = EMPTY_ROOT_HASH) then Ok 0
      else
        let? leaves := state_err (memory_leaves (storage_root account) (es_trie_nodes s)) in
        match bget (secure_storage_key index) leaves with
        | Some value => state_err (decode_storage_trie_value value)
        | None => Ok 0
        end
  end.

(** ** Applying what an execution changed *)

(** One slot of the inner loop. *)
Definition write_slot (leaves : btree bytes bytes) (slot : Z * Z) : btree bytes bytes :=
  match storage_trie_value slot.2 with
  | Some value => binsert (secure_storage_key slot.1) value leaves
  | None => bremove (secure_storage_key slot.1) leaves
  end.

(** The overlay, the storage nodes added and the contract code so far. *)
Notation change_state := (StateOverlay * btree bytes bytes * btree bytes bytes)%type.

(** The leaves of the account's storage before the changes. *)
Definition old_storage (s : ExecutionState) (old : Account) (changed : ChangedAccount)
    : outcome EvmError (btree bytes bytes) :=
  if ca_created changed || bool_decide (storage_root old = EMPTY_ROOT_HASH) then Ok []
  else state_err (memory_leaves (storage_root old) (es_trie_nodes s)).

(** The code revm returned for the account, when it is new to the state. *)
Definition changed_code (contract_code : btree bytes bytes) (changed : ChangedAccount)
    : outcome EvmError (btree bytes bytes) :=
  if bool_decide (ca_code_hash changed = KECCAK_EMPTY) then Ok contract_code
  else
    match ca_code changed with
    | None => Ok contract_code
    | Some code =>
        if (length code =? 0)%nat then Ok contract_code
        else if negb (bool_decide (keccak256 code = ca_code_hash changed))
        then Err (State (Message "revm returned mismatched code hash"))
        else Ok (binsert (ca_code_hash changed) code contract_code)
    end.

Definition apply_change (s : ExecutionState) (st : change_state) (change : bytes * ChangedAccount)
    : outcome EvmError change_state :=
  let '(overlay, added, contract_code) := st in
  let '(address, changed) := change in
  if negb (ca_touched changed) then Ok st
  else if ca_selfdestructed changed then Ok (delete_account overlay address, added, contract_code)
  else
    let? old := state_account s address in
    let old := default default_account old in
    let? storage_leaves := old_storage s old changed in
    let storage_leaves := foldl write_slot storage_leaves (ca_slots changed) in
    let? storage := state_err (build storage_leaves) in
    let added := bextend added (snap_nodes storage) in
    let? contract_code := changed_code contract_code changed in
    let account :=
      {| nonce := ca_nonce changed; balance := ca_balance changed;
         storage_root := snap_root storage; code_hash := ca_code_hash changed |} in
    Ok (set_account overlay address account, added, contract_code).

(** One account of the second loop: the storage nodes still reachable. *)
Definition keep_reachable (candidate reachable : btree bytes bytes) (encoded : bytes)
    : outcome EvmError (btree bytes bytes) :=
  let? account := state_err (decode_account encoded) in
  if bool_decide (storage_root account = EMPTY_ROOT_HASH) then Ok reachable
  else
    let? leaves := state_err (memory_leaves (storage_root account) candidate) in
    let? storage := state_err (build leaves) in
    Ok (bextend reachable (snap_nodes storage)).

(** The method changes the state in place and may leave new code in it when it
    fails; the executor calls it on a copy that it drops with the error, so the
    definition gives no state then. *)
Definition apply_changes (s : ExecutionState) (changes : list (bytes * ChangedAccount))
    : outcome EvmError ExecutionState :=
  let? '(overlay, added, contract_code) :=
    for_each (apply_change s) (from_snapshot (es_accounts s), [], es_contract_code s) changes in
  let? accounts := state_err (commit_overlay overlay) in
  let candidate := bextend (bextend (es_trie_nodes s) added) (snap_nodes accounts) in
  let? reachable :=
    for_each (keep_reachable candidate) (snap_nodes accounts) (bvalues (snap_leaves accounts)) in
  let? accounts := state_err (extend_nodes accounts reachable) in
  Ok {| es_accounts := accounts; es_trie_nodes := reachable; es_contract_code := contract_code;
        es_block_hashes := es_block_hashes s |}.
End state.

(** ** The interface to revm *)

Inductive EVMError :=
| TransactionError (text : string)
| HeaderError (text : string)
| DatabaseError (text : state_message)
| Custom (text : string)
| CustomAny (text : string).

(** [AccountInfo], with the code when it is known to be empty. *)
Record AccountInfo := {
  ai_balance : Z;
  ai_nonce : Z;
  ai_code_hash : bytes;
  ai_code : option bytes;
}.

Record Database := {
  basic : bytes → outcome state_message (option AccountInfo);
  code_by_hash : bytes → outcome state_message bytes;
  storage : bytes → Z → outcome state_message Z;
  block_hash : Z → outcome state_message bytes;
}.

Record BlockEnv := {
  be_number : Z;
  be_beneficiary : bytes;
  be_timestamp : Z;
  be_gas_limit : Z;
  be_basefee : Z;
  be_difficulty : Z;
  be_prevrandao : option bytes;
  be_slot_num : Z;
}.

Record CfgEnv := {
  cfg_spec : Z;
  cfg_chain_id : Z;
  cfg_limit_contract_code_size : option Z;
  cfg_limit_contract_initcode_size : option Z;
}.

Record TxEnv := {
  te_tx_type : Z;
  te_caller : bytes;
  te_gas_limit : Z;
  te_gas_price : Z;
  te_kind : option bytes;
  te_value : Z;
  te_data : bytes;
  te_nonce : Z;
  te_chain_id : option Z;
  te_access_list : list AccessListItem;
  te_gas_priority_fee : option Z;
}.

Record ExecutionResult := {
  xr_success : bool;
  xr_gas_used : Z;
  xr_logs : list Log;
  xr_output : option bytes;
  xr_created_address : option bytes;
  xr_state : list (bytes * ChangedAccount);
}.

(** The addresses that are warm from the start, and the dispatch. *)
Record Precompiles `{Journal} := {
  pre_warm : list bytes;
  pre_run : journal → CallInputs → outcome string (option call_result * journal);
}.

Class Revm `{Journal} := {
  (** [EthPrecompiles::new] for a hard fork. *)
  eth_precompiles : Z → Precompiles;
  (** [Bytecode::new_raw_checked]: the error message, if any. *)
  bytecode_error : bytes → option string;
  (** [transact] of the EVM built from these parts. *)
  transact : Database → BlockEnv → CfgEnv → Precompiles → TxEnv → outcome EVMError ExecutionResult;
}.

Record EvmExecution := {
  ex_success : bool;
  ex_gas_used : Z;
  ex_logs : list Log;
  ex_output : bytes;
  ex_created_address : option bytes;
  ex_created_domain : option DomainDescriptor;
}.

Definition map_revm_error (e : EVMError) : EvmError :=
  match e with
  | TransactionError text => InvalidTransaction text
  | HeaderError text => InvalidHeader text
  | DatabaseError m => State m
  | Custom text => SystemFailure text
  | CustomAny text => SystemFailure text
  end.

Definition to_tx_env (tx : Eip1559Transaction) (sender : bytes) : TxEnv :=
  {| te_tx_type := 2; te_caller := sender; te_gas_limit := tx_gas_limit tx;
     te_gas_price := tx_max_fee_per_gas tx; te_kind := tx_to tx; te_value := tx_value tx;
     te_data := tx_input tx; te_nonce := tx_nonce tx; te_chain_id := Some (tx_chain_id tx);
     te_access_list := tx_access_list tx;
     te_gas_priority_fee := Some (tx_max_priority_fee_per_gas tx) |}.

(** [error.to_string()] of the error of a state read, which is a [State] error. *)
Definition db_message (e : EvmError) : state_message :=
  match e with State m => m | _ => Message "not a state error" end.

Section execution.
Context `{Keccak, AlloyRlp, !AlloyTrie, Journal, !Revm}.

Definition execution_database (s : ExecutionState) : Database :=
  {| basic := λ address, map_err db_message
       (let? account := state_account s address in
        Ok (a ← account;
            Some {| ai_balance := balance a; ai_nonce := nonce a; ai_code_hash := code_hash a;
                    ai_code := if bool_decide (code_hash a = KECCAK_EMPTY) then Some [] else None |}));
     code_by_hash := λ code_hash,
       if bool_decide (code_hash = KECCAK_EMPTY) then Ok []
       else
         let? code := ok_or (bget code_hash (es_contract_code s)) (MissingCode code_hash) in
         match bytecode_error code with
         | Some text => Err (Message text)
         | None => Ok code
         end;
     storage := λ address index, map_err db_message (state_storage s address index);
     block_hash := λ number, Ok (default B256_ZERO (bget number (es_block_hashes s))) |}.

Definition arbor_precompiles (spec : ProtocolSpec) (chain_id : Z)
    (registry : option ChainRegistryRuntime) : Precompiles :=
  let ethereum := eth_precompiles (sp_evm_revision spec) in
  {| pre_warm := CHAIN_REGISTRY_ADDRESS :: PROTOCOL_INFO_ADDRESS :: pre_warm ethereum;
     pre_run := run_precompile (pre_run ethereum) (sp_protocol_revision spec) chain_id registry |}.

Definition execute_transaction_with_system (s : ExecutionState) (spec : ProtocolSpec)
    (env : DomainEnv) (tx : Eip1559Transaction) (sender : bytes)
    (registry : option ChainRegistryRuntime) : outcome EvmError (EvmExecution * ExecutionState) :=
  run? validate_env env in
  let? registered := resolve (sp_protocol_revision spec) in
  if negb (bool_decide (registered = spec))
  then Err (InvalidEnvironment "ProtocolSpec fields do not match the registered revision")
  else if (sp_max_initcode_bytes spec <? zlen (tx_input tx)) && bool_decide (tx_to tx = None)
  then Err (InvalidTransaction "contract initcode exceeds protocol limit")
  else
    let? basefee :=
      ok_or (try_from 64 (de_base_fee_per_gas env)) (InvalidEnvironment "base fee does not fit u64") in
    let block :=
      {| be_number := de_block_number env; be_beneficiary := de_beneficiary env;
         be_timestamp := de_timestamp env; be_gas_limit := de_gas_limit env; be_basefee := basefee;
         be_difficulty := 0; be_prevrandao := Some (de_prevrandao env); be_slot_num := 0 |} in
    let cfg :=
      {| cfg_spec := sp_evm_revision spec; cfg_chain_id := de_chain_id env;
         cfg_limit_contract_code_size := Some (sp_max_code_bytes spec);
         cfg_limit_contract_initcode_size := Some (sp_max_initcode_bytes spec) |} in
    let? result :=
      map_err map_revm_error
        (transact (execution_database s) block cfg
           (arbor_precompiles spec (de_chain_id env) registry) (to_tx_env tx sender)) in
    if sp_max_logs_per_transaction spec <? zlen (xr_logs result)
    then Err (InvalidTransaction "transaction log count exceeds protocol limit")
    else
      let? s := apply_changes s (xr_state result) in
      let created_domain :=
        if xr_success result && bool_decide (tx_to tx = Some CHAIN_REGISTRY_ADDRESS) &&
           starts_with create_chain_selector (tx_input tx)
        then
          context ← registry;
          creation ← rt_prepared_creation context;
          Some (pc_descriptor creation)
        else None in
      Ok ({| ex_success := xr_success result; ex_gas_used := xr_gas_used result;
             ex_logs := xr_logs result; ex_output := default [] (xr_output result);
             ex_created_address := xr_created_address result;
             ex_created_domain := created_domain |}, s).

Definition execute_transaction (s : ExecutionState) (spec : ProtocolSpec) (env : DomainEnv)
    (tx : Eip1559Transaction) (sender : bytes) : outcome EvmError (EvmExecution * ExecutionState) :=
  execute_transaction_with_system s spec env tx sender None.
End execution.

(** ** Changes in any order *)

Lemma collect_app {E A B : Type} (f : A → outcome E B) l1 l2 :
  collect f (l1 ++ l2) =
    (let? b1 := collect f l1 in let? b2 := collect f l2 in Ok (b1 ++ b2)).
Proof.
  induction l1 as [|a l1 IH]; cbn [app collect].
  - cbn [obind]. by destruct (collect f l2).
  - destruct (f a); cbn [obind]; [|done..]. rewrite IH. destruct (collect f l1); cbn [obind]; [|done..].
    by destruct (collect f l2).
Qed.

Lemma collect_perm {E A B : Type} (f : A → outcome E B) l1 l2 r1 :
  l1 ≡ₚ l2 → collect f l1 = Ok r1 → ∃ r2, collect f l2 = Ok r2 ∧ r1 ≡ₚ r2.
Proof.
  intros Hp. revert r1. induction Hp as [|x l1 l2 _ IH|x y l|l1 l2 l3 _ IH1 _ IH2]; intros r1 Hc.
  - exists r1. done.
  - cbn [collect] in Hc |- *. apply obind_Ok in Hc as (b & Hb & Hc). apply obind_Ok in Hc as (bs & Hbs & Hc).
    injection Hc as <-. destruct (IH _ Hbs) as (r2 & Hr2 & Hp2). rewrite Hb, Hr2. cbn [obind].
    eexists. split; [done|]. by constructor.
  - cbn [collect] in Hc |- *. apply obind_Ok in Hc as (b & Hb & Hc). apply obind_Ok in Hc as (bs & Hbs & Hc).
    apply obind_Ok in Hbs as (b' & Hb' & Hbs). apply obind_Ok in Hbs as (bs' & Hbs' & Hbs).
    injection Hbs as <-. injection Hc as <-. rewrite Hb, Hb', Hbs'. cbn [obind]. eexists. split; [done|].
    constructor.
  - destruct (IH1 _ Hc) as (r2 & Hr2 & Hp2). destruct (IH2 _ Hr2) as (r3 & Hr3 & Hp3).
    exists r3. split; [done|]. by transitivity r2.
Qed.

Lemma collect_ext {E A B : Type} (f : A → outcome E B) (R : A → A → Prop) l1 l2 :
  (∀ a b, a ∈ l1 → R a b → f a = f b) → Forall2 R l1 l2 → collect f l1 = collect f l2.
Proof.
  intros Hf Hl. induction Hl as [|a b l1 l2 Hab _ IH]; [done|]. cbn [collect].
  rewrite (Hf a b), IH; [done|intros; apply Hf; [by right|done]|by left|done].
Qed.

(** What one change does, whatever the changes before it. *)
Record effect := {
  ef_key : bytes;
  ef_value : option bytes;
  ef_nodes : list (bytes * bytes);
  ef_code : list (bytes * bytes);
}.

Section order.
Context `{Keccak, AlloyRlp, !AlloyTrie}.

Definition code_entries (changed : ChangedAccount) : outcome EvmError (list (bytes * bytes)) :=
  changed_code [] changed.

Lemma changed_code_entries cc changed :
  changed_code cc changed = (let? entries := code_entries changed in Ok (bextend cc entries)).
Proof.
  unfold code_entries, changed_code. case_bool_decide; [done|]. destruct (ca_code changed) as [code|]; [|done].
  destruct (_ =? _)%nat; [done|]. by case_bool_decide.
Qed.

Definition change_effect (s : ExecutionState) (change : bytes * ChangedAccount)
    : outcome EvmError (option effect) :=
  let '(address, changed) := change in
  if negb (ca_touched changed) then Ok None
  else if ca_selfdestructed changed
  then Ok (Some {| ef_key := secure_account_key address; ef_value := None; ef_nodes := []; ef_code := [] |})
  else
    let? old := state_account s address in
    let old := default default_account old in
    let? storage_leaves := old_storage s old changed in
    let? storage := state_err (build (foldl write_slot storage_leaves (ca_slots changed))) in
    let? entries := code_entries changed in
    let account :=
      {| nonce := ca_nonce changed; balance := ca_balance changed;
         storage_root := snap_root storage; code_hash := ca_code_hash changed |} in
    Ok (Some {| ef_key := secure_account_key address;
                ef_value := if is_empty account then None else Some (encode_account account);
                ef_nodes := snap_nodes storage; ef_code := entries |}).

Definition absorb (st : StateOverlay * btree bytes bytes * btree bytes bytes) (es : list effect)
    : StateOverlay * btree bytes bytes * btree bytes bytes :=
  let '(overlay, added, code) := st in
  ({| base := base overlay; writes := bextend (writes overlay) ((λ e, (ef_key e, ef_value e)) <$> es) |},
   bextend added (es ≫= ef_nodes), bextend code (es ≫= ef_code)).

Lemma apply_change_effect s st c :
  apply_change s st c =
    (let? e := change_effect s c in Ok (absorb st (option_list e))).
Proof.
  destruct st as [[ov added] code], c as [address changed]. unfold apply_change, change_effect.
  destruct (ca_touched changed); cbn [negb]; [|cbn; by destruct ov].
  destruct (ca_selfdestructed changed); [done|].
  destruct (state_account s address) as [old| |]; cbn [obind]; [|done..].
  destruct (old_storage s _ changed) as [leaves| |]; cbn [obind]; [|done..].
  destruct (state_err (build _)) as [snap| |]; cbn [obind]; [|done..].
  rewrite changed_code_entries. destruct (code_entries changed) as [entries| |]; cbn [obind]; [|done..].
  unfold set_account, set_secure_leaf. cbn. rewrite !app_nil_r. by destruct (is_empty _).
Qed.

Lemma absorb_absorb st es1 es2 : absorb (absorb st es1) es2 = absorb st (es1 ++ es2).
Proof.
  destruct st as [[ov added] code]. cbn [absorb base writes].
  by rewrite fmap_app, !bind_app, !bextend_app.
Qed.

Lemma apply_all_effects s st cs :
  for_each (apply_change s) st cs =
    (let? es := collect (change_effect s) cs in Ok (absorb st (es ≫= option_list))).
Proof.
  revert st. induction cs as [|c cs IH]; intros st.
  - cbn. by destruct st as [[[b w] added] code].
  - cbn [for_each collect]. rewrite apply_change_effect.
    destruct (change_effect s c) as [e| |]; cbn [obind]; [|done..]. rewrite IH.
    destruct (collect (change_effect s) cs) as [es| |]; cbn [obind]; [|done..].
    by rewrite absorb_absorb, bind_cons.
Qed.
End order.

(** ** What a set of changes hashes *)

(** [keccak256] separates the inputs of a list. *)
Definition apart `{Keccak} (l : list bytes) : Prop :=
  ∀ a b, a ∈ l → b ∈ l → keccak256 a = keccak256 b → a = b.

Lemma apart_or `{Keccak} (l : list bytes) : apart l ∨ collision (λ x, x ∈ l).
Proof.
  destruct (decide (Forall (λ a, Forall (λ b, keccak256 a = keccak256 b → a = b) l) l)) as [Hf|Hn].
  - left. intros a b Ha Hb. rewrite list.Forall_forall in Hf. specialize (Hf a Ha).
    rewrite list.Forall_forall in Hf. by apply Hf.
  - right. apply not_Forall_Exists in Hn; [|apply _]. apply list.Exists_exists in Hn as (a & Ha & Hn).
    apply not_Forall_Exists in Hn; [|apply _]. apply list.Exists_exists in Hn as (b & Hb & Hn).
    exists a, b. cbn in Hn. destruct (decide (keccak256 a = keccak256 b)) as [E|E]; [|by destruct Hn].
    repeat split; [done..| |done]. intros ->. by apply Hn.
Qed.

Lemma foldl_perm {A B : Type} (I : A → Prop) (f : A → B → A) l1 l2 a :
  l1 ≡ₚ l2 →
  (∀ a b, I a → b ∈ l1 → I (f a b)) →
  (∀ a b c, I a → b ∈ l1 → c ∈ l1 → f (f a b) c = f (f a c) b) →
  I a → foldl f a l1 = foldl f a l2.
Proof.
  intros Hp. revert a. induction Hp as [|x l1 l2 _ IH|x y l|l1 l2 l3 Hp IH1 _ IH2]; intros a Hi Hc Ha.
  - done.
  - cbn [foldl]. apply IH; [| |by apply Hi; [|left]].
    + intros a' b Ha' Hb. apply Hi; [done|by right].
    + intros a' b c Ha' Hb Hc'. apply Hc; [done|by right..].
  - cbn [foldl]. f_equal. apply Hc; [done|by left|right; by left].
  - rewrite IH1 by done. apply IH2; [| |done].
    + intros a' b Ha' Hb. apply Hi; [done|by rewrite Hp].
    + intros a' b c Ha' Hb Hc'. apply Hc; [done|by rewrite Hp..].
Qed.

Lemma NoDup_fst_eq {A B : Type} (l : list (A * B)) (x y : A * B) :
  NoDup l.*1 → x ∈ l → y ∈ l → x.1 = y.1 → x = y.
Proof.
  intros Hnd Hx Hy E. apply list_elem_of_lookup in Hx as [i Hi]. apply list_elem_of_lookup in Hy as [j Hj].
  assert (i = j) as ->; [|congruence].
  apply (NoDup_lookup l.*1 i j x.1); [done|by rewrite list_lookup_fmap, Hi|rewrite list_lookup_fmap, Hj]. by rewrite E.
Qed.
Section inputs.
Context `{Keccak, AlloyRlp, !AlloyTrie}.

(** revm reports each address and each slot once, and the order is not part of
    what it reports. *)
Definition changes_wf (cs : list (bytes * ChangedAccount)) : Prop :=
  NoDup cs.*1 ∧ ∀ c, c ∈ cs → NoDup (ca_slots c.2).*1 ∧ Forall u256 (ca_slots c.2).*1.

Record same_change (c1 c2 : bytes * ChangedAccount) : Prop := {
  sc_address : c1.1 = c2.1;
  sc_touched : ca_touched c1.2 = ca_touched c2.2;
  sc_selfdestructed : ca_selfdestructed c1.2 = ca_selfdestructed c2.2;
  sc_created : ca_created c1.2 = ca_created c2.2;
  sc_nonce : ca_nonce c1.2 = ca_nonce c2.2;
  sc_balance : ca_balance c1.2 = ca_balance c2.2;
  sc_code_hash : ca_code_hash c1.2 = ca_code_hash c2.2;
  sc_code : ca_code c1.2 = ca_code c2.2;
  sc_slots : ca_slots c1.2 ≡ₚ ca_slots c2.2;
}.

Definition same_changes (cs1 cs2 : list (bytes * ChangedAccount)) : Prop :=
  ∃ cs, cs1 ≡ₚ cs ∧ Forall2 same_change cs cs2.

(** Everything the changes hash: addresses, slots, storage nodes and codes. *)
Definition change_inputs (s : ExecutionState) (cs : list (bytes * ChangedAccount)) : list bytes :=
  cs.*1 ++
  (cs ≫= λ c, to_be_bytes 32 <$> (ca_slots c.2).*1) ++
  (cs ≫= λ c, match change_effect s c with
              | Ok (Some e) => (ef_nodes e).*2 ++ (ef_code e).*2
              | _ => []
              end).

Lemma write_slot_sorted leaves a : sorted leaves → sorted (write_slot leaves a).
Proof.
  intros Hs. unfold write_slot. destruct (storage_trie_value a.2); [by apply sorted_binsert|by apply sorted_bremove].
Qed.

Lemma write_slot_get leaves a key :
  bget key (write_slot leaves a) =
    if bool_decide (key = secure_storage_key a.1) then storage_trie_value a.2 else bget key leaves.
Proof.
  unfold write_slot. case_bool_decide as E.
  - subst key. destruct (storage_trie_value a.2); [apply bget_binsert_eq|apply bget_bremove_eq].
  - destruct (storage_trie_value a.2); [by apply bget_binsert_ne|by apply bget_bremove_ne].
Qed.

Lemma write_slot_comm leaves a b :
  sorted leaves → secure_storage_key a.1 ≠ secure_storage_key b.1 →
  write_slot (write_slot leaves a) b = write_slot (write_slot leaves b) a.
Proof.
  intros Hs Hne. apply btree_ext; [by repeat apply write_slot_sorted..|]. intros key.
  rewrite !write_slot_get. repeat case_bool_decide; congruence.
Qed.

Lemma to_be_bytes_inj32 a b : u256 a → u256 b → to_be_bytes 32 a = to_be_bytes 32 b → a = b.
Proof. intros Ha Hb E. by apply (to_be_bytes_inj 32); [..|exact E]. Qed.

Lemma write_slots_perm leaves l1 l2 :
  sorted leaves → l1 ≡ₚ l2 → NoDup l1.*1 → Forall u256 l1.*1 → apart (to_be_bytes 32 <$> l1.*1) →
  foldl write_slot leaves l1 = foldl write_slot leaves l2.
Proof.
  intros Hs Hp Hnd Hu Ha. apply (foldl_perm sorted); [done| | |done].
  - intros m b Hm _. by apply write_slot_sorted.
  - intros m b c Hm Hb Hc. rewrite list.Forall_forall in Hu.
    destruct (decide (secure_storage_key b.1 = secure_storage_key c.1)) as [E|E]; [|by apply write_slot_comm].
    assert (b.1 ∈ l1.*1 ∧ c.1 ∈ l1.*1) as [Hb1 Hc1] by (by split; apply list_elem_of_fmap_2).
    apply Ha in E; [|by apply list_elem_of_fmap_2..]. apply to_be_bytes_inj32 in E; [|by apply Hu..].
    by rewrite (NoDup_fst_eq l1 b c).
Qed.

Lemma old_storage_sorted s old changed leaves :
  old_storage s old changed = Ok leaves → sorted leaves.
Proof.
  unfold old_storage. destruct (_ || _); [intros [= <-]; constructor|]. unfold state_err, memory_leaves.
  destruct (collect_leaves _ _ _) eqn:Hc; [|done..]. intros [= <-]. by eapply collect_leaves_sorted.
Qed.

Lemma change_effect_same s c1 c2 :
  same_change c1 c2 → NoDup (ca_slots c1.2).*1 → Forall u256 (ca_slots c1.2).*1 →
  apart (to_be_bytes 32 <$> (ca_slots c1.2).*1) → change_effect s c1 = change_effect s c2.
Proof.
  destruct c1 as [a1 c1], c2 as [a2 c2]. intros [] Hnd Hu Ha. cbn [fst snd] in *. subst a2.
  unfold change_effect, code_entries, changed_code, old_storage.
  rewrite <-sc_touched0, <-sc_selfdestructed0, <-sc_created0, <-sc_nonce0, <-sc_balance0,
    <-sc_code_hash0, <-sc_code0.
  destruct (ca_touched c1), (ca_selfdestructed c1); cbn [negb]; [done| |done..].
  destruct (state_account s a1) as [old| |]; cbn [obind]; [|done..].
  fold (old_storage s (default default_account old) c1).
  destruct (old_storage s _ c1) as [leaves| |] eqn:Ho; cbn [obind]; [|done..].
  by rewrite (write_slots_perm leaves _ _ (old_storage_sorted _ _ _ _ Ho) sc_slots0).
Qed.
End inputs.

(** ** Results *)

Section results.
Context `{Keccak, AlloyRlp, !AlloyTrie}.

(** What [apply_changes] does after its first loop. *)
Definition settle (s : ExecutionState) (st : StateOverlay * btree bytes bytes * btree bytes bytes)
    : outcome EvmError ExecutionState :=
  let '(overlay, added, contract_code) := st in
  let? accounts := state_err (commit_overlay overlay) in
  let candidate := bextend (bextend (es_trie_nodes s) added) (snap_nodes accounts) in
  let? reachable :=
    for_each (keep_reachable candidate) (snap_nodes accounts) (bvalues (snap_leaves accounts)) in
  let? accounts := state_err (extend_nodes accounts reachable) in
  Ok {| es_accounts := accounts; es_trie_nodes := reachable; es_contract_code := contract_code;
        es_block_hashes := es_block_hashes s |}.

Definition change_start (s : ExecutionState) : StateOverlay * btree bytes bytes * btree bytes bytes :=
  (from_snapshot (es_accounts s), [], es_contract_code s).

Lemma apply_changes_settle s cs :
  apply_changes s cs =
    (let? es := collect (change_effect s) cs in
     settle s (absorb (change_start s) (es ≫= option_list))).
Proof.
  unfold apply_changes. fold (change_start s). rewrite apply_all_effects.
  by destruct (collect (change_effect s) cs).
Qed.

(** The effects of the changes, and where each comes from. *)
Lemma effect_origin s cs es e :
  collect (change_effect s) cs = Ok es → e ∈ es ≫= option_list →
  ∃ c, c ∈ cs ∧ change_effect s c = Ok (Some e).
Proof.
  intros Hc%collect_Ok He. apply list_elem_of_bind in He as (o & Ho & Hin).
  destruct o as [e'|]; cbn in Ho; [|by apply elem_of_nil in Ho]. apply list_elem_of_singleton in Ho as ->.
  apply list_elem_of_lookup in Hin as [i Hi]. destruct (Forall2_lookup_r _ _ _ _ _ Hc Hi) as (c & Hl & He).
  exists c. split; [by eapply list_elem_of_lookup_2|done].
Qed.

Lemma effect_elem s cs es c e :
  collect (change_effect s) cs = Ok es → c ∈ cs → change_effect s c = Ok (Some e) →
  e ∈ es ≫= option_list.
Proof.
  intros Hc%collect_Ok Hin He. apply list_elem_of_lookup in Hin as [i Hi].
  destruct (Forall2_lookup_l _ _ _ _ _ Hc Hi) as (o & Hl & Ho). rewrite Ho in He. injection He as ->.
  apply list_elem_of_bind. exists (Some e). split; [by apply list_elem_of_singleton|by eapply list_elem_of_lookup_2].
Qed.

Lemma effect_key s c e : change_effect s c = Ok (Some e) → ef_key e = keccak256 c.1.
Proof.
  destruct c as [a c]. unfold change_effect. destruct (ca_touched c); cbn [negb]; [|done].
  destruct (ca_selfdestructed c); [by intros [= <-]|]. intros Hc. ok_inv. by subst e.
Qed.

Lemma effect_addressed s c e h x :
  change_effect s c = Ok (Some e) → (h, x) ∈ ef_nodes e ∨ (h, x) ∈ ef_code e → h = keccak256 x.
Proof.
  destruct c as [a c]. unfold change_effect. destruct (ca_touched c); cbn [negb]; [|done].
  destruct (ca_selfdestructed c); [intros [= <-] [Hx|Hx]; by apply elem_of_nil in Hx|].
  intros Hc. apply obind_Ok in Hc as (old & _ & Hc). apply obind_Ok in Hc as (leaves & _ & Hc).
  apply obind_Ok in Hc as (snap & Hb & Hc). apply obind_Ok in Hc as (entries & Hn & Hc). injection Hc as <-.
  intros [Hx|Hx]; cbn in Hx.
  - unfold state_err in Hb. destruct (build _) as [snap'| |] eqn:Hbuild; [|done..]. injection Hb as ->.
    by apply (build_addressed _ _ Hbuild).
  - unfold code_entries, changed_code in Hn. case_bool_decide; [injection Hn as <-; by apply elem_of_nil in Hx|].
    destruct (ca_code c) as [code|]; [|injection Hn as <-; by apply elem_of_nil in Hx].
    destruct (_ =? _)%nat; [injection Hn as <-; by apply elem_of_nil in Hx|].
    case_bool_decide as Hk; [|done]. injection Hn as <-. cbn in Hx. apply list_elem_of_singleton in Hx.
    by injection Hx as -> ->.
Qed.

Lemma functional_writes s cs es :
  NoDup cs.*1 → apart (change_inputs s cs) → collect (change_effect s) cs = Ok es →
  functional ((λ e, (ef_key e, ef_value e)) <$> (es ≫= option_list)).
Proof.
  intros Hnd Ha Hes k v v' Hv1 Hv2.
  apply list_elem_of_fmap in Hv1 as (e1 & [= -> ->] & Hv1). apply list_elem_of_fmap in Hv2 as (e2 & [= Hk ->] & Hv2).
  destruct (effect_origin _ _ _ _ Hes Hv1) as (c1 & Hc1 & He1), (effect_origin _ _ _ _ Hes Hv2) as (c2 & Hc2 & He2).
  rewrite (effect_key _ _ _ He1), (effect_key _ _ _ He2) in Hk.
  apply Ha in Hk; [|apply elem_of_app; left; by apply list_elem_of_fmap_2..].
  assert (c1 = c2) as -> by (by eapply NoDup_fst_eq). congruence.
Qed.

Lemma functional_addressed s cs es (part : effect → list (bytes * bytes)) :
  (∀ e x, x ∈ part e → x ∈ ef_nodes e ∨ x ∈ ef_code e) →
  apart (change_inputs s cs) → collect (change_effect s) cs = Ok es →
  functional ((es ≫= option_list) ≫= part).
Proof.
  intros Hpart Ha Hes h x x' Hv1 Hv2.
  assert (∀ x, (h, x) ∈ (es ≫= option_list) ≫= part → h = keccak256 x ∧ x ∈ change_inputs s cs) as Hof.
  { intros y Hy. apply list_elem_of_bind in Hy as (e & He & Hin). apply Hpart in He.
    destruct (effect_origin _ _ _ _ Hes Hin) as (c & Hc & Hce). split; [by eapply effect_addressed|].
    unfold change_inputs. rewrite !elem_of_app. right. right. apply list_elem_of_bind. exists c. split; [|done].
    rewrite Hce, elem_of_app. destruct He as [He|He]; [left|right]; by apply (list_elem_of_fmap_2 snd) in He. }
  destruct (Hof x Hv1) as [E1 ?], (Hof x' Hv2) as [E2 ?]. apply Ha; [done..|congruence].
Qed.

Lemma absorb_perm s cs es es2 :
  sorted (es_contract_code s) → NoDup cs.*1 → apart (change_inputs s cs) →
  collect (change_effect s) cs = Ok es → es ≡ₚ es2 →
  absorb (change_start s) (es ≫= option_list) = absorb (change_start s) (es2 ≫= option_list).
Proof.
  intros Hs Hnd Ha Hes Hp. unfold absorb, change_start. cbn [base writes from_snapshot new_overlay].
  f_equal; [f_equal; [f_equal|]|].
  - apply bextend_same; [constructor|by eapply functional_writes|]. intros e. by rewrite Hp.
  - apply bextend_same; [constructor| |].
    + eapply functional_addressed; [|done..]. auto.
    + intros e. by rewrite Hp.
  - apply bextend_same; [done| |].
    + eapply functional_addressed; [|done..]. auto.
    + intros e. by rewrite Hp.
Qed.

Lemma slots_apart s cs c :
  apart (change_inputs s cs) → c ∈ cs → apart (to_be_bytes 32 <$> (ca_slots c.2).*1).
Proof.
  intros Ha Hc a b Hin1 Hin2. apply Ha; unfold change_inputs; rewrite !elem_of_app; right; left;
    apply list_elem_of_bind; by exists c.
Qed.

Lemma collect_same s cs1 cs2 es :
  changes_wf cs1 → apart (change_inputs s cs1) → same_changes cs1 cs2 →
  collect (change_effect s) cs1 = Ok es → ∃ es2, collect (change_effect s) cs2 = Ok es2 ∧ es ≡ₚ es2.
Proof.
  intros [_ Hwf] Ha (cs & Hp & Hf) Hes. destruct (collect_perm _ _ _ _ Hp Hes) as (es2 & Hes2 & Hp2).
  exists es2. split; [|done]. rewrite <-Hes2. symmetry. apply (collect_ext _ same_change); [|done].
  intros c1 c2 Hc Hs. assert (c1 ∈ cs1) as Hin by (by rewrite Hp).
  destruct (Hwf c1 Hin). apply change_effect_same; [done..|]. by eapply slots_apart.
Qed.

(** The state after a transaction does not depend on the order in which revm
    lists what changed. If a set of changes is applied, then the same changes
    with the accounts in any other order, and the slots of each account in any
    other order, are applied too and give the same state: the same root, nodes,
    contract code and block hashes; or two different things the changes hash
    (addresses, slots, storage nodes, codes) have the same hash. *)
Theorem apply_changes_order s cs1 cs2 s' :
  sorted (es_contract_code s) → changes_wf cs1 → same_changes cs1 cs2 →
  apply_changes s cs1 = Ok s' →
  apply_changes s cs2 = Ok s' ∨ collision (λ x, x ∈ change_inputs s cs1).
Proof.
  intros Hs Hwf Hsame Happly. destruct (apart_or (change_inputs s cs1)) as [Ha|Hc]; [left|by right].
  rewrite apply_changes_settle in Happly |- *. apply obind_Ok in Happly as (es & Hes & Happly).
  destruct (collect_same _ _ _ _ Hwf Ha Hsame Hes) as (es2 & Hes2 & Hp). rewrite Hes2. cbn [obind].
  rewrite <-Happly. f_equal. symmetry. eapply absorb_perm; [done|apply Hwf|done..].
Qed.

(** What revm reports is typed. *)
Definition changed_typed (c : ChangedAccount) : Prop :=
  u64 (ca_nonce c) ∧ u256 (ca_balance c) ∧ is_b256 (ca_code_hash c).

Lemma settle_account s st s' address :
  overlay_ok st.1.1 → settle s st = Ok s' →
  state_account s' address =
    match secure_leaf st.1.1 (secure_account_key address) with
    | Some leaf => let? a := state_err (decode_account leaf) in Ok (Some a)
    | None => Ok None
    end.
Proof.
  destruct st as [[ov added] code]. cbn [fst]. intros Hok Hset. unfold settle in Hset.
  apply obind_Ok in Hset as (accounts & Hcommit & Hset). apply obind_Ok in Hset as (reach & _ & Hset).
  apply obind_Ok in Hset as (accounts' & Hext & Hset). injection Hset as <-.
  unfold state_account. cbn [es_accounts].
  assert (snap_leaves accounts' = foldl apply_write (base ov) (writes ov)) as ->; [|by rewrite commit_leaves_view].
  unfold state_err in *. destruct (extend_nodes _ _) eqn:He; [|done..]. injection Hext as ->.
  apply extend_nodes_Ok in He as [_ ->]. destruct (commit_overlay ov) eqn:Hc; [|done..]. injection Hcommit as ->.
  by apply build_leaves.
Qed.

Lemma build_root_b256 leaves snap : build leaves = Ok snap → is_b256 (snap_root snap).
Proof.
  unfold build. destruct leaves as [|l leaves].
  - intros [= <-]. cbn. rewrite empty_root_hash. apply keccak256_length.
  - intros Hb. ok_inv. subst snap. cbn [snap_root].
    destruct (SECURE_KEY_NIBBLES + 2)%nat; [done|]. cbn [build_node] in Hok. ok_inv. subst.
    apply keccak256_length.
Qed.

(** The account a change that is touched and not destroyed leaves. *)
Definition left_account (changed : ChangedAccount) (storage : TrieSnapshot) : Account :=
  {| nonce := ca_nonce changed; balance := ca_balance changed;
     storage_root := snap_root storage; code_hash := ca_code_hash changed |}.

Lemma change_effect_live s address changed e :
  change_effect s (address, changed) = Ok (Some e) → ca_selfdestructed changed = false →
  ∃ old leaves storage, state_account s address = Ok old ∧
    old_storage s (default default_account old) changed = Ok leaves ∧
    build (foldl write_slot leaves (ca_slots changed)) = Ok storage ∧
    ef_value e = let a := left_account changed storage in
      if is_empty a then None else Some (encode_account a).
Proof.
  unfold change_effect. intros Hc Hs. rewrite Hs in Hc. destruct (ca_touched changed); cbn [negb] in Hc; [|done].
  apply obind_Ok in Hc as (old & Hold & Hc). apply obind_Ok in Hc as (leaves & Hl & Hc).
  apply obind_Ok in Hc as (snap & Hb & Hc). apply obind_Ok in Hc as (entries & Hn & Hc). injection Hc as <-.
  exists old, leaves, snap. unfold state_err in Hb. destruct (build _) as [snap'| |] eqn:Hbuild; [|done..].
  by injection Hb as ->.
Qed.

Lemma absorb_ok s es :
  sorted (snap_leaves (es_accounts s)) → overlay_ok (absorb (change_start s) es).1.1.
Proof. intros Hs. split; [done|]. apply sorted_bextend. constructor. Qed.

(** Reading an address one of the changes is about. *)
Lemma absorb_changed s cs es c e :
  NoDup cs.*1 → apart (change_inputs s cs) → collect (change_effect s) cs = Ok es →
  c ∈ cs → change_effect s c = Ok (Some e) →
  secure_leaf (absorb (change_start s) (es ≫= option_list)).1.1 (secure_account_key c.1) = ef_value e.
Proof.
  intros Hnd Ha Hes Hc He. unfold secure_leaf, absorb, change_start. cbn [fst writes base].
  rewrite (bget_bextend_in _ _ _ (ef_value e)); [by destruct (ef_value e)|by eapply functional_writes|].
  apply list_elem_of_fmap. exists e. split; [by rewrite (effect_key _ _ _ He)|by eapply effect_elem].
Qed.

Lemma absorb_unchanged s cs es address :
  collect (change_effect s) cs = Ok es →
  (∀ c, c ∈ cs → keccak256 c.1 = keccak256 address → change_effect s c = Ok None) →
  secure_leaf (absorb (change_start s) (es ≫= option_list)).1.1 (secure_account_key address) =
    bget (secure_account_key address) (snap_leaves (es_accounts s)).
Proof.
  intros Hes Hno. unfold secure_leaf, absorb, change_start. cbn [fst writes base from_snapshot new_overlay].
  rewrite bget_bextend_notin; [done|]. intros ([k v] & Hk & Hin)%list_elem_of_fmap. cbn in Hk. subst k.
  apply list_elem_of_fmap in Hin as (e & [= Hk _] & Hin).
  destruct (effect_origin _ _ _ _ Hes Hin) as (c & Hc & Hce). rewrite (effect_key _ _ _ Hce) in Hk.
  by rewrite (Hno c Hc) in Hce.
Qed.

Lemma touched_effect s cs es address changed :
  collect (change_effect s) cs = Ok es → (address, changed) ∈ cs → ca_touched changed = true →
  ∃ e, change_effect s (address, changed) = Ok (Some e) ∧
    (ca_selfdestructed changed = true → ef_value e = None).
Proof.
  intros Hes Hin Ht. apply collect_Ok in Hes. apply list_elem_of_lookup in Hin as [i Hi].
  destruct (Forall2_lookup_l _ _ _ _ _ Hes Hi) as (o & _ & Ho). revert Ho. unfold change_effect. rewrite Ht.
  cbn [negb]. destruct (ca_selfdestructed changed); [by eauto|]. intros Ho. destruct o as [e|]; [by exists e|]. by ok_inv.
Qed.

Context `{!EthereumRlp}.

Lemma read_back a :
  wf_account a → (let? x := state_err (decode_account (encode_account a)) in Ok (Some x)) = Ok (Some a).
Proof.
  intros Ha. by rewrite (proj2 (decode_account_iff (encode_account a) a (encode_account_size _ Ha))).
Qed.

(** C24. The state after a transaction reads as what revm reported. For every
    address: one that was not reported, or not touched, reads as before; a
    destroyed account is gone; any other has the reported nonce, balance and
    code hash, and as storage root the root of its old storage (none when it was
    just created) with the reported slots written, zero as a removal, and is
    absent when that makes it empty; or two different things hashed have the
    same hash. *)
Theorem apply_changes_reads s cs s' address :
  sorted (snap_leaves (es_accounts s)) → changes_wf cs → (∀ c, c ∈ cs → changed_typed c.2) →
  apply_changes s cs = Ok s' →
  collision (λ x, x ∈ address :: change_inputs s cs) ∨
  (∀ changed, (address, changed) ∈ cs → ca_touched changed = true →
    if ca_selfdestructed changed then state_account s' address = Ok None
    else ∃ old leaves storage, state_account s address = Ok old ∧
      old_storage s (default default_account old) changed = Ok leaves ∧
      build (foldl write_slot leaves (ca_slots changed)) = Ok storage ∧
      state_account s' address =
        Ok (let a := left_account changed storage in if is_empty a then None else Some a)) ∧
  ((∀ changed, (address, changed) ∈ cs → ca_touched changed = false) →
    state_account s' address = state_account s address).
Proof.
  intros Hs [Hnd Hwf] Hty Happly. destruct (apart_or (address :: change_inputs s cs)) as [Ha|Hc]; [right|by left].
  assert (apart (change_inputs s cs)) as Ha' by (intros a b Hi1 Hi2; apply Ha; by right).
  rewrite apply_changes_settle in Happly. apply obind_Ok in Happly as (es & Hes & Happly).
  rewrite (settle_account _ _ _ address (absorb_ok _ _ Hs) Happly). split.
  - intros changed Hin Ht.
    destruct (touched_effect _ _ _ _ _ Hes Hin Ht) as (e & He & Hgone).
    pose proof (absorb_changed _ _ _ _ _ Hnd Ha' Hes Hin He) as Hleaf. cbn [fst] in Hleaf. rewrite Hleaf.
    destruct (ca_selfdestructed changed) eqn:Hd; [by rewrite Hgone|].
    destruct (change_effect_live _ _ _ _ He Hd) as (old & leaves & storage & Hold & Hl & Hb & Hv).
    exists old, leaves, storage. split_and!; [done..|]. rewrite Hv. cbv zeta.
    destruct (is_empty _); [done|]. apply read_back. destruct (Hty _ Hin) as (? & ? & ?).
    split_and!; [done..|by eapply build_root_b256|done].
  - intros Hun. rewrite (absorb_unchanged s cs); [done..|].
    intros [a changed] Hin Hk. apply Ha in Hk;
      [|right; apply elem_of_app; left; by apply (list_elem_of_fmap_2 fst) in Hin|by left].
    cbn in Hk. subst a. unfold change_effect. by rewrite (Hun _ Hin).
Qed.
End results.

Module EvmWitness.
#[local] Existing Instance Toy.toy_keccak.
#[local] Existing Instance spec_rlp.
#[local] Existing Instance MptWitness.toy_trie.
#[local] Existing Instance BuildWitness.spec_ethereum.

Definition no_state : ExecutionState :=
  {| es_accounts := {| snap_root := EMPTY_ROOT_HASH; snap_nodes := []; snap_leaves := [] |};
     es_trie_nodes := []; es_contract_code := []; es_block_hashes := [] |}.

Definition changed (nonce : Z) (slots : list (Z * Z)) : ChangedAccount :=
  {| ca_touched := true; ca_selfdestructed := false; ca_created := false; ca_nonce := nonce;
     ca_balance := 1000; ca_code_hash := KECCAK_EMPTY; ca_code := None; ca_slots := slots |}.

Definition alice : bytes := repeat_byte 20 5.
Definition bob : bytes := repeat_byte 20 6.

Definition changes : list (bytes * ChangedAccount) :=
  [(alice, changed 1 [(1, 5); (256, 7)]); (bob, changed 0 [])].

Definition changes' : list (bytes * ChangedAccount) :=
  [(bob, changed 0 []); (alice, changed 1 [(256, 7); (1, 5)])].

Definition after : ExecutionState :=
  Eval vm_compute in match apply_changes no_state changes with Ok s => s | _ => no_state end.

Lemma changes_applied : apply_changes no_state changes = Ok after.
Proof. by_evaluation. Qed.

Lemma changes_ok : changes_wf changes.
Proof.
  split; [by_evaluation|]. intros c Hc. unfold changes in Hc. rewrite !elem_of_cons, elem_of_nil in Hc.
  destruct Hc as [->|[->|[]]]; split; by_evaluation.
Qed.

Lemma apply_changes_order_witness :
  apply_changes no_state changes' = Ok after ∨
  collision (λ x, x ∈ change_inputs no_state changes).
Proof.
  apply (apply_changes_order no_state changes changes' after).
  - constructor.
  - exact changes_ok.
  - exists [(bob, changed 0 []); (alice, changed 1 [(1, 5); (256, 7)])]. split; [constructor|].
    repeat constructor.
  - exact changes_applied.
Defined.

Lemma apply_changes_reads_witness :
  collision (λ x, x ∈ alice :: change_inputs no_state changes) ∨
  (∀ c, (alice, c) ∈ changes → ca_touched c = true →
    if ca_selfdestructed c then state_account after alice = Ok None
    else ∃ old leaves storage, state_account no_state alice = Ok old ∧
      old_storage no_state (default default_account old) c = Ok leaves ∧
      build (foldl write_slot leaves (ca_slots c)) = Ok storage ∧
      state_account after alice =
        Ok (let a := left_account c storage in if is_empty a then None else Some a)) ∧
  ((∀ c, (alice, c) ∈ changes → ca_touched c = false) →
    state_account after alice = state_account no_state alice).
Proof.
  apply (apply_changes_reads no_state changes after alice).
  - constructor.
  - exact changes_ok.
  - intros c Hc. unfold changes in Hc. rewrite !elem_of_cons, elem_of_nil in Hc.
    destruct Hc as [->|[->|[]]]; repeat split; by_evaluation.
  - exact changes_applied.
Defined.
End EvmWitness.
