(* ===== verification/Executor.v ===== *)
(** The executor: a domain batch is a fixed sequence of transaction envelopes
    executed against a copy of the parent state, with a receipt per transaction,
    the gas and log-bloom totals and the domains the batch created
    (src/crates/arbor-executor/src/lib.rs).

    The ordered trie root and the log bloom come from alloy ([AlloyRoots]).

    Main results: what a batch that executes returns, position by position, and
    how a batch splits into a prefix and a rest. *)

From Stdlib Require Import Strings.Byte.
From S2P Require Import Prelude Bytes BTreeMap Primitives Canonical Rlp Crypto Ethereum StateError.
From S2P Require Import System Registry Trie Mpt MptBuild Account Overlay Evm.

Local Open Scope Z_scope.

Definition MAX_TRANSACTIONS_PER_BATCH : Z := 10000.

Record ChainRegistryExecutionContext := {
  rc_network_id : NetworkId;
  rc_root_domain_id : DomainId;
  rc_executing_domain_id : DomainId;
  rc_creation_height : Z;
  rc_governance_address : bytes;
  rc_finalized_heads : btree DomainId bytes;
}.

Record CreatedDomain := {
  cd_descriptor : DomainDescriptor;
  cd_genesis_state : ExecutionState;
}.

Record ExecutedTransaction := {
  et_transaction_hash : bytes;
  et_sender : bytes;
  et_success : bool;
  et_gas_used : Z;
  et_contract_address : option bytes;
  et_output : bytes;
}.

Record DomainExecutionResult := {
  er_state : ExecutionState;
  er_transactions_root : bytes;
  er_receipts_root : bytes;
  er_logs_bloom : bytes;
  er_gas_used : Z;
  er_receipts : list Receipt;
  er_encoded_receipts : list bytes;
  er_transactions : list ExecutedTransaction;
  er_created_domains : list CreatedDomain;
}.

(** The text of the errors that carry one: another error's, or a fixed one. *)
Inductive reason :=
| CodecReason (e : CodecError)
| CryptoReason (e : CryptoError)
| EvmReason (e : EvmError)
| TextReason (text : string).

Inductive ExecutorError :=
| TooManyTransactions (limit actual : Z)
| InvalidEnvelope (index : Z) (why : reason)
| WrongChainId (index expected actual : Z)
| TransactionFailed (index : Z) (source : EvmError)
| BlockGasOverflow (index used limit : Z)
| ReceiptEncoding (index : Z) (why : reason)
| SystemPreparation (index : Z) (why : reason).

(** alloy's ordered trie root, and its 2048-bit log bloom: adding one log's
    address and topics, and the union of two blooms, which starts from zero and
    commutes with adding a log to either side. *)
Class AlloyRoots := {
  ordered_trie_root_encoded : list bytes → bytes;
  BLOOM_ZERO : bytes;
  accrue_raw_log : bytes → bytes → list bytes → bytes;
  accrue_bloom : bytes → bytes → bytes;
}.

Class AlloyRootsLaws `{AlloyRoots} := {
  root_length : ∀ items, is_b256 (ordered_trie_root_encoded items);
  accrue_zero : ∀ a, accrue_bloom a BLOOM_ZERO = a;
  accrue_log : ∀ a b address topics,
    accrue_bloom a (accrue_raw_log b address topics) = accrue_raw_log (accrue_bloom a b) address topics;
}.

(** [iter().enumerate()]. *)
Definition enumerate {A : Type} (l : list A) : list (Z * A) := imap (λ i a, (Z.of_nat i, a)) l.

(** [let Ok(a) = c else { ... }]: the value, if [c] succeeds. *)
Definition ok {E F A : Type} (c : outcome E A) : outcome F (option A) :=
  match c with
  | Ok a => Ok (Some a)
  | Err _ => Ok None
  | Panic m => Panic m
  end.

Section executor.
Context `{Keccak, AlloyRlp, !AlloyTrie, SenderRecovery, Journal, !Revm, AlloyRoots}.

Definition new_service (protocol_revision : Z) : outcome EvmError ProtocolSpec := resolve protocol_revision.

Definition registry_runtime (context : option ChainRegistryExecutionContext)
    (prepared_creation : option PreparedChainCreation) : option ChainRegistryRuntime :=
  context ← context;
  Some {| rt_root_domain_id := rc_root_domain_id context;
          rt_executing_domain_id := rc_executing_domain_id context;
          rt_consensus_height := rc_creation_height context;
          rt_governance_address := rc_governance_address context;
          rt_prepared_creation := prepared_creation |}.

(** The state of a new domain: its owner with the initial supply. *)
Definition owner_genesis (owner : bytes) (initial_supply : Z) : btree bytes GenesisAccount :=
  [(owner, {| ga_nonce := 0; ga_balance := initial_supply; ga_code := []; ga_storage := [] |})].

Definition prepare_registry_creation (index : Z) (registry : option ChainRegistryExecutionContext)
    (transaction : Eip1559Transaction) (transaction_hash : bytes)
    : outcome ExecutorError (option PreparedChainCreation * option ExecutionState) :=
  match registry with
  | None => Ok (None, None)
  | Some registry =>
      if negb (bool_decide (rc_executing_domain_id registry = rc_root_domain_id registry)) ||
         negb (bool_decide (tx_to transaction = Some CHAIN_REGISTRY_ADDRESS))
      then Ok (None, None)
      else
        let? request := ok (decode_create_chain_call (tx_input transaction)) in
        match request with
        | None => Ok (None, None)
        | Some request =>
            match bget (rq_parent_domain_id request) (rc_finalized_heads registry) with
            | None => Ok (None, None)
            | Some joint =>
                let? genesis_state :=
                  map_err (λ e, SystemPreparation index (EvmReason e))
                    (from_genesis (owner_genesis (rq_owner request) (rq_initial_supply request))) in
                let? prepared :=
                  ok (prepare_chain_creation request (rc_network_id registry) transaction_hash joint
                        (state_root genesis_state) (tx_value transaction)
                        (rc_creation_height registry)) in
                match prepared with
                | None => Ok (None, None)
                | Some prepared => Ok (Some prepared, Some genesis_state)
                end
            end
        end
  end.

Definition checked_cumulative_gas (index current transaction limit : Z) : outcome ExecutorError Z :=
  let? used := ok_or (checked_add 64 current transaction) (BlockGasOverflow index (umax 64) limit) in
  if limit <? used then Err (BlockGasOverflow index used limit) else Ok used.

Definition decode_transaction (index : Z) (envelope : bytes) : outcome ExecutorError Eip1559Transaction :=
  map_err (λ e, InvalidEnvelope index (CodecReason e)) (decode_eip1559 envelope).

Definition logs_bloom (logs : list Log) : bytes :=
  foldl (λ bloom log, accrue_raw_log bloom (log_address log) (log_topics log)) BLOOM_ZERO logs.

Definition transactions_root (envelopes : list bytes) : bytes := ordered_trie_root_encoded envelopes.

Definition receipts_root (encoded_receipts : list bytes) : bytes :=
  ordered_trie_root_encoded encoded_receipts.

(** The local variables of the loop of [execute_batch_with_registry]. *)
Record batch_state := {
  bs_state : ExecutionState;
  bs_cumulative_gas : Z;
  bs_block_bloom : bytes;
  bs_receipts : list Receipt;
  bs_encoded_receipts : list bytes;
  bs_executed : list ExecutedTransaction;
  bs_created_domains : list CreatedDomain;
}.

Definition batch_start (parent : ExecutionState) : batch_state :=
  {| bs_state := parent; bs_cumulative_gas := 0; bs_block_bloom := BLOOM_ZERO; bs_receipts := [];
     bs_encoded_receipts := []; bs_executed := []; bs_created_domains := [] |}.

Definition execute_one (spec : ProtocolSpec) (env : DomainEnv)
    (registry : option ChainRegistryExecutionContext) (b : batch_state) (item : Z * bytes)
    : outcome ExecutorError batch_state :=
  let '(index, envelope) := item in
  let? transaction := decode_transaction index envelope in
  if negb (tx_chain_id transaction =? de_chain_id env)
  then Err (WrongChainId index (de_chain_id env) (tx_chain_id transaction))
  else
    let? sender :=
      map_err (λ e, InvalidEnvelope index (CryptoReason e)) (recover_eip1559_sender transaction) in
    let? transaction_hash :=
      map_err (λ e, InvalidEnvelope index (CryptoReason e)) (eip1559_transaction_hash transaction) in
    let? '(prepared_creation, genesis_state) :=
      prepare_registry_creation index registry transaction transaction_hash in
    let? '(result, state) :=
      map_err (TransactionFailed index)
        (execute_transaction_with_system (bs_state b) spec env transaction sender
           (registry_runtime registry prepared_creation)) in
    let? cumulative_gas :=
      checked_cumulative_gas index (bs_cumulative_gas b) (ex_gas_used result) (de_gas_limit env) in
    let receipt_bloom := logs_bloom (ex_logs result) in
    let block_bloom := accrue_bloom (bs_block_bloom b) receipt_bloom in
    let receipt :=
      {| rc_status := ex_success result; rc_cumulative_gas_used := cumulative_gas;
         rc_logs_bloom := receipt_bloom; rc_logs := ex_logs result |} in
    let? encoded :=
      map_err (λ e, ReceiptEncoding index (CodecReason e)) (encode_eip1559_receipt receipt) in
    let executed :=
      {| et_transaction_hash := transaction_hash; et_sender := sender; et_success := rc_status receipt;
         et_gas_used := ex_gas_used result; et_contract_address := ex_created_address result;
         et_output := ex_output result |} in
    let? created_domains :=
      match ex_created_domain result with
      | Some descriptor =>
          let? genesis_state :=
            ok_or genesis_state
              (SystemPreparation index
                 (TextReason "successful registry call has no prepared genesis state")) in
          Ok (bs_created_domains b ++
              [{| cd_descriptor := descriptor; cd_genesis_state := genesis_state |}])
      | None => Ok (bs_created_domains b)
      end in
    Ok {| bs_state := state; bs_cumulative_gas := cumulative_gas; bs_block_bloom := block_bloom;
          bs_receipts := bs_receipts b ++ [receipt];
          bs_encoded_receipts := bs_encoded_receipts b ++ [encoded];
          bs_executed := bs_executed b ++ [executed]; bs_created_domains := created_domains |}.

Definition execute_batch_with_registry (spec : ProtocolSpec) (env : DomainEnv)
    (parent : ExecutionState) (envelopes : list bytes)
    (registry : option ChainRegistryExecutionContext) : outcome ExecutorError DomainExecutionResult :=
  if MAX_TRANSACTIONS_PER_BATCH <? zlen envelopes
  then Err (TooManyTransactions MAX_TRANSACTIONS_PER_BATCH (zlen envelopes))
  else
    let? b := for_each (execute_one spec env registry) (batch_start parent) (enumerate envelopes) in
    Ok {| er_state := bs_state b;
          er_transactions_root := ordered_trie_root_encoded envelopes;
          er_receipts_root := ordered_trie_root_encoded (bs_encoded_receipts b);
          er_logs_bloom := bs_block_bloom b; er_gas_used := bs_cumulative_gas b;
          er_receipts := bs_receipts b; er_encoded_receipts := bs_encoded_receipts b;
          er_transactions := bs_executed b; er_created_domains := bs_created_domains b |}.

Definition execute_batch (spec : ProtocolSpec) (env : DomainEnv) (parent : ExecutionState)
    (envelopes : list bytes) : outcome ExecutorError DomainExecutionResult :=
  execute_batch_with_registry spec env parent envelopes None.
End executor.

(** ** One transaction *)

(** A domain created by the transaction [tx] with hash [hash]. *)
Record created_by `{Keccak, AlloyRlp, !AlloyTrie} (ctx : ChainRegistryExecutionContext)
    (tx : Eip1559Transaction) (hash : bytes) (cd : CreatedDomain) : Prop := {
  cb_root : rc_executing_domain_id ctx = rc_root_domain_id ctx;
  cb_to : tx_to tx = Some CHAIN_REGISTRY_ADDRESS;
  cb_prepared : ∃ request joint p,
    decode_create_chain_call (tx_input tx) = Ok request ∧
    bget (rq_parent_domain_id request) (rc_finalized_heads ctx) = Some joint ∧
    from_genesis (owner_genesis (rq_owner request) (rq_initial_supply request)) =
      Ok (cd_genesis_state cd) ∧
    normalize_request request = Ok (pc_request p) ∧
    prepared_ok (rc_network_id ctx) hash joint (state_root (cd_genesis_state cd)) (tx_value tx)
      (rc_creation_height ctx) p ∧
    cd_descriptor cd = pc_descriptor p;
}.

Section one.
Context `{Keccak, AlloyRlp, !AlloyTrie, SenderRecovery, Journal, !Revm, AlloyRoots}.

Lemma prepare_registry_inv index registry tx hash p g :
  (∀ ctx, registry = Some ctx → 0 ≤ rc_creation_height ctx) →
  prepare_registry_creation index registry tx hash = Ok (Some p, g) →
  ∃ ctx state, registry = Some ctx ∧ g = Some state ∧
    created_by ctx tx hash {| cd_descriptor := pc_descriptor p; cd_genesis_state := state |}.
Proof.
  unfold prepare_registry_creation. destruct registry as [ctx|]; [|done]. intros Hh.
  specialize (Hh ctx eq_refl). destruct (_ || _) eqn:Hg; [done|]. apply orb_false_iff in Hg as [Hroot Hto]. bool_prop.
  unfold ok. destruct (decode_create_chain_call (tx_input tx)) as [request| |] eqn:Hd; cbn [obind]; [|done..].
  destruct (bget _ _) as [joint|] eqn:Hj; [|done].
  destruct (from_genesis _) as [state| |] eqn:Hs; cbn [map_err obind]; [|done..].
  destruct (prepare_chain_creation _ _ _ _ _ _ _) as [q| |] eqn:Hp; cbn [obind]; [|done..].
  intros [= -> <-]. exists ctx, state. split; [done|]. split; [done|]. apply prepare_inv in Hp as [Hn Hpo]; [|done].
  split; [done..|]. by exists request, joint, p.
Qed.

Lemma created_domain_origin s spec env tx sender registry result s' descriptor :
  execute_transaction_with_system s spec env tx sender registry = Ok (result, s') →
  ex_created_domain result = Some descriptor →
  ex_success result = true ∧
  ∃ ctx p, registry = Some ctx ∧ rt_prepared_creation ctx = Some p ∧ descriptor = pc_descriptor p.
Proof.
  unfold execute_transaction_with_system. intros He Hc. ok_inv. subst result. cbn in Hc |- *.
  destruct (xr_success _); [|done]. split; [done|]. destruct (_ && starts_with _ _); [|done].
  destruct registry as [ctx|]; cbn in Hc; [|done]. destruct (rt_prepared_creation ctx) as [p|] eqn:Hp; [|done].
  injection Hc as <-. by exists ctx, p.
Qed.

Lemma checked_cumulative_Ok index current tx limit used :
  checked_cumulative_gas index current tx limit = Ok used → used = current + tx ∧ used ≤ limit.
Proof.
  unfold checked_cumulative_gas. intros Hg. ok_inv. apply checked_add_Some in Hok as [-> _].
  bool_prop. split; [done|lia].
Qed.

(** What the loop body appends for one envelope. *)
Record step_ok (env : DomainEnv) (registry : option ChainRegistryExecutionContext) (b : batch_state)
    (envelope : bytes) (b' : batch_state) (tx : Eip1559Transaction) (rc : Receipt) (encoded : bytes)
    (et : ExecutedTransaction) (created : list CreatedDomain) : Prop := {
  so_decoded : decode_eip1559 envelope = Ok tx;
  so_chain : tx_chain_id tx = de_chain_id env;
  so_sender : recover_eip1559_sender tx = Ok (et_sender et);
  so_hash : eip1559_transaction_hash tx = Ok (et_transaction_hash et);
  so_encoded : encode_eip1559_receipt rc = Ok encoded;
  so_status : rc_status rc = et_success et;
  so_cumulative : rc_cumulative_gas_used rc = bs_cumulative_gas b + et_gas_used et;
  so_bloom : rc_logs_bloom rc = logs_bloom (rc_logs rc);
  so_limit : rc_cumulative_gas_used rc ≤ de_gas_limit env;
  so_created : ∀ cd, cd ∈ created → et_success et = true ∧
    ∃ ctx, registry = Some ctx ∧ created_by ctx tx (et_transaction_hash et) cd;
  so_gas' : bs_cumulative_gas b' = rc_cumulative_gas_used rc;
  so_bloom' : bs_block_bloom b' = accrue_bloom (bs_block_bloom b) (logs_bloom (rc_logs rc));
  so_receipts' : bs_receipts b' = bs_receipts b ++ [rc];
  so_encoded' : bs_encoded_receipts b' = bs_encoded_receipts b ++ [encoded];
  so_executed' : bs_executed b' = bs_executed b ++ [et];
  so_created' : bs_created_domains b' = bs_created_domains b ++ created;
}.

Lemma execute_one_ok spec env registry b index envelope b' :
  (∀ ctx, registry = Some ctx → 0 ≤ rc_creation_height ctx) →
  execute_one spec env registry b (index, envelope) = Ok b' →
  ∃ tx rc encoded et created, step_ok env registry b envelope b' tx rc encoded et created.
Proof.
  intros Hh. unfold execute_one, decode_transaction. intros He.
  apply obind_Ok in He as (tx & Hd & He). apply map_err_Ok in Hd.
  destruct (negb _) eqn:Hchain; [done|]. bool_prop.
  apply obind_Ok in He as (sender & Hs & He). apply map_err_Ok in Hs.
  apply obind_Ok in He as (hash & Hhash & He). apply map_err_Ok in Hhash.
  apply obind_Ok in He as ([prepared genesis] & Hprep & He).
  apply obind_Ok in He as ([result state] & Hexec & He). apply map_err_Ok in Hexec.
  apply obind_Ok in He as (gas & Hgas & He). apply checked_cumulative_Ok in Hgas as [Hgas Hlimit].
  apply obind_Ok in He as (encoded & Henc & He). apply map_err_Ok in Henc.
  apply obind_Ok in He as (created & Hc & He). injection He as <-.
  assert (∃ new, created = bs_created_domains b ++ new ∧ ∀ cd, cd ∈ new → ex_success result = true ∧
    ∃ ctx, registry = Some ctx ∧ created_by ctx tx hash cd) as (new & -> & Hnew).
  { destruct (ex_created_domain result) as [descriptor|] eqn:Hcd.
    - destruct (created_domain_origin _ _ _ _ _ _ _ _ _ Hexec Hcd) as (Hsucc & rt & p & Hrt & Hp & ->).
      unfold registry_runtime in Hrt. destruct registry as [ctx|]; [|done]. injection Hrt as <-. cbn in Hp. subst prepared.
      destruct (prepare_registry_inv _ _ _ _ _ _ Hh Hprep) as (ctx' & st & [= <-] & -> & Hcb).
      cbn in Hc. injection Hc as <-. eexists. split; [done|]. intros cd ->%list_elem_of_singleton.
      split; [done|]. by exists ctx.
    - injection Hc as <-. exists []. split; [by rewrite app_nil_r|]. by intros cd ?%elem_of_nil. }
  eexists tx, _, encoded, _, new. split; try done. all: by cbn.
Qed.
End one.

(** ** Batches *)

Lemma enumerate_app {A : Type} (l1 l2 : list A) :
  enumerate (l1 ++ l2) = enumerate l1 ++ imap (λ i a, (Z.of_nat (length l1 + i), a)) l2.
Proof. unfold enumerate. rewrite imap_app. by f_equal. Qed.

Section batches.
Context `{Keccak, AlloyRlp, !AlloyTrie, SenderRecovery, Journal, !Revm, AlloyRoots}.

(** What the loop has after the envelopes of a prefix. *)
Record position_ok (env : DomainEnv) (registry : option ChainRegistryExecutionContext)
    (executed : list ExecutedTransaction) (i : nat) (envelope : bytes) (rc : Receipt)
    (encoded : bytes) (et : ExecutedTransaction) : Prop := {
  pk_transaction : ∃ tx, decode_eip1559 envelope = Ok tx ∧ tx_chain_id tx = de_chain_id env ∧
    recover_eip1559_sender tx = Ok (et_sender et) ∧
    eip1559_transaction_hash tx = Ok (et_transaction_hash et);
  pk_encoded : encode_eip1559_receipt rc = Ok encoded;
  pk_status : rc_status rc = et_success et;
  pk_gas : rc_cumulative_gas_used rc = zsum et_gas_used (take (S i) executed);
  pk_limit : rc_cumulative_gas_used rc ≤ de_gas_limit env;
  pk_bloom : rc_logs_bloom rc = logs_bloom (rc_logs rc);
}.

Definition created_at (registry : option ChainRegistryExecutionContext) (envelopes : list bytes)
    (executed : list ExecutedTransaction) (cd : CreatedDomain) : Prop :=
  ∃ i envelope tx et ctx, envelopes !! i = Some envelope ∧ decode_eip1559 envelope = Ok tx ∧
    executed !! i = Some et ∧ et_success et = true ∧ registry = Some ctx ∧
    created_by ctx tx (et_transaction_hash et) cd.

Record loop_ok (env : DomainEnv) (registry : option ChainRegistryExecutionContext)
    (envelopes : list bytes) (b : batch_state) : Prop := {
  lo_receipts : length (bs_receipts b) = length envelopes;
  lo_encoded : length (bs_encoded_receipts b) = length envelopes;
  lo_executed : length (bs_executed b) = length envelopes;
  lo_positions : ∀ i envelope rc encoded et, envelopes !! i = Some envelope →
    bs_receipts b !! i = Some rc → bs_encoded_receipts b !! i = Some encoded →
    bs_executed b !! i = Some et → position_ok env registry (bs_executed b) i envelope rc encoded et;
  lo_gas : bs_cumulative_gas b = zsum et_gas_used (bs_executed b) ∧
    (bs_cumulative_gas b ≤ de_gas_limit env ∨ envelopes = []);
  lo_created : ∀ cd, cd ∈ bs_created_domains b → created_at registry envelopes (bs_executed b) cd;
}.

Lemma loop_ok_start env registry parent : loop_ok env registry [] (batch_start parent).
Proof. split; try done; [split; [done|by right]|]. by intros cd ?%elem_of_nil. Qed.

Lemma lookup_snoc_inv {A : Type} (l : list A) x i y :
  (l ++ [x]) !! i = Some y → l !! i = Some y ∨ (i = length l ∧ y = x).
Proof.
  intros Hl. apply lookup_app_Some in Hl as [Hl|[Hi Hl]]; [by left|right].
  apply list_lookup_singleton_Some in Hl as [? ->]. split; [lia|done].
Qed.

Lemma created_at_snoc registry envelopes executed e et cd :
  created_at registry envelopes executed cd → created_at registry (envelopes ++ [e]) (executed ++ [et]) cd.
Proof.
  intros (i & envelope & tx & t & ctx & Hi & Hd & Ht & Hrest). exists i, envelope, tx, t, ctx.
  split_and!; [by apply lookup_app_l_Some|done|by apply lookup_app_l_Some|apply Hrest..].
Qed.

Lemma loop_ok_step env registry envelopes b envelope b' tx rc encoded et created :
  loop_ok env registry envelopes b → step_ok env registry b envelope b' tx rc encoded et created →
  loop_ok env registry (envelopes ++ [envelope]) b'.
Proof.
  intros [L1 L2 L3 Hpos [Hgas _] Hcr] [].
  split; rewrite ?so_receipts'0, ?so_encoded'0, ?so_executed'0, ?so_created'0; rewrite ?length_app; cbn; [lia..| | |].
  - intros i env' rc' enc' et' He Hr Hc Ht.
    apply lookup_snoc_inv in He, Hr, Hc, Ht.
    destruct He as [He|[Hi ->]]; [pose proof (lookup_lt_Some _ _ _ He) as Hlt|].
    + destruct Hr as [Hr|[Hi _]], Hc as [Hc|[Hi' _]], Ht as [Ht|[Hi'' _]]; try lia.
      destruct (Hpos _ _ _ _ _ He Hr Hc Ht) as [? ? ? Hg ? ?]. split; [done..| |done|done].
      rewrite Hg, take_app_le by lia. done.
    + destruct Hr as [Hr%lookup_lt_Some|[_ ->]], Hc as [Hc%lookup_lt_Some|[_ ->]],
        Ht as [Ht%lookup_lt_Some|[_ ->]]; try lia.
      split; [by exists tx|done..| |done|done]. rewrite take_ge by (rewrite length_app; cbn; lia).
      rewrite zsum_app, <-Hgas, so_cumulative0. cbn. lia.
  - split; [|left; lia]. rewrite zsum_app, <-Hgas, so_gas'0, so_cumulative0. cbn. lia.
  - intros cd [Hin|Hin]%elem_of_app; [by apply created_at_snoc, Hcr|].
    destruct (so_created0 _ Hin) as (Hs & ctx & Hctx & Hby).
    exists (length envelopes), envelope, tx, et, ctx.
    split_and!; try done; [by rewrite lookup_app_r, Nat.sub_diag|rewrite <-L3; by rewrite lookup_app_r, Nat.sub_diag].
Qed.

Lemma loop_runs spec env registry parent envelopes b :
  (∀ ctx, registry = Some ctx → 0 ≤ rc_creation_height ctx) →
  for_each (execute_one spec env registry) (batch_start parent) (enumerate envelopes) = Ok b →
  loop_ok env registry envelopes b.
Proof.
  intros Hh. revert b. induction envelopes as [|e l IH] using rev_ind; intros b Hb.
  - injection Hb as <-. apply loop_ok_start.
  - rewrite enumerate_app, for_each_app in Hb. apply obind_Ok in Hb as (b0 & Hb0 & Hb).
    cbn in Hb. apply obind_Ok in Hb as (b1 & Hone & [= <-]).
    destruct (execute_one_ok _ _ _ _ _ _ _ Hh Hone) as (tx & rc & enc & et & cr & Hstep).
    eapply loop_ok_step; [by apply IH|exact Hstep].
Qed.
End batches.

(** ** Results *)

Section results.
Context `{Keccak, AlloyRlp, !AlloyTrie, SenderRecovery, Journal, !Revm, AlloyRoots}.

Lemma accrue_logs `{!AlloyRootsLaws} a logs :
  accrue_bloom a (logs_bloom logs) =
    foldl (λ bloom log, accrue_raw_log bloom (log_address log) (log_topics log)) a logs.
Proof.
  induction logs as [|l logs IH] using rev_ind; [apply accrue_zero|].
  unfold logs_bloom in *. rewrite !foldl_app. cbn [foldl]. by rewrite accrue_log, IH.
Qed.

Lemma loop_bloom `{!AlloyRootsLaws} spec env registry parent envelopes b :
  (∀ ctx, registry = Some ctx → 0 ≤ rc_creation_height ctx) →
  for_each (execute_one spec env registry) (batch_start parent) (enumerate envelopes) = Ok b →
  bs_block_bloom b = logs_bloom (concat (rc_logs <$> bs_receipts b)).
Proof.
  intros Hh. revert b. induction envelopes as [|e l IH] using rev_ind; intros b Hb.
  - by injection Hb as <-.
  - rewrite enumerate_app, for_each_app in Hb. apply obind_Ok in Hb as (b0 & Hb0 & Hb).
    cbn in Hb. apply obind_Ok in Hb as (b1 & Hone & [= <-]).
    destruct (execute_one_ok _ _ _ _ _ _ _ Hh Hone) as (tx & rc & enc & et & cr & []).
    rewrite so_bloom'0, so_receipts'0, (IH _ Hb0), fmap_app, concat_app, accrue_logs.
    cbn [fmap list_fmap concat]. rewrite app_nil_r. unfold logs_bloom. by rewrite foldl_app.
Qed.

(** C25. What a batch that executes returns. There is a receipt, its encoding and
    a summary for each envelope, in order; each envelope is a transaction of this
    chain, and the summary has its hash and recovered sender; each receipt's
    cumulative gas is the sum of the gas used up to it, never more than the block
    limit, and the last is the gas of the block; the block's bloom is the bloom of
    all the logs; the roots are those of the envelopes and of the encoded
    receipts; and every created domain comes from a successful transaction of the
    root domain to the registry, carries the descriptor prepared for exactly that
    transaction's hash, value and parent head, and starts from the genesis state
    that descriptor commits to. *)
Theorem batch_result `{!AlloyRootsLaws} spec env parent envelopes registry r :
  (∀ ctx, registry = Some ctx → 0 ≤ rc_creation_height ctx) → 0 ≤ de_gas_limit env →
  execute_batch_with_registry spec env parent envelopes registry = Ok r →
  length (er_receipts r) = length envelopes ∧
  length (er_encoded_receipts r) = length envelopes ∧
  length (er_transactions r) = length envelopes ∧
  (∀ i envelope rc encoded et, envelopes !! i = Some envelope →
    er_receipts r !! i = Some rc → er_encoded_receipts r !! i = Some encoded →
    er_transactions r !! i = Some et →
    position_ok env registry (er_transactions r) i envelope rc encoded et) ∧
  er_gas_used r = zsum et_gas_used (er_transactions r) ∧ er_gas_used r ≤ de_gas_limit env ∧
  er_logs_bloom r = logs_bloom (concat (rc_logs <$> er_receipts r)) ∧
  er_transactions_root r = transactions_root envelopes ∧
  er_receipts_root r = receipts_root (er_encoded_receipts r) ∧
  (∀ cd, cd ∈ er_created_domains r → created_at registry envelopes (er_transactions r) cd).
Proof.
  intros Hh Hlim. unfold execute_batch_with_registry. destruct (_ <? _); [done|]. intros Hr.
  apply obind_Ok in Hr as (b & Hb & [= <-]). cbn.
  destruct (loop_runs _ _ _ _ _ _ Hh Hb) as [L1 L2 L3 Hpos [Hgas Hle] Hcr].
  split_and!; try done; [|by eapply loop_bloom].
  destruct Hle as [Hle| ->]; [done|]. rewrite Hgas. apply length_zero_iff_nil in L3. by rewrite L3.
Qed.

Lemma batch_gas_limit spec env parent envelopes registry r :
  (∀ ctx, registry = Some ctx → 0 ≤ rc_creation_height ctx) → 0 ≤ de_gas_limit env →
  execute_batch_with_registry spec env parent envelopes registry = Ok r →
  er_gas_used r ≤ de_gas_limit env.
Proof.
  intros Hh Hlim. unfold execute_batch_with_registry. destruct (_ <? _); [done|]. intros Hr.
  apply obind_Ok in Hr as (b & Hb & [= <-]). cbn.
  destruct (loop_runs _ _ _ _ _ _ Hh Hb) as [_ _ L3 _ [Hgas [Hle| ->]] _]; [done|].
  rewrite Hgas. apply length_zero_iff_nil in L3. by rewrite L3.
Qed.

(** What later transactions leave of the earlier ones' results. *)
Definition extends (b b' : batch_state) : Prop :=
  bs_receipts b `prefix_of` bs_receipts b' ∧ bs_encoded_receipts b `prefix_of` bs_encoded_receipts b' ∧
  bs_executed b `prefix_of` bs_executed b' ∧ bs_created_domains b `prefix_of` bs_created_domains b'.

Lemma execute_extends spec env registry items b b' :
  (∀ ctx, registry = Some ctx → 0 ≤ rc_creation_height ctx) →
  for_each (execute_one spec env registry) b items = Ok b' → extends b b'.
Proof.
  intros Hh Hf. apply (for_each_inv (extends b) _ _ _ _) in Hf; [done| |by split_and!].
  intros s [i e] s' _ (E1 & E2 & E3 & E4) Hs.
  destruct (execute_one_ok _ _ _ _ _ _ _ Hh Hs) as (tx & rc & enc & et & cr & []).
  unfold extends. rewrite so_receipts'0, so_encoded'0, so_executed'0, so_created'0.
  split_and!; by apply prefix_app_r.
Qed.

(** A batch is executed in order, and what comes later cannot change what came
    before. A batch executes only if each of its prefixes does, and the prefix's
    receipts, encodings, summaries and created domains are the first ones of the
    batch's; and when a prefix is block-invalid, every batch that starts with it
    fails with the same error. *)
Theorem batch_prefix spec env parent l1 l2 registry :
  (∀ ctx, registry = Some ctx → 0 ≤ rc_creation_height ctx) →
  zlen (l1 ++ l2) ≤ MAX_TRANSACTIONS_PER_BATCH →
  (∀ r, execute_batch_with_registry spec env parent (l1 ++ l2) registry = Ok r →
    ∃ r1, execute_batch_with_registry spec env parent l1 registry = Ok r1 ∧
      er_receipts r1 `prefix_of` er_receipts r ∧
      er_encoded_receipts r1 `prefix_of` er_encoded_receipts r ∧
      er_transactions r1 `prefix_of` er_transactions r ∧
      er_created_domains r1 `prefix_of` er_created_domains r) ∧
  (∀ e, execute_batch_with_registry spec env parent l1 registry = Err e →
    execute_batch_with_registry spec env parent (l1 ++ l2) registry = Err e).
Proof.
  intros Hh Hlen. unfold execute_batch_with_registry.
  assert ((MAX_TRANSACTIONS_PER_BATCH <? zlen (l1 ++ l2)) = false) as -> by (apply Z.ltb_ge; lia).
  rewrite zlen_app in Hlen.
  assert ((MAX_TRANSACTIONS_PER_BATCH <? zlen l1) = false) as -> by (apply Z.ltb_ge; unfold zlen in *; lia).
  rewrite enumerate_app, for_each_app.
  destruct (for_each _ _ (enumerate l1)) as [b1|e|m] eqn:H1'; cbn [obind].
  - split; [|done]. intros r Hr. apply obind_Ok in Hr as (b & Hb & [= <-]).
    eexists. split; [done|]. by apply (execute_extends _ _ _ _ _ _ Hh Hb).
  - by split.
  - by split.
Qed.
End results.

Module ExecutorWitness.
#[local] Existing Instance Toy.toy_keccak.
#[local] Existing Instance spec_rlp.
#[local] Existing Instance MptWitness.toy_trie.
#[local] Existing Instance RegistryWitness.toy.

(** A recovery that reads the sender from [r]. *)
#[local] Instance toy_recovery : SenderRecovery := {|
  signature_high_s _ _ _ := false;
  recover_from_prehash r _ _ _ := Some (to_be_bytes 20 (from_be_bytes r));
  recover_length r s p digest a := ltac:(intros [= <-]; apply length_to_be_bytes);
|}.

(** An EVM in which a transaction pays 21000 gas and bumps the nonce of its
    sender, which must exist, and logs its input. *)
Definition toy_transact (db : Database) (tx : TxEnv) : outcome EVMError ExecutionResult :=
  let? account := map_err DatabaseError (basic db (te_caller tx)) in
  let? a := ok_or account (TransactionError "sender does not exist") in
  Ok {| xr_success := true; xr_gas_used := 21000;
        xr_logs := [{| log_address := te_caller tx; log_topics := []; log_data := te_data tx |}];
        xr_output := None; xr_created_address := None;
        xr_state := [(te_caller tx,
          {| ca_touched := true; ca_selfdestructed := false; ca_created := false;
             ca_nonce := ai_nonce a + 1; ca_balance := ai_balance a; ca_code_hash := ai_code_hash a;
             ca_code := None; ca_slots := [] |})] |}.

#[local] Instance toy_revm : Revm := {|
  eth_precompiles _ := {| pre_warm := []; pre_run j _ := Ok (None, j) |};
  bytecode_error _ := None;
  transact db _ _ _ tx := toy_transact db tx;
|}.

(** A bloom whose bits are all set by any log, and the root as the hash of the
    items one after the other. *)
Definition full : bytes := repeat_byte 256 255.

Definition bloom_zero : bytes := repeat_byte 256 0.

#[local] Instance toy_roots : AlloyRoots := {|
  ordered_trie_root_encoded items := keccak256 (concat items);
  BLOOM_ZERO := bloom_zero;
  accrue_raw_log _ _ _ := full;
  accrue_bloom a b := if bool_decide (b = bloom_zero) then a else full;
|}.

#[local] Instance toy_roots_laws : AlloyRootsLaws.
Proof.
  split.
  - intros items. apply keccak256_length.
  - intros a. cbn. by rewrite bool_decide_true.
  - intros a b address topics. cbn. by rewrite bool_decide_false.
Qed.

Definition sender : bytes := to_be_bytes 20 5.

Definition parent : ExecutionState :=
  Eval vm_compute in match from_genesis (owner_genesis sender 1000) with
                     | Ok s => s
                     | _ => EvmWitness.no_state
                     end.

Definition tx (nonce : Z) : Eip1559Transaction :=
  {| tx_chain_id := 7; tx_nonce := nonce; tx_max_priority_fee_per_gas := 2;
     tx_max_fee_per_gas := 100; tx_gas_limit := 21000; tx_to := Some sender;
     tx_value := 0; tx_input := [byte_of 3]; tx_access_list := [];
     tx_y_parity := true; tx_r := 5; tx_s := 9 |}.

Definition envelope (nonce : Z) : bytes :=
  match encode_eip1559 (tx nonce) with Ok b => b | _ => [] end.

Definition envelopes : list bytes := Eval vm_compute in [envelope 0; envelope 1].

Definition env : DomainEnv :=
  {| de_chain_id := 7; de_block_number := 1; de_timestamp := 1000; de_beneficiary := repeat_byte 20 0;
     de_gas_limit := 30000000; de_base_fee_per_gas := 7; de_prevrandao := repeat_byte 32 0 |}.

Definition executed : DomainExecutionResult :=
  Eval vm_compute in
    match execute_batch PROTOCOL_SPEC_V1 env parent envelopes with
    | Ok r => r
    | _ => {| er_state := parent; er_transactions_root := []; er_receipts_root := [];
              er_logs_bloom := []; er_gas_used := 0; er_receipts := []; er_encoded_receipts := [];
              er_transactions := []; er_created_domains := [] |}
    end.

Lemma batch_executed :
  execute_batch_with_registry PROTOCOL_SPEC_V1 env parent envelopes None = Ok executed.
Proof. by_evaluation. Qed.

Lemma batch_result_witness :
  er_gas_used executed = 42000 ∧ length (er_receipts executed) = 2%nat ∧
  er_gas_used executed = zsum et_gas_used (er_transactions executed) ∧
  er_gas_used executed ≤ de_gas_limit env ∧
  er_logs_bloom executed = logs_bloom (concat (rc_logs <$> er_receipts executed)).
Proof.
  destruct (batch_result PROTOCOL_SPEC_V1 env parent envelopes None executed) as (L & _ & _ & _ & Hg & Hl & Hb & _).
  - intros ctx E. discriminate E.
  - by_evaluation.
  - exact batch_executed.
  - split; [by_evaluation|]. split; [exact L|]. split; [exact Hg|]. split; [exact Hl|exact Hb].
Defined.

Lemma batch_prefix_witness :
  ∃ r1, execute_batch_with_registry PROTOCOL_SPEC_V1 env parent (take 1 envelopes) None = Ok r1 ∧
    er_receipts r1 `prefix_of` er_receipts executed.
Proof.
  destruct (batch_prefix PROTOCOL_SPEC_V1 env parent (take 1 envelopes) (drop 1 envelopes) None)
    as [Hok _].
  - intros ctx E. discriminate E.
  - by_evaluation.
  - destruct (Hok executed) as (r1 & Hr1 & Hp & _).
    + rewrite take_drop. exact batch_executed.
    + exists r1. split; [exact Hr1|exact Hp].
Defined.
End ExecutorWitness.
