(* ===== verification/Merkle.v ===== *)
(** The binary Merkle commitment to an ordered collection, which a consensus
    header holds over its batches and over its domain results, and the inclusion
    proof of one result (src/crates/arbor-chain/src/lib.rs, collection_* and
    DomainResultProof). The errors of the crate are declared here.

    Main results: every result of a block has a proof that verifies against the
    block's root, and a proof that verifies against that root is for the result at
    its index of a block with its count, up to an explicit hash collision. *)

From Stdlib Require Import Strings.Byte.
From S2P Require Import Prelude Bytes BTreeMap Primitives Canonical Rlp Crypto Ethereum StateError.
From S2P Require Import DomainHeads Registry Evm Executor.

Local Open Scope Z_scope.

(** ** Errors of the crate *)

Inductive RootField := Batches | Transactions | StateField | Receipts | DomainResults | DomainHeadsField.

#[export] Instance RootField_eq_dec : EqDecision RootField.
Proof. solve_decision. Defined.

Inductive ChainError :=
| InvalidDomainConfig (text : string)
| DuplicateGenesisDomain (id : DomainId)
| DuplicateCreatedDomain (id : DomainId)
| RegistryInvariant (text : string)
| CheckpointError (text : string)
| WrongConsensusParent
| InvalidTimestamp (minimum maximum actual : Z)
| NonCanonicalBatches
| UnknownDomain (id : DomainId)
| WrongDomainParent (id : DomainId)
| ResultAlignment
| WrongDomainNumber (id : DomainId)
| RootMismatch (field : RootField) (domain_id : option DomainId)
| HeaderMismatch
| TooManyBatches (limit actual : Z)
| AggregateGas (limit actual : Z)
| BlockBytes (limit actual : Z)
| ExecutionFailed (domain_id : DomainId) (source : ExecutorError)
| EncodingFailed (why : reason)
| DecodeFailed (text : string)
| InvalidResultProof (text : string).

(** [ChainError::hash], for each kind of error it is given. *)
Definition codec_error (e : CodecError) : ChainError := EncodingFailed (CodecReason e).
Definition crypto_error (e : CryptoError) : ChainError := EncodingFailed (CryptoReason e).
Definition evm_error (e : EvmError) : ChainError := EncodingFailed (EvmReason e).

(** ** The collection *)

Definition MERKLE_ROOT_TAG : bytes := bstr "ARBOR_MERKLE_ROOT_V1".
Definition MERKLE_BRANCH_TAG : bytes := bstr "ARBOR_MERKLE_BRANCH_V1".
Definition MERKLE_EMPTY_TAG : bytes := bstr "ARBOR_MERKLE_EMPTY_V1".
Definition BATCH_LEAF_TAG : bytes := bstr "ARBOR_BATCH_LEAF_V1".
Definition RESULT_LEAF_TAG : bytes := bstr "ARBOR_RESULT_LEAF_V1".

Definition version_byte : byte := byte_of CANONICAL_CODEC_VERSION.

(** The preimages of the hash functions below. *)
Definition collection_leaf_preimage (leaf_tag : bytes) (count index : Z) (value : bytes) : bytes :=
  leaf_tag ++ [version_byte] ++ to_be_bytes 4 count ++ to_be_bytes 4 index ++
  to_be_bytes 4 (zlen value) ++ value.

Definition collection_branch_preimage (leaf_tag : bytes) (depth : Z) (left right : bytes) : bytes :=
  MERKLE_BRANCH_TAG ++ [version_byte] ++ leaf_tag ++ to_be_bytes 2 depth ++ left ++ right.

Definition collection_root_preimage (leaf_tag : bytes) (count : Z) (tree_hash : bytes) : bytes :=
  MERKLE_ROOT_TAG ++ [version_byte] ++ leaf_tag ++ to_be_bytes 4 count ++ tree_hash.

Definition merkle_empty_preimage (leaf_tag : bytes) (depth : Z) : bytes :=
  MERKLE_EMPTY_TAG ++ [version_byte] ++ leaf_tag ++ to_be_bytes 2 depth.

Record DomainResultProof := {
  rp_root : bytes;
  rp_result : DomainBlockHeader;
  rp_index : Z;
  rp_count : Z;
  rp_siblings : list bytes;
}.

Section collection.
Context `{Keccak}.

Definition collection_leaf {E : Type} (leaf_tag : bytes) (count index : Z) (value : bytes)
    : outcome E bytes :=
  let? index := expect (try_from 32 index) "protocol collection index fits u32" in
  run? expect (try_from 32 (zlen value)) "canonical object size fits u32" in
  Ok (keccak256 (collection_leaf_preimage leaf_tag count index value)).

Definition collection_branch (leaf_tag : bytes) (depth : Z) (left right : bytes) : bytes :=
  keccak256 (collection_branch_preimage leaf_tag depth left right).

Definition collection_root (leaf_tag : bytes) (count : Z) (tree_hash : bytes) : bytes :=
  keccak256 (collection_root_preimage leaf_tag count tree_hash).

Definition merkle_empty (leaf_tag : bytes) (depth : Z) : bytes :=
  keccak256 (merkle_empty_preimage leaf_tag depth).

(** One level up: [chunks(2)] with the missing right node empty. *)
Fixpoint next_level (leaf_tag : bytes) (depth : Z) (level : list bytes) : list bytes :=
  match level with
  | [] => []
  | [l] => [collection_branch leaf_tag depth l (merkle_empty leaf_tag depth)]
  | l :: r :: rest => collection_branch leaf_tag depth l r :: next_level leaf_tag depth rest
  end.

(** [while level.len() > 1]; a level has fewer nodes than the one below it. *)
Fixpoint fold_levels {E : Type} (fuel : nat) (leaf_tag : bytes) (depth : Z) (level : list bytes)
    : outcome E (list bytes) :=
  if (length level <=? 1)%nat then Ok level
  else
    match fuel with
    | O => Panic "out of fuel"
    | S fuel' =>
        fold_levels fuel' leaf_tag (saturating_add 16 depth 1) (next_level leaf_tag depth level)
    end.

Definition leaves_of {E : Type} (leaf_tag : bytes) (count : Z) (values : list bytes)
    : outcome E (list bytes) :=
  collect (λ e, collection_leaf leaf_tag count e.1 e.2) (enumerate values).

Definition merkle_collection_root {E : Type} (leaf_tag : bytes) (values : list bytes)
    : outcome E bytes :=
  let? count := expect (try_from 32 (zlen values)) "protocol collection count fits u32" in
  let? level := leaves_of leaf_tag count values in
  let level := if (length level =? 0)%nat then [merkle_empty leaf_tag 0] else level in
  let? top := fold_levels (length level) leaf_tag 0 level in
  let? tree_hash := expect (top !! 0%nat) "index out of bounds" in
  Ok (collection_root leaf_tag count tree_hash).

Definition batches_root (batches : list DomainBatch) : outcome ChainError bytes :=
  let? values := map_err codec_error (collect encode_domain_batch batches) in
  merkle_collection_root BATCH_LEAF_TAG values.

Definition domain_results_root (results : list DomainBlockHeader) : outcome ChainError bytes :=
  let? values := map_err codec_error (collect encode_domain_header results) in
  merkle_collection_root RESULT_LEAF_TAG values.

(** ** Proofs of one result *)

(** The sibling at [cursor]; indexing below an odd cursor is in range when the
    cursor is. *)
Definition sibling {E : Type} (leaf_tag : bytes) (depth cursor : Z) (level : list bytes)
    : outcome E bytes :=
  if cursor mod 2 =? 0
  then Ok (default (merkle_empty leaf_tag depth) (level !! Z.to_nat (cursor + 1)))
  else expect (level !! Z.to_nat (cursor - 1)) "index out of bounds".

Fixpoint proof_levels {E : Type} (fuel : nat) (leaf_tag : bytes) (depth cursor : Z)
    (level siblings : list bytes) : outcome E (list bytes) :=
  if (length level <=? 1)%nat then Ok siblings
  else
    match fuel with
    | O => Panic "out of fuel"
    | S fuel' =>
        let? s := sibling leaf_tag depth cursor level in
        proof_levels fuel' leaf_tag (saturating_add 16 depth 1) (cursor / 2)
          (next_level leaf_tag depth level) (siblings ++ [s])
    end.

(** [position]: the first header of the domain. *)
Fixpoint result_position (domain_id : DomainId) (results : list DomainBlockHeader) (index : Z)
    : option (Z * DomainBlockHeader) :=
  match results with
  | [] => None
  | header :: rest =>
      if bool_decide (dh_domain_id header = domain_id) then Some (index, header)
      else result_position domain_id rest (index + 1)
  end.

(** [ConsensusBlock::domain_result_proof], of the header's root and the blocks. *)
Definition domain_result_proof (domain_results_root : bytes) (domain_blocks : list DomainBlockHeader)
    (domain_id : DomainId) : outcome ChainError (option DomainResultProof) :=
  match result_position domain_id domain_blocks 0 with
  | None => Ok None
  | Some (index, result) =>
      let? values := map_err codec_error (collect encode_domain_header domain_blocks) in
      let? count :=
        ok_or (try_from 32 (zlen values)) (EncodingFailed (TextReason "domain result count")) in
      let? level := leaves_of RESULT_LEAF_TAG count values in
      let? siblings := proof_levels (length level) RESULT_LEAF_TAG 0 index level [] in
      let? index :=
        ok_or (try_from 32 index) (EncodingFailed (TextReason "domain result index")) in
      Ok (Some {| rp_root := domain_results_root; rp_result := result; rp_index := index;
                  rp_count := count; rp_siblings := siblings |})
  end.

(** [while width > 1] of [verify]: a [u32] has at most 32 levels. *)
Fixpoint expected_levels {E : Type} (fuel : nat) (width : Z) : outcome E Z :=
  if width <=? 1 then Ok 0
  else
    match fuel with
    | O => Panic "out of fuel"
    | S fuel' => let? n := expected_levels fuel' (div_ceil width 2) in Ok (n + 1)
    end.

Definition climb_one (leaf_tag : bytes) (st : bytes * Z) (item : Z * bytes) : outcome ChainError (bytes * Z) :=
  let '(hash, cursor) := st in
  let? depth := ok_or (try_from 16 item.1) (InvalidResultProof "depth overflow") in
  let hash :=
    if cursor mod 2 =? 0 then collection_branch leaf_tag depth hash item.2
    else collection_branch leaf_tag depth item.2 hash in
  Ok (hash, cursor / 2).

Definition verify_result (p : DomainResultProof) : outcome ChainError unit :=
  if (rp_count p =? 0) || (rp_count p <=? rp_index p) then Err (InvalidResultProof "index/count")
  else
    let? levels := expected_levels 32 (rp_count p) in
    if negb (zlen (rp_siblings p) =? levels) then Err (InvalidResultProof "depth")
    else
      let? encoded := map_err codec_error (encode_domain_header (rp_result p)) in
      let? hash := collection_leaf RESULT_LEAF_TAG (rp_count p) (rp_index p) encoded in
      let? '(hash, cursor) :=
        for_each (climb_one RESULT_LEAF_TAG) (hash, rp_index p) (enumerate (rp_siblings p)) in
      if negb (bool_decide (collection_root RESULT_LEAF_TAG (rp_count p) hash = rp_root p))
      then Err (InvalidResultProof "root mismatch")
      else Ok tt.
End collection.

(** ** Levels *)

Lemma list_pair_ind {A : Type} (P : list A → Prop) :
  P [] → (∀ a, P [a]) → (∀ a b l, P l → P (a :: b :: l)) → ∀ l, P l.
Proof.
  intros P0 P1 P2 l. enough (P l ∧ ∀ a, P (a :: l)) by tauto.
  induction l as [|x l [IH1 IH2]]; auto.
Qed.

Lemma index_half (n : nat) : (Z.of_nat n + 2 - 1) / 2 = Z.of_nat (Nat.div2 (S n)).
Proof. rewrite Nat.div2_div, Nat2Z.inj_div. f_equal. lia. Qed.

Section levels.
Context `{Keccak}.
Variable tag : bytes.

Lemma next_level_length depth level :
  length (next_level tag depth level) = Nat.div2 (S (length level)).
Proof.
  induction level as [| |l r level IH] using list_pair_ind; [done..|]. cbn [next_level length]. rewrite IH. done.
Qed.

Lemma next_level_lookup depth level k l :
  level !! (2 * k)%nat = Some l →
  next_level tag depth level !! k =
    Some (collection_branch tag depth l (default (merkle_empty tag depth) (level !! (2 * k + 1)%nat))).
Proof.
  revert k. induction level as [|a|a b level IH] using list_pair_ind; intros k Hl.
  - done.
  - destruct k as [|k]; [by injection Hl as <-|]. apply lookup_lt_Some in Hl. cbn in Hl. lia.
  - destruct k as [|k]; [by injection Hl as <-|].
    replace (2 * S k)%nat with (S (S (2 * k))) in Hl by lia.
    replace (2 * S k + 1)%nat with (S (S (2 * k + 1))) by lia. cbn [lookup list_lookup next_level] in Hl |- *.
    by apply IH.
Qed.

Lemma next_level_nil depth level : level ≠ [] → next_level tag depth level ≠ [].
Proof. by destruct level as [|a [|b level]]. Qed.

Lemma next_level_b256 depth level : Forall is_b256 (next_level tag depth level).
Proof.
  induction level as [| |l r level IH] using list_pair_ind; cbn [next_level];
    repeat constructor; try apply keccak256_length. done.
Qed.

Lemma step_depth k : (k < 40)%nat → saturating_add 16 (Z.of_nat k) 1 = Z.of_nat (S k).
Proof. intros Hk. unfold saturating_add, umax. change (2 ^ 16) with 65536. lia. Qed.

(** How many levels a width has. *)
Lemma expected_levels_step {E : Type} fuel w n :
  1 < w → expected_levels (E:=E) fuel w = Ok n →
  ∃ fuel', fuel = S fuel' ∧ expected_levels (E:=E) fuel' (div_ceil w 2) = Ok (n - 1).
Proof.
  intros Hw He. destruct fuel as [|fuel]; cbn [expected_levels] in He;
    rewrite (proj2 (Z.leb_gt w 1)) in He by lia; [done|].
  apply obind_Ok in He as (n' & Hn & [= <-]). exists fuel. split; [done|]. rewrite Hn. f_equal. lia.
Qed.

Lemma expected_levels_ok {E : Type} m fuel w :
  (m <= fuel)%nat → w ≤ 2 ^ Z.of_nat m →
  ∃ n, expected_levels (E:=E) fuel w = Ok n ∧ 0 ≤ n ≤ Z.of_nat m.
Proof.
  revert fuel w. induction m as [|m IH]; intros fuel w Hf Hw.
  - exists 0. destruct fuel; cbn [expected_levels]; rewrite (proj2 (Z.leb_le w 1)) by lia; (split; [done|lia]).
  - destruct (Z.leb_spec w 1) as [Hle|Hgt].
    { exists 0. destruct fuel; cbn [expected_levels]; rewrite (proj2 (Z.leb_le w 1)) by lia; (split; [done|lia]). }
    destruct fuel as [|fuel]; [lia|]. cbn [expected_levels]. rewrite (proj2 (Z.leb_gt w 1)) by lia.
    destruct (IH fuel (div_ceil w 2)) as (n & -> & Hn); [lia| |].
    + unfold div_ceil. rewrite Nat2Z.inj_succ, Z.pow_succ_r in Hw by lia.
      enough ((w + 2 - 1) / 2 < 2 ^ Z.of_nat m + 1) by lia. apply Z.div_lt_upper_bound; lia.
    + exists (n + 1). split; [done|lia].
Qed.

Lemma expected_levels_nonneg {E : Type} fuel w n :
  expected_levels (E:=E) fuel w = Ok n → 0 ≤ n ∧ (0 < n ↔ 1 < w).
Proof.
  revert w n. induction fuel as [|fuel IH]; intros w n He; cbn [expected_levels] in He;
    destruct (Z.leb_spec w 1); try (injection He as <-; lia); [done|].
  apply obind_Ok in He as (n' & Hn & [= <-]). apply IH in Hn. lia.
Qed.

Lemma width_step level depth :
  div_ceil (zlen level) 2 = zlen (next_level tag depth level).
Proof. unfold zlen, div_ceil. by rewrite next_level_length, index_half. Qed.

(** The siblings with their depths, from depth [k] on. *)
Definition at_depths (k : nat) (path : list bytes) : list (Z * bytes) :=
  imap (λ i s, (Z.of_nat (k + i), s)) path.

Lemma at_depths_cons k s path : at_depths k (s :: path) = (Z.of_nat k, s) :: at_depths (S k) path.
Proof.
  unfold at_depths. cbn [imap]. f_equal; [by rewrite Nat.add_0_r|]. apply imap_ext. intros i x _.
  unfold compose. by rewrite <-Nat.add_succ_comm.
Qed.

Lemma enumerate_depths path : enumerate path = at_depths 0 path.
Proof. done. Qed.

(** The node at half the cursor is the branch over the cursor and its sibling. *)
Lemma sibling_branch {E : Type} depth cursor level node :
  0 ≤ cursor → level !! Z.to_nat cursor = Some node →
  ∃ s, sibling (E:=E) tag depth cursor level = Ok s ∧
    next_level tag depth level !! Z.to_nat (cursor / 2) =
      Some (if cursor mod 2 =? 0 then collection_branch tag depth node s
            else collection_branch tag depth s node).
Proof.
  intros Hc Hn. unfold sibling. pose proof (Z.div_mod cursor 2 ltac:(lia)) as Hdm.
  pose proof (Z.mod_pos_bound cursor 2 ltac:(lia)) as Hb. destruct (Z.eqb_spec (cursor mod 2) 0) as [E0|E1].
  - eexists. split; [done|]. replace (Z.to_nat (cursor + 1)) with (2 * Z.to_nat (cursor / 2) + 1)%nat by lia.
    apply next_level_lookup. by replace (2 * Z.to_nat (cursor / 2))%nat with (Z.to_nat cursor) by lia.
  - destruct (lookup_lt_is_Some_2 level (2 * Z.to_nat (cursor / 2))%nat) as [l Hl].
    { apply lookup_lt_Some in Hn. lia. }
    exists l. replace (Z.to_nat (cursor - 1)) with (2 * Z.to_nat (cursor / 2))%nat by lia.
    rewrite Hl. split; [done|]. rewrite (next_level_lookup _ _ _ _ Hl).
    replace (2 * Z.to_nat (cursor / 2) + 1)%nat with (Z.to_nat cursor) by lia. by rewrite Hn.
Qed.

Lemma climb_one_ok st k s :
  (k < 40)%nat →
  climb_one tag st (Z.of_nat k, s) =
    Ok (if st.2 mod 2 =? 0 then collection_branch tag (Z.of_nat k) st.1 s
        else collection_branch tag (Z.of_nat k) s st.1, st.2 / 2).
Proof.
  intros Hk. destruct st as [hash cursor]. unfold climb_one. cbn [fst snd].
  rewrite (proj2 (try_from_Some 16 (Z.of_nat k) (Z.of_nat k))); [done|].
  split; [done|]. unfold fits. change (2 ^ 16) with 65536. lia.
Qed.

Lemma small_level (level : list bytes) m :
  (1 < length level)%nat → zlen level ≤ 2 ^ Z.of_nat m →
  ∃ m', m = S m' ∧ ∀ depth, zlen (next_level tag depth level) ≤ 2 ^ Z.of_nat m'.
Proof.
  intros Hl Hm. destruct m as [|m']; [unfold zlen in Hm; cbn in Hm; lia|]. exists m'. split; [done|].
  intros depth. rewrite <-width_step. unfold div_ceil. rewrite Nat2Z.inj_succ, Z.pow_succ_r in Hm by lia.
  enough ((zlen level + 2 - 1) / 2 < 2 ^ Z.of_nat m' + 1) by lia. apply Z.div_lt_upper_bound; lia.
Qed.

(** Folding the levels ends at one node, and the siblings collected on the way
    climb to it. *)
Lemma proof_climbs {E : Type} m :
  ∀ fuel fuel_e k cursor level node siblings,
  zlen level ≤ 2 ^ Z.of_nat m → (k + m < 40)%nat → (m <= fuel_e)%nat →
  (length level <= S fuel)%nat → 0 ≤ cursor → level !! Z.to_nat cursor = Some node →
  ∃ path top c, proof_levels (E:=E) fuel tag (Z.of_nat k) cursor level siblings = Ok (siblings ++ path) ∧
    fold_levels (E:=E) fuel tag (Z.of_nat k) level = Ok [top] ∧
    expected_levels (E:=E) fuel_e (zlen level) = Ok (zlen path) ∧
    for_each (climb_one tag) (node, cursor) (at_depths k path) = Ok (top, c).
Proof.
  induction m as [m IH] using lt_wf_ind. intros fuel fuel_e k cursor level node siblings Hm Hk Hfe Hf Hc Hn.
  pose proof (lookup_lt_Some _ _ _ Hn) as Hlt.
  destruct (Nat.leb_spec (length level) 1) as [Hle|Hgt].
  - assert (level = [node] ∧ Z.to_nat cursor = O) as [-> Hz].
    { destruct level as [|a [|b level]]; cbn in *; [lia| |lia]. split; [|lia].
      replace (Z.to_nat cursor) with O in Hn by lia. by injection Hn as ->. }
    exists [], node, cursor. rewrite app_nil_r.
    split_and!; [by destruct fuel|by destruct fuel|by destruct fuel_e|done].
  - destruct (small_level level m Hgt Hm) as (m' & -> & Hm').
    destruct fuel as [|fuel]; [lia|]. destruct fuel_e as [|fuel_e]; [lia|].
    destruct (sibling_branch (E:=E) (Z.of_nat k) cursor level node Hc Hn) as (s & Hs & Hnext).
    assert (0 ≤ cursor / 2) as Hc2 by (apply Z.div_pos; lia).
    assert (length (next_level tag (Z.of_nat k) level) <= S fuel)%nat as Hshort.
    { rewrite next_level_length, Nat.div2_div. pose proof (Nat.Div0.div_lt_upper_bound (S (length level)) 2 (S (S fuel))). lia. }
    destruct (IH m' ltac:(lia) fuel fuel_e (S k) (cursor / 2) _ _ (siblings ++ [s]) (Hm' _) ltac:(lia) ltac:(lia)
      Hshort Hc2 Hnext) as (path & top & c & Hp & Hfold & He & Hclimb).
    exists (s :: path), top, c. cbn [proof_levels fold_levels expected_levels].
    rewrite (proj2 (Nat.leb_gt _ _)) by lia. rewrite (proj2 (Z.leb_gt _ _)) by (unfold zlen; lia).
    rewrite Hs, width_step with (depth := Z.of_nat k), He. cbn [obind]. rewrite step_depth, Hp, Hfold by lia.
    split_and!; [by rewrite <-app_assoc|done|by rewrite zlen_cons, Z.add_comm|].
    rewrite at_depths_cons. cbn [for_each]. rewrite climb_one_ok by lia. by rewrite <-Hclimb.
Qed.

(** ** What is hashed *)

Fixpoint level_preimages (depth : Z) (level : list bytes) : list bytes :=
  match level with
  | [] => []
  | [l] => [collection_branch_preimage tag depth l (merkle_empty tag depth)]
  | l :: r :: rest => collection_branch_preimage tag depth l r :: level_preimages depth rest
  end.

Fixpoint tree_preimages (fuel : nat) (depth : Z) (level : list bytes) : list bytes :=
  if (length level <=? 1)%nat then []
  else
    match fuel with
    | O => []
    | S fuel' =>
        level_preimages depth level ++
        tree_preimages fuel' (saturating_add 16 depth 1) (next_level tag depth level)
    end.

Fixpoint climb_preimages (depth cursor : Z) (hash : bytes) (path : list bytes) : list bytes :=
  match path with
  | [] => []
  | s :: path' =>
      let preimage :=
        if cursor mod 2 =? 0 then collection_branch_preimage tag depth hash s
        else collection_branch_preimage tag depth s hash in
      preimage :: climb_preimages (depth + 1) (cursor / 2) (keccak256 preimage) path'
  end.

Lemma level_preimages_in depth level k l :
  level !! (2 * k)%nat = Some l →
  collection_branch_preimage tag depth l (default (merkle_empty tag depth) (level !! (2 * k + 1)%nat))
    ∈ level_preimages depth level.
Proof.
  revert k. induction level as [|a|a b level IH] using list_pair_ind; intros k Hl.
  - done.
  - destruct k as [|k]; [injection Hl as <-; by left|]. apply lookup_lt_Some in Hl. cbn in Hl. lia.
  - destruct k as [|k]; [injection Hl as <-; by left|].
    replace (2 * S k)%nat with (S (S (2 * k))) in Hl by lia.
    replace (2 * S k + 1)%nat with (S (S (2 * k + 1))) by lia. cbn [lookup list_lookup level_preimages] in Hl |- *.
    right. by apply IH.
Qed.

Lemma collection_branch_inj depth l r l' r' :
  is_b256 l → is_b256 l' →
  collection_branch_preimage tag depth l r = collection_branch_preimage tag depth l' r' → l = l' ∧ r = r'.
Proof.
  unfold collection_branch_preimage. intros Hl Hl' E. do 4 apply app_inv_head in E.
  apply app_inj_1 in E; [done|]. unfold is_b256 in *. congruence.
Qed.

Lemma half_cursor (level : list bytes) cursor :
  0 ≤ cursor < zlen level →
  ∃ l, level !! (2 * Z.to_nat (cursor / 2))%nat = Some l ∧ 0 ≤ cursor / 2 < div_ceil (zlen level) 2.
Proof.
  intros Hc. pose proof (Z.div_mod cursor 2 ltac:(lia)) as Hdm.
  pose proof (Z.mod_pos_bound cursor 2 ltac:(lia)) as Hb. unfold zlen in Hc.
  destruct (lookup_lt_is_Some_2 level (2 * Z.to_nat (cursor / 2))%nat) as [l Hl]; [lia|].
  exists l. split; [done|]. unfold div_ceil, zlen. split; [lia|].
  pose proof (Z.div_mod (Z.of_nat (length level) + 2 - 1) 2 ltac:(lia)).
  pose proof (Z.mod_pos_bound (Z.of_nat (length level) + 2 - 1) 2 ltac:(lia)). lia.
Qed.

Lemma pre_node level cursor hash s l depth :
  0 ≤ cursor < zlen level → Forall is_b256 level → is_b256 hash → is_b256 s →
  level !! (2 * Z.to_nat (cursor / 2))%nat = Some l →
  (if cursor mod 2 =? 0 then collection_branch_preimage tag depth hash s
   else collection_branch_preimage tag depth s hash) =
  collection_branch_preimage tag depth l
    (default (merkle_empty tag depth) (level !! (2 * Z.to_nat (cursor / 2) + 1)%nat)) →
  level !! Z.to_nat cursor = Some hash.
Proof.
  intros Hc Hlv Hh Hs Hl Eq. rewrite list.Forall_forall in Hlv.
  assert (is_b256 l) as Hlb by (by eapply Hlv, list_elem_of_lookup_2).
  pose proof (Z.div_mod cursor 2 ltac:(lia)) as Hdm.
  pose proof (Z.mod_pos_bound cursor 2 ltac:(lia)) as Hb. destruct (Z.eqb_spec (cursor mod 2) 0) as [E0|E1].
  - apply collection_branch_inj in Eq as [-> _]; [|done..]. rewrite <-Hl. f_equal. lia.
  - apply collection_branch_inj in Eq as [_ Eq]; [|done..].
    replace (2 * Z.to_nat (cursor / 2) + 1)%nat with (Z.to_nat cursor) in Eq by lia.
    destruct (lookup_lt_is_Some_2 level (Z.to_nat cursor)) as [x Hx]; [unfold zlen in Hc; lia|].
    rewrite Hx in Eq |- *. by rewrite Eq.
Qed.

Lemma collides_mono l1 l2 l1' l2' : l1 ⊆ l1' → l2 ⊆ l2' → collides l1 l2 → collides l1' l2'.
Proof. intros S1 S2 (x & y & Hx & Hy & Hne & E). exists x, y. auto. Qed.

(** A path of the right length that climbs to the top of a tree starts from the
    node at its cursor. *)
Lemma climb_sound path :
  ∀ fuel fuel_e k cursor level hash top c,
  (k + length path < 40)%nat → 0 ≤ cursor < zlen level →
  Forall is_b256 level → Forall is_b256 path → is_b256 hash →
  expected_levels (E:=ChainError) fuel_e (zlen level) = Ok (zlen path) →
  fold_levels (E:=ChainError) fuel tag (Z.of_nat k) level = Ok [top] →
  for_each (climb_one tag) (hash, cursor) (at_depths k path) = Ok (top, c) →
  level !! Z.to_nat cursor = Some hash ∨
  collides (climb_preimages (Z.of_nat k) cursor hash path) (tree_preimages fuel (Z.of_nat k) level).
Proof.
  induction path as [|s path IH]; intros fuel fuel_e k cursor level hash top c Hk Hc Hlv Hp Hh He Hf Hr.
  - left. cbn in Hr. injection Hr as -> _.
    apply expected_levels_nonneg in He as [_ He]. unfold zlen in He, Hc. cbn in He.
    destruct level as [|a [|b level]]; cbn in He, Hc; [lia| |lia].
    replace (Z.to_nat cursor) with O by lia. destruct fuel; by injection Hf as ->.
  - pose proof He as [_ Hw]%expected_levels_nonneg. rewrite zlen_cons in Hw.
    assert (1 < zlen level) as Hgt by (unfold zlen in *; lia). clear Hw.
    apply expected_levels_step in He as (fe & -> & He); [|done].
    rewrite (width_step level (Z.of_nat k)), zlen_cons in He.
    replace (1 + zlen path - 1) with (zlen path) in He by lia.
    destruct fuel as [|fuel]; cbn [fold_levels tree_preimages] in Hf |- *;
      rewrite (proj2 (Nat.leb_gt (length level) 1)) in Hf |- * by (unfold zlen in Hgt; lia); [done|].
    cbn [length] in Hk. rewrite step_depth in Hf |- * by lia.
    rewrite at_depths_cons in Hr. cbn [for_each] in Hr. rewrite climb_one_ok in Hr by lia. cbn [obind fst snd] in Hr.
    inversion_clear Hp as [|? ? Hs Hp']. cbn [climb_preimages].
    set (pre := if cursor mod 2 =? 0 then collection_branch_preimage tag (Z.of_nat k) hash s
                else collection_branch_preimage tag (Z.of_nat k) s hash).
    assert ((if cursor mod 2 =? 0 then collection_branch tag (Z.of_nat k) hash s
             else collection_branch tag (Z.of_nat k) s hash) = keccak256 pre) as Epre
      by (unfold pre; by destruct (cursor mod 2 =? 0)).
    rewrite Epre in Hr. destruct (half_cursor level cursor Hc) as (l & Hl & Hc2).
    rewrite (width_step level (Z.of_nat k)) in Hc2.
    destruct (IH fuel fe (S k) (cursor / 2) (next_level tag (Z.of_nat k) level) (keccak256 pre) top c)
      as [Hn|Hcol]; try done; [lia|apply next_level_b256|apply keccak256_length| |].
    + rewrite (next_level_lookup _ _ _ _ Hl) in Hn. injection Hn as Hn. unfold collection_branch in Hn.
      apply level_preimages_in with (depth := Z.of_nat k) in Hl as Hin.
      match type of Hn with keccak256 ?x = _ => destruct (decide (pre = x)) as [Eq|Ne] end.
      * left. by apply (pre_node level cursor hash s l (Z.of_nat k)).
      * right. exists pre. eexists. split; [by left|]. split; [apply elem_of_app; left; exact Hin|done].
    + right. apply (collides_mono (climb_preimages (Z.of_nat (S k)) (cursor / 2) (keccak256 pre) path)
        (tree_preimages fuel (Z.of_nat (S k)) (next_level tag (Z.of_nat k) level))); [| |done].
      * intros x Hx. right. by replace (Z.of_nat k + 1) with (Z.of_nat (S k)) by lia.
      * intros x Hx. apply elem_of_app. by right.
Qed.
End levels.

(** ** Results *)

Section results.
Context `{Keccak}.

Lemma collection_leaf_Ok {E : Type} tag count index value h :
  collection_leaf (E:=E) tag count index value = Ok h ↔
    u32 index ∧ u32 (zlen value) ∧ h = keccak256 (collection_leaf_preimage tag count index value).
Proof.
  unfold collection_leaf. split.
  - intros Hh. ok_inv. apply try_from_Some in Hok as [-> Hi], Hok0 as [_ Hv]. done.
  - intros (Hi & Hv & ->). by rewrite (proj2 (try_from_Some 32 index index)), (proj2 (try_from_Some 32 (zlen value) (zlen value))).
Qed.

Lemma collection_leaf_inj tag count index value count' index' value' :
  u32 count → u32 count' → u32 index → u32 index' → u32 (zlen value) → u32 (zlen value') →
  collection_leaf_preimage tag count index value = collection_leaf_preimage tag count' index' value' →
  value = value'.
Proof.
  unfold collection_leaf_preimage. intros Hc Hc' Hi Hi' Hv Hv' E. do 2 apply app_inv_head in E.
  repeat (apply app_inj_1 in E as [_ E]; [|by rewrite !length_to_be_bytes]). done.
Qed.

Lemma collection_root_inj tag count count' h h' :
  u32 count → u32 count' →
  collection_root_preimage tag count h = collection_root_preimage tag count' h' → count = count' ∧ h = h'.
Proof.
  unfold collection_root_preimage. intros Hc Hc' E. do 3 apply app_inv_head in E.
  apply app_inj_1 in E as [E ->]; [|by rewrite !length_to_be_bytes]. split; [|done]. by apply (to_be_bytes_inj 4).
Qed.

(** The leaves, by position. *)
Lemma leaves_of_lookup {E : Type} tag count values level i :
  leaves_of (E:=E) tag count values = Ok level →
  length level = length values ∧ Forall is_b256 level ∧
  (∀ h, level !! i = Some h → ∃ value, values !! i = Some value ∧ u32 (Z.of_nat i) ∧ u32 (zlen value) ∧
    h = keccak256 (collection_leaf_preimage tag count (Z.of_nat i) value)).
Proof.
  intros Hl%collect_Ok.
  assert (∀ j h, level !! j = Some h → ∃ value, values !! j = Some value ∧ u32 (Z.of_nat j) ∧ u32 (zlen value) ∧
    h = keccak256 (collection_leaf_preimage tag count (Z.of_nat j) value)) as Hat.
  { intros j h Hj. destruct (Forall2_lookup_r _ _ _ _ _ Hl Hj) as ([n value] & He & Hleaf).
    unfold enumerate in He. rewrite list_lookup_imap in He. destruct (values !! j) as [v|] eqn:Hv; [|done].
    cbn in He. injection He as <- <-. apply collection_leaf_Ok in Hleaf. by exists v. }
  split_and!; [| |apply Hat].
  - apply Forall2_length in Hl. unfold enumerate in Hl. by rewrite length_imap in Hl.
  - apply list.Forall_forall. intros h Hh. apply list_elem_of_lookup in Hh as [j Hj].
    apply Hat in Hj as (v & _ & _ & _ & ->). apply keccak256_length.
Qed.

Lemma leaves_of_some {E : Type} tag count values level i value :
  leaves_of (E:=E) tag count values = Ok level → values !! i = Some value →
  ∃ h, level !! i = Some h ∧ collection_leaf (E:=ChainError) tag count (Z.of_nat i) value = Ok h.
Proof.
  intros Hl Hv. destruct (leaves_of_lookup _ _ _ _ i Hl) as (Hlen & _ & Hat).
  destruct (lookup_lt_is_Some_2 level i) as [h Hh]; [rewrite Hlen; by eapply lookup_lt_Some|].
  exists h. split; [done|]. destruct (Hat h Hh) as (v & Hv' & Hi & Hz & ->). rewrite Hv in Hv'. injection Hv' as <-.
  by apply collection_leaf_Ok.
Qed.

Lemma result_position_spec id blocks n :
  0 ≤ n →
  match result_position id blocks n with
  | Some (i, b) => n ≤ i ∧ blocks !! Z.to_nat (i - n) = Some b ∧ dh_domain_id b = id
  | None => ∀ b, b ∈ blocks → dh_domain_id b ≠ id
  end.
Proof.
  revert n. induction blocks as [|b blocks IH]; intros n Hn; cbn [result_position].
  - by intros b ?%elem_of_nil.
  - case_bool_decide as Hb; [by rewrite Z.sub_diag|].
    specialize (IH (n + 1) ltac:(lia)). destruct (result_position id blocks (n + 1)) as [[i b']|].
    + destruct IH as (Hi & Hl & Hd). split; [lia|]. split; [|done].
      replace (Z.to_nat (i - n)) with (S (Z.to_nat (i - (n + 1)))) by lia. done.
    + intros b' [->|Hin]%elem_of_cons; [done|by apply IH].
Qed.

(** The parts of a results root. *)
Lemma results_root_inv results root :
  domain_results_root results = Ok root →
  ∃ values level top, collect encode_domain_header results = Ok values ∧ u32 (zlen values) ∧
    leaves_of (E:=ChainError) RESULT_LEAF_TAG (zlen values) values = Ok level ∧
    let level' := if (length level =? 0)%nat then [merkle_empty RESULT_LEAF_TAG 0] else level in
    fold_levels (E:=ChainError) (length level') RESULT_LEAF_TAG 0 level' = Ok [top] ∧
    root = collection_root RESULT_LEAF_TAG (zlen values) top.
Proof.
  unfold domain_results_root, merkle_collection_root. intros Hr.
  apply obind_Ok in Hr as (values & Hv & Hr). apply map_err_Ok in Hv.
  apply obind_Ok in Hr as (count & Hc & Hr). apply expect_Ok, try_from_Some in Hc as [-> Hc].
  apply obind_Ok in Hr as (level & Hl & Hr). apply obind_Ok in Hr as (tops & Hf & Hr).
  apply obind_Ok in Hr as (top & Ht & [= <-]). apply expect_Ok in Ht.
  exists values, level, top. do 3 (split; [done|]). cbv zeta. split; [|done].
  set (level' := if (length level =? 0)%nat then [merkle_empty RESULT_LEAF_TAG 0] else level) in *.
  assert (zlen level' ≤ 2 ^ Z.of_nat 32) as Hm.
  { destruct (leaves_of_lookup _ _ _ _ 0 Hl) as (Hlen & _). unfold level'.
    destruct (_ =? _)%nat; [unfold zlen; cbn; lia|]. unfold zlen, fits in *. rewrite Hlen. cbn in *. lia. }
  destruct (level' !! 0%nat) as [node|] eqn:Hn.
  - destruct (proof_climbs (E:=ChainError) RESULT_LEAF_TAG 32 (length level') 32 0 0 level' node [])
      as (path & top' & c & _ & Hf' & _); [done|lia|lia|lia|lia|done|].
    change (Z.of_nat 0) with 0 in Hf'. rewrite Hf in Hf'. injection Hf' as ->. by injection Ht as ->.
  - exfalso. unfold level' in Hn. destruct level; cbn in Hn; done.
Qed.

(** Everything the verification of a proof hashes. *)
Definition result_proof_preimages (p : DomainResultProof) : list bytes :=
  match encode_domain_header (rp_result p) with
  | Ok encoded =>
      let leaf := collection_leaf_preimage RESULT_LEAF_TAG (rp_count p) (rp_index p) encoded in
      leaf :: climb_preimages RESULT_LEAF_TAG 0 (rp_index p) (keccak256 leaf) (rp_siblings p) ++
      match for_each (climb_one RESULT_LEAF_TAG) (keccak256 leaf, rp_index p)
              (enumerate (rp_siblings p)) with
      | Ok (top, _) => [collection_root_preimage RESULT_LEAF_TAG (rp_count p) top]
      | _ => []
      end
  | _ => []
  end.

(** Everything a results root hashes. *)
Definition results_preimages (results : list DomainBlockHeader) : list bytes :=
  match collect encode_domain_header results with
  | Ok values =>
      imap (λ i value, collection_leaf_preimage RESULT_LEAF_TAG (zlen values) (Z.of_nat i) value) values ++
      match leaves_of (E:=ChainError) RESULT_LEAF_TAG (zlen values) values with
      | Ok level =>
          let level := if (length level =? 0)%nat then [merkle_empty RESULT_LEAF_TAG 0] else level in
          tree_preimages RESULT_LEAF_TAG (length level) 0 level ++
          match fold_levels (E:=ChainError) (length level) RESULT_LEAF_TAG 0 level with
          | Ok [top] => [collection_root_preimage RESULT_LEAF_TAG (zlen values) top]
          | _ => []
          end
      | _ => []
      end
  | _ => []
  end.

Lemma result_proof_complete blocks root id :
  domain_results_root blocks = Ok root → (∃ b, b ∈ blocks ∧ dh_domain_id b = id) →
  ∃ p, domain_result_proof root blocks id = Ok (Some p) ∧ rp_root p = root ∧
    dh_domain_id (rp_result p) = id ∧ blocks !! Z.to_nat (rp_index p) = Some (rp_result p) ∧
    rp_count p = zlen blocks ∧ verify_result p = Ok tt.
Proof.
  intros Hroot (b & Hb & Hid).
  destruct (results_root_inv _ _ Hroot) as (values & level & top & Hv & Hc & Hl & Hfold).
  pose proof (collect_length _ _ _ Hv) as Hlen. unfold domain_result_proof.
  pose proof (result_position_spec id blocks 0 ltac:(lia)) as Hpos.
  destruct (result_position id blocks 0) as [[i r]|]; [|by destruct (Hpos b Hb)].
  destruct Hpos as (Hi & Hr & Hd). rewrite Z.sub_0_r in Hr.
  rewrite Hv. cbn [map_err obind]. rewrite (proj2 (try_from_Some 32 (zlen values) _) (conj eq_refl Hc)).
  cbn [ok_or obind]. rewrite Hl. cbn [obind].
  apply collect_Ok in Hv as Hv'. destruct (Forall2_lookup_l _ _ _ _ _ Hv' Hr) as (value & Hval & Henc).
  destruct (leaves_of_some _ _ _ _ _ _ Hl Hval) as (leaf & Hleaf & Hcl).
  destruct (leaves_of_lookup _ _ _ _ 0 Hl) as (Hll & _).
  destruct (proof_climbs (E:=ChainError) RESULT_LEAF_TAG 32 (length level) 32 0 i level leaf [])
    as (path & top' & c & Hp & Hf & He & Hclimb); [|lia|lia|lia|done|done|].
  { unfold zlen, fits in *. rewrite Hll. cbn in *. lia. }
  change (Z.of_nat 0) with 0 in Hp, Hf. rewrite Hp. cbn [obind app].
  pose proof (lookup_lt_Some _ _ _ Hr) as Hlt.
  assert (u32 i) as Hi32 by (unfold fits, zlen in *; lia).
  rewrite (proj2 (try_from_Some 32 i i) (conj eq_refl Hi32)). cbn [ok_or obind].
  eexists. split; [done|]. cbn [rp_root rp_result rp_index rp_count].
  split_and!; [done|done|done|unfold zlen; by rewrite Hlen|].
  rewrite Z2Nat.id in Hcl by done. cbv zeta in Hfold. unfold verify_result.
  cbn [rp_root rp_result rp_index rp_count rp_siblings].
  rewrite (proj2 (orb_false_iff _ _)); [|split; [apply Z.eqb_neq|apply Z.leb_gt]; unfold zlen; lia].
  assert (zlen values = zlen level) as Ezl by (unfold zlen; by rewrite Hll).
  rewrite Ezl in Hcl |- *. rewrite He. cbn [obind]. rewrite Z.eqb_refl. cbn [negb].
  rewrite Henc. cbn [map_err obind]. rewrite Hcl. cbn [obind]. rewrite enumerate_depths, Hclimb. cbn [obind].
  destruct (Nat.eqb_spec (length level) 0) as [E|_]; [lia|]. destruct Hfold as [Hf2 ->].
  rewrite Hf in Hf2. injection Hf2 as ->. by rewrite Ezl, bool_decide_true.
Qed.

Lemma verify_result_inv p :
  verify_result p = Ok tt → 0 ≤ rp_index p →
  ∃ encoded top c, 0 ≤ rp_index p < rp_count p ∧ encode_domain_header (rp_result p) = Ok encoded ∧
    u32 (rp_index p) ∧ u32 (zlen encoded) ∧
    expected_levels (E:=ChainError) 32 (rp_count p) = Ok (zlen (rp_siblings p)) ∧
    (let leaf := collection_leaf_preimage RESULT_LEAF_TAG (rp_count p) (rp_index p) encoded in
     for_each (climb_one RESULT_LEAF_TAG) (keccak256 leaf, rp_index p) (at_depths 0 (rp_siblings p)) =
       Ok (top, c)) ∧
    rp_root p = collection_root RESULT_LEAF_TAG (rp_count p) top.
Proof.
  unfold verify_result. intros Hv Hi. destruct (_ || _) eqn:Hg; [done|]. apply orb_false_iff in Hg as [_ Hg].
  apply obind_Ok in Hv as (levels & Hlev & Hv). destruct (negb _) eqn:Hz; [done|].
  apply obind_Ok in Hv as (encoded & Henc & Hv). apply map_err_Ok in Henc.
  apply obind_Ok in Hv as (hash & Hleaf & Hv). apply collection_leaf_Ok in Hleaf as (Hi32 & He32 & ->).
  apply obind_Ok in Hv as ([top c] & Hclimb & Hv). bool_prop. destruct (negb _) eqn:Hr; [done|]. bool_prop.
  exists encoded, top, c. rewrite Hz. split_and!; try done; lia.
Qed.

Lemma result_proof_sound results root p :
  Forall wf_domain_header results → wf_domain_header (rp_result p) → Forall is_b256 (rp_siblings p) →
  u32 (rp_index p) → u32 (rp_count p) →
  domain_results_root results = Ok root → rp_root p = root → verify_result p = Ok tt →
  (rp_count p = zlen results ∧ results !! Z.to_nat (rp_index p) = Some (rp_result p)) ∨
  collides (result_proof_preimages p) (results_preimages results).
Proof.
  intros Hwf Hwr Hsib Hi Hc Hroot Hrp Hver.
  destruct (verify_result_inv p Hver ltac:(apply Hi)) as (enc & top & c & Hidx & Henc & _ & Hz & Hexp & Hclimb & Hr).
  destruct (results_root_inv _ _ Hroot) as (values & level & top' & Hv & Hcv & Hl & Hfold & Hr').
  cbv zeta in Hclimb, Hfold. pose proof (collect_length _ _ _ Hv) as Hlen.
  unfold result_proof_preimages, results_preimages. rewrite Henc, Hv, Hl, enumerate_depths. cbv zeta.
  rewrite Hclimb. rewrite Hfold. set (leaf := collection_leaf_preimage _ _ _ enc) in *.
  destruct (decide (collection_root_preimage RESULT_LEAF_TAG (rp_count p) top =
    collection_root_preimage RESULT_LEAF_TAG (zlen values) top')) as [Eroot|Nroot]; cycle 1.
  { right. eexists _, _. split; [right; apply elem_of_app; right; by left|].
    split; [apply elem_of_app; right; apply elem_of_app; right; by left|]. split; [exact Nroot|].
    unfold collection_root in *. congruence. }
  apply collection_root_inj in Eroot as [Ecount <-]; [|done..].
  destruct (leaves_of_lookup _ _ _ _ (Z.to_nat (rp_index p)) Hl) as (Hll & Hlb & Hat).
  assert (zlen level = rp_count p) as Ezl by (unfold zlen in *; congruence).
  destruct (Nat.eqb_spec (length level) 0) as [E0|_]; [unfold zlen in Ezl; lia|].
  rewrite <-Ezl in Hexp, Hidx.
  destruct (climb_sound RESULT_LEAF_TAG (rp_siblings p) (length level) 32 0 (rp_index p) level (keccak256 leaf) top c)
    as [Hat'|Hcol]; try done; [|apply keccak256_length| |].
  { destruct (expected_levels_ok (E:=ChainError) 32 32 (zlen level)) as (n & Hn & Hb); [done| |].
    - rewrite Ezl. unfold fits in Hc. cbn in *. lia.
    - rewrite Hexp in Hn. injection Hn as <-. unfold zlen in Hb. lia. }
  - destruct (Hat _ Hat') as (value & Hval & Hi' & Hz' & Ekk). rewrite Z2Nat.id in * by lia.
    destruct (decide (leaf = collection_leaf_preimage RESULT_LEAF_TAG (zlen values) (rp_index p) value)) as [Eq|Ne].
    + left. split; [unfold zlen in *; congruence|]. unfold leaf in Eq. apply collection_leaf_inj in Eq as <-; try done.
      apply collect_Ok in Hv. destruct (Forall2_lookup_r _ _ _ _ _ Hv Hval) as (h & Hh & Henc').
      rewrite Hh. f_equal. rewrite list.Forall_forall in Hwf.
      assert (decode_domain_header enc = Ok h) as Hd1 by (eapply domain_header_codec; [by eapply Hwf, list_elem_of_lookup_2|done]).
      assert (decode_domain_header enc = Ok (rp_result p)) as Hd2 by (by eapply domain_header_codec). congruence.
    + right. eexists leaf, _. split; [by left|]. split; [|by split].
      apply elem_of_app. left. apply list_elem_of_lookup. exists (Z.to_nat (rp_index p)).
      rewrite list_lookup_imap, Hval. cbn. by rewrite Z2Nat.id by lia.
  - right. eapply collides_mono; [| |exact Hcol]; intros x Hx.
    + right. apply elem_of_app. by left.
    + apply elem_of_app. right. apply elem_of_app. by left.
Qed.

(** C18. Inclusion proofs of domain results are complete and sound. When a block's
    results have a root, each domain with a result in the block has a proof, which
    is for that result and verifies against the root. Conversely a proof that
    verifies against the root of a list of results is for a list of exactly that
    many results and for the one at its index; or its hash inputs collide with
    those of the root. *)
Theorem result_proofs_exact results root :
  Forall wf_domain_header results → domain_results_root results = Ok root →
  (∀ id, (∃ b, b ∈ results ∧ dh_domain_id b = id) →
    ∃ p, domain_result_proof root results id = Ok (Some p) ∧ rp_root p = root ∧
      dh_domain_id (rp_result p) = id ∧ results !! Z.to_nat (rp_index p) = Some (rp_result p) ∧
      rp_count p = zlen results ∧ verify_result p = Ok tt) ∧
  (∀ p, wf_domain_header (rp_result p) → Forall is_b256 (rp_siblings p) →
    u32 (rp_index p) → u32 (rp_count p) → rp_root p = root → verify_result p = Ok tt →
    (rp_count p = zlen results ∧ results !! Z.to_nat (rp_index p) = Some (rp_result p)) ∨
    collides (result_proof_preimages p) (results_preimages results)).
Proof.
  intros Hwf Hroot. split; [intros id; by apply result_proof_complete|].
  intros p Hw Hs Hi Hc Hr Hv. by eapply result_proof_sound.
Qed.
End results.

Module MerkleWitness.
#[local] Existing Instance Toy.toy_keccak.

Definition header (n : Z) : DomainBlockHeader :=
  {| dh_protocol_version := 1; dh_domain_id := repeat_byte 32 n; dh_number := n;
     dh_parent_hash := repeat_byte 32 0; dh_consensus_height := 1; dh_transactions_root := repeat_byte 32 1;
     dh_state_root := repeat_byte 32 2; dh_receipts_root := repeat_byte 32 3;
     dh_logs_bloom := repeat_byte 256 0; dh_gas_limit := 30000000; dh_gas_used := 21000;
     dh_base_fee_per_gas := 7 |}.

Definition headers : list DomainBlockHeader := [header 1; header 2; header 3].

Definition headers_root : bytes :=
  Eval vm_compute in match domain_results_root headers with Ok r => r | _ => [] end.

Lemma result_proofs_exact_witness :
  ∃ p, domain_result_proof headers_root headers (repeat_byte 32 2) = Ok (Some p) ∧
    verify_result p = Ok tt.
Proof.
  destruct (result_proofs_exact headers headers_root) as [Hc _].
  - repeat constructor; by_evaluation.
  - by_evaluation.
  - destruct (Hc (repeat_byte 32 2)) as (p & Hp & _ & _ & _ & _ & Hv).
    + exists (header 2). split; [right; left|reflexivity].
    + exists p. split; [exact Hp|exact Hv].
Defined.
End MerkleWitness.
