(* ===== verification/ChainBlock.v ===== *)
(** Consensus blocks and the codec of their bodies
    (src/crates/arbor-chain/src/lib.rs, ConsensusBlock and encode/decode_consensus_block).

    Main result: the codec is canonical: what decodes is exactly what encodes, and
    no input makes it panic. *)

From Stdlib Require Import Strings.Byte.
From S2P Require Import Prelude Bytes BTreeMap Primitives Canonical Rlp Crypto Ethereum StateError.
From S2P Require Import Registry Evm Executor Merkle.

Local Open Scope Z_scope.

Definition MAX_CONSENSUS_BLOCK_BYTES : Z := 16 * 1024 * 1024.

Definition BLOCK_BODY_TAG : bytes := bstr "ARBOR_CONSENSUS_BLOCK_BODY_V1".

Record ConsensusBlock := {
  cb_header : ConsensusBlockHeader;
  cb_batches : list DomainBatch;
  cb_domain_blocks : list DomainBlockHeader;
}.

(** ** Encoding *)

Definition put_u32 (out : bytes) (value : Z) : outcome ChainError bytes :=
  let? value := ok_or (try_from 32 value) (EncodingFailed (TextReason "u32 length")) in
  Ok (out ++ to_be_bytes 4 value).

Definition put_bytes (out value : bytes) : outcome ChainError bytes :=
  let? out := put_u32 out (zlen value) in
  Ok (out ++ value).

(** One object of the loops of [encode_consensus_block]. *)
Definition put_object {A : Type} (encode : A → outcome CodecError bytes) (out : bytes) (value : A)
    : outcome ChainError bytes :=
  let? encoded := map_err codec_error (encode value) in
  put_bytes out encoded.

Definition encode_consensus_block (block : ConsensusBlock) : outcome ChainError bytes :=
  if negb (zlen (cb_batches block) =? zlen (cb_domain_blocks block)) then Err ResultAlignment
  else
    let? header := map_err codec_error (encode_consensus_header (cb_header block)) in
    let? out := put_bytes (BLOCK_BODY_TAG ++ [version_byte]) header in
    let? out := put_u32 out (zlen (cb_batches block)) in
    let? out := for_each (put_object encode_domain_batch) out (cb_batches block) in
    let? out := put_u32 out (zlen (cb_domain_blocks block)) in
    let? out := for_each (put_object encode_domain_header) out (cb_domain_blocks block) in
    if MAX_CONSENSUS_BLOCK_BYTES <? zlen out
    then Err (BlockBytes MAX_CONSENSUS_BLOCK_BYTES (zlen out))
    else Ok out.

(** ** Decoding *)

(** A reader at a cursor returns its value and the advanced cursor. *)
Notation reader A := (bytes → Z → outcome ChainError (A * Z)).

Definition take_slice (length : Z) : reader bytes := fun input cursor =>
  let? end_ := ok_or (checked_add 64 cursor length) (DecodeFailed "length overflow") in
  let? value := ok_or (get_range input cursor end_) (DecodeFailed "unexpected end") in
  Ok (value, end_).

Definition take_u32 : reader Z := fun input cursor =>
  let? '(value, cursor) := take_slice 4 input cursor in
  if negb (zlen value =? 4) then Err (DecodeFailed "u32") else Ok (from_be_bytes value, cursor).

Definition take_bytes : reader bytes := fun input cursor =>
  let? '(length, cursor) := take_u32 input cursor in
  if MAX_CANONICAL_OBJECT_BYTES <? length then Err (DecodeFailed "nested object too large")
  else take_slice length input cursor.

Definition take_object {A : Type} (decode : bytes → outcome CodecError A) (what : string)
    : reader A := fun input cursor =>
  let? '(encoded, cursor) := take_bytes input cursor in
  let? value := map_err (λ _, DecodeFailed what) (decode encoded) in
  Ok (value, cursor).

(** [for _ in 0..count]. *)
Fixpoint take_items {A : Type} (item : reader A) (count : nat) : reader (list A) := fun input cursor =>
  match count with
  | O => Ok ([], cursor)
  | S count' =>
      let? '(value, cursor) := item input cursor in
      let? '(values, cursor) := take_items item count' input cursor in
      Ok (value :: values, cursor)
  end.

Definition decode_consensus_block (input : bytes) : outcome ChainError ConsensusBlock :=
  if MAX_CONSENSUS_BLOCK_BYTES <? zlen input
  then Err (BlockBytes MAX_CONSENSUS_BLOCK_BYTES (zlen input))
  else
    let? '(tag, cursor) := take_slice (zlen BLOCK_BODY_TAG) input 0 in
    let? cursor :=
      if negb (bool_decide (tag = BLOCK_BODY_TAG)) then Err (DecodeFailed "block body tag/version")
      else
        let? '(version, cursor) := take_slice 1 input cursor in
        if negb (bool_decide (version = [version_byte])) then Err (DecodeFailed "block body tag/version")
        else Ok cursor in
    let? '(header, cursor) := take_object decode_consensus_header "consensus header" input cursor in
    let? '(batch_count, cursor) := take_u32 input cursor in
    if MAX_BATCHES_PER_BLOCK <? batch_count
    then Err (TooManyBatches MAX_BATCHES_PER_BLOCK batch_count)
    else
      let? '(batches, cursor) :=
        take_items (take_object decode_domain_batch "domain batch") (Z.to_nat batch_count) input cursor in
      let? '(result_count, cursor) := take_u32 input cursor in
      if negb (result_count =? batch_count) then Err ResultAlignment
      else
        let? '(domain_blocks, cursor) :=
          take_items (take_object decode_domain_header "domain header") (Z.to_nat result_count)
            input cursor in
        if negb (cursor =? zlen input) then Err (DecodeFailed "trailing bytes")
        else Ok {| cb_header := header; cb_batches := batches; cb_domain_blocks := domain_blocks |}.

(** [ConsensusBlock::hash]. *)
Definition block_hash_of `{Keccak} (block : ConsensusBlock) : outcome ChainError bytes :=
  map_err crypto_error (consensus_header_hash (cb_header block)).

(** [ConsensusBlock::domain_result_proof]. *)
Definition block_result_proof `{Keccak} (block : ConsensusBlock) (domain_id : DomainId)
    : outcome ChainError (option DomainResultProof) :=
  domain_result_proof (ch_domain_results_root (cb_header block)) (cb_domain_blocks block) domain_id.

(** ** Readers *)

(** The cursor stands before [rest]. *)
Definition before (input : bytes) (cursor : Z) (rest : bytes) : Prop :=
  ∃ pre, input = pre ++ rest ∧ cursor = zlen pre ∧ zlen input ≤ MAX_CONSENSUS_BLOCK_BYTES.

(** A reader and the relation between values and their bytes it inverts. *)
Record reads {A : Type} (r : reader A) (R : A → bytes → Prop) : Prop := {
  rd_accepts : ∀ input cursor v b rest, R v b → before input cursor (b ++ rest) →
    ∃ cursor', r input cursor = Ok (v, cursor') ∧ before input cursor' rest;
  rd_sound : ∀ input cursor v cursor' rest, before input cursor rest → r input cursor = Ok (v, cursor') →
    ∃ b rest', R v b ∧ rest = b ++ rest' ∧ before input cursor' rest';
  rd_no_panic : ∀ input cursor m, r input cursor ≠ Panic m;
}.

Lemma take_reads n : reads (take_slice n) (λ v b, v = b ∧ zlen b = n).
Proof.
  split.
  - intros input cursor v b rest [-> <-] (pre & -> & -> & Hlen). unfold take_slice.
    rewrite !zlen_app in Hlen. pose proof (zlen_nonneg rest). unfold MAX_CONSENSUS_BLOCK_BYTES in Hlen.
    rewrite (proj2 (checked_add_Some 64 (zlen pre) (zlen b) (zlen pre + zlen b))) by lia. cbn [ok_or obind].
    rewrite get_range_app by done. eexists. split; [done|]. exists (pre ++ b).
    rewrite <-app_assoc, zlen_app. split_and!; [done..|]. rewrite !zlen_app. unfold MAX_CONSENSUS_BLOCK_BYTES. lia.
  - intros input cursor v cursor' rest (pre & -> & -> & Hlen) Ht. unfold take_slice in Ht. ok_inv.
    apply checked_add_Some in Hok as [-> _]. subst.
    pose proof (get_range_length _ _ _ _ Hok0) as Hl. pose proof (get_range_split _ _ _ _ Hok0) as Hs.
    unfold zlen in Hs at 1. rewrite Nat2Z.id, take_app_length in Hs. apply app_inv_head in Hs.
    exists v. eexists. split; [split; [done|lia]|]. split; [exact Hs|]. exists (pre ++ v).
    rewrite <-app_assoc, <-Hs, zlen_app. split_and!; [done|lia|done].
  - intros input cursor m. unfold take_slice. no_panic.
Qed.

Lemma take_u32_reads : reads take_u32 (λ v b, u32 v ∧ b = to_be_bytes 4 v).
Proof.
  split.
  - intros input cursor v b rest [Hv ->] Hb. unfold take_u32.
    destruct (rd_accepts _ _ (take_reads 4) _ _ (to_be_bytes 4 v) _ _ ltac:(split; [done|apply zlen_to_be_bytes]) Hb)
      as (c & -> & Hc). cbn [obind]. rewrite zlen_to_be_bytes. cbn [negb Z.eqb].
    exists c. split; [|done]. do 2 f_equal. by apply from_to_be_bytes.
  - intros input cursor v cursor' rest Hb Ht. unfold take_u32 in Ht. ok_inv. subst.
    destruct (rd_sound _ _ (take_reads 4) _ _ _ _ _ Hb Hok) as (b & rest' & [-> Hl] & -> & Hc).
    exists b, rest'. split_and!; [| |done|done].
    + apply (from_be_bytes_fits b 4). unfold zlen in Hl. lia.
    + symmetry. apply to_from_be_bytes. unfold zlen in Hl. lia.
  - intros input cursor m. unfold take_u32. apply obind_no_panic; [apply take_reads|]. intros [v c] _. no_panic.
Qed.

(** A length-prefixed object and its bytes. *)
Definition prefixed (v b : bytes) : Prop :=
  zlen v ≤ MAX_CANONICAL_OBJECT_BYTES ∧ b = to_be_bytes 4 (zlen v) ++ v.

Lemma take_bytes_reads : reads take_bytes prefixed.
Proof.
  split.
  - intros input cursor v b rest [Hv ->] Hb. rewrite <-app_assoc in Hb. unfold take_bytes.
    destruct (rd_accepts _ _ take_u32_reads _ _ (zlen v) _ _
      ltac:(split; [|done]; pose proof (zlen_nonneg v); unfold fits, MAX_CANONICAL_OBJECT_BYTES in *; lia) Hb)
      as (c & -> & Hc). cbn [obind]. rewrite (proj2 (Z.ltb_ge _ _)) by done.
    by apply (rd_accepts _ _ (take_reads (zlen v)) _ _ v v).
  - intros input cursor v cursor' rest Hb Ht. unfold take_bytes in Ht.
    apply obind_Ok in Ht as ([n c] & Hn & Ht). destruct (Z.ltb_spec MAX_CANONICAL_OBJECT_BYTES n); [done|].
    destruct (rd_sound _ _ take_u32_reads _ _ _ _ _ Hb Hn) as (b & r1 & [_ ->] & -> & Hc).
    destruct (rd_sound _ _ (take_reads n) _ _ _ _ _ Hc Ht) as (v' & r2 & [-> <-] & -> & Hc2).
    eexists _, r2. split; [by split|]. by rewrite <-app_assoc.
  - intros input cursor m. unfold take_bytes. apply obind_no_panic; [apply take_u32_reads|].
    intros [n c] _. destruct (_ <? _); [done|]. apply take_reads.
Qed.

Definition object {A : Type} (wf : A → Prop) (encode : A → outcome CodecError bytes) (v : A) (b : bytes) : Prop :=
  ∃ e, wf v ∧ encode v = Ok e ∧ prefixed e b.

Lemma take_object_reads {A : Type} (wf : A → Prop) encode (decode : bytes → outcome CodecError A) what :
  canonical wf encode decode → reads (take_object decode what) (object wf encode).
Proof.
  intros (Hrt & Hsound & _ & Hnp). split.
  - intros input cursor v b rest (e & Hw & He & Hp) Hb. unfold take_object.
    destruct (rd_accepts _ _ take_bytes_reads _ _ _ _ _ Hp Hb) as (c & -> & Hc). cbn [obind].
    rewrite (Hrt _ _ Hw He). by exists c.
  - intros input cursor v cursor' rest Hb Ht. unfold take_object in Ht.
    apply obind_Ok in Ht as ([e c] & He & Ht). apply obind_Ok in Ht as (v' & Hd & [= <- <-]).
    apply map_err_Ok, Hsound in Hd as [Hw Henc].
    destruct (rd_sound _ _ take_bytes_reads _ _ _ _ _ Hb He) as (b & r1 & Hp & -> & Hc).
    exists b, r1. split; [by exists e|done].
  - intros input cursor m. unfold take_object. apply obind_no_panic; [apply take_bytes_reads|].
    intros [e c] _. destruct (decode e) as [v|er|m'] eqn:Ed; [done..|]. by destruct (Hnp e m').
Qed.

Lemma take_items_reads {A : Type} (item : reader A) R n :
  reads item R → reads (take_items item n) (λ vs b, length vs = n ∧ ∃ bs, Forall2 R vs bs ∧ b = concat bs).
Proof.
  intros Hi. induction n as [|n IH]; split.
  - intros input cursor vs b rest (Hl & bs & Hf & ->) Hb. apply length_zero_iff_nil in Hl as ->.
    apply Forall2_nil_inv_l in Hf as ->. by exists cursor.
  - intros input cursor vs cursor' rest Hb [= <- <-]. exists [], rest. split; [|done]. split; [done|]. by exists [].
  - done.
  - intros input cursor vs b rest (Hl & bs & Hf & ->) Hb. destruct vs as [|v vs]; [done|].
    apply Forall2_cons_inv_l in Hf as (b & bs' & Hv & Hf & ->). cbn [concat] in Hb. rewrite <-app_assoc in Hb.
    cbn [take_items]. destruct (rd_accepts _ _ Hi _ _ _ _ _ Hv Hb) as (c & -> & Hc). cbn [obind].
    destruct (rd_accepts _ _ IH input c vs (concat bs') rest) as (c2 & -> & Hc2); [|done|by exists c2].
    split; [by injection Hl|]. by exists bs'.
  - intros input cursor vs cursor' rest Hb Ht. cbn [take_items] in Ht.
    apply obind_Ok in Ht as ([v c] & Hv & Ht). apply obind_Ok in Ht as ([vs' c2] & Hvs & [= <- <-]).
    destruct (rd_sound _ _ Hi _ _ _ _ _ Hb Hv) as (b & r1 & Hr & -> & Hc).
    destruct (rd_sound _ _ IH _ _ _ _ _ Hc Hvs) as (b2 & r2 & (Hl & bs & Hf & ->) & -> & Hc2).
    exists (b ++ concat bs), r2. split; [|by rewrite app_assoc]. split; [by cbn; f_equal|].
    exists (b :: bs). split; [by constructor|done].
  - intros input cursor m. cbn [take_items]. apply obind_no_panic; [apply Hi|]. intros [v c] _.
    apply obind_no_panic; [apply IH|]. by intros [vs c2] _.
Qed.

(** ** Results *)

Lemma put_u32_Ok out v r : put_u32 out v = Ok r ↔ u32 v ∧ r = out ++ to_be_bytes 4 v.
Proof.
  unfold put_u32. split.
  - intros Hp. ok_inv. by apply try_from_Some in Hok as [-> Hv].
  - intros [Hv ->]. by rewrite (proj2 (try_from_Some 32 v v)).
Qed.

Lemma encoded_small {A : Type} (tag : bytes) (P : A → Prop) body encode v e :
  (∀ v b, encode v = Ok b ↔ P v ∧ b = tagged_body tag (body v) ∧ zlen b ≤ MAX_CANONICAL_OBJECT_BYTES) →
  encode v = Ok (E:=CodecError) e → zlen e ≤ MAX_CANONICAL_OBJECT_BYTES.
Proof. intros Henc He. by apply Henc in He as (_ & _ & Hl). Qed.

Lemma put_object_Ok {A : Type} (encode : A → outcome CodecError bytes) out v r :
  (∀ v e, encode v = Ok e → zlen e ≤ MAX_CANONICAL_OBJECT_BYTES) →
  put_object encode out v = Ok r ↔ ∃ b, object (λ _, True) encode v b ∧ r = out ++ b.
Proof.
  intros Hsmall. unfold put_object, put_bytes. split.
  - intros Hp. apply obind_Ok in Hp as (e & He & Hp). apply map_err_Ok in He.
    apply obind_Ok in Hp as (o & Ho & [= <-]). apply put_u32_Ok in Ho as [_ ->].
    eexists. split; [exists e; split; [done|]; split; [done|]; split; [by eapply Hsmall|done]|by rewrite app_assoc].
  - intros (b & (e & _ & He & Hl & ->) & ->). rewrite He. cbn [map_err obind].
    rewrite (proj2 (put_u32_Ok _ _ (out ++ to_be_bytes 4 (zlen e)))); [cbn; by rewrite app_assoc|]. split; [|done].
    pose proof (zlen_nonneg e). unfold fits, MAX_CANONICAL_OBJECT_BYTES in *. lia.
Qed.

Lemma put_objects_Ok {A : Type} (encode : A → outcome CodecError bytes) vs out r :
  (∀ v e, encode v = Ok e → zlen e ≤ MAX_CANONICAL_OBJECT_BYTES) →
  for_each (put_object encode) out vs = Ok r ↔
    ∃ bs, Forall2 (object (λ _, True) encode) vs bs ∧ r = out ++ concat bs.
Proof.
  intros Hsmall. revert out. induction vs as [|v vs IH]; intros out; cbn [for_each].
  - split; [intros [= <-]; exists []; by rewrite app_nil_r|].
    intros (bs & ->%Forall2_nil_inv_l & ->). by rewrite app_nil_r.
  - split.
    + intros Hp. apply obind_Ok in Hp as (out' & Hv & Hp). apply put_object_Ok in Hv as (b & Hb & ->); [|done].
      apply IH in Hp as (bs & Hf & ->). exists (b :: bs). split; [by constructor|by rewrite <-app_assoc].
    + intros (bs0 & Hf & ->). apply Forall2_cons_inv_l in Hf as (b & bs & Hv & Hf & ->).
      rewrite (proj2 (put_object_Ok encode out v (out ++ b) Hsmall)) by eauto. cbn [obind].
      apply IH. exists bs. split; [done|by rewrite <-app_assoc].
Qed.

(** The bytes of a block body. *)
Definition block_body (block : ConsensusBlock) (out : bytes) : Prop :=
  ∃ h bs ds, object (λ _, True) encode_consensus_header (cb_header block) h ∧
    Forall2 (object (λ _, True) encode_domain_batch) (cb_batches block) bs ∧
    Forall2 (object (λ _, True) encode_domain_header) (cb_domain_blocks block) ds ∧
    out = (BLOCK_BODY_TAG ++ [version_byte]) ++ h ++ to_be_bytes 4 (zlen (cb_batches block)) ++ concat bs ++
          to_be_bytes 4 (zlen (cb_domain_blocks block)) ++ concat ds.

Lemma header_small v e : encode_consensus_header v = Ok e → zlen e ≤ MAX_CANONICAL_OBJECT_BYTES.
Proof. by apply (encoded_small _ _ _ _ _ _ encode_consensus_header_Ok). Qed.

Lemma batch_small v e : encode_domain_batch v = Ok e → zlen e ≤ MAX_CANONICAL_OBJECT_BYTES.
Proof. by apply (encoded_small _ _ _ _ _ _ encode_domain_batch_Ok). Qed.

Lemma result_small v e : encode_domain_header v = Ok e → zlen e ≤ MAX_CANONICAL_OBJECT_BYTES.
Proof. by apply (encoded_small _ _ _ _ _ _ encode_domain_header_Ok). Qed.

Lemma encode_block_Ok block out :
  encode_consensus_block block = Ok out ↔
    zlen (cb_batches block) = zlen (cb_domain_blocks block) ∧ u32 (zlen (cb_batches block)) ∧
    block_body block out ∧ zlen out ≤ MAX_CONSENSUS_BLOCK_BYTES.
Proof.
  unfold encode_consensus_block, block_body. split.
  - intros He. destruct (negb _) eqn:Hn; [done|]. apply negb_false_iff, Z.eqb_eq in Hn. split; [done|].
    apply obind_Ok in He as (h & Hh & He). apply map_err_Ok in Hh.
    assert (∀ o, put_bytes (BLOCK_BODY_TAG ++ [version_byte]) h = Ok o →
      put_object encode_consensus_header (BLOCK_BODY_TAG ++ [version_byte]) (cb_header block) = Ok o) as Hput
      by (intros o Ho; unfold put_object; by rewrite Hh).
    apply obind_Ok in He as (o1 & Ho1 & He). apply Hput, put_object_Ok in Ho1 as (b & Hb & ->); [|apply header_small].
    apply obind_Ok in He as (o2 & Ho2 & He). apply put_u32_Ok in Ho2 as [Hu ->].
    apply obind_Ok in He as (o3 & Ho3 & He). apply put_objects_Ok in Ho3 as (bs & Hbs & ->); [|apply batch_small].
    apply obind_Ok in He as (o4 & Ho4 & He). apply put_u32_Ok in Ho4 as [_ ->].
    apply obind_Ok in He as (o5 & Ho5 & He). apply put_objects_Ok in Ho5 as (ds & Hds & ->); [|apply result_small].
    destruct (Z.ltb_spec MAX_CONSENSUS_BLOCK_BYTES
      (zlen (((((((BLOCK_BODY_TAG ++ [version_byte]) ++ b) ++ to_be_bytes 4 (zlen (cb_batches block))) ++ concat bs) ++
        to_be_bytes 4 (zlen (cb_domain_blocks block))) ++ concat ds)))); [done|]. injection He as <-.
    split; [done|]. split; [|done]. exists b, bs, ds. by rewrite <-!app_assoc.
  - intros (Hn & Hu & (b & bs & ds & Hb & Hbs & Hds & ->) & Hlen).
    rewrite <-!Hn in Hlen |- *. rewrite Z.eqb_refl. cbn [negb]. pose proof Hb as (h & _ & Hh & _). rewrite Hh. cbn [map_err obind].
    assert (put_bytes (BLOCK_BODY_TAG ++ [version_byte]) h = Ok ((BLOCK_BODY_TAG ++ [version_byte]) ++ b)) as ->.
    { pose proof (proj2 (put_object_Ok _ (BLOCK_BODY_TAG ++ [version_byte]) _ _ header_small)
        (ex_intro _ b (conj Hb eq_refl))) as Hp. unfold put_object in Hp. by rewrite Hh in Hp. }
    cbn [obind]. rewrite (proj2 (put_u32_Ok _ _ _) (conj Hu eq_refl)). cbn [obind].
    rewrite (proj2 (put_objects_Ok _ _ _ _ batch_small) (ex_intro _ bs (conj Hbs eq_refl))). cbn [obind].
    rewrite (proj2 (put_u32_Ok _ _ _) (conj Hu eq_refl)). cbn [obind].
    rewrite (proj2 (put_objects_Ok _ _ _ _ result_small) (ex_intro _ ds (conj Hds eq_refl))). cbn [obind].
    repeat rewrite <-app_assoc. repeat rewrite <-app_assoc in Hlen. by rewrite (proj2 (Z.ltb_ge _ _)).
Qed.

Definition wf_consensus_block (block : ConsensusBlock) : Prop :=
  wf_consensus_header (cb_header block) ∧ Forall wf_domain_batch (cb_batches block) ∧
  Forall wf_domain_header (cb_domain_blocks block) ∧ zlen (cb_batches block) ≤ MAX_BATCHES_PER_BLOCK.

Lemma objects_wf {A : Type} (wf : A → Prop) encode vs bs :
  Forall2 (object wf encode) vs bs ↔ Forall wf vs ∧ Forall2 (object (λ _, True) encode) vs bs.
Proof.
  split.
  - intros Hf. induction Hf as [|v b vs bs (e & Hw & He & Hp) _ [IH1 IH2]]; [by split|].
    split; constructor; try done. by exists e.
  - intros [Hw Hf]. induction Hf as [|v b vs bs (e & _ & He & Hp) _ IH]; [done|].
    inversion_clear Hw. constructor; [by exists e|by apply IH].
Qed.

Lemma decode_block_accepts block out :
  wf_consensus_block block → encode_consensus_block block = Ok out →
  decode_consensus_block out = Ok block.
Proof.
  intros (Wh & Wb & Wd & Hmax) He. apply encode_block_Ok in He as (Hn & Hu & (h & bs & ds & Hh & Hbs & Hds & Hout) & Hlen).
  unfold decode_consensus_block. rewrite (proj2 (Z.ltb_ge _ _)) by done.
  assert (before out 0 out) as H0 by (by exists []). rewrite Hout in H0 at 2. rewrite <-!app_assoc in H0.
  destruct (rd_accepts _ _ (take_reads (zlen BLOCK_BODY_TAG)) _ _ _ _ _ (conj eq_refl eq_refl) H0) as (c1 & -> & H1).
  cbn [obind]. rewrite bool_decide_true by done. cbn [negb].
  destruct (rd_accepts _ _ (take_reads 1) _ _ [version_byte] [version_byte] _ (conj eq_refl eq_refl) H1) as (c2 & -> & H2). cbn [obind].
  rewrite bool_decide_true by done. cbn [negb obind].
  destruct (rd_accepts _ _ (take_object_reads _ _ _ "consensus header" consensus_header_codec) out c2 (cb_header block) h _
    ltac:(destruct Hh as (e & _ & He & Hp); by exists e) H2) as (c3 & -> & H3). cbn [obind].
  destruct (rd_accepts _ _ take_u32_reads _ _ _ _ _ (conj Hu eq_refl) H3) as (c4 & -> & H4). cbn [obind].
  rewrite (proj2 (Z.ltb_ge _ _)) by done.
  assert (length (cb_batches block) = Z.to_nat (zlen (cb_batches block))) as Hlb by (unfold zlen; lia).
  destruct (rd_accepts _ _ (take_items_reads _ _ (Z.to_nat (zlen (cb_batches block)))
    (take_object_reads _ _ _ "domain batch" domain_batch_codec)) _ _ _ _ _
    (conj Hlb (ex_intro _ bs (conj (proj2 (objects_wf _ _ _ _) (conj Wb Hbs)) eq_refl))) H4) as (c5 & -> & H5). cbn [obind].
  rewrite <-Hn in H5.
  destruct (rd_accepts _ _ take_u32_reads _ _ _ _ _ (conj Hu eq_refl) H5) as (c6 & -> & H6). cbn [obind].
  rewrite Z.eqb_refl. cbn [negb].
  assert (length (cb_domain_blocks block) = Z.to_nat (zlen (cb_batches block))) as Hld by (unfold zlen in *; lia).
  rewrite <-(app_nil_r (concat ds)) in H6.
  destruct (rd_accepts _ _ (take_items_reads _ _ (Z.to_nat (zlen (cb_batches block)))
    (take_object_reads _ _ _ "domain header" domain_header_codec)) _ _ _ _ _
    (conj Hld (ex_intro _ ds (conj (proj2 (objects_wf _ _ _ _) (conj Wd Hds)) eq_refl))) H6) as (c7 & -> & H7). cbn [obind].
  destruct H7 as (pre & Hpre & -> & _). rewrite app_nil_r in Hpre. rewrite Hpre, Z.eqb_refl. by destruct block.
Qed.

Lemma decode_block_sound input block :
  decode_consensus_block input = Ok block →
  wf_consensus_block block ∧ encode_consensus_block block = Ok input.
Proof.
  unfold decode_consensus_block. destruct (Z.ltb_spec MAX_CONSENSUS_BLOCK_BYTES (zlen input)) as [|Hlen]; [done|].
  intros Hd. assert (before input 0 input) as H0 by (by exists []).
  apply obind_Ok in Hd as ([tag c1] & Htag & Hd). apply obind_Ok in Hd as (c2 & Hver & Hd).
  destruct (negb (bool_decide (tag = _))) eqn:Et; [done|]. bool_prop. subst tag.
  apply obind_Ok in Hver as ([version c2'] & Hver & Hv2).
  destruct (negb (bool_decide (version = _))) eqn:Ev; [done|]. bool_prop. subst version. injection Hv2 as ->.
  apply obind_Ok in Hd as ([header c3] & Hh & Hd). apply obind_Ok in Hd as ([n c4] & Hn & Hd).
  destruct (Z.ltb_spec MAX_BATCHES_PER_BLOCK n) as [|Hmax]; [done|].
  apply obind_Ok in Hd as ([batches c5] & Hb & Hd). apply obind_Ok in Hd as ([n' c6] & Hn' & Hd).
  destruct (Z.eqb_spec n' n) as [->|]; [cbn [negb] in Hd|done].
  apply obind_Ok in Hd as ([blocks c7] & Hbl & Hd). destruct (Z.eqb_spec c7 (zlen input)) as [->|]; [|done].
  injection Hd as <-.
  destruct (rd_sound _ _ (take_reads _) _ _ _ _ _ H0 Htag) as (t & r1 & [<- _] & E0 & H1).
  destruct (rd_sound _ _ (take_reads _) _ _ _ _ _ H1 Hver) as (v & r2 & [<- _] & E1 & H2).
  destruct (rd_sound _ _ (take_object_reads _ _ _ _ consensus_header_codec) _ _ _ _ _ H2 Hh) as (h & r3 & (he & Wh & Ehe & Hp) & E2 & H3).
  destruct (rd_sound _ _ take_u32_reads _ _ _ _ _ H3 Hn) as (nb & r4 & [Hu ->] & E3 & H4).
  destruct (rd_sound _ _ (take_items_reads _ _ _ (take_object_reads _ _ _ _ domain_batch_codec)) _ _ _ _ _ H4 Hb)
    as (bb & r5 & (Lb & bs & Fb & ->) & E4 & H5).
  destruct (rd_sound _ _ take_u32_reads _ _ _ _ _ H5 Hn') as (nd & r6 & [_ ->] & E5 & H6).
  destruct (rd_sound _ _ (take_items_reads _ _ _ (take_object_reads _ _ _ _ domain_header_codec)) _ _ _ _ _ H6 Hbl)
    as (db & r7 & (Ld & ds & Fd & ->) & E6 & (pre & Epre & Ezl & _)).
  assert (r7 = []) as -> by (rewrite Epre, zlen_app in Ezl; apply length_zero_iff_nil; unfold zlen in Ezl; lia).
  rewrite app_nil_r in E6. apply objects_wf in Fb as [Wb Fb], Fd as [Wd Fd].
  assert (zlen batches = n ∧ zlen blocks = n) as [En En'] by (unfold zlen, fits in *; lia).
  split; [by split_and!; try (cbn; rewrite ?En)|]. apply encode_block_Ok. cbn [cb_batches cb_domain_blocks cb_header].
  rewrite En, En'. split_and!; [done|done| |done]. exists h, bs, ds. cbn [cb_batches cb_domain_blocks cb_header].
  split; [by exists he|]. split_and!; [done|done|]. rewrite En, En'. subst. by rewrite <-!app_assoc.
Qed.

Lemma put_object_no_panic {A : Type} (wf : A → Prop) encode decode out (v : A) m :
  canonical wf encode decode → put_object encode out v ≠ Panic m.
Proof.
  intros (_ & _ & Hnp & _). unfold put_object, put_bytes, put_u32. specialize (Hnp v).
  destruct (encode v) as [e|e|m'] eqn:He; cbn [map_err obind]; [|done|by destruct (Hnp m')].
  destruct (try_from 32 (zlen e)); done.
Qed.

Lemma decode_block_no_panic b m : decode_consensus_block b ≠ Panic m.
Proof.
  unfold decode_consensus_block. destruct (_ <? _); [done|].
  apply obind_no_panic; [apply take_reads|]. intros [tag c1] _.
  apply obind_no_panic.
  { destruct (negb _); [done|]. apply obind_no_panic; [apply take_reads|]. intros [v c] _. by destruct (negb _). }
  intros c2 _. apply obind_no_panic; [apply (take_object_reads _ _ _ _ consensus_header_codec)|]. intros [h c3] _.
  apply obind_no_panic; [apply take_u32_reads|]. intros [n c4] _. destruct (_ <? _); [done|].
  apply obind_no_panic; [apply (take_items_reads _ _ _ (take_object_reads _ _ _ _ domain_batch_codec))|].
  intros [batches c5] _. apply obind_no_panic; [apply take_u32_reads|]. intros [n' c6] _. destruct (negb _); [done|].
  apply obind_no_panic; [apply (take_items_reads _ _ _ (take_object_reads _ _ _ _ domain_header_codec))|].
  intros [ds c7] _. by destruct (negb _).
Qed.

Lemma encode_block_no_panic b m : encode_consensus_block b ≠ Panic m.
Proof.
  assert (∀ out n m, put_u32 out n ≠ Panic m) as Hput by (intros out n m'; unfold put_u32; by destruct (try_from 32 n)).
  unfold encode_consensus_block. destruct (negb _); [done|].
  pose proof consensus_header_codec as (_ & _ & Hnp & _). specialize (Hnp (cb_header b)).
  destruct (encode_consensus_header (cb_header b)) as [h|h|m'] eqn:He; cbn [map_err obind]; [|done|by destruct (Hnp m')].
  apply obind_no_panic; [unfold put_bytes; apply obind_no_panic; [apply Hput|done]|]. intros o1 _.
  apply obind_no_panic; [apply Hput|]. intros o2 _.
  apply obind_no_panic.
  { apply for_each_no_panic. intros s a _. apply (put_object_no_panic _ _ _ _ _ _ domain_batch_codec). }
  intros o3 _. apply obind_no_panic; [apply Hput|]. intros o4 _.
  apply obind_no_panic; [|intros o5 _; by destruct (_ <? _)].
  apply for_each_no_panic. intros s a _. apply (put_object_no_panic _ _ _ _ _ _ domain_header_codec).
Qed.

(** The codec of consensus block bodies is canonical: a well-formed block that
    encodes decodes to itself; what decodes is well formed, has as many results as
    batches and at most 256 of them, and encodes to exactly the input; so a body
    has one encoding and no trailing or nested slack; and neither direction
    panics. *)
Theorem block_codec_canonical :
  canonical wf_consensus_block encode_consensus_block decode_consensus_block.
Proof.
  split_and!.
  - exact decode_block_accepts.
  - intros v b Hd. by apply decode_block_sound.
  - exact encode_block_no_panic.
  - exact decode_block_no_panic.
Qed.
