(* ===== verification/ChainState.v ===== *)
(** The finalized multi-domain state: genesis, created domains, the genealogy of
    domains and checkpoints (src/crates/arbor-chain/src/lib.rs, the types and
    [impl FinalizedChainState]).

    Main results: the well-formedness of a finalized state is established by
    genesis and kept by every insertion; in such a state the genealogy of every
    domain is the unique line of parents up to the root; and a checkpoint restores
    exactly the state it was taken of. *)

From Stdlib Require Import Strings.Byte.
From S2P Require Import Prelude Bytes BTreeMap Primitives Canonical Rlp Crypto Ethereum StateError.
From S2P Require Import DomainHeads System Registry Trie Mpt MptBuild Account Overlay Evm Executor Merkle.

Local Open Scope Z_scope.

Definition MAX_DOMAIN_BLOCK_GAS : Z := 30000000.

Record DomainConfig := {
  dc_chain_id : Z;
  dc_protocol_revision : Z;
  dc_gas_limit : Z;
  dc_initial_base_fee_per_gas : Z;
}.

#[export] Instance DomainConfig_eq_dec : EqDecision DomainConfig.
Proof. solve_decision. Defined.

Record FinalizedDomain := {
  fd_config : DomainConfig;
  fd_header : DomainBlockHeader;
  fd_block_hash : bytes;
  fd_state : ExecutionState;
}.

Record FinalizedChainGenesis := {
  fg_network_id : NetworkId;
  fg_consensus_hash : bytes;
  fg_timestamp : Z;
  fg_validator_set_hash : bytes;
  fg_root_domain_id : DomainId;
  fg_governance_address : bytes;
  fg_config : DomainConfig;
  fg_state : ExecutionState;
}.

Record FinalizedChainState := {
  fs_network_id : NetworkId;
  fs_height : ConsensusHeight;
  fs_consensus_hash : bytes;
  fs_timestamp : Z;
  fs_validator_set_hash : bytes;
  fs_next_validator_set_hash : bytes;
  fs_root_domain_id : DomainId;
  fs_governance_address : bytes;
  fs_domains : btree DomainId FinalizedDomain;
  fs_descriptors : btree DomainId DomainDescriptor;
}.

Record FinalizedDomainCheckpoint := {
  dk_domain_id : DomainId;
  dk_config : DomainConfig;
  dk_header : DomainBlockHeader;
  dk_block_hash : bytes;
  dk_state : ExecutionState;
  dk_descriptor : option DomainDescriptor;
}.

Record FinalizedChainCheckpoint := {
  ck_network_id : NetworkId;
  ck_height : ConsensusHeight;
  ck_consensus_hash : bytes;
  ck_timestamp : Z;
  ck_validator_set_hash : bytes;
  ck_next_validator_set_hash : bytes;
  ck_root_domain_id : DomainId;
  ck_governance_address : bytes;
  ck_domain_heads_root : bytes;
  ck_domains : list FinalizedDomainCheckpoint;
}.

Definition validate_config (c : DomainConfig) : outcome ChainError unit :=
  if dc_chain_id c =? 0 then Err (InvalidDomainConfig "chain ID must be non-zero")
  else if (dc_gas_limit c =? 0) || (MAX_DOMAIN_BLOCK_GAS <? dc_gas_limit c)
  then Err (InvalidDomainConfig "gas limit must be in 1..=30,000,000")
  else if umax 64 <? dc_initial_base_fee_per_gas c
  then Err (InvalidDomainConfig "base fee exceeds the fixed EVM block field")
  else
    run? map_err (λ _, InvalidDomainConfig "unknown protocol revision")
           (new_service (dc_protocol_revision c)) in
    Ok tt.

(** The state with its domains and descriptors replaced. *)
Definition with_domains (s : FinalizedChainState) (domains : btree DomainId FinalizedDomain)
    (descriptors : btree DomainId DomainDescriptor) : FinalizedChainState :=
  {| fs_network_id := fs_network_id s; fs_height := fs_height s;
     fs_consensus_hash := fs_consensus_hash s; fs_timestamp := fs_timestamp s;
     fs_validator_set_hash := fs_validator_set_hash s;
     fs_next_validator_set_hash := fs_next_validator_set_hash s;
     fs_root_domain_id := fs_root_domain_id s; fs_governance_address := fs_governance_address s;
     fs_domains := domains; fs_descriptors := descriptors |}.

Definition domain (s : FinalizedChainState) (domain_id : DomainId) : option FinalizedDomain :=
  bget domain_id (fs_domains s).

Definition domain_descriptor (s : FinalizedChainState) (domain_id : DomainId) : option DomainDescriptor :=
  bget domain_id (fs_descriptors s).

(** The loop of [genealogy]: every turn adds to [seen] a domain, and all but the
    last have a descriptor. *)
Fixpoint genealogy_loop (fuel : nat) (root : DomainId) (descriptors : btree DomainId DomainDescriptor)
    (current : DomainId) (seen : btree DomainId unit) (reversed : list DomainId)
    : outcome ChainError (list DomainId) :=
  if bool_decide (current = root) then Ok reversed
  else
    match fuel with
    | O => Panic "out of fuel"
    | S fuel' =>
        let? descriptor :=
          ok_or (bget current descriptors) (RegistryInvariant "missing parent descriptor") in
        let current := dd_parent_domain_id descriptor in
        if bcontains current seen then Err (RegistryInvariant "cyclic domain genealogy")
        else
          genealogy_loop fuel' root descriptors current (binsert current tt seen)
            (reversed ++ [current])
    end.

Definition genealogy (s : FinalizedChainState) (domain_id : DomainId)
    : outcome ChainError (list DomainId) :=
  if negb (bcontains domain_id (fs_domains s)) then Err (UnknownDomain domain_id)
  else
    let? reversed :=
      genealogy_loop (length (fs_descriptors s) + 1) (fs_root_domain_id s) (fs_descriptors s)
        domain_id [(domain_id, tt)] [domain_id] in
    Ok (rev reversed).

Section operations.
Context `{Keccak, AlloyRlp, !AlloyTrie, SenderRecovery, Journal, !Revm, AlloyRoots}.

Definition empty_ordered_trie_root : bytes := transactions_root [].

(** The header of block zero of a domain, which the three constructors build. *)
Definition genesis_header (domain_id : DomainId) (height gas_limit base_fee : Z) (state_root : bytes)
    : DomainBlockHeader :=
  {| dh_protocol_version := PROTOCOL_VERSION; dh_domain_id := domain_id; dh_number := 0;
     dh_parent_hash := B256_ZERO; dh_consensus_height := height;
     dh_transactions_root := empty_ordered_trie_root; dh_state_root := state_root;
     dh_receipts_root := empty_ordered_trie_root; dh_logs_bloom := BLOOM_ZERO;
     dh_gas_limit := gas_limit; dh_gas_used := 0; dh_base_fee_per_gas := base_fee |}.

Definition genesis (g : FinalizedChainGenesis) : outcome ChainError FinalizedChainState :=
  run? validate_config (fg_config g) in
  let header :=
    genesis_header (fg_root_domain_id g) 0 (dc_gas_limit (fg_config g))
      (dc_initial_base_fee_per_gas (fg_config g)) (Evm.state_root (fg_state g)) in
  let? block_hash := map_err crypto_error (domain_header_hash header) in
  Ok {| fs_network_id := fg_network_id g; fs_height := 0; fs_consensus_hash := fg_consensus_hash g;
        fs_timestamp := fg_timestamp g; fs_validator_set_hash := fg_validator_set_hash g;
        fs_next_validator_set_hash := fg_validator_set_hash g;
        fs_root_domain_id := fg_root_domain_id g; fs_governance_address := fg_governance_address g;
        fs_domains := [(fg_root_domain_id g,
          {| fd_config := fg_config g; fd_header := header; fd_block_hash := block_hash;
             fd_state := fg_state g |})];
        fs_descriptors := [] |}.

Definition heads_commitment (domains : btree DomainId FinalizedDomain) : commitment :=
  foldl (λ heads e, DomainHeads.insert heads e.1
           {| domain_block_hash := fd_block_hash e.2;
              DomainHeads.state_root := dh_state_root (fd_header e.2) |})
    DomainHeads.new domains.

Definition domain_head_proof (s : FinalizedChainState) (domain_id : DomainId) : option DomainHeadProof :=
  if bcontains domain_id (fs_domains s)
  then Some (DomainHeads.proof (heads_commitment (fs_domains s)) domain_id) else None.

Definition insert_genesis_domain (s : FinalizedChainState) (domain_id : DomainId)
    (config : DomainConfig) (state : ExecutionState) : outcome ChainError FinalizedChainState :=
  run? validate_config config in
  if bcontains domain_id (fs_domains s) then Err (DuplicateGenesisDomain domain_id)
  else
    let header :=
      genesis_header domain_id 0 (dc_gas_limit config) (dc_initial_base_fee_per_gas config)
        (Evm.state_root state) in
    let? block_hash := map_err crypto_error (domain_header_hash header) in
    Ok (with_domains s
          (binsert domain_id
             {| fd_config := config; fd_header := header; fd_block_hash := block_hash;
                fd_state := state |} (fs_domains s))
          (fs_descriptors s)).

Definition domain_heads_root (s : FinalizedChainState) : bytes :=
  DomainHeads.root (heads_commitment (fs_domains s)).

Definition checkpoint (s : FinalizedChainState) : FinalizedChainCheckpoint :=
  {| ck_network_id := fs_network_id s; ck_height := fs_height s;
     ck_consensus_hash := fs_consensus_hash s; ck_timestamp := fs_timestamp s;
     ck_validator_set_hash := fs_validator_set_hash s;
     ck_next_validator_set_hash := fs_next_validator_set_hash s;
     ck_root_domain_id := fs_root_domain_id s; ck_governance_address := fs_governance_address s;
     ck_domain_heads_root := domain_heads_root s;
     ck_domains := (λ e,
       {| dk_domain_id := e.1; dk_config := fd_config e.2; dk_header := fd_header e.2;
          dk_block_hash := fd_block_hash e.2; dk_state := fd_state e.2;
          dk_descriptor := bget e.1 (fs_descriptors s) |}) <$> fs_domains s |}.

Definition validate_checkpoint_descriptor (network_id : NetworkId) (domain_id : DomainId)
    (config : DomainConfig) (d : DomainDescriptor) : outcome ChainError unit :=
  if negb (bool_decide (dd_domain_id d = domain_id)) ||
     negb (bool_decide (dd_status d = Active)) ||
     negb (dd_evm_chain_id d =? dc_chain_id config) ||
     negb (dd_protocol_revision d =? dc_protocol_revision config) ||
     negb (dd_gas_limit d =? dc_gas_limit config) ||
     negb (dd_initial_base_fee d =? dc_initial_base_fee_per_gas config) ||
     negb (bool_decide (derive_domain_id network_id (dd_parent_domain_id d) (dd_create_tx_hash d) =
                        domain_id))
  then Err (CheckpointError "runtime domain descriptor mismatch")
  else Ok tt.

(** The maps of the loop of [reconstruct_checkpoint_domains]. *)
Notation checkpoint_maps :=
  (btree DomainId FinalizedDomain * btree DomainId DomainDescriptor * btree Z unit)%type.

Definition reconstruct_entry (network_id : NetworkId) (root_domain_id : DomainId)
    (height : ConsensusHeight) (maps : checkpoint_maps) (entry : FinalizedDomainCheckpoint)
    : outcome ChainError checkpoint_maps :=
  let '(domains, descriptors, chain_ids) := maps in
  run? validate_config (dk_config entry) in
  let mismatch := CheckpointError "domain header, state, config, or hash mismatch" in
  if negb (bool_decide (dh_domain_id (dk_header entry) = dk_domain_id entry)) ||
     negb (bool_decide (dh_state_root (dk_header entry) = Evm.state_root (dk_state entry))) ||
     (height <? dh_consensus_height (dk_header entry)) ||
     negb (dh_gas_limit (dk_header entry) =? dc_gas_limit (dk_config entry))
  then Err mismatch
  else
    let? hash := map_err crypto_error (domain_header_hash (dk_header entry)) in
    if negb (bool_decide (hash = dk_block_hash entry)) then Err mismatch
    else if bcontains (dc_chain_id (dk_config entry)) chain_ids
    then Err (CheckpointError "duplicate checkpoint chain ID")
    else
      let chain_ids := binsert (dc_chain_id (dk_config entry)) tt chain_ids in
      let? descriptors :=
        match bool_decide (dk_domain_id entry = root_domain_id), dk_descriptor entry with
        | true, None => Ok descriptors
        | true, Some _ => Err (CheckpointError "root domain must not have a runtime descriptor")
        | false, Some d =>
            run? validate_checkpoint_descriptor network_id (dk_domain_id entry) (dk_config entry) d in
            Ok (binsert (dk_domain_id entry) d descriptors)
        | false, None => Err (CheckpointError "runtime domain descriptor is missing")
        end in
      Ok (binsert (dk_domain_id entry)
            {| fd_config := dk_config entry; fd_header := dk_header entry;
               fd_block_hash := dk_block_hash entry; fd_state := dk_state entry |} domains,
          descriptors, chain_ids).

Definition reconstruct_checkpoint_domains (network_id : NetworkId) (root_domain_id : DomainId)
    (height : ConsensusHeight) (entries : list FinalizedDomainCheckpoint)
    : outcome ChainError (btree DomainId FinalizedDomain * btree DomainId DomainDescriptor) :=
  let? maps := for_each (reconstruct_entry network_id root_domain_id height) ([], [], []) entries in
  Ok maps.1.

Definition validate_committed (root : FinalizedDomain) (domains : btree DomainId FinalizedDomain)
    (_ : unit) (e : DomainId * DomainDescriptor) : outcome ChainError unit :=
  if negb (bcontains (dd_parent_domain_id e.2) domains)
  then Err (CheckpointError "descriptor parent is missing")
  else
    let? encoded := map_err codec_error (encode_domain_descriptor e.2) in
    let? committed :=
      map_err evm_error (state_storage (fd_state root) CHAIN_REGISTRY_ADDRESS (descriptor_slot e.1)) in
    if negb (committed =? from_be_bytes (keccak256 encoded))
    then Err (CheckpointError "descriptor is not committed by root ChainRegistry")
    else Ok tt.

Definition validate_checkpoint_descriptors (root : FinalizedDomain)
    (domains : btree DomainId FinalizedDomain) (descriptors : btree DomainId DomainDescriptor)
    : outcome ChainError unit :=
  for_each (validate_committed root domains) tt descriptors.

Definition from_checkpoint (c : FinalizedChainCheckpoint) : outcome ChainError FinalizedChainState :=
  if ck_height c =? 0 then Err (CheckpointError "checkpoint height must be non-zero")
  else if (length (ck_domains c) =? 0)%nat then Err (CheckpointError "checkpoint has no domains")
  else if negb (windows2_all tltb (dk_domain_id <$> ck_domains c))
  then Err (CheckpointError "checkpoint domains are not strictly sorted")
  else
    let? '(domains, descriptors) :=
      reconstruct_checkpoint_domains (ck_network_id c) (ck_root_domain_id c) (ck_height c)
        (ck_domains c) in
    let? root :=
      ok_or (bget (ck_root_domain_id c) domains) (CheckpointError "root domain is missing") in
    run? validate_checkpoint_descriptors root domains descriptors in
    let state :=
      {| fs_network_id := ck_network_id c; fs_height := ck_height c;
         fs_consensus_hash := ck_consensus_hash c; fs_timestamp := ck_timestamp c;
         fs_validator_set_hash := ck_validator_set_hash c;
         fs_next_validator_set_hash := ck_next_validator_set_hash c;
         fs_root_domain_id := ck_root_domain_id c; fs_governance_address := ck_governance_address c;
         fs_domains := domains; fs_descriptors := descriptors |} in
    if negb (bool_decide (domain_heads_root state = ck_domain_heads_root c))
    then Err (CheckpointError "domain-head root mismatch")
    else
      run? for_each (λ _ domain_id, run? genealogy state domain_id in Ok tt) tt (bkeys descriptors) in
      Ok state.

Definition validate_domain_genesis (d : DomainDescriptor) (state : ExecutionState)
    : outcome ChainError unit :=
  let? account := map_err evm_error (state_account state (dd_owner d)) in
  let owner_balance := from_option balance 0 account in
  if negb (owner_balance =? dd_initial_supply d)
  then Err (RegistryInvariant "owner allocation differs from initial supply")
  else
    let genesis :=
      {| dg_domain_id := dd_domain_id d; dg_parent_domain_id := dd_parent_domain_id d;
         dg_joint_domain_block_hash := dd_joint_domain_block_hash d;
         dg_create_tx_hash := dd_create_tx_hash d; dg_name := dd_name d; dg_symbol := dd_symbol d;
         dg_evm_chain_id := dd_evm_chain_id d; dg_owner := dd_owner d;
         dg_protocol_revision := dd_protocol_revision d; dg_gas_limit := dd_gas_limit d;
         dg_initial_base_fee := dd_initial_base_fee d; dg_initial_supply := dd_initial_supply d;
         dg_initial_state_root := Evm.state_root state |} in
    let? hash := map_err crypto_error (domain_genesis_hash genesis) in
    if negb (bool_decide (hash = dd_origin_hash d))
    then Err (RegistryInvariant "domain origin hash mismatch")
    else Ok tt.

Definition insert_created_domain (height : ConsensusHeight) (s : FinalizedChainState)
    (created : CreatedDomain) : outcome ChainError FinalizedChainState :=
  let d := cd_descriptor created in
  if bcontains (dd_domain_id d) (fs_domains s) || bcontains (dd_domain_id d) (fs_descriptors s)
  then Err (DuplicateCreatedDomain (dd_domain_id d))
  else if negb (bcontains (dd_parent_domain_id d) (fs_domains s))
  then Err (RegistryInvariant "created domain parent is absent")
  else if negb (bool_decide (dd_status d = Active)) ||
          negb (bool_decide (derive_domain_id (fs_network_id s) (dd_parent_domain_id d)
                               (dd_create_tx_hash d) = dd_domain_id d))
  then Err (RegistryInvariant "created domain identity/status mismatch")
  else if existsb (λ fd, dc_chain_id (fd_config fd) =? dd_evm_chain_id d) (bvalues (fs_domains s))
  then Err (RegistryInvariant "duplicate EVM chain ID")
  else
    let config :=
      {| dc_chain_id := dd_evm_chain_id d; dc_protocol_revision := dd_protocol_revision d;
         dc_gas_limit := dd_gas_limit d; dc_initial_base_fee_per_gas := dd_initial_base_fee d |} in
    run? validate_config config in
    run? validate_domain_genesis d (cd_genesis_state created) in
    let header :=
      genesis_header (dd_domain_id d) height (dd_gas_limit d) (dd_initial_base_fee d)
        (Evm.state_root (cd_genesis_state created)) in
    let? block_hash := map_err crypto_error (domain_header_hash header) in
    Ok (with_domains s
          (binsert (dd_domain_id d)
             {| fd_config := config; fd_header := header; fd_block_hash := block_hash;
                fd_state := cd_genesis_state created |} (fs_domains s))
          (binsert (dd_domain_id d) d (fs_descriptors s))).

Definition balance_of (s : FinalizedChainState) (domain_id : DomainId) (address : bytes) : option Z :=
  fd ← domain s domain_id;
  a ← match state_account (fd_state fd) address with Ok a => a | _ => None end;
  Some (balance a).
End operations.

(** ** Lines of parents *)

Section lineage.
Variable root : DomainId.
Variable descriptors : btree DomainId DomainDescriptor.

Inductive lineage : DomainId → list DomainId → Prop :=
| lineage_root : lineage root [root]
| lineage_step id d l :
    id ≠ root → bget id descriptors = Some d → lineage (dd_parent_domain_id d) l → lineage id (id :: l).

Lemma lineage_head id l : lineage id l → ∃ t, l = id :: t.
Proof. intros []; by eexists. Qed.

Lemma lineage_det id l1 l2 : lineage id l1 → lineage id l2 → l1 = l2.
Proof.
  intros Hl. revert l2. induction Hl as [|id d l Hne Hd _ IH]; intros l2 Hl2; inversion Hl2; simplify_eq; [done|].
  f_equal. by apply IH.
Qed.

Lemma lineage_in id l x : lineage id l → x ∈ l → ∃ l', lineage x l' ∧ (length l' <= length l)%nat.
Proof.
  intros Hl. induction Hl as [|id d l Hne Hd Hl IH]; intros Hx.
  - apply list_elem_of_singleton in Hx as ->. exists [root]. split; [constructor|done].
  - apply elem_of_cons in Hx as [->|Hx]; [exists (id :: l); split; [by econstructor|done]|].
    destruct (IH Hx) as (l' & Hl' & Hle). exists l'. split; [done|]. cbn. lia.
Qed.

Lemma lineage_NoDup id l : lineage id l → NoDup l.
Proof.
  intros Hl. induction Hl as [|id d l Hne Hd Hl IH]; [repeat constructor; by intros ?%elem_of_nil|].
  constructor; [|done]. intros Hin. destruct (lineage_in _ _ _ Hl Hin) as (l' & Hl' & Hle).
  assert (l' = id :: l) as -> by (eapply lineage_det; [done|by econstructor]). cbn in Hle. lia.
Qed.

Lemma lineage_root_in id l : lineage id l → ∃ t, l = t ++ [root].
Proof.
  intros Hl. induction Hl as [|id d l Hne Hd Hl [t ->]]; [by exists []|]. by exists (id :: t).
Qed.

Lemma lineage_pairs id l :
  lineage id l → ∀ i child parent, l !! i = Some child → l !! S i = Some parent →
  ∃ d, bget child descriptors = Some d ∧ dd_parent_domain_id d = parent.
Proof.
  intros Hl. induction Hl as [|id d l Hne Hd Hl IH]; intros i child parent Hc Hp; [by destruct i|].
  destruct i as [|i]; [|by eapply IH]. injection Hc as <-. destruct (lineage_head _ _ Hl) as [t ->].
  injection Hp as <-. by exists d.
Qed.

(** Every domain of the line but the root has a descriptor. *)
Lemma lineage_keys id l x : lineage id l → x ∈ l → x = root ∨ x ∈ bkeys descriptors.
Proof.
  intros Hl. induction Hl as [|id d l Hne Hd Hl IH]; intros Hx.
  - apply list_elem_of_singleton in Hx as ->. by left.
  - apply elem_of_cons in Hx as [->|Hx]; [right; apply bkeys_elem; by eexists|by apply IH].
Qed.

Lemma lineage_length id l : lineage id l → (length l <= length descriptors + 1)%nat.
Proof.
  intros Hl. pose proof (lineage_NoDup _ _ Hl) as Hnd.
  assert (l ⊆ root :: bkeys descriptors) as Hsub.
  { intros x Hx. destruct (lineage_keys _ _ _ Hl Hx) as [->|Hk]; [by left|by right]. }
  pose proof (submseteq_length _ _ (NoDup_submseteq _ _ Hnd Hsub)) as Hle.
  unfold bkeys in Hle. cbn in Hle. rewrite length_fmap in Hle. lia.
Qed.

(** ** The loop computes the line *)

Lemma genealogy_loop_sound fuel current seen reversed r :
  genealogy_loop fuel root descriptors current seen reversed = Ok r →
  ∃ l, lineage current l ∧ r = reversed ++ tail l.
Proof.
  revert current seen reversed. induction fuel as [|fuel IH]; intros current seen reversed Hg;
    cbn [genealogy_loop] in Hg; case_bool_decide as Hroot;
    try (injection Hg as <-; subst current; exists [root]; split; [constructor|by rewrite app_nil_r]); [done|].
  apply obind_Ok in Hg as (d & Hd & Hg). apply ok_or_Ok in Hd. destruct (bcontains _ _); [done|].
  apply IH in Hg as (l & Hl & ->). exists (current :: l). split; [by econstructor|].
  destruct (lineage_head _ _ Hl) as [t ->]. cbn. by rewrite <-app_assoc.
Qed.

Lemma genealogy_loop_complete fuel current seen reversed l :
  lineage current l → (length l <= S fuel)%nat → (∀ x, x ∈ tail l → bget x seen = None) →
  genealogy_loop fuel root descriptors current seen reversed = Ok (reversed ++ tail l).
Proof.
  intros Hl. revert fuel seen reversed. induction Hl as [|id d l Hne Hd Hl IH]; intros fuel seen reversed Hf Hs.
  - destruct fuel; cbn [genealogy_loop tail]; rewrite bool_decide_true by done; by rewrite app_nil_r.
  - pose proof (lineage_NoDup _ _ Hl) as Hnd. destruct (lineage_head _ _ Hl) as [t ->].
    destruct fuel as [|fuel]; [cbn in Hf; lia|]. cbn [genealogy_loop]. rewrite bool_decide_false, Hd by done.
    cbn [ok_or obind]. rewrite (proj2 (bcontains_false _ _)) by (apply Hs; by left).
    rewrite (IH fuel); [cbn [tail]; by rewrite <-app_assoc|cbn in *; lia|].
    intros x Hx. cbn [tail] in Hx. apply list.NoDup_cons in Hnd as [Hn _]. rewrite bget_binsert_ne by (by intros ->).
    apply Hs. by right.
Qed.

Lemma genealogy_loop_no_panic fuel current seen pre m :
  NoDup (pre ++ [current]) → (∀ x, is_Some (bget x seen) ↔ x ∈ pre ++ [current]) →
  (∀ x, x ∈ pre → x ∈ bkeys descriptors) → (length pre + fuel = length descriptors + 1)%nat →
  genealogy_loop fuel root descriptors current seen (pre ++ [current]) ≠ Panic m.
Proof.
  revert current seen pre. induction fuel as [|fuel IH]; intros current seen pre Hnd Hs Hk Hf;
    cbn [genealogy_loop]; case_bool_decide as Hroot; try done.
  - exfalso. apply list.NoDup_app in Hnd as (Hnd & _ & _).
    pose proof (submseteq_length _ _ (NoDup_submseteq _ _ Hnd Hk)) as Hle.
    unfold bkeys in Hle. rewrite length_fmap in Hle. lia.
  - destruct (bget current descriptors) as [d|] eqn:Hd; cbn [ok_or obind]; [|done].
    destruct (bcontains _ _) eqn:Hc; [done|]. apply bcontains_false in Hc.
    assert (dd_parent_domain_id d ∉ pre ++ [current]) as Hnew by (rewrite <-Hs, Hc; by intros []).
    apply IH.
    + apply list.NoDup_app. split; [done|]. split; [|repeat constructor; by intros ?%elem_of_nil].
      intros x Hx ->%list_elem_of_singleton. done.
    + intros x. rewrite elem_of_app, list_elem_of_singleton, bget_binsert. destruct (teqb x _) eqn:E.
      * apply teqb_eq in E. split; [by right|done].
      * rewrite Hs. split; [by left|]. intros [Hx| ->]; [done|]. by rewrite (proj2 (teqb_eq _ _)) in E.
    + intros x [Hx|Hx%list_elem_of_singleton]%elem_of_app; [by apply Hk|]. subst x. apply bkeys_elem. by eexists.
    + rewrite length_app. cbn. lia.
Qed.
End lineage.

(** ** Well-formed states *)

Section invariant.
Context `{Keccak, AlloyRlp, !AlloyTrie, SenderRecovery, Journal, !Revm, AlloyRoots}.

(** A domain whose last block is not after [height]. *)
Record domain_ok (height : Z) (id : DomainId) (fd : FinalizedDomain) : Prop := {
  do_config : validate_config (fd_config fd) = Ok tt;
  do_id : dh_domain_id (fd_header fd) = id;
  do_state : dh_state_root (fd_header fd) = Evm.state_root (fd_state fd);
  do_height : dh_consensus_height (fd_header fd) ≤ height;
  do_gas_limit : dh_gas_limit (fd_header fd) = dc_gas_limit (fd_config fd);
  do_hash : domain_header_hash (fd_header fd) = Ok (fd_block_hash fd);
}.

Definition chain_ids (domains : btree DomainId FinalizedDomain) : list Z :=
  (λ fd, dc_chain_id (fd_config fd)) <$> bvalues domains.

Record chain_ok (height : Z) (s : FinalizedChainState) : Prop := {
  co_domains_sorted : sorted (fs_domains s);
  co_descriptors_sorted : sorted (fs_descriptors s);
  co_domains : ∀ id fd, bget id (fs_domains s) = Some fd → domain_ok height id fd;
  co_chain_ids : NoDup (chain_ids (fs_domains s));
  co_root : is_Some (bget (fs_root_domain_id s) (fs_domains s)) ∧
    bget (fs_root_domain_id s) (fs_descriptors s) = None;
  co_described : ∀ id fd, bget id (fs_domains s) = Some fd → id ≠ fs_root_domain_id s →
    ∃ d, bget id (fs_descriptors s) = Some d ∧
      validate_checkpoint_descriptor (fs_network_id s) id (fd_config fd) d = Ok tt;
  co_descriptors : ∀ id d, bget id (fs_descriptors s) = Some d → is_Some (bget id (fs_domains s));
  co_lineage : ∀ id, is_Some (bget id (fs_domains s)) →
    ∃ l, lineage (fs_root_domain_id s) (fs_descriptors s) id l;
}.

Lemma genesis_domain_ok id height config state hash :
  validate_config config = Ok tt →
  domain_header_hash (genesis_header id height (dc_gas_limit config) (dc_initial_base_fee_per_gas config)
    (Evm.state_root state)) = Ok hash →
  domain_ok height id
    {| fd_config := config;
       fd_header := genesis_header id height (dc_gas_limit config) (dc_initial_base_fee_per_gas config)
         (Evm.state_root state);
       fd_block_hash := hash; fd_state := state |}.
Proof. intros Hc Hh. by split. Qed.

Lemma genesis_ok g s : genesis g = Ok s → chain_ok 0 s.
Proof.
  unfold genesis. intros Hg. apply obind_Ok in Hg as ([] & Hc & Hg).
  apply obind_Ok in Hg as (hash & Hh & [= <-]). apply map_err_Ok in Hh.
  pose proof (genesis_domain_ok _ _ _ _ _ Hc Hh) as Hd.
  split; cbn [fs_domains fs_descriptors fs_root_domain_id].
  - repeat constructor.
  - constructor.
  - intros id fd Hid. cbn in Hid. destruct (teqb id _) eqn:E; [|done]. apply teqb_eq in E as ->. by injection Hid as <-.
  - repeat constructor. by intros ?%elem_of_nil.
  - cbn. by rewrite (proj2 (teqb_eq _ _)).
  - intros id fd Hid Hne. cbn in Hid. destruct (teqb id _) eqn:E; [|done]. by apply teqb_eq in E.
  - done.
  - intros id [fd Hid]. cbn in Hid. destruct (teqb id _) eqn:E; [|done]. apply teqb_eq in E as ->.
    exists [fg_root_domain_id g]. constructor.
Qed.

Lemma lineage_insert root ds id d x l :
  bget id ds = None → lineage root ds x l → lineage root (binsert id d ds) x l.
Proof.
  intros Hnew Hl. induction Hl as [|x dx l Hne Hd _ IH]; [constructor|].
  econstructor; [done| |done]. rewrite bget_binsert_ne; [done|]. intros ->. by rewrite Hnew in Hd.
Qed.

Lemma chain_ids_new id fd domains :
  bget id domains = None → chain_ids (binsert id fd domains) ≡ₚ dc_chain_id (fd_config fd) :: chain_ids domains.
Proof. intros Hn. unfold chain_ids, bvalues. by rewrite (binsert_perm _ _ _ Hn). Qed.

(** Inserting a domain with its descriptor. *)
Lemma chain_ok_insert height s id fd d :
  chain_ok height s → bget id (fs_domains s) = None → bget id (fs_descriptors s) = None →
  domain_ok height id fd → dc_chain_id (fd_config fd) ∉ chain_ids (fs_domains s) →
  is_Some (bget (dd_parent_domain_id d) (fs_domains s)) →
  validate_checkpoint_descriptor (fs_network_id s) id (fd_config fd) d = Ok tt →
  chain_ok height (with_domains s (binsert id fd (fs_domains s)) (binsert id d (fs_descriptors s))).
Proof.
  intros [] Hn Hnd Hfd Hcid Hpar Hval.
  assert (id ≠ fs_root_domain_id s) as Hroot by (intros ->; destruct co_root0 as [[? Hr] _]; congruence).
  split; cbn [fs_domains fs_descriptors fs_root_domain_id fs_network_id with_domains].
  - by apply sorted_binsert.
  - by apply sorted_binsert.
  - intros x fx. rewrite bget_binsert. destruct (teqb x id) eqn:E; [|by apply co_domains0].
    apply teqb_eq in E as ->. by intros [= <-].
  - rewrite (chain_ids_new _ _ _ Hn). by constructor.
  - rewrite !bget_binsert_ne by done. done.
  - intros x fx. rewrite !bget_binsert. destruct (teqb x id) eqn:E; [|by apply co_described0].
    apply teqb_eq in E as ->. intros [= <-] _. by exists d.
  - intros x dx. rewrite !bget_binsert. destruct (teqb x id) eqn:E; [done|by apply co_descriptors0].
  - intros x. rewrite bget_binsert. destruct (teqb x id) eqn:E.
    + apply teqb_eq in E as ->. intros _. destruct (co_lineage0 _ Hpar) as [l Hl]. exists (id :: l).
      econstructor; [done|by rewrite bget_binsert_eq|]. by apply lineage_insert.
    + intros Hx. destruct (co_lineage0 _ Hx) as [l Hl]. exists l. by apply lineage_insert.
Qed.

Lemma insert_created_ok height s created s' :
  chain_ok height s → insert_created_domain height s created = Ok s' → chain_ok height s'.
Proof.
  intros Hok. unfold insert_created_domain. set (d := cd_descriptor created). intros Hi.
  destruct (_ || _) eqn:E1; [done|]. apply orb_false_iff in E1 as [Hn Hnd]. apply bcontains_false in Hn, Hnd.
  destruct (negb _) eqn:E2; [done|]. apply negb_false_iff, bcontains_true in E2.
  destruct (negb (bool_decide (dd_status d = Active)) || _) eqn:E3; [done|].
  apply orb_false_iff in E3 as [Es Eid]. apply negb_false_iff, bool_decide_eq_true in Es, Eid.
  destruct (existsb _ _) eqn:E4; [done|].
  apply obind_Ok in Hi as ([] & Hc & Hi). apply obind_Ok in Hi as ([] & Hg & Hi).
  apply obind_Ok in Hi as (hash & Hh & [= <-]). apply map_err_Ok in Hh.
  apply chain_ok_insert; try done.
  - cbn. intros Hin. apply list_elem_of_fmap in Hin as (fd & Eq & Hin).
    apply not_true_iff_false in E4. apply E4. apply existsb_exists. exists fd. split; [by apply list_elem_of_In|].
    apply Z.eqb_eq. done.
  - unfold validate_checkpoint_descriptor. cbn. rewrite !Z.eqb_refl, Eid, Es. by rewrite !bool_decide_true.
Qed.

Lemma genealogy_complete height s id :
  chain_ok height s → is_Some (bget id (fs_domains s)) →
  ∃ l, lineage (fs_root_domain_id s) (fs_descriptors s) id l ∧ genealogy s id = Ok (rev l).
Proof.
  intros Hok Hid. destruct (co_lineage _ _ Hok _ Hid) as [l Hl]. exists l. split; [done|].
  unfold genealogy. rewrite (proj2 (bcontains_true _ _)) by done. cbn [negb].
  pose proof (lineage_NoDup _ _ _ _ Hl) as Hnd. pose proof (lineage_length _ _ _ _ Hl) as Hlen.
  destruct (lineage_head _ _ _ _ Hl) as [t ->].
  rewrite (genealogy_loop_complete _ _ _ _ _ _ _ Hl); [done|lia|].
  intros x Hx. cbn [tail] in Hx. apply list.NoDup_cons in Hnd as [Hn _]. cbn.
  destruct (teqb x id) eqn:E; [|done]. apply teqb_eq in E as ->. done.
Qed.

Lemma genealogy_no_panic s id m : genealogy s id ≠ Panic m.
Proof.
  unfold genealogy. destruct (negb _); [done|].
  apply obind_no_panic; [|done]. apply (genealogy_loop_no_panic _ _ _ _ _ []).
  - repeat constructor. by intros ?%elem_of_nil.
  - intros x. cbn. rewrite list_elem_of_singleton. destruct (teqb x id) eqn:E.
    + apply teqb_eq in E. split; [done|by eexists].
    + split; [by intros []|]. intros ->. by rewrite (proj2 (teqb_eq _ _)) in E.
  - by intros x ?%elem_of_nil.
  - cbn. lia.
Qed.

(** The genealogy of a domain always terminates and is its line of parents.
    Whatever the descriptors, even cyclic or missing, the computation returns. In
    a well-formed state it succeeds for every domain, with a list that starts with
    the root, ends with the domain, repeats nothing, and in which every domain
    after the root is followed back to the parent its descriptor names. *)
Theorem genealogy_terminates height s id :
  (∀ m, genealogy s id ≠ Panic m) ∧
  (chain_ok height s → is_Some (bget id (fs_domains s)) →
   ∃ l, genealogy s id = Ok l ∧ NoDup l ∧ (∃ t, l = fs_root_domain_id s :: t) ∧ (∃ t, l = t ++ [id]) ∧
     ∀ i parent child, l !! i = Some parent → l !! S i = Some child →
       ∃ d, bget child (fs_descriptors s) = Some d ∧ dd_parent_domain_id d = parent).
Proof.
  split; [apply genealogy_no_panic|]. intros Hok Hid.
  destruct (genealogy_complete _ _ _ Hok Hid) as (l & Hl & ->). exists (rev l). split; [done|].
  split; [rewrite <-(Permutation_rev l); by eapply lineage_NoDup|].
  split; [destruct (lineage_root_in _ _ _ _ Hl) as [t ->]; rewrite rev_app_distr; by eexists|].
  split; [destruct (lineage_head _ _ _ _ Hl) as [t ->]; by eexists|].
  intros i parent child Hp Hc. assert (rev l = reverse l) as Er by apply rev_alt. rewrite Er in Hp, Hc.
  pose proof (lookup_lt_Some _ _ _ Hc) as Hlt. rewrite length_reverse in Hlt.
  rewrite reverse_lookup in Hp, Hc by lia.
  apply (lineage_pairs _ _ _ _ Hl (length l - S (S i))); [done|]. rewrite <-Hp. f_equal. lia.
Qed.
End invariant.

(** ** Checkpoints *)

Lemma for_each_unit {E A : Type} (f : unit → A → outcome E unit) l :
  for_each f tt l = Ok tt ↔ Forall (λ a, f tt a = Ok tt) l.
Proof.
  induction l as [|a l IH]; cbn [for_each]; [done|]. rewrite list.Forall_cons, <-IH. split.
  - intros Hl. by apply obind_Ok in Hl as ([] & Ha & Hl).
  - intros [-> Hl]. done.
Qed.

Lemma bextend_sorted {K V : Type} `{TotalOrder K} (l : list (K * V)) : sorted l → bextend [] l = l.
Proof.
  intros Hs. pose proof (sorted_NoDup _ Hs) as Hnd.
  assert (functional l) as Hf.
  { intros k v v' Hv Hv'. apply (elem_of_bget _ _ _ Hs) in Hv, Hv'. congruence. }
  apply btree_ext; [apply sorted_bextend; constructor|done|]. intros k.
  destruct (bget k l) as [v|] eqn:Hk.
  - apply bget_bextend_in; [done|]. by apply bget_elem_of.
  - rewrite bget_bextend_notin; [done|]. by apply bget_None.
Qed.

Section checkpoints.
Context `{Keccak, AlloyRlp, !AlloyTrie, SenderRecovery, Journal, !Revm, AlloyRoots}.

Definition entry_domain (e : FinalizedDomainCheckpoint) : DomainId * FinalizedDomain :=
  (dk_domain_id e, {| fd_config := dk_config e; fd_header := dk_header e;
                      fd_block_hash := dk_block_hash e; fd_state := dk_state e |}).

Definition entry_descriptor (e : FinalizedDomainCheckpoint) : option (DomainId * DomainDescriptor) :=
  d ← dk_descriptor e; Some (dk_domain_id e, d).

Definition entry_ok (network_id : NetworkId) (root : DomainId) (height : Z)
    (e : FinalizedDomainCheckpoint) : Prop :=
  domain_ok height (dk_domain_id e) (entry_domain e).2 ∧
  match dk_descriptor e with
  | None => dk_domain_id e = root
  | Some d => dk_domain_id e ≠ root ∧
      validate_checkpoint_descriptor network_id (dk_domain_id e) (dk_config e) d = Ok tt
  end.

Lemma reconstruct_entry_Ok net root height D S C e maps :
  reconstruct_entry net root height (D, S, C) e = Ok maps ↔
    entry_ok net root height e ∧ bget (dc_chain_id (dk_config e)) C = None ∧
    maps = (bextend D [entry_domain e], bextend S (option_list (entry_descriptor e)),
            binsert (dc_chain_id (dk_config e)) tt C).
Proof.
  unfold reconstruct_entry, entry_ok, entry_descriptor. split.
  - intros Hr. apply obind_Ok in Hr as ([] & Hc & Hr). destruct (_ || _) eqn:Hg; [done|].
    rewrite !orb_false_iff in Hg. destruct Hg as (((G1 & G2) & G3) & G4). bool_prop.
    apply obind_Ok in Hr as (hash & Hh & Hr). apply map_err_Ok in Hh.
    destruct (negb _) eqn:G5; [done|]. bool_prop. subst hash.
    destruct (bcontains _ _) eqn:G6; [done|]. apply bcontains_false in G6.
    apply obind_Ok in Hr as (S' & HS & [= <-]).
    assert (domain_ok height (dk_domain_id e) (entry_domain e).2) as Hd by (by split; cbn; try done; lia).
    case_bool_decide as Hroot; destruct (dk_descriptor e) as [d|]; try done.
    + by injection HS as <-.
    + apply obind_Ok in HS as ([] & Hv & [= <-]). done.
  - intros ([[Hc Hi Hst Hh Hg Hhash] Hdesc] & G6 & ->). cbn in Hc, Hi, Hst, Hh, Hg, Hhash.
    rewrite Hc. cbn [obind]. rewrite Hi, Hst, Hg, Z.eqb_refl, !bool_decide_true by done.
    rewrite (proj2 (Z.ltb_ge _ _)) by done. cbn [negb orb]. rewrite Hhash. cbn [map_err obind].
    rewrite bool_decide_true by done. cbn [negb]. rewrite (proj2 (bcontains_false _ _)) by done.
    destruct (dk_descriptor e) as [d|].
    + destruct Hdesc as [Hne Hv]. rewrite bool_decide_false by done. by rewrite Hv.
    + by rewrite bool_decide_true.
Qed.

Lemma reconstruct_Ok net root height es D S C maps :
  for_each (reconstruct_entry net root height) (D, S, C) es = Ok maps ↔
    Forall (entry_ok net root height) es ∧
    NoDup ((λ e, dc_chain_id (dk_config e)) <$> es) ∧
    (∀ c, c ∈ (λ e, dc_chain_id (dk_config e)) <$> es → bget c C = None) ∧
    maps = (bextend D (entry_domain <$> es), bextend S (omap entry_descriptor es),
            bextend C ((λ e, (dc_chain_id (dk_config e), tt)) <$> es)).
Proof.
  revert D S C maps. induction es as [|e es IH]; intros D S C maps; cbn [for_each].
  - split; [|by intros (_ & _ & _ & ->)]. intros [= <-]. split_and!; [done|constructor| |done].
    by intros c ?%elem_of_nil.
  - cbn [fmap list_fmap]. rewrite list.Forall_cons, list.NoDup_cons. split.
    + intros Hl. apply obind_Ok in Hl as ([[D1 S1] C1] & He & Hl).
      apply reconstruct_entry_Ok in He as (Hok & Hc & [= -> -> ->]). apply IH in Hl as (Hf & Hnd & Hnew & ->).
      split_and!; [done|done| |done| |].
      * intros Hin%Hnew. by rewrite bget_binsert_eq in Hin.
      * intros c [->|Hin]%elem_of_cons; [done|]. specialize (Hnew _ Hin). rewrite bget_binsert in Hnew.
        by destruct (teqb c _).
      * rewrite <-!bextend_app. unfold entry_descriptor. cbn [omap list_omap]. by destruct (dk_descriptor e).
    + intros ((Hok & Hf) & (Hni & Hnd) & Hnew & ->).
      pose proof (proj2 (reconstruct_entry_Ok net root height D S C e _)
        (conj Hok (conj (Hnew _ (list_elem_of_here _ _)) eq_refl))) as ->. cbn [obind].
      apply IH. split_and!; [done|done| |].
      * intros c Hc. rewrite bget_binsert_ne; [apply Hnew; by right|]. by intros ->.
      * rewrite <-!bextend_app. unfold entry_descriptor. cbn [omap list_omap]. by destruct (dk_descriptor e).
Qed.

(** Each descriptor is stored, by its hash, in the registry of the root domain. *)
Definition registry_commits (s : FinalizedChainState) : Prop :=
  ∀ root id d, bget (fs_root_domain_id s) (fs_domains s) = Some root →
    bget id (fs_descriptors s) = Some d →
    ∃ encoded, encode_domain_descriptor d = Ok encoded ∧
      state_storage (fd_state root) CHAIN_REGISTRY_ADDRESS (descriptor_slot id) =
        Ok (from_be_bytes (keccak256 encoded)).

Lemma validate_committed_Ok root domains e :
  validate_committed root domains tt e = Ok tt ↔
    is_Some (bget (dd_parent_domain_id e.2) domains) ∧
    ∃ encoded, encode_domain_descriptor e.2 = Ok encoded ∧
      state_storage (fd_state root) CHAIN_REGISTRY_ADDRESS (descriptor_slot e.1) =
        Ok (from_be_bytes (keccak256 encoded)).
Proof.
  unfold validate_committed. split.
  - intros Hv. destruct (negb _) eqn:Hp; [done|]. apply negb_false_iff, bcontains_true in Hp. split; [done|].
    apply obind_Ok in Hv as (encoded & He & Hv). apply map_err_Ok in He.
    apply obind_Ok in Hv as (c & Hc & Hv). apply map_err_Ok in Hc. destruct (negb _) eqn:Ec; [done|].
    apply negb_false_iff, Z.eqb_eq in Ec. subst c. by exists encoded.
  - intros [Hp (encoded & He & Hs)]. rewrite (proj2 (bcontains_true _ _)) by done. cbn [negb].
    rewrite He. cbn [map_err obind]. rewrite Hs. cbn [map_err obind]. by rewrite Z.eqb_refl.
Qed.

Lemma descriptors_of_entries (es : list FinalizedDomainCheckpoint) :
  StronglySorted tlt (dk_domain_id <$> es) →
  sorted (omap entry_descriptor es) ∧
  ∀ e, e ∈ es → bget (dk_domain_id e) (omap entry_descriptor es) = dk_descriptor e.
Proof.
  induction es as [|e es IH]; [split; [constructor|by intros e ?%elem_of_nil]|].
  cbn [fmap list_fmap]. intros [Hs Hlt]%StronglySorted_inv. destruct (IH Hs) as [IHs IHg].
  assert (∀ x, x ∈ bkeys (omap entry_descriptor es) → tlt (dk_domain_id e) x) as Hbelow.
  { intros x ([k d] & -> & Hx)%list_elem_of_fmap. apply list_elem_of_omap in Hx as (e' & He' & Hd).
    unfold entry_descriptor in Hd. destruct (dk_descriptor e'); [|done]. injection Hd as <- <-.
    rewrite list.Forall_forall in Hlt. exact (Hlt _ (list_elem_of_fmap_2 dk_domain_id _ _ He')). }
  assert (bget (dk_domain_id e) (omap entry_descriptor es) = None) as Hnone.
  { apply (bget_below _ _ (dk_domain_id e)); [by apply list.Forall_forall|by left]. }
  assert (∀ e', e' ∈ es → dk_domain_id e' ≠ dk_domain_id e) as Hne.
  { intros e' He' E. rewrite list.Forall_forall in Hlt. apply (tlt_irrefl (dk_domain_id e)).
    rewrite <-E at 2. exact (Hlt _ (list_elem_of_fmap_2 dk_domain_id _ _ He')). }
  cbn [omap list_omap]. destruct (dk_descriptor e) as [d|] eqn:Hd.
  - assert (entry_descriptor e = Some (dk_domain_id e, d)) as -> by (unfold entry_descriptor; by rewrite Hd). split.
    + constructor; [done|]. by apply list.Forall_forall.
    + intros e' [->|He']%elem_of_cons; cbn [bget]; [by rewrite (proj2 (teqb_eq _ _)), Hd|].
      destruct (teqb _ _) eqn:E; [apply teqb_eq in E; by apply Hne in He'|by apply IHg].
  - assert (entry_descriptor e = None) as -> by (unfold entry_descriptor; by rewrite Hd).
    split; [done|]. intros e' [->|He']%elem_of_cons; [by rewrite Hd|by apply IHg].
Qed.

(** The state a checkpoint describes. *)
Definition described (c : FinalizedChainCheckpoint) : FinalizedChainState :=
  {| fs_network_id := ck_network_id c; fs_height := ck_height c;
     fs_consensus_hash := ck_consensus_hash c; fs_timestamp := ck_timestamp c;
     fs_validator_set_hash := ck_validator_set_hash c;
     fs_next_validator_set_hash := ck_next_validator_set_hash c;
     fs_root_domain_id := ck_root_domain_id c; fs_governance_address := ck_governance_address c;
     fs_domains := entry_domain <$> ck_domains c;
     fs_descriptors := omap entry_descriptor (ck_domains c) |}.

Record checkpoint_ok (c : FinalizedChainCheckpoint) : Prop := {
  cp_height : ck_height c ≠ 0;
  cp_some : ck_domains c ≠ [];
  cp_sorted : StronglySorted tlt (dk_domain_id <$> ck_domains c);
  cp_entries : Forall (entry_ok (ck_network_id c) (ck_root_domain_id c) (ck_height c)) (ck_domains c);
  cp_chain_ids : NoDup ((λ e, dc_chain_id (dk_config e)) <$> ck_domains c);
  cp_committed : ∃ root, bget (ck_root_domain_id c) (fs_domains (described c)) = Some root ∧
    Forall (λ e, validate_committed root (fs_domains (described c)) tt e = Ok tt) (fs_descriptors (described c));
  cp_heads : domain_heads_root (described c) = ck_domain_heads_root c;
  cp_genealogy : ∀ id, id ∈ bkeys (fs_descriptors (described c)) → ∃ l, genealogy (described c) id = Ok l;
}.

Lemma sorted_entries es :
  StronglySorted tlt (dk_domain_id <$> es) → sorted (entry_domain <$> es).
Proof. intros Hs. unfold sorted, bkeys. rewrite <-list_fmap_compose. exact Hs. Qed.

Lemma from_checkpoint_Ok c s :
  from_checkpoint c = Ok s ↔ checkpoint_ok c ∧ s = described c.
Proof.
  unfold from_checkpoint, reconstruct_checkpoint_domains, validate_checkpoint_descriptors. split.
  - intros Hf. destruct (Z.eqb_spec (ck_height c) 0) as [|Hh]; [done|].
    destruct (Nat.eqb_spec (length (ck_domains c)) 0) as [|Hl]; [done|].
    destruct (negb _) eqn:Hw; [done|]. apply negb_false_iff, strict_StronglySorted in Hw.
    apply obind_Ok in Hf as ([D S] & Hr & Hf). apply obind_Ok in Hr as ([[D' S'] C'] & Hr & [= -> ->]).
    apply reconstruct_Ok in Hr as (He & Hnd & _ & [= -> -> ->]).
    rewrite !bextend_sorted in Hf by (by apply sorted_entries || by apply descriptors_of_entries).
    apply obind_Ok in Hf as (root & Hroot & Hf). apply ok_or_Ok in Hroot.
    apply obind_Ok in Hf as ([] & Hv & Hf). apply for_each_unit in Hv. fold (described c) in Hf.
    destruct (negb _) eqn:Hheads; [done|]. apply negb_false_iff, bool_decide_eq_true in Hheads.
    apply obind_Ok in Hf as ([] & Hg & [= <-]). apply for_each_unit in Hg. rewrite list.Forall_forall in Hg.
    split; [|done]. split; try done.
    + intros E. by rewrite E in Hl.
    + by exists root.
    + intros id Hid. specialize (Hg _ Hid). apply obind_Ok in Hg as (l & Hg & _). by exists l.
  - intros [[Hh Hs Hw He Hnd (root & Hroot & Hv) Hheads Hg] ->].
    destruct (Z.eqb_spec (ck_height c) 0) as [|_]; [done|].
    destruct (Nat.eqb_spec (length (ck_domains c)) 0) as [E|_]; [by apply length_zero_iff_nil in E|].
    rewrite (proj2 (strict_StronglySorted _) Hw). cbn [negb].
    assert (for_each (reconstruct_entry (ck_network_id c) (ck_root_domain_id c) (ck_height c)) ([], [], [])
      (ck_domains c) = Ok (entry_domain <$> ck_domains c, omap entry_descriptor (ck_domains c),
        bextend [] ((λ e, (dc_chain_id (dk_config e), tt)) <$> ck_domains c))) as ->.
    { apply reconstruct_Ok. split_and!; [done|done|done|].
      by rewrite (bextend_sorted (entry_domain <$> _)), (bextend_sorted (omap _ _))
        by (by apply sorted_entries || by apply descriptors_of_entries). }
    cbn [obind fst]. fold (described c). cbn [described fs_domains fs_descriptors] in Hroot, Hv, Hg |- *.
    rewrite Hroot. cbn [ok_or obind]. rewrite (proj2 (for_each_unit _ _) Hv). cbn [obind].
    rewrite bool_decide_true by done. cbn [negb].
    rewrite (proj2 (for_each_unit _ _)); [done|]. apply list.Forall_forall. intros id Hid.
    by destruct (Hg _ Hid) as [l ->].
Qed.

Definition entry_of (s : FinalizedChainState) (e : DomainId * FinalizedDomain) : FinalizedDomainCheckpoint :=
  {| dk_domain_id := e.1; dk_config := fd_config e.2; dk_header := fd_header e.2;
     dk_block_hash := fd_block_hash e.2; dk_state := fd_state e.2;
     dk_descriptor := bget e.1 (fs_descriptors s) |}.

Lemma checkpoint_entries s : ck_domains (checkpoint s) = entry_of s <$> fs_domains s.
Proof. done. Qed.

Lemma entry_ids s : dk_domain_id <$> ck_domains (checkpoint s) = bkeys (fs_domains s).
Proof. rewrite checkpoint_entries, <-list_fmap_compose. done. Qed.

Lemma omap_keys es k :
  k ∈ bkeys (omap entry_descriptor es) → ∃ e, e ∈ es ∧ dk_domain_id e = k ∧ is_Some (dk_descriptor e).
Proof.
  intros ([k' d] & -> & Hx)%list_elem_of_fmap. apply list_elem_of_omap in Hx as (e & He & Hd).
  unfold entry_descriptor in Hd. destruct (dk_descriptor e) eqn:E; [|done]. injection Hd as <- <-.
  exists e. rewrite E. by eauto.
Qed.

Lemma described_checkpoint height s : chain_ok height s → described (checkpoint s) = s.
Proof.
  intros []. unfold described.
  assert (entry_domain <$> ck_domains (checkpoint s) = fs_domains s) as ->.
  { rewrite checkpoint_entries, <-list_fmap_compose. rewrite <-(list_fmap_id (fs_domains s)) at 2.
    apply list_fmap_ext. by intros i [id []] _. }
  destruct (descriptors_of_entries (ck_domains (checkpoint s))) as [Hs Hg]; [by rewrite entry_ids|].
  assert (omap entry_descriptor (ck_domains (checkpoint s)) = fs_descriptors s) as ->; [|by destruct s].
  apply btree_ext; [done..|]. intros k. destruct (bget k (fs_domains s)) as [fd|] eqn:Hk.
  - apply (Hg (entry_of s (k, fd))). rewrite checkpoint_entries. apply list_elem_of_fmap_2, bget_elem_of. done.
  - destruct (bget k (fs_descriptors s)) as [d|] eqn:Hd; [apply co_descriptors0 in Hd as [? Hd]; congruence|].
    apply bget_None. intros Hin. apply omap_keys in Hin as (e & He & Ek & _).
    apply (list_elem_of_fmap_2 dk_domain_id) in He. rewrite entry_ids in He. rewrite Ek in He.
    apply bkeys_elem in He as [? He]. congruence.
Qed.

(** The parent of a described domain is a domain. *)
Lemma parent_present height s id d :
  chain_ok height s → bget id (fs_descriptors s) = Some d →
  is_Some (bget (dd_parent_domain_id d) (fs_domains s)).
Proof.
  intros [] Hd. destruct (co_lineage0 id) as [l Hl]; [by eapply co_descriptors0|].
  inversion Hl as [E|id' d' l' Hne Hd' Hl']; subst; [destruct co_root0; congruence|].
  rewrite Hd in Hd'. injection Hd' as <-. inversion Hl' as [E|p dp lp Hp Hdp Hlp]; subst; [apply co_root0|].
  by eapply co_descriptors0.
Qed.

Lemma checkpoint_is_ok s :
  chain_ok (fs_height s) s → fs_height s ≠ 0 → registry_commits s → checkpoint_ok (checkpoint s).
Proof.
  intros Hok Hh Hreg. pose proof (described_checkpoint _ _ Hok) as Hdesc. pose proof Hok as [].
  destruct co_root0 as [[root Hroot] Hnone].
  split; rewrite ?Hdesc, ?entry_ids; cbn [checkpoint ck_height ck_network_id ck_root_domain_id ck_domain_heads_root]; try done.
  - intros E. rewrite checkpoint_entries in E. apply fmap_nil_inv in E. rewrite E in Hroot. done.
  - rewrite checkpoint_entries. apply Forall_fmap, list.Forall_forall. intros [id fd] Hin.
    apply (elem_of_bget _ _ _ co_domains_sorted0) in Hin. cbn.
    assert (fd = {| fd_config := fd_config fd; fd_header := fd_header fd; fd_block_hash := fd_block_hash fd;
                    fd_state := fd_state fd |}) as E by (by destruct fd).
    split; [cbn; rewrite <-E; by apply co_domains0|]. cbn.
    destruct (decide (id = fs_root_domain_id s)) as [->|Hne]; [by rewrite Hnone|].
    destruct (co_described0 _ _ Hin Hne) as (d & -> & Hv). done.
  - rewrite checkpoint_entries, <-list_fmap_compose. unfold chain_ids, bvalues in co_chain_ids0.
    by rewrite <-list_fmap_compose in co_chain_ids0.
  - exists root. split; [done|]. apply list.Forall_forall. intros [id d] Hin.
    apply (elem_of_bget _ _ _ co_descriptors_sorted0) in Hin. apply validate_committed_Ok.
    split; [by eapply parent_present|by eapply Hreg].
  - intros id Hid. apply bkeys_elem in Hid as [d Hd]. apply co_descriptors0 in Hd.
    destruct (genealogy_complete _ _ _ Hok Hd) as (l & _ & ->). by eexists.
Qed.

Lemma described_domain c id fd :
  checkpoint_ok c → bget id (fs_domains (described c)) = Some fd →
  ∃ e, e ∈ ck_domains c ∧ entry_domain e = (id, fd).
Proof.
  intros Hc Hg. apply bget_elem_of in Hg. cbn in Hg. apply list_elem_of_fmap in Hg as (e & E & He).
  by exists e.
Qed.

Lemma described_descriptor c id d :
  checkpoint_ok c → bget id (fs_descriptors (described c)) = Some d →
  ∃ e, e ∈ ck_domains c ∧ dk_domain_id e = id ∧ dk_descriptor e = Some d.
Proof.
  intros Hc Hg. assert (id ∈ bkeys (fs_descriptors (described c))) as Hk by (apply bkeys_elem; by eexists).
  apply omap_keys in Hk as (e & He & <- & _). exists e. split; [done|]. split; [done|].
  destruct (descriptors_of_entries _ (cp_sorted _ Hc)) as [_ Hat]. cbn in Hg. by rewrite Hat in Hg.
Qed.

Lemma described_ok c : checkpoint_ok c → chain_ok (ck_height c) (described c).
Proof.
  intros Hc. pose proof Hc as []. destruct cp_committed0 as (root & Hroot & _).
  pose proof cp_entries0 as He. rewrite list.Forall_forall in He.
  destruct (descriptors_of_entries _ cp_sorted0) as [Hs Hat].
  assert (bget (ck_root_domain_id c) (fs_descriptors (described c)) = None) as Hnone.
  { destruct (bget (ck_root_domain_id c) (fs_descriptors (described c))) as [d|] eqn:Hd; [|done].
    destruct (described_descriptor _ _ _ Hc Hd) as (e & Hin & Hid & Hde). destruct (He _ Hin) as [_ Hm].
    rewrite Hde in Hm. destruct Hm. congruence. }
  assert (∀ id fd, bget id (fs_domains (described c)) = Some fd → id ≠ ck_root_domain_id c →
    ∃ d, bget id (fs_descriptors (described c)) = Some d ∧
      validate_checkpoint_descriptor (ck_network_id c) id (fd_config fd) d = Ok tt) as Hdesc.
  { intros id fd Hg Hne. destruct (described_domain _ _ _ Hc Hg) as (e & Hin & [= <- <-]).
    destruct (He _ Hin) as [_ Hm]. destruct (dk_descriptor e) as [d|] eqn:Hd; [|done].
    exists d. destruct Hm as [_ Hv]. split; [|done]. cbn. by rewrite Hat. }
  split; cbn [fs_root_domain_id fs_network_id described]; try done.
  - by apply sorted_entries.
  - intros id fd Hg. destruct (described_domain _ _ _ Hc Hg) as (e & Hin & [= <- <-]). by apply He.
  - unfold chain_ids, bvalues. cbn. by rewrite <-!list_fmap_compose.
  - intros id d Hd. destruct (described_descriptor _ _ _ Hc Hd) as (e & Hin & <- & _).
    apply bkeys_elem. cbn. unfold bkeys. rewrite <-list_fmap_compose. by apply (list_elem_of_fmap_2 dk_domain_id).
  - intros id [fd Hg]. destruct (decide (id = ck_root_domain_id c)) as [->|Hne]; [by eexists; constructor|].
    destruct (Hdesc _ _ Hg Hne) as (d & Hd & _).
    destruct (cp_genealogy0 id) as [l Hl]; [apply bkeys_elem; by eexists|].
    unfold genealogy in Hl. destruct (negb _); [done|]. apply obind_Ok in Hl as (r & Hr & _).
    apply genealogy_loop_sound in Hr as (l' & Hl' & _). by exists l'.
Qed.

Lemma described_commits c : checkpoint_ok c → registry_commits (described c).
Proof.
  intros [] root id d Hroot Hd. destruct cp_committed0 as (root' & Hroot' & Hv).
  cbn [fs_root_domain_id described] in Hroot. rewrite Hroot' in Hroot. injection Hroot as ->.
  rewrite list.Forall_forall in Hv. apply bget_elem_of, Hv, validate_committed_Ok in Hd as [_ Hd]. done.
Qed.

Lemma checkpoint_described c : checkpoint_ok c → checkpoint (described c) = c.
Proof.
  intros []. unfold checkpoint. rewrite cp_heads0. clear cp_heads0 cp_committed0 cp_genealogy0.
  destruct c as [net h ch ts vs nvs root gov heads doms].
  cbn [described fs_network_id fs_height fs_consensus_hash fs_timestamp fs_validator_set_hash
    fs_next_validator_set_hash fs_root_domain_id fs_governance_address fs_domains fs_descriptors
    ck_network_id ck_height ck_consensus_hash ck_timestamp ck_validator_set_hash
    ck_next_validator_set_hash ck_root_domain_id ck_governance_address ck_domain_heads_root ck_domains] in *.
  f_equal. rewrite <-list_fmap_compose. rewrite <-(list_fmap_id doms) at 2.
  apply list_fmap_ext. intros i e He. destruct (descriptors_of_entries _ cp_sorted0) as [_ Hat].
  cbn [compose entry_domain fst snd]. unfold compose. cbn [entry_domain fst snd fd_config fd_header fd_block_hash fd_state].
  rewrite (Hat e) by (by eapply list_elem_of_lookup_2). by destruct e.
Qed.

Lemma checkpoint_restores s :
  chain_ok (fs_height s) s → fs_height s ≠ 0 → registry_commits s → from_checkpoint (checkpoint s) = Ok s.
Proof.
  intros Hok Hh Hreg. apply from_checkpoint_Ok. split; [by apply checkpoint_is_ok|].
  symmetry. by eapply described_checkpoint.
Qed.

Lemma restored_ok c s :
  from_checkpoint c = Ok s → chain_ok (fs_height s) s ∧ fs_height s ≠ 0 ∧ registry_commits s.
Proof.
  intros [Hc ->]%from_checkpoint_Ok. split_and!; [by apply described_ok|apply Hc|by apply described_commits].
Qed.

(** C23. State sync restores exactly what was finalized. A well-formed state past
    genesis, whose root registry holds the hash of every descriptor, is restored
    from its own checkpoint unchanged; and a checkpoint is accepted only if it is
    the checkpoint of the state it restores, which is well formed (every header,
    hash, configuration, identifier, chain ID and genealogy agrees) and has every
    descriptor committed by the root registry. *)
Theorem checkpoint_exact :
  (∀ s, chain_ok (fs_height s) s → fs_height s ≠ 0 → registry_commits s →
    from_checkpoint (checkpoint s) = Ok s) ∧
  (∀ c s, from_checkpoint c = Ok s →
    checkpoint s = c ∧ chain_ok (fs_height s) s ∧ fs_height s ≠ 0 ∧ registry_commits s).
Proof.
  split.
  - exact checkpoint_restores.
  - intros c s Hc. split; [|by eapply restored_ok].
    apply from_checkpoint_Ok in Hc as [Hc ->]. by apply checkpoint_described.
Qed.
End checkpoints.
