(* ===== verification/Chain.v ===== *)
(** The chain machine: building, executing and validating consensus proposals over
    a finalized parent (src/crates/arbor-chain/src/lib.rs, ChainMachine and the
    functions it calls).

    Main results: validation accepts exactly what building produces; an execution
    changes only what it should, within its limits, and keeps the finalized state
    well formed; the base fee follows EIP-1559. *)

From Stdlib Require Import Strings.Byte.
From stdpp Require Import relations.
From S2P Require Import Prelude Bytes BTreeMap Primitives Canonical Rlp Crypto Ethereum StateError.
From S2P Require Import DomainHeads System Registry Trie Mpt MptBuild Account Overlay Evm Executor.
From S2P Require Import Merkle ChainBlock ChainState.

Local Open Scope Z_scope.

Definition MAX_CONSENSUS_BLOCK_GAS : Z := 120000000.
Definition MAX_TIMESTAMP_STEP_SECONDS : Z := 30.
Definition PREVRANDAO_TAG : bytes := bstr "ARBOR_PREVRANDAO_V1".

Record ValidatedProposal := {
  vp_block : ConsensusBlock;
  vp_resulting_state : FinalizedChainState;
  vp_executions : list DomainExecutionResult;
}.

Definition ensure_batch_order (batches : list DomainBatch) : outcome ChainError unit :=
  if (zlen batches <? 2) || windows2_all tltb (db_domain_id <$> batches) then Ok tt
  else Err NonCanonicalBatches.

Definition validate_timestamp (parent actual : Z) : outcome ChainError unit :=
  let? minimum :=
    ok_or (checked_add 64 parent 1) (InvalidTimestamp (umax 64) (umax 64) actual) in
  let maximum := saturating_add 64 parent MAX_TIMESTAMP_STEP_SECONDS in
  if (actual <? minimum) || (maximum <? actual) then Err (InvalidTimestamp minimum maximum actual)
  else Ok tt.

Definition validate_aggregate_gas (actual : Z) : outcome ChainError unit :=
  if MAX_CONSENSUS_BLOCK_GAS <? actual then Err (AggregateGas MAX_CONSENSUS_BLOCK_GAS actual)
  else Ok tt.

(** The checks of one pair of results, in the order of the code. *)
Definition compare_result (_ : unit) (pair : DomainBlockHeader * DomainBlockHeader)
    : outcome ChainError unit :=
  let '(actual, expected) := pair in
  if negb (dh_number actual =? dh_number expected) ||
     negb (bool_decide (dh_parent_hash actual = dh_parent_hash expected)) ||
     negb (dh_consensus_height actual =? dh_consensus_height expected)
  then Err (WrongDomainNumber (dh_domain_id actual))
  else if negb (bool_decide (dh_transactions_root actual = dh_transactions_root expected))
  then Err (RootMismatch Transactions (Some (dh_domain_id actual)))
  else if negb (bool_decide (dh_state_root actual = dh_state_root expected))
  then Err (RootMismatch StateField (Some (dh_domain_id actual)))
  else if negb (bool_decide (dh_receipts_root actual = dh_receipts_root expected))
  then Err (RootMismatch Receipts (Some (dh_domain_id actual)))
  else if negb (bool_decide (actual = expected)) then Err HeaderMismatch
  else Ok tt.

Definition compare_candidate (actual expected : ConsensusBlock) : outcome ChainError unit :=
  if negb (bool_decide (ch_batches_root (cb_header actual) = ch_batches_root (cb_header expected)))
  then Err (RootMismatch Batches None)
  else
    run? for_each compare_result tt (zip (cb_domain_blocks actual) (cb_domain_blocks expected)) in
    if negb (bool_decide (ch_domain_results_root (cb_header actual) =
                          ch_domain_results_root (cb_header expected)))
    then Err (RootMismatch DomainResults None)
    else if negb (bool_decide (ch_domain_heads_root (cb_header actual) =
                               ch_domain_heads_root (cb_header expected)))
    then Err (RootMismatch DomainHeadsField None)
    else if negb (bool_decide (cb_header actual = cb_header expected)) then Err HeaderMismatch
    else Ok tt.

(** Unsigned division, with the default of [checked_div] for a zero divisor. *)
Definition next_base_fee (parent : DomainBlockHeader) : Z :=
  let target := dh_gas_limit parent / 2 in
  let parent_fee := dh_base_fee_per_gas parent in
  if (target =? 0) || (dh_gas_used parent =? target) then parent_fee
  else if dh_gas_limit parent / 2 <? dh_gas_used parent then
    let gas_delta := dh_gas_used parent - dh_gas_limit parent / 2 in
    let increase := Z.max (saturating_mul 128 parent_fee gas_delta / target / 8) 1 in
    saturating_add 128 parent_fee increase
  else
    let gas_delta := dh_gas_limit parent / 2 - dh_gas_used parent in
    let decrease := saturating_mul 128 parent_fee gas_delta / target / 8 in
    saturating_sub parent_fee decrease.

(** [sort_by_key], which is stable: insertion before the first greater key. *)
Fixpoint insert_batch (batch : DomainBatch) (sorted : list DomainBatch) : list DomainBatch :=
  match sorted with
  | [] => [batch]
  | b :: rest =>
      if tltb (db_domain_id batch) (db_domain_id b) then batch :: sorted
      else b :: insert_batch batch rest
  end.

Definition sort_batches (batches : list DomainBatch) : list DomainBatch :=
  foldl (λ sorted batch, insert_batch batch sorted) [] batches.

Definition executed_transaction_hashes (proposal : ValidatedProposal) : btree bytes unit :=
  bcollect ((λ t, (et_transaction_hash t, tt)) <$> (vp_executions proposal ≫= er_transactions)).

Section machine.
Context `{Keccak, AlloyRlp, !AlloyTrie, SenderRecovery, Journal, !Revm, AlloyRoots}.

Definition derived_prevrandao (parent_hash : bytes) (height : ConsensusHeight) : bytes :=
  keccak256 (PREVRANDAO_TAG ++ [version_byte] ++ parent_hash ++ to_be_bytes 8 height).

Definition execute_domain (parent_consensus_hash : bytes) (finalized : FinalizedDomain)
    (batch : DomainBatch) (height : ConsensusHeight) (timestamp : Z) (proposer : bytes)
    (registry_context : ChainRegistryExecutionContext)
    : outcome ChainError (DomainBlockHeader * DomainExecutionResult * FinalizedDomain) :=
  let? number :=
    ok_or (checked_add 64 (dh_number (fd_header finalized)) 1) (WrongDomainNumber (db_domain_id batch)) in
  let base_fee := next_base_fee (fd_header finalized) in
  let env :=
    {| de_chain_id := dc_chain_id (fd_config finalized); de_block_number := number;
       de_timestamp := timestamp; de_beneficiary := proposer;
       de_gas_limit := dc_gas_limit (fd_config finalized); de_base_fee_per_gas := base_fee;
       de_prevrandao := derived_prevrandao parent_consensus_hash height |} in
  let? service := map_err evm_error (new_service (dc_protocol_revision (fd_config finalized))) in
  let? execution :=
    map_err (ExecutionFailed (db_domain_id batch))
      (execute_batch_with_registry service env (fd_state finalized) (db_transactions batch)
         (Some registry_context)) in
  let header :=
    {| dh_protocol_version := PROTOCOL_VERSION; dh_domain_id := db_domain_id batch;
       dh_number := number; dh_parent_hash := fd_block_hash finalized;
       dh_consensus_height := height; dh_transactions_root := er_transactions_root execution;
       dh_state_root := Evm.state_root (er_state execution);
       dh_receipts_root := er_receipts_root execution; dh_logs_bloom := er_logs_bloom execution;
       dh_gas_limit := dc_gas_limit (fd_config finalized); dh_gas_used := er_gas_used execution;
       dh_base_fee_per_gas := base_fee |} in
  let? block_hash := map_err crypto_error (domain_header_hash header) in
  let next_domain :=
    {| fd_config := fd_config finalized; fd_header := header; fd_block_hash := block_hash;
       fd_state := er_state execution |} in
  Ok (header, execution, next_domain).

(** The local variables of the loop of [execute]. *)
Record execute_state := {
  xs_state : FinalizedChainState;
  xs_domain_blocks : list DomainBlockHeader;
  xs_executions : list DomainExecutionResult;
  xs_aggregate_gas : Z;
}.

Definition finalized_heads (parent : FinalizedChainState) : btree DomainId bytes :=
  bcollect ((λ e, (e.1, fd_block_hash e.2)) <$> fs_domains parent).

Definition execute_one_batch (parent : FinalizedChainState) (height : ConsensusHeight) (timestamp : Z)
    (proposer : bytes) (x : execute_state) (batch : DomainBatch) : outcome ChainError execute_state :=
  let? finalized :=
    ok_or (bget (db_domain_id batch) (fs_domains parent)) (UnknownDomain (db_domain_id batch)) in
  if negb (bool_decide (db_parent_domain_block_hash batch = fd_block_hash finalized))
  then Err (WrongDomainParent (db_domain_id batch))
  else
    let? '(header, execution, next_domain) :=
      execute_domain (fs_consensus_hash parent) finalized batch height timestamp proposer
        {| rc_network_id := fs_network_id parent; rc_root_domain_id := fs_root_domain_id parent;
           rc_executing_domain_id := db_domain_id batch; rc_creation_height := height;
           rc_governance_address := fs_governance_address parent;
           rc_finalized_heads := finalized_heads parent |} in
    let? aggregate_gas :=
      ok_or (checked_add 64 (xs_aggregate_gas x) (er_gas_used execution))
        (AggregateGas MAX_CONSENSUS_BLOCK_GAS (umax 64)) in
    run? validate_aggregate_gas aggregate_gas in
    let state :=
      with_domains (xs_state x) (binsert (db_domain_id batch) next_domain (fs_domains (xs_state x)))
        (fs_descriptors (xs_state x)) in
    let? state := for_each (insert_created_domain height) state (er_created_domains execution) in
    Ok {| xs_state := state; xs_domain_blocks := xs_domain_blocks x ++ [header];
          xs_executions := xs_executions x ++ [execution]; xs_aggregate_gas := aggregate_gas |}.

Definition execute (parent : FinalizedChainState) (batches : list DomainBatch) (timestamp : Z)
    (proposer : bytes) : outcome ChainError ValidatedProposal :=
  run? validate_timestamp (fs_timestamp parent) timestamp in
  if MAX_BATCHES_PER_BLOCK <? zlen batches
  then Err (TooManyBatches MAX_BATCHES_PER_BLOCK (zlen batches))
  else
    let? height := ok_or (checked_add 64 (fs_height parent) 1) WrongConsensusParent in
    let? x :=
      for_each (execute_one_batch parent height timestamp proposer)
        {| xs_state := parent; xs_domain_blocks := []; xs_executions := []; xs_aggregate_gas := 0 |}
        batches in
    let? batches_root := batches_root batches in
    let? domain_results_root := domain_results_root (xs_domain_blocks x) in
    let header :=
      {| ch_protocol_version := PROTOCOL_VERSION; ch_network_id := fs_network_id parent;
         ch_height := height; ch_parent_hash := fs_consensus_hash parent; ch_timestamp := timestamp;
         ch_batches_root := batches_root; ch_domain_results_root := domain_results_root;
         ch_domain_heads_root := domain_heads_root (xs_state x);
         ch_validator_set_hash := fs_next_validator_set_hash parent;
         ch_next_validator_set_hash := fs_next_validator_set_hash parent; ch_proposer := proposer |} in
    let block :=
      {| cb_header := header; cb_batches := batches; cb_domain_blocks := xs_domain_blocks x |} in
    let? encoded := encode_consensus_block block in
    if MAX_CONSENSUS_BLOCK_BYTES <? zlen encoded
    then Err (BlockBytes MAX_CONSENSUS_BLOCK_BYTES (zlen encoded))
    else
      let? hash := block_hash_of block in
      Ok {| vp_block := block;
            vp_resulting_state :=
              {| fs_network_id := fs_network_id (xs_state x); fs_height := height;
                 fs_consensus_hash := hash; fs_timestamp := timestamp;
                 fs_validator_set_hash := ch_validator_set_hash header;
                 fs_next_validator_set_hash := ch_next_validator_set_hash header;
                 fs_root_domain_id := fs_root_domain_id (xs_state x);
                 fs_governance_address := fs_governance_address (xs_state x);
                 fs_domains := fs_domains (xs_state x);
                 fs_descriptors := fs_descriptors (xs_state x) |};
            vp_executions := xs_executions x |}.

Definition build_proposal (parent : FinalizedChainState) (batches : list DomainBatch) (timestamp : Z)
    (proposer : bytes) : outcome ChainError ValidatedProposal :=
  let batches := sort_batches batches in
  run? ensure_batch_order batches in
  execute parent batches timestamp proposer.

Definition validate_proposal (parent : FinalizedChainState) (candidate : ConsensusBlock)
    : outcome ChainError ValidatedProposal :=
  let header := cb_header candidate in
  if negb (ch_protocol_version header =? PROTOCOL_VERSION) ||
     negb (bool_decide (ch_network_id header = fs_network_id parent)) ||
     negb (ch_height header =? saturating_add 64 (fs_height parent) 1) ||
     negb (bool_decide (ch_parent_hash header = fs_consensus_hash parent))
  then Err WrongConsensusParent
  else
    run? ensure_batch_order (cb_batches candidate) in
    if negb (zlen (cb_domain_blocks candidate) =? zlen (cb_batches candidate)) ||
       existsb (λ p, negb (bool_decide (db_domain_id p.1 = dh_domain_id p.2)))
         (zip (cb_batches candidate) (cb_domain_blocks candidate))
    then Err ResultAlignment
    else
      let? expected :=
        execute parent (cb_batches candidate) (ch_timestamp header) (ch_proposer header) in
      run? compare_candidate candidate (vp_block expected) in
      Ok expected.
End machine.

(** ** Batches in order *)

Lemma ensure_batch_order_Ok batches :
  ensure_batch_order batches = Ok tt ↔ StronglySorted tlt (db_domain_id <$> batches).
Proof.
  unfold ensure_batch_order. rewrite <-strict_StronglySorted.
  destruct (windows2_all tltb (db_domain_id <$> batches)) eqn:E; [by rewrite orb_true_r|].
  destruct batches as [|a [|b l]]; [done..|]. split; [|done].
  rewrite orb_false_r, !zlen_cons. pose proof (zlen_nonneg l).
  by rewrite (proj2 (Z.ltb_ge _ _)) by lia.
Qed.

Lemma insert_batch_last b l :
  Forall (λ x, tlt (db_domain_id x) (db_domain_id b)) l → insert_batch b l = l ++ [b].
Proof.
  induction l as [|x l IH]; intros Hl; [done|]. inversion_clear Hl as [|? ? Hx Hl']. cbn [insert_batch].
  destruct (tltb (db_domain_id b) (db_domain_id x)) eqn:E.
  - apply tltb_tlt in E. by destruct (tlt_asym _ _ Hx).
  - by rewrite IH.
Qed.

Lemma StronglySorted_snoc {A : Type} (R : relation A) l x :
  StronglySorted R (l ++ [x]) → StronglySorted R l ∧ Forall (λ y, R y x) l.
Proof.
  induction l as [|a l IH]; intros Hs; [split; constructor|].
  apply StronglySorted_inv in Hs as [Hs Ha]. destruct (IH Hs) as [IH1 IH2].
  apply Forall_app in Ha as [Ha Hx]. inversion_clear Hx. split; by constructor.
Qed.

Lemma sort_sorted batches :
  StronglySorted tlt (db_domain_id <$> batches) → sort_batches batches = batches.
Proof.
  unfold sort_batches. induction batches as [|b l IH] using rev_ind; intros Hs; [done|].
  rewrite fmap_app in Hs. apply StronglySorted_snoc in Hs as [Hs Hb].
  rewrite foldl_app, IH by done. cbn [foldl]. apply insert_batch_last. by apply Forall_fmap in Hb.
Qed.

Lemma insert_batch_perm b l : insert_batch b l ≡ₚ b :: l.
Proof.
  induction l as [|x l IH]; [done|]. cbn [insert_batch]. destruct (tltb _ _); [done|].
  rewrite IH. constructor.
Qed.

Lemma sort_batches_perm batches : sort_batches batches ≡ₚ batches.
Proof.
  unfold sort_batches. induction batches as [|b l IH] using rev_ind; [done|].
  rewrite foldl_app. cbn [foldl]. rewrite insert_batch_perm, IH. by rewrite Permutation_app_comm.
Qed.

(** ** One batch *)

Section batch.
Context `{Keccak, AlloyRlp, !AlloyTrie, SenderRecovery, Journal, !Revm, AlloyRoots}.

Lemma execute_domain_inv ch fd batch height ts proposer ctx header execution nd :
  0 ≤ rc_creation_height ctx →
  execute_domain ch fd batch height ts proposer ctx = Ok (header, execution, nd) →
  dh_domain_id header = db_domain_id batch ∧ dh_number header = dh_number (fd_header fd) + 1 ∧
  dh_parent_hash header = fd_block_hash fd ∧ dh_consensus_height header = height ∧
  dh_state_root header = Evm.state_root (er_state execution) ∧
  dh_gas_limit header = dc_gas_limit (fd_config fd) ∧ dh_gas_used header = er_gas_used execution ∧
  (0 ≤ dc_gas_limit (fd_config fd) → er_gas_used execution ≤ dc_gas_limit (fd_config fd)) ∧
  dh_base_fee_per_gas header = next_base_fee (fd_header fd) ∧
  domain_header_hash header = Ok (fd_block_hash nd) ∧
  fd_config nd = fd_config fd ∧ fd_header nd = header ∧ fd_state nd = er_state execution.
Proof.
  intros Hh. unfold execute_domain. intros He.
  apply obind_Ok in He as (number & Hn & He). apply ok_or_Ok, checked_add_Some in Hn as [-> _].
  apply obind_Ok in He as (service & _ & He). apply obind_Ok in He as (ex & Hex & He). apply map_err_Ok in Hex.
  apply obind_Ok in He as (hash & Hhash & [= <- <- <-]). apply map_err_Ok in Hhash.
  cbn. split_and!; try done. intros Hg. apply batch_gas_limit in Hex; [done|by intros c [= <-]|done].
Qed.

(** What the loop body does for one batch. *)
Record batch_step (parent : FinalizedChainState) (height : Z) (x : execute_state) (batch : DomainBatch)
    (x' : execute_state) (fd nd : FinalizedDomain) (execution : DomainExecutionResult) : Prop := {
  st_domain : bget (db_domain_id batch) (fs_domains parent) = Some fd;
  st_parent : db_parent_domain_block_hash batch = fd_block_hash fd;
  st_config : fd_config nd = fd_config fd;
  st_id : dh_domain_id (fd_header nd) = db_domain_id batch;
  st_number : dh_number (fd_header nd) = dh_number (fd_header fd) + 1;
  st_link : dh_parent_hash (fd_header nd) = fd_block_hash fd;
  st_base_fee : dh_base_fee_per_gas (fd_header nd) = next_base_fee (fd_header fd);
  st_used : dh_gas_used (fd_header nd) = er_gas_used execution;
  st_used_limit : 0 ≤ dc_gas_limit (fd_config fd) → er_gas_used execution ≤ dc_gas_limit (fd_config fd);
  st_ok : validate_config (fd_config fd) = Ok tt → domain_ok height (db_domain_id batch) nd;
  st_created : for_each (insert_created_domain height)
      (with_domains (xs_state x) (binsert (db_domain_id batch) nd (fs_domains (xs_state x)))
        (fs_descriptors (xs_state x))) (er_created_domains execution) = Ok (xs_state x');
  st_blocks : xs_domain_blocks x' = xs_domain_blocks x ++ [fd_header nd];
  st_executions : xs_executions x' = xs_executions x ++ [execution];
  st_gas : xs_aggregate_gas x' = xs_aggregate_gas x + er_gas_used execution ∧
    xs_aggregate_gas x' ≤ MAX_CONSENSUS_BLOCK_GAS;
  st_height : dh_consensus_height (fd_header nd) = height;
  st_state_root : dh_state_root (fd_header nd) = Evm.state_root (er_state execution);
}.

Lemma execute_one_batch_inv parent height ts proposer x batch x' :
  0 ≤ height → execute_one_batch parent height ts proposer x batch = Ok x' →
  ∃ fd nd execution, batch_step parent height x batch x' fd nd execution.
Proof.
  intros Hh. unfold execute_one_batch. intros He.
  apply obind_Ok in He as (fd & Hfd & He). apply ok_or_Ok in Hfd. destruct (negb _) eqn:Hp; [done|]. bool_prop.
  apply obind_Ok in He as ([[header ex] nd] & Hex & He).
  apply execute_domain_inv in Hex as (E1 & E2 & E3 & E4 & E5 & E6 & E7 & E8 & E9 & E10 & E11 & E12 & E13); [|done..].
  apply obind_Ok in He as (gas & Hgas & He). apply ok_or_Ok, checked_add_Some in Hgas as [-> _].
  apply obind_Ok in He as ([] & Hv & He). unfold validate_aggregate_gas in Hv.
  destruct (Z.ltb_spec MAX_CONSENSUS_BLOCK_GAS (xs_aggregate_gas x + er_gas_used ex)) as [|Hmax]; [done|].
  apply obind_Ok in He as (s & Hs & [= <-]). subst header. exists fd, nd, ex.
  split; cbn [xs_state xs_domain_blocks xs_executions xs_aggregate_gas]; try done.
  intros Hc. split; try done; [by rewrite E11|by rewrite E13|lia|by rewrite E11].
Qed.
End batch.

(** ** Validation is replay *)

Section replay.
Context `{Keccak, AlloyRlp, !AlloyTrie, SenderRecovery, Journal, !Revm, AlloyRoots}.

Lemma execute_one_batch_block parent height ts proposer x batch x' :
  execute_one_batch parent height ts proposer x batch = Ok x' →
  ∃ header, xs_domain_blocks x' = xs_domain_blocks x ++ [header] ∧ db_domain_id batch = dh_domain_id header.
Proof.
  unfold execute_one_batch. intros He. apply obind_Ok in He as (fd & _ & He). destruct (negb _); [done|].
  apply obind_Ok in He as ([[header ex] nd] & Hex & He). apply obind_Ok in He as (gas & _ & He).
  apply obind_Ok in He as ([] & _ & He). apply obind_Ok in He as (s & _ & [= <-]). exists header. split; [done|].
  unfold execute_domain in Hex. apply obind_Ok in Hex as (n & _ & Hex). apply obind_Ok in Hex as (sv & _ & Hex).
  apply obind_Ok in Hex as (e & _ & Hex). apply obind_Ok in Hex as (h & _ & [= <- _ _]). done.
Qed.

Lemma execute_blocks parent height ts proposer batches x x' :
  for_each (execute_one_batch parent height ts proposer) x batches = Ok x' →
  ∃ headers, xs_domain_blocks x' = xs_domain_blocks x ++ headers ∧
    Forall2 (λ b h, db_domain_id b = dh_domain_id h) batches headers.
Proof.
  revert x. induction batches as [|b l IH]; intros x Hf; cbn [for_each] in Hf.
  - injection Hf as <-. exists []. split; [by rewrite app_nil_r|constructor].
  - apply obind_Ok in Hf as (x1 & H1' & Hf). apply execute_one_batch_block in H1' as (h & Hb & Hid).
    destruct (IH _ Hf) as (hs & Hhs & Hall). exists (h :: hs). split; [|by constructor].
    rewrite Hhs, Hb. by rewrite <-app_assoc.
Qed.

(** The block of an execution. *)
Lemma execute_block parent batches ts proposer vp :
  execute parent batches ts proposer = Ok vp →
  cb_batches (vp_block vp) = batches ∧ ch_timestamp (cb_header (vp_block vp)) = ts ∧
  ch_proposer (cb_header (vp_block vp)) = proposer ∧
  ch_protocol_version (cb_header (vp_block vp)) = PROTOCOL_VERSION ∧
  ch_network_id (cb_header (vp_block vp)) = fs_network_id parent ∧
  ch_parent_hash (cb_header (vp_block vp)) = fs_consensus_hash parent ∧
  ch_height (cb_header (vp_block vp)) = saturating_add 64 (fs_height parent) 1 ∧
  Forall2 (λ b h, db_domain_id b = dh_domain_id h) batches (cb_domain_blocks (vp_block vp)).
Proof.
  unfold execute. intros He. apply obind_Ok in He as ([] & _ & He). destruct (_ <? _); [done|].
  apply obind_Ok in He as (height & Hh & He). apply ok_or_Ok, checked_add_Some in Hh as [-> Hlt].
  apply obind_Ok in He as (x & Hx & He). apply obind_Ok in He as (br & _ & He). apply obind_Ok in He as (rr & _ & He).
  apply obind_Ok in He as (enc & _ & He). destruct (_ <? _); [done|]. apply obind_Ok in He as (hash & _ & [= <-]).
  apply execute_blocks in Hx as (hs & Hhs & Hall). cbn in Hhs. cbn [vp_block cb_batches cb_header cb_domain_blocks
    ch_timestamp ch_proposer ch_protocol_version ch_network_id ch_parent_hash ch_height].
  split_and!; try done; [|by rewrite Hhs]. unfold saturating_add, umax. lia.
Qed.

Lemma compare_results_Ok l1 l2 :
  length l1 = length l2 → for_each compare_result tt (zip l1 l2) = Ok tt ↔ l1 = l2.
Proof.
  intros Hlen. rewrite for_each_unit. split.
  - revert l2 Hlen. induction l1 as [|a l1 IH]; intros [|b l2] Hlen Hf; try done. inversion_clear Hf as [|? ? Hab Hf'].
    f_equal; [|apply IH; [by injection Hlen|done]]. unfold compare_result in Hab.
    destruct (_ || _); [done|]. do 3 (destruct (negb _); [done|]). destruct (negb _) eqn:E; [done|]. by bool_prop.
  - intros <-. clear Hlen. induction l1 as [|a l1 IH]; constructor; [|done]. unfold compare_result.
    by rewrite !Z.eqb_refl, !bool_decide_true.
Qed.

Lemma compare_candidate_Ok actual expected :
  cb_batches actual = cb_batches expected →
  length (cb_domain_blocks actual) = length (cb_domain_blocks expected) →
  compare_candidate actual expected = Ok tt ↔ actual = expected.
Proof.
  intros Hb Hl. unfold compare_candidate. split.
  - intros Hc. destruct (negb _); [done|]. apply obind_Ok in Hc as ([] & Hr & Hc).
    apply compare_results_Ok in Hr; [|done]. destruct (negb _); [done|]. destruct (negb _); [done|].
    destruct (negb _) eqn:E; [done|]. bool_prop. destruct actual, expected. cbn in *. by subst.
  - intros <-. rewrite !bool_decide_true by done. cbn [negb].
    by rewrite (proj2 (compare_results_Ok _ _ eq_refl) eq_refl).
Qed.

Lemma aligned_existsb batches headers :
  Forall2 (λ b h, db_domain_id b = dh_domain_id h) batches headers →
  existsb (λ p, negb (bool_decide (db_domain_id p.1 = dh_domain_id p.2))) (zip batches headers) = false.
Proof.
  intros Hf. induction Hf as [|b h l1 l2 Hbh _ IH]; [done|]. cbn. by rewrite Hbh, bool_decide_true.
Qed.

(** An accepted candidate is the block of its own replay. *)
Lemma validated_inv parent candidate vp :
  validate_proposal parent candidate = Ok vp →
  candidate = vp_block vp ∧ ensure_batch_order (cb_batches candidate) = Ok tt ∧
  execute parent (cb_batches candidate) (ch_timestamp (cb_header candidate))
    (ch_proposer (cb_header candidate)) = Ok vp.
Proof.
  unfold validate_proposal. intros Hv. destruct (_ || _); [done|]. apply obind_Ok in Hv as ([] & Ho & Hv).
  destruct (_ || _) eqn:Ha; [done|]. apply orb_false_iff in Ha as [Hl _]. bool_prop.
  apply obind_Ok in Hv as (e & He & Hv). apply obind_Ok in Hv as ([] & Hc & [= ->]).
  pose proof He as (Eb & _ & _ & _ & _ & _ & _ & Hall)%execute_block. apply Forall2_length in Hall.
  apply compare_candidate_Ok in Hc; [done|done|unfold zlen in Hl; lia].
Qed.

(** The block of an execution of ordered batches is accepted. *)
Lemma executed_validates parent batches ts proposer vp :
  ensure_batch_order batches = Ok tt → execute parent batches ts proposer = Ok vp →
  validate_proposal parent (vp_block vp) = Ok vp.
Proof.
  intros Ho He. pose proof He as (Eb & Et & Ep & Ev & En & Eh & Ex & Hall)%execute_block. unfold validate_proposal.
  rewrite Ev, En, Eh, Ex, !Z.eqb_refl, !bool_decide_true by done. cbn [negb orb].
  rewrite Eb, Ho, Et, Ep. cbn [obind]. rewrite (aligned_existsb _ _ Hall).
  pose proof Hall as Hlen%Forall2_length. unfold zlen. rewrite Hlen, Z.eqb_refl. cbn [negb orb].
  rewrite He. cbn [obind]. by rewrite (proj2 (compare_candidate_Ok _ _ eq_refl eq_refl) eq_refl).
Qed.

(** C2. Validation accepts exactly the blocks that building produces. A candidate
    is accepted over a parent, with some result, exactly when building a proposal
    from the candidate's own batches, timestamp and proposer gives that result and
    the candidate is its block: so every accepted block is the deterministic
    replay of its batches with nothing altered, batches of every accepted block
    are strictly sorted, and every block a correct proposer builds is accepted by
    every node with the same parent, with the same resulting state. *)
Theorem validate_iff_build parent candidate vp :
  validate_proposal parent candidate = Ok vp ↔
  candidate = vp_block vp ∧
  build_proposal parent (cb_batches candidate) (ch_timestamp (cb_header candidate))
    (ch_proposer (cb_header candidate)) = Ok vp.
Proof.
  unfold build_proposal. split.
  - intros (E & Ho & He)%validated_inv. split; [done|].
    rewrite sort_sorted by (by apply ensure_batch_order_Ok). by rewrite Ho.
  - intros [-> Hb]. apply obind_Ok in Hb as ([] & Ho & He). by apply executed_validates in He.
Qed.
End replay.

(** ** What an execution changes *)

Section effects.
Context `{Keccak, AlloyRlp, !AlloyTrie, SenderRecovery, Journal, !Revm, AlloyRoots}.

(** [s'] has everything of [s]: its identity, domains and descriptors. *)
Record grows (s s' : FinalizedChainState) : Prop := {
  gr_network : fs_network_id s' = fs_network_id s;
  gr_root : fs_root_domain_id s' = fs_root_domain_id s;
  gr_governance : fs_governance_address s' = fs_governance_address s;
  gr_domains : ∀ id fd, bget id (fs_domains s) = Some fd → bget id (fs_domains s') = Some fd;
  gr_descriptors : ∀ id d, bget id (fs_descriptors s) = Some d → bget id (fs_descriptors s') = Some d;
}.

Lemma insert_created_grows height s created s' :
  insert_created_domain height s created = Ok s' → grows s s'.
Proof.
  unfold insert_created_domain. intros Hi.
  destruct (_ || _) eqn:E1; [done|]. apply orb_false_iff in E1 as [Hn Hnd]. apply bcontains_false in Hn, Hnd.
  destruct (negb _); [done|]. destruct (_ || _); [done|]. destruct (existsb _ _); [done|].
  apply obind_Ok in Hi as ([] & _ & Hi). apply obind_Ok in Hi as ([] & _ & Hi).
  apply obind_Ok in Hi as (hash & _ & [= <-]).
  split; cbn [with_domains fs_network_id fs_root_domain_id fs_governance_address fs_domains fs_descriptors]; try done.
  - intros id fd Hid. rewrite bget_binsert_ne; [done|]. intros ->. by rewrite Hn in Hid.
  - intros id d Hid. rewrite bget_binsert_ne; [done|]. intros ->. by rewrite Hnd in Hid.
Qed.

Lemma grows_refl s : grows s s.
Proof. by split. Qed.

Lemma grows_trans s1 s2 s3 : grows s1 s2 → grows s2 s3 → grows s1 s3.
Proof. intros [] []. split; try congruence; auto. Qed.

Lemma insert_all_created height s created s' :
  for_each (insert_created_domain height) s created = Ok s' →
  grows s s' ∧ (chain_ok height s → chain_ok height s').
Proof.
  intros Hf. apply (for_each_inv (λ x, grows s x ∧ (chain_ok height s → chain_ok height x)) _ _ _ _) in Hf;
    [done| |by split; [apply grows_refl|]].
  intros x c x' _ [Hg Hok] Hi. split; [eapply grows_trans; [done|by eapply insert_created_grows]|].
  intros Hs. eapply insert_created_ok; [by apply Hok|done].
Qed.

Lemma chain_ok_mono height height' s : height ≤ height' → chain_ok height s → chain_ok height' s.
Proof.
  intros Hle [A1 A2 Hdom A4 A5 A6 A7 A8]. split; try done. intros id fd Hid.
  destruct (Hdom _ _ Hid) as [B1 B2 B3 B4 B5 B6]. split; try done. lia.
Qed.

(** Advancing the head of a domain. *)
Lemma chain_ok_update height s id fd nd :
  chain_ok height s → bget id (fs_domains s) = Some fd → fd_config nd = fd_config fd →
  domain_ok height id nd →
  chain_ok height (with_domains s (binsert id nd (fs_domains s)) (fs_descriptors s)).
Proof.
  intros [Sd Ss Hdom Hids Hroot Hdesc Hdd Hlin] Hid Hc Hnd. assert (is_Some (bget id (fs_domains s))) as Hsome by (by eexists).
  split; cbn [with_domains fs_domains fs_descriptors fs_root_domain_id fs_network_id]; try done.
  - by apply sorted_binsert.
  - intros x fx. rewrite bget_binsert. destruct (teqb x id) eqn:E; [|by apply Hdom].
    apply teqb_eq in E as ->. by intros [= <-].
  - unfold chain_ids, bvalues in *. apply (bremove_perm id fd) in Hid as Hp; [|done].
    rewrite (binsert_replace id nd) by done.
    rewrite Hp in Hids. cbn in Hids |- *. by rewrite Hc.
  - rewrite bget_binsert. destruct (teqb _ id); [|done]. split; [done|apply Hroot].
  - intros x fx. rewrite bget_binsert. destruct (teqb x id) eqn:E; [|by apply Hdesc].
    apply teqb_eq in E as ->. intros [= <-] Hne. rewrite Hc. by apply Hdesc.
  - intros x dx Hdx. rewrite bget_binsert. destruct (teqb x id); [done|by eapply Hdd].
  - intros x. rewrite bget_binsert. destruct (teqb x id) eqn:E; [|by apply Hlin].
    apply teqb_eq in E as ->. intros _. by apply Hlin.
Qed.

(** A domain and its next block. *)
Record advanced (fd nd : FinalizedDomain) : Prop := {
  ad_config : fd_config nd = fd_config fd;
  ad_number : dh_number (fd_header nd) = dh_number (fd_header fd) + 1;
  ad_link : dh_parent_hash (fd_header nd) = fd_block_hash fd;
  ad_base_fee : dh_base_fee_per_gas (fd_header nd) = next_base_fee (fd_header fd);
  ad_gas : 0 ≤ dc_gas_limit (fd_config fd) → dh_gas_used (fd_header nd) ≤ dc_gas_limit (fd_config fd);
}.

Record executed_ok (parent : FinalizedChainState) (height : Z) (batches : list DomainBatch)
    (x : execute_state) : Prop := {
  ex_chain : chain_ok height (xs_state x);
  ex_identity : fs_network_id (xs_state x) = fs_network_id parent ∧
    fs_root_domain_id (xs_state x) = fs_root_domain_id parent ∧
    fs_governance_address (xs_state x) = fs_governance_address parent;
  ex_descriptors : ∀ id d, bget id (fs_descriptors parent) = Some d →
    bget id (fs_descriptors (xs_state x)) = Some d;
  ex_untouched : ∀ id fd, bget id (fs_domains parent) = Some fd → id ∉ db_domain_id <$> batches →
    bget id (fs_domains (xs_state x)) = Some fd;
  ex_advanced : ∀ b, b ∈ batches → ∃ fd nd, bget (db_domain_id b) (fs_domains parent) = Some fd ∧
    db_parent_domain_block_hash b = fd_block_hash fd ∧
    bget (db_domain_id b) (fs_domains (xs_state x)) = Some nd ∧ advanced fd nd ∧
    fd_header nd ∈ xs_domain_blocks x;
  ex_gas : xs_aggregate_gas x = zsum er_gas_used (xs_executions x) ∧
    xs_aggregate_gas x ≤ MAX_CONSENSUS_BLOCK_GAS;
}.

Lemma executed_start parent height :
  chain_ok (fs_height parent) parent → fs_height parent ≤ height →
  executed_ok parent height []
    {| xs_state := parent; xs_domain_blocks := []; xs_executions := []; xs_aggregate_gas := 0 |}.
Proof.
  intros Hok Hh. split; try done.
  - by apply (chain_ok_mono (fs_height parent)).
  - by intros b ?%elem_of_nil.
Qed.

Lemma executed_step parent height batches x b x' fd nd execution :
  chain_ok (fs_height parent) parent →
  executed_ok parent height batches x → db_domain_id b ∉ db_domain_id <$> batches →
  batch_step parent height x b x' fd nd execution →
  executed_ok parent height (batches ++ [b]) x'.
Proof.
  intros Hparent [Hok Hid Hdesc Hun Hadv [Hgas _]] Hnew [].
  destruct (insert_all_created _ _ _ _ st_created0) as [[G1 G2 G3 Gd Gs] Hkeep].
  cbn [with_domains fs_network_id fs_root_domain_id fs_governance_address fs_domains fs_descriptors] in *.
  assert (validate_config (fd_config fd) = Ok tt) as Hcfg
    by exact (do_config _ _ _ (co_domains _ _ Hparent _ _ st_domain0)).
  assert (∀ id f, id ≠ db_domain_id b → bget id (fs_domains (xs_state x)) = Some f →
    bget id (fs_domains (xs_state x')) = Some f) as Hother.
  { intros id f Hne Hf. apply Gd. by rewrite bget_binsert_ne. }
  split.
  - apply Hkeep. eapply chain_ok_update; [done|by eapply Hun|done|by apply st_ok0].
  - by rewrite G1, G2, G3.
  - intros id d Hd. by apply Gs, Hdesc.
  - intros id f Hf Hin. rewrite fmap_app, elem_of_app in Hin. apply Hother.
    + intros ->. apply Hin. right. cbn. by left.
    + apply Hun; [done|tauto].
  - intros b' [Hb'|Hb']%elem_of_app.
    + destruct (Hadv _ Hb') as (f & n & Hf & Hp & Hn & Ha & Hblk). exists f, n. split_and!; try done.
      * apply Hother; [|done]. intros E. apply Hnew. rewrite <-E. by apply list_elem_of_fmap_2.
      * rewrite st_blocks0. apply elem_of_app. by left.
    + apply list_elem_of_singleton in Hb' as ->. exists fd, nd. split_and!; try done.
      * apply Gd. by rewrite bget_binsert_eq.
      * split; try done. by rewrite st_used0.
      * rewrite st_blocks0. apply elem_of_app. right. by left.
  - destruct st_gas0 as [Hg Hmax]. split; [|done]. rewrite Hg, st_executions0, zsum_app, <-Hgas.
    unfold zsum. cbn. lia.
Qed.

Lemma executed_run parent height ts proposer batches x :
  chain_ok (fs_height parent) parent → fs_height parent ≤ height → 0 ≤ height →
  NoDup (db_domain_id <$> batches) →
  for_each (execute_one_batch parent height ts proposer)
    {| xs_state := parent; xs_domain_blocks := []; xs_executions := []; xs_aggregate_gas := 0 |}
    batches = Ok x →
  executed_ok parent height batches x.
Proof.
  intros Hok Hh H0' . revert x. induction batches as [|b l IH] using rev_ind; intros x Hnd Hx.
  - injection Hx as <-. by apply executed_start.
  - rewrite for_each_app in Hx. apply obind_Ok in Hx as (x1 & Hx1 & Hx). cbn in Hx.
    apply obind_Ok in Hx as (x2 & Hb & [= <-]). apply execute_one_batch_inv in Hb as (fd & nd & ex & Hst); [|done].
    rewrite fmap_app in Hnd. apply list.NoDup_app in Hnd as (Hnd & Hdis & _).
    eapply executed_step; [done|by apply IH| |exact Hst].
    intros Hin. apply (Hdis _ Hin). cbn. by left.
Qed.

Lemma validate_timestamp_Ok parent actual :
  validate_timestamp parent actual = Ok tt →
  parent < actual ≤ parent + MAX_TIMESTAMP_STEP_SECONDS.
Proof.
  unfold validate_timestamp, saturating_add. intros Hv. ok_inv. apply checked_add_Some in Hok as [-> _].
  bool_prop. unfold MAX_TIMESTAMP_STEP_SECONDS in *. lia.
Qed.

Record proposal_ok (parent : FinalizedChainState) (batches : list DomainBatch) (timestamp : Z)
    (vp : ValidatedProposal) : Prop := {
  po_batches : cb_batches (vp_block vp) = batches;
  po_chain : chain_ok (fs_height (vp_resulting_state vp)) (vp_resulting_state vp);
  po_height : fs_height (vp_resulting_state vp) = fs_height parent + 1;
  po_timestamp : fs_timestamp (vp_resulting_state vp) = timestamp ∧
    fs_timestamp parent < timestamp ≤ fs_timestamp parent + MAX_TIMESTAMP_STEP_SECONDS;
  po_identity : fs_network_id (vp_resulting_state vp) = fs_network_id parent ∧
    fs_root_domain_id (vp_resulting_state vp) = fs_root_domain_id parent ∧
    fs_governance_address (vp_resulting_state vp) = fs_governance_address parent;
  po_validators : fs_validator_set_hash (vp_resulting_state vp) = fs_next_validator_set_hash parent ∧
    fs_next_validator_set_hash (vp_resulting_state vp) = fs_next_validator_set_hash parent;
  po_hash : block_hash_of (vp_block vp) = Ok (fs_consensus_hash (vp_resulting_state vp)) ∧
    ch_parent_hash (cb_header (vp_block vp)) = fs_consensus_hash parent;
  po_commits : ch_domain_heads_root (cb_header (vp_block vp)) = domain_heads_root (vp_resulting_state vp) ∧
    domain_results_root (cb_domain_blocks (vp_block vp)) =
      Ok (ch_domain_results_root (cb_header (vp_block vp))) ∧
    batches_root batches = Ok (ch_batches_root (cb_header (vp_block vp)));
  po_descriptors : ∀ id d, bget id (fs_descriptors parent) = Some d →
    bget id (fs_descriptors (vp_resulting_state vp)) = Some d;
  po_untouched : ∀ id fd, bget id (fs_domains parent) = Some fd → id ∉ db_domain_id <$> batches →
    bget id (fs_domains (vp_resulting_state vp)) = Some fd;
  po_advanced : ∀ b, b ∈ batches → ∃ fd nd, bget (db_domain_id b) (fs_domains parent) = Some fd ∧
    db_parent_domain_block_hash b = fd_block_hash fd ∧
    bget (db_domain_id b) (fs_domains (vp_resulting_state vp)) = Some nd ∧ advanced fd nd ∧
    fd_header nd ∈ cb_domain_blocks (vp_block vp);
  po_gas : zsum er_gas_used (vp_executions vp) ≤ MAX_CONSENSUS_BLOCK_GAS;
  po_size : ∃ encoded, encode_consensus_block (vp_block vp) = Ok encoded ∧
    zlen encoded ≤ MAX_CONSENSUS_BLOCK_BYTES;
}.

Lemma sorted_batches_NoDup batches :
  StronglySorted tlt (db_domain_id <$> batches) → NoDup (db_domain_id <$> batches).
Proof.
  intros Hs. induction Hs as [|a l Hs IH Ha]; constructor; [|done].
  intros Hin. rewrite list.Forall_forall in Ha. exact (tlt_irrefl _ (Ha _ Hin)).
Qed.

Lemma execute_proposal_ok parent batches ts proposer vp :
  chain_ok (fs_height parent) parent → 0 ≤ fs_height parent →
  StronglySorted tlt (db_domain_id <$> batches) →
  execute parent batches ts proposer = Ok vp → proposal_ok parent batches ts vp.
Proof.
  intros Hok Hh Hs. unfold execute. intros He. apply obind_Ok in He as ([] & Ht & He).
  apply validate_timestamp_Ok in Ht. destruct (_ <? _); [done|].
  apply obind_Ok in He as (height & Hheight & He). apply ok_or_Ok, checked_add_Some in Hheight as [-> _].
  apply obind_Ok in He as (x & Hx & He). apply obind_Ok in He as (br & Hbr & He).
  apply obind_Ok in He as (rr & Hrr & He). apply obind_Ok in He as (enc & Henc & He).
  destruct (Z.ltb_spec MAX_CONSENSUS_BLOCK_BYTES (zlen enc)) as [|Hlen]; [done|].
  apply obind_Ok in He as (hash & Hhash & [= <-]).
  apply executed_run in Hx as [Xok Xid Xd Xu Xa [Xg Xmax]]; [|done|lia|lia|by apply sorted_batches_NoDup].
  split; cbn [vp_block vp_resulting_state vp_executions fs_height fs_timestamp fs_network_id fs_root_domain_id
    fs_governance_address fs_validator_set_hash fs_next_validator_set_hash fs_consensus_hash fs_domains
    fs_descriptors cb_batches cb_header cb_domain_blocks ch_parent_hash ch_domain_heads_root
    ch_domain_results_root ch_batches_root ch_validator_set_hash ch_next_validator_set_hash].
  - done.
  - destruct Xok as [A1 A2 A3 A4 A5 A6 A7 A8]. split; [exact A1|exact A2|exact A3|exact A4|exact A5|exact A6|exact A7|exact A8].
  - done.
  - done.
  - exact Xid.
  - done.
  - done.
  - split; [|by split]. unfold domain_heads_root. cbn [fs_domains]. reflexivity.
  - exact Xd.
  - exact Xu.
  - exact Xa.
  - by rewrite <-Xg.
  - by exists enc.
Qed.

(** C28. What a proposal changes. Built over a well-formed parent it advances the
    height by one and the timestamp by 1 to 30 seconds; its header links to the
    parent and commits to its batches, its results and the heads of the resulting
    state; each batch's domain has exactly one new block, numbered next, linked to
    the old head, with the EIP-1559 base fee and within its gas limit; every other
    domain and every descriptor is as before; the aggregate gas and the encoded
    size are within their limits; and the resulting state is well formed. *)
Theorem proposal_effects parent batches ts proposer vp :
  chain_ok (fs_height parent) parent → 0 ≤ fs_height parent →
  build_proposal parent batches ts proposer = Ok vp →
  proposal_ok parent (sort_batches batches) ts vp ∧ sort_batches batches ≡ₚ batches.
Proof.
  intros Hok Hh Hb. split; [|apply sort_batches_perm]. unfold build_proposal in Hb.
  apply obind_Ok in Hb as ([] & Ho & He). apply ensure_batch_order_Ok in Ho. by eapply execute_proposal_ok.
Qed.

(** One finalized block after another. *)
Definition chain_step (s s' : FinalizedChainState) : Prop :=
  ∃ block vp, validate_proposal s block = Ok vp ∧ s' = vp_resulting_state vp.

Lemma validated_ok s block vp :
  chain_ok (fs_height s) s → 0 ≤ fs_height s → validate_proposal s block = Ok vp →
  proposal_ok s (cb_batches block) (ch_timestamp (cb_header block)) vp.
Proof.
  intros Hok Hh. unfold validate_proposal. intros Hv. destruct (_ || _); [done|].
  apply obind_Ok in Hv as ([] & Ho & Hv). destruct (_ || _); [done|]. apply ensure_batch_order_Ok in Ho.
  apply obind_Ok in Hv as (e & He & Hv). apply obind_Ok in Hv as ([] & _ & [= ->]). by eapply execute_proposal_ok.
Qed.

Definition chain_inv (g : FinalizedChainGenesis) (s : FinalizedChainState) : Prop :=
  chain_ok (fs_height s) s ∧ 0 ≤ fs_height s ∧ fs_network_id s = fg_network_id g ∧
  fs_root_domain_id s = fg_root_domain_id g ∧ fs_governance_address s = fg_governance_address g ∧
  fg_timestamp g + fs_height s ≤ fs_timestamp s.

Lemma genesis_inv g s : genesis g = Ok s → chain_inv g s.
Proof.
  intros Hg. pose proof (genesis_ok _ _ Hg) as Hok. unfold genesis in Hg. apply obind_Ok in Hg as ([] & _ & Hg).
  apply obind_Ok in Hg as (h & _ & [= <-]). unfold chain_inv. cbn [fs_height fs_network_id fs_root_domain_id
    fs_governance_address fs_timestamp]. split_and!; try done; lia.
Qed.

Lemma chain_inv_step g s s' : chain_step s s' → chain_inv g s → chain_inv g s'.
Proof.
  intros (block & vp & Hv & ->) (Hok & Hh & E1 & E2 & E3 & Ht).
  pose proof (validated_ok _ _ _ Hok Hh Hv) as []. destruct po_identity0 as (I1 & I2 & I3).
  destruct po_timestamp0. unfold chain_inv. rewrite I1, I2, I3. split_and!; try done; lia.
Qed.

Lemma rtc_keeps {A : Type} (I : A → Prop) (R : relation A) a b :
  (∀ x y, R x y → I x → I y) → rtc R a b → I a → I b.
Proof. intros Hk Hr. induction Hr as [|x y z Hxy _ IH]; [done|]. intros Hx. by apply IH, (Hk x). Qed.

(** C10. Every finalized state is well formed. From genesis, through any sequence of
    validated blocks: every domain's header, hash, state root, configuration and
    identifier agree; chain IDs are unique; every domain but the root has a
    descriptor that matches it, and a line of parents up to the root; and the
    network, root domain and governance address never change, no domain or
    descriptor ever disappears, heights and timestamps only grow. *)
Theorem chain_invariant g s0 s :
  genesis g = Ok s0 → rtc chain_step s0 s →
  chain_ok (fs_height s) s ∧ 0 ≤ fs_height s ∧
  fs_network_id s = fg_network_id g ∧ fs_root_domain_id s = fg_root_domain_id g ∧
  fs_governance_address s = fg_governance_address g ∧
  fg_timestamp g + fs_height s ≤ fs_timestamp s ∧
  (∀ s', chain_step s s' →
    (∀ id, is_Some (bget id (fs_domains s)) → is_Some (bget id (fs_domains s'))) ∧
    (∀ id d, bget id (fs_descriptors s) = Some d → bget id (fs_descriptors s') = Some d) ∧
    fs_height s' = fs_height s + 1 ∧ fs_timestamp s < fs_timestamp s').
Proof.
  intros Hg Hr. assert (chain_inv g s) as Hinv.
  { eapply (rtc_keeps (chain_inv g)); [|exact Hr|by apply genesis_inv]. apply chain_inv_step. }
  destruct Hinv as (Hok & Hh & E1 & E2 & E3 & Ht). split_and!; try done.
  intros s' (block & vp & Hv & ->). pose proof (validated_ok _ _ _ Hok Hh Hv) as [].
  split_and!; [|done|done|lia].
  intros id [fd Hfd]. destruct (decide (id ∈ db_domain_id <$> cb_batches block)) as [Hin|Hn]; [|by eauto].
  apply list_elem_of_fmap in Hin as (b & -> & Hb). destruct (po_advanced0 _ Hb) as (f & n & _ & _ & Hn & _). by eexists.
Qed.
End effects.

(** ** Base fees *)

(** EIP-1559 over unbounded integers. *)
Definition eip1559_base_fee (limit used fee : Z) : Z :=
  let target := limit / 2 in
  if used =? target then fee
  else if target <? used then fee + Z.max (fee * (used - target) / target / 8) 1
  else fee - fee * (target - used) / target / 8.

Definition with_gas_used (h : DomainBlockHeader) (used : Z) : DomainBlockHeader :=
  {| dh_protocol_version := dh_protocol_version h; dh_domain_id := dh_domain_id h;
     dh_number := dh_number h; dh_parent_hash := dh_parent_hash h;
     dh_consensus_height := dh_consensus_height h; dh_transactions_root := dh_transactions_root h;
     dh_state_root := dh_state_root h; dh_receipts_root := dh_receipts_root h;
     dh_logs_bloom := dh_logs_bloom h; dh_gas_limit := dh_gas_limit h; dh_gas_used := used;
     dh_base_fee_per_gas := dh_base_fee_per_gas h |}.

Lemma fee_part fee delta target :
  0 ≤ fee → 0 < target → 0 ≤ delta ≤ target → 0 ≤ fee * delta / target / 8 ≤ fee / 8.
Proof.
  intros Hf Ht Hd. split; [repeat apply Z.div_pos; nia|]. apply Z.div_le_mono; [lia|].
  apply Z.div_le_upper_bound; nia.
Qed.

Lemma fee_part_mono fee d1 d2 target :
  0 ≤ fee → 0 < target → d1 ≤ d2 → fee * d1 / target / 8 ≤ fee * d2 / target / 8.
Proof. intros Hf Ht Hd. repeat (apply Z.div_le_mono; [lia|]). nia. Qed.

Lemma next_base_fee_spec h :
  2 ≤ dh_gas_limit h → u64 (dh_gas_limit h) → u64 (dh_gas_used h) →
  0 ≤ dh_base_fee_per_gas h ≤ umax 64 →
  next_base_fee h = eip1559_base_fee (dh_gas_limit h) (dh_gas_used h) (dh_base_fee_per_gas h).
Proof.
  intros Hl Hlu Hu Hf. unfold next_base_fee, eip1559_base_fee, saturating_mul, saturating_add, saturating_sub, umax, fits in *.
  change (2 ^ 64) with 18446744073709551616 in *.
  change (2 ^ 128) with 340282366920938463463374607431768211456.
  set (limit := dh_gas_limit h) in *. set (used := dh_gas_used h) in *. set (fee := dh_base_fee_per_gas h) in *.
  assert (1 ≤ limit / 2 ≤ limit) as Ht by (split; [apply Z.div_le_lower_bound; lia|apply Z.div_le_upper_bound; lia]).
  destruct (Z.eqb_spec (limit / 2) 0) as [|_]; [lia|]. cbn [orb].
  destruct (Z.eqb_spec used (limit / 2)) as [|Hne]; [done|].
  destruct (Z.ltb_spec (limit / 2) used) as [Hlt|Hge].
  - assert (0 ≤ fee * (used - limit / 2) ≤ 18446744073709551615 * 18446744073709551615) as Hprod
      by (split; [apply Z.mul_nonneg_nonneg|apply Z.mul_le_mono_nonneg]; lia).
    rewrite (Z.min_l (fee * (used - limit / 2))) by lia.
    assert (0 ≤ fee * (used - limit / 2) / (limit / 2) / 8 ≤ fee * (used - limit / 2)) as Hb.
    { split; [repeat apply Z.div_pos; lia|]. apply Z.div_le_upper_bound; [lia|]. apply Z.div_le_upper_bound; nia. }
    rewrite Z.min_l by lia. done.
  - assert (0 ≤ fee * (limit / 2 - used) ≤ 18446744073709551615 * 18446744073709551615) as Hprod
      by (split; [apply Z.mul_nonneg_nonneg|apply Z.mul_le_mono_nonneg]; lia).
    rewrite Z.min_l by lia. pose proof (fee_part fee (limit / 2 - used) (limit / 2)) as Hp.
    pose proof (Z.div_le_upper_bound fee 8 fee). lia.
Qed.

(** Base fees follow EIP-1559. While the fee is within the range of the EVM's
    field, the saturating 128-bit computation is the EIP's formula over unbounded
    integers: unchanged at the target, falling by at most one eighth and rising by
    at least one; for an even gas limit it rises by at most one eighth (or one);
    it is monotone in the gas used, never negative, and never falls to zero from a
    positive fee. *)
Theorem base_fee_eip1559 h :
  2 ≤ dh_gas_limit h → u64 (dh_gas_limit h) → 0 ≤ dh_gas_used h ≤ dh_gas_limit h →
  0 ≤ dh_base_fee_per_gas h ≤ umax 64 →
  next_base_fee h = eip1559_base_fee (dh_gas_limit h) (dh_gas_used h) (dh_base_fee_per_gas h) ∧
  dh_base_fee_per_gas h - dh_base_fee_per_gas h / 8 ≤ next_base_fee h ∧
  (0 < dh_base_fee_per_gas h → 0 < next_base_fee h) ∧
  (Z.even (dh_gas_limit h) = true →
    next_base_fee h ≤ dh_base_fee_per_gas h + Z.max (dh_base_fee_per_gas h / 8) 1) ∧
  (dh_gas_limit h / 2 < dh_gas_used h → dh_base_fee_per_gas h < next_base_fee h) ∧
  (∀ used, dh_gas_used h ≤ used ≤ dh_gas_limit h → next_base_fee h ≤ next_base_fee (with_gas_used h used)).
Proof.
  intros Hl Hlu Hu Hf.
  assert (∀ used, 0 ≤ used ≤ dh_gas_limit h → next_base_fee (with_gas_used h used) =
    eip1559_base_fee (dh_gas_limit h) used (dh_base_fee_per_gas h)) as Hspec.
  { intros used Hused. apply next_base_fee_spec; cbn; try done. unfold fits in *. lia. }
  assert (next_base_fee h = eip1559_base_fee (dh_gas_limit h) (dh_gas_used h) (dh_base_fee_per_gas h)) as E.
  { apply next_base_fee_spec; try done. unfold fits in *. lia. }
  rewrite E. split; [done|]. clear E.
  set (limit := dh_gas_limit h) in *. set (fee := dh_base_fee_per_gas h) in *. set (used := dh_gas_used h) in *.
  assert (1 ≤ limit / 2 ≤ limit) as Ht by (split; [apply Z.div_le_lower_bound; lia|apply Z.div_le_upper_bound; lia]).
  pose proof (Z.div_pos fee 8 ltac:(lia) ltac:(lia)). pose proof (Z.mul_div_le fee 8 ltac:(lia)).
  pose proof (λ d, fee_part fee d (limit / 2) ltac:(lia) ltac:(lia)) as Hpart.
  assert (∀ d1 d2, d1 ≤ d2 → fee * d1 / (limit / 2) / 8 ≤ fee * d2 / (limit / 2) / 8) as Hmono
    by (intros d1 d2 Hd; apply fee_part_mono; lia).
  split_and!.
  - unfold eip1559_base_fee. repeat case_match; bool_prop; [lia| |specialize (Hpart (limit / 2 - used)); lia]. lia.
  - unfold eip1559_base_fee. repeat case_match; bool_prop; [lia|lia|]. specialize (Hpart (limit / 2 - used)). lia.
  - intros Heven. apply Z.even_spec in Heven as [k Hk]. assert (limit / 2 = k) as Ek
      by (rewrite Hk, Z.mul_comm, Z.div_mul; lia).
    unfold eip1559_base_fee. repeat case_match; bool_prop; [lia| |specialize (Hpart (limit / 2 - used)); lia].
    specialize (Hpart (used - limit / 2)). lia.
  - unfold eip1559_base_fee. intros Hgt. repeat case_match; bool_prop; lia.
  - intros used' Hused'. rewrite Hspec by lia. unfold eip1559_base_fee.
    destruct (Z.eqb_spec used (limit / 2)), (Z.eqb_spec used' (limit / 2)), (Z.ltb_spec (limit / 2) used),
      (Z.ltb_spec (limit / 2) used'); try lia;
      pose proof (Hpart (limit / 2 - used)); pose proof (Hpart (limit / 2 - used')); try lia.
    + pose proof (Hmono (used - limit / 2) (used' - limit / 2)). lia.
    + pose proof (Hmono (limit / 2 - used') (limit / 2 - used)). lia.
Qed.

(** ** A fee that no block can carry *)

Lemma for_each_elem {E S A : Type} (f : S → A → outcome E S) l s s' a :
  for_each f s l = Ok s' → a ∈ l → ∃ s1 s2, f s1 a = Ok s2.
Proof.
  revert s. induction l as [|x l IH]; intros s Hf Ha; [by apply elem_of_nil in Ha|].
  cbn [for_each] in Hf. apply obind_Ok in Hf as (s1 & Hx & Hf).
  apply elem_of_cons in Ha as [->|Ha]; [by exists s, s1|by eapply IH].
Qed.

Section stall.
Context `{Keccak, AlloyRlp, !AlloyTrie, SenderRecovery, Journal, !Revm, AlloyRoots}.

Lemma execute_validates_env spec env parent envelopes registry r :
  execute_batch_with_registry spec env parent envelopes registry = Ok r → envelopes ≠ [] →
  validate_env env = Ok tt.
Proof.
  unfold execute_batch_with_registry. destruct (_ <? _); [done|]. intros Hr Hne.
  apply obind_Ok in Hr as (b & Hb & _). destruct envelopes as [|e l]; [done|].
  unfold enumerate in Hb. cbn [imap for_each] in Hb. apply obind_Ok in Hb as (b1 & H1' & _).
  unfold execute_one in H1'. apply obind_Ok in H1' as (tx & _ & H1'). destruct (negb _); [done|].
  apply obind_Ok in H1' as (sd & _ & H1'). apply obind_Ok in H1' as (th & _ & H1').
  apply obind_Ok in H1' as ([p g] & _ & H1'). apply obind_Ok in H1' as ([res st] & Hex & _).
  apply map_err_Ok in Hex. unfold execute_transaction_with_system in Hex.
  by apply obind_Ok in Hex as ([] & Hv & _).
Qed.

(** C36. A domain whose fee reaches the top of the EVM's field stalls, and stalls the
    blocks that include it. When the last block of a domain has the largest base
    fee the field holds and used more than the target, the next fee is above the
    field, and no proposal with a transaction of that domain can be built over this
    state, whatever the transaction, the EVM and the other batches. *)
Theorem full_fee_stalls parent fd id batches b ts proposer vp :
  bget id (fs_domains parent) = Some fd → dh_base_fee_per_gas (fd_header fd) = umax 64 →
  2 ≤ dh_gas_limit (fd_header fd) → u64 (dh_gas_limit (fd_header fd)) →
  dh_gas_limit (fd_header fd) / 2 < dh_gas_used (fd_header fd) ≤ dh_gas_limit (fd_header fd) →
  b ∈ batches → db_domain_id b = id → db_transactions b ≠ [] →
  build_proposal parent batches ts proposer ≠ Ok vp.
Proof.
  intros Hfd Hfee Hlim Hlu Hused Hb Hid Htx Hbuild.
  assert (umax 64 < next_base_fee (fd_header fd)) as Hnext.
  { rewrite next_base_fee_spec; [|done|done|pose proof (Z.div_pos (dh_gas_limit (fd_header fd)) 2); unfold fits in *; lia|
      rewrite Hfee; unfold umax; lia].
    unfold eip1559_base_fee. repeat case_match; bool_prop; lia. }
  unfold build_proposal in Hbuild. apply obind_Ok in Hbuild as ([] & _ & He).
  unfold execute in He. apply obind_Ok in He as ([] & _ & He). destruct (_ <? _); [done|].
  apply obind_Ok in He as (height & _ & He). apply obind_Ok in He as (x & Hx & _).
  rewrite <-(sort_batches_perm batches) in Hb. destruct (for_each_elem _ _ _ _ _ Hx Hb) as (x1 & x2 & H1').
  unfold execute_one_batch in H1'. rewrite Hid, Hfd in H1'. cbn [ok_or obind] in H1'. destruct (negb _); [done|].
  apply obind_Ok in H1' as ([[h ex] nd] & Hex & _). unfold execute_domain in Hex.
  apply obind_Ok in Hex as (n & _ & Hex). apply obind_Ok in Hex as (sv & _ & Hex).
  apply obind_Ok in Hex as (r & Hr & _). apply map_err_Ok, execute_validates_env in Hr; [|done].
  unfold validate_env in Hr. cbn in Hr. destruct (_ =? _); [done|]. destruct (_ || _); [done|].
  rewrite (proj2 (Z.ltb_lt _ _)) in Hr by done. done.
Qed.
End stall.

Module ChainWitness.
Import ExecutorWitness.
#[local] Existing Instance Toy.toy_keccak.
#[local] Existing Instance spec_rlp.
#[local] Existing Instance MptWitness.toy_trie.
#[local] Existing Instance RegistryWitness.toy.
#[local] Existing Instance toy_recovery.
#[local] Existing Instance toy_revm.
#[local] Existing Instance toy_roots.

Definition root_id : DomainId := repeat_byte 32 68.

Definition config : DomainConfig :=
  {| dc_chain_id := 7; dc_protocol_revision := 1; dc_gas_limit := 30000000;
     dc_initial_base_fee_per_gas := 10 |}.

Definition chain_genesis : FinalizedChainGenesis :=
  {| fg_network_id := repeat_byte 32 17; fg_consensus_hash := repeat_byte 32 34; fg_timestamp := 1000;
     fg_validator_set_hash := repeat_byte 32 51; fg_root_domain_id := root_id;
     fg_governance_address := repeat_byte 20 15; fg_config := config; fg_state := parent |}.

Definition no_chain : FinalizedChainState :=
  {| fs_network_id := []; fs_height := 0; fs_consensus_hash := []; fs_timestamp := 0;
     fs_validator_set_hash := []; fs_next_validator_set_hash := []; fs_root_domain_id := [];
     fs_governance_address := []; fs_domains := []; fs_descriptors := [] |}.

Definition chain0 : FinalizedChainState :=
  Eval vm_compute in match genesis chain_genesis with Ok s => s | _ => no_chain end.

Definition root_batch : DomainBatch :=
  Eval vm_compute in
    {| db_domain_id := root_id;
       db_parent_domain_block_hash :=
         from_option fd_block_hash [] (bget root_id (fs_domains chain0));
       db_transactions := envelopes |}.

Definition no_proposal : ValidatedProposal :=
  {| vp_block := {| cb_header :=
       {| ch_protocol_version := 0; ch_network_id := []; ch_height := 0; ch_parent_hash := [];
          ch_timestamp := 0; ch_batches_root := []; ch_domain_results_root := [];
          ch_domain_heads_root := []; ch_validator_set_hash := []; ch_next_validator_set_hash := [];
          ch_proposer := [] |};
       cb_batches := []; cb_domain_blocks := [] |};
     vp_resulting_state := no_chain; vp_executions := [] |}.

Definition proposed : ValidatedProposal :=
  Eval vm_compute in
    match build_proposal chain0 [root_batch] 1001 (repeat_byte 20 1) with Ok vp => vp | _ => no_proposal end.

Lemma genesis_built : genesis chain_genesis = Ok chain0.
Proof. by_evaluation. Qed.

Lemma proposal_built : build_proposal chain0 [root_batch] 1001 (repeat_byte 20 1) = Ok proposed.
Proof. by_evaluation. Qed.

Lemma proposal_valid : validate_proposal chain0 (vp_block proposed) = Ok proposed.
Proof. by_evaluation. Qed.

Lemma proposal_effects_witness : proposal_ok chain0 [root_batch] 1001 proposed ∧ sort_batches [root_batch] ≡ₚ [root_batch].
Proof.
  apply (proposal_effects chain0 [root_batch] 1001 (repeat_byte 20 1) proposed).
  - apply (genesis_ok chain_genesis). exact genesis_built.
  - by_evaluation.
  - exact proposal_built.
Defined.

Lemma chain_invariant_witness :
  chain_ok 1 (vp_resulting_state proposed) ∧ fs_root_domain_id (vp_resulting_state proposed) = root_id.
Proof.
  destruct (chain_invariant chain_genesis chain0 (vp_resulting_state proposed)) as (Hok & _ & _ & Hr & _).
  - exact genesis_built.
  - apply rtc_once. exists (vp_block proposed), proposed. split; [exact proposal_valid|reflexivity].
  - split; [exact Hok|exact Hr].
Defined.

Lemma base_fee_eip1559_witness : next_base_fee (MerkleWitness.header 1) = 7.
Proof.
  destruct (base_fee_eip1559 (MerkleWitness.header 1)) as [E _].
  - by_evaluation.
  - by_evaluation.
  - split; by_evaluation.
  - split; by_evaluation.
  - rewrite E. reflexivity.
Defined.

(** A root domain whose last block was full at the largest fee. *)
Definition full_header : DomainBlockHeader :=
  {| dh_protocol_version := 1; dh_domain_id := root_id; dh_number := 1; dh_parent_hash := repeat_byte 32 0;
     dh_consensus_height := 0; dh_transactions_root := repeat_byte 32 1; dh_state_root := repeat_byte 32 2;
     dh_receipts_root := repeat_byte 32 3; dh_logs_bloom := repeat_byte 256 0; dh_gas_limit := 30000000;
     dh_gas_used := 30000000; dh_base_fee_per_gas := umax 64 |}.

Definition full_domain : FinalizedDomain :=
  {| fd_config := config; fd_header := full_header; fd_block_hash := repeat_byte 32 9; fd_state := parent |}.

Definition full_chain : FinalizedChainState :=
  with_domains chain0 [(root_id, full_domain)] [].

Lemma full_fee_stalls_witness :
  ¬ ∃ vp, build_proposal full_chain [root_batch] 1001 (repeat_byte 20 1) = Ok vp.
Proof.
  intros [vp E]. revert E. apply (full_fee_stalls full_chain full_domain root_id [root_batch] root_batch).
  - by_evaluation.
  - reflexivity.
  - by_evaluation.
  - by_evaluation.
  - split; by_evaluation.
  - left.
  - reflexivity.
  - intros E. discriminate E.
Defined.
End ChainWitness.
