(* ===== verification/Typing.v ===== *)
(** The types of the running system. The records of the model keep integers as [Z]
    and hashes as byte strings; this file shows that every value the code builds has
    the widths of its Rust type, for execution states
    (src/crates/arbor-evm/src/state.rs), executed batches
    (src/crates/arbor-executor/src/lib.rs), finalized states and proposals
    (src/crates/arbor-chain/src/lib.rs).

    Main results: an execution state stays well formed under every change, and a
    proposal built over a well-typed parent is well typed, so its block decodes from
    its own encoding ([proposal_typed]). *)

From Stdlib Require Import Strings.Byte.
From stdpp Require Import relations.
From S2P Require Import Prelude Bytes BTreeMap Primitives Canonical Rlp Crypto Ethereum StateError.
From S2P Require Import DomainHeads System Registry Trie Mpt MptBuild Account Overlay Evm Executor.
From S2P Require Import Merkle ChainBlock ChainState Chain.

Local Open Scope Z_scope.

(** ** Execution states *)

(** A map whose keys are 32-byte hashes. *)
Definition hash_keys {V : Type} (m : btree bytes V) : Prop := sorted m ∧ Forall is_b256 (bkeys m).

Lemma hash_keys_nil {V : Type} : hash_keys (V := V) [].
Proof. split; constructor. Qed.

Lemma hash_keys_insert {V : Type} k v (m : btree bytes V) :
  is_b256 k → hash_keys m → hash_keys (binsert k v m).
Proof.
  intros Hk [Hs Hf]. split; [by apply sorted_binsert|]. rewrite list.Forall_forall in Hf |- *.
  intros x [->|Hx]%bkeys_binsert; auto.
Qed.

Lemma hash_keys_remove {V : Type} k (m : btree bytes V) : hash_keys m → hash_keys (bremove k m).
Proof.
  intros [Hs Hf]. split; [by apply sorted_bremove|]. rewrite list.Forall_forall in Hf |- *.
  intros x Hx. apply Hf. apply bkeys_elem in Hx as [v Hx]. apply bkeys_elem. exists v. revert Hx.
  rewrite bget_bremove. by destruct (teqb x k).
Qed.

Create HintDb typing.
#[export] Hint Resolve hash_keys_nil hash_keys_insert hash_keys_remove keccak256_length : typing.

Section states.
Context `{Keccak, AlloyRlp, !AlloyTrie}.

Record state_typed (s : ExecutionState) : Prop := {
  st_root : is_b256 (state_root s);
  st_leaves : hash_keys (snap_leaves (es_accounts s));
  st_nodes : addressed (snap_nodes (es_accounts s));
  st_trie_nodes : addressed (es_trie_nodes s);
  st_code : addressed (es_contract_code s);
}.

Lemma addressed_bextend m l : addressed m → addressed l → addressed (bextend m l).
Proof.
  intros Hm [_ Hl]. assert (∀ h e, (h, e) ∈ l → h = keccak256 e) as Hall by done. clear Hl. revert m Hm.
  induction l as [|[h e] l IH]; intros m Hm; [done|]. rewrite bextend_cons. cbn [fst snd].
  rewrite (Hall h e) by (by left). apply IH; [|by apply addressed_insert].
  intros h' e' Hin. apply Hall. by right.
Qed.

Lemma addressed_keys m : addressed m → hash_keys m.
Proof.
  intros [Hs Ha]. split; [done|]. apply list.Forall_forall. intros k ([k' v] & -> & Hin)%list_elem_of_fmap.
  rewrite (Ha _ _ Hin). apply keccak256_length.
Qed.

Lemma extend_nodes_addressed snap nodes snap' :
  extend_nodes snap nodes = Ok snap' → addressed (snap_nodes snap) → addressed (snap_nodes snap').
Proof.
  unfold extend_nodes. intros He Ha. apply obind_Ok in He as (ns & Hf & [= <-]). cbn [snap_nodes].
  eapply (for_each_inv addressed); [|exact Ha|exact Hf]. intros m [h b] m' _ Hm Hn. unfold extend_node in Hn.
  destruct (negb _) eqn:E; [done|]. bool_prop. subst h.
  destruct (bget _ m); [destruct (negb _); [done|]|]; injection Hn as <-; by apply addressed_insert.
Qed.

(** A trie built over hashed keys, extended with addressed nodes. *)
Lemma built_typed leaves nodes code hashes snap snap' :
  build leaves = Ok snap → extend_nodes snap nodes = Ok snap' → hash_keys leaves →
  addressed nodes → addressed code →
  state_typed {| es_accounts := snap'; es_trie_nodes := nodes; es_contract_code := code;
                 es_block_hashes := hashes |}.
Proof.
  intros Hb He Hl Hn Hc. pose proof (extend_nodes_Ok _ _ _ He) as [Er El].
  split; cbn [es_accounts es_trie_nodes es_contract_code]; try done.
  - unfold state_root. cbn. rewrite Er. by eapply build_root_b256.
  - rewrite El. by rewrite (build_leaves _ _ Hb).
  - eapply extend_nodes_addressed; [exact He|]. by eapply build_addressed.
Qed.

Lemma from_genesis_typed allocations s : from_genesis allocations = Ok s → state_typed s.
Proof.
  unfold from_genesis. intros Hg. apply obind_Ok in Hg as ([[leaves nodes] code] & Hf & Hg).
  apply obind_Ok in Hg as (snap & Hb & Hg). apply obind_Ok in Hg as (snap' & He & [= <-]).
  apply map_err_Ok in Hb, He.
  assert (hash_keys leaves ∧ addressed nodes ∧ addressed code) as (Hl & Hn & Hc).
  { apply (for_each_inv (λ m : btree bytes bytes * btree bytes bytes * btree bytes bytes,
      hash_keys m.1.1 ∧ addressed m.1.2 ∧ addressed m.2)) in Hf;
      [done| |cbn; split_and!; auto using hash_keys_nil, addressed_nil].
    intros [[l n] c] [address a] [[l' n'] c'] _ (Hl & Hn & Hc). cbn [fst snd] in *. unfold genesis_account.
    intros Ha. apply obind_Ok in Ha as (st & Hst & Ha). unfold build_storage_snapshot in Hst.
    apply map_err_Ok, build_addressed in Hst.
    destruct (length (ga_code a) =? 0)%nat, (is_empty _); injection Ha as <- <- <-;
      split_and!; auto using addressed_bextend, addressed_insert; apply hash_keys_insert; auto; apply keccak256_length. }
  eapply built_typed; [exact Hb|exact He|done| |done]. apply addressed_bextend; [done|by eapply build_addressed].
Qed.

Lemma apply_change_typed s st c st' :
  apply_change s st c = Ok st' →
  base st.1.1 = base st'.1.1 ∧
  (Forall is_b256 (bkeys (writes st.1.1)) → Forall is_b256 (bkeys (writes st'.1.1))) ∧
  (addressed st.1.2 → addressed st'.1.2) ∧ (addressed st.2 → addressed st'.2).
Proof.
  assert (∀ k v (m : btree bytes (option bytes)), Forall is_b256 (bkeys m) → is_b256 k →
    Forall is_b256 (bkeys (binsert k v m))) as Hw.
  { intros k v m Hm Hk. rewrite list.Forall_forall in Hm |- *. intros x [->|Hx]%bkeys_binsert; auto. }
  destruct st as [[ov added] code], c as [address changed]. unfold apply_change. intros Ha.
  destruct (negb _); [by injection Ha as <-|]. destruct (ca_selfdestructed changed).
  { injection Ha as <-. cbn. split_and!; try done. intros Hf. apply Hw; [done|apply keccak256_length]. }
  apply obind_Ok in Ha as (old & _ & Ha). apply obind_Ok in Ha as (leaves & _ & Ha).
  apply obind_Ok in Ha as (storage & Hb & Ha). apply obind_Ok in Ha as (code' & Hc & [= <-]).
  apply map_err_Ok, build_addressed in Hb. cbn [fst snd]. split; [|split; [|split]].
  - unfold set_account. by destruct (is_empty _).
  - intros Hf. unfold set_account. destruct (is_empty _); cbn; apply Hw; try done; apply keccak256_length.
  - intros Hadd. by apply addressed_bextend.
  - intros Hcode. unfold changed_code in Hc. destruct (bool_decide _); [by injection Hc as <-|].
    destruct (ca_code changed) as [b|]; [|by injection Hc as <-]. destruct (_ =? _)%nat; [by injection Hc as <-|].
    destruct (negb _) eqn:E; [done|]. injection Hc as <-. bool_prop. rewrite <-E. by apply addressed_insert.
Qed.

Lemma apply_changes_typed s changes s' :
  state_typed s → apply_changes s changes = Ok s' → state_typed s'.
Proof.
  intros [Hroot Hleaves Hnodes Htrie Hcode]. unfold apply_changes. intros Ha.
  apply obind_Ok in Ha as ([[ov added] code] & Hf & Ha). apply obind_Ok in Ha as (accounts & Hc & Ha).
  apply obind_Ok in Ha as (reachable & Hr & Ha). apply obind_Ok in Ha as (accounts' & He & [= <-]).
  apply map_err_Ok in Hc, He. unfold commit_overlay in Hc.
  assert (base ov = snap_leaves (es_accounts s) ∧ Forall is_b256 (bkeys (writes ov)) ∧ addressed code) as (Eb & Hw & Hcd).
  { apply (for_each_inv (λ st : StateOverlay * btree bytes bytes * btree bytes bytes,
      base st.1.1 = snap_leaves (es_accounts s) ∧ Forall is_b256 (bkeys (writes st.1.1)) ∧ addressed st.2)) in Hf;
      [done| |cbn; split_and!; [done|constructor|done]].
    intros st c st' _ (Eb & Hw & Hcd) (Eb' & Hw' & _ & Hcd')%apply_change_typed. split_and!; [congruence|auto..]. }
  assert (∀ ws m, Forall is_b256 (bkeys (V := option bytes) ws) → hash_keys m → hash_keys (foldl apply_write m ws)) as Hfold.
  { induction ws as [|[k w] ws IH]; intros m Hf' Hm; [done|]. cbn in Hf'. inversion_clear Hf'. cbn [foldl]. apply IH; [done|].
    unfold apply_write. destruct w; cbn [fst snd]; auto using hash_keys_insert, hash_keys_remove. }
  eapply built_typed; [exact Hc|exact He| | |done].
  - rewrite Eb. by apply Hfold.
  - apply (for_each_inv addressed) in Hr; [done| |by eapply build_addressed].
    intros m e m' _ Hm Hk. unfold keep_reachable in Hk. apply obind_Ok in Hk as (a & _ & Hk).
    destruct (bool_decide _); [by injection Hk as <-|]. apply obind_Ok in Hk as (leaves & _ & Hk).
    apply obind_Ok in Hk as (st & Hb & [= <-]). apply map_err_Ok, build_addressed in Hb. by apply addressed_bextend.
Qed.
End states.

(** ** Executed batches *)

(** The types of revm's and alloy's results: gas is a [u64] and a bloom filter has
    256 bytes. *)
Class RevmTyped `{Journal, !Revm} := {
  transact_gas : ∀ db block cfg pre tx r,
    transact db block cfg pre tx = Ok r → u64 (xr_gas_used r);
}.

Class BloomTyped `{AlloyRoots} := {
  bloom_zero_typed : is_bloom BLOOM_ZERO;
  accrue_log_typed : ∀ b address topics, is_bloom b → is_bloom (accrue_raw_log b address topics);
  accrue_bloom_typed : ∀ a b, is_bloom a → is_bloom b → is_bloom (accrue_bloom a b);
}.

Section batches.
Context `{Keccak, AlloyRlp, !AlloyTrie, SenderRecovery, Journal, !Revm, AlloyRoots}.
Context `{!AlloyRlpLaws, !RevmTyped, !BloomTyped, !AlloyRootsLaws}.

Lemma execute_transaction_typed s spec env tx sender registry r s' :
  state_typed s → execute_transaction_with_system s spec env tx sender registry = Ok (r, s') →
  state_typed s' ∧ u64 (ex_gas_used r).
Proof.
  intros Hs. unfold execute_transaction_with_system. intros He.
  apply obind_Ok in He as ([] & _ & He). apply obind_Ok in He as (sp & _ & He).
  destruct (negb _); [done|]. destruct (_ && _); [done|]. apply obind_Ok in He as (fee & _ & He).
  apply obind_Ok in He as (result & Ht & He). apply map_err_Ok, transact_gas in Ht.
  destruct (_ <? _); [done|]. apply obind_Ok in He as (s1 & Ha & [= <- <-]). cbn [ex_gas_used].
  split; [by eapply apply_changes_typed|done].
Qed.

(** What a domain is created with has its types. *)
Record created_typed (cd : CreatedDomain) : Prop := {
  ct_descriptor : wf_domain_descriptor (cd_descriptor cd);
  ct_state : state_typed (cd_genesis_state cd);
}.

Record context_typed (ctx : ChainRegistryExecutionContext) : Prop := {
  cx_network : is_b256 (rc_network_id ctx);
  cx_height : u64 (rc_creation_height ctx);
  cx_heads : ∀ id h, bget id (rc_finalized_heads ctx) = Some h → is_b256 h;
}.

Lemma created_by_typed ctx envelope tx hash cd :
  context_typed ctx → decode_eip1559 envelope = Ok tx → is_b256 hash → created_by ctx tx hash cd →
  created_typed cd.
Proof.
  intros [Hn Hh Hheads] Hd Hhash [_ _ (request & joint & p & Hreq & Hj & Hg & Hnorm & Hp & Ed)].
  apply from_genesis_typed in Hg as Hst. split; [|done].
  apply decode_calldata_inv in Hreq as (r0 & W0 & _ & _ & Hr0).
  pose proof (normalize_request_inv _ _ Hr0) as (_ & _ & _ & _ & _ & _ & _ & _ & _ & _ & _ & _ & Hw).
  apply Hw in W0 as W1. clear Hw.
  pose proof (normalize_request_inv _ _ Hnorm) as (_ & _ & _ & S1 & S2 & _ & _ & _ & _ & _ & _ & _ & Hw).
  apply Hw in W1 as (W1 & W2 & W3 & W4 & W5 & W6 & W7). clear Hw. apply Hheads in Hj.
  apply decode_eip1559_sound in Hd as [(_ & _ & _ & _ & _ & _ & Hv & _) _]. rewrite Ed.
  destruct Hp as [_ Eid Horigin _ Hf _ [Hdep _] _ _]. unfold genesis_of in Hf. injection Hf as Hf.
  unfold domain_genesis_hash in Horigin. apply obind_Ok in Horigin as (enc & _ & [= Eo]).
  unfold wf_domain_descriptor.
  repeat match goal with E : _ = _ (pc_descriptor p) |- _ => rewrite <-E; clear E end.
  rewrite Eid, Hdep. split_and!; try done; apply keccak256_length.
Qed.

(** The local variables of the batch loop have their types. *)
Record batch_typed (b : batch_state) : Prop := {
  bt_state : state_typed (bs_state b);
  bt_gas : u64 (bs_cumulative_gas b);
  bt_bloom : is_bloom (bs_block_bloom b);
  bt_created : Forall created_typed (bs_created_domains b);
}.

Lemma logs_bloom_typed logs : is_bloom (logs_bloom logs).
Proof.
  unfold logs_bloom. assert (is_bloom BLOOM_ZERO) as Hz by apply bloom_zero_typed. revert Hz.
  generalize BLOOM_ZERO. induction logs as [|l logs IH]; intros b Hb; [done|]. cbn. by apply IH, accrue_log_typed.
Qed.

Lemma execute_one_typed spec env registry b item b' :
  (∀ ctx, registry = Some ctx → context_typed ctx) → batch_typed b →
  execute_one spec env registry b item = Ok b' → batch_typed b'.
Proof.
  intros Hctx [Hs Hg Hb Hc] He. destruct item as [index envelope].
  assert (∀ ctx, registry = Some ctx → 0 ≤ rc_creation_height ctx) as Hpos
    by (intros ctx Hr; apply (cx_height _ (Hctx _ Hr))).
  destruct (execute_one_ok _ _ _ _ _ _ _ Hpos He) as (tx & rc & enc & et & cr & Hstep).
  assert (state_typed (bs_state b') ∧ u64 (bs_cumulative_gas b')) as [Hs' Hg'].
  { unfold execute_one in He. apply obind_Ok in He as (tx' & _ & He). destruct (negb _); [done|].
    apply obind_Ok in He as (sender & _ & He). apply obind_Ok in He as (hash & _ & He).
    apply obind_Ok in He as ([prep gen] & _ & He). apply obind_Ok in He as ([result state] & Hx & He).
    apply map_err_Ok, execute_transaction_typed in Hx as [Hst Hgas]; [|done].
    apply obind_Ok in He as (gas & Hcum & He). unfold checked_cumulative_gas in Hcum.
    apply obind_Ok in Hcum as (used & Hadd & Hcum). apply ok_or_Ok, checked_add_fits in Hadd; [|done..].
    destruct (_ <? _); [done|]. injection Hcum as <-. apply obind_Ok in He as (e & _ & He).
    apply obind_Ok in He as (c & _ & [= <-]). by cbn. }
  split; [done|done| |].
  - rewrite (so_bloom' _ _ _ _ _ _ _ _ _ _ Hstep). apply accrue_bloom_typed; [done|apply logs_bloom_typed].
  - rewrite (so_created' _ _ _ _ _ _ _ _ _ _ Hstep). apply Forall_app. split; [done|]. apply list.Forall_forall. intros cd Hin.
    destruct (so_created _ _ _ _ _ _ _ _ _ _ Hstep _ Hin) as (_ & ctx & Hr & Hby).
    eapply created_by_typed; [by apply Hctx|exact (so_decoded _ _ _ _ _ _ _ _ _ _ Hstep)| |exact Hby].
    pose proof (so_hash _ _ _ _ _ _ _ _ _ _ Hstep) as Hh. unfold eip1559_transaction_hash in Hh.
    apply obind_Ok in Hh as (e & _ & [= <-]). apply keccak256_length.
Qed.

Record execution_typed (r : DomainExecutionResult) : Prop := {
  xt_state : state_typed (er_state r);
  xt_roots : is_b256 (er_transactions_root r) ∧ is_b256 (er_receipts_root r);
  xt_bloom : is_bloom (er_logs_bloom r);
  xt_gas : u64 (er_gas_used r);
  xt_created : Forall created_typed (er_created_domains r);
}.

Lemma execute_batch_typed spec env parent envelopes registry r :
  (∀ ctx, registry = Some ctx → context_typed ctx) → state_typed parent →
  execute_batch_with_registry spec env parent envelopes registry = Ok r → execution_typed r.
Proof.
  intros Hctx Hs. unfold execute_batch_with_registry. destruct (_ <? _); [done|]. intros He.
  apply obind_Ok in He as (b & Hf & [= <-]).
  apply (for_each_inv batch_typed) in Hf as [Bs Bg Bb Bc].
  - split; cbn; try done. split; apply root_length.
  - intros b0 item b1 _ Hb0 H1'. by eapply execute_one_typed.
  - split; cbn; [done|unfold fits; lia|apply bloom_zero_typed|constructor].
Qed.
End batches.

(** ** Finalized states and proposals *)

Definition config_typed (c : DomainConfig) : Prop :=
  u64 (dc_chain_id c) ∧ u32 (dc_protocol_revision c) ∧ u64 (dc_gas_limit c) ∧
  u128 (dc_initial_base_fee_per_gas c).

Section chain.
Context `{Keccak, AlloyRlp, !AlloyTrie, SenderRecovery, Journal, !Revm, AlloyRoots}.
Context `{!AlloyRlpLaws, !RevmTyped, !BloomTyped, !AlloyRootsLaws}.

Record domain_typed (id : DomainId) (fd : FinalizedDomain) : Prop := {
  dt_id : is_b256 id;
  dt_config : config_typed (fd_config fd);
  dt_header : wf_domain_header (fd_header fd);
  dt_hash : is_b256 (fd_block_hash fd);
  dt_state : state_typed (fd_state fd);
}.

Record chain_typed (s : FinalizedChainState) : Prop := {
  ty_network : is_b256 (fs_network_id s);
  ty_height : u64 (fs_height s);
  ty_hash : is_b256 (fs_consensus_hash s);
  ty_timestamp : u64 (fs_timestamp s);
  ty_validators : is_b256 (fs_validator_set_hash s) ∧ is_b256 (fs_next_validator_set_hash s);
  ty_root : is_b256 (fs_root_domain_id s);
  ty_governance : is_address (fs_governance_address s);
  ty_sorted : sorted (fs_domains s) ∧ sorted (fs_descriptors s);
  ty_domains : ∀ id fd, bget id (fs_domains s) = Some fd → domain_typed id fd;
  ty_descriptors : ∀ id d, bget id (fs_descriptors s) = Some d → wf_domain_descriptor d;
}.

Lemma header_hash_typed h x : domain_header_hash h = Ok x → is_b256 x.
Proof. unfold domain_header_hash. intros Hh. apply obind_Ok in Hh as (e & _ & [= <-]). apply keccak256_length. Qed.

Lemma block_hash_typed b x : block_hash_of b = Ok x → is_b256 x.
Proof.
  unfold block_hash_of, consensus_header_hash. intros Hh. apply map_err_Ok in Hh.
  apply obind_Ok in Hh as (e & _ & [= <-]). apply keccak256_length.
Qed.

Lemma commitment_root_typed c : is_b256 (DomainHeads.root c).
Proof.
  assert (∀ n e l d hashes, is_b256 (subtree_levels (S n) (e :: l) d hashes)) as Hcons
    by (intros n e l d hashes; cbn [subtree_levels]; apply keccak256_length).
  unfold DomainHeads.root, subtree_root.
  destruct (entries _) as [|e l]; [apply subtree_length; [reflexivity|constructor]|apply (Hcons 255%nat)].
Qed.

Lemma heads_root_typed s : is_b256 (domain_heads_root s).
Proof. exact (commitment_root_typed (heads_commitment (fs_domains s))). Qed.

Lemma collection_root_typed {E : Type} tag values r :
  merkle_collection_root (E := E) tag values = Ok r → is_b256 r.
Proof.
  unfold merkle_collection_root. intros Hm. ok_inv. subst. apply keccak256_length.
Qed.

Lemma next_base_fee_typed h : wf_domain_header h → u128 (next_base_fee h).
Proof.
  intros (_ & _ & _ & _ & _ & _ & _ & _ & _ & Hl & Hu & Hf). unfold next_base_fee.
  destruct (_ || _) eqn:E; [done|]. apply orb_false_iff in E as [Ht%Z.eqb_neq _].
  assert (0 ≤ dh_gas_limit h / 2) by (apply Z.div_pos; unfold fits in *; lia).
  unfold fits, saturating_add, saturating_sub, saturating_mul, umax in *.
  destruct (Z.ltb_spec (dh_gas_limit h / 2) (dh_gas_used h)).
  - lia.
  - set (x := _ / 8). assert (0 ≤ x); [|lia]. apply Z.div_pos; [|lia]. apply Z.div_pos; [|lia].
    apply Z.min_glb; [|lia]. apply Z.mul_nonneg_nonneg; lia.
Qed.

Lemma genesis_header_typed id height config state :
  is_b256 id → u64 height → config_typed config → state_typed state →
  wf_domain_header (genesis_header id height (dc_gas_limit config) (dc_initial_base_fee_per_gas config)
    (Evm.state_root state)).
Proof.
  intros Hid Hh (_ & _ & Hg & Hf) Hs. unfold wf_domain_header, genesis_header, empty_ordered_trie_root, transactions_root.
  cbn [dh_protocol_version dh_domain_id dh_number dh_parent_hash dh_consensus_height dh_transactions_root dh_state_root
    dh_receipts_root dh_logs_bloom dh_gas_limit dh_gas_used dh_base_fee_per_gas].
  split_and!; try done; try apply root_length; try apply bloom_zero_typed; try apply Hs; unfold fits, PROTOCOL_VERSION; lia.
Qed.

Lemma genesis_typed g s :
  is_b256 (fg_network_id g) → is_b256 (fg_consensus_hash g) → u64 (fg_timestamp g) →
  is_b256 (fg_validator_set_hash g) → is_b256 (fg_root_domain_id g) → is_address (fg_governance_address g) →
  config_typed (fg_config g) → state_typed (fg_state g) → genesis g = Ok s → chain_typed s.
Proof.
  intros Hn Hc Ht Hv Hr Hgov Hcfg Hst. unfold genesis. intros Hg. apply obind_Ok in Hg as ([] & _ & Hg).
  apply obind_Ok in Hg as (hash & Hh & [= <-]). apply map_err_Ok, header_hash_typed in Hh.
  split; cbn [fs_network_id fs_height fs_consensus_hash fs_timestamp fs_validator_set_hash fs_next_validator_set_hash
    fs_root_domain_id fs_governance_address fs_domains fs_descriptors]; try done.
  { split; repeat constructor. }
  intros id fd Hid. cbn in Hid. destruct (teqb id _) eqn:E; [|done]. apply teqb_eq in E as ->.
  injection Hid as <-. split; cbn [fd_config fd_header fd_block_hash fd_state]; try done.
  by apply genesis_header_typed.
Qed.

Lemma execute_domain_typed ch fd batch height ts proposer ctx header execution nd :
  domain_typed (db_domain_id batch) fd → u64 height → context_typed ctx →
  execute_domain ch fd batch height ts proposer ctx = Ok (header, execution, nd) →
  execution_typed execution ∧ domain_typed (db_domain_id batch) nd ∧ fd_header nd = header.
Proof.
  intros [Did Dc Dh Dhash Ds] Hh Hctx. unfold execute_domain. intros He.
  apply obind_Ok in He as (number & Hn & He). apply ok_or_Ok in Hn.
  assert (u64 number) as Hnum
    by (destruct Dh as (_ & _ & Hd & _); eapply checked_add_fits; [exact Hd| |exact Hn]; unfold fits; lia).
  apply obind_Ok in He as (service & _ & He). apply obind_Ok in He as (ex & Hex & He).
  apply map_err_Ok, execute_batch_typed in Hex as Ht; [|by intros c [= <-]|done]. destruct Ht as [X1 [X2 X3] X4 X5 X6].
  apply obind_Ok in He as (hash & Hhash & [= <- <- <-]). apply map_err_Ok, header_hash_typed in Hhash.
  split; [by split|]. split; [|done]. split; cbn [fd_config fd_header fd_block_hash fd_state]; try done.
  unfold wf_domain_header. cbn [dh_protocol_version dh_domain_id dh_number dh_parent_hash dh_consensus_height
    dh_transactions_root dh_state_root dh_receipts_root dh_logs_bloom dh_gas_limit dh_gas_used dh_base_fee_per_gas].
  split_and!; try done; first [apply X1|apply Dc|by apply next_base_fee_typed].
Qed.

Lemma insert_created_typed height s created s' :
  u64 height → chain_typed s → created_typed created → insert_created_domain height s created = Ok s' →
  chain_typed s'.
Proof.
  intros Hh [T1 T2 T3 T4 T5 T6 T7 [S1 S2] T8 T9] [Hd Hst]. unfold insert_created_domain. intros Hi.
  destruct (_ || _); [done|]. destruct (negb _); [done|]. destruct (_ || _); [done|]. destruct (existsb _ _); [done|].
  apply obind_Ok in Hi as ([] & _ & Hi). apply obind_Ok in Hi as ([] & _ & Hi).
  apply obind_Ok in Hi as (hash & Hhash & [= <-]). apply map_err_Ok, header_hash_typed in Hhash.
  split; try done; cbn [with_domains fs_domains fs_descriptors].
  - split; by apply sorted_binsert.
  - intros id fd. rewrite bget_binsert. destruct (teqb id _) eqn:E; [|by apply T8]. apply teqb_eq in E as ->.
    intros [= <-]. destruct Hd as (D1 & _ & _ & _ & _ & _ & _ & D2 & _ & D3 & D4 & D5 & _).
    split; cbn [fd_config fd_header fd_block_hash fd_state]; try done.
    by apply (genesis_header_typed _ _ {| dc_chain_id := dd_evm_chain_id (cd_descriptor created);
      dc_protocol_revision := dd_protocol_revision (cd_descriptor created);
      dc_gas_limit := dd_gas_limit (cd_descriptor created);
      dc_initial_base_fee_per_gas := dd_initial_base_fee (cd_descriptor created) |}).
  - intros id d. rewrite bget_binsert. destruct (teqb id _); [by intros [= <-]|by apply T9].
Qed.

(** The local variables of the loop over the batches have their types. *)
Record run_typed (x : execute_state) : Prop := {
  rn_state : chain_typed (xs_state x);
  rn_blocks : Forall wf_domain_header (xs_domain_blocks x);
  rn_executions : Forall execution_typed (xs_executions x);
}.

Lemma finalized_heads_typed s id h :
  chain_typed s → bget id (finalized_heads s) = Some h → is_b256 h.
Proof.
  intros Hs Hb%bget_elem_of. unfold finalized_heads in Hb. change (bcollect ?l) with (bextend [] l) in Hb.
  assert (∀ l m, (∀ e, e ∈ m → is_b256 e.2) → (∀ e, e ∈ l → is_b256 e.2) →
    ∀ e, e ∈ bextend (K := DomainId) m l → is_b256 e.2) as Hext.
  { induction l as [|e l IH]; intros m Hm Hl; [done|]. rewrite bextend_cons. apply IH.
    - intros e' [->|He']%binsert_elem_of; [apply (Hl e); by left|by apply Hm].
    - intros e' He'. apply Hl. by right. }
  refine (Hext _ [] _ _ (id, h) Hb); [by intros e ?%elem_of_nil|].
  intros e ([i fd] & -> & Hin)%list_elem_of_fmap. apply elem_of_bget in Hin; [|apply Hs].
  apply (ty_domains _ Hs _ _ Hin).
Qed.

Lemma execute_one_batch_typed parent height ts proposer x batch x' :
  chain_typed parent → u64 height → run_typed x →
  execute_one_batch parent height ts proposer x batch = Ok x' → run_typed x'.
Proof.
  intros Hp Hh [[T1 T2 T3 T4 T5 T6 T7 [S1 S2] T8 T9] Hb Hx]. unfold execute_one_batch. intros He.
  apply obind_Ok in He as (fd & Hfd & He). apply ok_or_Ok in Hfd. destruct (negb _); [done|].
  apply obind_Ok in He as ([[header ex] nd] & Hex & He).
  apply execute_domain_typed in Hex as (Ht & Hnd & Eh); [|by apply (ty_domains _ Hp)|done|].
  2: { split; cbn; [apply Hp|done|]. intros id h. by apply finalized_heads_typed. }
  apply obind_Ok in He as (gas & _ & He). apply obind_Ok in He as ([] & _ & He).
  apply obind_Ok in He as (s & Hs & [= <-]). split; cbn [xs_state xs_domain_blocks xs_executions].
  - eapply (for_each_inv chain_typed); [| |exact Hs].
    + intros s0 c s1 Hc Hs0 H1'. eapply insert_created_typed; [exact Hh|exact Hs0| |exact H1'].
      destruct Ht as [_ _ _ _ Hcr]. rewrite list.Forall_forall in Hcr. by apply Hcr.
    + split; try done; cbn [with_domains fs_domains fs_descriptors]; [split; [by apply sorted_binsert|done]|].
      intros id f. rewrite bget_binsert. destruct (teqb id _) eqn:E; [|by apply T8]. apply teqb_eq in E as ->.
      by intros [= <-].
  - apply Forall_app. split; [done|]. rewrite <-Eh. apply list.Forall_singleton, Hnd.
  - apply Forall_app. split; [done|]. by apply list.Forall_singleton.
Qed.

(** A batch that is executed names a domain of the parent. *)
Lemma executed_batches_typed parent height ts proposer batches x x' :
  chain_typed parent → for_each (execute_one_batch parent height ts proposer) x batches = Ok x' →
  Forall wf_domain_batch batches.
Proof.
  intros Hp. revert x. induction batches as [|b l IH]; intros x Hf; [constructor|]. cbn in Hf.
  apply obind_Ok in Hf as (x1 & Hb & Hf). constructor; [|by eapply IH]. unfold execute_one_batch in Hb.
  apply obind_Ok in Hb as (fd & Hfd & Hb). apply ok_or_Ok, (ty_domains _ Hp) in Hfd as [D1 _ _ D4 _].
  destruct (negb _) eqn:E; [done|]. bool_prop. split; [done|]. by rewrite E.
Qed.

Lemma execute_encodes parent batches ts proposer vp :
  execute parent batches ts proposer = Ok vp → ∃ encoded, encode_consensus_block (vp_block vp) = Ok encoded.
Proof.
  unfold execute. intros He. apply obind_Ok in He as ([] & _ & He). destruct (_ <? _); [done|].
  apply obind_Ok in He as (height & _ & He). apply obind_Ok in He as (x & _ & He).
  apply obind_Ok in He as (br & _ & He). apply obind_Ok in He as (rr & _ & He).
  apply obind_Ok in He as (enc & Henc & He). destruct (_ <? _); [done|].
  apply obind_Ok in He as (hash & _ & [= <-]). by exists enc.
Qed.

Lemma execute_typed parent batches ts proposer vp :
  chain_typed parent → u64 ts → is_address proposer → execute parent batches ts proposer = Ok vp →
  chain_typed (vp_resulting_state vp) ∧ wf_consensus_block (vp_block vp) ∧
  Forall execution_typed (vp_executions vp).
Proof.
  intros Hp Hts Hpr. unfold execute. intros He. apply obind_Ok in He as ([] & _ & He).
  destruct (Z.ltb_spec MAX_BATCHES_PER_BLOCK (zlen batches)) as [|Hmax]; [done|].
  apply obind_Ok in He as (height & Hheight & He). apply ok_or_Ok in Hheight.
  assert (u64 height) as Hh by (eapply checked_add_fits; [apply Hp| |exact Hheight]; unfold fits; lia).
  apply obind_Ok in He as (x & Hx & He). apply executed_batches_typed in Hx as Hbt; [|done].
  apply (for_each_inv run_typed) in Hx as [[T1 T2 T3 T4 T5 T6 T7 T0 T8 T9] Rb Rx].
  2: { intros x0 b x1 _ Hx0 H1'. by eapply execute_one_batch_typed. }
  2: { split; cbn; [done|constructor..]. }
  apply obind_Ok in He as (br & Hbr & He). apply obind_Ok in He as (rr & Hrr & He).
  apply obind_Ok in He as (enc & _ & He). destruct (_ <? _); [done|].
  apply obind_Ok in He as (hash & Hhash & [= <-]). apply block_hash_typed in Hhash.
  unfold batches_root in Hbr. unfold domain_results_root in Hrr.
  apply obind_Ok in Hbr as (v1 & _ & Hbr%collection_root_typed).
  apply obind_Ok in Hrr as (v2 & _ & Hrr%collection_root_typed).
  destruct (ty_validators _ Hp) as [_ Hnv].
  split; [split; try done|]. split; [|done]. split; [|split; [done|split; done]].
  unfold wf_consensus_header. cbn [vp_block cb_header ch_protocol_version ch_network_id ch_height ch_parent_hash
    ch_timestamp ch_batches_root ch_domain_results_root ch_domain_heads_root ch_validator_set_hash
    ch_next_validator_set_hash ch_proposer].
  split_and!; first [exact Hh|exact Hts|exact Hbr|exact Hrr|exact Hnv|exact Hpr|apply Hp|apply heads_root_typed|unfold fits, PROTOCOL_VERSION; lia].
Qed.

(** C27. Type soundness of proposals. Over a finalized state whose fields have the
    widths of their types, a proposal that is built has a resulting state and
    executions whose fields do too (hashes of 32 bytes, heights, gas and timestamps
    within 64 bits, fees within 128 bits, trie nodes and code stored under their own
    hash), and its block is read back from its own encoding, so what is stored or
    sent is the block that was executed. *)
Theorem proposal_typed parent batches ts proposer vp :
  chain_typed parent → u64 ts → is_address proposer →
  build_proposal parent batches ts proposer = Ok vp →
  chain_typed (vp_resulting_state vp) ∧ Forall execution_typed (vp_executions vp) ∧
  ∃ encoded, encode_consensus_block (vp_block vp) = Ok encoded ∧
    decode_consensus_block encoded = Ok (vp_block vp).
Proof.
  intros Hp Hts Hpr. unfold build_proposal. intros Hb. apply obind_Ok in Hb as ([] & _ & He).
  destruct (execute_typed _ _ _ _ _ Hp Hts Hpr He) as (Hs & Hw & Hx). split; [done|]. split; [done|].
  destruct (execute_encodes _ _ _ _ _ He) as [enc Henc]. exists enc. split; [done|].
  by apply decode_block_accepts.
Qed.
End chain.

Module TypingWitness.
Import ExecutorWitness ChainWitness.
#[local] Existing Instance Toy.toy_keccak.
#[local] Existing Instance spec_rlp.
#[local] Existing Instance MptWitness.toy_trie.
#[local] Existing Instance RegistryWitness.toy.
#[local] Existing Instance toy_recovery.
#[local] Existing Instance toy_revm.
#[local] Existing Instance toy_roots.
#[local] Existing Instance toy_roots_laws.
#[local] Existing Instance spec_rlp_laws.

#[export] Instance toy_revm_typed : RevmTyped.
Proof.
  split. intros db block cfg pre tx r Ht. unfold transact in Ht. cbn in Ht. unfold toy_transact in Ht.
  apply obind_Ok in Ht as (a & _ & Ht). apply obind_Ok in Ht as (b & _ & [= <-]). by cbn.
Qed.

#[export] Instance toy_bloom_typed : BloomTyped.
Proof.
  split; [done|done|]. intros a b Ha _. unfold accrue_bloom, toy_roots. by destruct (bool_decide _).
Qed.

Lemma chain0_typed : chain_typed chain0.
Proof.
  apply (genesis_typed chain_genesis); try by_evaluation.
  apply (from_genesis_typed (owner_genesis sender 1000)). by_evaluation.
Qed.

Lemma proposal_typed_witness :
  ∃ encoded, encode_consensus_block (vp_block proposed) = Ok encoded ∧
    decode_consensus_block encoded = Ok (vp_block proposed).
Proof.
  apply (proposal_typed chain0 [root_batch] 1001 (repeat_byte 20 1) proposed chain0_typed); [by_evaluation..|].
  exact proposal_built.
Defined.
End TypingWitness.
