(* ===== verification/DevGenesis.v ===== *)
(** The development genesis, the errors and the storage keys of the consensus engine
    (src/crates/arbor-consensus/src/lib.rs, lines 32-300 and the key functions).

    The definitions only; what they establish for the engine is proved with it, in
    EngineRestart.v and EngineSteps.v. *)

From Stdlib Require Import Strings.Byte.
From S2P Require Import Prelude Bytes BTreeMap Primitives Canonical Rlp Crypto Ethereum StateError.
From S2P Require Import DomainHeads System Registry Trie Mpt MptBuild Account Overlay Mempool Storage Evm.
From S2P Require Import Executor Merkle ChainBlock ChainState Chain Typing.

Local Open Scope Z_scope.

Definition DEV_GENESIS_TAG : bytes := bstr "ARBOR_DEV_GENESIS_RECORD_V1".
Definition DEV_WAL_TAG : bytes := bstr "ARBOR_DEV_COMMIT_WAL_V1".
Definition KEY_DEV_GENESIS : bytes := bstr "m5:dev:genesis".
Definition KEY_DEV_WAL : bytes := bstr "m5:dev:wal".
Definition KEY_DEV_CHECKPOINT : bytes := bstr "m7:dev:checkpoint".
Definition PREFIX_BLOCK : bytes := bstr "m5:block:".
Definition PREFIX_RECEIPT : bytes := bstr "m5:receipt:".
Definition PREFIX_TX_LOCATION : bytes := bstr "m5:tx:".

Inductive EngineMode := DevValidator | Production.

Inductive DomainHistoryRetention :=
| All
| Selected (domains : btree DomainId unit).

Definition selected (domains : list DomainId) : DomainHistoryRetention :=
  Selected (bcollect ((λ d, (d, tt)) <$> domains)).

Definition retains (r : DomainHistoryRetention) (domain_id : DomainId) : bool :=
  match r with
  | All => true
  | Selected domains => bcontains domain_id domains
  end.

Record DevGenesis := {
  gn_network_id : NetworkId;
  gn_genesis_hash : bytes;
  gn_timestamp : Z;
  gn_root_domain_id : DomainId;
  gn_root_config : DomainConfig;
  gn_validator_set : ValidatorSet;
  gn_reward_address : bytes;
  gn_governance_address : bytes;
  gn_allocations : btree bytes GenesisAccount;
}.

(** [InvalidGenesisOwned] carries the error whose text the code prints. *)
Inductive ConsensusError :=
| DevModeRequired
| InvalidGenesis (text : string)
| InvalidGenesisOwned (why : reason)
| GenesisMismatch
| ProposalPending
| UnknownProposal
| InconsistentStore (text : string)
| UnknownEngineDomain
| ChainFailed (e : ChainError)
| MempoolFailed (e : MempoolError)
| StorageFailed (e : StorageError).

(** [?] from each error the engine wraps. *)
Definition owned_crypto {A : Type} (c : outcome CryptoError A) : outcome ConsensusError A :=
  map_err (λ e, InvalidGenesisOwned (CryptoReason e)) c.

Definition owned_codec {A : Type} (c : outcome CodecError A) : outcome ConsensusError A :=
  map_err (λ e, InvalidGenesisOwned (CodecReason e)) c.

Definition owned_evm {A : Type} (c : outcome EvmError A) : outcome ConsensusError A :=
  map_err (λ e, InvalidGenesisOwned (EvmReason e)) c.

Definition chain_err {A : Type} (c : outcome ChainError A) : outcome ConsensusError A :=
  map_err ChainFailed c.

Definition pool_err {A : Type} (c : outcome MempoolError A) : outcome ConsensusError A :=
  map_err MempoolFailed c.

Definition storage_err {A : Type} (c : outcome StorageError A) : outcome ConsensusError A :=
  map_err StorageFailed c.

(** ** Keys and records *)

Definition block_key (height : Z) : bytes := PREFIX_BLOCK ++ to_be_bytes 8 height.

Definition receipt_key (hash : bytes) : bytes := PREFIX_RECEIPT ++ hash.

Definition tx_location_key (hash : bytes) : bytes := PREFIX_TX_LOCATION ++ hash.

Definition encode_tx_location (height : Z) (domain_id : DomainId) (index : Z) : bytes :=
  to_be_bytes 8 height ++ domain_id ++ to_be_bytes 4 index.

Definition encode_dev_wal (marker : FinalizedMarker) : bytes :=
  DEV_WAL_TAG ++ to_be_bytes 8 (mk_height marker) ++ mk_consensus_hash marker ++
  mk_domain_heads_root marker.

(** ** Genesis *)

Section genesis.
Context `{Keccak, Secp256k1, AlloyRlp, !AlloyTrie, SenderRecovery, Journal, !Revm, AlloyRoots}.

(** [10_u128.pow(24)], and the addresses written out in the code. *)
Definition local_default (network_id : NetworkId) (genesis_hash : bytes)
    : outcome ConsensusError DevGenesis :=
  let? signer := owned_crypto (from_secret_bytes (repeat_byte 32 9)) in
  let public_key := public_key signer in
  let reward_address := repeat x00 18 ++ [byte_of 15; byte_of 238] in
  let governance_address := repeat x00 18 ++ [byte_of 15; byte_of 239] in
  let funded_address :=
    byte_of <$> [74; 98; 49; 102; 35; 173; 69; 127; 2; 205; 197; 217; 151; 222; 214; 122; 56; 62; 197; 105] in
  Ok {| gn_network_id := network_id; gn_genesis_hash := genesis_hash; gn_timestamp := 1700000000;
        gn_root_domain_id := keccak256 (bstr "ARBOR_DEV_ROOT_DOMAIN_V1");
        gn_root_config :=
          {| dc_chain_id := 2048; dc_protocol_revision := 1; dc_gas_limit := 30000000;
             dc_initial_base_fee_per_gas := 1000000000 |};
        gn_validator_set :=
          {| vs_epoch := 0;
             vs_validators := [{| vd_id := validator_id public_key; vd_public_key := public_key; vd_power := 1 |}] |};
        gn_reward_address := reward_address; gn_governance_address := governance_address;
        gn_allocations :=
          [(funded_address,
            {| ga_nonce := 0; ga_balance := 10 ^ 24; ga_code := []; ga_storage := [] |})] |}.

Definition default_allocation : GenesisAccount :=
  {| ga_nonce := 0; ga_balance := 0; ga_code := []; ga_storage := [] |}.

(** One slot of the loop of [execution_state]. *)
Definition reserve_slot (storage : btree Z Z) (slot : Z * Z) : outcome ConsensusError (btree Z Z) :=
  if bcontains slot.1 storage
  then Err (InvalidGenesis "native ChainRegistry genesis slot collision")
  else Ok (binsert slot.1 slot.2 storage).

Definition execution_state (g : DevGenesis) : outcome ConsensusError ExecutionState :=
  let registry := default default_allocation (bget CHAIN_REGISTRY_ADDRESS (gn_allocations g)) in
  if negb (length (ga_code registry) =? 0)%nat
  then Err (InvalidGenesis "native ChainRegistry address cannot contain bytecode")
  else if negb (ga_nonce registry =? 0)
  then Err (InvalidGenesis "native ChainRegistry genesis nonce is reserved")
  else
    let? storage :=
      for_each reserve_slot (ga_storage registry)
        (root_registry_genesis_storage (gn_root_domain_id g) (dc_chain_id (gn_root_config g))) in
    let registry :=
      {| ga_nonce := 1; ga_balance := ga_balance registry; ga_code := ga_code registry;
         ga_storage := storage |} in
    owned_evm (from_genesis (binsert CHAIN_REGISTRY_ADDRESS registry (gn_allocations g))).

Definition fingerprint (g : DevGenesis) : outcome ConsensusError bytes :=
  if negb (zlen (vs_validators (gn_validator_set g)) =? 1)
  then Err (InvalidGenesis "dev validator set must contain exactly one validator")
  else
    let? validator_hash := owned_crypto (validator_set_hash (gn_validator_set g)) in
    let? state := execution_state g in
    Ok (keccak256
          (DEV_GENESIS_TAG ++ gn_network_id g ++ gn_genesis_hash g ++ to_be_bytes 8 (gn_timestamp g) ++
           gn_root_domain_id g ++ to_be_bytes 8 (dc_chain_id (gn_root_config g)) ++
           to_be_bytes 4 (dc_protocol_revision (gn_root_config g)) ++
           to_be_bytes 8 (dc_gas_limit (gn_root_config g)) ++
           to_be_bytes 16 (dc_initial_base_fee_per_gas (gn_root_config g)) ++ validator_hash ++
           gn_reward_address g ++ gn_governance_address g ++ Evm.state_root state)).

Definition chain_state (g : DevGenesis) : outcome ConsensusError FinalizedChainState :=
  let? validator_hash := owned_crypto (validator_set_hash (gn_validator_set g)) in
  let? state := execution_state g in
  chain_err
    (genesis
       {| fg_network_id := gn_network_id g; fg_consensus_hash := gn_genesis_hash g;
          fg_timestamp := gn_timestamp g; fg_validator_set_hash := validator_hash;
          fg_root_domain_id := gn_root_domain_id g; fg_governance_address := gn_governance_address g;
          fg_config := gn_root_config g; fg_state := state |}).
End genesis.
