(* ===== verification/EngineCheckpoint.v ===== *)
(** The development checkpoint record that the engine keeps in its index
    (src/crates/arbor-consensus/src/checkpoint.rs): its codec, and loading it with the
    execution states it names.

    Main result: the record decodes to the checkpoint it was encoded from, as long as
    the database holds the states it names ([checkpoint_record_exact]). *)

From Stdlib Require Import Strings.Byte.
From S2P Require Import Prelude Bytes BTreeMap Primitives Canonical Cursor Rlp Crypto Ethereum StateError.
From S2P Require Import DomainHeads System Registry Trie Mpt MptBuild Account Overlay Mempool Storage Evm.
From S2P Require Import Executor Merkle ChainBlock ChainState Chain Typing DevGenesis.
Import Cursor.

Local Open Scope Z_scope.
Local Open Scope reader_scope.

Definition CHECKPOINT_TAG : bytes := bstr "ARBOR_DEV_CHECKPOINT_V1".
Definition CHECKPOINT_VERSION : Z := 1.
Definition MAX_CHECKPOINT_DOMAINS : Z := 65536.
Definition MAX_CHECKPOINT_METADATA_BYTES : Z := 16 * 1024 * 1024.

Record DevelopmentCheckpoint := {
  ckd_state : FinalizedChainState;
  ckd_validator_set : ValidatorSet;
  ckd_finality_proof : bytes;
}.

(** ** Encoding *)

Definition put_field (output value : bytes) : outcome ConsensusError bytes :=
  let? length :=
    ok_or (try_from 32 (zlen value)) (InconsistentStore "checkpoint field length overflow") in
  Ok (output ++ to_be_bytes 4 length ++ value).

Definition encode_config (c : DomainConfig) : bytes :=
  to_be_bytes 8 (dc_chain_id c) ++ to_be_bytes 4 (dc_protocol_revision c) ++
  to_be_bytes 8 (dc_gas_limit c) ++ to_be_bytes 16 (dc_initial_base_fee_per_gas c).

Definition read_config {E : Type} `{!CursorErrors E} : reader E DomainConfig :=
  let! chain_id := cursor_uint 8 in
  let! protocol_revision := cursor_uint 4 in
  let! gas_limit := cursor_uint 8 in
  let! initial_base_fee_per_gas := cursor_uint 16 in
  rret {| dc_chain_id := chain_id; dc_protocol_revision := protocol_revision; dc_gas_limit := gas_limit;
          dc_initial_base_fee_per_gas := initial_base_fee_per_gas |}.

(** One domain of the loop of [encode_checkpoint]. *)
Definition encode_checkpoint_domain (descriptors : btree DomainId DomainDescriptor) (output : bytes)
    (entry : DomainId * FinalizedDomain) : outcome ConsensusError bytes :=
  let '(domain_id, domain) := entry in
  let? header := owned_codec (encode_domain_header (fd_header domain)) in
  let? output := put_field (output ++ domain_id ++ encode_config (fd_config domain)) header in
  let output := output ++ fd_block_hash domain ++ Evm.state_root (fd_state domain) in
  let? descriptor :=
    match bget domain_id descriptors with
    | Some d => owned_codec (encode_domain_descriptor d)
    | None => Ok []
    end in
  put_field output descriptor.

Section codec.
Context `{Keccak, AlloyRlp, !AlloyTrie, SenderRecovery, Journal, !Revm, AlloyRoots, ParityDb}.

Definition encode_checkpoint (c : DevelopmentCheckpoint) : outcome ConsensusError bytes :=
  let state := ckd_state c in
  let? count :=
    ok_or (try_from 32 (zlen (fs_domains state))) (InconsistentStore "checkpoint domain count overflow") in
  let? validator_set := owned_codec (encode_validator_set (ckd_validator_set c)) in
  let output :=
    CHECKPOINT_TAG ++ to_be_bytes 1 CHECKPOINT_VERSION ++ fs_network_id state ++
    to_be_bytes 8 (fs_height state) ++ fs_consensus_hash state ++ to_be_bytes 8 (fs_timestamp state) ++
    fs_validator_set_hash state ++ fs_next_validator_set_hash state ++ fs_root_domain_id state ++
    fs_governance_address state ++ domain_heads_root state in
  let? output := put_field output validator_set in
  let? output := put_field output (ckd_finality_proof c) in
  let output := output ++ to_be_bytes 4 count in
  let? output := for_each (encode_checkpoint_domain (fs_descriptors state)) output (fs_domains state) in
  if MAX_CHECKPOINT_METADATA_BYTES <? zlen output
  then Err (InconsistentStore "checkpoint metadata exceeds limit")
  else Ok output.

(** ** Decoding *)

#[export] Instance checkpoint_cursor : CursorErrors ConsensusError := {|
  ce_overflow := InconsistentStore "checkpoint cursor overflow";
  ce_truncated := InconsistentStore "truncated checkpoint metadata";
  ce_tag := InconsistentStore "checkpoint metadata tag mismatch";
  ce_width width :=
    InconsistentStore (match width with
                       | 4%nat => "checkpoint u32"
                       | 8%nat => "checkpoint u64"
                       | _ => "checkpoint u128"
                       end);
  ce_trailing := InconsistentStore "trailing checkpoint metadata";
|}.

(** The text of the errors a code read fails with. *)
Definition code_error_text (e : StorageError) : string :=
  match e with
  | DatabaseFailed text => "parity-db failure: " ++ text
  | CorruptMetadata what => "corrupt Arbor database metadata: " ++ what
  | _ => "storage failure"
  end%string.

Definition load_code (database : Storage.Database) (hash : bytes) : outcome EvmError (option bytes) :=
  map_err (λ e, State (Message (code_error_text e))) (db_contract_code database hash).

(** One domain of the loop of [decode_checkpoint]; [fuel] bounds the references
    followed in the database. *)
Definition read_checkpoint_domain (fuel : nat) (database : Storage.Database)
    : reader ConsensusError FinalizedDomainCheckpoint :=
  let! domain_id := cursor_hash in
  let! config := read_config in
  let! header := cursor_bytes in
  let! header := rlift (owned_codec (decode_domain_header header)) in
  let! block_hash := cursor_hash in
  let! state_root := cursor_hash in
  let! descriptor := cursor_bytes in
  let! descriptor :=
    rlift (if (length descriptor =? 0)%nat then Ok None
           else let? d := owned_codec (decode_domain_descriptor descriptor) in Ok (Some d)) in
  let! state := rlift (owned_evm (from_persisted fuel state_root (db_store database) (load_code database))) in
  rret {| dk_domain_id := domain_id; dk_config := config; dk_header := header; dk_block_hash := block_hash;
          dk_state := state; dk_descriptor := descriptor |}.

Definition read_checkpoint (fuel : nat) (database : Storage.Database)
    : reader ConsensusError (FinalizedChainCheckpoint * ValidatorSet * bytes) :=
  run! cursor_expect CHECKPOINT_TAG in
  let! version := cursor_uint 1 in
  run! rguard (negb (version =? CHECKPOINT_VERSION))
         (InconsistentStore "unsupported checkpoint metadata version") in
  let! network_id := cursor_hash in
  let! height := cursor_uint 8 in
  let! consensus_hash := cursor_hash in
  let! timestamp := cursor_uint 8 in
  let! validator_set_hash := cursor_hash in
  let! next_validator_set_hash := cursor_hash in
  let! root_domain_id := cursor_hash in
  let! governance_address := cursor_take 20 in
  let! domain_heads_root := cursor_hash in
  let! validator_set := cursor_bytes in
  let! validator_set := rlift (owned_codec (decode_validator_set validator_set)) in
  let! finality_proof := cursor_bytes in
  let! count := cursor_uint 4 in
  run! rguard ((count =? 0) || (MAX_CHECKPOINT_DOMAINS <? count))
         (InconsistentStore "invalid checkpoint domain count") in
  let! domains := repeated (read_checkpoint_domain fuel database) (Z.to_nat count) in
  rret ({| ck_network_id := network_id; ck_height := height; ck_consensus_hash := consensus_hash;
           ck_timestamp := timestamp; ck_validator_set_hash := validator_set_hash;
           ck_next_validator_set_hash := next_validator_set_hash; ck_root_domain_id := root_domain_id;
           ck_governance_address := governance_address; ck_domain_heads_root := domain_heads_root;
           ck_domains := domains |}, validator_set, finality_proof).

Definition decode_checkpoint (fuel : nat) (database : Storage.Database) (input : bytes)
    : outcome ConsensusError DevelopmentCheckpoint :=
  if MAX_CHECKPOINT_METADATA_BYTES <? zlen input
  then Err (InconsistentStore "checkpoint metadata exceeds limit")
  else
    let? '(checkpoint, validator_set, finality_proof) := run_all (read_checkpoint fuel database) input in
    let? state := chain_err (from_checkpoint checkpoint) in
    Ok {| ckd_state := state; ckd_validator_set := validator_set; ckd_finality_proof := finality_proof |}.

Definition checkpoint_height (fuel : nat) (database : Storage.Database)
    : outcome ConsensusError (option Z) :=
  let? found := storage_err (db_index database KEY_DEV_CHECKPOINT) in
  match found with
  | None => Ok None
  | Some b =>
      let? checkpoint := decode_checkpoint fuel database b in
      Ok (Some (fs_height (ckd_state checkpoint)))
  end.

Context `{Secp256k1}.

Definition load_development_checkpoint (fuel : nat) (database : Storage.Database) (genesis : DevGenesis)
    : outcome ConsensusError (option DevelopmentCheckpoint) :=
  let? found := storage_err (db_index database KEY_DEV_CHECKPOINT) in
  match found with
  | None => Ok None
  | Some b =>
      let? checkpoint := decode_checkpoint fuel database b in
      let? validator_hash := owned_crypto (validator_set_hash (ckd_validator_set checkpoint)) in
      let state := ckd_state checkpoint in
      if negb (bool_decide (ckd_validator_set checkpoint = gn_validator_set genesis)) ||
         negb (bool_decide (fs_network_id state = gn_network_id genesis)) ||
         negb (bool_decide (fs_root_domain_id state = gn_root_domain_id genesis)) ||
         negb (bool_decide (fs_governance_address state = gn_governance_address genesis)) ||
         negb (bool_decide (fs_validator_set_hash state = validator_hash)) ||
         negb (bool_decide (fs_next_validator_set_hash state = validator_hash)) ||
         negb (length (ckd_finality_proof checkpoint) =? 0)%nat
      then Err (InconsistentStore "persisted checkpoint identity mismatch")
      else Ok (Some checkpoint)
  end.
End codec.

(** ** The record is read back *)

Section record.
Context `{Keccak, AlloyRlp, !AlloyTrie, SenderRecovery, Journal, !Revm, AlloyRoots, ParityDb}.
Context (fuel : nat) (database : Storage.Database).

Lemma put_field_Ok output v output' :
  put_field output v = Ok output' → output' = output ++ to_be_bytes 4 (zlen v) ++ v ∧ u32 (zlen v).
Proof.
  unfold put_field. intros Hp. apply obind_Ok in Hp as (n & Hn & [= <-]). by apply ok_or_Ok, try_from_Some in Hn as [-> ?].
Qed.

Lemma descriptor_nonempty d b : encode_domain_descriptor d = Ok b → wf_domain_descriptor d → (length b =? 0)%nat = false.
Proof.
  intros He Hw. pose proof (proj1 domain_descriptor_codec _ _ Hw He) as Hd. by destruct b.
Qed.

(** The entry of a domain whose state is [state]. *)
Definition domain_entry (descriptors : btree DomainId DomainDescriptor) (id : DomainId) (fd : FinalizedDomain)
    (state : ExecutionState) : FinalizedDomainCheckpoint :=
  {| dk_domain_id := id; dk_config := fd_config fd; dk_header := fd_header fd; dk_block_hash := fd_block_hash fd;
     dk_state := state; dk_descriptor := bget id descriptors |}.

Lemma accepts_config {E : Type} `{!CursorErrors E} c : config_typed c → accepts (E := E) read_config c (encode_config c).
Proof.
  intros (H1' & H2' & H3' & H4'). unfold read_config, encode_config.
  do 3 (eapply accepts_bind; [by apply accepts_uint|]). destruct c. by apply accepts_last, accepts_uint.
Qed.

Lemma domain_record descriptors output id fd output' state :
  domain_typed id fd → (∀ d, bget id descriptors = Some d → wf_domain_descriptor d) →
  from_persisted fuel (Evm.state_root (fd_state fd)) (db_store database) (load_code database) = Ok state →
  encode_checkpoint_domain descriptors output (id, fd) = Ok output' →
  ∃ segment, output' = output ++ segment ∧
    accepts (read_checkpoint_domain fuel database) (domain_entry descriptors id fd state) segment.
Proof.
  intros [Tid Tc Th Thash Ts] Hd Hst. unfold encode_checkpoint_domain. intros He.
  apply obind_Ok in He as (header & Hh & He). apply map_err_Ok in Hh. apply obind_Ok in He as (o1 & Ho1 & He).
  apply put_field_Ok in Ho1 as [-> Lh]. apply obind_Ok in He as (descriptor & Hdesc & He).
  apply put_field_Ok in He as [-> Ld].
  assert ((if (length descriptor =? 0)%nat then Ok None
           else let? d := owned_codec (decode_domain_descriptor descriptor) in Ok (Some d)) = Ok (bget id descriptors)) as Hdd.
  { destruct (bget id descriptors) as [d|]; [|by injection Hdesc as <-]. apply map_err_Ok in Hdesc.
    rewrite (descriptor_nonempty _ _ Hdesc (Hd _ eq_refl)).
    by rewrite (proj1 domain_descriptor_codec _ _ (Hd _ eq_refl) Hdesc). }
  eexists. split; [by rewrite <-!app_assoc|]. unfold read_checkpoint_domain.
  eapply accepts_bind; [by apply accepts_hash|]. eapply accepts_bind; [by apply accepts_config|].
  rewrite (app_assoc (to_be_bytes 4 (zlen header))). eapply accepts_bind; [by apply accepts_prefixed|].
  eapply accepts_lift; [by rewrite (proj1 domain_header_codec _ _ Th Hh)|].
  eapply accepts_bind; [by apply accepts_hash|]. eapply accepts_bind; [by apply accepts_hash, Ts|].
  rewrite <-(app_nil_r (to_be_bytes 4 (zlen descriptor) ++ descriptor)).
  eapply accepts_bind; [by apply accepts_prefixed|]. eapply accepts_lift; [exact Hdd|].
  eapply accepts_lift; [by rewrite Hst|]. by apply (reads_accepts _ _ _ _ (reads_ret _)).
Qed.

(** The states of the entries are those the database holds under the roots. *)
Definition loads (e : DomainId * FinalizedDomain) (state : ExecutionState) : Prop :=
  from_persisted fuel (Evm.state_root (fd_state e.2)) (db_store database) (load_code database) = Ok state.

Lemma domains_record descriptors domains states output output' :
  (∀ id fd, (id, fd) ∈ domains → domain_typed id fd) →
  (∀ id d, bget id descriptors = Some d → wf_domain_descriptor d) → Forall2 loads domains states →
  for_each (encode_checkpoint_domain descriptors) output domains = Ok output' →
  ∃ segments, output' = output ++ concat segments ∧
    Forall2 (accepts (read_checkpoint_domain fuel database))
      (zip_with (λ e, domain_entry descriptors e.1 e.2) domains states) segments.
Proof.
  intros Ht Hd Hl. revert output. induction Hl as [|[id fd] state domains states Hst Hl IH]; intros output He; cbn [for_each] in He.
  { injection He as <-. exists []. by rewrite app_nil_r. }
  apply obind_Ok in He as (o1 & H1' & He).
  apply (domain_record _ _ _ _ _ state) in H1' as (seg & -> & Hseg); [|apply Ht; by left|by apply Hd|exact Hst].
  apply IH in He as (segs & -> & Hsegs); [|intros id' fd' Hin; apply Ht; by right].
  exists (seg :: segs). split; [by rewrite <-app_assoc|by constructor].
Qed.

(** The checkpoint with the states the database holds. *)
Definition loaded_checkpoint (s : FinalizedChainState) (states : list ExecutionState) : FinalizedChainCheckpoint :=
  {| ck_network_id := fs_network_id s; ck_height := fs_height s; ck_consensus_hash := fs_consensus_hash s;
     ck_timestamp := fs_timestamp s; ck_validator_set_hash := fs_validator_set_hash s;
     ck_next_validator_set_hash := fs_next_validator_set_hash s; ck_root_domain_id := fs_root_domain_id s;
     ck_governance_address := fs_governance_address s; ck_domain_heads_root := domain_heads_root s;
     ck_domains := zip_with (λ e, domain_entry (fs_descriptors s) e.1 e.2) (fs_domains s) states |}.

Lemma checkpoint_record c b states :
  chain_typed (ckd_state c) → wf_validator_set (ckd_validator_set c) →
  fs_domains (ckd_state c) ≠ [] → zlen (fs_domains (ckd_state c)) ≤ MAX_CHECKPOINT_DOMAINS →
  Forall2 loads (fs_domains (ckd_state c)) states → encode_checkpoint c = Ok b →
  run_all (read_checkpoint fuel database) b =
    Ok (loaded_checkpoint (ckd_state c) states, ckd_validator_set c, ckd_finality_proof c).
Proof.
  intros [T1 T2 T3 T4 [T5 T5'] T6 T7 [S1 S2] T8 T9] Hv Hne Hmax Hl. unfold encode_checkpoint. intros He.
  apply obind_Ok in He as (count & Hcount & He). apply ok_or_Ok, try_from_Some in Hcount as [-> Hu].
  apply obind_Ok in He as (vs & Hvs & He). apply map_err_Ok in Hvs.
  apply obind_Ok in He as (o1 & Ho1 & He). apply put_field_Ok in Ho1 as [-> Lv].
  apply obind_Ok in He as (o2 & Ho2 & He). apply put_field_Ok in Ho2 as [-> Lp].
  apply obind_Ok in He as (o3 & Ho3 & He). destruct (Z.ltb_spec MAX_CHECKPOINT_METADATA_BYTES (zlen o3)) as [|Hlen]; [done|].
  injection He as <-.
  apply (domains_record _ _ states) in Ho3 as (segs & -> & Hsegs); [| |done|done].
  2: { intros id fd Hin. apply T8. by apply elem_of_bget. }
  pose proof Hl as Hlens%Forall2_length.
  apply run_accepts; [|unfold MAX_CHECKPOINT_METADATA_BYTES in Hlen; lia]. rewrite <-!app_assoc. unfold read_checkpoint.
  eapply accepts_bind; [apply accepts_tag|]. eapply accepts_bind; [by apply accepts_uint|]. apply accepts_guard; [done|].
  eapply accepts_bind; [by apply accepts_hash|]. eapply accepts_bind; [by apply accepts_uint|].
  eapply accepts_bind; [by apply accepts_hash|]. eapply accepts_bind; [by apply accepts_uint|].
  do 3 (eapply accepts_bind; [by apply accepts_hash|]).
  eapply accepts_bind; [replace 20 with (zlen (fs_governance_address (ckd_state c))) by (unfold zlen; rewrite T7; done); apply accepts_take|].
  eapply accepts_bind; [apply accepts_hash, heads_root_typed|].
  rewrite (app_assoc (to_be_bytes 4 (zlen vs))). eapply accepts_bind; [by apply accepts_prefixed|].
  eapply accepts_lift; [by rewrite (proj1 validator_set_codec _ _ Hv Hvs)|].
  rewrite (app_assoc (to_be_bytes 4 (zlen (ckd_finality_proof c)))). eapply accepts_bind; [by apply accepts_prefixed|].
  eapply accepts_bind; [by apply accepts_uint|]. apply accepts_guard.
  { apply orb_false_iff. split; [|lia]. apply Z.eqb_neq. destruct (fs_domains (ckd_state c)) as [|e l]; [done|]. rewrite zlen_cons.
    pose proof (zlen_nonneg l). lia. }
  apply (accepts_last _ (λ domains, (_, _, _))).
  replace (Z.to_nat (zlen (fs_domains (ckd_state c)))) with
    (length (zip_with (λ e, domain_entry (fs_descriptors (ckd_state c)) e.1 e.2) (fs_domains (ckd_state c)) states))
    by (rewrite length_zip_with; unfold zlen; lia).
  by apply accepts_repeated.
Qed.

Lemma loaded_is_checkpoint s :
  loaded_checkpoint s (fd_state <$> bvalues (fs_domains s)) = checkpoint s.
Proof.
  unfold loaded_checkpoint, checkpoint. f_equal. unfold bvalues.
  induction (fs_domains s) as [|[id fd] l IH]; [done|]. cbn [fmap list_fmap zip_with]. by rewrite <-IH.
Qed.

(** The record of an importable checkpoint decodes to it, as long as the database
    holds the state of each of its domains. *)
Lemma checkpoint_record_exact c b :
  chain_typed (ckd_state c) → wf_validator_set (ckd_validator_set c) →
  zlen (fs_domains (ckd_state c)) ≤ MAX_CHECKPOINT_DOMAINS →
  from_checkpoint (checkpoint (ckd_state c)) = Ok (ckd_state c) →
  (∀ id fd, (id, fd) ∈ fs_domains (ckd_state c) → loads (id, fd) (fd_state fd)) →
  encode_checkpoint c = Ok b → decode_checkpoint fuel database b = Ok c.
Proof.
  intros Ht Hv Hmax Hfc Hl He. unfold decode_checkpoint.
  assert (zlen b ≤ MAX_CHECKPOINT_METADATA_BYTES) as Hlen.
  { unfold encode_checkpoint in He. repeat (apply obind_Ok in He as (? & _ & He)).
    match type of He with (if ?x <? ?y then _ else _) = _ => destruct (Z.ltb_spec x y) end; [done|]. by injection He as <-. }
  rewrite (proj2 (Z.ltb_ge _ _) Hlen).
  assert (fs_domains (ckd_state c) ≠ []) as Hne.
  { apply from_checkpoint_Ok in Hfc as [Hc ->]. apply described_ok in Hc as [_ _ _ _ [[fd Hr] _] _ _ _].
    intros E. by rewrite E in Hr. }
  rewrite (checkpoint_record c b (fd_state <$> bvalues (fs_domains (ckd_state c)))) by
    (done || (clear -Hl; unfold bvalues; induction (fs_domains (ckd_state c)) as [|[id fd] l IH]; [constructor|];
      constructor; [apply Hl; by left|apply IH; intros id' fd' Hin; apply Hl; by right])).
  cbn [obind]. rewrite loaded_is_checkpoint, Hfc. by destruct c.
Qed.
End record.
