(* ===== verification/Engine.v ===== *)
(** The development engine (src/crates/arbor-consensus/src/lib.rs, lines 256-956, and
    [import_development_checkpoint] of checkpoint.rs): opening and replaying a
    database, admission, selection, proposals, commits and imports.

    A method that takes [&mut self] returns its outcome and the engine it leaves; the
    commit events are the list of those sent. *)

From Stdlib Require Import Strings.Byte.
From S2P Require Import Prelude Bytes BTreeMap Primitives Canonical Cursor Rlp Crypto Ethereum StateError.
From S2P Require Import DomainHeads System Registry Trie Mpt MptBuild Account Overlay Mempool Storage Evm.
From S2P Require Import Executor Merkle ChainBlock ChainState Chain Typing DevGenesis EngineCheckpoint.

Local Open Scope Z_scope.

Definition MAX_DEV_PROPOSAL_TRANSACTIONS : Z := 10000.
Definition MAX_FAIR_DOMAIN_TRANSACTIONS : Z := 1024.

Record CommitEvent := {
  ev_height : Z;
  ev_consensus_hash : bytes;
  ev_domain_heads_root : bytes;
}.

Record PendingProposal := {
  pp_id : bytes;
  pp_proposal : ValidatedProposal;
  pp_reserved : list PoolEntry;
}.

(** ** Selecting transactions *)

(** [rotate_left(mid)], for [mid] at most the length. *)
Definition rotate_left {A : Type} (mid : Z) (l : list A) : list A :=
  drop (Z.to_nat mid) l ++ take (Z.to_nat mid) l.

(** The inner loop of [select_transactions], left at its first [break]: the gas of
    the domain, the aggregate gas and the entries selected so far. *)
Fixpoint select_domain (domain_limit quota domain_gas aggregate_gas : Z) (selected : list PoolEntry)
    (entries : list PoolEntry) : Z * list PoolEntry :=
  match entries with
  | [] => (aggregate_gas, selected)
  | entry :: entries' =>
      let gas := tx_gas_limit (pe_transaction entry) in
      match checked_add 64 domain_gas gas, checked_add 64 aggregate_gas gas with
      | Some next_domain_gas, Some next_aggregate =>
          if (domain_limit <? next_domain_gas) || (MAX_CONSENSUS_BLOCK_GAS <? next_aggregate) ||
             ((quota <? next_domain_gas) && negb (domain_gas =? 0)) ||
             (MAX_DEV_PROPOSAL_TRANSACTIONS <=? zlen selected)
          then (aggregate_gas, selected)
          else select_domain domain_limit quota next_domain_gas next_aggregate (selected ++ [entry]) entries'
      | _, _ => (aggregate_gas, selected)
      end
  end.

(** One domain of the outer loop. *)
Definition select_ready (fair_share : Z) (acc : Z * list PoolEntry) (ready : DomainId * Z * list PoolEntry)
    : Z * list PoolEntry :=
  let '(_, domain_limit, entries) := ready in
  select_domain domain_limit (Z.min fair_share domain_limit) 0 acc.1 acc.2
    (take (Z.to_nat MAX_FAIR_DOMAIN_TRANSACTIONS) entries).

(** ** Building a batch for storage *)

Definition push_state (commit : CommitBatch) (state : DomainStateCommit) (code : btree bytes bytes)
    : CommitBatch :=
  {| cm_marker := cm_marker commit; cm_states := cm_states commit ++ [state];
     cm_contract_code := bextend (cm_contract_code commit) code; cm_receipts := cm_receipts commit;
     cm_indexes := cm_indexes commit; cm_domain_registry := cm_domain_registry commit |}.

Definition push_indexes (commit : CommitBatch) (indexes : list IndexedValue) : CommitBatch :=
  {| cm_marker := cm_marker commit; cm_states := cm_states commit;
     cm_contract_code := cm_contract_code commit; cm_receipts := cm_receipts commit;
     cm_indexes := cm_indexes commit ++ indexes; cm_domain_registry := cm_domain_registry commit |}.

Definition push_receipt (commit : CommitBatch) (record : IndexedValue) : CommitBatch :=
  {| cm_marker := cm_marker commit; cm_states := cm_states commit;
     cm_contract_code := cm_contract_code commit; cm_receipts := cm_receipts commit ++ [record];
     cm_indexes := cm_indexes commit; cm_domain_registry := cm_domain_registry commit |}.

Definition push_registry (commit : CommitBatch) (record : IndexedValue) : CommitBatch :=
  {| cm_marker := cm_marker commit; cm_states := cm_states commit;
     cm_contract_code := cm_contract_code commit; cm_receipts := cm_receipts commit;
     cm_indexes := cm_indexes commit; cm_domain_registry := cm_domain_registry commit ++ [record] |}.

(** One transaction of a retained domain: its receipt and its location. *)
Definition append_history (height : Z) (domain_id : DomainId) (commit : CommitBatch)
    (item : nat * (ExecutedTransaction * bytes)) : outcome ConsensusError CommitBatch :=
  let '(index, (transaction, receipt)) := item in
  let? index :=
    ok_or (try_from 32 (Z.of_nat index)) (InconsistentStore "transaction index overflow") in
  let hash := et_transaction_hash transaction in
  let commit := push_receipt commit {| iv_key := receipt_key hash; iv_value := receipt |} in
  Ok (push_indexes commit
        [{| iv_key := tx_location_key hash; iv_value := encode_tx_location height domain_id index |}]).

(** One created domain: its genesis state and its registry record. *)
Definition append_created (height : Z) (commit : CommitBatch) (created : CreatedDomain)
    : outcome ConsensusError CommitBatch :=
  let descriptor := cd_descriptor created in
  let state := cd_genesis_state created in
  let commit :=
    push_state commit
      {| ds_domain_id := dd_domain_id descriptor; ds_consensus_height := height;
         ds_snapshot := es_accounts state |} (es_contract_code state) in
  let? value := owned_codec (encode_domain_descriptor descriptor) in
  Ok (push_registry commit {| iv_key := dd_domain_id descriptor; iv_value := value |}).

(** One executed domain of the loop of [proposal_commit_batch]. *)
Definition append_domain (retention : DomainHistoryRetention) (height : Z) (commit : CommitBatch)
    (item : DomainBlockHeader * DomainExecutionResult * DomainBatch) : outcome ConsensusError CommitBatch :=
  let '(domain_header, execution, batch) := item in
  let state := er_state execution in
  let commit :=
    push_state commit
      {| ds_domain_id := dh_domain_id domain_header;
         ds_consensus_height := dh_consensus_height domain_header; ds_snapshot := es_accounts state |}
      (es_contract_code state) in
  let? commit :=
    if retains retention (db_domain_id batch)
    then
      let history := zip (er_transactions execution) (er_encoded_receipts execution) in
      for_each (append_history height (db_domain_id batch)) commit (zip (seq 0 (length history)) history)
    else Ok commit in
  for_each (append_created height) commit (er_created_domains execution).

Section engine.
Context `{Keccak, Secp256k1, AlloyRlp, !AlloyTrie, SenderRecovery, Journal, !Revm, AlloyRoots, ParityDb}.

Definition proposal_commit_batch (proposal : ValidatedProposal) (retention : DomainHistoryRetention)
    : outcome ConsensusError CommitBatch :=
  let block := vp_block proposal in
  let? hash := owned_crypto (consensus_header_hash (cb_header block)) in
  let marker :=
    {| mk_height := ch_height (cb_header block); mk_consensus_hash := hash;
       mk_domain_heads_root := ch_domain_heads_root (cb_header block) |} in
  let? encoded := chain_err (encode_consensus_block block) in
  let commit :=
    push_indexes (new_commit marker)
      [{| iv_key := block_key (mk_height marker); iv_value := encoded |};
       {| iv_key := KEY_DEV_WAL; iv_value := encode_dev_wal marker |}] in
  for_each (append_domain retention (mk_height marker)) commit
    (zip (zip (cb_domain_blocks block) (vp_executions proposal)) (cb_batches block)).

Record SingleValidatorEngine := {
  en_database : Storage.Database;
  en_genesis : DevGenesis;
  en_finalized : FinalizedChainState;
  en_mempool : Mempool;
  en_pending : option PendingProposal;
  en_events : list CommitEvent;
  en_scheduler_cursor : Z;
  en_history_retention : DomainHistoryRetention;
}.

Definition with_database (e : SingleValidatorEngine) (database : Storage.Database) : SingleValidatorEngine :=
  {| en_database := database; en_genesis := en_genesis e; en_finalized := en_finalized e;
     en_mempool := en_mempool e; en_pending := en_pending e; en_events := en_events e;
     en_scheduler_cursor := en_scheduler_cursor e; en_history_retention := en_history_retention e |}.

Definition with_mempool (e : SingleValidatorEngine) (mempool : Mempool) : SingleValidatorEngine :=
  {| en_database := en_database e; en_genesis := en_genesis e; en_finalized := en_finalized e;
     en_mempool := mempool; en_pending := en_pending e; en_events := en_events e;
     en_scheduler_cursor := en_scheduler_cursor e; en_history_retention := en_history_retention e |}.

Definition with_pending (e : SingleValidatorEngine) (pending : option PendingProposal) : SingleValidatorEngine :=
  {| en_database := en_database e; en_genesis := en_genesis e; en_finalized := en_finalized e;
     en_mempool := en_mempool e; en_pending := pending; en_events := en_events e;
     en_scheduler_cursor := en_scheduler_cursor e; en_history_retention := en_history_retention e |}.

(** What a commit publishes, with the event it sends. *)
Definition publish_finalized (e : SingleValidatorEngine) (finalized : FinalizedChainState) (mempool : Mempool)
    (cursor : Z) : SingleValidatorEngine :=
  {| en_database := en_database e; en_genesis := en_genesis e; en_finalized := finalized;
     en_mempool := mempool; en_pending := en_pending e;
     en_events :=
       en_events e ++
       [{| ev_height := fs_height finalized; ev_consensus_hash := fs_consensus_hash finalized;
           ev_domain_heads_root := domain_heads_root finalized |}];
     en_scheduler_cursor := cursor; en_history_retention := en_history_retention e |}.

(** ** Opening *)

Definition initialize_database (database : Storage.Database) (g : DevGenesis) (state : FinalizedChainState)
    (fingerprint : bytes) : outcome ConsensusError unit * Storage.Database :=
  match domain state (gn_root_domain_id g) with
  | None => (Err (InvalidGenesis "missing root domain"), database)
  | Some root =>
      let marker :=
        {| mk_height := 0; mk_consensus_hash := gn_genesis_hash g;
           mk_domain_heads_root := domain_heads_root state |} in
      let commit :=
        {| cm_marker := marker;
           cm_states :=
             [{| ds_domain_id := gn_root_domain_id g;
                 ds_consensus_height := dh_consensus_height (fd_header root);
                 ds_snapshot := es_accounts (fd_state root) |}];
           cm_contract_code := es_contract_code (fd_state root); cm_receipts := [];
           cm_indexes :=
             [{| iv_key := KEY_DEV_GENESIS; iv_value := fingerprint |};
              {| iv_key := KEY_DEV_WAL; iv_value := encode_dev_wal marker |}];
           cm_domain_registry := [] |} in
      let '(r, database) := database_commit database commit in
      ((run? storage_err r in Ok tt), database)
  end.

(** One domain of the loop of [verify_recovered]. *)
Definition verify_head (database : Storage.Database) (_ : unit) (entry : DomainId * FinalizedDomain)
    : outcome ConsensusError unit :=
  let '(domain_id, domain) := entry in
  let? found := storage_err (latest_head database domain_id) in
  let? '(height, root) := ok_or found (InconsistentStore "missing domain state head") in
  if negb (height =? dh_consensus_height (fd_header domain)) ||
     negb (bool_decide (root = dh_state_root (fd_header domain)))
  then Err (InconsistentStore "domain state/head mismatch")
  else Ok tt.

Definition verify_recovered (database : Storage.Database) (state : FinalizedChainState)
    (marker : FinalizedMarker) : outcome ConsensusError unit :=
  if negb (mk_height marker =? fs_height state) ||
     negb (bool_decide (mk_consensus_hash marker = fs_consensus_hash state)) ||
     negb (bool_decide (mk_domain_heads_root marker = domain_heads_root state))
  then Err (InconsistentStore "marker/head mismatch")
  else
    let? found := storage_err (db_index database KEY_DEV_WAL) in
    let? wal := ok_or found (InconsistentStore "missing dev commit WAL") in
    if negb (bool_decide (wal = encode_dev_wal marker))
    then Err (InconsistentStore "WAL/head mismatch")
    else for_each (verify_head database) tt (fs_domains state).

(** One height of the replay of [open_with_history]. *)
Definition replay_height (database : Storage.Database) (finalized : FinalizedChainState) (height : Z)
    : outcome ConsensusError FinalizedChainState :=
  let? found := storage_err (db_index database (block_key height)) in
  let? b := ok_or found (InconsistentStore "missing finalized block body") in
  let? block := chain_err (decode_consensus_block b) in
  let? proposal := chain_err (validate_proposal finalized block) in
  Ok (vp_resulting_state proposal).

(** The branch of [open_with_history] for a database with a marker. *)
Definition recover (fuel : nat) (database : Storage.Database) (g : DevGenesis) (fingerprint : bytes)
    (finalized : FinalizedChainState) (marker : FinalizedMarker)
    : outcome ConsensusError FinalizedChainState :=
  let? found := storage_err (db_index database KEY_DEV_GENESIS) in
  let? stored := ok_or found (InconsistentStore "missing dev genesis record") in
  if negb (bool_decide (stored = fingerprint)) then Err GenesisMismatch
  else
    let? loaded := load_development_checkpoint fuel database g in
    let? finalized :=
      match loaded with
      | Some checkpoint =>
          if mk_height marker <? fs_height (ckd_state checkpoint)
          then Err (InconsistentStore "checkpoint height exceeds finalized marker")
          else Ok (ckd_state checkpoint)
      | None => Ok finalized
      end in
    let first := saturating_add 64 (fs_height finalized) 1 in
    let? finalized := for_each (replay_height database) finalized (seqZ first (mk_height marker - first + 1)) in
    run? verify_recovered database finalized marker in
    Ok finalized.

Definition register_finalized (mempool : Mempool) (entry : DomainId * FinalizedDomain)
    : outcome ConsensusError Mempool :=
  pool_err (register_domain mempool entry.1 (dc_chain_id (fd_config entry.2))).

(** The outcome, and the database as it is left on disk. *)
Definition open_with_history (fuel : nat) (mode : EngineMode) (database : Storage.Database) (g : DevGenesis)
    (config : MempoolConfig) (retention : DomainHistoryRetention)
    : outcome ConsensusError SingleValidatorEngine * Storage.Database :=
  match mode with
  | Production => (Err DevModeRequired, database)
  | DevValidator =>
      let prepared :=
        let? fingerprint := fingerprint g in
        let? finalized := chain_state g in
        let? marker := storage_err (finalized_marker database) in
        Ok (fingerprint, finalized, marker) in
      match prepared with
      | Ok (fingerprint, finalized, marker) =>
          let '(recovered, database) :=
            match marker with
            | None =>
                let '(r, database) := initialize_database database g finalized fingerprint in
                ((run? r in Ok finalized), database)
            | Some marker => (recover fuel database g fingerprint finalized marker, database)
            end in
          ((let? finalized := recovered in
            let? mempool := for_each register_finalized (new_pool config) (fs_domains finalized) in
            Ok {| en_database := database; en_genesis := g; en_finalized := finalized;
                  en_mempool := mempool; en_pending := None; en_events := [];
                  en_scheduler_cursor := 0; en_history_retention := retention |}),
           database)
      | Err e => (Err e, database)
      | Panic m => (Panic m, database)
      end
  end.

(** [SingleValidatorEngine::open]. *)
Definition open_engine (fuel : nat) (mode : EngineMode) (database : Storage.Database) (g : DevGenesis)
    (config : MempoolConfig) : outcome ConsensusError SingleValidatorEngine * Storage.Database :=
  open_with_history fuel mode database g config All.

(** ** Reading *)

Definition engine_marker (e : SingleValidatorEngine) : outcome ConsensusError (option FinalizedMarker) :=
  storage_err (finalized_marker (en_database e)).

Definition finalized_block (fuel : nat) (e : SingleValidatorEngine) (height : Z)
    : outcome ConsensusError (option ConsensusBlock) :=
  if (height =? 0) || (fs_height (en_finalized e) <? height) then Ok None
  else
    let? found := storage_err (db_index (en_database e) (block_key height)) in
    match found with
    | Some b => let? block := chain_err (decode_consensus_block b) in Ok (Some block)
    | None =>
        let? base := checkpoint_height fuel (en_database e) in
        if match base with Some base => height <=? base | None => false end then Ok None
        else Err (InconsistentStore "missing finalized block body")
    end.

Definition pending_block (e : SingleValidatorEngine) (id : bytes) : option ConsensusBlock :=
  match en_pending e with
  | Some pending => if bool_decide (pp_id pending = id) then Some (vp_block (pp_proposal pending)) else None
  | None => None
  end.

Definition receipt (e : SingleValidatorEngine) (transaction_hash : bytes)
    : outcome ConsensusError (option bytes) :=
  storage_err (db_receipt (en_database e) (receipt_key transaction_hash)).

Definition mempool_len (e : SingleValidatorEngine) : Z := pool_len (en_mempool e).

(** The headers of one block in [domain_history], up to the limit. *)
Fixpoint history_headers (limit : Z) (records : list bytes) (headers : list DomainBlockHeader)
    : outcome ConsensusError (list bytes) :=
  match headers with
  | [] => Ok records
  | header :: headers' =>
      let? encoded := owned_codec (encode_domain_header header) in
      let records := records ++ [encoded] in
      if zlen records =? limit then Ok records else history_headers limit records headers'
  end.

(** The heights of [domain_history]; a full list ends the loop. *)
Fixpoint history_heights (fuel : nat) (e : SingleValidatorEngine) (domain_id : DomainId)
    (start_number limit : Z) (records : list bytes) (heights : list Z) : outcome ConsensusError (list bytes) :=
  match heights with
  | [] => Ok records
  | height :: heights' =>
      let? found := finalized_block fuel e height in
      match found with
      | None => history_heights fuel e domain_id start_number limit records heights'
      | Some block =>
          let? records :=
            history_headers limit records
              (List.filter
                 (λ h, bool_decide (dh_domain_id h = domain_id) && (start_number <=? dh_number h))
                 (cb_domain_blocks block)) in
          if zlen records =? limit then Ok records
          else history_heights fuel e domain_id start_number limit records heights'
      end
  end.

Definition domain_history (fuel : nat) (e : SingleValidatorEngine) (domain_id : DomainId)
    (start_number limit : Z) : outcome ConsensusError (list bytes) :=
  if (limit =? 0) || negb (retains (en_history_retention e) domain_id) then Ok []
  else
    history_heights fuel e domain_id start_number limit [] (seqZ 1 (fs_height (en_finalized e))).

(** ** Admission *)

Definition account_nonce (state : ExecutionState) (sender : bytes) : outcome ConsensusError Z :=
  let? account := owned_evm (state_account state sender) in
  Ok (match account with Some a => nonce a | None => 0 end).

Definition submit_raw (e : SingleValidatorEngine) (domain_id : DomainId) (envelope : bytes)
    : outcome ConsensusError QueueStatus.t * SingleValidatorEngine :=
  let inserted :=
    let? transaction :=
      map_err (λ e, MempoolFailed (Mempool.InvalidTransaction (Codec e))) (decode_eip1559 envelope) in
    let? sender :=
      map_err (λ e, MempoolFailed (Mempool.InvalidTransaction e)) (recover_eip1559_sender transaction) in
    let? domain := ok_or (domain (en_finalized e) domain_id) UnknownEngineDomain in
    let? state_nonce := account_nonce (fd_state domain) sender in
    pool_err (Mempool.insert (en_mempool e) domain_id envelope state_nonce) in
  match inserted with
  | Ok (mempool, status) => (Ok status, with_mempool e mempool)
  | Err error => (Err error, e)
  | Panic m => (Panic m, e)
  end.

(** ** Proposals *)

(** One sender of a domain in [select_transactions]. *)
Definition ready_sender (pool : Mempool) (domain_id : DomainId) (state : ExecutionState)
    (acc : list PoolEntry) (sender : bytes) : outcome ConsensusError (list PoolEntry) :=
  let? nonce := account_nonce state sender in
  Ok (acc ++ ready pool domain_id sender nonce).

(** One domain of the first loop of [select_transactions]. *)
Definition ready_domain (pool : Mempool) (acc : list (DomainId * Z * list PoolEntry))
    (entry : DomainId * FinalizedDomain) : outcome ConsensusError (list (DomainId * Z * list PoolEntry)) :=
  let '(domain_id, domain) := entry in
  let? found := for_each (ready_sender pool domain_id (fd_state domain)) [] (senders pool domain_id) in
  let ready := sort_by_key (λ x, (pe_sender x, tx_nonce (pe_transaction x))) found in
  if (length ready =? 0)%nat then Ok acc
  else Ok (acc ++ [(domain_id, dc_gas_limit (fd_config domain), ready)]).

Definition select_transactions (e : SingleValidatorEngine) : outcome ConsensusError (list PoolEntry) :=
  let? ready_by_domain := for_each (ready_domain (en_mempool e)) [] (fs_domains (en_finalized e)) in
  if (length ready_by_domain =? 0)%nat then Ok []
  else
    let domain_count := zlen ready_by_domain in
    let fair_share := MAX_CONSENSUS_BLOCK_GAS / domain_count in
    let rotated := rotate_left (en_scheduler_cursor e mod domain_count) ready_by_domain in
    let '(_, selected) := foldl (select_ready fair_share) (0, []) rotated in
    Ok (sort_by_key (λ x, (pe_domain_id x, pe_sender x, tx_nonce (pe_transaction x))) selected).

Definition group_entry (grouped : btree DomainId (list bytes)) (entry : PoolEntry)
    : btree DomainId (list bytes) :=
  binsert (pe_domain_id entry) (default [] (bget (pe_domain_id entry) grouped) ++ [pe_envelope entry]) grouped.

Definition group_batch (finalized : FinalizedChainState) (group : DomainId * list bytes)
    : outcome ConsensusError DomainBatch :=
  let '(domain_id, transactions) := group in
  let? parent := ok_or (domain finalized domain_id) UnknownEngineDomain in
  Ok {| db_domain_id := domain_id; db_parent_domain_block_hash := fd_block_hash parent;
        db_transactions := transactions |}.

Definition engine_build_proposal (e : SingleValidatorEngine) (timestamp : Z)
    : outcome ConsensusError bytes * SingleValidatorEngine :=
  match en_pending e with
  | Some _ => (Err ProposalPending, e)
  | None =>
      match select_transactions e with
      | Ok selected =>
          let hashes := bcollect ((λ x, (pe_transaction_hash x, tt)) <$> selected) in
          let '(mempool, reserved) := reserve_hashes (en_mempool e) hashes in
          let e := with_mempool e mempool in
          match collect (group_batch (en_finalized e)) (foldl group_entry [] reserved) with
          | Ok batches =>
              match
                build_proposal (en_finalized e) batches timestamp (gn_reward_address (en_genesis e))
              with
              | Ok proposal =>
                  match chain_err (block_hash_of (vp_block proposal)) with
                  | Ok id =>
                      (Ok id,
                       with_pending e
                         (Some {| pp_id := id; pp_proposal := proposal; pp_reserved := reserved |}))
                  | Err error => (Err error, e)
                  | Panic m => (Panic m, e)
                  end
              | Err error =>
                  (Err (ChainFailed error), with_mempool e (restore_reserved (en_mempool e) reserved))
              | Panic m => (Panic m, e)
              end
          | Err error => (Err error, e)
          | Panic m => (Panic m, e)
          end
      | Err error => (Err error, e)
      | Panic m => (Panic m, e)
      end
  end.

Definition abandon_proposal (e : SingleValidatorEngine) (id : bytes)
    : outcome ConsensusError unit * SingleValidatorEngine :=
  match en_pending e with
  | Some pending =>
      if bool_decide (pp_id pending = id)
      then (Ok tt,
            with_mempool (with_pending e None) (restore_reserved (en_mempool e) (pp_reserved pending)))
      else (Err UnknownProposal, e)
  | None => (Err UnknownProposal, e)
  end.

(** ** Commits *)

Definition register_created (mempool : Mempool) (created : CreatedDomain) : outcome ConsensusError Mempool :=
  pool_err
    (register_domain mempool (dd_domain_id (cd_descriptor created)) (dd_evm_chain_id (cd_descriptor created))).

(** The mempool and the batch [commit_validated] prepares. *)
Definition prepare_commit (e : SingleValidatorEngine) (proposal : ValidatedProposal)
    : outcome ConsensusError (Mempool * CommitBatch) :=
  let? next_mempool :=
    for_each register_created (en_mempool e) (vp_executions proposal ≫= er_created_domains) in
  let included_hashes :=
    bcollect ((λ t, (et_transaction_hash t, tt)) <$> (vp_executions proposal ≫= er_transactions)) in
  let next_mempool := (reserve_hashes next_mempool included_hashes).1 in
  let? commit := proposal_commit_batch proposal (en_history_retention e) in
  Ok (next_mempool, commit).

Definition commit_validated (e : SingleValidatorEngine) (proposal : ValidatedProposal)
    : outcome ConsensusError CommitStats * SingleValidatorEngine :=
  match prepare_commit e proposal with
  | Ok (next_mempool, commit) =>
      let '(r, database) := database_commit (en_database e) commit in
      let e := with_database e database in
      match storage_err r with
      | Ok stats =>
          let finalized := vp_resulting_state proposal in
          let cursor :=
            saturating_add 64 (en_scheduler_cursor e) 1 mod Z.max (zlen (fs_domains finalized)) 1 in
          (Ok stats, publish_finalized e finalized next_mempool cursor)
      | Err error => (Err error, e)
      | Panic m => (Panic m, e)
      end
  | Err error => (Err error, e)
  | Panic m => (Panic m, e)
  end.

Definition commit_proposal (e : SingleValidatorEngine) (id : bytes)
    : outcome ConsensusError CommitStats * SingleValidatorEngine :=
  match en_pending e with
  | Some pending =>
      if bool_decide (pp_id pending = id)
      then
        match commit_validated (with_pending e None) (pp_proposal pending) with
        | (Err error, e') => (Err error, with_pending e' (Some pending))
        | result => result
        end
      else (Err UnknownProposal, e)
  | None => (Err UnknownProposal, e)
  end.

Definition import_development_finalized_block (e : SingleValidatorEngine) (block : ConsensusBlock)
    : outcome ConsensusError CommitStats * SingleValidatorEngine :=
  match en_pending e with
  | Some _ => (Err ProposalPending, e)
  | None =>
      match chain_err (validate_proposal (en_finalized e) block) with
      | Ok proposal => commit_validated e proposal
      | Err error => (Err error, e)
      | Panic m => (Panic m, e)
      end
  end.

Definition produce_block (e : SingleValidatorEngine) (timestamp : Z)
    : outcome ConsensusError CommitEvent * SingleValidatorEngine :=
  match engine_build_proposal e timestamp with
  | (Ok id, e) =>
      match commit_proposal e id with
      | (Ok _, e) =>
          (Ok {| ev_height := fs_height (en_finalized e);
                 ev_consensus_hash := fs_consensus_hash (en_finalized e);
                 ev_domain_heads_root := domain_heads_root (en_finalized e) |}, e)
      | (Err error, e) => (Err error, e)
      | (Panic m, e) => (Panic m, e)
      end
  | (Err error, e) => (Err error, e)
  | (Panic m, e) => (Panic m, e)
  end.

(** ** Checkpoints *)

Definition development_checkpoint (e : SingleValidatorEngine) : DevelopmentCheckpoint :=
  {| ckd_state := en_finalized e; ckd_validator_set := gn_validator_set (en_genesis e);
     ckd_finality_proof := [] |}.

(** One domain of the loop of [import_development_checkpoint]. *)
Definition import_domain (acc : CommitBatch * Mempool) (entry : DomainId * FinalizedDomain)
    : outcome ConsensusError (CommitBatch * Mempool) :=
  let '(commit, mempool) := acc in
  let '(domain_id, domain) := entry in
  let commit :=
    push_state commit
      {| ds_domain_id := domain_id; ds_consensus_height := dh_consensus_height (fd_header domain);
         ds_snapshot := es_accounts (fd_state domain) |} (es_contract_code (fd_state domain)) in
  let? mempool := register_finalized mempool entry in
  Ok (commit, mempool).

Definition import_descriptor (commit : CommitBatch) (entry : DomainId * DomainDescriptor)
    : outcome ConsensusError CommitBatch :=
  let? value := owned_codec (encode_domain_descriptor entry.2) in
  Ok (push_registry commit {| iv_key := entry.1; iv_value := value |}).

(** The state, mempool and batch [import_development_checkpoint] prepares. *)
Definition prepare_import (e : SingleValidatorEngine) (c : DevelopmentCheckpoint)
    : outcome ConsensusError (FinalizedChainState * Mempool * CommitBatch) :=
  let g := en_genesis e in
  let state := ckd_state c in
  if negb (fs_height (en_finalized e) =? 0)
  then Err (InconsistentStore "checkpoint import requires height-zero state")
  else if negb (length (ckd_finality_proof c) =? 0)%nat
  then Err (InconsistentStore "development checkpoint proof must be empty")
  else
    let? validator_hash := owned_crypto (validator_set_hash (ckd_validator_set c)) in
    if negb (bool_decide (ckd_validator_set c = gn_validator_set g)) ||
       negb (bool_decide (validator_hash = fs_validator_set_hash state)) ||
       negb (bool_decide (fs_next_validator_set_hash state = validator_hash)) ||
       negb (bool_decide (fs_network_id state = gn_network_id g)) ||
       negb (bool_decide (fs_root_domain_id state = gn_root_domain_id g)) ||
       negb (bool_decide (fs_governance_address state = gn_governance_address g))
    then Err (InconsistentStore "checkpoint genesis or validator-set mismatch")
    else
      let? state := chain_err (from_checkpoint (checkpoint state)) in
      let c :=
        {| ckd_state := state; ckd_validator_set := ckd_validator_set c;
           ckd_finality_proof := ckd_finality_proof c |} in
      let marker :=
        {| mk_height := fs_height state; mk_consensus_hash := fs_consensus_hash state;
           mk_domain_heads_root := domain_heads_root state |} in
      let? '(commit, mempool) :=
        for_each import_domain (new_commit marker, en_mempool e) (fs_domains state) in
      let? commit := for_each import_descriptor commit (fs_descriptors state) in
      let? encoded := encode_checkpoint c in
      Ok (state, mempool,
          push_indexes commit
            [{| iv_key := KEY_DEV_CHECKPOINT; iv_value := encoded |};
             {| iv_key := KEY_DEV_WAL; iv_value := encode_dev_wal marker |}]).

Definition import_development_checkpoint (e : SingleValidatorEngine) (c : DevelopmentCheckpoint)
    : outcome ConsensusError unit * SingleValidatorEngine :=
  match en_pending e with
  | Some _ => (Err ProposalPending, e)
  | None =>
      match prepare_import e c with
      | Ok (state, mempool, commit) =>
          let '(r, database) := database_commit (en_database e) commit in
          let e := with_database e database in
          match storage_err r with
          | Ok _ => (Ok tt, publish_finalized e state mempool 0)
          | Err error => (Err error, e)
          | Panic m => (Panic m, e)
          end
      | Err error => (Err error, e)
      | Panic m => (Panic m, e)
      end
  end.
End engine.
