(* ===== verification/EngineRestart.v ===== *)
(** Restarting the development engine: what a commit leaves under the keys the engine
    reads when it opens a database, and that opening replays to the finalized state.

    Main results: [commit_recoverable] and [initialize_recoverable] (a database stays
    one that reopening can replay), [open_recovers] (and reopening does), and
    [executed_routes] (the pool's routes follow the domains a block creates). The
    theorems about the engine that use them are in EngineSteps.v. *)

From Stdlib Require Import Strings.Byte.
From S2P Require Import Prelude Bytes BTreeMap Primitives Canonical Cursor Rlp Crypto Ethereum StateError.
From S2P Require Import DomainHeads System Registry Trie Mpt MptBuild Account Overlay Mempool Storage Evm.
From S2P Require Import Executor Merkle ChainBlock ChainState Chain Typing DevGenesis EngineCheckpoint Engine.

Local Open Scope Z_scope.

(** ** What a commit leaves *)

Section effects.
Context `{Keccak, AlloyRlp, !AlloyTrie, ParityDb, !ParityDbLaws}.

(** The records that pruning never touches: indexes, the marker and the heads. *)
Definition lasting (c : Z) (k : bytes) : Prop :=
  c = COLUMN_INDEXES ∨ c = COLUMN_META ∧ (k = KEY_MARKER ∨ ∃ dom, k = head_key dom).

Definition lasts (d d' : Storage.Database) : Prop := ∀ c k, lasting c k → stored d' c k = stored d c k.

Lemma lasts_refl d : lasts d d.
Proof. by intros c k _. Qed.

Lemma lasts_trans d1 d2 d3 : lasts d1 d2 → lasts d2 d3 → lasts d1 d3.
Proof. intros H1' H2' c k Hl. by rewrite H2', H1'. Qed.

Lemma loaded_manifest_NoDup d dom h m : load_manifest d dom h = Ok (Some m) → NoDup (rm_node_hashes m).
Proof.
  unfold load_manifest. intros Hl. apply obind_Ok in Hl as ([b|] & _ & Hl); [|done]. cbn in Hl.
  apply obind_Ok in Hl as (m' & Hd & [= ->]). unfold decode_reachability in Hd. ok_inv. subst m. cbn.
  apply StronglySorted_NoDup, strict_StronglySorted. bool_prop. done.
Qed.

Lemma prune_transaction_lasting d dom h t n c k :
  prune_transaction d dom h = Ok (t, n) → NoDup t.*1 ∧ (lasting c k → (c, k) ∉ t.*1).
Proof.
  unfold prune_transaction. intros Hp. apply obind_Ok in Hp as (head & _ & Hp).
  destruct (bool_decide _); [done|]. apply obind_Ok in Hp as (found & Hf & Hp).
  apply obind_Ok in Hp as (m & Hm & Hp). apply obind_Ok in Hp as (live & _ & [= <- _]).
  apply ok_or_Ok in Hm as ->. apply loaded_manifest_NoDup in Hf. cbn. rewrite <-list_fmap_compose. split.
  - constructor; [|constructor].
    + rewrite elem_of_cons, list_elem_of_fmap. intros [E|(x & [=] & _)]. done.
    + rewrite list_elem_of_fmap. by intros (x & [=] & _).
    + apply (NoDup_fmap_2 (λ x, (COLUMN_TRIE_NODES, x))). by apply NoDup_filter_bool.
  - rewrite !not_elem_of_cons, list_elem_of_fmap. intros [->|[-> [->|[dom' ->]]]]; split_and!; try done;
      by intros (x & [=] & _).
Qed.

Lemma prune_root_lasting d dom h r d' : prune_root d dom h = (r, d') → lasts d d'.
Proof.
  unfold prune_root. destruct (prune_transaction d dom h) as [[t n]|e|m] eqn:Ht;
    [|intros [= _ <-]; apply lasts_refl..].
  pose proof (λ c k, prune_transaction_lasting _ _ _ _ _ c k Ht) as Hl.
  destruct (submit d t) as [[u|e|m] d1] eqn:Hs; intros [= _ <-].
  - destruct (submit_Ok _ _ _ _ Hs (proj1 (Hl 0 []))) as (_ & _ & Hold). intros c k Hc. apply Hold. by apply Hl.
  - apply submit_not_Ok in Hs as [_ Hs]; [|done]. by intros c k _.
  - apply submit_not_Ok in Hs as [_ Hs]; [|done]. by intros c k _.
Qed.

Lemma prune_heights_lasting dom cutoff heights d pruned r d' :
  prune_heights d dom cutoff pruned heights = (r, d') → lasts d d'.
Proof.
  revert d pruned. induction heights as [|h heights IH]; intros d pruned Hr; cbn in Hr.
  { injection Hr as _ <-. apply lasts_refl. }
  destruct (h <? cutoff); [|by eapply IH]. destruct (prune_root d dom h) as [[n|e|m] d1] eqn:Hp; cbn in Hr;
    apply prune_root_lasting in Hp; [|by injection Hr as _ <-..]. eapply lasts_trans; [exact Hp|by eapply IH].
Qed.

Lemma retain_lasting cutoff states d pruned r d' :
  retain_states d cutoff pruned states = (r, d') → lasts d d'.
Proof.
  revert d pruned. induction states as [|s states IH]; intros d pruned Hr; cbn in Hr.
  { injection Hr as _ <-. apply lasts_refl. }
  destruct (root_heights d (ds_domain_id s)) as [heights|e|m]; cbn in Hr; [|injection Hr as _ <-; apply lasts_refl..].
  destruct (prune_heights d (ds_domain_id s) cutoff pruned heights) as [[n|e|m] d1] eqn:Hp; cbn in Hr;
    apply prune_heights_lasting in Hp; [|by injection Hr as _ <-..]. eapply lasts_trans; [exact Hp|by eapply IH].
Qed.

Lemma retention_lasting d h states r d' : apply_retention d h states = (r, d') → lasts d d'.
Proof.
  unfold apply_retention. destruct (da_retention d); [intros [= _ <-]; apply lasts_refl|apply retain_lasting].
Qed.

(** The records of a committed batch. *)
Record committed (d : Storage.Database) (b : CommitBatch) (d' : Storage.Database) : Prop := {
  ct_marker : stored d' COLUMN_META KEY_MARKER = Some (encode_marker (cm_marker b));
  ct_index : ∀ i, i ∈ cm_indexes b → stored d' COLUMN_INDEXES (iv_key i) = Some (iv_value i);
  ct_other_index : ∀ k, k ∉ iv_key <$> cm_indexes b → stored d' COLUMN_INDEXES k = stored d COLUMN_INDEXES k;
  ct_head : ∀ s, s ∈ cm_states b →
    stored d' COLUMN_META (head_key (ds_domain_id s)) =
      Some (encode_head (ds_consensus_height s) (snap_root (ds_snapshot s)));
  ct_other_head : ∀ dom, is_b256 dom → dom ∉ ds_domain_id <$> cm_states b →
    stored d' COLUMN_META (head_key dom) = stored d COLUMN_META (head_key dom);
}.

Lemma committed_lasts d b d1 d2 : committed d b d1 → lasts d1 d2 → committed d b d2.
Proof.
  intros [M I J Hd K] Hl. split.
  - rewrite Hl; [done|]. right. auto.
  - intros i Hi. rewrite Hl; [auto|by left].
  - intros k Hk. rewrite Hl; [auto|by left].
  - intros s Hs. rewrite Hl; [auto|]. right. eauto.
  - intros dom Hb Hn. rewrite Hl; [auto|]. right. eauto.
Qed.

Lemma rest_change_index d b k w :
  (COLUMN_INDEXES, k, w) ∈ rest_changes d b → ∃ i, i ∈ cm_indexes b ∧ k = iv_key i ∧ w = Some (iv_value i).
Proof.
  unfold rest_changes. rewrite !elem_of_app, !list_elem_of_fmap, list_elem_of_singleton.
  intros [(x & [=] & _)|[(x & [=] & _)|[(x & E & Hx)|[(x & [=] & _)|[=]]]]]. injection E as -> ->. eauto.
Qed.

Lemma submit_committed d b t stats u d1 :
  wf_batch b → commit_transaction d b = Ok (t, stats) → submit d t = (Ok u, d1) → committed d b d1.
Proof.
  intros Hwf Ht Hs. destruct (commit_transaction_inv _ _ _ _ Ht Hwf) as (t0 & pend & Hlo & -> & Hnd & Hdoms & _).
  destruct (submit_Ok _ _ _ _ Hs Hnd) as (_ & Hnew & Hold).
  assert (∀ k w, (COLUMN_INDEXES, k, w) ∉ t0) as Ht0.
  { intros k w Hin. apply (loop_keys _ _ _ _ _ _ Hlo) in Hin as [[e [=]]|(s & _ & Hk)]. by destruct Hk as [[? _]|[? _]]. }
  split.
  - apply Hnew. unfold rest_changes. rewrite !elem_of_app, list_elem_of_singleton. auto 10.
  - intros i Hi. apply Hnew. unfold rest_changes. rewrite !elem_of_app, !list_elem_of_fmap.
    right. right. right. left. by exists i.
  - intros k Hk. apply Hold. intros ([[c k'] w] & [= <- <-] & Hin)%list_elem_of_fmap.
    apply elem_of_app in Hin as [?|Hin]; [by eapply Ht0|]. apply rest_change_index in Hin as (i & Hi & -> & _).
    apply Hk, list_elem_of_fmap. eauto.
  - intros s Hs'. apply (state_written _ _ _ _ _ Hlo Hnew s (COLUMN_META, _, Some _)); [done|].
    unfold state_changes. rewrite !elem_of_app, !elem_of_cons. auto 10.
  - intros dom Hd Hn. apply (key_kept _ _ _ _ _ Hlo Hold dom (COLUMN_META, head_key dom)); [done|apply key_head|].
    intros s Hs' E. destruct Hn. apply list_elem_of_fmap. eauto.
Qed.

(** A commit either writes its records, or, when it fails, changes none of them. *)
Lemma commit_effects d b r d' :
  wf_batch b → database_commit d b = (r, d') →
  match r with
  | Ok _ => committed d b d'
  | Err _ => lasts d d'
  | Panic _ => lasts d d' ∨ committed d b d'
  end.
Proof.
  intros Hwf. unfold database_commit, after. destruct (commit_transaction d b) as [[t st]|e|m] eqn:Ht;
    [|intros [= <- <-]; auto using lasts_refl..].
  destruct (submit d t) as [[u|e|m] d1] eqn:Hs.
  2,3: intros [= <- <-]; apply submit_not_Ok in Hs as [_ Hs]; [|done]; (left + idtac); by intros c k _.
  pose proof (submit_committed _ _ _ _ _ _ Hwf Ht Hs) as Hc.
  destruct (apply_retention d1 _ _) as [[n|e|m] d2] eqn:Hr; intros [= <- <-];
    apply retention_lasting in Hr; [| |right]; by eapply committed_lasts.
Qed.
End effects.

(** ** The batch of a proposal *)

(** The states a committed execution writes: its own and those it created. *)
Definition execution_states (height : Z) (item : DomainBlockHeader * DomainExecutionResult)
    : list DomainStateCommit :=
  {| ds_domain_id := dh_domain_id item.1; ds_consensus_height := dh_consensus_height item.1;
     ds_snapshot := es_accounts (er_state item.2) |} ::
  ((λ c, {| ds_domain_id := dd_domain_id (cd_descriptor c); ds_consensus_height := height;
            ds_snapshot := es_accounts (cd_genesis_state c) |}) <$> er_created_domains item.2).

(** A batch that grew: by states, by transaction locations, by code. *)
Record grown (states : list DomainStateCommit) (b b' : CommitBatch) : Prop := {
  gw_marker : cm_marker b' = cm_marker b;
  gw_states : cm_states b' = cm_states b ++ states;
  gw_indexes : ∃ locations, cm_indexes b' = cm_indexes b ++ locations ∧
    Forall (λ i, ∃ hash, iv_key i = tx_location_key hash) locations;
  gw_code : sorted (cm_contract_code b) → sorted (cm_contract_code b');
}.

Lemma grown_refl b : grown [] b b.
Proof. split; [done|by rewrite app_nil_r| |done]. exists []. by rewrite app_nil_r. Qed.

Lemma grown_trans s1 s2 b1 b2 b3 : grown s1 b1 b2 → grown s2 b2 b3 → grown (s1 ++ s2) b1 b3.
Proof.
  intros [M1 S1 (l1 & I1 & F1) C1] [M2 S2 (l2 & I2 & F2) C2]. split; [congruence| | |auto].
  - by rewrite S2, S1, app_assoc.
  - exists (l1 ++ l2). rewrite I2, I1, app_assoc. split; [done|by apply Forall_app].
Qed.

Lemma push_state_grown b s code : grown [s] b (push_state b s code).
Proof.
  split; [done|done| |]; cbn; [exists []; by rewrite app_nil_r|]. apply sorted_bextend.
Qed.

Lemma append_history_grown height dom items b b' :
  for_each (append_history height dom) b items = Ok b' → grown [] b b'.
Proof.
  intros Hf. apply (for_each_inv (grown [] b)) in Hf; [done| |apply grown_refl].
  intros b1 [i [t r]] b2 _ Hb1 Ha. unfold append_history in Ha. apply obind_Ok in Ha as (n & _ & [= <-]).
  apply (grown_trans [] [] b b1); [done|]. split; cbn; [done|by rewrite app_nil_r| |done].
  eexists. split; [done|]. constructor; [by eexists|constructor].
Qed.

Lemma append_created_grown height created b b' :
  for_each (append_created height) b created = Ok b' →
  grown ((λ c, {| ds_domain_id := dd_domain_id (cd_descriptor c); ds_consensus_height := height;
                  ds_snapshot := es_accounts (cd_genesis_state c) |}) <$> created) b b'.
Proof.
  revert b. induction created as [|c created IH]; intros b Hf; cbn in Hf.
  - injection Hf as <-. apply grown_refl.
  - apply obind_Ok in Hf as (b1 & Ha & Hf). cbn. eapply (grown_trans [_]); [|by apply IH].
    unfold append_created in Ha. apply obind_Ok in Ha as (v & _ & [= <-]).
    split; cbn; [done|done| |apply sorted_bextend]. exists []. by rewrite app_nil_r.
Qed.

Lemma append_domain_grown retention height b item b' :
  append_domain retention height b item = Ok b' → grown (execution_states height item.1) b b'.
Proof.
  destruct item as [[header execution] batch]. unfold append_domain. intros Ha.
  apply obind_Ok in Ha as (b1 & Hh & Ha). apply append_created_grown in Ha.
  assert (grown [] (push_state b
    {| ds_domain_id := dh_domain_id header; ds_consensus_height := dh_consensus_height header;
       ds_snapshot := es_accounts (er_state execution) |} (es_contract_code (er_state execution))) b1) as Hg.
  { destruct (retains retention _); [by apply append_history_grown in Hh|].
    injection Hh as <-. apply grown_refl. }
  eapply (grown_trans [_]); [|exact Ha]. eapply (grown_trans [_] []); [apply push_state_grown|exact Hg].
Qed.

Lemma append_domains_grown retention height items b b' :
  for_each (append_domain retention height) b items = Ok b' →
  grown (items.*1 ≫= execution_states height) b b'.
Proof.
  revert b. induction items as [|item items IH]; intros b Hf; cbn in Hf; [injection Hf as <-; apply grown_refl|].
  apply obind_Ok in Hf as (b1 & Ha & Hf). rewrite fmap_cons, bind_cons.
  eapply grown_trans; [by apply append_domain_grown in Ha|by apply IH].
Qed.

Lemma zip_fst_length {A B : Type} (l : list A) (k : list B) : length l = length k → (zip l k).*1 = l.
Proof. intros Hl. rewrite fst_zip; [done|lia]. Qed.

Section proposals.
Context `{Keccak, Secp256k1, AlloyRlp, !AlloyTrie, SenderRecovery, Journal, !Revm, AlloyRoots, ParityDb}.
Context `{!AlloyRlpLaws, !RevmTyped, !BloomTyped, !AlloyRootsLaws, !ParityDbLaws}.

(** The states of the executions of a run. *)
Definition run_states (height : Z) (blocks : list DomainBlockHeader) (executions : list DomainExecutionResult)
    : list DomainStateCommit :=
  zip blocks executions ≫= execution_states height.

Definition proposal_states (vp : ValidatedProposal) : list DomainStateCommit :=
  run_states (ch_height (cb_header (vp_block vp))) (cb_domain_blocks (vp_block vp)) (vp_executions vp).

Definition proposal_marker (vp : ValidatedProposal) (hash : bytes) : FinalizedMarker :=
  {| mk_height := ch_height (cb_header (vp_block vp)); mk_consensus_hash := hash;
     mk_domain_heads_root := ch_domain_heads_root (cb_header (vp_block vp)) |}.

Record proposal_batch (vp : ValidatedProposal) (b : CommitBatch) (hash encoded : bytes) : Prop := {
  pb_hash : consensus_header_hash (cb_header (vp_block vp)) = Ok hash;
  pb_encoded : encode_consensus_block (vp_block vp) = Ok encoded;
  pb_marker : cm_marker b = proposal_marker vp hash;
  pb_states : cm_states b = proposal_states vp;
  pb_indexes : ∃ locations, cm_indexes b =
    {| iv_key := block_key (ch_height (cb_header (vp_block vp))); iv_value := encoded |} ::
    {| iv_key := KEY_DEV_WAL; iv_value := encode_dev_wal (proposal_marker vp hash) |} :: locations ∧
    Forall (λ i, ∃ h, iv_key i = tx_location_key h) locations;
  pb_code : sorted (cm_contract_code b);
}.

Lemma proposal_commit_batch_inv vp retention b :
  length (cb_domain_blocks (vp_block vp)) = length (cb_batches (vp_block vp)) →
  length (vp_executions vp) = length (cb_batches (vp_block vp)) →
  proposal_commit_batch vp retention = Ok b → ∃ hash encoded, proposal_batch vp b hash encoded.
Proof.
  intros Hb Hx. unfold proposal_commit_batch. intros Hp. apply obind_Ok in Hp as (hash & Hh & Hp).
  apply obind_Ok in Hp as (encoded & He & Hp). apply map_err_Ok in Hh, He. exists hash, encoded.
  apply append_domains_grown in Hp as [M S (locs & I & F) C].
  rewrite zip_fst_length in S by (rewrite length_zip_with; lia). cbn in M, S, I, C.
  split; [done|done|done|done| |by apply C; constructor]. exists locs. done.
Qed.

(** A committed state is the head of its domain in a chain state. *)
Definition heads (s : FinalizedChainState) (st : DomainStateCommit) : Prop :=
  ∃ fd, bget (ds_domain_id st) (fs_domains s) = Some fd ∧
    ds_consensus_height st = dh_consensus_height (fd_header fd) ∧
    snap_root (ds_snapshot st) = dh_state_root (fd_header fd).

Lemma insert_created_inv height s cd s' :
  insert_created_domain height s cd = Ok s' →
  ∃ fd, fs_domains s' = binsert (dd_domain_id (cd_descriptor cd)) fd (fs_domains s) ∧
    bget (dd_domain_id (cd_descriptor cd)) (fs_domains s) = None ∧
    dh_consensus_height (fd_header fd) = height ∧
    dh_state_root (fd_header fd) = snap_root (es_accounts (cd_genesis_state cd)) ∧
    dc_chain_id (fd_config fd) = dd_evm_chain_id (cd_descriptor cd) ∧
    validate_config (fd_config fd) = Ok tt ∧
    (∀ id f, bget id (fs_domains s) = Some f → dc_chain_id (fd_config f) ≠ dd_evm_chain_id (cd_descriptor cd)).
Proof.
  unfold insert_created_domain. intros Hi. destruct (_ || _) eqn:Hd; [done|].
  apply orb_false_iff in Hd as [Hd _]. destruct (negb _); [done|].
  destruct (_ || _); [done|]. destruct (existsb _ _) eqn:Hx; [done|]. apply obind_Ok in Hi as ([] & Hv & Hi).
  apply obind_Ok in Hi as ([] & _ & Hi). apply obind_Ok in Hi as (bh & _ & [= <-]). eexists.
  split; [reflexivity|]. cbn. split_and!; try done.
  - by apply bcontains_false.
  - intros id f Hf E. apply not_true_iff_false in Hx. apply Hx, existsb_exists. exists f. split; [|by apply Z.eqb_eq].
    apply list_elem_of_In. unfold bvalues. apply list_elem_of_fmap. exists (id, f). split; [done|]. by apply bget_elem_of.
Qed.

(** Inserting created domains: each is new, each is there at the end, nothing else is. *)
Lemma insert_all_inv height s created s' :
  for_each (insert_created_domain height) s created = Ok s' →
  (∀ id fd, bget id (fs_domains s) = Some fd → bget id (fs_domains s') = Some fd) ∧
  (∀ id fd, bget id (fs_domains s') = Some fd →
    bget id (fs_domains s) = Some fd ∨ id ∈ (λ c, dd_domain_id (cd_descriptor c)) <$> created) ∧
  (∀ c, c ∈ created → bget (dd_domain_id (cd_descriptor c)) (fs_domains s) = None ∧
    heads s' {| ds_domain_id := dd_domain_id (cd_descriptor c); ds_consensus_height := height;
                ds_snapshot := es_accounts (cd_genesis_state c) |}).
Proof.
  revert s. induction created as [|c created IH]; intros s Hf; cbn in Hf.
  { injection Hf as <-. split_and!; auto. by intros c ?%elem_of_nil. }
  apply obind_Ok in Hf as (s1 & Hi & Hf). apply insert_created_inv in Hi as (fd & Ed & Hnew & Eh & Er & _).
  destruct (IH _ Hf) as (Hk & Ho & Hc). rewrite Ed in Hk, Ho.
  assert (∀ id f, bget id (fs_domains s) = Some f → id ≠ dd_domain_id (cd_descriptor c)) as Hne
    by (intros id f Hid ->; congruence).
  split_and!.
  - intros id f Hid. apply Hk. rewrite bget_binsert_ne; eauto.
  - intros id f Hid. apply Ho in Hid as [Hid|Hid]; [|right; by right].
    destruct (decide (id = dd_domain_id (cd_descriptor c))) as [->|Hn]; [right; by left|].
    rewrite bget_binsert_ne in Hid by done. by left.
  - intros c' [->|Hin]%elem_of_cons.
    + split; [done|]. exists fd. split; [apply Hk; by rewrite bget_binsert_eq|done].
    + destruct (Hc _ Hin) as [Hn Hh]. split; [|done]. rewrite Ed in Hn.
      destruct (decide (dd_domain_id (cd_descriptor c') = dd_domain_id (cd_descriptor c))) as [->|Hd]; [done|].
      by rewrite bget_binsert_ne in Hn.
Qed.

(** The states of a run are the heads of the domains it changed. *)
Record run_ok (parent : FinalizedChainState) (height : Z) (done : list DomainBatch) (x : execute_state) : Prop := {
  ru_blocks : length (xs_domain_blocks x) = length done;
  ru_executions : length (xs_executions x) = length done;
  ru_heads : ∀ st, st ∈ run_states height (xs_domain_blocks x) (xs_executions x) → heads (xs_state x) st;
  ru_changed : ∀ id fd, bget id (fs_domains (xs_state x)) = Some fd →
    bget id (fs_domains parent) = Some fd ∨
    id ∈ ds_domain_id <$> run_states height (xs_domain_blocks x) (xs_executions x);
  ru_ids : ∀ st, st ∈ run_states height (xs_domain_blocks x) (xs_executions x) →
    ds_domain_id st ∈ db_domain_id <$> done ∨ bget (ds_domain_id st) (fs_domains parent) = None;
  ru_kept : ∀ id, is_Some (bget id (fs_domains parent)) → is_Some (bget id (fs_domains (xs_state x)));
}.

Lemma run_states_app height blocks executions header execution :
  length blocks = length executions →
  run_states height (blocks ++ [header]) (executions ++ [execution]) =
  run_states height blocks executions ++ execution_states height (header, execution).
Proof.
  intros Hl. unfold run_states. rewrite zip_with_app by done. rewrite bind_app. cbn. by rewrite app_nil_r.
Qed.

Lemma heads_mono s s' st :
  (∀ fd, bget (ds_domain_id st) (fs_domains s) = Some fd → bget (ds_domain_id st) (fs_domains s') = Some fd) →
  heads s st → heads s' st.
Proof. intros Hk (fd & Hf & Hr). exists fd. split; [by apply Hk|done]. Qed.

Lemma run_step parent height done x b x' fd nd execution :
  run_ok parent height done x → db_domain_id b ∉ db_domain_id <$> done →
  batch_step parent height x b x' fd nd execution → run_ok parent height (done ++ [b]) x'.
Proof.
  intros [Lb Lx Hh Hc Hi Hkp] Hnew [Sd _ _ Sid _ _ _ _ _ _ Scr Sb Sx _ Sh Sr]. destruct (insert_all_inv _ _ _ _ Scr) as (Hk & Ho & Hcr).
  cbn [with_domains fs_domains] in Hk, Ho, Hcr.
  assert (∀ id, is_Some (bget id (fs_domains parent)) →
    is_Some (bget id (binsert (db_domain_id b) nd (fs_domains (xs_state x))))) as Hsome.
  { intros id Hid%Hkp. destruct (decide (id = db_domain_id b)) as [->|Hne]; [rewrite bget_binsert_eq; by eexists|].
    by rewrite bget_binsert_ne. }
  split; rewrite ?Sb, ?Sx, ?run_states_app by lia.
  - rewrite !length_app. cbn. lia.
  - rewrite !length_app. cbn. lia.
  - intros st [Hin|Hin]%elem_of_app.
    + eapply heads_mono; [|by apply Hh]. intros f Hf. apply Hk. rewrite bget_binsert_ne; [done|].
      intros E. destruct (Hi _ Hin) as [Hd|Hd]; rewrite E in Hd; [done|congruence].
    + apply elem_of_cons in Hin as [->|(c & -> & Hin)%list_elem_of_fmap]; [|by apply Hcr].
      exists nd. cbn. rewrite Sid. split_and!; try done. apply Hk. by rewrite bget_binsert_eq.
  - intros id f Hid. rewrite fmap_app, elem_of_app. apply Ho in Hid as [Hid|Hid].
    + destruct (decide (id = db_domain_id b)) as [->|Hne].
      * right. right. cbn. rewrite Sid. by left.
      * rewrite bget_binsert_ne in Hid by done. apply Hc in Hid. tauto.
    + right. right. cbn. right. by rewrite <-list_fmap_compose.
  - intros st. rewrite fmap_app, !elem_of_app. intros [Hin|Hin]; [apply Hi in Hin; tauto|].
    apply elem_of_cons in Hin as [->|(c & -> & Hin)%list_elem_of_fmap]; cbn.
    + left. right. rewrite Sid. by left.
    + right. destruct (Hcr _ Hin) as [Hn _]. cbn in Hn.
      destruct (bget (dd_domain_id (cd_descriptor c)) (fs_domains parent)) as [f|] eqn:E; [|done].
      destruct (Hsome (dd_domain_id (cd_descriptor c))) as [? ?]; [by eexists|congruence].
  - intros id [f Hf]%Hsome. apply Hk in Hf. by eexists.
Qed.

Lemma run_all_ok parent height ts proposer batches x :
  0 ≤ height → NoDup (db_domain_id <$> batches) →
  for_each (execute_one_batch parent height ts proposer)
    {| xs_state := parent; xs_domain_blocks := []; xs_executions := []; xs_aggregate_gas := 0 |}
    batches = Ok x → run_ok parent height batches x.
Proof.
  intros Hh. revert x. induction batches as [|b l IH] using rev_ind; intros x Hnd Hx.
  - injection Hx as <-. split; try done; cbn; [by intros st ?%elem_of_nil|auto|by intros st ?%elem_of_nil].
  - rewrite for_each_app in Hx. apply obind_Ok in Hx as (x1 & Hx1 & Hx). cbn in Hx.
    apply obind_Ok in Hx as (x2 & Hb & [= <-]). apply execute_one_batch_inv in Hb as (fd & nd & ex & Hst); [|done].
    rewrite fmap_app in Hnd. apply list.NoDup_app in Hnd as (Hnd & Hdis & _).
    eapply run_step; [by apply IH| |exact Hst]. intros Hin. apply (Hdis _ Hin). cbn. by left.
Qed.

(** What an execution leaves for storage. *)
Record proposal_run (parent : FinalizedChainState) (vp : ValidatedProposal) : Prop := {
  pr_height : ch_height (cb_header (vp_block vp)) = fs_height parent + 1 ∧
    fs_height (vp_resulting_state vp) = fs_height parent + 1;
  pr_root : ch_domain_heads_root (cb_header (vp_block vp)) = domain_heads_root (vp_resulting_state vp);
  pr_hash : consensus_header_hash (cb_header (vp_block vp)) = Ok (fs_consensus_hash (vp_resulting_state vp));
  pr_lengths : length (cb_domain_blocks (vp_block vp)) = length (cb_batches (vp_block vp)) ∧
    length (vp_executions vp) = length (cb_batches (vp_block vp));
  pr_heads : ∀ st, st ∈ proposal_states vp → heads (vp_resulting_state vp) st;
  pr_changed : ∀ id fd, bget id (fs_domains (vp_resulting_state vp)) = Some fd →
    bget id (fs_domains parent) = Some fd ∨ id ∈ ds_domain_id <$> proposal_states vp;
}.

Lemma executed_proposal_run parent batches ts proposer vp :
  0 ≤ fs_height parent → ensure_batch_order batches = Ok tt → execute parent batches ts proposer = Ok vp →
  proposal_run parent vp.
Proof.
  intros Hh Ho. apply ensure_batch_order_Ok, sorted_batches_NoDup in Ho. unfold execute. intros He.
  apply obind_Ok in He as ([] & _ & He). destruct (_ <? _); [done|].
  apply obind_Ok in He as (height & Hheight & He). apply ok_or_Ok, checked_add_Some in Hheight as [-> _].
  apply obind_Ok in He as (x & Hx & He). apply run_all_ok in Hx as [R1 R2 R3 R4 _ _]; [|lia|done].
  apply obind_Ok in He as (br & _ & He). apply obind_Ok in He as (rr & _ & He).
  apply obind_Ok in He as (enc & _ & He). destruct (_ <? _); [done|].
  apply obind_Ok in He as (hash & Hhash & [= <-]). unfold block_hash_of in Hhash. apply map_err_Ok in Hhash.
  split; cbn [vp_block vp_resulting_state vp_executions fs_height fs_consensus_hash fs_domains cb_batches cb_header
    cb_domain_blocks ch_height ch_domain_heads_root].
  - done.
  - unfold domain_heads_root. cbn [fs_domains]. reflexivity.
  - exact Hhash.
  - done.
  - exact R3.
  - exact R4.
Qed.

Lemma typed_snapshot s : state_typed s → wf_snapshot (es_accounts s).
Proof.
  intros [Hr [Hl Hlk] Hn _ _]. destruct Hn as [Hs Ha]. destruct (addressed_keys _ (conj Hs Ha)) as [_ Hk].
  by split_and!.
Qed.

Lemma execution_states_wf height header execution :
  u64 height → wf_domain_header header → execution_typed execution →
  Forall wf_state (execution_states height (header, execution)).
Proof.
  intros Hh (_ & Hid & _ & _ & Hch & _) [Hs _ _ _ Hc]. constructor.
  - split_and!; [done|done|by apply typed_snapshot].
  - apply Forall_fmap. eapply list.Forall_impl; [exact Hc|]. intros c [Hd Hst]. split_and!; cbn; [apply Hd|done|].
    by apply typed_snapshot.
Qed.

Lemma run_states_wf height blocks executions :
  u64 height → Forall wf_domain_header blocks → Forall execution_typed executions →
  Forall wf_state (run_states height blocks executions).
Proof.
  intros Hh Hb Hx. apply list.Forall_forall. unfold run_states. intros st ([hd ex] & Hst & Hin)%list_elem_of_bind.
  rewrite list.Forall_forall in Hb. rewrite list.Forall_forall in Hx.
  pose proof (elem_of_zip_l _ _ _ _ Hin) as Hin1. pose proof (elem_of_zip_r _ _ _ _ Hin) as Hin2.
  pose proof (execution_states_wf height hd ex Hh (Hb _ Hin1) (Hx _ Hin2)) as Hw.
  rewrite list.Forall_forall in Hw. by apply Hw.
Qed.

Lemma proposal_batch_wf parent batches ts proposer vp b hash encoded :
  chain_typed parent → u64 ts → is_address proposer → execute parent batches ts proposer = Ok vp →
  proposal_batch vp b hash encoded → wf_batch b.
Proof.
  intros Hp Hts Hpr He [Eh _ Em Es _ Ec].
  destruct (execute_typed _ _ _ _ _ Hp Hts Hpr He) as (_ & ((_ & _ & Hheight & _ & _ & _ & _ & Hroot & _) & _ & Hblocks & _) & Hx).
  split_and!; [|rewrite Es; by apply run_states_wf|done]. rewrite Em. split_and!; cbn; [done| |done].
  unfold consensus_header_hash in Eh. apply obind_Ok in Eh as (e & _ & [= <-]). apply keccak256_length.
Qed.

(** ** What a database recovers to *)

Definition state_marker (s : FinalizedChainState) : FinalizedMarker :=
  {| mk_height := fs_height s; mk_consensus_hash := fs_consensus_hash s;
     mk_domain_heads_root := domain_heads_root s |}.

(** The fields of a genesis as the types of the code make them. *)
Definition genesis_wf (g : DevGenesis) : Prop :=
  is_b256 (gn_network_id g) ∧ is_b256 (gn_genesis_hash g) ∧ u64 (gn_timestamp g) ∧
  is_b256 (gn_root_domain_id g) ∧ config_typed (gn_root_config g) ∧ is_address (gn_reward_address g) ∧
  is_address (gn_governance_address g).

(** The states reached from [s0] by replaying the stored blocks one after another. *)
Inductive replayed (d : Storage.Database) (s0 : FinalizedChainState) : FinalizedChainState → Prop :=
| replayed_none : replayed d s0 s0
| replayed_next s block encoded vp :
    replayed d s0 s → stored d COLUMN_INDEXES (block_key (fs_height s + 1)) = Some encoded →
    decode_consensus_block encoded = Ok block → validate_proposal s block = Ok vp →
    replayed d s0 (vp_resulting_state vp).

(** The database holds what reopening needs to reach [s]. *)
Record recoverable (g : DevGenesis) (d : Storage.Database) (s : FinalizedChainState) : Prop := {
  rv_genesis : ∃ fp, fingerprint g = Ok fp ∧ stored d COLUMN_INDEXES KEY_DEV_GENESIS = Some fp;
  rv_checkpoint : stored d COLUMN_INDEXES KEY_DEV_CHECKPOINT = None;
  rv_chain : ∃ s0, chain_state g = Ok s0 ∧ fs_height s0 = 0 ∧ replayed d s0 s;
  rv_height : 0 ≤ fs_height s;
  rv_typed : chain_typed s;
  rv_ok : chain_ok (fs_height s) s;
  rv_marker : stored d COLUMN_META KEY_MARKER = Some (encode_marker (state_marker s));
  rv_wal : stored d COLUMN_INDEXES KEY_DEV_WAL = Some (encode_dev_wal (state_marker s));
  rv_heads : ∀ id fd, bget id (fs_domains s) = Some fd →
    stored d COLUMN_META (head_key id) =
      Some (encode_head (dh_consensus_height (fd_header fd)) (dh_state_root (fd_header fd)));
}.

Lemma block_key_inj h h' : u64 h → u64 h' → block_key h = block_key h' → h = h'.
Proof. unfold block_key. intros Hh Hh' E. apply app_inv_head in E. by apply to_be_bytes_inj in E. Qed.

Lemma validated_height s block vp :
  0 ≤ fs_height s → validate_proposal s block = Ok vp → fs_height (vp_resulting_state vp) = fs_height s + 1.
Proof. intros Hh (_ & Ho & He)%validated_inv. by apply executed_proposal_run in He as [[_ ?] _ _ _ _ _]. Qed.

Lemma replayed_nonneg d s0 s : fs_height s0 = 0 → replayed d s0 s → 0 ≤ fs_height s.
Proof.
  intros H0' Hr. induction Hr as [|s block encoded vp _ IH _ _ Hv]; [lia|].
  apply validated_height in Hv; [lia|done].
Qed.

Lemma replayed_mono d d' s0 s :
  fs_height s0 = 0 →
  (∀ h, 0 < h ≤ fs_height s → stored d' COLUMN_INDEXES (block_key h) = stored d COLUMN_INDEXES (block_key h)) →
  replayed d s0 s → replayed d' s0 s.
Proof.
  intros H0' Hk Hr. induction Hr as [|s block encoded vp Hr IH Hs Hd Hv]; [constructor|].
  pose proof (replayed_nonneg _ _ _ H0' Hr) as Hnn. apply validated_height in Hv as Hh; [|done].
  apply (replayed_next _ _ s block encoded vp); [|by rewrite Hk by lia|exact Hd|exact Hv]. apply IH. intros h Hlt. apply Hk. lia.
Qed.

Lemma replay_exact d s0 s :
  fs_height s0 = 0 → answers d → replayed d s0 s →
  for_each (replay_height d) s0 (seqZ 1 (fs_height s)) = Ok s.
Proof.
  intros H0' Ha Hr. induction Hr as [|s block encoded vp Hr IH Hs Hd Hv]; [by rewrite H0'|].
  pose proof (replayed_nonneg _ _ _ H0' Hr) as Hnn. apply validated_height in Hv as Hh; [|done].
  assert (replay_height d s (fs_height s + 1) = Ok (vp_resulting_state vp)) as Hstep.
  { unfold replay_height, db_index. rewrite get_answer, Hs by done. cbn [db_err storage_err map_err ok_or obind].
    rewrite Hd. cbn [chain_err map_err obind]. by rewrite Hv. }
  rewrite Hh, seqZ_app by lia. rewrite for_each_app, IH. cbn [obind].
  replace (seqZ (1 + fs_height s) 1) with [fs_height s + 1] by (rewrite seqZ_cons by lia; cbn; f_equal; lia).
  cbn [for_each]. by rewrite Hstep.
Qed.

Lemma chain_state_start g s0 :
  genesis_wf g → chain_state g = Ok s0 →
  chain_typed s0 ∧ chain_ok 0 s0 ∧ fs_height s0 = 0 ∧ fs_consensus_hash s0 = gn_genesis_hash g ∧
  ∃ fd, fs_domains s0 = [(gn_root_domain_id g, fd)] ∧ dh_consensus_height (fd_header fd) = 0 ∧
    dh_state_root (fd_header fd) = snap_root (es_accounts (fd_state fd)) ∧ state_typed (fd_state fd).
Proof.
  intros (G1 & G2 & G3 & G4 & G5 & G6 & G7). unfold chain_state. intros Hc.
  apply obind_Ok in Hc as (vh & Hvh & Hc). apply obind_Ok in Hc as (st & Hst & Hc). apply map_err_Ok in Hvh, Hc.
  assert (state_typed st) as Hty.
  { unfold execution_state in Hst. destruct (negb _); [done|]. destruct (negb _); [done|].
    apply obind_Ok in Hst as (storage & _ & Hst). by apply map_err_Ok, from_genesis_typed in Hst. }
  assert (is_b256 vh) as Hv.
  { unfold validator_set_hash in Hvh. apply obind_Ok in Hvh as (u & _ & Hvh). apply obind_Ok in Hvh as (x & _ & [= <-]). apply keccak256_length. }
  split_and!.
  - by eapply genesis_typed in Hc.
  - by eapply genesis_ok.
  - unfold genesis in Hc. apply obind_Ok in Hc as ([] & _ & Hc). by apply obind_Ok in Hc as (h & _ & [= <-]).
  - unfold genesis in Hc. apply obind_Ok in Hc as ([] & _ & Hc). by apply obind_Ok in Hc as (h & _ & [= <-]).
  - unfold genesis in Hc. apply obind_Ok in Hc as ([] & _ & Hc). apply obind_Ok in Hc as (h & _ & [= <-]).
    eexists. split; [reflexivity|]. done.
Qed.

(** ** Recoverability is kept *)

Lemma lasts_recoverable g d d' s : lasts d d' → recoverable g d s → recoverable g d' s.
Proof.
  intros Hl [(fp & F1 & F2) C (s0 & S1 & S2 & S3) Hh T O M W Hd].
  assert (∀ k, stored d' COLUMN_INDEXES k = stored d COLUMN_INDEXES k) as Hi by (intros k; apply Hl; by left).
  split; rewrite ?Hi; try done.
  - by exists fp.
  - exists s0. split_and!; try done. eapply replayed_mono; [done| |done]. intros h _. apply Hi.
  - rewrite Hl; [done|]. right. auto.
  - intros id fd Hid. rewrite Hl; [auto|]. right. eauto.
Qed.

(** The keys of a proposal's batch, besides its block and the WAL, are locations. *)
Lemma proposal_key_other vp b hash encoded k :
  proposal_batch vp b hash encoded → k ≠ block_key (ch_height (cb_header (vp_block vp))) → k ≠ KEY_DEV_WAL →
  (∀ h, k ≠ tx_location_key h) → k ∉ iv_key <$> cm_indexes b.
Proof.
  intros [_ _ _ _ (locs & -> & Hf) _] Hb Hw Ht. cbn. rewrite !not_elem_of_cons. split_and!; [done|done|].
  intros (i & -> & Hi)%list_elem_of_fmap. rewrite list.Forall_forall in Hf. destruct (Hf _ Hi) as [h E]. by apply (Ht h).
Qed.

Lemma marker_of_run parent vp :
  proposal_run parent vp →
  proposal_marker vp (fs_consensus_hash (vp_resulting_state vp)) = state_marker (vp_resulting_state vp).
Proof. intros [[E1 E2] E3 _ _ _ _]. unfold proposal_marker, state_marker. congruence. Qed.

Lemma committed_heads parent vp b hash encoded d d' :
  proposal_run parent vp → proposal_batch vp b hash encoded → committed d b d' →
  chain_typed (vp_resulting_state vp) →
  (∀ id fd, bget id (fs_domains parent) = Some fd → stored d COLUMN_META (head_key id) =
    Some (encode_head (dh_consensus_height (fd_header fd)) (dh_state_root (fd_header fd)))) →
  ∀ id fd, bget id (fs_domains (vp_resulting_state vp)) = Some fd → stored d' COLUMN_META (head_key id) =
    Some (encode_head (dh_consensus_height (fd_header fd)) (dh_state_root (fd_header fd))).
Proof.
  intros [_ _ _ _ Hheads Hch] [_ _ _ Es _ _] [_ _ _ Chead Cother] Hty Hd id fd Hid. rewrite Es in Chead, Cother.
  destruct (decide (id ∈ ds_domain_id <$> proposal_states vp)) as [(st & -> & Hst)%list_elem_of_fmap|Hn].
  - destruct (Hheads _ Hst) as (fd' & Hf & E1 & E2). rewrite (Chead _ Hst), E1, E2. congruence.
  - destruct (Hch _ _ Hid) as [Hp|?]; [|done]. rewrite Cother; [by apply Hd| |done].
    by apply (ty_domains _ Hty) in Hid as [? _ _ _ _].
Qed.

Lemma commit_recoverable g d d' s batches ts proposer vp retention b :
  recoverable g d s → u64 ts → is_address proposer → ensure_batch_order batches = Ok tt →
  execute s batches ts proposer = Ok vp → proposal_commit_batch vp retention = Ok b →
  committed d b d' → recoverable g d' (vp_resulting_state vp).
Proof.
  intros [(fp & F1 & F2) C (s0 & S1 & S2 & S3) Hh T O M W Hd] Hts Hpr Ho He Hb Hc.
  pose proof (executed_proposal_run _ _ _ _ _ Hh Ho He) as Hrun. destruct (pr_lengths _ _ Hrun) as [L1 L2].
  destruct (proposal_commit_batch_inv _ _ _ L1 L2 Hb) as (hash & encoded & Hpb).
  destruct (execute_typed _ _ _ _ _ T Hts Hpr He) as (T' & Hw & _).
  destruct (pr_height _ _ Hrun) as [Eh Eh'].
  assert (hash = fs_consensus_hash (vp_resulting_state vp)) as ->.
  { pose proof (pb_hash _ _ _ _ Hpb). pose proof (pr_hash _ _ Hrun). congruence. }
  pose proof (marker_of_run _ _ Hrun) as Em.
  assert (∀ k, k ≠ block_key (fs_height s + 1) → k ≠ KEY_DEV_WAL → (∀ h, k ≠ tx_location_key h) →
    stored d' COLUMN_INDEXES k = stored d COLUMN_INDEXES k) as Hk.
  { intros k K1 K2 K3. apply (ct_other_index _ _ _ Hc). eapply proposal_key_other; [exact Hpb|by rewrite Eh|done|done]. }
  destruct (pb_indexes _ _ _ _ Hpb) as (locs & Ei & _).
  split; try done.
  - exists fp. split; [done|]. by rewrite Hk.
  - by rewrite Hk.
  - exists s0. split_and!; [done|done|]. apply (replayed_next _ _ s (vp_block vp) encoded).
    + eapply replayed_mono; [done| |exact S3]. intros h Hlt. apply Hk; [|done|done].
      intros E%block_key_inj; [lia| |]; pose proof (ty_height _ T') as Hu; unfold fits in *; lia.
    + rewrite <-Eh. apply (ct_index _ _ _ Hc {| iv_key := _; iv_value := _ |}). rewrite Ei. by left.
    + apply decode_block_accepts; [done|]. by apply pb_encoded in Hpb.
    + by eapply executed_validates.
  - lia.
  - apply ensure_batch_order_Ok in Ho. exact (po_chain _ _ _ _ (execute_proposal_ok _ _ _ _ _ O Hh Ho He)).
  - rewrite (ct_marker _ _ _ Hc), (pb_marker _ _ _ _ Hpb). by rewrite Em.
  - rewrite <-Em. apply (ct_index _ _ _ Hc {| iv_key := _; iv_value := _ |}). rewrite Ei. right. by left.
  - by eapply committed_heads.
Qed.

(** Initializing an empty database makes it recover to the genesis state. *)
Lemma initialize_recoverable g d s0 fp r d' :
  genesis_wf g → fingerprint g = Ok fp → chain_state g = Ok s0 →
  stored d COLUMN_INDEXES KEY_DEV_CHECKPOINT = None →
  initialize_database d g s0 fp = (Ok r, d') → recoverable g d' s0.
Proof.
  intros Hg Hfp Hs0 Hck. destruct (chain_state_start _ _ Hg Hs0) as (T & O & H0' & Hhash & fd & Ed & Eh & Er & Hst).
  unfold initialize_database, domain. rewrite Ed. cbn [bget]. rewrite teqb_refl.
  set (b := {| cm_marker := _ |}). destruct (database_commit d b) as [r0 d1] eqn:Hc. intros [= Hr <-].
  apply obind_Ok in Hr as (st & Hr & _). apply map_err_Ok in Hr as ->.
  apply commit_effects in Hc as [CM CI CO CH CK].
  2: { pose proof (ty_height _ T). split_and!; [| |apply Hst].
       - unfold b. split_and!; cbn [cm_marker mk_height mk_consensus_hash mk_domain_heads_root];
           [unfold fits; lia|apply Hg|apply heads_root_typed].
       - constructor; [|constructor]. split_and!; cbn [ds_domain_id ds_consensus_height ds_snapshot];
           [apply Hg|rewrite Eh; unfold fits; lia|by apply typed_snapshot]. }
  assert (state_marker s0 = cm_marker b) as Em by (unfold state_marker; rewrite H0', Hhash; reflexivity).
  split.
  - exists fp. split; [done|]. apply (CI {| iv_key := _; iv_value := _ |}). by left.
  - rewrite CO; [done|]. unfold b. cbn [cm_indexes fmap list_fmap iv_key].
    rewrite !not_elem_of_cons, elem_of_nil. split_and!; done || tauto.
  - exists s0. split_and!; [done|done|constructor].
  - lia.
  - exact T.
  - by rewrite H0'.
  - rewrite Em. exact CM.
  - rewrite Em. apply (CI {| iv_key := _; iv_value := _ |}). right. by left.
  - intros id f Hid. rewrite Ed in Hid. cbn in Hid. destruct (teqb id _) eqn:E; [|done]. apply teqb_eq in E as ->.
    injection Hid as <-. rewrite Er. exact (CH {| ds_domain_id := _ |} (list_elem_of_here _ _)).
Qed.

(** ** Opening *)

(** The chain ID of a domain. *)
Definition chain_id_of (s : FinalizedChainState) (id : DomainId) : option Z :=
  (λ fd, dc_chain_id (fd_config fd)) <$> bget id (fs_domains s).

(** The routes of a pool are the domains of a chain state. *)
Definition routes (s : FinalizedChainState) (pool : Mempool) : Prop :=
  ∀ id, bget id (Mempool.chain_ids pool) = chain_id_of s id.

Lemma register_new pool id c :
  pool_inv pool → c ≠ 0 → bget id (Mempool.chain_ids pool) = None →
  (∀ id', bget id' (Mempool.chain_ids pool) ≠ Some c) →
  ∃ pool', register_domain pool id c = Ok pool' ∧ pool_inv pool' ∧
    Mempool.chain_ids pool' = binsert id c (Mempool.chain_ids pool) ∧ pool_entries pool' = pool_entries pool.
Proof.
  intros Hinv Hc Hid Hnew. assert (register_domain pool id c =
    Ok {| Mempool.config := Mempool.config pool; Mempool.chain_ids := binsert id c (Mempool.chain_ids pool);
          used_chain_ids := binsert c tt (used_chain_ids pool); pool_entries := pool_entries pool;
          sender_counts := sender_counts pool |}) as Hr.
  { unfold register_domain. rewrite (proj2 (Z.eqb_neq _ _) Hc), Hid.
    destruct (bcontains c (used_chain_ids pool)) eqn:Hu; [|done].
    apply bcontains_true in Hu. apply (inv_used _ Hinv) in Hu as [id' Hu]. by destruct (Hnew id'). }
  eexists. split; [exact Hr|]. by apply register_inv in Hr as [? _].
Qed.

(** Registering domains with distinct identifiers and distinct chain IDs. *)
Lemma register_all pool domains :
  pool_inv pool → NoDup domains.*1 → NoDup (dc_chain_id ∘ fd_config <$> domains.*2) →
  (∀ e, e ∈ domains → dc_chain_id (fd_config e.2) ≠ 0 ∧ bget e.1 (Mempool.chain_ids pool) = None ∧
    ∀ id, bget id (Mempool.chain_ids pool) ≠ Some (dc_chain_id (fd_config e.2))) →
  ∃ pool', for_each register_finalized pool domains = Ok pool' ∧ pool_inv pool' ∧
    pool_entries pool' = pool_entries pool ∧
    ∀ id, bget id (Mempool.chain_ids pool') =
      match bget id domains with
      | Some fd => Some (dc_chain_id (fd_config fd))
      | None => bget id (Mempool.chain_ids pool)
      end.
Proof.
  revert pool. induction domains as [|[id fd] domains IH]; intros pool Hinv Hn Hc Hnew.
  { exists pool. by split_and!. }
  cbn in Hn, Hc. apply list.NoDup_cons in Hn as [Hid Hn], Hc as [Hcid Hc].
  destruct (Hnew (id, fd) (list_elem_of_here _ _)) as (H1' & H2' & H3'). cbn in H1', H2', H3'.
  destruct (register_new pool id (dc_chain_id (fd_config fd))) as (p1 & Hr & Hinv1 & Ec & Ee); try done.
  destruct (IH p1 Hinv1 Hn Hc) as (p2 & Hf & Hinv2 & Ee2 & Hget).
  { intros [id' fd'] Hin. destruct (Hnew (id', fd') (list_elem_of_further _ _ _ Hin)) as (N1 & N2 & N3). cbn in *.
    assert (id' ≠ id) as Hne by (intros ->; apply Hid, list_elem_of_fmap; by exists (id, fd')).
    split_and!; [done|by rewrite Ec, bget_binsert_ne|]. intros id''. rewrite Ec, bget_binsert.
    destruct (teqb id'' id); [|done]. intros [= E]. apply Hcid, list_elem_of_fmap. exists fd'. split; [done|].
    apply list_elem_of_fmap. by exists (id', fd'). }
  exists p2. split_and!; [|done|congruence|].
  - cbn [for_each]. unfold register_finalized at 1. cbn [fst snd]. rewrite Hr. exact Hf.
  - intros id'. rewrite Hget. cbn [bget]. rewrite Ec, bget_binsert. destruct (teqb id' id) eqn:E; [|done].
    apply teqb_eq in E as ->. destruct (bget id domains) as [f|] eqn:Hb; [|done].
    apply bget_elem_of in Hb. destruct Hid. apply list_elem_of_fmap. by exists (id, f).
Qed.

Lemma register_finalized_all config s :
  chain_ok (fs_height s) s →
  ∃ pool, for_each register_finalized (new_pool config) (fs_domains s) = Ok pool ∧ pool_inv pool ∧
    pool_entries pool = [] ∧ routes s pool.
Proof.
  intros [Hs _ Hd Hc _ _ _ _].
  destruct (register_all (new_pool config) (fs_domains s)) as (pool & Hf & Hinv & He & Hg).
  - apply new_inv.
  - by apply sorted_NoDup.
  - unfold ChainState.chain_ids, bvalues in Hc. exact Hc.
  - intros [id fd] Hin. split_and!; [|done|done]. cbn. apply (elem_of_bget _ _ _ Hs), Hd in Hin as [Hcfg _ _ _ _ _].
    unfold validate_config in Hcfg. by destruct (Z.eqb_spec (dc_chain_id (fd_config fd)) 0).
  - exists pool. split_and!; try done.
Qed.

Lemma verify_heads d s :
  answers d → chain_typed s →
  (∀ id fd, bget id (fs_domains s) = Some fd → stored d COLUMN_META (head_key id) =
    Some (encode_head (dh_consensus_height (fd_header fd)) (dh_state_root (fd_header fd)))) →
  for_each (verify_head d) tt (fs_domains s) = Ok tt.
Proof.
  intros Ha Hty Hd. apply for_each_unit, list.Forall_forall. intros [id fd] Hin.
  apply (elem_of_bget _ _ _ (proj1 (ty_sorted _ Hty))) in Hin. unfold verify_head, latest_head.
  rewrite get_answer, (Hd _ _ Hin) by done. apply (ty_domains _ Hty) in Hin as [_ _ (_ & _ & _ & _ & Hch & _ & Hr & _) _ _].
  cbn [db_err map_err obind decoded]. rewrite decode_encode_head by done. cbn.
  by rewrite Z.eqb_refl, bool_decide_true.
Qed.

Lemma recover_exact fuel g d s fp s0 :
  recoverable g d s → answers d → fingerprint g = Ok fp → chain_state g = Ok s0 →
  recover fuel d g fp s0 (state_marker s) = Ok s.
Proof.
  intros [(fp' & F1 & F2) C (s0' & S1 & S2 & S3) Hh T O M W Hd] Ha Hfp Hs0.
  assert (fp' = fp) as -> by congruence. assert (s0' = s0) as -> by congruence.
  assert (∀ k, storage_err (db_index d k) = Ok (stored d COLUMN_INDEXES k)) as Hi.
  { intros k. unfold db_index. by rewrite get_answer. }
  unfold recover. rewrite Hi, F2. cbn [ok_or obind]. rewrite bool_decide_true by done. cbn [negb].
  unfold load_development_checkpoint. rewrite Hi, C. cbn [obind]. rewrite S2.
  change (saturating_add 64 0 1) with 1. cbn [state_marker mk_height].
  replace (fs_height s - 1 + 1) with (fs_height s) by lia. rewrite (replay_exact _ _ _ S2 Ha S3). cbn [obind].
  assert (verify_recovered d s (state_marker s) = Ok tt) as ->; [|done].
  unfold verify_recovered. cbn [state_marker mk_height mk_consensus_hash mk_domain_heads_root].
  rewrite Z.eqb_refl, !bool_decide_true by done. cbn [negb orb]. rewrite Hi, W. cbn [ok_or obind].
  rewrite bool_decide_true by done. cbn [negb]. by apply verify_heads.
Qed.

(** Opening a recoverable database gives an engine at its state. *)
Lemma open_recovers fuel g d s config retention :
  recoverable g d s → answers d →
  ∃ pool, open_with_history fuel DevValidator d g config retention =
    (Ok {| en_database := d; en_genesis := g; en_finalized := s; en_mempool := pool; en_pending := None;
           en_events := []; en_scheduler_cursor := 0; en_history_retention := retention |}, d) ∧
    pool_inv pool ∧ pool_entries pool = [] ∧ routes s pool.
Proof.
  intros Hrec Ha. destruct (rv_genesis _ _ _ Hrec) as (fp & Hfp & _).
  destruct (rv_chain _ _ _ Hrec) as (s0 & Hs0 & _).
  destruct (register_finalized_all config s (rv_ok _ _ _ Hrec)) as (pool & Hpool & Hp). exists pool. split; [|done].
  assert (finalized_marker d = Ok (Some (state_marker s))) as Hm.
  { unfold finalized_marker. rewrite get_answer, (rv_marker _ _ _ Hrec) by done. cbn [db_err map_err obind decoded].
    rewrite decode_encode_marker; [done|]. destruct (rv_typed _ _ _ Hrec).
    split_and!; [done|done|apply heads_root_typed]. }
  unfold open_with_history. rewrite Hfp, Hs0. cbn [obind]. rewrite Hm. cbn [storage_err map_err obind].
  rewrite (recover_exact fuel _ _ _ _ _ Hrec Ha Hfp Hs0). cbn [obind]. by rewrite Hpool.
Qed.

(** ** Routes *)

(** Chain IDs after domains were created. *)
Definition with_created (ids : DomainId → option Z) (created : list CreatedDomain) : DomainId → option Z :=
  foldl (λ ids c id, if teqb id (dd_domain_id (cd_descriptor c)) then Some (dd_evm_chain_id (cd_descriptor c))
                     else ids id) ids created.

Lemma with_created_ext f g created : (∀ id, f id = g id) → ∀ id, with_created f created id = with_created g created id.
Proof.
  revert f g. induction created as [|c created IH]; intros f g Hfg; cbn; [done|]. apply IH. intros id. by rewrite Hfg.
Qed.

Lemma with_created_app f c1 c2 : with_created f (c1 ++ c2) = with_created (with_created f c1) c2.
Proof. unfold with_created. by rewrite foldl_app. Qed.

Lemma register_routes pool id c pool' :
  register_domain pool id c = Ok pool' →
  ∀ id', bget id' (Mempool.chain_ids pool') = if teqb id' id then Some c else bget id' (Mempool.chain_ids pool).
Proof.
  unfold register_domain. intros Hr id'. destruct (c =? 0); [done|].
  destruct (bget id (Mempool.chain_ids pool)) as [c0|] eqn:Hid.
  - destruct (Z.eqb_spec c0 c) as [->|]; [|done]. injection Hr as <-. destruct (teqb id' id) eqn:E; [|done].
    by apply teqb_eq in E as ->.
  - destruct (bcontains c _); [done|]. injection Hr as <-. cbn. by rewrite bget_binsert.
Qed.

Lemma register_created_routes pool created pool' :
  pool_inv pool → for_each register_created pool created = Ok pool' →
  pool_inv pool' ∧ pool_entries pool' = pool_entries pool ∧ Mempool.config pool' = Mempool.config pool ∧
  ∀ id, bget id (Mempool.chain_ids pool') = with_created (λ id, bget id (Mempool.chain_ids pool)) created id.
Proof.
  revert pool. induction created as [|c created IH]; intros pool Hinv Hf; cbn [for_each] in Hf.
  { injection Hf as <-. by split_and!. }
  apply obind_Ok in Hf as (p1 & Hr & Hf). apply map_err_Ok in Hr.
  destruct (register_inv _ _ _ _ Hinv Hr) as (Hinv1 & _ & E1 & E2 & _).
  destruct (IH _ Hinv1 Hf) as (Hinv2 & E3 & E4 & Hg). split_and!; [done|congruence|congruence|].
  intros id. rewrite Hg. cbn. apply with_created_ext. by apply register_routes.
Qed.

Lemma insert_all_routes height s created s' :
  for_each (insert_created_domain height) s created = Ok s' →
  ∀ id, chain_id_of s' id = with_created (chain_id_of s) created id.
Proof.
  revert s. induction created as [|c created IH]; intros s Hf id; cbn [for_each] in Hf; [by injection Hf as <-|].
  apply obind_Ok in Hf as (s1 & Hi & Hf). apply insert_created_inv in Hi as (fd & Ed & _ & _ & _ & Ec & _).
  rewrite (IH _ Hf). cbn. apply with_created_ext. intros id'. unfold chain_id_of. rewrite Ed, bget_binsert.
  destruct (teqb id' _); [|done]. cbn. by rewrite Ec.
Qed.

Lemma run_routes parent height ts proposer batches x :
  chain_ok (fs_height parent) parent → fs_height parent ≤ height → 0 ≤ height →
  NoDup (db_domain_id <$> batches) →
  for_each (execute_one_batch parent height ts proposer)
    {| xs_state := parent; xs_domain_blocks := []; xs_executions := []; xs_aggregate_gas := 0 |}
    batches = Ok x →
  ∀ id, chain_id_of (xs_state x) id = with_created (chain_id_of parent) (xs_executions x ≫= er_created_domains) id.
Proof.
  intros Hok Hle Hh. revert x. induction batches as [|b l IH] using rev_ind; intros x Hnd Hx id.
  - by injection Hx as <-.
  - rewrite for_each_app in Hx. apply obind_Ok in Hx as (x1 & Hx1 & Hx). cbn [for_each] in Hx.
    apply obind_Ok in Hx as (x2 & Hb & [= <-]).
    apply execute_one_batch_inv in Hb as (fd & nd & ex & [Sd _ Scf _ _ _ _ _ _ _ Scr _ Sx _ _ _]); [|done].
    rewrite fmap_app in Hnd. apply list.NoDup_app in Hnd as (Hnd & Hdis & _).
    rewrite Sx, bind_app, with_created_app. cbn [mbind list_bind]. rewrite app_nil_r, (insert_all_routes _ _ _ _ Scr).
    apply with_created_ext. intros id'. rewrite <-(IH x1 Hnd Hx1 id'). unfold chain_id_of.
    cbn [with_domains fs_domains]. rewrite bget_binsert. destruct (teqb id' _) eqn:E; [|done]. apply teqb_eq in E as ->.
    assert (executed_ok parent height l x1) as Hx1' by (by eapply executed_run).
    rewrite (ex_untouched _ _ _ _ Hx1' _ _ Sd); [cbn; by rewrite Scf|].
    intros Hin. apply (Hdis _ Hin). cbn. by left.
Qed.

Lemma executed_routes parent batches ts proposer vp :
  chain_ok (fs_height parent) parent → 0 ≤ fs_height parent → ensure_batch_order batches = Ok tt →
  execute parent batches ts proposer = Ok vp →
  ∀ id, chain_id_of (vp_resulting_state vp) id =
    with_created (chain_id_of parent) (vp_executions vp ≫= er_created_domains) id.
Proof.
  intros Hok Hh Ho. apply ensure_batch_order_Ok, sorted_batches_NoDup in Ho. unfold execute. intros He id.
  apply obind_Ok in He as ([] & _ & He). destruct (_ <? _); [done|].
  apply obind_Ok in He as (height & Hheight & He). apply ok_or_Ok, checked_add_Some in Hheight as [-> _].
  apply obind_Ok in He as (x & Hx & He). apply run_routes with (id := id) in Hx; [|done|lia|lia|done].
  apply obind_Ok in He as (br & _ & He). apply obind_Ok in He as (rr & _ & He).
  apply obind_Ok in He as (enc & _ & He). destruct (_ <? _); [done|]. apply obind_Ok in He as (hash & _ & [= <-]).
  exact Hx.
Qed.
End proposals.
