(* ===== verification/EngineSteps.v ===== *)
(** The development engine as a state machine: every operation, whatever its outcome,
    keeps the engine and its database in step.

    Main results: [restart_exact] (an engine reopened on the database it leaves is at
    the state it had finalized), [engine_invariant] (the pool routes exactly the
    finalized domains, and a pending proposal is one the chain accepts next),
    [build_undone] (a failed or abandoned proposal leaves the engine as it was) and
    [commit_exact] (what a commit publishes, and that a failed one publishes
    nothing). *)

From Stdlib Require Import Strings.Byte.
From stdpp Require Import relations.
From S2P Require Import Prelude Bytes BTreeMap Primitives Canonical Cursor Rlp Crypto Ethereum StateError.
From S2P Require Import DomainHeads System Registry Trie Mpt MptBuild Account Overlay Mempool Storage Evm.
From S2P Require Import Executor Merkle ChainBlock ChainState Chain Typing DevGenesis EngineCheckpoint Engine.
From S2P Require Import EngineRestart.

Local Open Scope Z_scope.

Section steps.
Context `{Keccak, Secp256k1, AlloyRlp, !AlloyTrie, SenderRecovery, Journal, !Revm, AlloyRoots, ParityDb}.
Context `{!AlloyRlpLaws, !RevmTyped, !BloomTyped, !AlloyRootsLaws, !ParityDbLaws}.

(** A proposal that executes over the finalized state, with the entries it holds. *)
Record pending_ok (e : SingleValidatorEngine) (p : PendingProposal) : Prop := {
  pn_executes : ∃ batches ts, u64 ts ∧ ensure_batch_order batches = Ok tt ∧
    execute (en_finalized e) batches ts (gn_reward_address (en_genesis e)) = Ok (pp_proposal p);
  pn_id : block_hash_of (vp_block (pp_proposal p)) = Ok (pp_id p);
  pn_reserved : Forall (Mempool.entry_ok (en_mempool e)) (pp_reserved p);
}.

Record engine_ok (e : SingleValidatorEngine) : Prop := {
  eo_genesis : genesis_wf (en_genesis e);
  eo_recovers : recoverable (en_genesis e) (en_database e) (en_finalized e);
  eo_pool : pool_inv (en_mempool e);
  eo_routes : routes (en_finalized e) (en_mempool e);
  eo_pending : ∀ p, en_pending e = Some p → pending_ok e p;
}.

Definition returns {E A : Type} (r : outcome E A) : Prop := ∀ m, r ≠ Panic m.

(** One call on the engine, or a restart of the node on its database. An imported
    block has been decoded, so its fields have their types. *)
Inductive engine_step (e e' : SingleValidatorEngine) : Prop :=
| step_submit domain_id envelope r : submit_raw e domain_id envelope = (r, e') → engine_step e e'
| step_build timestamp r :
    u64 timestamp → engine_build_proposal e timestamp = (r, e') → engine_step e e'
| step_abandon id r : abandon_proposal e id = (r, e') → engine_step e e'
| step_commit id r : returns r → commit_proposal e id = (r, e') → engine_step e e'
| step_import block r :
    wf_consensus_block block → returns r → import_development_finalized_block e block = (r, e') →
    engine_step e e'
| step_produce timestamp r :
    u64 timestamp → returns r → produce_block e timestamp = (r, e') → engine_step e e'
| step_restart fuel config retention :
    answers (en_database e) →
    open_with_history fuel DevValidator (en_database e) (en_genesis e) config retention =
      (Ok e', en_database e) →
    engine_step e e'.

Lemma pending_keeps e e' p :
  en_finalized e' = en_finalized e → en_genesis e' = en_genesis e →
  Mempool.chain_ids (en_mempool e') = Mempool.chain_ids (en_mempool e) →
  Mempool.config (en_mempool e') = Mempool.config (en_mempool e) → pending_ok e p → pending_ok e' p.
Proof.
  intros E1 E2 E3 E4 [Hx Hi Hr]. split; [by rewrite E1, E2|done|]. eapply list.Forall_impl; [exact Hr|].
  intros x. apply Mempool.entry_ok_mono; [by rewrite E3|done].
Qed.

(** The pool changed, its routes and limits did not. *)
Lemma with_mempool_ok e pool :
  engine_ok e → pool_inv pool → Mempool.chain_ids pool = Mempool.chain_ids (en_mempool e) →
  Mempool.config pool = Mempool.config (en_mempool e) → engine_ok (with_mempool e pool).
Proof.
  intros [G R P T Pe] Hinv E1 E2. split; try done.
  - intros id. cbn. by rewrite E1.
  - intros p Hp. by apply (pending_keeps e); [..|apply Pe].
Qed.

Lemma with_pending_none e : engine_ok e → engine_ok (with_pending e None).
Proof. intros [G R P T Pe]. by split. Qed.

Lemma submit_ok e domain_id envelope r e' :
  engine_ok e → submit_raw e domain_id envelope = (r, e') → engine_ok e'.
Proof.
  intros Hok. unfold submit_raw. destruct (obind _ _) as [[pool st]|err|m] eqn:Hi; intros [= <- <-]; try done.
  apply obind_Ok in Hi as (tx & _ & Hi). apply obind_Ok in Hi as (sender & _ & Hi).
  apply obind_Ok in Hi as (dom & _ & Hi). apply obind_Ok in Hi as (n & _ & Hi). apply map_err_Ok in Hi.
  destruct (insert_inv _ _ _ _ _ _ (eo_pool _ Hok) Hi) as (Hp & E1 & E2). by apply with_mempool_ok.
Qed.

Lemma abandon_ok e id r e' : engine_ok e → abandon_proposal e id = (r, e') → engine_ok e'.
Proof.
  intros Hok. unfold abandon_proposal. destruct (en_pending e) as [p|] eqn:Hp; [|by intros [= _ <-]].
  destruct (bool_decide _); intros [= _ <-]; [|done]. pose proof (eo_pending _ Hok _ Hp) as [_ _ Hr].
  destruct (restore_inv _ _ (eo_pool _ Hok) Hr) as (Hi & E1 & E2).
  apply with_mempool_ok; [by apply with_pending_none|done..].
Qed.

(** What building leaves: the proposal pending over the pool without its entries,
    the pool restored, or the error of the first steps. *)
Lemma engine_build_ok e ts r e' : engine_ok e → u64 ts → engine_build_proposal e ts = (r, e') → engine_ok e'.
Proof.
  intros Hok Hts. unfold engine_build_proposal. destruct (en_pending e) eqn:Hp; [by intros [= _ <-]|].
  destruct (select_transactions e) as [selected|err|m]; [|by intros [= _ <-]..].
  set (hashes := bcollect _). destruct (reserve_hashes (en_mempool e) hashes) as [pool reserved] eqn:Hres.
  pose proof (reserve_inv (en_mempool e) hashes (eo_pool _ Hok)) as Hri. rewrite Hres in Hri.
  destruct Hri as (Hinv & Hent & E1 & E2). cbn [fst snd] in *.
  assert (Forall (Mempool.entry_ok pool) reserved) as Hent'.
  { eapply list.Forall_impl; [exact Hent|]. intros x. apply Mempool.entry_ok_mono; [by rewrite E1|done]. }
  assert (engine_ok (with_mempool e pool)) as Hok1 by (by apply with_mempool_ok).
  destruct (collect _ _) as [batches|err|m]; [|by intros [= _ <-]..].
  destruct (build_proposal _ _ _ _) as [vp|err|m] eqn:Hb; [| |by intros [= _ <-]].
  - destruct (block_hash_of (vp_block vp)) as [id|err|m] eqn:Hh; intros [= _ <-]; try done.
    destruct Hok1 as [G R P T Pe]. split; try done. intros p [= <-]. split; [|done|done].
    unfold build_proposal in Hb. apply obind_Ok in Hb as ([] & Ho & He). cbn. eauto.
  - intros [= _ <-]. destruct (restore_inv _ _ Hinv Hent') as (Hi & E3 & E4). by apply with_mempool_ok.
Qed.

Lemma with_database_ok e d :
  engine_ok e → recoverable (en_genesis e) d (en_finalized e) → engine_ok (with_database e d).
Proof. intros [G _ P T Pe] R. split; try done. intros p Hp. by apply (pending_keeps e); [..|apply Pe]. Qed.

(** A commit either publishes the proposal's state, with the pool routed to its
    domains, or changes nothing but the failed database. *)
Lemma commit_validated_ok e vp batches ts proposer r e' :
  engine_ok e → en_pending e = None → u64 ts → is_address proposer → ensure_batch_order batches = Ok tt →
  execute (en_finalized e) batches ts proposer = Ok vp → returns r → commit_validated e vp = (r, e') →
  engine_ok e' ∧
  match r with
  | Ok _ => en_finalized e' = vp_resulting_state vp ∧ en_genesis e' = en_genesis e ∧ en_pending e' = None
  | _ => ∃ database, e' = with_database e database ∧
      recoverable (en_genesis e) database (en_finalized e)
  end.
Proof.
  intros Hok Hpe Hts Hpr Ho He Hret. pose proof Hok as [G R P T _]. unfold commit_validated.
  destruct (prepare_commit e vp) as [[pool b]|err|m] eqn:Hprep.
  2,3: intros [= <- <-]; (split; [done|]); exists (en_database e); by destruct e.
  unfold prepare_commit in Hprep. apply obind_Ok in Hprep as (p1 & Hreg & Hprep).
  apply obind_Ok in Hprep as (b' & Hb & [= <- ->]).
  destruct (register_created_routes _ _ _ P Hreg) as (Hinv1 & _ & _ & Hroutes).
  set (hashes := bcollect _). destruct (reserve_inv p1 hashes Hinv1) as (Hinv2 & _ & Ec & _).
  destruct (database_commit (en_database e) b) as [r0 d1] eqn:Hc.
  assert (wf_batch b) as Hwf.
  { destruct (pr_lengths _ _ (executed_proposal_run _ _ _ _ _ (rv_height _ _ _ R) Ho He)) as [L1 L2].
    destruct (proposal_commit_batch_inv _ _ _ L1 L2 Hb) as (hash & encoded & Hpb).
    eapply proposal_batch_wf; [apply R|exact Hts|exact Hpr|exact He|exact Hpb]. }
  apply (commit_effects _ _ _ _ Hwf) in Hc. destruct r0 as [stats|err|m]; cbn [storage_err map_err]; intros [= <- <-].
  - split; [|done]. split; cbn [publish_finalized with_database en_genesis en_database en_finalized en_mempool en_pending].
    + exact G.
    + by eapply commit_recoverable.
    + exact Hinv2.
    + intros id. rewrite Ec, Hroutes, (executed_routes _ _ _ _ _ (rv_ok _ _ _ R) (rv_height _ _ _ R) Ho He).
      by apply with_created_ext.
    + by rewrite Hpe.
  - assert (recoverable (en_genesis e) d1 (en_finalized e)) as R1 by (by eapply lasts_recoverable).
    split; [by apply with_database_ok|]. by exists d1.
  - by destruct (Hret m).
Qed.

Lemma commit_ok e id r e' : engine_ok e → returns r → commit_proposal e id = (r, e') → engine_ok e'.
Proof.
  intros Hok Hret. unfold commit_proposal. destruct (en_pending e) as [p|] eqn:Hp; [|by intros [= _ <-]].
  destruct (bool_decide _); [|by intros [= _ <-]].
  pose proof (eo_pending _ Hok _ Hp) as [(batches & ts & Hts & Ho & He) Hid Hr].
  destruct (commit_validated (with_pending e None) (pp_proposal p)) as [r1 e1] eqn:Hc.
  intros Hres. assert (returns r1) as Hret1 by (intros m ->; injection Hres as <- _; by destruct (Hret m)).
  apply (commit_validated_ok _ _ batches ts (gn_reward_address (en_genesis e))) in Hc as [Hok1 Hc];
    [|by apply with_pending_none|done|done|by apply Hok|done|done|done].
  destruct r1 as [st|err|m]; injection Hres as _ <-; [done| |done].
  destruct Hc as (d1 & -> & Hrec), Hok1 as [G R P T _]. split; try done. intros p' [= <-]. by split; eauto.
Qed.

Lemma import_ok e block r e' :
  engine_ok e → wf_consensus_block block → returns r →
  import_development_finalized_block e block = (r, e') → engine_ok e'.
Proof.
  intros Hok ((_ & _ & _ & _ & Hts & _ & _ & _ & _ & _ & Hpr) & _) Hret. unfold import_development_finalized_block.
  destruct (en_pending e) eqn:Hp; [by intros [= _ <-]|].
  destruct (validate_proposal (en_finalized e) block) as [vp|err|m] eqn:Hv; cbn [chain_err map_err]; [|by intros [= _ <-]..].
  apply validated_inv in Hv as (_ & Ho & He). intros Hc. by eapply commit_validated_ok in Hc as [? _].
Qed.

Lemma produce_ok e ts r e' : engine_ok e → u64 ts → returns r → produce_block e ts = (r, e') → engine_ok e'.
Proof.
  intros Hok Hts Hret. unfold produce_block. destruct (engine_build_proposal e ts) as [[id|err|m] e1] eqn:Hb;
    apply engine_build_ok in Hb; [|done|done|by intros [= _ <-]|done|done|by intros [= _ <-]|done|done].
  destruct (commit_proposal e1 id) as [r2 e2] eqn:Hc. intros Hr. destruct r2 as [st|err|m]; injection Hr as <- <-.
  1,2: eapply commit_ok; [exact Hb| |exact Hc]; by intros ?.
  by destruct (Hret m).
Qed.

Lemma restart_ok fuel e config retention e' d' :
  engine_ok e → answers (en_database e) →
  open_with_history fuel DevValidator (en_database e) (en_genesis e) config retention = (Ok e', d') → engine_ok e'.
Proof.
  intros [G R P T Pe] Ha Hopen. destruct (open_recovers fuel _ _ _ config retention R Ha) as (pool & Ho & Hi & He & Hr).
  rewrite Ho in Hopen. injection Hopen as <- _. by split.
Qed.

Lemma engine_step_ok e e' : engine_step e e' → engine_ok e → engine_ok e'.
Proof.
  intros [] Hok; [by eapply submit_ok|by eapply engine_build_ok|by eapply abandon_ok|by eapply commit_ok
    |by eapply import_ok|by eapply produce_ok|by eapply restart_ok].
Qed.

Lemma first_open_ok fuel g d config retention e d' :
  genesis_wf g → stored d COLUMN_META KEY_MARKER = None → stored d COLUMN_INDEXES KEY_DEV_CHECKPOINT = None →
  open_with_history fuel DevValidator d g config retention = (Ok e, d') → engine_ok e ∧ en_genesis e = g.
Proof.
  intros Hg Hm Hck. unfold open_with_history. destruct (obind _ _) as [[[fp s0] marker]|err|m] eqn:Hp; [|done..].
  apply obind_Ok in Hp as (fp' & Hfp & Hp). apply obind_Ok in Hp as (s0' & Hs0 & Hp).
  apply obind_Ok in Hp as (mk & Hmk & [= -> -> ->]). apply map_err_Ok in Hmk. unfold finalized_marker in Hmk.
  apply obind_Ok in Hmk as (found & Hf & Hmk). apply map_err_Ok, get_stored in Hf as ->. rewrite Hm in Hmk.
  injection Hmk as <-. destruct (initialize_database d g s0 fp) as [r d1] eqn:Hinit. intros [= Hr <-].
  apply obind_Ok in Hr as (s & Hr & Hpool). apply obind_Ok in Hr as (u & -> & [= <-]).
  apply obind_Ok in Hpool as (pool & Hpool & [= <-]). apply initialize_recoverable in Hinit; [|done..].
  destruct (register_finalized_all config s0 (rv_ok _ _ _ Hinit)) as (pool' & Hpool' & Hi & _ & Hroutes).
  assert (pool' = pool) as -> by congruence. by split.
Qed.

Lemma step_genesis e e' : engine_step e e' → en_genesis e' = en_genesis e.
Proof.
  assert (∀ e vp r e', commit_validated e vp = (r, e') → en_genesis e' = en_genesis e) as Hcv.
  { intros x vp r x'. unfold commit_validated. destruct (prepare_commit x vp) as [[pool b]|err|m]; [|by intros [= _ <-]..].
    destruct (database_commit _ b) as [r0 d1]. destruct (storage_err r0); by intros [= _ <-]. }
  assert (∀ e id r e', commit_proposal e id = (r, e') → en_genesis e' = en_genesis e) as Hcp.
  { intros x id r x'. unfold commit_proposal. destruct (en_pending x) as [p|]; [|by intros [= _ <-]].
    destruct (bool_decide _); [|by intros [= _ <-]]. destruct (commit_validated _ _) as [r1 x1] eqn:Hc.
    apply Hcv in Hc. destruct r1; by intros [= _ <-]. }
  assert (∀ e ts r e', engine_build_proposal e ts = (r, e') → en_genesis e' = en_genesis e) as Hbp.
  { intros x ts r x'. unfold engine_build_proposal. destruct (en_pending x); [by intros [= _ <-]|].
    destruct (select_transactions x); [|by intros [= _ <-]..]. destruct (reserve_hashes _ _).
    destruct (collect _ _); [|by intros [= _ <-]..]. destruct (build_proposal _ _ _ _); [|by intros [= _ <-]..].
    destruct (chain_err _); by intros [= _ <-]. }
  intros [domain_id envelope r Hs|ts r _ Hs|id r Hs|id r _ Hs|block r _ _ Hs|ts r _ _ Hs|fuel config retention _ Hs].
  - unfold submit_raw in Hs. destruct (obind _ _) as [[? ?]| |]; by injection Hs as _ <-.
  - by eapply Hbp.
  - unfold abandon_proposal in Hs. destruct (en_pending e); [|by injection Hs as _ <-].
    destruct (bool_decide _); by injection Hs as _ <-.
  - by eapply Hcp.
  - unfold import_development_finalized_block in Hs. destruct (en_pending e); [by injection Hs as _ <-|].
    destruct (chain_err _); [by eapply Hcv|by injection Hs as _ <-..].
  - unfold produce_block in Hs. destruct (engine_build_proposal e ts) as [[id|err|m] e1] eqn:Hb; apply Hbp in Hb;
      [|by injection Hs as _ <-..]. destruct (commit_proposal e1 id) as [[st|err|m] e2] eqn:Hc; apply Hcp in Hc;
      injection Hs as _ <-; congruence.
  - unfold open_with_history in Hs. destruct (obind _ _) as [[[fp s0] marker]| |]; [|done..].
    destruct (match marker with Some _ => _ | None => _ end) as [rec d1]. injection Hs as Hs _.
    apply obind_Ok in Hs as (s & _ & Hs). by apply obind_Ok in Hs as (pool & _ & [= <-]).
Qed.

(** ** Building and abandoning *)

Lemma group_domains entries grouped dom :
  is_Some (bget dom (foldl group_entry grouped entries)) →
  is_Some (bget dom grouped) ∨ ∃ x, x ∈ entries ∧ pe_domain_id x = dom.
Proof.
  revert grouped. induction entries as [|x entries IH]; intros grouped Hd; cbn in Hd; [by left|].
  apply IH in Hd as [Hd|(y & Hy & E)]; [|right; exists y; split; [by right|done]].
  unfold group_entry in Hd. rewrite bget_binsert in Hd. destruct (teqb dom (pe_domain_id x)) eqn:E; [|by left].
  apply teqb_eq in E as ->. right. exists x. split; [by left|done].
Qed.

Lemma grouped_sorted entries grouped : sorted grouped → sorted (foldl group_entry grouped entries).
Proof. revert grouped. induction entries as [|x entries IH]; intros grouped Hs; cbn; [done|]. apply IH. by apply sorted_binsert. Qed.

(** Every reserved entry is of a finalized domain, so the batches can be made. *)
Lemma batches_exist e pool entries :
  routes (en_finalized e) pool → Forall (Mempool.entry_ok pool) entries →
  ∃ batches, collect (group_batch (en_finalized e)) (foldl group_entry [] entries) = Ok batches.
Proof.
  intros Hr Hall.
  assert (∀ l : list (DomainId * list bytes), (∀ x, x ∈ l → ∃ b, group_batch (en_finalized e) x = Ok b) →
    ∃ bs, collect (group_batch (en_finalized e)) l = Ok bs) as Hc.
  { intros l. induction l as [|x l IH]; intros Hl; [by eexists|]. destruct (Hl x) as [b Hb]; [by left|].
    destruct IH as [bs Hbs]; [intros y Hy; apply Hl; by right|]. exists (b :: bs). cbn. rewrite Hb. cbn. by rewrite Hbs. }
  apply Hc. intros [dom txs] Hin. apply elem_of_bget in Hin; [|apply grouped_sorted; constructor].
  destruct (group_domains entries [] dom) as [[? ?]|(x & Hx & <-)]; [by eexists|done|].
  rewrite list.Forall_forall in Hall. destruct (Hall _ Hx) as (Hd & _). rewrite Hr in Hd. unfold chain_id_of in Hd.
  unfold group_batch, domain. destruct (bget (pe_domain_id x) (fs_domains (en_finalized e))) as [fd|]; [|done]. by eexists.
Qed.

(** The hash of a block that was built is its proposal's. *)
Lemma built_hash s batches ts proposer vp :
  build_proposal s batches ts proposer = Ok vp → 0 ≤ fs_height s →
  block_hash_of (vp_block vp) = Ok (fs_consensus_hash (vp_resulting_state vp)).
Proof.
  unfold build_proposal. intros Hb Hh. apply obind_Ok in Hb as ([] & Ho & He).
  apply executed_proposal_run in He as [_ _ E _ _ _]; [|done|done]. unfold block_hash_of. by rewrite E.
Qed.

Lemma build_cases e ts r e' :
  engine_ok e → engine_build_proposal e ts = (r, e') →
  match r with
  | Ok id => en_pending e = None ∧ ∃ p, en_pending e' = Some p ∧ pp_id p = id ∧
      id = fs_consensus_hash (vp_resulting_state (pp_proposal p)) ∧ 
      with_mempool (with_pending e' None) (restore_reserved (en_mempool e') (pp_reserved p)) = e
  | Err _ => e' = e
  | Panic _ => True
  end.
Proof.
  intros Hok. unfold engine_build_proposal. destruct (en_pending e) eqn:Hp; [by intros [= <- <-]|].
  destruct (select_transactions e) as [selected|err|m]; [|by intros [= <- <-]..].
  set (hashes := bcollect _). destruct (reserve_hashes (en_mempool e) hashes) as [pool reserved] eqn:Hres.
  pose proof (reserve_inv (en_mempool e) hashes (eo_pool _ Hok)) as Hri. rewrite Hres in Hri.
  pose proof (reserve_restore_aux (en_mempool e) hashes (eo_pool _ Hok)) as Hback. rewrite Hres in Hback.
  destruct Hri as (_ & Hent & _ & _). cbn [fst snd] in *.
  destruct (batches_exist e (en_mempool e) reserved (eo_routes _ Hok) Hent) as [batches Hbs].
  cbn [with_mempool en_finalized en_mempool en_genesis]. rewrite Hbs.
  destruct (build_proposal _ _ _ _) as [vp|err|m] eqn:Hb; [| |by intros [= <- _]].
  - rewrite (built_hash _ _ _ _ _ Hb (rv_height _ _ _ (eo_recovers _ Hok))). cbn [chain_err map_err].
    intros [= <- <-]. split; [done|]. eexists. split_and!; [reflexivity|done|done|].
    cbn [with_pending with_mempool en_mempool pp_reserved en_database en_genesis en_finalized en_pending en_events
      en_scheduler_cursor en_history_retention]. rewrite Hback. destruct e. cbn in Hp. by subst.
  - intros [= <- <-]. rewrite Hback. by destruct e.
Qed.

Lemma reached_ok fuel g d config retention e0 d0 e :
  genesis_wf g → stored d COLUMN_META KEY_MARKER = None → stored d COLUMN_INDEXES KEY_DEV_CHECKPOINT = None →
  open_with_history fuel DevValidator d g config retention = (Ok e0, d0) → rtc engine_step e0 e →
  engine_ok e ∧ en_genesis e = g.
Proof.
  intros Hg Hm Hck Hopen Hsteps. destruct (first_open_ok _ _ _ _ _ _ _ Hg Hm Hck Hopen) as [Hok0 Eg0].
  eapply (rtc_keeps (λ e, engine_ok e ∧ en_genesis e = g)); [|exact Hsteps|done].
  intros x y Hxy [Hx Ex]. split; [by eapply engine_step_ok|]. rewrite <-Ex. by apply step_genesis.
Qed.

Lemma commit_validated_events e vp st e' :
  commit_validated e vp = (Ok st, e') →
  en_events e' = en_events e ++
    [{| ev_height := fs_height (vp_resulting_state vp);
        ev_consensus_hash := fs_consensus_hash (vp_resulting_state vp);
        ev_domain_heads_root := domain_heads_root (vp_resulting_state vp) |}].
Proof.
  unfold commit_validated. destruct (prepare_commit e vp) as [[pool b]|err|m]; [|done..].
  destruct (database_commit _ b) as [r0 d1]. destruct (storage_err r0); [|done..]. by intros [= _ <-].
Qed.

Lemma commit_validated_pool e vp st e' :
  pool_inv (en_mempool e) → commit_validated e vp = (Ok st, e') →
  ∀ k, bget k (pool_entries (en_mempool e')) =
    match bget k (pool_entries (en_mempool e)) with
    | Some x => if bcontains (pe_transaction_hash x) (executed_transaction_hashes vp) then None else Some x
    | None => None
    end.
Proof.
  intros Hinv. unfold commit_validated. destruct (prepare_commit e vp) as [[pool b]|err|m] eqn:Hp; [|done..].
  unfold prepare_commit in Hp. apply obind_Ok in Hp as (p1 & Hreg & Hp). apply obind_Ok in Hp as (b' & _ & [= <- _]).
  destruct (register_created_routes _ _ _ Hinv Hreg) as (Hinv1 & E & _). destruct (database_commit _ b) as [r0 d1].
  destruct (storage_err r0); [|done..]. intros [= _ <-] k. cbn [publish_finalized en_mempool].
  rewrite reserve_lookup by done. by rewrite E.
Qed.

(** ** What the engine promises *)

(** C3. Restarting loses nothing that was finalized. Take an engine first opened on
    an empty database, and let it submit, build, abandon, commit, import, produce
    and restart in any order, with any outcome. If the database then answers its
    reads, reopening it succeeds, whatever pool limits and history projection are
    chosen: the blocks stored under each height replay to exactly the finalized
    state the engine had, the marker, the write-ahead record and every domain's
    head agree with it, nothing is pending, and every finalized domain is routed. *)
Theorem restart_exact fuel g d config retention e0 d0 e fuel' config' retention' :
  genesis_wf g → stored d COLUMN_META KEY_MARKER = None → stored d COLUMN_INDEXES KEY_DEV_CHECKPOINT = None →
  open_with_history fuel DevValidator d g config retention = (Ok e0, d0) → rtc engine_step e0 e →
  answers (en_database e) →
  ∃ e', open_with_history fuel' DevValidator (en_database e) g config' retention' = (Ok e', en_database e) ∧
    en_database e' = en_database e ∧ en_finalized e' = en_finalized e ∧ en_pending e' = None ∧
    pool_entries (en_mempool e') = [] ∧ routes (en_finalized e) (en_mempool e').
Proof.
  intros Hg Hm Hck Hopen Hsteps Ha. destruct (reached_ok _ _ _ _ _ _ _ _ Hg Hm Hck Hopen Hsteps) as [[_ R _ _ _] Eg].
  rewrite Eg in R. destruct (open_recovers fuel' _ _ _ config' retention' R Ha) as (pool & Ho & _ & He & Hr).
  eexists. by split_and!; [exact Ho|..].
Qed.

(** C4. The engine's parts stay in step. In every state such an engine reaches: the
    finalized state is well formed and of the types of the code; the database's
    marker and heads are those of the finalized state; the pool is well formed and
    routes exactly the finalized domains, each by its own chain ID; and a pending
    proposal is one that validation accepts over the finalized state, named by its
    block hash, and holds entries the pool admitted. *)
Theorem engine_invariant fuel g d config retention e0 d0 e :
  genesis_wf g → stored d COLUMN_META KEY_MARKER = None → stored d COLUMN_INDEXES KEY_DEV_CHECKPOINT = None →
  open_with_history fuel DevValidator d g config retention = (Ok e0, d0) → rtc engine_step e0 e →
  chain_ok (fs_height (en_finalized e)) (en_finalized e) ∧ chain_typed (en_finalized e) ∧
  stored (en_database e) COLUMN_META KEY_MARKER = Some (encode_marker (state_marker (en_finalized e))) ∧
  (∀ id fd, bget id (fs_domains (en_finalized e)) = Some fd →
    stored (en_database e) COLUMN_META (head_key id) =
      Some (encode_head (dh_consensus_height (fd_header fd)) (Evm.state_root (fd_state fd)))) ∧
  pool_inv (en_mempool e) ∧ routes (en_finalized e) (en_mempool e) ∧
  (∀ p, en_pending e = Some p →
    validate_proposal (en_finalized e) (vp_block (pp_proposal p)) = Ok (pp_proposal p) ∧
    pp_id p = fs_consensus_hash (vp_resulting_state (pp_proposal p)) ∧
    Forall (Mempool.entry_ok (en_mempool e)) (pp_reserved p)).
Proof.
  intros Hg Hm Hck Hopen Hsteps. destruct (reached_ok _ _ _ _ _ _ _ _ Hg Hm Hck Hopen Hsteps) as [[_ R P T Pe] _].
  split_and!; [apply R|apply R|apply R| |done|done|].
  - intros id fd Hid. rewrite (rv_heads _ _ _ R _ _ Hid). do 2 f_equal.
    exact (do_state _ _ _ (co_domains _ _ (rv_ok _ _ _ R) _ _ Hid)).
  - intros p Hp. destruct (Pe _ Hp) as [(batches & ts & _ & Ho & He) Hid Hr]. split_and!; [by eapply executed_validates| |done].
    apply executed_proposal_run in He as [_ _ E _ _ _]; [|apply R|done]. unfold block_hash_of in Hid. rewrite E in Hid.
    by injection Hid.
Qed.

(** C12. Building is undone in full. In every state the engine reaches: when building a
    proposal fails, the engine is exactly as it was, so no transaction is lost from
    the pool (and the same call fails again); when it succeeds, abandoning the
    proposal gives back exactly the engine before it was built. *)
Theorem build_undone fuel g d config retention e0 d0 e timestamp r e' :
  genesis_wf g → stored d COLUMN_META KEY_MARKER = None → stored d COLUMN_INDEXES KEY_DEV_CHECKPOINT = None →
  open_with_history fuel DevValidator d g config retention = (Ok e0, d0) → rtc engine_step e0 e →
  engine_build_proposal e timestamp = (r, e') →
  match r with
  | Ok id => abandon_proposal e' id = (Ok tt, e)
  | Err _ => e' = e
  | Panic _ => True
  end.
Proof.
  intros Hg Hm Hck Hopen Hsteps Hb. destruct (reached_ok _ _ _ _ _ _ _ _ Hg Hm Hck Hopen Hsteps) as [Hok _].
  apply build_cases in Hb; [|done]. destruct r as [id|err|m]; [|done|done].
  destruct Hb as (_ & p & Hp & Eid & _ & Hback). unfold abandon_proposal. rewrite Hp, bool_decide_true by done.
  by rewrite Hback.
Qed.

(** C11. What a commit does. In every state the engine reaches, committing a pending
    proposal either fails, leaving the proposal pending and the finalized state, pool
    and events as they were, with a database that still recovers to them; or
    finalizes the proposal's state, one height on, announces it with one event,
    leaves nothing pending, and drops from the pool exactly the transactions it
    executed. *)
Theorem commit_exact fuel g d config retention e0 d0 e p r e' :
  genesis_wf g → stored d COLUMN_META KEY_MARKER = None → stored d COLUMN_INDEXES KEY_DEV_CHECKPOINT = None →
  open_with_history fuel DevValidator d g config retention = (Ok e0, d0) → rtc engine_step e0 e →
  en_pending e = Some p → returns r → commit_proposal e (pp_id p) = (r, e') →
  match r with
  | Ok _ =>
      let s := vp_resulting_state (pp_proposal p) in
      en_finalized e' = s ∧ fs_height s = fs_height (en_finalized e) + 1 ∧ en_pending e' = None ∧
      en_events e' = en_events e ++
        [{| ev_height := fs_height s; ev_consensus_hash := pp_id p; ev_domain_heads_root := domain_heads_root s |}] ∧
      (∀ k, bget k (pool_entries (en_mempool e')) =
        match bget k (pool_entries (en_mempool e)) with
        | Some x => if bcontains (pe_transaction_hash x) (executed_transaction_hashes (pp_proposal p))
                    then None else Some x
        | None => None
        end)
  | _ => ∃ database, e' = with_database e database ∧ recoverable g database (en_finalized e)
  end.
Proof.
  intros Hg Hm Hck Hopen Hsteps Hp Hret Hc. destruct (reached_ok _ _ _ _ _ _ _ _ Hg Hm Hck Hopen Hsteps) as [Hok Eg].
  pose proof (eo_pending _ Hok _ Hp) as [(batches & ts & Hts & Ho & He) Hid _].
  pose proof (executed_proposal_run _ _ _ _ _ (rv_height _ _ _ (eo_recovers _ Hok)) Ho He) as [[_ Eh] _ E _ _ _].
  unfold block_hash_of in Hid. rewrite E in Hid. injection Hid as Hid.
  unfold commit_proposal in Hc. rewrite Hp, bool_decide_true in Hc by done.
  destruct (commit_validated (with_pending e None) (pp_proposal p)) as [r1 e1] eqn:Hcv.
  assert (returns r1) as Hret1 by (intros m ->; injection Hc as <- _; by destruct (Hret m)).
  pose proof Hcv as (_ & Hcase)%(commit_validated_ok _ _ batches ts (gn_reward_address (en_genesis e)));
    [|by apply with_pending_none|done|done|by apply Hok|done|done|done].
  destruct r1 as [st|err|m]; [| |by destruct (Hret1 m)]; injection Hc as <- <-.
  - destruct Hcase as (Ef & _ & Epn). split_and!; [done|done|done| |].
    + by rewrite (commit_validated_events _ _ _ _ Hcv), Hid.
    + eapply (commit_validated_pool (with_pending e None)); [apply Hok|exact Hcv].
  - destruct Hcase as (d1 & -> & Hrec). exists d1. split; [|by rewrite <-Eg]. destruct e. cbn in Hp. by subst.
Qed.
End steps.

Module EngineWitness.
Import ExecutorWitness ChainWitness TypingWitness.

(** Two running sums of the input before its last bytes, last byte first. *)
Definition mixed_hash (input : bytes) : bytes :=
  let '(s, t) := foldl (λ st b, let s := (st.1 + byte_val b) mod 256 in (s, (st.2 + s) mod 256)) (0, 0) input in
  byte_of s :: byte_of t :: take 30 (rev_append input (repeat x00 30)).

Lemma mixed_hash_length input : length (mixed_hash input) = 32%nat.
Proof.
  unfold mixed_hash. destruct (foldl _ _ _). cbn [length]. do 2 f_equal.
  rewrite rev_append_rev, length_take, length_app, repeat_length. lia.
Qed.

#[local] Instance mixed_keccak : Keccak := {| keccak256 := mixed_hash; keccak256_length := mixed_hash_length |}.

#[local] Instance mixed_trie : AlloyTrie := {|
  EMPTY_ROOT_HASH := keccak256 [byte_of 128];
  KECCAK_EMPTY := keccak256 [];
  verify_proof := MptWitness.toy_verify;
  empty_root_hash := eq_refl;
  keccak_empty := eq_refl;
  verify_proof_returns := MptWitness.toy_verify_returns;
|}.

#[local] Existing Instance Toy.toy_secp.
#[local] Existing Instance spec_rlp.
#[local] Existing Instance RegistryWitness.toy.
#[local] Existing Instance toy_recovery.
#[local] Existing Instance toy_revm.
#[local] Existing Instance toy_roots.
#[local] Existing Instance toy_roots_laws.
#[local] Existing Instance spec_rlp_laws.
#[local] Existing Instance StorageWitness.toy_parity.
#[local] Existing Instance StorageWitness.toy_parity_laws.

Definition validator : Validator :=
  {| vd_id := validator_id (public_key (CryptoWitness.secret 1)); vd_public_key := public_key (CryptoWitness.secret 1);
     vd_power := 1 |}.

Definition dev : DevGenesis :=
  {| gn_network_id := repeat_byte 32 17; gn_genesis_hash := repeat_byte 32 34; gn_timestamp := 1000;
     gn_root_domain_id := root_id; gn_root_config := ChainWitness.config;
     gn_validator_set := {| vs_epoch := 0; vs_validators := [validator] |};
     gn_reward_address := repeat_byte 20 1; gn_governance_address := repeat_byte 20 15;
     gn_allocations := owner_genesis sender 1000 |}.

Definition fresh : Storage.Database :=
  {| da_db := StorageWitness.empty_db; da_identity := StorageWitness.identity; da_retention := Archive |}.

Definition idle : SingleValidatorEngine :=
  {| en_database := fresh; en_genesis := dev; en_finalized := no_chain; en_mempool := new_pool default_config;
     en_pending := None; en_events := []; en_scheduler_cursor := 0; en_history_retention := All |}.

Definition opened : outcome ConsensusError SingleValidatorEngine * Storage.Database :=
  open_with_history 0 DevValidator fresh dev default_config All.

Definition engine0 : SingleValidatorEngine := match opened.1 with Ok e => e | _ => idle end.

(** One transaction submitted, then one block produced with it. *)
Definition engine1 : SingleValidatorEngine := (submit_raw engine0 root_id (envelope 0)).2.

Definition engine2 : SingleValidatorEngine := (engine_build_proposal engine1 1001).2.

Definition pending2 : PendingProposal :=
  match en_pending engine2 with
  | Some p => p
  | None => {| pp_id := []; pp_proposal := no_proposal; pp_reserved := [] |}
  end.

Definition engine3 : SingleValidatorEngine := (commit_proposal engine2 (pp_id pending2)).2.

Lemma dev_wf : genesis_wf dev.
Proof. by split_and!. Qed.

Lemma fresh_marker : stored fresh COLUMN_META KEY_MARKER = None.
Proof. reflexivity. Qed.

Lemma fresh_checkpoint : stored fresh COLUMN_INDEXES KEY_DEV_CHECKPOINT = None.
Proof. reflexivity. Qed.

Lemma opened_evaluates : is_ok opened.1 = true.
Proof. by_evaluation. Qed.

Lemma opened_first : open_with_history 0 DevValidator fresh dev default_config All = (Ok engine0, opened.2).
Proof.
  change (opened = (Ok engine0, opened.2)). pose proof opened_evaluates as Ho. unfold engine0.
  destruct opened as [[e|err|m] d]; [reflexivity|discriminate Ho..].
Qed.

Lemma pending_evaluates : match en_pending engine2 with Some _ => true | None => false end = true.
Proof. by_evaluation. Qed.

Lemma engine2_pending : en_pending engine2 = Some pending2.
Proof.
  pose proof pending_evaluates as Hp. unfold pending2. destruct (en_pending engine2); [reflexivity|discriminate Hp].
Qed.

Lemma commit_evaluates : is_ok (commit_proposal engine2 (pp_id pending2)).1 = true.
Proof. by_evaluation. Qed.

Lemma ok_returns {E A : Type} (r : outcome E A) : is_ok r = true → returns r.
Proof. intros Hr m ->. discriminate Hr. Qed.

Lemma engine2_reached : rtc engine_step engine0 engine2.
Proof.
  eapply rtc_l; [|apply rtc_once].
  - eapply (step_submit _ _ root_id (envelope 0)). apply surjective_pairing.
  - eapply (step_build _ _ 1001); [done|apply surjective_pairing].
Qed.

Lemma engine3_reached : rtc engine_step engine0 engine3.
Proof.
  eapply rtc_r; [exact engine2_reached|]. eapply (step_commit _ _ (pp_id pending2)); [|apply surjective_pairing].
  exact (ok_returns _ commit_evaluates).
Qed.

Lemma restart_exact_witness :
  ∃ e', open_with_history 0 DevValidator (en_database engine3) dev default_config (selected []) =
      (Ok e', en_database engine3) ∧ en_finalized e' = en_finalized engine3.
Proof.
  destruct (restart_exact 0 dev fresh default_config All engine0 opened.2 engine3 0 default_config (selected [])
    dev_wf fresh_marker fresh_checkpoint opened_first engine3_reached (StorageWitness.toy_answers _)) as (e' & Ho & _ & Ef & _).
  exists e'. split; [exact Ho|exact Ef].
Defined.

Lemma engine_invariant_witness :
  validate_proposal (en_finalized engine2) (vp_block (pp_proposal pending2)) = Ok (pp_proposal pending2) ∧
  routes (en_finalized engine2) (en_mempool engine2).
Proof.
  destruct (engine_invariant 0 dev fresh default_config All engine0 opened.2 engine2
    dev_wf fresh_marker fresh_checkpoint opened_first engine2_reached) as (_ & _ & _ & _ & _ & Hr & Hp).
  destruct (Hp pending2 engine2_pending) as [Hv _]. split; [exact Hv|exact Hr].
Defined.

Lemma build_evaluates : is_ok (engine_build_proposal engine1 1001).1 = true.
Proof. by_evaluation. Qed.

Lemma engine1_reached : rtc engine_step engine0 engine1.
Proof. apply rtc_once. eapply (step_submit _ _ root_id (envelope 0)). apply surjective_pairing. Qed.

Lemma build_undone_witness : ∃ id, abandon_proposal engine2 id = (Ok tt, engine1).
Proof.
  pose proof (build_undone 0 dev fresh default_config All engine0 opened.2 engine1 1001 _ _
    dev_wf fresh_marker fresh_checkpoint opened_first engine1_reached (surjective_pairing _)) as Hb.
  pose proof build_evaluates as Hr. unfold engine2. revert Hr Hb. generalize (engine_build_proposal engine1 1001).
  intros [[id|err|m] e] Hr Hb; [|discriminate Hr..]. exists id. exact Hb.
Defined.

Lemma commit_exact_witness :
  en_finalized engine3 = vp_resulting_state (pp_proposal pending2) ∧ en_pending engine3 = None.
Proof.
  pose proof (commit_exact 0 dev fresh default_config All engine0 opened.2 engine2 pending2 _ _
    dev_wf fresh_marker fresh_checkpoint opened_first engine2_reached engine2_pending (ok_returns _ commit_evaluates)
    (surjective_pairing _)) as Hc.
  pose proof commit_evaluates as Hr. unfold engine3. revert Hr Hc. generalize (commit_proposal engine2 (pp_id pending2)).
  intros [[st|err|m] e] Hr Hc; [|discriminate Hr..]. destruct Hc as (Ef & _ & Ep & _). split; [exact Ef|exact Ep].
Defined.
End EngineWitness.
