(* ===== verification/EngineSelect.v ===== *)
(** The transactions the development engine selects for a proposal
    ([select_transactions] of src/crates/arbor-consensus/src/lib.rs).

    Main results: [selection_spec] (the limits of a block and of every domain, no nonce
    gaps, every entry from the pool) and [oversized_blocks_domain] (one transaction
    above the gas limit of a domain keeps the domain out of all blocks produced). *)

From Stdlib Require Import Strings.Byte.
From stdpp Require Import relations.
From S2P Require Import Prelude Bytes BTreeMap Primitives Canonical Cursor Rlp Crypto Ethereum StateError.
From S2P Require Import DomainHeads System Registry Trie Mpt MptBuild Account Overlay Mempool Storage Evm.
From S2P Require Import Executor Merkle ChainBlock ChainState Chain Typing DevGenesis EngineCheckpoint Engine.
From S2P Require Import EngineRestart EngineSteps.

Local Open Scope Z_scope.

Definition entry_gas (x : PoolEntry) : Z := tx_gas_limit (pe_transaction x).

(** ** One domain *)

Definition gas_total (l : list PoolEntry) : Z := zsum entry_gas l.

Lemma gas_total_nonneg l : Forall (λ x, 0 ≤ entry_gas x) l → 0 ≤ gas_total l.
Proof. unfold gas_total. induction 1 as [|x l Hx _ IH]; [done|]. rewrite zsum_cons. lia. Qed.

(** The inner loop takes a prefix, within every limit; the share of a domain is
    exceeded by the last transaction only, and only when the others use no gas. *)
Lemma select_domain_spec limit quota entries dg ag sel ag' sel' :
  Forall (λ x, 0 ≤ entry_gas x) entries →
  0 ≤ dg ≤ limit → ag ≤ MAX_CONSENSUS_BLOCK_GAS → zlen sel ≤ MAX_DEV_PROPOSAL_TRANSACTIONS →
  select_domain limit quota dg ag sel entries = (ag', sel') →
  ∃ chosen rest, entries = chosen ++ rest ∧ sel' = sel ++ chosen ∧ ag' = ag + gas_total chosen ∧
    dg + gas_total chosen ≤ limit ∧ ag' ≤ MAX_CONSENSUS_BLOCK_GAS ∧
    zlen sel' ≤ MAX_DEV_PROPOSAL_TRANSACTIONS ∧
    (chosen = [] ∨ dg + gas_total chosen ≤ quota ∨
     dg = 0 ∧ ∃ pre x, chosen = pre ++ [x] ∧ gas_total pre = 0).
Proof.
  intros Hall. revert dg ag sel. induction Hall as [|x entries Hx Hall IH]; intros dg ag sel Hdg Hag Hsel Hs; cbn in Hs.
  { injection Hs as <- <-. exists [], []. cbn. rewrite app_nil_r. split_and!; auto; lia. }
  assert (sel' = sel ∧ ag' = ag → ∃ chosen rest, x :: entries = chosen ++ rest ∧ sel' = sel ++ chosen ∧
    ag' = ag + gas_total chosen ∧ dg + gas_total chosen ≤ limit ∧ ag' ≤ MAX_CONSENSUS_BLOCK_GAS ∧
    zlen sel' ≤ MAX_DEV_PROPOSAL_TRANSACTIONS ∧ (chosen = [] ∨ dg + gas_total chosen ≤ quota ∨
     dg = 0 ∧ ∃ pre x, chosen = pre ++ [x] ∧ gas_total pre = 0)) as Hstop.
  { intros [-> ->]. exists [], (x :: entries). cbn. rewrite app_nil_r. split_and!; auto; lia. }
  destruct (checked_add 64 dg _) as [nd|] eqn:End; [|injection Hs as <- <-; by apply Hstop].
  destruct (checked_add 64 ag _) as [na|] eqn:Ena; [|injection Hs as <- <-; by apply Hstop].
  apply checked_add_Some in End as [-> _], Ena as [-> _]. fold (entry_gas x) in *.
  destruct (_ || _) eqn:Hc; [injection Hs as <- <-; by apply Hstop|]. bool_prop.
  apply IH in Hs as (chosen & rest & -> & -> & -> & Hl & Hm & Hz & Hq); [|lia|lia|rewrite zlen_app; change (zlen [x]) with 1; lia].
  exists (x :: chosen), rest. unfold gas_total in *. rewrite zsum_cons. rewrite <-app_assoc in Hz |- *.
  split_and!; try done; try lia. right. destruct Hq as [->|[Hq|[Hq (pre & y & -> & Hpre)]]].
  - cbn. destruct (Z.leb_spec (dg + entry_gas x) quota); [left; lia|]. right. split; [lia|]. by exists [], x.
  - left. lia.
  - right. split; [lia|]. exists (x :: pre), y. split; [done|]. rewrite zsum_cons. lia.
Qed.

(** ** All domains *)

(** What is taken of one domain's ready entries. *)
Record choice_ok (fair_share : Z) (r : DomainId * Z * list PoolEntry) (chosen : list PoolEntry) : Prop := {
  ch_prefix : ∃ rest, r.2 = chosen ++ rest;
  ch_count : zlen chosen ≤ MAX_FAIR_DOMAIN_TRANSACTIONS;
  ch_limit : gas_total chosen ≤ r.1.2;
  ch_share : gas_total chosen ≤ fair_share ∨ ∃ pre x, chosen = pre ++ [x] ∧ gas_total pre = 0;
}.

Lemma select_all_spec fair_share rs ag sel ag' sel' :
  0 ≤ fair_share → Forall (λ r, 0 ≤ r.1.2 ∧ Forall (λ x, 0 ≤ entry_gas x) r.2) rs →
  ag ≤ MAX_CONSENSUS_BLOCK_GAS → zlen sel ≤ MAX_DEV_PROPOSAL_TRANSACTIONS →
  foldl (select_ready fair_share) (ag, sel) rs = (ag', sel') →
  ∃ choices, Forall2 (choice_ok fair_share) rs choices ∧ sel' = sel ++ concat choices ∧
    ag' = ag + gas_total (concat choices) ∧ ag' ≤ MAX_CONSENSUS_BLOCK_GAS ∧
    zlen sel' ≤ MAX_DEV_PROPOSAL_TRANSACTIONS.
Proof.
  intros Hf Hall. revert ag sel. induction Hall as [|[[dom limit] entries] rs [Hl Hg] Hall IH]; intros ag sel Ha Hs Hfold.
  { injection Hfold as <- <-. exists []. cbn. rewrite app_nil_r. split_and!; auto; lia. }
  cbn [foldl] in Hfold. destruct (select_ready fair_share (ag, sel) (dom, limit, entries)) as [ag1 sel1] eqn:H1'.
  unfold select_ready in H1'. cbn [fst snd] in *.
  apply select_domain_spec in H1' as (chosen & rest & Et & -> & -> & C1 & C2 & C3 & C4); [| |lia|done|done].
  2: { eapply Forall_take. exact Hg. }
  apply IH in Hfold as (choices & Hc & -> & -> & C5 & C6); [|done|done].
  exists (chosen :: choices). split_and!; [|by rewrite <-app_assoc| |done|done].
  - constructor; [|done]. split; cbn [fst snd].
    + exists (rest ++ drop (Z.to_nat MAX_FAIR_DOMAIN_TRANSACTIONS) entries). rewrite app_assoc, <-Et. by rewrite take_drop.
    + assert (length (take (Z.to_nat MAX_FAIR_DOMAIN_TRANSACTIONS) entries) = length (chosen ++ rest)) as El by (by rewrite Et).
      rewrite length_take, length_app in El. unfold zlen, MAX_FAIR_DOMAIN_TRANSACTIONS in *. lia.
    + lia.
    + destruct C4 as [->|[C4|[_ C4]]]; [left; cbn; lia|left; lia|by right].
  - cbn [concat]. unfold gas_total. rewrite zsum_app. unfold gas_total. lia.
Qed.

Section selection.
Context `{Keccak, Secp256k1, AlloyRlp, !AlloyTrie, SenderRecovery, Journal, !Revm, AlloyRoots, ParityDb}.
Context `{!AlloyRlpLaws}.

Definition ready_key (x : PoolEntry) : bytes * Z := (pe_sender x, tx_nonce (pe_transaction x)).

(** The ready entries of a domain: from the pool, in order, without nonce gaps. *)
Record ready_ok (pool : Mempool) (dom : DomainId) (state : ExecutionState) (l : list PoolEntry) : Prop := {
  rd_sorted : StronglySorted (key_le ready_key) l;
  rd_nodup : NoDup l;
  rd_pool : ∀ x, x ∈ l → bget (entry_key x) (pool_entries pool) = Some x ∧ pe_domain_id x = dom;
  rd_gaps : ∀ x, x ∈ l → ∃ n, account_nonce state (pe_sender x) = Ok n ∧ n ≤ tx_nonce (pe_transaction x) ∧
    ∀ m, n ≤ m < tx_nonce (pe_transaction x) → ∃ y, y ∈ l ∧ entry_key y = (dom, pe_sender x, m);
}.

(** One sender's run of ready entries. *)
Lemma ready_run pool dom sender n x :
  pool_inv pool → x ∈ ready pool dom sender n →
  bget (entry_key x) (pool_entries pool) = Some x ∧ pe_domain_id x = dom ∧ pe_sender x = sender ∧
  n ≤ tx_nonce (pe_transaction x) ∧
  ∀ m, n ≤ m < tx_nonce (pe_transaction x) → ∃ y, y ∈ ready pool dom sender n ∧ entry_key y = (dom, sender, m).
Proof.
  intros Hinv [i Hi]%list_elem_of_lookup. unfold ready in *. pose proof (ready_from_lookup _ _ _ _ _ _ _ Hi) as Hg.
  destruct (inv_entry _ Hinv _ _ Hg) as [Ek _]. unfold entry_key in Ek. injection Ek as E1 E2 E3.
  assert (entry_key x = (dom, sender, n + Z.of_nat i)) as Ek by (unfold entry_key; congruence).
  split_and!; [by rewrite Ek|done|done|lia|]. intros m Hm.
  destruct (lookup_lt_is_Some_2 (ready_from (S (length (pool_entries pool))) (pool_entries pool) dom sender n)
    (Z.to_nat (m - n))) as [y Hy].
  { apply lookup_lt_Some in Hi. lia. }
  exists y. split; [by eapply list_elem_of_lookup_2|]. apply ready_from_lookup in Hy.
  destruct (inv_entry _ Hinv _ _ Hy) as [<- _]. do 2 f_equal. lia.
Qed.

Lemma ready_nodup pool dom sender n : pool_inv pool → NoDup (ready pool dom sender n).
Proof.
  intros Hinv. apply NoDup_alt. intros i j x Hi Hj. unfold ready in *. apply ready_from_lookup in Hi, Hj.
  destruct (inv_entry _ Hinv _ _ Hi) as [Ei _], (inv_entry _ Hinv _ _ Hj) as [Ej _]. rewrite <-Ei in Ej.
  injection Ej. lia.
Qed.

Lemma senders_nodup pool dom : pool_inv pool → NoDup (senders pool dom).
Proof.
  intros Hinv. unfold senders. pose proof (sorted_NoDup _ (inv_counts_sorted _ Hinv)) as Hn. revert Hn.
  induction (bkeys (sender_counts pool)) as [|[d s] l IH]; intros Hn; cbn; [constructor|].
  apply list.NoDup_cons in Hn as [Hni Hn]. case_bool_decide as E; [|by apply IH]. cbn in E. subst d.
  constructor; [|by apply IH]. rewrite list_elem_of_omap. intros ([d' s'] & Hin & Hs). cbn in Hs.
  case_bool_decide as E; [|done]. cbn in E. injection Hs as ->. by subst d'.
Qed.

Lemma ready_senders pool dom state ss acc found :
  for_each (ready_sender pool dom state) acc ss = Ok found →
  ∃ runs, Forall2 (λ s run, ∃ n, account_nonce state s = Ok n ∧ run = ready pool dom s n) ss runs ∧
    found = acc ++ concat runs.
Proof.
  revert acc. induction ss as [|s ss IH]; intros acc Hf; cbn in Hf.
  { injection Hf as <-. exists []. by rewrite app_nil_r. }
  apply obind_Ok in Hf as (acc1 & Hs & Hf). unfold ready_sender in Hs. apply obind_Ok in Hs as (n & Hn & [= <-]).
  apply IH in Hf as (runs & Hr & ->). exists (ready pool dom s n :: runs). split; [|by rewrite <-app_assoc].
  constructor; [by exists n|done].
Qed.

Lemma runs_member pool dom state ss runs x :
  Forall2 (λ s run, ∃ n, account_nonce state s = Ok n ∧ run = ready pool dom s n) ss runs → x ∈ concat runs →
  ∃ s n, s ∈ ss ∧ account_nonce state s = Ok n ∧ x ∈ ready pool dom s n ∧
    ∀ y, y ∈ ready pool dom s n → y ∈ concat runs.
Proof.
  intros Hr Hx. induction Hr as [|s run ss runs (n & Hn & ->) Hr IH]; [by apply elem_of_nil in Hx|].
  cbn in Hx |- *. apply elem_of_app in Hx as [Hx|Hx].
  - exists s, n. split_and!; [by left|done|done|]. intros y Hy. apply elem_of_app. by left.
  - destruct (IH Hx) as (s' & n' & Hs & Hn' & Hx' & Hall). exists s', n'. split_and!; [by right|done|done|].
    intros y Hy. apply elem_of_app. right. by apply Hall.
Qed.

Lemma runs_nodup pool dom state ss runs :
  pool_inv pool → NoDup ss →
  Forall2 (λ s run, ∃ n, account_nonce state s = Ok n ∧ run = ready pool dom s n) ss runs → NoDup (concat runs).
Proof.
  intros Hinv Hn Hr. induction Hr as [|s run ss runs (n & Hs & ->) Hr IH]; [constructor|].
  apply list.NoDup_cons in Hn as [Hni Hn]. cbn. apply list.NoDup_app. split_and!; [by apply ready_nodup| |by apply IH].
  intros x Hx Hx'. destruct (runs_member _ _ _ _ _ _ Hr Hx') as (s' & n' & Hs' & _ & Hin & _).
  apply ready_run in Hx as (_ & _ & <- & _); [|done]. apply ready_run in Hin as (_ & _ & <- & _); done.
Qed.

Lemma ready_domain_ok pool dom state found :
  pool_inv pool → for_each (ready_sender pool dom state) [] (senders pool dom) = Ok found →
  ready_ok pool dom state (sort_by_key ready_key found).
Proof.
  intros Hinv Hf. apply ready_senders in Hf as (runs & Hr & ->). cbn [app]. split.
  - apply sort_by_key_sorted.
  - rewrite sort_by_key_perm. eapply runs_nodup; [done|by apply senders_nodup|exact Hr].
  - intros x Hx. rewrite sort_by_key_perm in Hx. destruct (runs_member _ _ _ _ _ _ Hr Hx) as (s & n & _ & _ & Hin & _).
    apply ready_run in Hin as (? & ? & _); done.
  - intros x Hx. rewrite sort_by_key_perm in Hx. destruct (runs_member _ _ _ _ _ _ Hr Hx) as (s & n & _ & Hn & Hin & Hall).
    apply ready_run in Hin as (_ & _ & -> & Hle & Hgap); [|done]. exists n. split_and!; [done|done|].
    intros m Hm. destruct (Hgap m Hm) as (y & Hy & Ey). exists y. rewrite sort_by_key_perm. split; [by apply Hall|done].
Qed.

(** The domains with ready entries, each with its gas limit. *)
Record ready_domains_ok (pool : Mempool) (domains : list (DomainId * FinalizedDomain))
    (rs : list (DomainId * Z * list PoolEntry)) : Prop := {
  rds_each : ∀ r, r ∈ rs → ∃ fd, (r.1.1, fd) ∈ domains ∧ r.1.2 = dc_gas_limit (fd_config fd) ∧
    ready_ok pool r.1.1 (fd_state fd) r.2;
  rds_nodup : NoDup (fst <$> (fst <$> rs));
}.

Lemma ready_domains_spec pool domains rs :
  pool_inv pool → NoDup domains.*1 → for_each (ready_domain pool) [] domains = Ok rs →
  ready_domains_ok pool domains rs.
Proof.
  intros Hinv. revert rs. induction domains as [|[dom fd] domains IH] using rev_ind; intros rs Hn Hf.
  { injection Hf as <-. split; [by intros r ?%elem_of_nil|constructor]. }
  rewrite for_each_app in Hf. apply obind_Ok in Hf as (rs1 & H1' & Hf). cbn [for_each] in Hf.
  apply obind_Ok in Hf as (rs2 & Hd & [= <-]). rewrite fmap_app in Hn. apply list.NoDup_app in Hn as (Hn & Hdis & _).
  destruct (IH _ Hn H1') as [He Hnd]. unfold ready_domain in Hd. apply obind_Ok in Hd as (found & Hfd & Hd).
  apply ready_domain_ok in Hfd; [|done]. fold ready_key in Hd.
  assert (∀ r, r ∈ rs1 → ∃ fd', (r.1.1, fd') ∈ domains ++ [(dom, fd)] ∧ r.1.2 = dc_gas_limit (fd_config fd') ∧
    ready_ok pool r.1.1 (fd_state fd') r.2) as He'.
  { intros r Hr. destruct (He r Hr) as (fd' & Hin & ? & ?). exists fd'. rewrite elem_of_app. auto. }
  destruct (_ =? _)%nat; injection Hd as <-; [by split|]. split.
  - intros r [Hr| ->%list_elem_of_singleton]%elem_of_app; [by apply He'|]. exists fd. cbn.
    rewrite elem_of_app, list_elem_of_singleton. auto.
  - rewrite !fmap_app. apply list.NoDup_app. split_and!; [done| |cbn; repeat constructor; by intros ?%elem_of_nil].
    cbn. intros d Hd ->%list_elem_of_singleton. apply list_elem_of_fmap in Hd as (p & -> & Hp).
    apply list_elem_of_fmap in Hp as (r & -> & Hr). destruct (He r Hr) as (fd' & Hin & _).
    apply (Hdis r.1.1); [apply list_elem_of_fmap; by exists (r.1.1, fd')|by left].
Qed.

Lemma entry_gas_nonneg pool x : Mempool.entry_ok pool x → 0 ≤ entry_gas x.
Proof.
  intros (_ & Hd & _). apply (canonical_decode_wf eip1559_codec) in Hd as (_ & _ & _ & _ & Hg & _). apply Hg.
Qed.

(** What is selected, domain by domain. *)
Record selection (e : SingleValidatorEngine) (l : list PoolEntry)
    (rs : list (DomainId * Z * list PoolEntry)) (choices : list (list PoolEntry)) : Prop := {
  sl_ready : ∃ rs0, for_each (ready_domain (en_mempool e)) [] (fs_domains (en_finalized e)) = Ok rs0 ∧ rs ≡ₚ rs0;
  sl_domains : ready_domains_ok (en_mempool e) (fs_domains (en_finalized e)) rs;
  sl_choices : Forall2 (choice_ok (MAX_CONSENSUS_BLOCK_GAS / zlen rs)) rs choices;
  sl_perm : l ≡ₚ concat choices;
  sl_gas : gas_total l ≤ MAX_CONSENSUS_BLOCK_GAS;
  sl_count : zlen l ≤ MAX_DEV_PROPOSAL_TRANSACTIONS;
}.

Lemma gas_total_perm l k : l ≡ₚ k → gas_total l = gas_total k.
Proof. unfold gas_total. induction 1; rewrite ?zsum_cons in *; lia. Qed.

Lemma rotate_perm {A : Type} mid (l : list A) : rotate_left mid l ≡ₚ l.
Proof. unfold rotate_left. rewrite Permutation_app_comm. by rewrite take_drop. Qed.

Lemma ready_domains_perm pool domains rs rs' :
  rs' ≡ₚ rs → ready_domains_ok pool domains rs → ready_domains_ok pool domains rs'.
Proof. intros Hp [He Hn]. split; [intros r Hr; apply He; by rewrite <-Hp|by rewrite Hp]. Qed.

Lemma select_inv e l :
  pool_inv (en_mempool e) → chain_typed (en_finalized e) → select_transactions e = Ok l →
  ∃ rs choices, selection e l rs choices.
Proof.
  intros Hinv Hty. unfold select_transactions. intros Hs. apply obind_Ok in Hs as (rs0 & Hrs & Hs).
  pose proof (ready_domains_spec _ _ _ Hinv (sorted_NoDup _ (proj1 (ty_sorted _ Hty))) Hrs) as Hok0.
  destruct (Nat.eqb_spec (length rs0) 0) as [Hz|Hz].
  { apply nil_length_inv in Hz as ->. injection Hs as <-. exists [], []. split; [by exists []|done|constructor|done|done|done]. }
  set (rs := rotate_left (en_scheduler_cursor e mod zlen rs0) rs0) in *.
  assert (rs ≡ₚ rs0) as Hp by apply rotate_perm.
  pose proof (ready_domains_perm _ _ _ _ Hp Hok0) as Hok.
  assert (zlen rs = zlen rs0) as Hlen by (unfold zlen; by rewrite Hp). rewrite <-Hlen in Hs.
  destruct (foldl _ (0, []) rs) as [ag sel] eqn:Hf. injection Hs as <-.
  assert (0 < zlen rs) as Hpos by (rewrite Hlen; unfold zlen; lia).
  apply select_all_spec in Hf as (choices & Hc & -> & -> & Hg & Hn); [|by apply Z.div_pos| |done|done].
  2: { apply list.Forall_forall. intros r Hr. destruct (rds_each _ _ _ Hok r Hr) as (fd & Hin & El & Hro).
       apply elem_of_bget in Hin; [|apply Hty]. rewrite El. split; [apply (ty_domains _ Hty _ _ Hin)|].
       apply list.Forall_forall. intros x Hx. destruct (rd_pool _ _ _ _ Hro x Hx) as [Hb _].
       apply (inv_entry _ Hinv) in Hb as [_ Hb]. by eapply entry_gas_nonneg. }
  exists rs, choices. cbn [app] in *. split; [by exists rs0|done|done|by rewrite sort_by_key_perm| |].
  - rewrite (gas_total_perm _ _ (sort_by_key_perm _ _)). lia.
  - unfold zlen in *. by rewrite sort_by_key_perm.
Qed.

Lemma filter_all {A : Type} (P : A → Prop) `{∀ x, Decision (P x)} (l : list A) : (∀ x, x ∈ l → P x) → filter P l = l.
Proof.
  induction l as [|x l IH]; intros Hl; [done|]. rewrite list.filter_cons_True by (apply Hl; by left).
  f_equal. apply IH. intros y Hy. apply Hl. by right.
Qed.

Lemma filter_none {A : Type} (P : A → Prop) `{∀ x, Decision (P x)} (l : list A) : (∀ x, x ∈ l → ¬ P x) → filter P l = [].
Proof.
  induction l as [|x l IH]; intros Hl; [done|]. rewrite list.filter_cons_False by (apply Hl; by left).
  apply IH. intros y Hy. apply Hl. by right.
Qed.

Lemma choice_members pool domains rs fair r chosen x :
  ready_domains_ok pool domains rs → r ∈ rs → choice_ok fair r chosen → x ∈ chosen → pe_domain_id x = r.1.1.
Proof.
  intros Hok Hr [[rest E] _ _ _] Hx. destruct (rds_each _ _ _ Hok r Hr) as (fd & _ & _ & Hro).
  apply (rd_pool _ _ _ _ Hro). rewrite E. apply elem_of_app. by left.
Qed.

(** The entries of one domain are the choice made for it. *)
Lemma selected_of_domain fair rs choices dom :
  Forall2 (choice_ok fair) rs choices → NoDup (fst <$> (fst <$> rs)) →
  (∀ r chosen x, r ∈ rs → choice_ok fair r chosen → x ∈ chosen → pe_domain_id x = r.1.1) →
  let mine := filter (λ x, pe_domain_id x = dom) (concat choices) in
  mine = [] ∨ ∃ r, r ∈ rs ∧ r.1.1 = dom ∧ choice_ok fair r mine.
Proof.
  intros Hf Hn Hm. induction Hf as [|r chosen rs choices Hc Hf IH]; [by left|].
  cbn in Hn. apply list.NoDup_cons in Hn as [Hni Hn]. cbn. rewrite list.filter_app.
  assert (∀ r' chosen' x, r' ∈ rs → choice_ok fair r' chosen' → x ∈ chosen' → pe_domain_id x = r'.1.1) as Hm'
    by (intros r' c' x Hr'; apply Hm; by right).
  destruct (IH Hn Hm') as [Em|(r' & Hr' & Ed & Hc')]; clear IH.
  - rewrite Em, app_nil_r. destruct (decide (r.1.1 = dom)) as [Ed|Ed].
    + right. exists r. split_and!; [by left|done|]. rewrite filter_all; [done|].
      intros x Hx. rewrite <-Ed. eapply Hm; [by left|exact Hc|done].
    + left. apply filter_none. intros x Hx E. apply Ed. rewrite <-E. symmetry. eapply Hm; [by left|exact Hc|done].
  - right. exists r'. split_and!; [by right|done|]. rewrite (filter_none _ chosen); [done|].
    intros x Hx E. apply Hni. apply list_elem_of_fmap. exists r'.1. split; [|by apply list_elem_of_fmap; exists r'].
    rewrite Ed, <-E. symmetry. eapply Hm; [by left|exact Hc|done].
Qed.

Lemma choice_of fair rs choices x :
  Forall2 (choice_ok fair) rs choices → x ∈ concat choices →
  ∃ r chosen, r ∈ rs ∧ choice_ok fair r chosen ∧ x ∈ chosen ∧ ∀ y, y ∈ chosen → y ∈ concat choices.
Proof.
  intros Hf Hx. induction Hf as [|r chosen rs choices Hc Hf IH]; [by apply elem_of_nil in Hx|].
  cbn in Hx |- *. apply elem_of_app in Hx as [Hx|Hx].
  - exists r, chosen. split_and!; [by left|done|done|]. intros y Hy. apply elem_of_app. by left.
  - destruct (IH Hx) as (r' & c' & Hr & Hc' & Hx' & Hall). exists r', c'. split_and!; [by right|done|done|].
    intros y Hy. apply elem_of_app. right. by apply Hall.
Qed.

Lemma selected_nodup fair rs choices :
  Forall2 (choice_ok fair) rs choices → NoDup (fst <$> (fst <$> rs)) → (∀ r, r ∈ rs → NoDup r.2) →
  (∀ r chosen x, r ∈ rs → choice_ok fair r chosen → x ∈ chosen → pe_domain_id x = r.1.1) → NoDup (concat choices).
Proof.
  intros Hf Hn Hr Hm. induction Hf as [|r chosen rs choices Hc Hf IH]; [constructor|].
  cbn in Hn. apply list.NoDup_cons in Hn as [Hni Hn]. cbn. apply list.NoDup_app. split_and!.
  - destruct Hc as [[rest E] _ _ _]. pose proof (Hr r ltac:(by left)) as Hnd. rewrite E in Hnd.
    by apply list.NoDup_app in Hnd as [? _].
  - intros x Hx Hx'. destruct (choice_of _ _ _ _ Hf Hx') as (r' & chosen' & Hr' & Hc' & Hin' & _).
    apply Hni, list_elem_of_fmap. exists r'.1. split; [|by apply list_elem_of_fmap; exists r'].
    rewrite <-(Hm r chosen x), <-(Hm r' chosen' x); [done|by right|done|done|by left|done|done].
  - apply IH; [done| |]; intros; [apply Hr; by right|eapply Hm; [by right|done|done]].
Qed.

Lemma nonce_lt (sender : bytes) (m n : Z) : m < n → tlt (sender, m) (sender, n).
Proof.
  intros Hlt. unfold tlt. cbn [tcompare prod_total_order]. unfold prod_compare. cbn [fst snd].
  rewrite tcompare_refl. by apply Z.compare_lt_iff.
Qed.

(** C26. What a proposal takes from the pool. Over a well-formed pool and a typed
    finalized state, every selected entry is in the pool under its own key and for a
    finalized domain; its sender's earlier nonces, from the account's nonce on, are
    selected with it, so no selection has a nonce gap; nothing is selected twice; at
    most 10,000 entries and 120,000,000 gas are selected; and of each domain at most
    1,024 entries, within its gas limit and within its share of the block, the block
    gas over the number of domains with ready entries, unless a single transaction
    is all that uses gas. *)
Theorem selection_spec e l :
  pool_inv (en_mempool e) → chain_typed (en_finalized e) → select_transactions e = Ok l →
  NoDup l ∧ zlen l ≤ MAX_DEV_PROPOSAL_TRANSACTIONS ∧ gas_total l ≤ MAX_CONSENSUS_BLOCK_GAS ∧
  (∀ x, x ∈ l → bget (entry_key x) (pool_entries (en_mempool e)) = Some x ∧
    ∃ fd n, bget (pe_domain_id x) (fs_domains (en_finalized e)) = Some fd ∧
      account_nonce (fd_state fd) (pe_sender x) = Ok n ∧ n ≤ tx_nonce (pe_transaction x) ∧
      ∀ m, n ≤ m < tx_nonce (pe_transaction x) →
        ∃ y, y ∈ l ∧ entry_key y = (pe_domain_id x, pe_sender x, m)) ∧
  (∀ dom fd ready, bget dom (fs_domains (en_finalized e)) = Some fd →
    for_each (ready_domain (en_mempool e)) [] (fs_domains (en_finalized e)) = Ok ready →
    let mine := filter (λ x, pe_domain_id x = dom) l in
    zlen mine ≤ MAX_FAIR_DOMAIN_TRANSACTIONS ∧ gas_total mine ≤ dc_gas_limit (fd_config fd) ∧
    (gas_total mine ≤ MAX_CONSENSUS_BLOCK_GAS / zlen ready ∨
     ∃ pre x, mine ≡ₚ x :: pre ∧ gas_total pre = 0)).
Proof.
  intros Hinv Hty Hs. apply select_inv in Hs as (rs & choices & [(rs0 & Hr0 & Hp0) Hd Hc Hp Hg Hn]); [|done|done].
  pose proof (λ r chosen x, choice_members _ _ _ (MAX_CONSENSUS_BLOCK_GAS / zlen rs) r chosen x Hd) as Hm.
  split_and!; [|done|done| |].
  - rewrite Hp. eapply selected_nodup; [exact Hc|apply Hd| |exact Hm].
    intros r Hr. destruct (rds_each _ _ _ Hd r Hr) as (fd & _ & _ & Hro). by apply Hro.
  - intros x Hx. rewrite Hp in Hx. destruct (choice_of _ _ _ _ Hc Hx) as (r & chosen & Hr & [[rest E] _ _ _] & Hin & Hall).
    destruct (rds_each _ _ _ Hd r Hr) as (fd & Hfd & _ & [Rs _ Rp Rg]). rewrite E in Rs, Rp, Rg.
    assert (x ∈ chosen ++ rest) as Hin' by (apply elem_of_app; by left).
    destruct (Rp _ Hin') as [Hb Ed]. split; [done|]. destruct (Rg _ Hin') as (n & Hnn & Hle & Hgap).
    exists fd, n. rewrite Ed. split_and!; [apply elem_of_bget; [apply Hty|done]|done|done|].
    intros m Hlt. destruct (Hgap m Hlt) as (y & Hy & Ey). exists y. split; [|done]. rewrite Hp. apply Hall.
    eapply (sorted_prefix ready_key); [exact Rs|exact Hin|exact Hy|]. unfold entry_key in Ey. injection Ey as _ E1 E2.
    unfold ready_key. rewrite E1, E2. apply nonce_lt. lia.
  - intros dom fd ready Hfd Hready mine. assert (ready = rs0) as -> by congruence.
    assert (mine ≡ₚ filter (λ x, pe_domain_id x = dom) (concat choices)) as Hmine by (unfold mine; by rewrite Hp).
    assert (zlen rs = zlen rs0) as <- by (unfold zlen; by rewrite Hp0).
    assert (zlen mine = zlen (filter (λ x, pe_domain_id x = dom) (concat choices))) as -> by (unfold zlen; by rewrite Hmine).
    rewrite (gas_total_perm _ _ Hmine).
    destruct (selected_of_domain _ _ _ dom Hc (rds_nodup _ _ _ Hd) Hm) as [->|(r & Hr & Ed & [_ C1 C2 C3])].
    + destruct (ty_domains _ Hty _ _ Hfd) as [_ (_ & _ & [? _] & _) _ _ _]. split_and!; [done|done|]. left.
      apply Z_div_nonneg_nonneg; [done|apply zlen_nonneg].
    + destruct (rds_each _ _ _ Hd r Hr) as (fd' & Hfd' & El & _). rewrite Ed in Hfd'.
      apply elem_of_bget in Hfd'; [|apply Hty]. assert (fd' = fd) as -> by congruence.
      split_and!; [done|by rewrite <-El|]. destruct C3 as [C3|(pre & x & E & Hz)]; [by left|]. right. exists pre, x.
      split; [|done]. rewrite Hmine, E. by rewrite Permutation_app_comm.
Qed.

(** ** A domain that is shut out *)

(** The entry [x] is the first ready one of its domain, in order of sender and nonce, and
    asks for more gas than the domain's limit; no entry of another domain has the hash of
    one of this domain. *)
Record stuck (e : SingleValidatorEngine) (dom : DomainId) (fd : FinalizedDomain) (x : PoolEntry) : Prop := {
  sk_domain : bget dom (fs_domains (en_finalized e)) = Some fd;
  sk_entry : bget (entry_key x) (pool_entries (en_mempool e)) = Some x;
  sk_here : pe_domain_id x = dom;
  sk_next : account_nonce (fd_state fd) (pe_sender x) = Ok (tx_nonce (pe_transaction x));
  sk_large : dc_gas_limit (fd_config fd) < entry_gas x;
  sk_first : ∀ y, bget (entry_key y) (pool_entries (en_mempool e)) = Some y → pe_domain_id y = dom →
    account_nonce (fd_state fd) (pe_sender y) = Ok (tx_nonce (pe_transaction y)) → ¬ tlt (pe_sender y) (pe_sender x);
  sk_unshared : ∀ y z, bget (entry_key y) (pool_entries (en_mempool e)) = Some y →
    bget (entry_key z) (pool_entries (en_mempool e)) = Some z → pe_domain_id y = dom → pe_domain_id z ≠ dom →
    pe_transaction_hash y ≠ pe_transaction_hash z;
}.

Lemma sender_listed pool x :
  pool_inv pool → bget (entry_key x) (pool_entries pool) = Some x → pe_sender x ∈ senders pool (pe_domain_id x).
Proof.
  intros Hinv Hx. unfold senders. apply list_elem_of_omap. exists (pe_domain_id x, pe_sender x). cbn [fst snd].
  rewrite bool_decide_true by done. split; [|done]. apply bkeys_elem. rewrite (inv_counts _ Hinv).
  destruct (Z.eqb_spec (count (pe_domain_id x, pe_sender x) (bkeys (pool_entries pool))) 0) as [Hz|]; [|by eexists].
  unfold count, zlen in Hz. apply (Nat2Z.inj _ 0), nil_length_inv in Hz.
  assert (entry_key x ∈ filter (λ k, k.1 = (pe_domain_id x, pe_sender x)) (bkeys (pool_entries pool))) as Hin.
  { apply list_elem_of_filter. split; [done|]. apply bkeys_elem. by eexists. }
  rewrite Hz in Hin. by apply elem_of_nil in Hin.
Qed.

(** Every entry at its account's nonce is ready. *)
Lemma ready_complete pool state found x :
  pool_inv pool → for_each (ready_sender pool (pe_domain_id x) state) [] (senders pool (pe_domain_id x)) = Ok found →
  bget (entry_key x) (pool_entries pool) = Some x → account_nonce state (pe_sender x) = Ok (tx_nonce (pe_transaction x)) →
  x ∈ found.
Proof.
  intros Hinv Hf Hx Hn. apply ready_senders in Hf as (runs & Hr & ->). cbn [app].
  pose proof (sender_listed _ _ Hinv Hx) as [i Hi]%list_elem_of_lookup.
  destruct (Forall2_lookup_l _ _ _ _ _ Hr Hi) as (run & Hrun & n & Hn' & ->). rewrite Hn in Hn'. injection Hn' as <-.
  apply list_elem_of_In, in_concat. eexists. split; [apply list_elem_of_In; by eapply list_elem_of_lookup_2|].
  unfold ready. cbn [ready_from]. unfold entry_key in Hx. rewrite Hx. by left.
Qed.

Lemma ready_domains_found pool domains acc rs r :
  for_each (ready_domain pool) acc domains = Ok rs → r ∈ rs → r ∈ acc ∨
  ∃ fd found, (r.1.1, fd) ∈ domains ∧ for_each (ready_sender pool r.1.1 (fd_state fd)) [] (senders pool r.1.1) = Ok found ∧
    r.2 = sort_by_key ready_key found.
Proof.
  revert acc. induction domains as [|[dom fd] domains IH]; intros acc Hf Hr; cbn [for_each] in Hf; [injection Hf as <-; by left|].
  apply obind_Ok in Hf as (acc1 & Hd & Hf). unfold ready_domain in Hd. apply obind_Ok in Hd as (found & Hfd & Hd).
  fold ready_key in Hd. destruct (IH _ Hf Hr) as [Hin|(fd' & found' & Hin & ? & ?)].
  - destruct (_ =? _)%nat; injection Hd as <-; [by left|]. apply elem_of_app in Hin as [|Hin%list_elem_of_singleton]; [by left|].
    subst r. right. exists fd, found. split; [by left|done].
  - right. exists fd', found'. split; [by right|done].
Qed.

Lemma pair_lt (a b : bytes * Z) : tlt a b → tlt a.1 b.1 ∨ a.1 = b.1 ∧ a.2 < b.2.
Proof.
  destruct a as [a1 a2], b as [b1 b2]. unfold tlt at 1. cbn [tcompare prod_total_order fst snd]. unfold prod_compare. cbn [fst snd].
  destruct (tcompare a1 b1) eqn:E; [|by left|done]. apply tcompare_eq in E as ->. intros Hc. right. split; [done|].
  by apply Z.compare_lt_iff.
Qed.

(** The first of a domain's ready entries is the one it is stuck on. *)
Lemma stuck_head e dom fd x l h :
  pool_inv (en_mempool e) → stuck e dom fd x → ready_ok (en_mempool e) dom (fd_state fd) (h :: l) → x ∈ h :: l → h = x.
Proof.
  intros Hinv [Hd Hx Hh Hn _ Hfirst _] [Hs _ Hp Hg] Hin.
  assert (∀ y, y ∈ h :: l → tlt (ready_key y) (ready_key h) → y = h) as Hmin.
  { intros y Hy Hlt. apply list_elem_of_singleton. apply (sorted_prefix ready_key [h] l h y); [done|by left|done|done]. }
  destruct (Hp h ltac:(by left)) as [Hph Hdh]. destruct (Hg h ltac:(by left)) as (n & Hnn & Hle & Hgap).
  assert (n = tx_nonce (pe_transaction h)) as ->.
  { destruct (decide (n = tx_nonce (pe_transaction h))); [done|]. destruct (Hgap n ltac:(lia)) as (y & Hy & Ey).
    unfold entry_key in Ey. injection Ey as _ E1 E2. exfalso.
    assert (y = h) as -> by (apply Hmin; [done|]; unfold ready_key; rewrite E1, E2; apply nonce_lt; lia). lia. }
  destruct (tlt_trichotomy (ready_key h) (ready_key x)) as [Hlt|[Heq|Hlt]].
  - apply pair_lt in Hlt as [Hlt|[Es Hlt]]; cbn [ready_key fst snd] in *; [by destruct (Hfirst h Hph Hdh Hnn)|].
    rewrite Es, Hn in Hnn. injection Hnn as E. lia.
  - unfold ready_key in Heq. injection Heq as E1 E2. assert (entry_key h = entry_key x) as E by (unfold entry_key; congruence).
    rewrite E in Hph. congruence.
  - symmetry. by apply Hmin.
Qed.

(** Nothing of a stuck domain is selected. *)
Lemma stuck_unselected e dom fd x l :
  pool_inv (en_mempool e) → chain_typed (en_finalized e) → stuck e dom fd x → select_transactions e = Ok l →
  ∀ y, y ∈ l → pe_domain_id y ≠ dom.
Proof.
  intros Hinv Hty Hst Hs y Hy Ed. apply select_inv in Hs as (rs & choices & [(rs0 & Hr0 & Hp0) Hd Hc Hp _ _]); [|done|done].
  rewrite Hp in Hy. destruct (choice_of _ _ _ _ Hc Hy) as (r & chosen & Hr & Hch & Hyc & _).
  pose proof (choice_members _ _ _ _ _ _ _ Hd Hr Hch Hyc) as Er. rewrite Ed in Er.
  destruct (rds_each _ _ _ Hd r Hr) as (fd' & Hfd & El & Hro). rewrite <-Er in Hfd, Hro.
  apply elem_of_bget in Hfd; [|apply Hty]. rewrite (sk_domain _ _ _ _ Hst) in Hfd. injection Hfd as <-.
  rewrite Hp0 in Hr. destruct (ready_domains_found _ _ _ _ _ Hr0 Hr) as [?%elem_of_nil|(fd' & found & Hfd & Hf & E2)]; [done|].
  rewrite <-Er in Hfd, Hf. apply elem_of_bget in Hfd; [|apply Hty]. rewrite (sk_domain _ _ _ _ Hst) in Hfd. injection Hfd as <-.
  assert (x ∈ r.2) as Hx.
  { rewrite E2, sort_by_key_perm. destruct Hst as [_ Hx <- Hn _ _ _]. by eapply ready_complete. }
  destruct Hch as [[rest E] _ Hl _]. destruct chosen as [|h chosen]; [by apply elem_of_nil in Hyc|].
  rewrite E in Hro, Hx. pose proof (stuck_head _ _ _ _ _ _ Hinv Hst Hro Hx) as ->.
  assert (0 ≤ gas_total chosen) as Hnn.
  { apply gas_total_nonneg, list.Forall_forall. intros z Hz.
    destruct (rd_pool _ _ _ _ Hro z) as [Hb _]; [right; apply elem_of_app; by left|].
    apply (inv_entry _ Hinv) in Hb as [_ Hb]. by eapply entry_gas_nonneg. }
  pose proof (sk_large _ _ _ _ Hst). unfold gas_total in *. rewrite zsum_cons in Hl. lia.
Qed.
End selection.

(** ** Production of blocks around it *)

Lemma contains_collected {A : Type} (f : A → bytes) (l : list A) h :
  bcontains h (bcollect ((λ a, (f a, tt)) <$> l)) = true ↔ ∃ a, a ∈ l ∧ f a = h.
Proof.
  rewrite bcontains_true. change (bcollect ?l) with (bextend [] l). split.
  - intros [[] [?|(a & [= ->] & Ha)%list_elem_of_fmap]%bget_bextend_inv]; [done|]. by exists a.
  - intros (a & Ha & <-). exists tt. apply bget_bextend_in; [by intros ? [] []|]. apply list_elem_of_fmap. by exists a.
Qed.

Section production.
Context `{Keccak, Secp256k1, AlloyRlp, !AlloyTrie, SenderRecovery, Journal, !Revm, AlloyRoots, ParityDb}.
Context `{!AlloyRlpLaws, !RevmTyped, !BloomTyped, !AlloyRootsLaws, !ParityDbLaws}.

(** The transaction of an envelope, by its hash. *)
Definition envelope_hash (envelope hash : bytes) : Prop :=
  ∃ tx, decode_eip1559 envelope = Ok tx ∧ eip1559_transaction_hash tx = Ok hash.

Lemma batch_origin spec env parent envelopes registry r t :
  (∀ ctx, registry = Some ctx → 0 ≤ rc_creation_height ctx) →
  execute_batch_with_registry spec env parent envelopes registry = Ok r → t ∈ er_transactions r →
  ∃ envelope, envelope ∈ envelopes ∧ envelope_hash envelope (et_transaction_hash t).
Proof.
  intros Hh. unfold execute_batch_with_registry. destruct (_ <? _); [done|]. intros Hr.
  apply obind_Ok in Hr as (b & Hb & [= <-]). cbn [er_transactions]. intros [i Hi]%list_elem_of_lookup.
  destruct (loop_runs _ _ _ _ _ _ Hh Hb) as [L1 L2 L3 Hpos _ _]. pose proof (lookup_lt_Some _ _ _ Hi) as Hlt.
  destruct (lookup_lt_is_Some_2 envelopes i ltac:(lia)) as [envelope He].
  destruct (lookup_lt_is_Some_2 (bs_receipts b) i ltac:(lia)) as [rc Hrc].
  destruct (lookup_lt_is_Some_2 (bs_encoded_receipts b) i ltac:(lia)) as [enc Henc].
  destruct (pk_transaction _ _ _ _ _ _ _ _ (Hpos _ _ _ _ _ He Hrc Henc Hi)) as (tx & Hd & _ & _ & Hhash).
  exists envelope. split; [by eapply list_elem_of_lookup_2|]. by exists tx.
Qed.

(** Every executed transaction comes from an envelope of a batch. *)
Lemma executed_origin parent height ts proposer batches x x' t :
  0 ≤ height → for_each (execute_one_batch parent height ts proposer) x batches = Ok x' →
  t ∈ (xs_executions x' ≫= er_transactions) → t ∈ (xs_executions x ≫= er_transactions) ∨
  ∃ b envelope, b ∈ batches ∧ envelope ∈ db_transactions b ∧ envelope_hash envelope (et_transaction_hash t).
Proof.
  intros Hh. revert x. induction batches as [|b l IH]; intros x Hf Ht; cbn [for_each] in Hf; [injection Hf as <-; by left|].
  apply obind_Ok in Hf as (x1 & Hone & Hf). destruct (IH _ Hf Ht) as [Hin|(b' & env & Hb & ?)].
  2: { right. exists b', env. split; [by right|done]. }
  unfold execute_one_batch in Hone. apply obind_Ok in Hone as (fd & _ & Hone). destruct (negb _); [done|].
  apply obind_Ok in Hone as ([[header ex] nd] & Hex & Hone). apply obind_Ok in Hone as (gas & _ & Hone).
  apply obind_Ok in Hone as ([] & _ & Hone). apply obind_Ok in Hone as (s & _ & [= <-]). cbn [xs_executions] in Hin.
  rewrite bind_app in Hin. apply elem_of_app in Hin as [Hin|Hin]; [by left|]. cbn in Hin. rewrite app_nil_r in Hin. right.
  unfold execute_domain in Hex. apply obind_Ok in Hex as (n & _ & Hex). apply obind_Ok in Hex as (sv & _ & Hex).
  apply obind_Ok in Hex as (ex' & He & Hex). apply obind_Ok in Hex as (h & _ & [= _ <- _]). apply map_err_Ok in He.
  apply (batch_origin _ _ _ _ _ _ t) in He as (envelope & ? & ?); [|by intros c [= <-]|done].
  exists b, envelope. split; [by left|done].
Qed.

Lemma proposal_origin parent batches ts proposer vp hash :
  0 ≤ fs_height parent → build_proposal parent batches ts proposer = Ok vp →
  bcontains hash (executed_transaction_hashes vp) = true →
  ∃ b envelope, b ∈ batches ∧ envelope ∈ db_transactions b ∧ envelope_hash envelope hash.
Proof.
  intros Hh Hb (t & Ht & <-)%contains_collected. unfold build_proposal in Hb. apply obind_Ok in Hb as ([] & _ & He).
  unfold execute in He. apply obind_Ok in He as ([] & _ & He). destruct (_ <? _); [done|].
  apply obind_Ok in He as (height & Hheight & He). apply ok_or_Ok, checked_add_Some in Hheight as [-> _].
  apply obind_Ok in He as (x & Hx & He). apply obind_Ok in He as (br & _ & He). apply obind_Ok in He as (rr & _ & He).
  apply obind_Ok in He as (enc & _ & He). destruct (_ <? _); [done|]. apply obind_Ok in He as (h & _ & [= <-]).
  apply (executed_origin _ _ _ _ _ _ _ t) in Hx as [?%elem_of_nil|(b & env & Hin & ?)]; [done| |lia|done].
  exists b, env. split; [by rewrite <-(sort_batches_perm batches)|done].
Qed.

Lemma group_origin entries grouped dom l envelope :
  bget dom (foldl group_entry grouped entries) = Some l → envelope ∈ l →
  (∃ l0, bget dom grouped = Some l0 ∧ envelope ∈ l0) ∨ ∃ y, y ∈ entries ∧ pe_domain_id y = dom ∧ pe_envelope y = envelope.
Proof.
  revert grouped. induction entries as [|y entries IH]; intros grouped Hg Hin; cbn [foldl] in Hg; [left; by exists l|].
  destruct (IH _ Hg Hin) as [(l0 & Hl0 & Hin0)|(z & Hz & ?)]; [|right; exists z; split; [by right|done]].
  unfold group_entry in Hl0. rewrite bget_binsert in Hl0. destruct (teqb dom (pe_domain_id y)) eqn:E; [|left; by exists l0].
  apply teqb_eq in E. injection Hl0 as <-. apply elem_of_app in Hin0 as [Hin0|Hin0%list_elem_of_singleton].
  - left. rewrite <-E in Hin0. destruct (bget dom grouped) as [l1|] eqn:E1; [by exists l1|by apply elem_of_nil in Hin0].
  - right. exists y. split; [by left|done].
Qed.

(** The batches of a proposal hold reserved entries only. *)
Lemma batch_reserved finalized reserved batches b :
  collect (group_batch finalized) (foldl group_entry [] reserved) = Ok batches → b ∈ batches →
  (∃ y, y ∈ reserved ∧ pe_domain_id y = db_domain_id b) ∧
  ∀ envelope, envelope ∈ db_transactions b → ∃ y, y ∈ reserved ∧ pe_envelope y = envelope.
Proof.
  intros Hc%collect_Ok [i Hi]%list_elem_of_lookup. destruct (Forall2_lookup_r _ _ _ _ _ Hc Hi) as ([dom txs] & Hin & Hb).
  apply list_elem_of_lookup_2, elem_of_bget in Hin; [|apply grouped_sorted; constructor].
  unfold group_batch in Hb. apply obind_Ok in Hb as (fd & _ & [= <-]). cbn [db_domain_id db_transactions]. split.
  - destruct (group_domains reserved [] dom) as [[? ?]|?]; [by eexists|done|done].
  - intros envelope He. destruct (group_origin _ _ _ _ _ Hin He) as [(? & ? & _)|(y & ? & _ & ?)]; [done|]. by exists y.
Qed.

Section step.
Context (e : SingleValidatorEngine) (dom : DomainId) (fd : FinalizedDomain) (x : PoolEntry).
Context (Hok : engine_ok e) (Hst : stuck e dom fd x).

(** An engine with fewer entries of other domains. *)
Lemma stuck_keeps e' :
  bget dom (fs_domains (en_finalized e')) = Some fd →
  (∀ k y, bget k (pool_entries (en_mempool e')) = Some y → bget k (pool_entries (en_mempool e)) = Some y) →
  (∀ y, bget (entry_key y) (pool_entries (en_mempool e)) = Some y → pe_domain_id y = dom →
    bget (entry_key y) (pool_entries (en_mempool e')) = Some y) →
  stuck e' dom fd x.
Proof.
  intros Hd Hless Hmine. destruct Hst as [_ Hx Hh Hn Hg Hf Hu]. split; [done|by apply Hmine|done|done|done| |].
  - intros y Hy. by apply Hf, Hless.
  - intros y z Hy Hz. by apply Hu; apply Hless.
Qed.

Context (selected : list PoolEntry) (Hselect : select_transactions e = Ok selected).
Let hashes : btree bytes unit := bcollect ((λ y, (pe_transaction_hash y, tt)) <$> selected).

Lemma selected_pooled z : z ∈ selected → bget (entry_key z) (pool_entries (en_mempool e)) = Some z ∧ pe_domain_id z ≠ dom.
Proof.
  intros Hz. split.
  - apply select_inv in Hselect as (rs & choices & [_ Hd Hc Hp _ _]); [|apply Hok|apply Hok]. rewrite Hp in Hz.
    destruct (choice_of _ _ _ _ Hc Hz) as (r & chosen & Hr & [[rest E] _ _ _] & Hzc & _).
    destruct (rds_each _ _ _ Hd r Hr) as (fd' & _ & _ & Hro). apply (rd_pool _ _ _ _ Hro). rewrite E. apply elem_of_app. by left.
  - by eapply stuck_unselected; [apply Hok|apply Hok|..].
Qed.

(** No entry of the domain has the hash of a selected one. *)
Lemma stuck_unreserved y :
  bget (entry_key y) (pool_entries (en_mempool e)) = Some y → pe_domain_id y = dom →
  bcontains (pe_transaction_hash y) hashes = false.
Proof.
  intros Hy Hd. apply not_true_iff_false. intros (z & Hz & E)%contains_collected. destruct (selected_pooled z Hz) as [Hzp Hzd].
  by destruct (sk_unshared _ _ _ _ Hst y z Hy Hzp Hd Hzd).
Qed.

Lemma reserved_elsewhere z : z ∈ (reserve_hashes (en_mempool e) hashes).2 →
  bget (entry_key z) (pool_entries (en_mempool e)) = Some z ∧ bcontains (pe_transaction_hash z) hashes = true ∧ pe_domain_id z ≠ dom.
Proof.
  intros [Hz Hc]%reserve_elem; [|apply Hok]. split_and!; [done|done|]. intros Hd. by rewrite (stuck_unreserved z Hz Hd) in Hc.
Qed.

Context (batches : list DomainBatch) (ts : Z) (vp : ValidatedProposal).
Context (Hbatches : collect (group_batch (en_finalized e)) (foldl group_entry [] (reserve_hashes (en_mempool e) hashes).2) = Ok batches).
Context (Hbuild : build_proposal (en_finalized e) batches ts (gn_reward_address (en_genesis e)) = Ok vp).

Lemma stuck_unexecuted y :
  bget (entry_key y) (pool_entries (en_mempool e)) = Some y → pe_domain_id y = dom →
  bcontains (pe_transaction_hash y) (executed_transaction_hashes vp) = false.
Proof.
  intros Hy Hd. apply not_true_iff_false. intros Hc.
  destruct (proposal_origin _ _ _ _ _ _ (rv_height _ _ _ (eo_recovers _ Hok)) Hbuild Hc) as (b & envelope & Hb & Hin & tx & Hdec & Hh).
  destruct (batch_reserved _ _ _ _ Hbatches Hb) as [_ Hr]. destruct (Hr _ Hin) as (z & Hz & <-).
  destruct (reserved_elsewhere z Hz) as (Hzp & Hzc & _). destruct (inv_entry _ (eo_pool _ Hok) _ _ Hzp) as [_ (_ & Hzd & _ & Hzh & _)].
  rewrite Hdec in Hzd. injection Hzd as ->. rewrite Hh in Hzh. injection Hzh as E. rewrite <-E in Hzc.
  by rewrite (stuck_unreserved y Hy Hd) in Hzc.
Qed.

Lemma stuck_domain_kept : bget dom (fs_domains (vp_resulting_state vp)) = Some fd.
Proof.
  pose proof (eo_recovers _ Hok) as Hr. unfold build_proposal in Hbuild. apply obind_Ok in Hbuild as ([] & Ho & He).
  apply ensure_batch_order_Ok in Ho. apply execute_proposal_ok in He; [|apply Hr|apply Hr|done].
  apply (po_untouched _ _ _ _ He); [apply Hst|]. rewrite (sort_batches_perm batches).
  intros (b & Eb & Hb)%list_elem_of_fmap. destruct (batch_reserved _ _ _ _ Hbatches Hb) as [(z & Hz & Ez) _].
  destruct (reserved_elsewhere z Hz) as (_ & _ & Hne). by rewrite <-Eb in Ez.
Qed.
End step.

(** ** The production loop *)

Definition selected_hashes (selected : list PoolEntry) : btree bytes unit :=
  bcollect ((λ y, (pe_transaction_hash y, tt)) <$> selected).

Lemma built_inv e ts id e1 :
  engine_build_proposal e ts = (Ok id, e1) →
  ∃ selected batches vp p, select_transactions e = Ok selected ∧
    collect (group_batch (en_finalized e)) (foldl group_entry [] (reserve_hashes (en_mempool e) (selected_hashes selected)).2) = Ok batches ∧
    build_proposal (en_finalized e) batches ts (gn_reward_address (en_genesis e)) = Ok vp ∧
    en_finalized e1 = en_finalized e ∧ en_mempool e1 = (reserve_hashes (en_mempool e) (selected_hashes selected)).1 ∧
    en_pending e1 = Some p ∧ pp_id p = id ∧ pp_proposal p = vp.
Proof.
  unfold engine_build_proposal. destruct (en_pending e); [done|]. destruct (select_transactions e) as [selected|err|m]; [|done..].
  fold (selected_hashes selected). destruct (reserve_hashes (en_mempool e) (selected_hashes selected)) as [pool reserved] eqn:Hres.
  cbn [with_mempool en_finalized en_genesis en_mempool]. destruct (collect _ _) as [batches|err|m] eqn:Hbs; [|done..].
  destruct (build_proposal _ _ _ _) as [vp|err|m] eqn:Hvp; [|done..]. destruct (chain_err _) as [id'|err|m]; [|done..].
  intros [= -> <-]. exists selected, batches, vp. eexists. rewrite Hres. by split_and!.
Qed.

Lemma commit_cases e p r e' :
  pool_inv (en_mempool e) → en_pending e = Some p → returns r → commit_proposal e (pp_id p) = (r, e') →
  (en_finalized e' = en_finalized e ∧ en_mempool e' = en_mempool e) ∨
  (en_finalized e' = vp_resulting_state (pp_proposal p) ∧
   ∀ k, bget k (pool_entries (en_mempool e')) =
     match bget k (pool_entries (en_mempool e)) with
     | Some y => if bcontains (pe_transaction_hash y) (executed_transaction_hashes (pp_proposal p)) then None else Some y
     | None => None
     end).
Proof.
  intros Hinv Hp Hret. unfold commit_proposal. rewrite Hp, bool_decide_true by done.
  destruct (commit_validated (with_pending e None) (pp_proposal p)) as [r1 e1] eqn:Hc. intros Hr.
  destruct r1 as [st|err|m]; injection Hr as <- <-; [right|left|by destruct (Hret m)].
  - split; [|exact (commit_validated_pool (with_pending e None) _ _ _ Hinv Hc)]. unfold commit_validated in Hc.
    destruct (prepare_commit _ _) as [[pool b]|err|m]; [|done..]. destruct (database_commit _ _) as [r0 d].
    destruct (storage_err r0); [|done..]. by injection Hc as _ <-.
  - unfold commit_validated in Hc. destruct (prepare_commit _ _) as [[pool b]|err'|m]; [|by injection Hc as _ <-|done].
    destruct (database_commit _ _) as [r0 d]. destruct (storage_err r0); [done| |done]. by injection Hc as _ <-.
Qed.

(** One call of [produce_block], with any outcome but a panic. *)
Definition produces (e e' : SingleValidatorEngine) : Prop :=
  ∃ ts r, u64 ts ∧ returns r ∧ produce_block e ts = (r, e').

Lemma stuck_produces e dom fd x e' : engine_ok e → stuck e dom fd x → produces e e' → engine_ok e' ∧ stuck e' dom fd x.
Proof.
  intros Hok Hst (ts & r & Hts & Hret & Hp). split; [by eapply produce_ok|]. unfold produce_block in Hp.
  destruct (engine_build_proposal e ts) as [[id|err|m] e1] eqn:Hb.
  2: { apply build_cases in Hb; [|done]. injection Hp as _ <-. by subst. }
  2: { injection Hp as <- _. by destruct (Hret m). }
  destruct (commit_proposal e1 id) as [r2 e2] eqn:Hc.
  assert (e2 = e') as -> by (by destruct r2; injection Hp). 
  assert (returns r2) as Hret2 by (intros m ->; injection Hp as <-; by destruct (Hret m)). clear Hp.
  destruct (built_inv _ _ _ _ Hb) as (selected & batches & vp & p & Hs & Hbs & Hvp & Ef & Em & Ep & <- & Evp).
  pose proof (stuck_unreserved e dom fd x Hok Hst selected Hs) as Hun. fold (selected_hashes selected) in Hun.
  pose proof (stuck_unexecuted e dom fd x Hok Hst selected Hs batches ts vp Hbs Hvp) as Hux.
  pose proof (stuck_domain_kept e dom fd x Hok Hst selected Hs batches ts vp Hbs Hvp) as Hdk.
  pose proof (λ k, reserve_lookup (en_mempool e) (selected_hashes selected) k (eo_pool _ Hok)) as Hlook. rewrite <-Em in Hlook.
  assert (pool_inv (en_mempool e1)) as Hinv by (rewrite Em; by apply reserve_inv, Hok).
  apply (stuck_keeps e dom fd x Hst); destruct (commit_cases _ _ _ _ Hinv Ep Hret2 Hc) as [[Ef' Em']|[Ef' Hl]].
  - rewrite Ef', Ef. apply Hst.
  - by rewrite Ef', Evp.
  - intros k y. rewrite Em', Hlook. destruct (bget k _) as [z|]; [|done]. by destruct (bcontains _ _).
  - intros k y. rewrite Hl, Hlook. destruct (bget k _) as [z|]; [|done]. destruct (bcontains _ _); [done|]. by destruct (bcontains _ _).
  - intros y Hy Hd. by rewrite Em', Hlook, Hy, Hun.
  - intros y Hy Hd. by rewrite Hl, Hlook, Hy, Hun, Evp, Hux.
Qed.

(** C37. One transaction can shut a domain out. Let the first ready entry of a domain, in
    order of sender and nonce, ask for more gas than the domain's limit, which the pool
    admits. Then nothing of that domain is selected, whatever else is ready in it; and
    however many blocks the node goes on to produce, until it is sent another
    transaction or imports a block, the entry stays in the pool, the domain stays at its
    head, and nothing of it is selected. Assumes that no transaction of another domain
    in the pool has the hash of one of this domain. *)
Theorem oversized_blocks_domain e dom fd x e' :
  engine_ok e → stuck e dom fd x → rtc produces e e' →
  bget dom (fs_domains (en_finalized e')) = Some fd ∧
  bget (entry_key x) (pool_entries (en_mempool e')) = Some x ∧
  ∀ l, select_transactions e' = Ok l → ∀ y, y ∈ l → pe_domain_id y ≠ dom.
Proof.
  intros Hok Hst Hr. assert (engine_ok e' ∧ stuck e' dom fd x) as [Hok' Hst'].
  { induction Hr as [e|e e1 e2 Hp _ IH]; [done|]. destruct (stuck_produces _ _ _ _ _ Hok Hst Hp). by apply IH. }
  split_and!; [apply Hst'|apply Hst'|]. intros l Hl. by eapply stuck_unselected; [apply Hok'|apply Hok'|..].
Qed.
End production.

Module SelectWitness.
Import ExecutorWitness ChainWitness TypingWitness EngineWitness.
#[local] Existing Instance mixed_keccak.
#[local] Existing Instance mixed_trie.
#[local] Existing Instance Toy.toy_secp.
#[local] Existing Instance spec_rlp.
#[local] Existing Instance RegistryWitness.toy.
#[local] Existing Instance toy_recovery.
#[local] Existing Instance toy_revm.
#[local] Existing Instance toy_roots.
#[local] Existing Instance toy_roots_laws.
#[local] Existing Instance spec_rlp_laws.
#[local] Existing Instance StorageWitness.toy_parity.
#[local] Existing Instance StorageWitness.toy_parity_laws.

Lemma engine1_ok : engine_ok engine1.
Proof. exact (proj1 (reached_ok _ _ _ _ _ _ _ _ dev_wf fresh_marker fresh_checkpoint opened_first engine1_reached)). Qed.

Definition selected1 : list PoolEntry :=
  Eval vm_compute in match select_transactions engine1 with Ok l => l | _ => [] end.

Lemma engine1_selects : select_transactions engine1 = Ok selected1.
Proof. by_evaluation. Qed.

Lemma selection_spec_witness :
  NoDup selected1 ∧ length selected1 = 1%nat ∧ gas_total selected1 ≤ MAX_CONSENSUS_BLOCK_GAS.
Proof.
  destruct (selection_spec engine1 selected1 (eo_pool _ engine1_ok) (rv_typed _ _ _ (eo_recovers _ engine1_ok))
    engine1_selects) as (Hn & _ & Hg & _). split; [exact Hn|]. split; [reflexivity|exact Hg].
Defined.

(** The same transaction with a gas limit of 40,000,000. *)
Definition big_tx : Eip1559Transaction :=
  {| tx_chain_id := 7; tx_nonce := 0; tx_max_priority_fee_per_gas := 2; tx_max_fee_per_gas := 100;
     tx_gas_limit := 40000000; tx_to := Some sender; tx_value := 0; tx_input := [byte_of 3]; tx_access_list := [];
     tx_y_parity := true; tx_r := 4; tx_s := 9 |}.

Definition big_envelope : bytes :=
  Eval vm_compute in match encode_eip1559 big_tx with Ok b => b | _ => [] end.

(** It comes from a lower address than the transaction submitted before it. *)
Definition blocked : SingleValidatorEngine := (submit_raw engine1 root_id big_envelope).2.

Lemma blocked_ok : engine_ok blocked.
Proof. eapply submit_ok; [exact engine1_ok|apply surjective_pairing]. Qed.

Definition ready2 : list (DomainId * Z * list PoolEntry) :=
  Eval vm_compute in
    match for_each (ready_domain (en_mempool blocked)) [] (fs_domains (en_finalized blocked)) with
    | Ok rs => rs
    | _ => []
    end.

Definition big_entry : PoolEntry :=
  Eval vm_compute in
    match ready2 with
    | (_, _, x :: _) :: _ => x
    | _ => {| pe_domain_id := []; pe_sender := []; pe_transaction_hash := []; pe_envelope := [];
              pe_transaction := big_tx |}
    end.

Definition other_entries : list PoolEntry :=
  Eval vm_compute in match ready2 with (_, _, _ :: rest) :: _ => rest | _ => [] end.

Definition sticks (e : SingleValidatorEngine) (dom : DomainId) (x : PoolEntry) : bool :=
  match bget dom (fs_domains (en_finalized e)) with
  | Some fd =>
      match account_nonce (fd_state fd) (pe_sender x) with Ok n => n =? tx_nonce (pe_transaction x) | _ => false end &&
      (dc_gas_limit (fd_config fd) <? entry_gas x)
  | None => false
  end.

Lemma sticks_spec e dom x :
  sticks e dom x = true → bget (entry_key x) (pool_entries (en_mempool e)) = Some x → pe_domain_id x = dom →
  Forall (λ y, tltb (pe_sender y.2) (pe_sender x) = false ∧ pe_domain_id y.2 = dom) (pool_entries (en_mempool e)) →
  ∃ fd, stuck e dom fd x.
Proof.
  unfold sticks. destruct (bget dom _) as [fd|] eqn:Hd; [|done]. destruct (account_nonce _ _) as [n| |] eqn:Hn; [|done..].
  intros [->%Z.eqb_eq Hg%Z.ltb_lt]%andb_true_iff Hx Hh Hall. rewrite list.Forall_forall in Hall. exists fd. split; try done.
  - intros y Hy%bget_elem_of _ _. destruct (Hall _ Hy) as [Hl _]. cbn [snd] in Hl. rewrite <-tltb_tlt. by rewrite Hl.
  - intros y z _ Hz%bget_elem_of _ Hne. by destruct (Hall _ Hz).
Qed.

Lemma blocked_sticks : sticks blocked root_id big_entry = true.
Proof. by_evaluation. Qed.

Lemma blocked_entry : bget (entry_key big_entry) (pool_entries (en_mempool blocked)) = Some big_entry.
Proof. by_evaluation. Qed.

Lemma blocked_entries :
  Forall (λ y, tltb (pe_sender y.2) (pe_sender big_entry) = false ∧ pe_domain_id y.2 = root_id) (pool_entries (en_mempool blocked)).
Proof. by_evaluation. Qed.

Lemma produces_ok e ts : u64 ts → is_ok (produce_block e ts).1 = true → produces e (produce_block e ts).2.
Proof.
  intros Hts Hr. exists ts, (produce_block e ts).1. split; [done|]. split; [by apply ok_returns|]. by destruct (produce_block e ts).
Qed.

Lemma next_second : u64 1001.
Proof. by_evaluation. Qed.

Lemma produced_evaluates : is_ok (produce_block blocked 1001).1 = true.
Proof. by_evaluation. Qed.

(** The node has produced an empty block. *)
Definition produced : SingleValidatorEngine := (produce_block blocked 1001).2.

Lemma produced_once : rtc produces blocked produced.
Proof. exact (rtc_once _ _ (produces_ok blocked 1001 next_second produced_evaluates)). Qed.

Lemma oversized_blocks_domain_witness :
  length other_entries = 1%nat ∧ bget (entry_key big_entry) (pool_entries (en_mempool produced)) = Some big_entry ∧
  ∀ l, select_transactions produced = Ok l → ∀ y, y ∈ l → pe_domain_id y ≠ root_id.
Proof.
  split; [reflexivity|]. destruct (sticks_spec blocked root_id big_entry blocked_sticks blocked_entry eq_refl blocked_entries) as [fd Hst].
  exact (proj2 (oversized_blocks_domain blocked root_id fd big_entry produced blocked_ok Hst produced_once)).
Defined.
End SelectWitness.
