(* ===== verification/Protocol.v ===== *)
(** The messages of the direct and gossip protocols and the checks on them
    (src/crates/arbor-network/src/protocol.rs).

    Main results: a handshake that is built locally is accepted by every node of the
    same network and genesis, and a handshake that is accepted has the capabilities
    it lists ([handshake_accepts]); what a response that passes the transport checks
    can hold is bounded ([response_bounded]). *)

From Stdlib Require Import Strings.Byte.
From S2P Require Import Prelude Bytes BTreeMap Primitives Canonical Mempool ChainBlock.

Local Open Scope Z_scope.

Definition DIRECT_PROTOCOL_VERSION : Z := 1.
Definition MAX_DIRECT_REQUEST_BYTES : Z := 2 * 1024 * 1024.
Definition MAX_DIRECT_RESPONSE_BYTES : Z := MAX_CONSENSUS_BLOCK_BYTES + 2 * 1024 * 1024.
Definition MAX_STATE_CHUNK_BYTES : Z := 8 * 1024 * 1024.
Definition MAX_BLOCKS_PER_RESPONSE : Z := 1.
Definition MAX_HEADERS_PER_RESPONSE : Z := 64.
Definition MAX_HISTORY_ITEMS : Z := 1024.
Definition MAX_CONSENSUS_MESSAGE_BYTES : Z := 1024 * 1024.

(** [[u8; 32]]. *)
Definition WireHash : Type := bytes.

Module NodeRole.
Inductive NodeRole :=
| Validator
| Full
| Light.
End NodeRole.

Inductive Capability :=
| TransactionGossip
| FinalizedGossip
| BlockSyncing
| StateSync
| DomainHistorySync
| ConsensusDirect.

(** The derived [Ord]: the order of the constructors. *)
Definition capability_index (c : Capability) : Z :=
  match c with
  | TransactionGossip => 0
  | FinalizedGossip => 1
  | BlockSyncing => 2
  | StateSync => 3
  | DomainHistorySync => 4
  | ConsensusDirect => 5
  end.

#[export] Instance Capability_eq_dec : EqDecision Capability.
Proof. solve_decision. Defined.

#[export] Instance NodeRole_eq_dec : EqDecision NodeRole.NodeRole.
Proof. solve_decision. Defined.

#[export] Instance capability_order : TotalOrder Capability.
Proof.
  refine {| tcompare a b := Z.compare (capability_index a) (capability_index b) |}.
  - intros a b. rewrite Z.compare_eq_iff. destruct a, b; done.
  - intros a b. apply Z.compare_antisym.
  - intros a b c. rewrite !Z.compare_lt_iff. lia.
Defined.

(** ** Handshakes *)

Record Handshake := {
  hs_network_id : WireHash;
  hs_genesis_hash : WireHash;
  hs_protocol_version : Z;
  hs_codec_version : Z;
  hs_direct_protocol_version : Z;
  hs_role : NodeRole.NodeRole;
  hs_capabilities : list Capability;
  hs_max_frame_bytes : Z;
}.

#[export] Instance Handshake_eq_dec : EqDecision Handshake.
Proof. solve_decision. Defined.

Inductive HandshakeError :=
| NetworkMismatch
| GenesisMismatched
| ProtocolVersionMismatch
| CodecVersionMismatch
| DirectProtocolVersionMismatch
| FrameLimit
| Capabilities.

(** [Vec::dedup]: consecutive equal elements are removed. *)
Fixpoint dedup {A : Type} `{EqDecision A} (l : list A) : list A :=
  match l with
  | a :: ((b :: _) as l') => if bool_decide (a = b) then dedup l' else a :: dedup l'
  | _ => l
  end.

(** [Handshake::new]. *)
Definition new_handshake (network_id : NetworkId) (genesis_hash : bytes) (role : NodeRole.NodeRole)
    (capabilities : list Capability) : Handshake :=
  {| hs_network_id := network_id;
     hs_genesis_hash := genesis_hash;
     hs_protocol_version := PROTOCOL_VERSION;
     hs_codec_version := CANONICAL_CODEC_VERSION;
     hs_direct_protocol_version := DIRECT_PROTOCOL_VERSION;
     hs_role := role;
     hs_capabilities := dedup (sort_by_key id capabilities);
     hs_max_frame_bytes := default (umax 32) (try_from 32 MAX_DIRECT_RESPONSE_BYTES) |}.

Definition validate_against (h local : Handshake) : outcome HandshakeError unit :=
  if negb (bool_decide (hs_network_id h = hs_network_id local)) then Err NetworkMismatch
  else if negb (bool_decide (hs_genesis_hash h = hs_genesis_hash local)) then Err GenesisMismatched
  else if negb (hs_protocol_version h =? hs_protocol_version local) then Err ProtocolVersionMismatch
  else if negb (hs_codec_version h =? hs_codec_version local) then Err CodecVersionMismatch
  else if negb (hs_direct_protocol_version h =? hs_direct_protocol_version local)
  then Err DirectProtocolVersionMismatch
  else if (hs_max_frame_bytes h =? 0) || (MAX_DIRECT_RESPONSE_BYTES <? hs_max_frame_bytes h)
  then Err FrameLimit
  else if negb (windows2_all tltb (hs_capabilities h)) then Err Capabilities
  else Ok tt.

Definition supports (h : Handshake) (capability : Capability) : bool :=
  match binary_search_by_key id capability (hs_capabilities h) with
  | inl _ => true
  | inr _ => false
  end.

(** ** Direct requests and responses *)

Record SyncStatus := {
  sy_height : Z;
  sy_consensus_hash : WireHash;
  sy_domain_heads_root : WireHash;
  sy_checkpoint_height : Z;
}.

Record FinalizedBlock := {
  fb_height : Z;
  fb_block : bytes;
  fb_finality_proof : bytes;
}.

Record FinalizedHeader := {
  fh_height : Z;
  fh_header : bytes;
  fh_finality_proof : bytes;
}.

Record BlockBody := {
  bb_height : Z;
  bb_block : bytes;
}.

(** [FinalizedBlock::validate_transport]. *)
Definition validate_block_transport (b : FinalizedBlock) : outcome string unit :=
  if (length (fb_block b) =? 0)%nat || (MAX_CONSENSUS_BLOCK_BYTES <? zlen (fb_block b))
  then Err "invalid finalized block bytes"
  else if MAX_CONSENSUS_MESSAGE_BYTES <? zlen (fb_finality_proof b)
  then Err "finality proof exceeds limit"
  else Ok tt.

Inductive DirectRequest :=
| RequestHandshake
| RequestStatus
| RequestHeaders (start_height limit : Z)
| RequestBodies (heights : list Z)
| RequestBlocks (start_height limit : Z)
| RequestManifest (checkpoint_height : Z)
| RequestChunk (checkpoint_height : Z) (domain_id : WireHash) (index : Z)
| RequestHistory (domain_id : WireHash) (start_number limit : Z)
| RequestConsensus (kind : Z) (payload : bytes).

(** [DirectRequest::validate]. *)
Definition validate_request (r : DirectRequest) : outcome string unit :=
  match r with
  | RequestBlocks _ limit =>
      if (limit =? 0) || (MAX_BLOCKS_PER_RESPONSE <? limit) then Err "invalid block request limit" else Ok tt
  | RequestHeaders _ limit =>
      if (limit =? 0) || (MAX_HEADERS_PER_RESPONSE <? limit) then Err "invalid header request limit" else Ok tt
  | RequestBodies heights =>
      if (length heights =? 0)%nat || (MAX_BLOCKS_PER_RESPONSE <? zlen heights) ||
         negb (windows2_all tltb heights)
      then Err "invalid block body heights" else Ok tt
  | RequestHistory _ _ limit =>
      if (limit =? 0) || (MAX_HISTORY_ITEMS <? limit) then Err "invalid history request limit" else Ok tt
  | RequestConsensus kind payload =>
      if (kind =? 0) || (MAX_CONSENSUS_MESSAGE_BYTES <? zlen payload)
      then Err "invalid consensus direct payload" else Ok tt
  | _ => Ok tt
  end.

Inductive DirectResponse :=
| HandshakeAccepted (h : Handshake)
| Status (s : SyncStatus)
| Headers (headers : list FinalizedHeader)
| BlockBodies (bodies : list BlockBody)
| Blocks (blocks : list FinalizedBlock)
| ManifestBytes (b : bytes)
| ChunkBytes (b : bytes)
| History (items : list bytes)
| ConsensusAccepted
| Rejected (code : Z).

(** The additions of the size of a response, [overflow] when they leave [usize]. *)
Definition add_size (overflow : string) (total size : Z) : outcome string Z :=
  ok_or (checked_add 64 total size) overflow.

(** One item of each of the loops of [validate_transport]. *)
Definition header_size (total : Z) (h : FinalizedHeader) : outcome string Z :=
  if (length (fh_header h) =? 0)%nat || (MAX_CONSENSUS_MESSAGE_BYTES <? zlen (fh_header h)) ||
     (MAX_CONSENSUS_MESSAGE_BYTES <? zlen (fh_finality_proof h))
  then Err "invalid finalized header bytes"
  else
    let? total := add_size "finalized header response size overflow" total (zlen (fh_header h)) in
    add_size "finalized header response size overflow" total (zlen (fh_finality_proof h)).

Definition body_size (total : Z) (b : BlockBody) : outcome string Z :=
  if (length (bb_block b) =? 0)%nat || (MAX_CONSENSUS_BLOCK_BYTES <? zlen (bb_block b))
  then Err "invalid block body bytes"
  else add_size "block body response size overflow" total (zlen (bb_block b)).

Definition block_size (total : Z) (b : FinalizedBlock) : outcome string Z :=
  run? validate_block_transport b in
  let? total := add_size "finalized response size overflow" total (zlen (fb_block b)) in
  add_size "finalized response size overflow" total (zlen (fb_finality_proof b)).

Definition item_size (total : Z) (item : bytes) : outcome unit Z :=
  ok_or (checked_add 64 total (zlen item)) tt.

(** [DirectResponse::validate_transport]. *)
Definition validate_response (r : DirectResponse) : outcome string unit :=
  match r with
  | Status s =>
      if sy_height s <? sy_checkpoint_height s then Err "checkpoint height exceeds finalized height" else Ok tt
  | Headers headers =>
      if MAX_HEADERS_PER_RESPONSE <? zlen headers then Err "too many finalized headers"
      else
        let? total := for_each header_size 0 headers in
        if MAX_DIRECT_RESPONSE_BYTES <? total then Err "finalized header response exceeds limit" else Ok tt
  | BlockBodies bodies =>
      if MAX_BLOCKS_PER_RESPONSE <? zlen bodies then Err "too many block bodies"
      else
        let? total := for_each body_size 0 bodies in
        if MAX_DIRECT_RESPONSE_BYTES <? total then Err "block body response exceeds limit" else Ok tt
  | Blocks blocks =>
      if MAX_BLOCKS_PER_RESPONSE <? zlen blocks then Err "too many finalized blocks"
      else
        let? total := for_each block_size 0 blocks in
        if MAX_DIRECT_RESPONSE_BYTES <? total then Err "finalized response exceeds limit" else Ok tt
  | ManifestBytes b =>
      if MAX_DIRECT_REQUEST_BYTES <? zlen b then Err "snapshot manifest exceeds limit" else Ok tt
  | ChunkBytes b =>
      if (length b =? 0)%nat || (MAX_STATE_CHUNK_BYTES <? zlen b)
      then Err "snapshot chunk exceeds limit" else Ok tt
  | History items =>
      if MAX_HISTORY_ITEMS <? zlen items then Err "too many history items"
      else
        match for_each item_size 0 items with
        | Ok total =>
            if MAX_DIRECT_RESPONSE_BYTES <? total then Err "history response exceeds limit" else Ok tt
        | _ => Err "history response exceeds limit"
        end
  | _ => Ok tt
  end.

Record RequestEnvelope := {
  re_request_id : Z;
  re_handshake : Handshake;
  re_request : DirectRequest;
}.

Record ResponseEnvelope := {
  rs_request_id : Z;
  rs_response : DirectResponse;
}.

Inductive EnvelopeError :=
| HandshakeFailed (e : HandshakeError)
| RequestFailed (text : string).

(** [RequestEnvelope::validate]. *)
Definition validate_envelope (e : RequestEnvelope) (local : Handshake) : outcome EnvelopeError unit :=
  if re_request_id e =? 0 then Err (RequestFailed "request id is zero")
  else
    run? map_err HandshakeFailed (validate_against (re_handshake e) local) in
    map_err RequestFailed (validate_request (re_request e)).

(** ** Gossip *)

Record FinalizedAnnouncement := {
  an_height : Z;
  an_consensus_hash : WireHash;
  an_domain_heads_root : WireHash;
}.

Inductive GossipMessage :=
| GossipTransaction (domain_id : WireHash) (envelope : bytes)
| GossipFinalized (announcement : FinalizedAnnouncement).

(** [GossipMessage::validate]. *)
Definition validate_gossip (m : GossipMessage) : outcome string unit :=
  match m with
  | GossipTransaction _ envelope =>
      if (length envelope =? 0)%nat || (MAX_TRANSACTION_ENVELOPE_BYTES <? zlen envelope)
      then Err "transaction envelope exceeds limit" else Ok tt
  | GossipFinalized a => if an_height a =? 0 then Err "zero-height finalized announcement" else Ok tt
  end.

(** [GossipMessage::domain_id]. *)
Definition gossip_domain (m : GossipMessage) : option DomainId :=
  match m with
  | GossipTransaction domain_id _ => Some domain_id
  | GossipFinalized _ => None
  end.

(** ** Capabilities *)

Lemma elem_of_dedup {A : Type} `{EqDecision A} (x : A) l : x ∈ dedup l ↔ x ∈ l.
Proof.
  induction l as [|a [|b l] IH]; [done|done|]. cbn. destruct (bool_decide_reflect (a = b)) as [->|Hne].
  - change (x ∈ dedup (b :: l) ↔ x ∈ b :: b :: l). rewrite IH, !elem_of_cons. naive_solver.
  - change (x ∈ a :: dedup (b :: l) ↔ x ∈ a :: b :: l). by rewrite elem_of_cons, IH, <-elem_of_cons.
Qed.

(** Sorting and removing duplicates gives a strictly increasing list. *)
Lemma sorted_dedup {K : Type} `{TotalOrder K, EqDecision K} (l : list K) :
  StronglySorted (key_le id) l → StronglySorted tlt (dedup l).
Proof.
  induction 1 as [|a l Hs IH Ha]; [constructor|]. destruct l as [|b l]; [repeat constructor|].
  cbn. destruct (bool_decide_reflect (a = b)) as [->|Hne]; [exact IH|]. constructor; [exact IH|].
  apply list.Forall_forall. intros x Hx. change (x ∈ dedup (b :: l)) in Hx. rewrite elem_of_dedup in Hx.
  assert (key_le id a b) as Hab by (rewrite list.Forall_forall in Ha; apply Ha; by left).
  assert (key_le id a x ∧ (x = b ∨ key_le id b x)) as [Hax Hbx].
  { rewrite list.Forall_forall in Ha. split; [by apply Ha|]. apply elem_of_cons in Hx as [->|Hx]; [by left|].
    right. inversion Hs as [|? ? _ Hb]; subst. rewrite list.Forall_forall in Hb. by apply Hb. }
  unfold key_le, id in *. rewrite <-not_true_iff_false, tltb_tlt in Hab, Hax.
  destruct (tlt_trichotomy a x) as [Hl|[->|Hl]]; [done| |done].
  destruct Hbx as [->|Hbx]; [done|]. rewrite <-not_true_iff_false, tltb_tlt in Hbx.
  destruct (tlt_trichotomy x b) as [Hl|[->|Hl]]; done.
Qed.

Lemma new_capabilities n g r caps :
  StronglySorted tlt (hs_capabilities (new_handshake n g r caps)) ∧
  ∀ c, c ∈ hs_capabilities (new_handshake n g r caps) ↔ c ∈ caps.
Proof.
  split; [apply sorted_dedup, sort_by_key_sorted|]. intros c. cbn. by rewrite elem_of_dedup, sort_by_key_perm.
Qed.

Lemma supports_iff h c : StronglySorted tlt (hs_capabilities h) → supports h c = true ↔ c ∈ hs_capabilities h.
Proof.
  intros Hs. unfold supports. rewrite <-(list_fmap_id (hs_capabilities h)) in Hs. split.
  - destruct (binary_search_by_key _ _ _) as [i|] eqn:E; [|done]. intros _.
    apply binary_search_by_inl in E as (a & Ha & E). apply tcompare_eq in E as <-. by eapply list_elem_of_lookup_2.
  - intros Hin. destruct (binary_search_by_key_complete id c (hs_capabilities h) Hs Hin) as (i & E & _). change (id c) with c in E. by rewrite E.
Qed.

Lemma validate_against_Ok h local :
  validate_against h local = Ok tt ↔
    hs_network_id h = hs_network_id local ∧ hs_genesis_hash h = hs_genesis_hash local ∧
    hs_protocol_version h = hs_protocol_version local ∧ hs_codec_version h = hs_codec_version local ∧
    hs_direct_protocol_version h = hs_direct_protocol_version local ∧
    hs_max_frame_bytes h ≠ 0 ∧ hs_max_frame_bytes h ≤ MAX_DIRECT_RESPONSE_BYTES ∧
    StronglySorted tlt (hs_capabilities h).
Proof.
  rewrite <-strict_StronglySorted. unfold validate_against. split.
  - intros Hv. ok_inv. bool_prop. done.
  - intros (-> & -> & -> & -> & -> & Hz & Hm & ->). rewrite !bool_decide_true, !Z.eqb_refl by done. cbn [negb].
    by rewrite (proj2 (Z.eqb_neq _ _) Hz), (proj2 (Z.ltb_ge _ _) Hm).
Qed.

(** Two nodes of the same network and genesis accept each other, whatever their roles
    and capabilities, and see exactly the capabilities that were listed. *)
Lemma handshake_accepts n g r caps r' caps' :
  let h := new_handshake n g r caps in
  validate_against h (new_handshake n g r' caps') = Ok tt ∧
  ∀ c, supports h c = true ↔ c ∈ caps.
Proof.
  cbn zeta. destruct (new_capabilities n g r caps) as [Hs Hc]. split.
  - by apply validate_against_Ok.
  - intros c. by rewrite supports_iff, Hc.
Qed.

(** ** What a response can hold *)

Definition response_bytes (r : DirectResponse) : Z :=
  match r with
  | Headers headers => zsum (λ h, zlen (fh_header h) + zlen (fh_finality_proof h)) headers
  | BlockBodies bodies => zsum (λ b, zlen (bb_block b)) bodies
  | Blocks blocks => zsum (λ b, zlen (fb_block b) + zlen (fb_finality_proof b)) blocks
  | ManifestBytes b => zlen b
  | ChunkBytes b => zlen b
  | History items => zsum zlen items
  | _ => 0
  end.

Lemma sum_loop {E A : Type} (size : A → Z) (body : Z → A → outcome E Z) l total total' :
  (∀ t a t', body t a = Ok t' → t' = t + size a) →
  for_each body total l = Ok total' → total' = total + zsum size l.
Proof.
  intros Hb. revert total. induction l as [|a l IH]; intros total Hl; cbn in Hl.
  { injection Hl as <-. cbn. lia. }
  apply obind_Ok in Hl as (t & Ht & Hl). apply Hb in Ht as ->. apply IH in Hl as ->. rewrite zsum_cons. lia.
Qed.

Lemma add_size_Ok text a b c : add_size text a b = Ok c → c = a + b.
Proof. unfold add_size. intros Ha. ok_inv. by apply checked_add_Some in Ha as [-> _]. Qed.

Lemma header_size_Ok t h t' : header_size t h = Ok t' → t' = t + (zlen (fh_header h) + zlen (fh_finality_proof h)).
Proof.
  unfold header_size. intros Ha. ok_inv. apply add_size_Ok in Ha as ->, Hok as ->. lia.
Qed.

Lemma body_size_Ok t b t' : body_size t b = Ok t' → t' = t + zlen (bb_block b).
Proof. unfold body_size. intros Ha. ok_inv. by apply add_size_Ok in Ha as ->. Qed.

Lemma block_size_Ok t b t' : block_size t b = Ok t' → t' = t + (zlen (fb_block b) + zlen (fb_finality_proof b)).
Proof.
  unfold block_size. intros Ha. apply obind_Ok in Ha as ([] & _ & Ha). ok_inv.
  apply add_size_Ok in Ha as ->, Hok as ->. lia.
Qed.

Lemma item_size_Ok t b t' : item_size t b = Ok t' → t' = t + zlen b.
Proof. unfold item_size. intros Ha. ok_inv. by apply checked_add_Some in Ha as [-> _]. Qed.

(** No response that passes the transport checks carries more than the frame limit. *)
Lemma response_bounded r : validate_response r = Ok tt → response_bytes r ≤ MAX_DIRECT_RESPONSE_BYTES.
Proof.
  assert (MAX_DIRECT_REQUEST_BYTES ≤ MAX_DIRECT_RESPONSE_BYTES ∧ MAX_STATE_CHUNK_BYTES ≤ MAX_DIRECT_RESPONSE_BYTES ∧
    0 ≤ MAX_DIRECT_RESPONSE_BYTES) as (B1 & B2 & B3) by (by vm_compute).
  destruct r as [h|s|l|l|l|b|b|l| |c]; cbn [validate_response response_bytes]; intros Hv; try lia.
  - ok_inv. apply (sum_loop _ _ _ _ _ header_size_Ok) in Hok as ->. bool_prop. lia.
  - ok_inv. apply (sum_loop _ _ _ _ _ body_size_Ok) in Hok as ->. bool_prop. lia.
  - ok_inv. apply (sum_loop _ _ _ _ _ block_size_Ok) in Hok as ->. bool_prop. lia.
  - ok_inv. bool_prop. lia.
  - ok_inv. bool_prop. lia.
  - destruct (MAX_HISTORY_ITEMS <? zlen l); [done|]. destruct (for_each item_size 0 l) as [t| |] eqn:E; [|done|done].
    apply (sum_loop _ _ _ _ _ item_size_Ok) in E as ->. ok_inv. bool_prop. lia.
Qed.

(** No check of a message panics, whatever the message holds. *)
Lemma validate_response_no_panic r m : validate_response r ≠ Panic m.
Proof.
  assert (∀ text a b, add_size text a b ≠ Panic m) as Ha by (intros; unfold add_size; by destruct (checked_add _ _ _)).
  destruct r as [h|s|l|l|l|b|b|l| |c]; cbn [validate_response]; try (by repeat case_match).
  - destruct (_ <? _); [done|]. apply obind_no_panic; [|intros; by case_match]. apply for_each_no_panic. intros t x _. unfold header_size.
    destruct (_ || _); [done|]. apply obind_no_panic; [apply Ha|intros; apply Ha].
  - destruct (_ <? _); [done|]. apply obind_no_panic; [|intros; by case_match]. apply for_each_no_panic. intros t x _. unfold body_size.
    destruct (_ || _); [done|apply Ha].
  - destruct (_ <? _); [done|]. apply obind_no_panic; [|intros; by case_match]. apply for_each_no_panic. intros t x _. unfold block_size.
    apply obind_no_panic; [unfold validate_block_transport; by repeat case_match|]. intros [] _. apply obind_no_panic; [apply Ha|intros; apply Ha].
Qed.

Lemma validate_response_total r : validate_response r = Ok tt ∨ ∃ e, validate_response r = Err e.
Proof.
  destruct (validate_response r) as [[]|e|m] eqn:E; [by left|right; by exists e|]. by apply validate_response_no_panic in E.
Qed.

Lemma validate_against_total h local : validate_against h local = Ok tt ∨ ∃ e, validate_against h local = Err e.
Proof. unfold validate_against. repeat (case_match; eauto). Qed.

Lemma validate_envelope_total e local : validate_envelope e local = Ok tt ∨ ∃ x, validate_envelope e local = Err x.
Proof.
  unfold validate_envelope. destruct (re_request_id e =? 0); [eauto|].
  destruct (validate_against_total (re_handshake e) local) as [->|[x ->]]; [|cbn; eauto].
  cbn [map_err obind]. unfold validate_request. repeat (case_match; cbn; eauto).
Qed.

Lemma validate_envelope_Ok e local :
  validate_envelope e local = Ok tt ↔
    re_request_id e ≠ 0 ∧ validate_against (re_handshake e) local = Ok tt ∧ validate_request (re_request e) = Ok tt.
Proof.
  unfold validate_envelope. destruct (Z.eqb_spec (re_request_id e) 0); [naive_solver|]. rewrite obind_Ok. split.
  - intros ([] & Hv & Hr). apply map_err_Ok in Hv, Hr. done.
  - intros (_ & -> & ->). by exists tt.
Qed.
