(* ===== verification/Sync.v ===== *)
(** Header and block synchronization (src/crates/arbor-network/src/sync.rs).

    The verifier of headers and the importer of blocks are the traits of the code:
    the class [HeaderFinalityVerifier] and the class [BlockImport].

    Main results: headers that are accepted extend the local head by an unbroken chain
    of hashes up to, and never beyond, the advertised one, so two peers that convince a
    node of the same head gave it the same headers ([header_sync_sound]);
    only verified blocks in sequence reach the importer
    ([import_blocks_sound]). *)

From Stdlib Require Import Strings.Byte.
From S2P Require Import Prelude Bytes BTreeMap Primitives Canonical Crypto Merkle ChainBlock Protocol.

Local Open Scope Z_scope.

(** An error whose text the code prints. *)
Inductive decode_failure :=
| CodecFailure (e : CodecError)
| CryptoFailure (e : CryptoError)
| ChainFailure (e : ChainError).

(** ** Headers *)

Class HeaderFinalityVerifier := {
  verify_header : FinalizedHeader → ConsensusBlockHeader → outcome string unit;
}.

(** [DevelopmentHeaderVerifier]. *)
Definition development_verify_header (finalized : FinalizedHeader) (_ : ConsensusBlockHeader) : outcome string unit :=
  if (length (fh_finality_proof finalized) =? 0)%nat then Ok tt
  else Err "development header finality proof must be empty".

Record VerifiedHeader := {
  vh_header : ConsensusBlockHeader;
  vh_finality_proof : bytes;
}.

Inductive HeaderSyncError :=
| TooManyHeaders
| UnsolicitedHeaders
| EmptyHeaders
| NonSequential (expected actual : Z)
| HeaderClaimedHeight
| ParentMismatch
| HeaderDecode (why : decode_failure)
| HeaderFinality (text : string)
| HeaderRemoteTip
| BodyCount
| BodyHeight
| BodyHeader.

Section headers.
Context `{Keccak, HeaderFinalityVerifier}.

(** The height and the parent the next header must have, and the headers accepted. *)
Notation header_state := (Z * bytes * list VerifiedHeader)%type.

(** One header of the loop of [verify_response]. *)
Definition accept_header (remote : SyncStatus) (st : header_state) (finalized : FinalizedHeader)
    : outcome HeaderSyncError header_state :=
  let '(expected_height, expected_parent, accepted) := st in
  if negb (fh_height finalized =? expected_height) || (sy_height remote <? fh_height finalized)
  then Err (NonSequential expected_height (fh_height finalized))
  else
    let? header := map_err (λ e, HeaderDecode (CodecFailure e)) (decode_consensus_header (fh_header finalized)) in
    if negb (ch_height header =? fh_height finalized) then Err HeaderClaimedHeight
    else if negb (bool_decide (ch_parent_hash header = expected_parent)) then Err ParentMismatch
    else
      run? map_err HeaderFinality (verify_header finalized header) in
      let? expected_parent := map_err (λ e, HeaderDecode (CryptoFailure e)) (consensus_header_hash header) in
      Ok (saturating_add 64 expected_height 1, expected_parent,
          accepted ++ [{| vh_header := header; vh_finality_proof := fh_finality_proof finalized |}]).

(** [HeaderSync::verify_response]. *)
Definition verify_headers (local remote : SyncStatus) (headers : list FinalizedHeader)
    : outcome HeaderSyncError (list VerifiedHeader) :=
  if MAX_HEADERS_PER_RESPONSE <? zlen headers then Err TooManyHeaders
  else if sy_height remote <=? sy_height local then
    if (length headers =? 0)%nat then Ok [] else Err UnsolicitedHeaders
  else if (length headers =? 0)%nat then Err EmptyHeaders
  else
    let? '(expected_height, expected_parent, accepted) :=
      for_each (accept_header remote) (saturating_add 64 (sy_height local) 1, sy_consensus_hash local, []) headers in
    match list.last accepted with
    | Some tip =>
        if (ch_height (vh_header tip) =? sy_height remote) &&
           (negb (bool_decide (expected_parent = sy_consensus_hash remote)) ||
            negb (bool_decide (ch_domain_heads_root (vh_header tip) = sy_domain_heads_root remote)))
        then Err HeaderRemoteTip
        else Ok accepted
    | None => Ok accepted
    end.
End headers.

(** One body of [finalized_blocks_from_bodies]. *)
Definition match_body (item : VerifiedHeader * BlockBody) : outcome HeaderSyncError FinalizedBlock :=
  let '(verified, body) := item in
  if negb (bb_height body =? ch_height (vh_header verified)) then Err BodyHeight
  else
    let? block := map_err (λ e, HeaderDecode (ChainFailure e)) (decode_consensus_block (bb_block body)) in
    if negb (bool_decide (cb_header block = vh_header verified)) then Err BodyHeader
    else Ok {| fb_height := bb_height body; fb_block := bb_block body;
               fb_finality_proof := vh_finality_proof verified |}.

Definition finalized_blocks_from_bodies (headers : list VerifiedHeader) (bodies : list BlockBody)
    : outcome HeaderSyncError (list FinalizedBlock) :=
  if negb (length bodies =? length headers)%nat then Err BodyCount
  else collect match_body (zip headers bodies).

(** ** Blocks *)

(** [BlockImport]: an import returns the importer it leaves, whatever its outcome. *)
Class BlockImport (I : Type) := {
  status : I → outcome string SyncStatus;
  verify_finality : I → FinalizedBlock → ConsensusBlock → outcome string unit;
  import_block : I → ConsensusBlock → outcome string SyncStatus * I;
}.

Inductive BlockSyncError :=
| InvalidLimit
| TooManyBlocks (limit actual : Z)
| UnsolicitedBlocks
| EmptyBlocks (local remote : Z)
| NonSequentialHeight (expected actual : Z)
| BlockClaimedHeight (claimed decoded : Z)
| TransportFailed (text : string)
| BlockDecode (why : decode_failure)
| BlockFinality (text : string)
| ApplicationFailed (text : string)
| BlockRemoteTip.

(** [BlockSync] is its limit. *)
Definition BlockSync : Type := Z.

Definition default_sync : BlockSync := MAX_BLOCKS_PER_RESPONSE.

(** [BlockSync::new]. *)
Definition new_sync (max_blocks_per_response : Z) : outcome BlockSyncError BlockSync :=
  if (max_blocks_per_response =? 0) || (MAX_BLOCKS_PER_RESPONSE <? max_blocks_per_response)
  then Err InvalidLimit
  else Ok max_blocks_per_response.

Definition next_request (sync : BlockSync) (local remote : SyncStatus) : option (Z * Z) :=
  if sy_height remote <=? sy_height local then None
  else
    let remaining := sy_height remote - sy_height local in
    Some (saturating_add 64 (sy_height local) 1, Z.min (default (umax 16) (try_from 16 remaining)) sync).

Record BlockSyncReport := {
  bs_before : SyncStatus;
  bs_after : SyncStatus;
  bs_imported : Z;
}.

Section blocks.
Context `{Keccak} {I : Type} `{!BlockImport I}.

(** What one block of the loop of [import_response] checks before the import: the
    decoded block and its hash. *)
Definition check_block (importer : I) (remote : SyncStatus) (expected_height : Z) (finalized : FinalizedBlock)
    : outcome BlockSyncError (ConsensusBlock * bytes) :=
  run? map_err TransportFailed (validate_block_transport finalized) in
  if negb (fb_height finalized =? expected_height) || (sy_height remote <? fb_height finalized)
  then Err (NonSequentialHeight expected_height (fb_height finalized))
  else
    let? block := map_err (λ e, BlockDecode (ChainFailure e)) (decode_consensus_block (fb_block finalized)) in
    if negb (ch_height (cb_header block) =? fb_height finalized)
    then Err (BlockClaimedHeight (fb_height finalized) (ch_height (cb_header block)))
    else
      let? block_hash := map_err (λ e, BlockDecode (ChainFailure e)) (block_hash_of block) in
      run? map_err BlockFinality (verify_finality importer finalized block) in
      Ok (block, block_hash).

(** The loop: the importer it leaves, the last status and the number of imports. *)
Fixpoint import_blocks (importer : I) (remote : SyncStatus) (expected_height : Z) (current : SyncStatus)
    (imported : Z) (blocks : list FinalizedBlock) : outcome BlockSyncError (SyncStatus * Z) * I :=
  match blocks with
  | [] => (Ok (current, imported), importer)
  | finalized :: blocks' =>
      match check_block importer remote expected_height finalized with
      | Ok (block, block_hash) =>
          match import_block importer block with
          | (Ok current, importer) =>
              if negb (sy_height current =? expected_height) ||
                 negb (bool_decide (sy_consensus_hash current = block_hash))
              then (Err (ApplicationFailed "importer returned a status inconsistent with the committed block"),
                    importer)
              else
                import_blocks importer remote (saturating_add 64 expected_height 1) current (imported + 1) blocks'
          | (Err e, importer) => (Err (ApplicationFailed e), importer)
          | (Panic m, importer) => (Panic m, importer)
          end
      | Err e => (Err e, importer)
      | Panic m => (Panic m, importer)
      end
  end.

Definition import_response (sync : BlockSync) (importer : I) (remote : SyncStatus) (blocks : list FinalizedBlock)
    : outcome BlockSyncError BlockSyncReport * I :=
  if sync <? zlen blocks then (Err (TooManyBlocks sync (zlen blocks)), importer)
  else
    match map_err ApplicationFailed (status importer) with
    | Ok before =>
        if sy_height remote <=? sy_height before then
          if (length blocks =? 0)%nat
          then (Ok {| bs_before := before; bs_after := before; bs_imported := 0 |}, importer)
          else (Err UnsolicitedBlocks, importer)
        else if (length blocks =? 0)%nat
        then (Err (EmptyBlocks (sy_height before) (sy_height remote)), importer)
        else
          match import_blocks importer remote (saturating_add 64 (sy_height before) 1) before 0 blocks with
          | (Ok (current, imported), importer) =>
              if (sy_height current =? sy_height remote) &&
                 (negb (bool_decide (sy_consensus_hash current = sy_consensus_hash remote)) ||
                  negb (bool_decide (sy_domain_heads_root current = sy_domain_heads_root remote)))
              then (Err BlockRemoteTip, importer)
              else (Ok {| bs_before := before; bs_after := current; bs_imported := imported |}, importer)
          | (Err e, importer) => (Err e, importer)
          | (Panic m, importer) => (Panic m, importer)
          end
    | Err e => (Err e, importer)
    | Panic m => (Panic m, importer)
    end.
End blocks.

(** ** Chains of headers *)

Section chains.
Context `{Keccak, HeaderFinalityVerifier}.

(** Headers of consecutive heights from [height] on, each the parent of the next, from
    [parent] up to [tip]. *)
Fixpoint chained (height : Z) (parent : bytes) (headers : list ConsensusBlockHeader) (tip : bytes) : Prop :=
  match headers with
  | [] => tip = parent
  | header :: headers' =>
      ch_height header = height ∧ ch_parent_hash header = parent ∧
      ∃ hash, consensus_header_hash header = Ok hash ∧ chained (height + 1) hash headers' tip
  end.

Lemma chained_app height parent l1 l2 tip :
  chained height parent (l1 ++ l2) tip ↔
    ∃ middle, chained height parent l1 middle ∧ chained (height + zlen l1) middle l2 tip.
Proof.
  revert height parent. induction l1 as [|h l1 IH]; intros height parent; cbn [app chained].
  - rewrite zlen_nil, Z.add_0_r. split; [intros Hc; by exists parent|by intros (? & -> & Hc)].
  - rewrite zlen_cons, Z.add_assoc. setoid_rewrite IH. naive_solver.
Qed.

(** A header of the response and what it was accepted as. *)
Record header_ok (remote : SyncStatus) (finalized : FinalizedHeader) (v : VerifiedHeader) : Prop := {
  ho_decoded : decode_consensus_header (fh_header finalized) = Ok (vh_header v);
  ho_height : ch_height (vh_header v) = fh_height finalized;
  ho_below : fh_height finalized ≤ sy_height remote;
  ho_verified : verify_header finalized (vh_header v) = Ok tt;
  ho_proof : vh_finality_proof v = fh_finality_proof finalized;
}.

Lemma accept_header_Ok remote height parent accepted f height' parent' accepted' :
  accept_header remote (height, parent, accepted) f = Ok (height', parent', accepted') →
  ∃ v, header_ok remote f v ∧ accepted' = accepted ++ [v] ∧ height' = saturating_add 64 height 1 ∧
    ch_height (vh_header v) = height ∧ ch_parent_hash (vh_header v) = parent ∧
    consensus_header_hash (vh_header v) = Ok parent'.
Proof.
  unfold accept_header. intros Ha. destruct (_ || _) eqn:Hg in Ha; [done|].
  apply obind_Ok in Ha as (header & Hd & Ha). apply map_err_Ok in Hd.
  destruct (negb (ch_height header =? _)) eqn:Hh in Ha; [done|]. destruct (negb (bool_decide _)) eqn:Hp in Ha; [done|].
  apply obind_Ok in Ha as ([] & Hv & Ha). apply map_err_Ok in Hv. apply obind_Ok in Ha as (hash & Hx & [= <- <- <-]).
  apply map_err_Ok in Hx. bool_prop. exists {| vh_header := header; vh_finality_proof := fh_finality_proof f |}.
  split_and!; [by split|done|done|cbn; congruence|done|done].
Qed.

Lemma accept_headers_Ok remote headers height parent accepted height' parent' accepted' :
  sy_height remote < umax 64 → height ≤ umax 64 →
  for_each (accept_header remote) (height, parent, accepted) headers = Ok (height', parent', accepted') →
  ∃ new, Forall2 (header_ok remote) headers new ∧ accepted' = accepted ++ new ∧
    chained height parent (vh_header <$> new) parent'.
Proof.
  intros Hr. revert height parent accepted. induction headers as [|f headers IH]; intros height parent accepted Hh Hl; cbn in Hl.
  { injection Hl as <- <- <-. exists []. by rewrite app_nil_r. }
  apply obind_Ok in Hl as ([[height1 parent1] accepted1] & Ha & Hl).
  apply accept_header_Ok in Ha as (v & Hv & -> & -> & Eh & Ep & Ehash).
  assert (saturating_add 64 height 1 = height + 1) as Es.
  { pose proof (ho_height _ _ _ Hv). pose proof (ho_below _ _ _ Hv). unfold saturating_add. lia. }
  rewrite Es in Hl. apply IH in Hl as (new & Hn & -> & Hc).
  - exists (v :: new). rewrite <-app_assoc. split_and!; [by constructor|done|]. cbn. by eauto 10.
  - pose proof (ho_height _ _ _ Hv). pose proof (ho_below _ _ _ Hv). lia.
Qed.

(** What acceptance of a response means, when the peer is ahead. *)
Record headers_accepted (local remote : SyncStatus) (headers : list FinalizedHeader) (accepted : list VerifiedHeader)
    (tip : bytes) : Prop := {
  ha_each : Forall2 (header_ok remote) headers accepted;
  ha_chained : chained (sy_height local + 1) (sy_consensus_hash local) (vh_header <$> accepted) tip;
  ha_some : accepted ≠ [];
  ha_count : zlen accepted ≤ MAX_HEADERS_PER_RESPONSE;
  ha_tip : ∀ v, list.last accepted = Some v → ch_height (vh_header v) = sy_height remote →
    tip = sy_consensus_hash remote ∧ ch_domain_heads_root (vh_header v) = sy_domain_heads_root remote;
}.

Lemma verify_headers_Ok local remote headers accepted :
  u64 (sy_height local) → sy_height remote < umax 64 → sy_height local < sy_height remote →
  verify_headers local remote headers = Ok accepted →
  ∃ tip, headers_accepted local remote headers accepted tip.
Proof.
  intros Hu Hr Hlt. unfold verify_headers. intros Hv.
  destruct (Z.ltb_spec MAX_HEADERS_PER_RESPONSE (zlen headers)) as [|Hc]; [done|].
  rewrite (proj2 (Z.leb_gt _ _) Hlt) in Hv. destruct (length headers =? 0)%nat eqn:Hne; [done|].
  apply obind_Ok in Hv as ([[h p] acc] & Hl & Hv).
  assert (saturating_add 64 (sy_height local) 1 = sy_height local + 1) as Es by (unfold saturating_add; lia).
  rewrite Es in Hl. apply accept_headers_Ok in Hl as (new & Hn & -> & Hch); [|done|lia]. cbn [app] in Hv.
  pose proof Hn as El%Forall2_length.
  assert (new ≠ []) as Hnew by (intros ->; apply Nat.eqb_neq in Hne; cbn in El; lia).
  exists p. destruct (list.last new) as [v|] eqn:Hlast; [|by apply last_None in Hlast].
  destruct (_ && _) eqn:Htip in Hv; [done|]. injection Hv as <-. split; try done.
  - unfold zlen in *. lia.
  - intros v' E Eh. rewrite Hlast in E. injection E as <-. rewrite Eh, Z.eqb_refl in Htip. cbn in Htip. by bool_prop.
Qed.

(** The canonical encodings of the headers of [l]. *)
Definition encodings (l : list ConsensusBlockHeader) (b : bytes) : Prop :=
  ∃ h, h ∈ l ∧ encode_consensus_header h = Ok b.

(** Two chains of one length that end in the same hash are the same, or two of their
    headers collide. *)
Lemma chained_binding height parent parent' l1 l2 tip :
  Forall wf_consensus_header l1 → Forall wf_consensus_header l2 → length l1 = length l2 →
  chained height parent l1 tip → chained height parent' l2 tip →
  l1 = l2 ∨ ∃ p q, encodings l1 p ∧ encodings l2 q ∧ p ≠ q ∧ keccak256 p = keccak256 q.
Proof.
  revert l2 tip. induction l1 as [|a l1 IH] using rev_ind; intros l2 tip W1 W2 El C1 C2.
  { destruct l2; [by left|done]. }
  destruct l2 as [|b l2 _] using rev_ind; [rewrite length_app in El; cbn in El; lia|].
  rewrite !length_app in El. cbn in El. apply Forall_app in W1 as [W1 Wa], W2 as [W2 Wb].
  rewrite list.Forall_singleton in Wa, Wb.
  apply chained_app in C1 as (m1 & C1 & (_ & Pa & ha & Ha & Ta)), C2 as (m2 & C2 & (_ & Pb & hb & Hb & Tb)).
  cbn in Ta, Tb. subst ha hb.
  assert (binding wf_consensus_header encode_consensus_header consensus_header_hash) as Hbind.
  { eapply canonical_binding; [exact consensus_header_codec|]. unfold consensus_header_hash. intros v h Hh. ok_inv. eauto. }
  destruct (Hbind _ _ _ Wa Wb Ha Hb) as [->|(p & q & Ep & Eq & Hpq)].
  2: { right. exists p, q. split_and!; try apply Hpq; [exists a|exists b]; (split; [|done]); apply elem_of_app; right; by left. }
  assert (m1 = m2) as -> by congruence.
  destruct (IH l2 m2 W1 W2 ltac:(lia) C1 C2) as [->|(p & q & (x & Hx & Ep) & (y & Hy & Eq) & Hpq)]; [by left|].
  right. exists p, q. split_and!; try apply Hpq; [exists x|exists y]; (split; [|done]); apply elem_of_app; by left.
Qed.

Lemma accepted_wf remote headers accepted :
  Forall2 (header_ok remote) headers accepted → Forall wf_consensus_header (vh_header <$> accepted).
Proof.
  induction 1 as [|f v headers accepted Hv _ IH]; [constructor|]. constructor; [|done].
  destruct consensus_header_codec as (_ & Hs & _). by destruct (Hs _ _ (ho_decoded _ _ _ Hv)).
Qed.

Lemma last_height height parent l tip v :
  chained height parent (l ++ [v]) tip → ch_height v = height + zlen l.
Proof. intros (m & _ & E & _)%chained_app. done. Qed.

Lemma reaches_tip local remote headers accepted tip :
  headers_accepted local remote headers accepted tip → zlen accepted = sy_height remote - sy_height local →
  tip = sy_consensus_hash remote.
Proof.
  intros [He Hc Hs _ Ht] Hl. destruct accepted as [|v l _] using rev_ind; [done|].
  rewrite fmap_app in Hc. pose proof (last_height _ _ _ _ _ Hc) as Eh. unfold zlen in *.
  rewrite length_fmap in Eh. rewrite length_app in Hl. cbn in Hl.
  apply (Ht v); [by rewrite last_snoc|lia].
Qed.

(** C9. What header synchronization accepts. When the peer claims to be ahead, accepted
    headers are those of the response, each canonically encoded, accepted by the
    finality verifier and not above the peer's head; they form a chain of hashes from
    the local head with consecutive heights; at the peer's height the chain ends in the
    hash and the domain heads the peer advertised. So two responses that reach the same
    advertised head hold the same headers, or the encodings of two of those headers are
    a Keccak-256 collision. *)
Theorem header_sync_sound local remote headers accepted headers' accepted' :
  u64 (sy_height local) → sy_height remote < umax 64 → sy_height local < sy_height remote →
  verify_headers local remote headers = Ok accepted → verify_headers local remote headers' = Ok accepted' →
  (∃ tip, headers_accepted local remote headers accepted tip) ∧
  (zlen accepted = sy_height remote - sy_height local → zlen accepted' = sy_height remote - sy_height local →
   vh_header <$> accepted = vh_header <$> accepted' ∨
   ∃ p q, encodings (vh_header <$> accepted) p ∧ encodings (vh_header <$> accepted') q ∧
     p ≠ q ∧ keccak256 p = keccak256 q).
Proof.
  intros Hu Hr Hlt H1' H2'.
  apply verify_headers_Ok in H1' as (t1 & A1), H2' as (t2 & A2); try done. split; [by exists t1|].
  intros L1 L2. assert (length accepted = length accepted') as El by (unfold zlen in *; lia).
  pose proof (reaches_tip _ _ _ _ _ A1 L1) as ->. pose proof (reaches_tip _ _ _ _ _ A2 L2) as ->.
  eapply chained_binding; [eapply accepted_wf, A1|eapply accepted_wf, A2|by rewrite !length_fmap|apply A1|apply A2].
Qed.
End chains.

(** ** Imports *)

Section imports.
Context `{Keccak} {I : Type} `{!BlockImport I}.

(** Blocks imported in sequence, each of them checked before it is imported. *)
Inductive imports (remote : SyncStatus) : Z → I → list FinalizedBlock → I → Prop :=
| imports_nil height i : imports remote height i [] i
| imports_cons height i f block hash s i' rest i'' :
    check_block i remote height f = Ok (block, hash) → import_block i block = (Ok s, i') →
    sy_height s = height → sy_consensus_hash s = hash →
    imports remote (height + 1) i' rest i'' → imports remote height i (f :: rest) i''.

(** What the check of a block establishes. *)
Lemma check_block_Ok i remote height f block hash :
  check_block i remote height f = Ok (block, hash) →
  fb_height f = height ∧ height ≤ sy_height remote ∧ validate_block_transport f = Ok tt ∧
  decode_consensus_block (fb_block f) = Ok block ∧ ch_height (cb_header block) = height ∧
  block_hash_of block = Ok hash ∧ verify_finality i f block = Ok tt.
Proof.
  unfold check_block. intros Hc. apply obind_Ok in Hc as ([] & Ht & Hc). apply map_err_Ok in Ht.
  destruct (_ || _) eqn:Hg in Hc; [done|]. apply obind_Ok in Hc as (b & Hb & Hc). apply map_err_Ok in Hb.
  destruct (negb _) eqn:Hh in Hc; [done|]. apply obind_Ok in Hc as (x & Hx & Hc). apply map_err_Ok in Hx.
  apply obind_Ok in Hc as ([] & Hv & [= -> ->]). apply map_err_Ok in Hv. bool_prop. split_and!; try done; lia.
Qed.

(** The importer a failed block leaves: untouched when a check fails, the one the
    import left otherwise. *)
Definition stopped_at (remote : SyncStatus) (height : Z) (i : I) (f : FinalizedBlock) (i' : I) : Prop :=
  i' = i ∨ ∃ block hash, check_block i remote height f = Ok (block, hash) ∧ i' = (import_block i block).2.

Lemma import_blocks_sound i remote height current n blocks r i' :
  sy_height remote < umax 64 → import_blocks i remote height current n blocks = (r, i') →
  ∃ done rest i1, blocks = done ++ rest ∧ imports remote height i done i1 ∧
    match r with
    | Ok (s, m) => rest = [] ∧ i' = i1 ∧ m = n + zlen blocks ∧
        (blocks = [] ∧ s = current ∨ blocks ≠ [] ∧ sy_height s = height + zlen blocks - 1)
    | _ => ∃ f rest', rest = f :: rest' ∧ stopped_at remote (height + zlen done) i1 f i'
    end.
Proof.
  intros Hr. revert i height current n. induction blocks as [|f blocks IH]; intros i height current n Hi; cbn [import_blocks] in Hi.
  { injection Hi as <- <-. exists [], [], i. split_and!; [done|constructor|done|done|by rewrite zlen_nil, Z.add_0_r|by left]. }
  assert (∀ r', (r', i) = (r, i') → (∀ x, r' ≠ Ok x) → ∃ done rest i1, f :: blocks = done ++ rest ∧
    imports remote height i done i1 ∧ match r with Ok (s, m) => rest = [] ∧ i' = i1 ∧ m = n + zlen (f :: blocks) ∧
        (f :: blocks = [] ∧ s = current ∨ f :: blocks ≠ [] ∧ sy_height s = height + zlen (f :: blocks) - 1)
      | _ => ∃ f rest', rest = f :: rest' ∧ stopped_at remote (height + zlen done) i1 f i' end) as Hstop.
  { intros r' [= <- <-] Hno. exists [], (f :: blocks), i. split_and!; [done|constructor|].
    rewrite zlen_nil, Z.add_0_r. destruct r' as [x| |]; [by destruct (Hno x)|..]; exists f, blocks; (split; [done|by left]). }
  destruct (check_block i remote height f) as [[block hash]|e|m] eqn:Hc; [|by eapply Hstop; [exact Hi|]..].
  destruct (import_block i block) as [[s|e|m] i1] eqn:Him.
  2,3: injection Hi as <- <-; exists [], (f :: blocks), i; rewrite zlen_nil, Z.add_0_r; split_and!; [done|constructor|];
    exists f, blocks; (split; [done|]); right; exists block, hash; by rewrite Him.
  destruct (_ || _) eqn:Hs in Hi.
  { injection Hi as <- <-. exists [], (f :: blocks), i. rewrite zlen_nil, Z.add_0_r. split_and!; [done|constructor|].
    exists f, blocks. split; [done|]. right. exists block, hash. by rewrite Him. }
  bool_prop. pose proof (check_block_Ok _ _ _ _ _ _ Hc) as (_ & Hle & _).
  assert (saturating_add 64 height 1 = height + 1) as Es by (unfold saturating_add; lia). rewrite Es in Hi.
  apply IH in Hi as (done & rest & i2 & -> & Hd & Hres). exists (f :: done), rest, i2.
  split_and!; [done|by econstructor|]. destruct r as [[s' m]|e|m].
  - destruct Hres as (-> & -> & -> & Hs'). rewrite !zlen_cons. split_and!; [done|done|lia|]. right. split; [done|].
    destruct Hs' as [[-> ->]|[_ ->]]; [rewrite zlen_nil|]; lia.
  - destruct Hres as (f' & rest' & -> & Hst). exists f', rest'. split; [done|]. rewrite zlen_cons.
    by replace (height + (1 + zlen done)) with (height + 1 + zlen done) by lia.
  - destruct Hres as (f' & rest' & -> & Hst). exists f', rest'. split; [done|]. rewrite zlen_cons.
    by replace (height + (1 + zlen done)) with (height + 1 + zlen done) by lia.
Qed.
End imports.

Module SyncWitness.
#[local] Existing Instance Toy.toy_keccak.
#[local] Instance development_header : HeaderFinalityVerifier := {| verify_header := development_verify_header |}.

Definition header (height : Z) (parent : bytes) : ConsensusBlockHeader :=
  {| ch_protocol_version := 1; ch_network_id := repeat_byte 32 17; ch_height := height; ch_parent_hash := parent;
     ch_timestamp := 1000 + height; ch_batches_root := repeat_byte 32 1; ch_domain_results_root := repeat_byte 32 2;
     ch_domain_heads_root := repeat_byte 32 3; ch_validator_set_hash := repeat_byte 32 4;
     ch_next_validator_set_hash := repeat_byte 32 4; ch_proposer := repeat_byte 20 height |}.

Definition hash_of (h : ConsensusBlockHeader) : bytes := match consensus_header_hash h with Ok x => x | _ => [] end.

Definition sent (h : ConsensusBlockHeader) : FinalizedHeader :=
  {| fh_height := ch_height h; fh_header := match encode_consensus_header h with Ok b => b | _ => [] end;
     fh_finality_proof := [] |}.

Definition local : SyncStatus :=
  {| sy_height := 0; sy_consensus_hash := repeat_byte 32 9; sy_domain_heads_root := repeat_byte 32 3; sy_checkpoint_height := 0 |}.

Definition first : ConsensusBlockHeader := header 1 (sy_consensus_hash local).
Definition second : ConsensusBlockHeader := header 2 (hash_of first).

Definition remote : SyncStatus :=
  {| sy_height := 2; sy_consensus_hash := hash_of second; sy_domain_heads_root := repeat_byte 32 3; sy_checkpoint_height := 0 |}.

Definition accepted : list VerifiedHeader :=
  [{| vh_header := first; vh_finality_proof := [] |}; {| vh_header := second; vh_finality_proof := [] |}].

Lemma response_verifies : verify_headers local remote [sent first; sent second] = Ok accepted.
Proof. by_evaluation. Qed.

Lemma header_sync_sound_witness :
  (∃ tip, headers_accepted local remote [sent first; sent second] accepted tip) ∧
  vh_header <$> accepted = [first; second].
Proof.
  split; [|reflexivity].
  refine (proj1 (header_sync_sound local remote [sent first; sent second] accepted [sent first; sent second] accepted
    _ _ _ response_verifies response_verifies)); by_evaluation.
Defined.
End SyncWitness.
