(* ===== verification/SnapshotTransfer.v ===== *)
(** Checkpoint manifests, state chunks and their staging
    (src/crates/arbor-network/src/snapshot.rs).

    Main result: the codec of manifests is exact ([checkpoint_manifest_canonical]). What
    staging the chunks of a manifest gives is shown in SnapshotStage.v. *)

From Stdlib Require Import Strings.Byte.
From S2P Require Import Prelude Bytes BTreeMap Primitives Canonical Cursor Rlp Crypto Ethereum StateError.
From S2P Require Import Snapshot DomainHeads System Registry Trie Mpt MptBuild Account Overlay Mempool Storage.
From S2P Require Import Evm Executor Merkle ChainBlock ChainState Chain Typing DevGenesis EngineCheckpoint Protocol.
Import Cursor.

Local Open Scope Z_scope.
Local Open Scope reader_scope.

Definition MANIFEST_TAG : bytes := bstr "ARBOR_NETWORK_CHECKPOINT_V1".
Definition MANIFEST_VERSION : Z := 1.
Definition STATE_CHUNK_TAG : bytes := bstr "ARBOR_STATE_CHUNK_V1".
Definition STATE_CHUNK_VERSION : Z := 1.
Definition CHUNK_NODE : Z := 1.
Definition CHUNK_CODE : Z := 2.
Definition MAX_MANIFEST_DOMAINS : Z := 256.
Definition MAX_CHUNKS_PER_DOMAIN : Z := 65536.
Definition MAX_SNAPSHOT_TOTAL_BYTES : Z := 512 * 1024 * 1024.
Definition CHUNK_FIXED_BYTES : Z := 22 + 1 + 32 + 4 + 4.
Definition CHUNK_RECORD_FIXED_BYTES : Z := 1 + 32 + 4.

(** An error whose text the code prints. *)
Inductive state_failure :=
| StateFailure (e : StateError)
| EvmFailure (e : EvmError)
| ChainStateFailure (e : ChainError).

Inductive codec_failure :=
| CodecFailed (e : CodecError)
| CryptoFailed (e : CryptoError).

Inductive SnapshotError :=
| IdentityMismatch
| FinalityFailed (text : string)
| SnapshotLimit (text : string)
| MalformedSnapshot (text : string)
| SnapshotCodec (why : codec_failure)
| SnapshotState (why : state_failure)
| InvalidSnapshot (text : string)
| UnexpectedChunk
| ChunkHash
| ConflictingChunk
| IncompleteSnapshot.

Definition snap_codec {A : Type} (c : outcome CodecError A) : outcome SnapshotError A :=
  map_err (λ e, SnapshotCodec (CodecFailed e)) c.

Definition snap_state {A : Type} (c : outcome StateError A) : outcome SnapshotError A :=
  map_err (λ e, SnapshotState (StateFailure e)) c.

Definition snap_evm {A : Type} (c : outcome EvmError A) : outcome SnapshotError A :=
  map_err (λ e, SnapshotState (EvmFailure e)) c.

Record CheckpointDomain := {
  kd_domain_id : DomainId;
  kd_config : DomainConfig;
  kd_header : DomainBlockHeader;
  kd_block_hash : bytes;
  kd_descriptor : option DomainDescriptor;
  kd_state : SnapshotManifest;
  kd_head_proof : DomainHeadProof;
}.

Record CheckpointManifest := {
  km_network_id : NetworkId;
  km_genesis_hash : bytes;
  km_height : ConsensusHeight;
  km_consensus_hash : bytes;
  km_timestamp : Z;
  km_validator_set_hash : bytes;
  km_next_validator_set_hash : bytes;
  km_validator_set : ValidatorSet;
  km_domain_heads_root : bytes;
  km_root_domain_id : DomainId;
  km_governance_address : bytes;
  km_finality_proof : bytes;
  km_domains : list CheckpointDomain;
}.

(** [CheckpointFinalityVerifier]. *)
Class CheckpointFinalityVerifier := {
  verify_checkpoint : CheckpointManifest → outcome string unit;
}.

(** [DevelopmentCheckpointVerifier]. *)
Definition development_verify_checkpoint (m : CheckpointManifest) : outcome string unit :=
  if (length (km_finality_proof m) =? 0)%nat then Ok tt
  else Err "development checkpoint proof must be empty".

(** ** The manifest codec *)

(** [put_bytes]. *)
Definition put_prefixed (output value : bytes) : outcome SnapshotError bytes :=
  let? length := ok_or (try_from 32 (zlen value)) (SnapshotLimit "encoded field bytes") in
  Ok (output ++ to_be_bytes 4 length ++ value).

Definition encode_head_proof (output : bytes) (p : DomainHeadProof) : outcome SnapshotError bytes :=
  let output := output ++ hp_root p ++ hp_domain_id p in
  let output :=
    match hp_value p with
    | Some value =>
        output ++ to_be_bytes 1 1 ++ domain_block_hash value ++ DomainHeads.state_root value
    | None => output ++ to_be_bytes 1 0
    end in
  let? count := ok_or (try_from 16 (zlen (hp_siblings p))) (SnapshotLimit "domain-head proof siblings") in
  Ok (foldl app (output ++ to_be_bytes 2 count) (hp_siblings p)).

#[export] Instance snapshot_cursor : CursorErrors SnapshotError := {|
  ce_overflow := MalformedSnapshot "encoded cursor overflow";
  ce_truncated := MalformedSnapshot "truncated encoded input";
  ce_tag := MalformedSnapshot "encoded tag mismatch";
  ce_width width :=
    MalformedSnapshot (match width with
                       | 2%nat => "encoded u16"
                       | 4%nat => "encoded u32"
                       | 8%nat => "encoded u64"
                       | _ => "encoded u128"
                       end);
  ce_trailing := MalformedSnapshot "trailing encoded bytes";
|}.

(** The head of a proof: absent or two hashes. *)
Definition read_head (tag : Z) : reader SnapshotError (option DomainHead) :=
  if tag =? 0 then rret None
  else if tag =? 1 then
    let! block_hash := cursor_hash in
    let! root := cursor_hash in
    rret (Some {| domain_block_hash := block_hash; DomainHeads.state_root := root |})
  else rlift (Err (MalformedSnapshot "domain-head proof value")).

(** [decode_head_proof]. *)
Definition read_head_proof : reader SnapshotError DomainHeadProof :=
  let! root := cursor_hash in
  let! domain_id := cursor_hash in
  let! tag := cursor_uint 1 in
  let! value := read_head tag in
  let! count := cursor_uint 2 in
  run! rguard (negb (count =? 256)) (MalformedSnapshot "domain-head proof depth") in
  let! siblings := repeated cursor_hash (Z.to_nat count) in
  rret {| hp_root := root; hp_domain_id := domain_id; hp_value := value; hp_siblings := siblings |}.

Section manifest.
Context `{Keccak, Secp256k1}.

(** One domain of the loop of [validate_shape]. *)
Definition validate_domain (m : CheckpointManifest) (_ : unit) (d : CheckpointDomain)
    : outcome SnapshotError unit :=
  run? snap_state (validate_manifest (kd_state d)) in
  if negb (sm_consensus_height (kd_state d) =? km_height m) ||
     negb (bool_decide (sm_domain_id (kd_state d) = kd_domain_id d)) ||
     negb (bool_decide (sm_state_root (kd_state d) = dh_state_root (kd_header d))) ||
     negb (bool_decide (dh_domain_id (kd_header d) = kd_domain_id d)) ||
     negb (bool_decide (hp_root (kd_head_proof d) = km_domain_heads_root m)) ||
     negb (bool_decide (hp_domain_id (kd_head_proof d) = kd_domain_id d)) ||
     negb (bool_decide (hp_value (kd_head_proof d) =
                        Some {| domain_block_hash := kd_block_hash d;
                                DomainHeads.state_root := dh_state_root (kd_header d) |}))
  then Err (InvalidSnapshot "domain checkpoint metadata mismatch")
  else snap_state (DomainHeads.verify (kd_head_proof d)).

Definition validate_shape (m : CheckpointManifest) : outcome SnapshotError unit :=
  if km_height m =? 0 then Err (MalformedSnapshot "checkpoint height must be non-zero")
  else if MAX_CONSENSUS_MESSAGE_BYTES <? zlen (km_finality_proof m)
  then Err (SnapshotLimit "checkpoint finality proof")
  else if (length (km_domains m) =? 0)%nat || (MAX_MANIFEST_DOMAINS <? zlen (km_domains m))
  then Err (SnapshotLimit "checkpoint domain count")
  else if negb (windows2_all tltb (kd_domain_id <$> km_domains m))
  then Err (MalformedSnapshot "checkpoint domains are not strictly sorted")
  else
    let? hash := map_err (λ e, SnapshotCodec (CryptoFailed e)) (validator_set_hash (km_validator_set m)) in
    if negb (bool_decide (hash = km_validator_set_hash m))
    then Err (InvalidSnapshot "validator-set hash mismatch")
    else for_each (validate_domain m) tt (km_domains m).

(** One domain of the loop of [encode]. *)
Definition encode_manifest_domain (output : bytes) (d : CheckpointDomain) : outcome SnapshotError bytes :=
  let output := output ++ kd_domain_id d ++ encode_config (kd_config d) in
  let? header := snap_codec (encode_domain_header (kd_header d)) in
  let? output := put_prefixed output header in
  let output := output ++ kd_block_hash d in
  let? descriptor :=
    match kd_descriptor d with
    | Some descriptor => snap_codec (encode_domain_descriptor descriptor)
    | None => Ok []
    end in
  let? output := put_prefixed output descriptor in
  let? state := snap_state (Snapshot.encode_manifest (kd_state d)) in
  let? output := put_prefixed output state in
  encode_head_proof output (kd_head_proof d).

(** [CheckpointManifest::encode]. *)
Definition encode_checkpoint_manifest (m : CheckpointManifest) : outcome SnapshotError bytes :=
  run? validate_shape m in
  let? validator_set := snap_codec (encode_validator_set (km_validator_set m)) in
  let output :=
    MANIFEST_TAG ++ to_be_bytes 1 MANIFEST_VERSION ++ km_network_id m ++ km_genesis_hash m ++
    to_be_bytes 8 (km_height m) ++ km_consensus_hash m ++ to_be_bytes 8 (km_timestamp m) ++
    km_validator_set_hash m ++ km_next_validator_set_hash m ++ km_domain_heads_root m ++
    km_root_domain_id m ++ km_governance_address m in
  let? output := put_prefixed output validator_set in
  let? output := put_prefixed output (km_finality_proof m) in
  let? count := ok_or (try_from 32 (zlen (km_domains m))) (SnapshotLimit "checkpoint domain count") in
  let? output := for_each encode_manifest_domain (output ++ to_be_bytes 4 count) (km_domains m) in
  if MAX_DIRECT_REQUEST_BYTES <? zlen output then Err (SnapshotLimit "checkpoint manifest bytes")
  else Ok output.

(** One domain of the loop of [decode]. *)
Definition read_manifest_domain : reader SnapshotError CheckpointDomain :=
  let! domain_id := cursor_hash in
  let! config := read_config in
  let! header := cursor_bytes in
  let! header := rlift (snap_codec (decode_domain_header header)) in
  let! block_hash := cursor_hash in
  let! descriptor := cursor_bytes in
  let! descriptor :=
    rlift (if (length descriptor =? 0)%nat then Ok None
           else let? d := snap_codec (decode_domain_descriptor descriptor) in Ok (Some d)) in
  let! state := cursor_bytes in
  let! state := rlift (snap_state (Snapshot.decode_manifest state)) in
  let! head_proof := read_head_proof in
  rret {| kd_domain_id := domain_id; kd_config := config; kd_header := header; kd_block_hash := block_hash;
          kd_descriptor := descriptor; kd_state := state; kd_head_proof := head_proof |}.

Definition read_manifest : reader SnapshotError CheckpointManifest :=
  run! cursor_expect MANIFEST_TAG in
  let! version := cursor_uint 1 in
  run! rguard (negb (version =? MANIFEST_VERSION))
         (MalformedSnapshot "unsupported checkpoint manifest version") in
  let! network_id := cursor_hash in
  let! genesis_hash := cursor_hash in
  let! height := cursor_uint 8 in
  let! consensus_hash := cursor_hash in
  let! timestamp := cursor_uint 8 in
  let! validator_set_hash := cursor_hash in
  let! next_validator_set_hash := cursor_hash in
  let! domain_heads_root := cursor_hash in
  let! root_domain_id := cursor_hash in
  let! governance_address := cursor_take 20 in
  let! validator_set := cursor_bytes in
  let! validator_set := rlift (snap_codec (decode_validator_set validator_set)) in
  let! finality_proof := cursor_bytes in
  let! count := cursor_uint 4 in
  run! rguard ((count =? 0) || (MAX_MANIFEST_DOMAINS <? count)) (SnapshotLimit "checkpoint domain count") in
  let! domains := repeated read_manifest_domain (Z.to_nat count) in
  rret {| km_network_id := network_id; km_genesis_hash := genesis_hash; km_height := height;
          km_consensus_hash := consensus_hash; km_timestamp := timestamp;
          km_validator_set_hash := validator_set_hash; km_next_validator_set_hash := next_validator_set_hash;
          km_validator_set := validator_set; km_domain_heads_root := domain_heads_root;
          km_root_domain_id := root_domain_id; km_governance_address := governance_address;
          km_finality_proof := finality_proof; km_domains := domains |}.

(** [CheckpointManifest::decode]. *)
Definition decode_checkpoint_manifest (input : bytes) : outcome SnapshotError CheckpointManifest :=
  if MAX_DIRECT_REQUEST_BYTES <? zlen input then Err (SnapshotLimit "checkpoint manifest bytes")
  else
    let? manifest := run_all read_manifest input in
    run? validate_shape manifest in
    Ok manifest.
End manifest.

(** ** State chunks *)

(** A trie node or a contract body with its hash. *)
Notation state_record := (Z * bytes * bytes)%type.

(** The inner loop of [encode_state_chunks]: the records of the next chunk and those
    that are left. *)
Fixpoint fill_chunk (size : Z) (started : bool) (records : list state_record)
    : outcome SnapshotError (list state_record * list state_record) :=
  match records with
  | [] => Ok ([], [])
  | record :: records' =>
      let? record_size :=
        ok_or (checked_add 64 CHUNK_RECORD_FIXED_BYTES (zlen record.2)) (SnapshotLimit "snapshot record bytes") in
      let? total := add_usize size record_size in
      if MAX_STATE_CHUNK_BYTES <? total then
        if started then Ok ([], records) else Err (SnapshotLimit "snapshot record bytes")
      else
        let? '(selected, rest) := fill_chunk total true records' in
        Ok (record :: selected, rest)
  end.

Definition encode_record (output : bytes) (record : state_record) : outcome SnapshotError bytes :=
  let '(kind, hash, value) := record in
  let? length := ok_or (try_from 32 (zlen value)) (SnapshotLimit "snapshot record bytes") in
  Ok (output ++ to_be_bytes 1 kind ++ hash ++ to_be_bytes 4 length ++ value).

(** The bytes of one chunk. *)
Definition encode_state_chunk (domain_id : DomainId) (index : Z) (selected : list state_record)
    : outcome SnapshotError bytes :=
  let? count := ok_or (try_from 32 (zlen selected)) (SnapshotLimit "snapshot records") in
  for_each encode_record
    (STATE_CHUNK_TAG ++ to_be_bytes 1 STATE_CHUNK_VERSION ++ domain_id ++ to_be_bytes 4 index ++
     to_be_bytes 4 count) selected.

(** The outer loop; every turn but the first writes at least one record, so the
    number of records bounds the turns. *)
Fixpoint chunk_loop (fuel : nat) (domain_id : DomainId) (records : list state_record) (chunks : list bytes)
    : outcome SnapshotError (list bytes) :=
  if (length records =? 0)%nat && negb (length chunks =? 0)%nat then Ok chunks
  else
    match fuel with
    | O => Panic "out of fuel"
    | S fuel =>
        let? index := ok_or (try_from 32 (zlen chunks)) (SnapshotLimit "snapshot chunks") in
        let? '(selected, rest) := fill_chunk CHUNK_FIXED_BYTES false records in
        let? output := encode_state_chunk domain_id index selected in
        let chunks := chunks ++ [output] in
        if MAX_CHUNKS_PER_DOMAIN <? zlen chunks then Err (SnapshotLimit "snapshot chunks")
        else chunk_loop fuel domain_id rest chunks
    end.

Definition state_records (nodes code : btree bytes bytes) : list state_record :=
  ((λ e, (CHUNK_NODE, e.1, e.2)) <$> nodes) ++ ((λ e, (CHUNK_CODE, e.1, e.2)) <$> code).

Definition encode_state_chunks (domain_id : DomainId) (nodes code : btree bytes bytes)
    : outcome SnapshotError (list bytes) :=
  let records := state_records nodes code in
  chunk_loop (S (length records)) domain_id records [].

Section chunks.
Context `{Keccak}.

(** One record of the loop of [decode_state_chunk]. *)
Definition read_record (nodes code : btree bytes bytes) : reader SnapshotError (btree bytes bytes * btree bytes bytes) :=
  let! kind := cursor_uint 1 in
  let! hash := cursor_hash in
  let! value := cursor_bytes in
  run! rguard (negb (bool_decide (keccak256 value = hash))) ChunkHash in
  if kind =? CHUNK_NODE then
    run! rguard (bcontains hash nodes) (InvalidSnapshot "duplicate snapshot record") in
    rret (binsert hash value nodes, code)
  else if kind =? CHUNK_CODE then
    run! rguard (bcontains hash code) (InvalidSnapshot "duplicate snapshot record") in
    rret (nodes, binsert hash value code)
  else rlift (Err (MalformedSnapshot "snapshot record kind")).

Fixpoint read_records (count : nat) (nodes code : btree bytes bytes)
    : reader SnapshotError (btree bytes bytes * btree bytes bytes) :=
  match count with
  | O => rret (nodes, code)
  | S count =>
      let! maps := read_record nodes code in
      read_records count maps.1 maps.2
  end.

Definition read_state_chunk (expected_domain : DomainId) (expected_index : Z) (nodes code : btree bytes bytes)
    : reader SnapshotError (btree bytes bytes * btree bytes bytes) :=
  run! cursor_expect STATE_CHUNK_TAG in
  let! version := cursor_uint 1 in
  run! rguard (negb (version =? STATE_CHUNK_VERSION)) (MalformedSnapshot "snapshot chunk identity") in
  let! domain_id := cursor_hash in
  run! rguard (negb (bool_decide (domain_id = expected_domain))) (MalformedSnapshot "snapshot chunk identity") in
  let! index := cursor_uint 4 in
  run! rguard (negb (index =? expected_index)) (MalformedSnapshot "snapshot chunk identity") in
  let! count := cursor_uint 4 in
  read_records (Z.to_nat count) nodes code.

Definition decode_state_chunk (expected_domain : DomainId) (expected_index : Z) (input : bytes)
    (nodes code : btree bytes bytes) : outcome SnapshotError (btree bytes bytes * btree bytes bytes) :=
  if (length input =? 0)%nat || (MAX_STATE_CHUNK_BYTES <? zlen input)
  then Err (SnapshotLimit "snapshot chunk bytes")
  else run_all (read_state_chunk expected_domain expected_index nodes code) input.
End chunks.

(** ** Bundles *)

Record SnapshotBundle := {
  sb_manifest : CheckpointManifest;
  sb_chunks : btree (DomainId * Z) bytes;
}.

Section bundles.
Context `{Keccak, Secp256k1, AlloyRlp, !AlloyTrie, SenderRecovery, Journal, !Revm, AlloyRoots}.

Definition describe_chunk (item : Z * bytes) : outcome SnapshotError SnapshotChunk :=
  let? index := ok_or (try_from 32 item.1) (SnapshotLimit "snapshot chunk index") in
  let? size := ok_or (try_from 32 (zlen item.2)) (SnapshotLimit "snapshot chunk bytes") in
  Ok {| sc_index := index; sc_bytes := size; sc_hash := keccak256 item.2 |}.

(** One domain of the loop of [produce]. *)
Definition produce_domain (state : FinalizedChainState)
    (acc : list CheckpointDomain * btree (DomainId * Z) bytes) (entry : DomainId * FinalizedDomain)
    : outcome SnapshotError (list CheckpointDomain * btree (DomainId * Z) bytes) :=
  let '(domains, chunks) := acc in
  let '(domain_id, domain) := entry in
  let? encoded_chunks :=
    encode_state_chunks domain_id (snap_nodes (es_accounts (fd_state domain))) (es_contract_code (fd_state domain)) in
  let? descriptors := collect describe_chunk (enumerate encoded_chunks) in
  let chunks :=
    foldl (λ chunks c, binsert (domain_id, sc_index c.1) c.2 chunks) chunks (zip descriptors encoded_chunks) in
  let? head_proof := ok_or (domain_head_proof state domain_id) (InvalidSnapshot "missing domain-head proof") in
  Ok (domains ++
      [{| kd_domain_id := domain_id; kd_config := fd_config domain; kd_header := fd_header domain;
          kd_block_hash := fd_block_hash domain; kd_descriptor := domain_descriptor state domain_id;
          kd_state := {| sm_consensus_height := fs_height state; sm_domain_id := domain_id;
                         sm_state_root := Evm.state_root (fd_state domain); sm_chunks := descriptors |};
          kd_head_proof := head_proof |}], chunks).

Definition produce (state : FinalizedChainState) (genesis_hash : bytes) (validator_set : ValidatorSet)
    (finality_proof : bytes) : outcome SnapshotError SnapshotBundle :=
  let? '(domains, chunks) := for_each (produce_domain state) ([], []) (fs_domains state) in
  let manifest :=
    {| km_network_id := fs_network_id state; km_genesis_hash := genesis_hash; km_height := fs_height state;
       km_consensus_hash := fs_consensus_hash state; km_timestamp := fs_timestamp state;
       km_validator_set_hash := fs_validator_set_hash state;
       km_next_validator_set_hash := fs_next_validator_set_hash state; km_validator_set := validator_set;
       km_domain_heads_root := domain_heads_root state; km_root_domain_id := fs_root_domain_id state;
       km_governance_address := fs_governance_address state; km_finality_proof := finality_proof;
       km_domains := domains |} in
  run? encode_checkpoint_manifest manifest in
  Ok {| sb_manifest := manifest; sb_chunks := chunks |}.

Definition bundle_manifest_bytes (b : SnapshotBundle) : outcome SnapshotError bytes :=
  encode_checkpoint_manifest (sb_manifest b).

Definition bundle_chunk (b : SnapshotBundle) (domain_id : DomainId) (index : Z) : option bytes :=
  bget (domain_id, index) (sb_chunks b).

(** ** Staging *)

Record SnapshotStaging := {
  ss_manifest : CheckpointManifest;
  ss_chunks : btree (DomainId * Z) bytes;
  ss_expected : btree (DomainId * Z) SnapshotChunk;
  ss_staged_bytes : Z;
}.

Record SnapshotImport := {
  si_state : FinalizedChainState;
  si_validator_set : ValidatorSet;
  si_finality_proof : bytes;
}.

(** The chunks a manifest declares. *)
Definition expected_chunks (m : CheckpointManifest) : btree (DomainId * Z) SnapshotChunk :=
  bcollect (km_domains m ≫= λ d, (λ c, ((kd_domain_id d, sc_index c), c)) <$> sm_chunks (kd_state d)).

(** [SnapshotStaging::new]. *)
Definition new_staging `{!CheckpointFinalityVerifier} (manifest_bytes : bytes) (expected_network : NetworkId)
    (expected_genesis : bytes) : outcome SnapshotError SnapshotStaging :=
  let? manifest := decode_checkpoint_manifest manifest_bytes in
  if negb (bool_decide (km_network_id manifest = expected_network)) ||
     negb (bool_decide (km_genesis_hash manifest = expected_genesis))
  then Err IdentityMismatch
  else
    run? map_err FinalityFailed (verify_checkpoint manifest) in
    Ok {| ss_manifest := manifest; ss_chunks := []; ss_expected := expected_chunks manifest;
          ss_staged_bytes := 0 |}.

Definition stage_chunk (s : SnapshotStaging) (domain_id : DomainId) (index : Z) (value : bytes)
    : outcome SnapshotError SnapshotStaging :=
  let key := (domain_id, index) in
  let? descriptor := ok_or (bget key (ss_expected s)) UnexpectedChunk in
  if negb (verify_chunk descriptor value) then Err ChunkHash
  else
    match bget key (ss_chunks s) with
    | Some existing => if bool_decide (existing = value) then Ok s else Err ConflictingChunk
    | None =>
        let? total :=
          ok_or (checked_add 64 (ss_staged_bytes s) (zlen value)) (SnapshotLimit "snapshot staged bytes") in
        if MAX_SNAPSHOT_TOTAL_BYTES <? total then Err (SnapshotLimit "snapshot staged bytes")
        else Ok {| ss_manifest := ss_manifest s; ss_chunks := binsert key value (ss_chunks s);
                   ss_expected := ss_expected s; ss_staged_bytes := total |}
    end.

Definition is_complete (s : SnapshotStaging) : bool :=
  (length (ss_chunks s) =? length (ss_expected s))%nat.

(** The inner loop of [finish]: the records of the chunks of one domain. *)
Definition gather_chunk (s : SnapshotStaging) (domain_id : DomainId) (maps : btree bytes bytes * btree bytes bytes)
    (descriptor : SnapshotChunk) : outcome SnapshotError (btree bytes bytes * btree bytes bytes) :=
  let? value := ok_or (bget (domain_id, sc_index descriptor) (ss_chunks s)) IncompleteSnapshot in
  decode_state_chunk domain_id (sc_index descriptor) value maps.1 maps.2.

(** One domain of the loop of [finish]. *)
Definition finish_domain (s : SnapshotStaging) (domain : CheckpointDomain)
    : outcome SnapshotError FinalizedDomainCheckpoint :=
  let? '(nodes, code) := for_each (gather_chunk s (kd_domain_id domain)) ([], []) (sm_chunks (kd_state domain)) in
  let? state :=
    snap_evm (from_persisted (33 * (length nodes + 1)) (sm_state_root (kd_state domain)) (memory_store nodes)
                (λ hash, Ok (bget hash code))) in
  if negb (bool_decide (bkeys (es_contract_code state) = bkeys code))
  then Err (InvalidSnapshot "snapshot contains unreferenced contract code")
  else Ok {| dk_domain_id := kd_domain_id domain; dk_config := kd_config domain; dk_header := kd_header domain;
             dk_block_hash := kd_block_hash domain; dk_state := state; dk_descriptor := kd_descriptor domain |}.

Definition finish (s : SnapshotStaging) : outcome SnapshotError SnapshotImport :=
  if negb (is_complete s) then Err IncompleteSnapshot
  else
    let m := ss_manifest s in
    let? domains := collect (finish_domain s) (km_domains m) in
    let? state :=
      map_err (λ e, SnapshotState (ChainStateFailure e))
        (from_checkpoint
           {| ck_network_id := km_network_id m; ck_height := km_height m;
              ck_consensus_hash := km_consensus_hash m; ck_timestamp := km_timestamp m;
              ck_validator_set_hash := km_validator_set_hash m;
              ck_next_validator_set_hash := km_next_validator_set_hash m;
              ck_root_domain_id := km_root_domain_id m; ck_governance_address := km_governance_address m;
              ck_domain_heads_root := km_domain_heads_root m; ck_domains := domains |}) in
    Ok {| si_state := state; si_validator_set := km_validator_set m; si_finality_proof := km_finality_proof m |}.
End bundles.

(** ** The manifest is read back *)

Lemma reads_config {E : Type} `{!CursorErrors E} :
  reads (E := E) read_config (λ c b, config_typed c ∧ b = encode_config c).
Proof.
  unfold read_config. reads_sequence. intros c b. split.
  - intros Hr. reads_open. done.
  - intros [(H1 & H2 & H3 & H4) ->]. destruct c as [a1 a2 a3 a4]. unfold encode_config.
    reads_close; done.
Qed.
#[export] Hint Resolve reads_config : reads.

Definition head_value_bytes (value : option DomainHead) : bytes :=
  match value with
  | Some v => to_be_bytes 1 1 ++ domain_block_hash v ++ DomainHeads.state_root v
  | None => to_be_bytes 1 0
  end.

Definition head_proof_bytes (p : DomainHeadProof) : bytes :=
  hp_root p ++ hp_domain_id p ++ head_value_bytes (hp_value p) ++
  to_be_bytes 2 (zlen (hp_siblings p)) ++ concat (hp_siblings p).

Definition wf_head_proof (p : DomainHeadProof) : Prop :=
  is_b256 (hp_root p) ∧ is_b256 (hp_domain_id p) ∧
  (∀ v, hp_value p = Some v → is_b256 (domain_block_hash v) ∧ is_b256 (DomainHeads.state_root v)) ∧
  Forall is_b256 (hp_siblings p) ∧ length (hp_siblings p) = 256%nat.

Lemma foldl_app_concat (out : bytes) l : foldl app out l = out ++ concat l.
Proof. revert out. induction l as [|x l IH]; intros out; cbn; [by rewrite app_nil_r|]. by rewrite IH, app_assoc. Qed.

Lemma encode_head_proof_Ok output p output' :
  encode_head_proof output p = Ok output' ↔
    output' = output ++ head_proof_bytes p ∧ u16 (zlen (hp_siblings p)).
Proof.
  unfold encode_head_proof, head_proof_bytes. rewrite obind_Ok. setoid_rewrite ok_or_Ok. setoid_rewrite try_from_Some.
  destruct (hp_value p) as [v|]; cbn [head_value_bytes].
  all: split; [intros (n & [-> Hn] & He); apply Ok_inj in He as <-; split; [|done]|intros [-> Hn]; eexists; split; [by split|f_equal]];
    rewrite foldl_app_concat, <-!app_assoc; done.
Qed.

Lemma reads_head tag :
  reads (read_head tag) (λ v b,
    to_be_bytes 1 tag ++ b = head_value_bytes v ∧ (tag = 0 ∨ tag = 1) ∧
    ∀ h, v = Some h → is_b256 (domain_block_hash h) ∧ is_b256 (DomainHeads.state_root h)).
Proof.
  unfold read_head. destruct (Z.eqb_spec tag 0) as [->|H0']; [|destruct (Z.eqb_spec tag 1) as [->|H1']].
  - eapply reads_equiv; [|apply reads_ret]. intros v b. split; [intros [-> ->]; by split_and!; [|left|]|].
    intros (Hb & _ & _). destruct v as [h|]; cbn [head_value_bytes] in Hb; [by injection Hb|].
    split; [done|]. by injection Hb.
  - reads_sequence. intros v b. split.
    + intros Hr. reads_open. split_and!; [done|by right|]. by intros h [= <-].
    + intros (Hb & _ & Hh). destruct v as [[bh sr]|]; cbn [head_value_bytes] in Hb; [|done].
      destruct (Hh _ eq_refl). injection Hb as ->. cbn. reads_close; done.
  - eapply reads_equiv; [|apply reads_lift]. intros v b. split; [by intros [? _]|]. intros (_ & [?|?] & _); done.
Qed.

Lemma reads_hashes n :
  reads (E := SnapshotError) (repeated cursor_hash n) (λ vs b, length vs = n ∧ Forall is_b256 vs ∧ b = concat vs).
Proof.
  eapply reads_equiv; [|apply reads_repeated, reads_hash]. intros vs b. split; intros (Hl & Hr); (split; [done|]).
  - destruct Hr as (bs & Hf & ->). clear Hl. induction Hf as [|v b' vs bs [-> Hv] _ [IH1 IH2]]; [done|].
    split; [by constructor|]. cbn. by rewrite IH2.
  - destruct Hr as (Hf & ->). exists vs. split; [|done]. clear Hl. by induction Hf; constructor.
Qed.

#[export] Hint Resolve reads_head reads_hashes : reads.

Lemma reads_head_proof : reads read_head_proof (λ p b, wf_head_proof p ∧ b = head_proof_bytes p).
Proof.
  unfold read_head_proof. reads_sequence. intros p b. split.
  - intros (root & b1 & b2 & [-> Hr] & (id & b3 & b4 & [-> Hid] & (tag & b5 & b6 & [Ht ->] & (v & b7 & b8 & (Hv & _ & Hh) &
      (count & b9 & b10 & [Hc ->] & (u & b11 & b12 & [Hg ->] & (sib & b13 & b14 & (Hl & Hs & ->) & [-> ->] & ->) & ->) & ->) & ->) & ->) & ->) & ->).
    bool_prop. subst count. change (Z.to_nat 256) with 256%nat in Hl. unfold wf_head_proof, head_proof_bytes. cbn [hp_root hp_domain_id hp_value hp_siblings].
    split; [done|]. rewrite <-Hv. unfold zlen. rewrite Hl, app_nil_r, <-!app_assoc. done.
  - destruct p as [root id value siblings]. intros [(Hr & Hid & Hh & Hs & Hl) ->]. unfold head_proof_bytes. cbn [hp_root hp_domain_id hp_value hp_siblings] in *.
    exists root, root. eexists. split; [done|]. split; [|reflexivity]. exists id, id. eexists. split; [done|]. split; [|reflexivity].
    exists (match value with Some _ => 1 | None => 0 end). eexists. exists ((match value with Some v => domain_block_hash v ++ DomainHeads.state_root v | None => [] end) ++ to_be_bytes 2 (zlen siblings) ++ concat siblings).
    split; [split; [|reflexivity]; by destruct value|]. split; [|destruct value; cbn [head_value_bytes]; by rewrite <-?app_assoc].
    exists value. eexists. eexists. split; [split; [|split; [|exact Hh]]|split; [|reflexivity]]; [by destruct value|destruct value; auto|].
    assert (zlen siblings = 256) as E by (unfold zlen; lia). rewrite E.
    exists 256. eexists. eexists. split; [by split|]. split; [|reflexivity]. exists tt, []. eexists. split; [done|]. split; [|reflexivity].
    exists siblings, (concat siblings), []. rewrite app_nil_r. by split_and!.
Qed.

#[export] Hint Resolve reads_head_proof : reads.

Definition prefixed (b : bytes) : bytes := to_be_bytes 4 (zlen b) ++ b.

Lemma put_prefixed_Ok output v output' :
  put_prefixed output v = Ok output' ↔ output' = output ++ prefixed v ∧ u32 (zlen v).
Proof.
  unfold put_prefixed. rewrite obind_Ok. setoid_rewrite ok_or_Ok. setoid_rewrite try_from_Some. split.
  - intros (n & [-> Hn] & He). by apply Ok_inj in He as <-.
  - intros [-> Hn]. eexists. by split; [split|].
Qed.

(** The bytes of the optional descriptor of a domain. *)
Definition descriptor_bytes (d : option DomainDescriptor) (b : bytes) : Prop :=
  match d with
  | Some d => encode_domain_descriptor d = Ok b
  | None => b = []
  end.

(** The bytes of one domain of a manifest. *)
Definition domain_segment (d : CheckpointDomain) (b : bytes) : Prop :=
  ∃ header descriptor state,
    encode_domain_header (kd_header d) = Ok header ∧ descriptor_bytes (kd_descriptor d) descriptor ∧
    Snapshot.encode_manifest (kd_state d) = Ok state ∧
    u32 (zlen header) ∧ u32 (zlen descriptor) ∧ u32 (zlen state) ∧
    b = kd_domain_id d ++ encode_config (kd_config d) ++ prefixed header ++ kd_block_hash d ++
        prefixed descriptor ++ prefixed state ++ head_proof_bytes (kd_head_proof d).

Definition wf_checkpoint_domain (d : CheckpointDomain) : Prop :=
  is_b256 (kd_domain_id d) ∧ config_typed (kd_config d) ∧ wf_domain_header (kd_header d) ∧
  is_b256 (kd_block_hash d) ∧ (∀ x, kd_descriptor d = Some x → wf_domain_descriptor x) ∧
  wf_manifest (kd_state d) ∧ wf_head_proof (kd_head_proof d).

Lemma encode_manifest_domain_Ok output d output' :
  encode_manifest_domain output d = Ok output' ↔
    ∃ b, output' = output ++ b ∧ domain_segment d b ∧ u16 (zlen (hp_siblings (kd_head_proof d))).
Proof.
  unfold encode_manifest_domain, domain_segment. split.
  - intros He. apply obind_Ok in He as (header & Hh & He). apply map_err_Ok in Hh.
    apply obind_Ok in He as (o1 & [-> L1]%put_prefixed_Ok & He). apply obind_Ok in He as (desc & Hd & He).
    apply obind_Ok in He as (o2 & [-> L2]%put_prefixed_Ok & He). apply obind_Ok in He as (st & Hs & He). apply map_err_Ok in Hs.
    apply obind_Ok in He as (o3 & [-> L3]%put_prefixed_Ok & [-> L4]%encode_head_proof_Ok).
    eexists. split; [by rewrite <-!app_assoc|]. split; [|done]. exists header, desc, st. split_and!; try done.
    unfold descriptor_bytes. destruct (kd_descriptor d); [by apply map_err_Ok in Hd|by injection Hd].
  - intros (b & -> & (header & desc & st & Hh & Hd & Hs & L1 & L2 & L3 & ->) & L4). rewrite Hh, Hs. cbn [snap_codec snap_state map_err obind].
    rewrite (proj2 (put_prefixed_Ok _ _ _)) by (split; [reflexivity|done]). cbn [obind].
    assert (match kd_descriptor d with Some x => snap_codec (encode_domain_descriptor x) | None => Ok [] end = Ok desc) as ->.
    { unfold descriptor_bytes in Hd. destruct (kd_descriptor d); [by rewrite Hd|by rewrite Hd]. }
    cbn [obind]. rewrite (proj2 (put_prefixed_Ok _ _ _)) by (split; [reflexivity|done]). cbn [obind].
    rewrite (proj2 (put_prefixed_Ok _ _ _)) by (split; [reflexivity|done]). cbn [obind].
    apply encode_head_proof_Ok. split; [by rewrite <-!app_assoc|done].
Qed.

(** Reading an optional descriptor. *)
Lemma descriptor_read b d :
  (if (length b =? 0)%nat then Ok None
   else let? x := snap_codec (decode_domain_descriptor b) in Ok (Some x)) = Ok d ↔
  descriptor_bytes d b ∧ ∀ x, d = Some x → wf_domain_descriptor x.
Proof.
  destruct domain_descriptor_codec as (Ha & Hs & _). split.
  - destruct (Nat.eqb_spec (length b) 0) as [->%length_zero_iff_nil|Hb]; [by intros [= <-]|].
    intros Hd. apply obind_Ok in Hd as (x & Hx & [= <-]). apply map_err_Ok, Hs in Hx as [Hw He]. split; [done|]. by intros y [= <-].
  - intros [Hb Hw]. destruct d as [x|]; cbn [descriptor_bytes] in Hb; [|by rewrite Hb].
    rewrite (descriptor_nonempty _ _ Hb (Hw _ eq_refl)). by rewrite (Ha _ _ (Hw _ eq_refl) Hb).
Qed.

Lemma codec_read {A : Type} (wf : A → Prop) encode decode b v :
  canonical wf encode decode → snap_codec (decode b) = Ok v ↔ wf v ∧ encode v = Ok b.
Proof.
  intros (Ha & Hs & _). split.
  - intros Hd. apply map_err_Ok in Hd. by apply Hs.
  - intros [Hw He]. by rewrite (Ha _ _ Hw He).
Qed.

Lemma state_manifest_read b v :
  snap_state (Snapshot.decode_manifest b) = Ok v ↔ wf_manifest v ∧ Snapshot.encode_manifest v = Ok b.
Proof.
  destruct manifest_codec as (Ha & Hs & _). split.
  - intros Hd. apply map_err_Ok in Hd. by apply Hs.
  - intros [Hw He]. by rewrite (Ha _ _ Hw He).
Qed.

Lemma reads_manifest_domain : reads read_manifest_domain (λ d b, wf_checkpoint_domain d ∧ domain_segment d b).
Proof.
  unfold read_manifest_domain. reads_sequence. intros d b. split.
  - intros (id & b1 & ? & [-> Hid] & (cfg & ? & ? & [Hcfg ->] & (hb & ? & ? & [Lh ->] & (header & ? & ? & [Hh ->] &
      (bh & ? & ? & [-> Hbh] & (db & ? & ? & [Ld ->] & (desc & ? & ? & [Hd ->] & (sb & ? & ? & [Ls ->] & (st & ? & ? & [Hst ->] &
      (p & ? & ? & [Hp ->] & [-> ->] & ->) & ->) & ->) & ->) & ->) & ->) & ->) & ->) & ->) & ->).
    apply (codec_read _ _ _ _ _ domain_header_codec) in Hh as [Wh Hh]. apply descriptor_read in Hd as [Hd Wd].
    apply state_manifest_read in Hst as [Wst Hst]. split; [by split_and!|]. exists hb, db, sb. rewrite app_nil_r. by split_and!.
  - destruct d as [id cfg header bh desc st p]. intros [(Hid & Hcfg & Wh & Hbh & Wd & Wst & Wp) (hb & db & sb & Hh & Hd & Hst & Lh & Ld & Ls & ->)].
    cbn [kd_domain_id kd_config kd_header kd_block_hash kd_descriptor kd_state kd_head_proof] in *. unfold prefixed.
    reads_field id. reads_field cfg.
    exists hb. eexists (prefixed hb), _. split; [by split|]. split; [|reflexivity].
    exists header, []. eexists. split; [by rewrite (codec_read _ _ _ _ _ domain_header_codec)|]. split; [|reflexivity].
    reads_field bh.
    exists db. eexists (prefixed db), _. split; [by split|]. split; [|reflexivity].
    exists desc, []. eexists. split; [by rewrite descriptor_read|]. split; [|reflexivity].
    exists sb. eexists (prefixed sb), _. split; [by split|]. split; [|reflexivity].
    exists st, []. eexists. split; [by rewrite state_manifest_read|]. split; [|reflexivity].
    exists p. eexists _, []. split; [by split|]. split; [done|]. by rewrite app_nil_r.
Qed.

(** The bytes of a manifest. *)
Definition manifest_segment (m : CheckpointManifest) (b : bytes) : Prop :=
  ∃ validators segments,
    encode_validator_set (km_validator_set m) = Ok validators ∧ Forall2 domain_segment (km_domains m) segments ∧
    u32 (zlen validators) ∧ u32 (zlen (km_finality_proof m)) ∧
    b = MANIFEST_TAG ++ to_be_bytes 1 MANIFEST_VERSION ++ km_network_id m ++ km_genesis_hash m ++
        to_be_bytes 8 (km_height m) ++ km_consensus_hash m ++ to_be_bytes 8 (km_timestamp m) ++
        km_validator_set_hash m ++ km_next_validator_set_hash m ++ km_domain_heads_root m ++
        km_root_domain_id m ++ km_governance_address m ++ prefixed validators ++
        prefixed (km_finality_proof m) ++ to_be_bytes 4 (zlen (km_domains m)) ++ concat segments.

Definition wf_checkpoint_manifest (m : CheckpointManifest) : Prop :=
  is_b256 (km_network_id m) ∧ is_b256 (km_genesis_hash m) ∧ u64 (km_height m) ∧ is_b256 (km_consensus_hash m) ∧
  u64 (km_timestamp m) ∧ is_b256 (km_validator_set_hash m) ∧ is_b256 (km_next_validator_set_hash m) ∧
  is_b256 (km_domain_heads_root m) ∧ is_b256 (km_root_domain_id m) ∧ is_address (km_governance_address m) ∧
  wf_validator_set (km_validator_set m) ∧ Forall wf_checkpoint_domain (km_domains m).

Definition manifest_count_ok (m : CheckpointManifest) : Prop :=
  km_domains m ≠ [] ∧ zlen (km_domains m) ≤ MAX_MANIFEST_DOMAINS.

Lemma reads_manifest_domains n :
  reads (repeated read_manifest_domain n) (λ ds b, length ds = n ∧ Forall wf_checkpoint_domain ds ∧
    ∃ segments, Forall2 domain_segment ds segments ∧ b = concat segments).
Proof.
  eapply reads_equiv; [|apply reads_repeated, reads_manifest_domain]. intros ds b. split; intros (Hl & Hr); (split; [done|]).
  - destruct Hr as (bs & Hf & ->). split.
    + clear Hl. induction Hf as [|d s ds bs [Hw _] _ IH]; by constructor.
    + exists bs. split; [|done]. clear Hl. induction Hf as [|d s ds bs [_ Hw] _ IH]; by constructor.
  - destruct Hr as (Hw & bs & Hf & ->). exists bs. split; [|done]. clear Hl. induction Hf as [|d s ds bs Hd _ IH]; [constructor|].
    inversion Hw; subst. constructor; [done|by apply IH].
Qed.

#[export] Hint Resolve reads_manifest_domains : reads.

Lemma reads_manifest :
  reads read_manifest (λ m b, wf_checkpoint_manifest m ∧ manifest_count_ok m ∧ manifest_segment m b).
Proof.
  unfold read_manifest. reads_sequence. intros m b. split.
  - intros (? & ? & ? & -> & (ver & ? & ? & [Hver ->] & (? & ? & ? & [Gver ->] & (net & ? & ? & [-> Hnet] & (gen & ? & ? & [-> Hgen] &
      (h & ? & ? & [Hh ->] & (ch & ? & ? & [-> Hch] & (ts & ? & ? & [Hts ->] & (vh & ? & ? & [-> Hvh] & (nh & ? & ? & [-> Hnh] &
      (hr & ? & ? & [-> Hhr] & (rd & ? & ? & [-> Hrd] & (ga & ? & ? & [-> Hga] & (vb & ? & ? & [Lv ->] & (vs & ? & ? & [Hvs ->] &
      (fp & ? & ? & [Lf ->] & (n & ? & ? & [Hn ->] & (? & ? & ? & [Gn ->] & (ds & ? & ? & (Hl & Wds & segs & Hsegs & ->) & [-> ->] & ->)
      & ->) & ->) & ->) & ->) & ->) & ->) & ->) & ->) & ->) & ->) & ->) & ->) & ->) & ->) & ->) & ->) & ->) & ->).
    bool_prop. apply (codec_read _ _ _ _ _ validator_set_codec) in Hvs as [Wvs Hvs].
    assert (zlen ds = n) as En by (unfold fits, zlen in *; lia). subst n ver. split; [|split; [split|]].
    + split_and!; try done. unfold is_address, zlen in *. cbn [km_governance_address]. lia.
    + intros E. cbn in E. subst ds. by rewrite zlen_nil in *.
    + done.
    + exists vb, segs. rewrite app_nil_r. by split_and!.
  - destruct m as [net gen h ch ts vh nh vs hr rd ga fp ds].
    intros ((Hnet & Hgen & Hh & Hch & Hts & Hvh & Hnh & Hhr & Hrd & Hga & Wvs & Wds) & [Hne Hmax] & (vb & segs & Hvs & Hsegs & Lv & Lf & ->)).
    cbn [km_network_id km_genesis_hash km_height km_consensus_hash km_timestamp km_validator_set_hash km_next_validator_set_hash
      km_validator_set km_domain_heads_root km_root_domain_id km_governance_address km_finality_proof km_domains] in *.
    assert (0 < zlen ds) by (destruct ds; [done|rewrite zlen_cons; pose proof (zlen_nonneg ds); lia]). unfold MAX_MANIFEST_DOMAINS in Hmax.
    exists tt. eexists _, _. split; [reflexivity|]. split; [|reflexivity]. reads_field MANIFEST_VERSION. reads_field tt.
    reads_field net. reads_field gen. reads_field h. reads_field ch. reads_field ts. reads_field vh. reads_field nh.
    reads_field hr. reads_field rd.
    exists ga, ga. eexists. split; [split; [done|unfold zlen; rewrite Hga; done]|]. split; [|reflexivity].
    exists vb. eexists (prefixed vb), _. split; [by split|]. split; [|reflexivity].
    exists vs, []. eexists. split; [by rewrite (codec_read _ _ _ _ _ validator_set_codec)|]. split; [|reflexivity].
    exists fp. eexists (prefixed fp), _. split; [by split|]. split; [|reflexivity].
    exists (zlen ds). eexists _, _. split; [split; [unfold fits; lia|reflexivity]|]. split; [|reflexivity].
    exists tt, []. eexists. split; [split; [|done]; unfold MAX_MANIFEST_DOMAINS; lia|]. split; [|reflexivity].
    exists ds. eexists _, []. split; [|split; [done|by rewrite app_nil_r]]. split; [unfold zlen; lia|]. split; [done|]. by exists segs.
Qed.

Section manifest_codec.
Context `{Keccak, Secp256k1}.

Lemma encode_domains_Ok ds output output' :
  for_each encode_manifest_domain output ds = Ok output' ↔
    ∃ segments, Forall2 domain_segment ds segments ∧ output' = output ++ concat segments ∧
      Forall (λ d, u16 (zlen (hp_siblings (kd_head_proof d)))) ds.
Proof.
  revert output. induction ds as [|d ds IH]; intros output; cbn [for_each].
  - split.
    + intros [= <-]. exists []. rewrite app_nil_r. by split_and!.
    + intros (segs & Hs & -> & _). apply Forall2_nil_inv_l in Hs as ->. cbn. by rewrite app_nil_r.
  - rewrite obind_Ok. setoid_rewrite encode_manifest_domain_Ok. setoid_rewrite IH. split.
    + intros (o & (b & -> & Hb & Hu) & segs & Hs & -> & Hf). exists (b :: segs). rewrite <-app_assoc.
      split_and!; [by constructor|done|by constructor].
    + intros (segs & Hs & -> & Hf). apply Forall2_cons_inv_l in Hs as (b & segs' & Hb & Hs & ->). inversion Hf; subst.
      eexists. split; [by exists b|]. exists segs'. cbn. by rewrite <-app_assoc.
Qed.

(** What the shape of a manifest guarantees. *)
Record shape_ok (m : CheckpointManifest) : Prop := {
  so_height : km_height m ≠ 0;
  so_proof : zlen (km_finality_proof m) ≤ MAX_CONSENSUS_MESSAGE_BYTES;
  so_count : manifest_count_ok m;
  so_sorted : StronglySorted tlt (kd_domain_id <$> km_domains m);
  so_validators : validator_set_hash (km_validator_set m) = Ok (km_validator_set_hash m);
  so_domains : ∀ d, d ∈ km_domains m → validate_domain m tt d = Ok tt;
}.

Lemma validate_domains_Ok m ds : for_each (validate_domain m) tt ds = Ok tt ↔ ∀ d, d ∈ ds → validate_domain m tt d = Ok tt.
Proof.
  induction ds as [|d ds IH]; cbn [for_each].
  - split; [|done]. intros _ d Hd. by apply elem_of_nil in Hd.
  - rewrite obind_Ok. split.
    + intros ([] & Hd & Hds) x [->|Hx]%elem_of_cons; [done|]. by apply IH.
    + intros Hall. exists tt. split; [apply Hall; by left|]. apply IH. intros x Hx. apply Hall. by right.
Qed.

Lemma validate_shape_Ok m : validate_shape m = Ok tt ↔ shape_ok m.
Proof.
  unfold validate_shape. split.
  - intros Hv. destruct (Z.eqb_spec (km_height m) 0); [done|]. destruct (Z.ltb_spec MAX_CONSENSUS_MESSAGE_BYTES (zlen (km_finality_proof m))); [done|].
    destruct (_ || _) eqn:Hc in Hv; [done|]. destruct (negb (windows2_all _ _)) eqn:Hs in Hv; [done|].
    apply obind_Ok in Hv as (hash & Hh & Hv). apply map_err_Ok in Hh. destruct (negb _) eqn:Hx in Hv; [done|].
    apply orb_false_iff in Hc as [Hn%Nat.eqb_neq Hm]. bool_prop. subst hash. split; try done.
    + split; [by intros E; rewrite E in Hn|done].
    + by apply strict_StronglySorted.
    + by apply validate_domains_Ok.
  - intros [H1' H2' [H3 H4] H5%strict_StronglySorted H6 H7]. rewrite (proj2 (Z.eqb_neq _ _)), (proj2 (Z.ltb_ge _ _)) by done.
    rewrite (proj2 (Nat.eqb_neq _ _)) by (by destruct (km_domains m)). rewrite (proj2 (Z.ltb_ge MAX_MANIFEST_DOMAINS _)) by done.
    rewrite H5, H6. cbn [negb orb obind map_err]. rewrite bool_decide_true by done. by apply validate_domains_Ok.
Qed.

Lemma shape_siblings m d :
  shape_ok m → d ∈ km_domains m → length (hp_siblings (kd_head_proof d)) = 256%nat.
Proof.
  intros Hs Hd. pose proof (so_domains _ Hs d Hd) as Hv. unfold validate_domain in Hv.
  apply obind_Ok in Hv as ([] & _ & Hv). destruct (_ || _) in Hv; [done|]. apply map_err_Ok in Hv.
  unfold DomainHeads.verify in Hv. destruct (negb _) eqn:E in Hv; [done|]. bool_prop. unfold zlen, SMT_DEPTH in E. lia.
Qed.

Lemma encode_checkpoint_manifest_Ok m b :
  encode_checkpoint_manifest m = Ok b ↔
    shape_ok m ∧ manifest_segment m b ∧ zlen b ≤ MAX_DIRECT_REQUEST_BYTES.
Proof.
  unfold encode_checkpoint_manifest, manifest_segment. split.
  - intros He. apply obind_Ok in He as ([] & Hs%validate_shape_Ok & He). split; [done|].
    apply obind_Ok in He as (vs & Hvs & He). apply map_err_Ok in Hvs.
    apply obind_Ok in He as (o1 & [-> L1]%put_prefixed_Ok & He). apply obind_Ok in He as (o2 & [-> L2]%put_prefixed_Ok & He).
    apply obind_Ok in He as (n & Hn & He). apply ok_or_Ok, try_from_Some in Hn as [-> Hn].
    apply obind_Ok in He as (o3 & (segs & Hsegs & -> & _)%encode_domains_Ok & He).
    match type of He with (if ?limit <? zlen ?o then _ else _) = _ => destruct (Z.ltb_spec limit (zlen o)) as [|Hle] end; [done|].
    apply Ok_inj in He as <-. split; [|done]. exists vs, segs. rewrite <-!app_assoc. by split_and!.
  - intros (Hs & (vs & segs & Hvs & Hsegs & L1 & L2 & ->) & Hle). pose proof Hs as Hs'%validate_shape_Ok. rewrite Hs', Hvs.
    cbn [obind snap_codec map_err]. do 2 (rewrite (proj2 (put_prefixed_Ok _ _ _)) by (split; [reflexivity|done]); cbn [obind]).
    assert (try_from 32 (zlen (km_domains m)) = Some (zlen (km_domains m))) as ->.
    { apply try_from_Some. split; [done|]. destruct (so_count _ Hs) as [_ Hm]. unfold fits, MAX_MANIFEST_DOMAINS in *. pose proof (zlen_nonneg (km_domains m)). lia. }
    cbn [ok_or obind]. rewrite (proj2 (encode_domains_Ok _ _ _)) by (exists segs; split_and!; [done|reflexivity|];
      apply list.Forall_forall; intros d Hd; unfold zlen; rewrite (shape_siblings _ _ Hs Hd); done).
    cbn [obind]. rewrite <-!app_assoc. by rewrite (proj2 (Z.ltb_ge _ _)).
Qed.

Lemma validate_shape_no_panic m x : validate_shape m ≠ Panic x.
Proof.
  unfold validate_shape. no_panic.
  - apply map_err_no_panic. unfold validator_set_hash. no_panic; [apply validate_no_panic|].
    apply map_err_no_panic, (canonical_encode_no_panic validator_set_codec).
  - apply for_each_no_panic. intros [] d _. unfold validate_domain, snap_state. no_panic.
    + apply map_err_no_panic, validate_manifest_no_panic.
    + apply map_err_no_panic. unfold DomainHeads.verify. no_panic.
Qed.

Lemma encode_manifest_domain_no_panic output d x : encode_manifest_domain output d ≠ Panic x.
Proof.
  assert (∀ o v x, put_prefixed o v ≠ Panic x) as Hp by (intros; unfold put_prefixed; no_panic).
  unfold encode_manifest_domain, snap_codec, snap_state. apply obind_no_panic; [apply map_err_no_panic, (canonical_encode_no_panic domain_header_codec)|intros h _].
  apply obind_no_panic; [apply Hp|intros o1 _]. apply obind_no_panic.
  { destruct (kd_descriptor d); [|done]. apply map_err_no_panic, (canonical_encode_no_panic domain_descriptor_codec). }
  intros desc _. apply obind_no_panic; [apply Hp|intros o2 _].
  apply obind_no_panic; [apply map_err_no_panic, (canonical_encode_no_panic manifest_codec)|intros st _].
  apply obind_no_panic; [apply Hp|intros o3 _]. unfold encode_head_proof. no_panic.
Qed.

Lemma read_manifest_safe : rsafe read_manifest.
Proof.
  assert (∀ A (wf : A → Prop) enc dec b, canonical wf enc dec → rsafe (rlift (snap_codec (dec b)))) as Hc.
  { intros A wf enc dec b (_ & _ & _ & Hd). apply rsafe_lift. intros x. apply map_err_no_panic, Hd. }
  assert (∀ tag, rsafe (read_head tag)) as Hh.
  { intros tag. unfold read_head. destruct (tag =? 0), (tag =? 1); rsafe_steps; by apply rsafe_lift. }
  assert (rsafe read_head_proof) as Hp by (unfold read_head_proof; rsafe_steps; apply Hh).
  assert (rsafe read_manifest_domain) as Hd.
  { unfold read_manifest_domain, read_config. rsafe_steps.
    - apply (Hc _ _ _ _ _ domain_header_codec).
    - apply rsafe_lift. intros x. destruct (_ =? _)%nat; [done|]. no_panic. apply map_err_no_panic, domain_descriptor_codec.
    - apply rsafe_lift. intros x. apply map_err_no_panic, manifest_codec. }
  unfold read_manifest. rsafe_steps. apply (Hc _ _ _ _ _ validator_set_codec).
Qed.

Lemma manifest_decodes m b :
  wf_checkpoint_manifest m → encode_checkpoint_manifest m = Ok b → decode_checkpoint_manifest b = Ok m.
Proof.
  intros Hw (Hs & Hm & Hle)%encode_checkpoint_manifest_Ok. unfold decode_checkpoint_manifest.
  rewrite (proj2 (Z.ltb_ge _ _)) by done.
  rewrite (proj2 (run_exact _ _ b m reads_manifest ltac:(unfold MAX_DIRECT_REQUEST_BYTES in Hle; lia))) by (split_and!; [done|apply Hs|done]).
  cbn [obind]. by rewrite (proj2 (validate_shape_Ok m) Hs).
Qed.

(** C38. The codec of checkpoint manifests is exact: a manifest within the types of its
    fields decodes from its encoding; whatever decodes is the encoding of the manifest
    it decodes to, so no two encodings of a manifest are accepted; and neither
    direction panics, whatever bytes a peer sends. *)
Theorem checkpoint_manifest_canonical :
  canonical wf_checkpoint_manifest encode_checkpoint_manifest decode_checkpoint_manifest.
Proof.
  split_and!.
  - exact manifest_decodes.
  - intros m b. unfold decode_checkpoint_manifest. destruct (Z.ltb_spec MAX_DIRECT_REQUEST_BYTES (zlen b)) as [|Hle]; [done|].
    intros Hd. apply obind_Ok in Hd as (m' & Hr & Hd). apply obind_Ok in Hd as ([] & Hs%validate_shape_Ok & [= ->]).
    apply (run_exact _ _ _ _ reads_manifest) in Hr as (Hw & _ & Hm); [|unfold MAX_DIRECT_REQUEST_BYTES in Hle; lia].
    split; [done|]. by apply encode_checkpoint_manifest_Ok.
  - intros m x. unfold encode_checkpoint_manifest, snap_codec. apply obind_no_panic; [apply validate_shape_no_panic|intros [] _].
    apply obind_no_panic; [apply map_err_no_panic, (canonical_encode_no_panic validator_set_codec)|intros vs _].
    assert (∀ o v x, put_prefixed o v ≠ Panic x) as Hp by (intros; unfold put_prefixed; no_panic).
    do 2 (apply obind_no_panic; [apply Hp|intros ? _]). apply obind_no_panic; [no_panic|intros n _].
    apply obind_no_panic; [apply for_each_no_panic; intros; apply encode_manifest_domain_no_panic|intros o _]. no_panic.
  - intros b x. unfold decode_checkpoint_manifest. destruct (_ <? _); [done|].
    apply obind_no_panic; [apply run_no_panic, read_manifest_safe|intros m _].
    apply obind_no_panic; [apply validate_shape_no_panic|done].
Qed.
End manifest_codec.
