(* ===== verification/SnapshotStage.v ===== *)
(** Transferring a snapshot: what the chunks of a manifest hold and what staging them
    gives (src/crates/arbor-network/src/snapshot.rs).

    Main results: chunks decode to the records they were cut from; a complete staging,
    whatever bytes it was fed, finishes as the producer's state or exhibits a collision
    ([snapshot_transfer_exact]); states with unreferenced code are never imported
    ([unreferenced_code_rejected]); how many domains a manifest has room for
    ([snapshot_capacity]). *)

From Stdlib Require Import Strings.Byte.
From S2P Require Import Prelude Bytes BTreeMap Primitives Canonical Cursor Rlp Crypto Ethereum StateError.
From S2P Require Import Snapshot DomainHeads System Registry Trie Mpt MptBuild Account Overlay Mempool Storage.
From S2P Require Import Evm Executor Merkle ChainBlock ChainState Chain Typing DevGenesis EngineCheckpoint Protocol.
From S2P Require Import Engine EngineRestart EngineSteps SnapshotTransfer.
From stdpp Require Import relations.
Import Cursor.

Local Open Scope Z_scope.

(** ** Splitting records into chunks *)

Definition record_size (r : state_record) : Z := CHUNK_RECORD_FIXED_BYTES + zlen r.2.

Lemma fill_chunk_Ok size started records selected rest :
  fill_chunk size started records = Ok (selected, rest) →
  records = selected ++ rest ∧ (records ≠ [] → started = false → selected ≠ []) ∧
  (selected = [] ∨ size + zsum record_size selected ≤ MAX_STATE_CHUNK_BYTES).
Proof.
  revert size started selected rest. induction records as [|r records IH]; intros size started selected rest Hf; cbn in Hf.
  { injection Hf as <- <-. split_and!; [done|done|by left]. }
  apply obind_Ok in Hf as (n & Hn & Hf). apply ok_or_Ok, checked_add_Some in Hn as [-> _].
  apply obind_Ok in Hf as (total & Ht & Hf). apply add_usize_Ok in Ht as [-> _].
  destruct (Z.ltb_spec MAX_STATE_CHUNK_BYTES (size + (CHUNK_RECORD_FIXED_BYTES + zlen r.2))) as [|Hle].
  { destruct started; [|done]. injection Hf as <- <-. split_and!; [done|done|by left]. }
  apply obind_Ok in Hf as ([sel rest'] & Hf & [= <- <-]). apply IH in Hf as (-> & _ & Hs). split_and!; [done|done|].
  right. rewrite zsum_cons. unfold record_size at 1. destruct Hs as [->|Hs]; [cbn; lia|]. lia.
Qed.

(** The bytes of a record and of a chunk. *)
Definition record_bytes (r : state_record) : bytes :=
  to_be_bytes 1 r.1.1 ++ r.1.2 ++ to_be_bytes 4 (zlen r.2) ++ r.2.

Definition chunk_header (domain_id : DomainId) (index count : Z) : bytes :=
  STATE_CHUNK_TAG ++ to_be_bytes 1 STATE_CHUNK_VERSION ++ domain_id ++ to_be_bytes 4 index ++ to_be_bytes 4 count.

Lemma encode_records_Ok output l output' :
  for_each encode_record output l = Ok output' →
  output' = output ++ concat (record_bytes <$> l) ∧ Forall (λ r, u32 (zlen r.2)) l.
Proof.
  revert output. induction l as [|[[k h] v] l IH]; intros output Hl; cbn [for_each] in Hl.
  { injection Hl as <-. cbn. by rewrite app_nil_r. }
  apply obind_Ok in Hl as (o & Ho & Hl). unfold encode_record in Ho. apply obind_Ok in Ho as (n & Hn & Ho).
  apply Ok_inj in Ho as <-. apply ok_or_Ok, try_from_Some in Hn as [-> Hn]. apply IH in Hl as [-> Hf].
  split; [|by constructor]. rewrite fmap_cons. cbn [concat]. unfold record_bytes at 2. by rewrite <-!app_assoc.
Qed.

Lemma encode_state_chunk_Ok domain_id index selected b :
  encode_state_chunk domain_id index selected = Ok b →
  b = chunk_header domain_id index (zlen selected) ++ concat (record_bytes <$> selected) ∧
  Forall (λ r, u32 (zlen r.2)) selected ∧ u32 (zlen selected).
Proof.
  unfold encode_state_chunk. intros He. apply obind_Ok in He as (n & Hn & He). apply ok_or_Ok, try_from_Some in Hn as [-> Hn].
  by apply encode_records_Ok in He as [-> Hf].
Qed.

(** A chunk of the records [group] at [index]. *)
Record chunk_of (domain_id : DomainId) (index : Z) (group : list state_record) (b : bytes) : Prop := {
  ck_bytes : b = chunk_header domain_id index (zlen group) ++ concat (record_bytes <$> group);
  ck_lengths : Forall (λ r, u32 (zlen r.2)) group;
  ck_count : u32 (zlen group);
  ck_size : CHUNK_FIXED_BYTES + zsum record_size group ≤ MAX_STATE_CHUNK_BYTES;
  ck_index : u32 index;
}.

Lemma chunk_loop_Ok fuel domain_id records chunks out :
  chunk_loop fuel domain_id records chunks = Ok out →
  ∃ groups new, records = concat groups ∧ out = chunks ++ new ∧ length new = length groups ∧
    (∀ i group b, groups !! i = Some group → new !! i = Some b →
       chunk_of domain_id (zlen chunks + Z.of_nat i) group b) ∧
    (new = [] ∨ zlen out ≤ MAX_CHUNKS_PER_DOMAIN) ∧ out ≠ [].
Proof.
  revert records chunks. induction fuel as [|fuel IH]; intros records chunks Hl; cbn [chunk_loop] in Hl.
  all: destruct ((length records =? 0)%nat && negb (length chunks =? 0)%nat) eqn:Hdone.
  1,3: injection Hl as <-; apply andb_true_iff in Hdone as [Hr%Nat.eqb_eq Hc]; exists [], []; rewrite app_nil_r;
    split_and!; [by apply length_zero_iff_nil in Hr|done|done|done|by left|by destruct chunks].
  { done. }
  apply obind_Ok in Hl as (index & Hi & Hl). apply ok_or_Ok, try_from_Some in Hi as [-> Hi].
  apply obind_Ok in Hl as ([selected rest] & Hf & Hl). apply fill_chunk_Ok in Hf as (-> & Hne & Hsize).
  apply obind_Ok in Hl as (b & (Hb & Hlens & Hcount)%encode_state_chunk_Ok & Hl).
  destruct (Z.ltb_spec MAX_CHUNKS_PER_DOMAIN (zlen (chunks ++ [b]))) as [|Hmax]; [done|].
  apply IH in Hl as (groups & new & -> & -> & Elen & Hg & Hle & _).
  exists (selected :: groups), (b :: new). rewrite <-app_assoc in Hle |- *. split_and!; [done|done|cbn; lia| | |by destruct chunks].
  - intros [|i] group b' Eg Eb; cbn in Eg, Eb.
    + injection Eg as <-. injection Eb as <-. rewrite Z.add_0_r. split; try done.
      destruct Hsize as [->|Hs]; [by vm_compute|done].
    + specialize (Hg i group b' Eg Eb). rewrite zlen_app in Hg. change (zlen [b]) with 1 in Hg.
      by replace (zlen chunks + Z.of_nat (S i)) with (zlen chunks + 1 + Z.of_nat i) by lia.
  - right. destruct Hle as [->|Hle]; [by rewrite app_nil_r|done].
Qed.

(** The fuel of the loop is enough: it does not panic. *)
Lemma fill_chunk_no_panic size started records m :
  size ≤ MAX_STATE_CHUNK_BYTES → Forall (λ r : state_record, zlen r.2 < 2 ^ 63) records →
  fill_chunk size started records ≠ Panic m.
Proof.
  intros Hs Hr. revert size started Hs. induction Hr as [|r records Hr _ IH]; intros size started Hs; cbn; [done|].
  apply obind_no_panic; [no_panic|]. intros n Hn. apply ok_or_Ok, checked_add_Some in Hn as [-> Hn].
  unfold add_usize. rewrite (proj2 (checked_add_Some 64 size _ (size + (CHUNK_RECORD_FIXED_BYTES + zlen r.2)))) by
    (split; [done|]; unfold MAX_STATE_CHUNK_BYTES, CHUNK_RECORD_FIXED_BYTES in *; lia).
  cbn [expect obind]. destruct (Z.ltb_spec MAX_STATE_CHUNK_BYTES (size + (CHUNK_RECORD_FIXED_BYTES + zlen r.2))); [by destruct started|].
  apply obind_no_panic; [by apply IH|]. by intros [sel rest] _.
Qed.

Lemma chunk_loop_no_panic fuel domain_id records chunks m :
  (length records < fuel)%nat → Forall (λ r : state_record, zlen r.2 < 2 ^ 63) records →
  chunk_loop fuel domain_id records chunks ≠ Panic m.
Proof.
  revert records chunks. induction fuel as [|fuel IH]; intros records chunks Hf Hr; [lia|]. cbn [chunk_loop].
  destruct (_ && _) eqn:Hdone; [done|]. apply obind_no_panic; [no_panic|intros index _].
  apply obind_no_panic; [by apply fill_chunk_no_panic|]. intros [selected rest] (-> & Hne & _)%fill_chunk_Ok.
  apply obind_no_panic; [unfold encode_state_chunk; no_panic; apply for_each_no_panic; intros o [[k h] v] _; unfold encode_record; no_panic|].
  intros b _. destruct (_ <? _); [done|]. apply list.Forall_app in Hr as [_ Hr].
  destruct selected as [|r selected]; [|apply IH; [rewrite length_app in Hf; cbn in Hf; lia|done]].
  destruct rest as [|r rest]; [|by destruct Hne]. destruct fuel as [|fuel]; cbn; by rewrite length_app, Nat.add_comm.
Qed.

(** ** Reading the records back *)

Section records.
Context `{Keccak}.

Notation maps := (btree bytes bytes * btree bytes bytes)%type.

Definition add_record (m : maps) (r : state_record) : maps :=
  if r.1.1 =? CHUNK_NODE then (binsert r.1.2 r.2 m.1, m.2) else (m.1, binsert r.1.2 r.2 m.2).

(** A node or a contract body under its own hash. *)
Definition record_ok (r : state_record) : Prop :=
  (r.1.1 = CHUNK_NODE ∨ r.1.1 = CHUNK_CODE) ∧ keccak256 r.2 = r.1.2 ∧ u32 (zlen r.2).

(** Not yet in the map of its kind. *)
Definition fresh (m : maps) (r : state_record) : Prop :=
  bget r.1.2 (if r.1.1 =? CHUNK_NODE then m.1 else m.2) = None.

Lemma fresh_add m r r' : fresh m r → r.1 ≠ r'.1 → record_ok r → record_ok r' → fresh (add_record m r') r.
Proof.
  unfold fresh, add_record, record_ok. destruct r as [[k h] v], r' as [[k' h'] v']. cbn [fst snd].
  intros Hf Hne [Hk _] [Hk' _]. destruct (Z.eqb_spec k CHUNK_NODE) as [->|Hn], (Z.eqb_spec k' CHUNK_NODE) as [->|Hn']; cbn [fst snd].
  - rewrite bget_binsert_ne; [done|]. congruence.
  - done.
  - done.
  - rewrite bget_binsert_ne; [done|]. destruct Hk, Hk'; congruence.
Qed.

Lemma accepts_record m r : record_ok r → fresh m r → accepts (read_record m.1 m.2) (add_record m r) (record_bytes r).
Proof.
  intros (Hk & Hh & Hu) Hf. unfold read_record, record_bytes. destruct r as [[k h] v], m as [nodes code]. cbn [fst snd] in *.
  eapply accepts_bind; [apply accepts_uint; destruct Hk as [->| ->]; done|].
  eapply accepts_bind; [apply accepts_hash; rewrite <-Hh; apply keccak256_length|].
  rewrite <-(app_nil_r (to_be_bytes 4 (zlen v) ++ v)). eapply accepts_bind; [by apply accepts_prefixed|].
  apply accepts_guard; [by rewrite bool_decide_true|]. unfold fresh, add_record in *. cbn [fst snd] in *.
  destruct Hk as [->| ->]; cbn [Z.eqb CHUNK_NODE CHUNK_CODE Pos.eqb] in *.
  all: apply accepts_guard; [by apply bcontains_false|]; by apply (reads_accepts _ _ _ _ (reads_ret _)).
Qed.

Lemma accepts_records l m :
  Forall record_ok l → Forall (fresh m) l → NoDup l.*1 →
  accepts (read_records (length l) m.1 m.2) (foldl add_record m l) (concat (record_bytes <$> l)).
Proof.
  revert m. induction l as [|r l IH]; intros m Ho Hf Hn; cbn [length read_records foldl].
  { destruct m. by apply (reads_accepts _ _ _ _ (reads_ret _)). }
  inversion Ho as [|? ? Hr Hl]; subst. inversion Hf as [|? ? Hfr Hfl]; subst. rewrite fmap_cons in Hn. apply list.NoDup_cons in Hn as [Hni Hn].
  rewrite fmap_cons. cbn [concat]. eapply accepts_bind; [by apply accepts_record|]. apply IH; [done| |done].
  rewrite list.Forall_forall in Hl, Hfl |- *. intros x Hx. apply fresh_add; auto. intros E. apply Hni. rewrite <-E. by apply list_elem_of_fmap_2.
Qed.

Lemma zlen_records l : Forall record_ok l → zlen (concat (record_bytes <$> l)) = zsum record_size l.
Proof.
  induction 1 as [|[[k h] v] l (_ & Hh & _) _ IH]; [done|]. rewrite fmap_cons, zsum_cons. cbn [concat]. rewrite zlen_app, IH.
  unfold record_bytes, record_size, CHUNK_RECORD_FIXED_BYTES. cbn [fst snd] in *. rewrite !zlen_app, !zlen_to_be_bytes.
  rewrite <-Hh. unfold zlen at 1. rewrite keccak256_length. lia.
Qed.

(** A chunk decodes to its records. *)
Lemma chunk_decodes domain_id index group b m :
  is_b256 domain_id → chunk_of domain_id index group b → Forall record_ok group → Forall (fresh m) group →
  NoDup group.*1 → decode_state_chunk domain_id index b m.1 m.2 = Ok (foldl add_record m group).
Proof.
  intros Hid [-> Hl Hc Hs Hi] Ho Hf Hn. unfold decode_state_chunk.
  assert (zlen (chunk_header domain_id index (zlen group)) = 61) as Eh.
  { unfold chunk_header. rewrite !zlen_app, !zlen_to_be_bytes. unfold zlen at 2. by rewrite Hid. }
  pose proof (zlen_records _ Ho) as Er. assert (0 ≤ zsum record_size group) as Hp by (rewrite <-Er; apply zlen_nonneg).
  assert (zlen (chunk_header domain_id index (zlen group) ++ concat (record_bytes <$> group)) = 61 + zsum record_size group) as El.
  { by rewrite zlen_app, Eh, Er. }
  rewrite (proj2 (Nat.eqb_neq _ _)) by (intros E; apply length_zero_iff_nil in E; rewrite E, zlen_nil in El; lia). rewrite El, (proj2 (Z.ltb_ge _ _)) by (unfold CHUNK_FIXED_BYTES in Hs; lia).
  cbn [orb]. apply run_accepts; [|unfold CHUNK_FIXED_BYTES, MAX_STATE_CHUNK_BYTES in Hs; lia].
  unfold chunk_header, read_state_chunk. rewrite <-!app_assoc.
  eapply accepts_bind; [apply accepts_tag|]. eapply accepts_bind; [by apply accepts_uint|]. apply accepts_guard; [done|].
  eapply accepts_bind; [by apply accepts_hash|]. apply accepts_guard; [by rewrite bool_decide_true|].
  eapply accepts_bind; [by apply accepts_uint|]. apply accepts_guard; [by rewrite Z.eqb_refl|].
  eapply accepts_bind; [by apply accepts_uint|]. unfold zlen. rewrite Nat2Z.id. by apply accepts_records.
Qed.
End records.

(** ** The chunks of a state *)

Section states.
Context `{Keccak}.

Lemma bextend_self {V : Type} (m : btree bytes V) : sorted m → bextend [] m = m.
Proof.
  intros Hs. apply btree_ext; [apply sorted_bextend; constructor|done|]. intros k.
  destruct (bget k m) as [v|] eqn:E.
  - apply bget_bextend_in; [|by apply bget_elem_of]. intros k' v1 v2 H1 H2. apply (elem_of_bget m) in H1, H2; [congruence|done|done].
  - rewrite bget_bextend_notin; [done|]. by apply bget_None in E.
Qed.

Lemma add_nodes m (nodes : btree bytes bytes) :
  foldl add_record m ((λ e, (CHUNK_NODE, e.1, e.2)) <$> nodes) = (bextend m.1 nodes, m.2).
Proof. revert m. induction nodes as [|e nodes IH]; intros m; [by destruct m|]. rewrite fmap_cons. cbn [foldl]. by rewrite IH. Qed.

Lemma add_code m (code : btree bytes bytes) :
  foldl add_record m ((λ e, (CHUNK_CODE, e.1, e.2)) <$> code) = (m.1, bextend m.2 code).
Proof. revert m. induction code as [|e code IH]; intros m; [by destruct m|]. rewrite fmap_cons. cbn [foldl]. by rewrite IH. Qed.

Lemma state_records_add nodes code :
  sorted nodes → sorted code → foldl add_record ([], []) (state_records nodes code) = (nodes, code).
Proof.
  intros Hn Hc. unfold state_records. rewrite foldl_app, add_nodes, add_code. cbn [fst snd]. by rewrite !bextend_self.
Qed.

Lemma state_records_nodup nodes code : sorted nodes → sorted code → NoDup (state_records nodes code).*1.
Proof.
  intros Hn Hc. unfold state_records. rewrite fmap_app, <-!list_fmap_compose. apply list.NoDup_app. split_and!.
  - apply sorted_NoDup in Hn. unfold bkeys in Hn. change (NoDup ((λ h : bytes, (CHUNK_NODE, h)) ∘ fst <$> nodes)).
    rewrite list_fmap_compose. by apply NoDup_fmap_2; [intros ? ? [= ->]|].
  - intros x (e & -> & _)%list_elem_of_fmap (e' & E & _)%list_elem_of_fmap. by injection E.
  - apply sorted_NoDup in Hc. unfold bkeys in Hc. change (NoDup ((λ h : bytes, (CHUNK_CODE, h)) ∘ fst <$> code)).
    rewrite list_fmap_compose. by apply NoDup_fmap_2; [intros ? ? [= ->]|].
Qed.

Lemma state_records_ok nodes code :
  addressed nodes → addressed code → Forall (λ r, u32 (zlen r.2)) (state_records nodes code) →
  Forall record_ok (state_records nodes code).
Proof.
  intros [_ Hn] [_ Hc] Hu. rewrite list.Forall_forall in Hu |- *. intros r Hr. split_and!; [| |by apply Hu].
  - apply elem_of_app in Hr as [(e & -> & _)%list_elem_of_fmap|(e & -> & _)%list_elem_of_fmap]; [by left|by right].
  - apply elem_of_app in Hr as [([h v] & -> & He)%list_elem_of_fmap|([h v] & -> & He)%list_elem_of_fmap]; cbn;
      symmetry; eauto.
Qed.

(** What the producer's chunks of one domain are. *)
Lemma encode_state_chunks_Ok domain_id nodes code chunks :
  encode_state_chunks domain_id nodes code = Ok chunks →
  ∃ groups, state_records nodes code = concat groups ∧ length chunks = length groups ∧ chunks ≠ [] ∧
    zlen chunks ≤ MAX_CHUNKS_PER_DOMAIN ∧
    ∀ i group b, groups !! i = Some group → chunks !! i = Some b → chunk_of domain_id (Z.of_nat i) group b.
Proof.
  unfold encode_state_chunks. intros (groups & new & E & -> & El & Hg & Hm & Hne)%chunk_loop_Ok. cbn [app] in *.
  exists groups. split_and!; try done. destruct Hm as [->|Hm]; [done|done].
Qed.
End states.

(** ** Gathering the chunks of a domain *)

Section gathering.
Context `{Keccak}.

Lemma elem_of_concat {A : Type} (x : A) ls : x ∈ concat ls → ∃ l, x ∈ l ∧ l ∈ ls.
Proof.
  induction ls as [|l ls IH]; cbn; [by intros ?%elem_of_nil|].
  intros [Hx|(l' & Hx & Hl)%IH]%elem_of_app; [exists l; split; [done|by left]|exists l'; split; [done|by right]].
Qed.

Lemma fresh_fold m l r :
  fresh m r → record_ok r → Forall record_ok l → r.1 ∉ l.*1 → fresh (foldl add_record m l) r.
Proof.
  intros Hf Hr Hl. revert m Hf. induction Hl as [|x l Hx _ IH]; intros m Hf Hn; [done|]. rewrite fmap_cons in Hn.
  apply not_elem_of_cons in Hn as [Hne Hn]. cbn [foldl]. apply IH; [by apply fresh_add|done].
Qed.

Lemma gather_groups s (domain_id : DomainId) groups descriptors m k :
  is_b256 domain_id → length descriptors = length groups →
  (∀ i d g, descriptors !! i = Some d → groups !! i = Some g →
     sc_index d = Z.of_nat (k + i) ∧
     ∃ b, bget (domain_id, Z.of_nat (k + i)) (ss_chunks s) = Some b ∧ chunk_of domain_id (Z.of_nat (k + i)) g b) →
  Forall record_ok (concat groups) → Forall (fresh m) (concat groups) → NoDup (concat groups).*1 →
  for_each (gather_chunk s domain_id) m descriptors = Ok (foldl add_record m (concat groups)).
Proof.
  intros Hid. revert m k descriptors. induction groups as [|g groups IH]; intros m k [|d ds] El Hall Ho Hf Hn; try done.
  cbn [concat] in *. apply list.Forall_app in Ho as [Hog Ho], Hf as [Hfg Hf]. rewrite fmap_app in Hn.
  apply list.NoDup_app in Hn as (Hng & Hd & Hn). destruct (Hall 0%nat d g eq_refl eq_refl) as (Ei & b & Hb & Hc).
  rewrite Nat.add_0_r in Ei, Hb, Hc. cbn [for_each]. unfold gather_chunk at 1. rewrite Ei, Hb. cbn [ok_or obind].
  rewrite (chunk_decodes _ _ g b m Hid Hc Hog Hfg Hng). cbn [obind]. rewrite foldl_app. apply (IH _ (S k)).
  - by injection El.
  - intros i d' g' Hd' Hg'. specialize (Hall (S i) d' g' Hd' Hg'). by replace (S k + i)%nat with (k + S i)%nat by lia.
  - done.
  - rewrite list.Forall_forall in Ho, Hf |- *. intros r Hr. apply fresh_fold; auto. intros Hin.
    apply (Hd _ Hin). by apply list_elem_of_fmap_2.
  - done.
Qed.

Lemma describe_chunks_Ok chunks descriptors :
  collect describe_chunk (enumerate chunks) = Ok descriptors →
  length descriptors = length chunks ∧
  ∀ i b, chunks !! i = Some b → descriptors !! i = Some {| sc_index := Z.of_nat i; sc_bytes := zlen b; sc_hash := keccak256 b |}.
Proof.
  intros Hc. pose proof (collect_length _ _ _ Hc) as El. unfold enumerate in El. rewrite length_imap in El. split; [done|].
  apply collect_Ok in Hc. intros i b Hb. assert (enumerate chunks !! i = Some (Z.of_nat i, b)) as Hi.
  { unfold enumerate. by rewrite list_lookup_imap, Hb. }
  destruct (Forall2_lookup_l _ _ _ _ _ Hc Hi) as (d & Hd & Hx). rewrite Hd. f_equal.
  unfold describe_chunk in Hx. cbn [fst snd] in Hx. apply obind_Ok in Hx as (n & Hn & Hx). apply obind_Ok in Hx as (k & Hk & [= <-]).
  apply ok_or_Ok, try_from_Some in Hn as [-> _], Hk as [-> _]. done.
Qed.

(** The staged chunks of a domain are those its producer made, so they hold the
    producer's nodes and code. *)
Lemma gather_state s (domain_id : DomainId) nodes code chunks descriptors :
  is_b256 domain_id → addressed nodes → addressed code →
  encode_state_chunks domain_id nodes code = Ok chunks →
  collect describe_chunk (enumerate chunks) = Ok descriptors →
  (∀ i b, chunks !! i = Some b → bget (domain_id, Z.of_nat i) (ss_chunks s) = Some b) →
  for_each (gather_chunk s domain_id) ([], []) descriptors = Ok (nodes, code).
Proof.
  intros Hid Hn Hc He Hd Hs. apply encode_state_chunks_Ok in He as (groups & Er & El & _ & _ & Hg).
  apply describe_chunks_Ok in Hd as [Ed Hd]. rewrite <-(state_records_add nodes code) by (apply Hn || apply Hc). rewrite Er.
  assert (Forall (λ r : state_record, u32 (zlen r.2)) (state_records nodes code)) as Hu.
  { rewrite Er. apply list.Forall_forall. intros r (g & Hrg & Hgin)%elem_of_concat. apply list_elem_of_lookup in Hgin as [i Hi].
    destruct (lookup_lt_is_Some_2 chunks i) as [b Hb]; [rewrite El; by eapply lookup_lt_Some|].
    pose proof (ck_lengths _ _ _ _ (Hg _ _ _ Hi Hb)) as Hl. rewrite list.Forall_forall in Hl. by apply Hl. }
  apply (gather_groups _ _ _ _ _ 0); [done|lia| | | |].
  - intros i d g Hdi Hgi. destruct (lookup_lt_is_Some_2 chunks i) as [b Hb]; [rewrite El; by eapply lookup_lt_Some|].
    rewrite (Hd _ _ Hb) in Hdi. injection Hdi as <-. split; [done|]. exists b. split; [by apply Hs|by apply Hg].
  - rewrite <-Er. by apply state_records_ok.
  - apply list.Forall_forall. intros r _. unfold fresh. by destruct (_ =? _).
  - rewrite <-Er. apply state_records_nodup; [apply Hn|apply Hc].
Qed.
End gathering.

(** ** Staging *)

Section staging.
Context `{Keccak, Secp256k1, AlloyRlp, !AlloyTrie, SenderRecovery, Journal, !Revm, AlloyRoots}.

(** What a manifest declares, by domain and index. *)
Lemma expected_lookup m d c :
  shape_ok m → d ∈ km_domains m → c ∈ sm_chunks (kd_state d) →
  bget (kd_domain_id d, sc_index c) (expected_chunks m) = Some c.
Proof.
  intros Hs Hd Hc. unfold expected_chunks. change (bcollect ?l) with (bextend [] l). apply bget_bextend_in.
  - intros key c1 c2 H1' H2'. apply list_elem_of_bind in H1' as (d1 & H1' & Hd1), H2' as (d2 & H2' & Hd2).
    apply list_elem_of_fmap in H1' as (x1 & [= -> ->] & Hx1), H2' as (x2 & [= Ed Ei ->] & Hx2).
    assert (d1 = d2) as ->.
    { apply list_elem_of_lookup in Hd1 as [i Hi], Hd2 as [j Hj]. pose proof (StronglySorted_NoDup _ (so_sorted _ Hs)) as Hn.
      assert (i = j) as ->; [|congruence]. eapply (NoDup_lookup _ i j (kd_domain_id d1) Hn); rewrite list_lookup_fmap, ?Hi, ?Hj; cbn; congruence. }
    pose proof (so_domains _ Hs d2 Hd2) as Hv. unfold validate_domain in Hv. apply obind_Ok in Hv as ([] & Hv & _).
    apply map_err_Ok, validate_manifest_Ok in Hv as [_ Hi].
    apply list_elem_of_lookup in Hx1 as [i1 H1'], Hx2 as [i2 H2']. destruct (Hi _ _ H1') as [E1 _], (Hi _ _ H2') as [E2 _].
    assert (i1 = i2) as -> by lia. congruence.
  - apply list_elem_of_bind. exists d. split; [|done]. apply list_elem_of_fmap. by exists c.
Qed.

Record staging_ok (m : CheckpointManifest) (s : SnapshotStaging) : Prop := {
  sg_manifest : ss_manifest s = m;
  sg_expected : ss_expected s = expected_chunks m;
  sg_sorted : sorted (ss_chunks s);
  sg_chunks : ∀ key v, bget key (ss_chunks s) = Some v →
    ∃ c, bget key (ss_expected s) = Some c ∧ verify_chunk c v = true;
  sg_bytes : ss_staged_bytes s ≤ MAX_SNAPSHOT_TOTAL_BYTES;
}.

Definition stage_step (s s' : SnapshotStaging) : Prop :=
  ∃ domain_id index value, stage_chunk s domain_id index value = Ok s'.

Lemma stage_chunk_ok m s domain_id index value s' :
  staging_ok m s → stage_chunk s domain_id index value = Ok s' →
  staging_ok m s' ∧ bget (domain_id, index) (ss_chunks s') = Some value ∧
  ∀ key v, bget key (ss_chunks s) = Some v → bget key (ss_chunks s') = Some v.
Proof.
  intros [Hm He Hs Hc Hb]. unfold stage_chunk. intros Hst. apply obind_Ok in Hst as (c & Hk & Hst). apply ok_or_Ok in Hk.
  destruct (verify_chunk c value) eqn:Hv; [|done]. cbn [negb] in Hst.
  destruct (bget (domain_id, index) (ss_chunks s)) as [old|] eqn:Hold.
  - destruct (bool_decide_reflect (old = value)) as [->|]; [|done]. injection Hst as <-. by split_and!.
  - apply obind_Ok in Hst as (total & Ht & Hst). destruct (Z.ltb_spec MAX_SNAPSHOT_TOTAL_BYTES total); [done|]. injection Hst as <-.
    split_and!; cbn [ss_manifest ss_chunks ss_expected ss_staged_bytes].
    + split; cbn [ss_manifest ss_chunks ss_expected ss_staged_bytes]; [done|done|by apply sorted_binsert| |done].
      intros key v Hg. rewrite bget_binsert in Hg. destruct (teqb key (domain_id, index)) eqn:E; [|by apply Hc].
      apply teqb_eq in E as ->. injection Hg as <-. by exists c.
    + apply bget_binsert_eq.
    + intros key v Hg. rewrite bget_binsert_ne; [done|]. intros ->. congruence.
Qed.

Lemma staged_ok m s s' : staging_ok m s → rtc stage_step s s' → staging_ok m s'.
Proof. intros Hs Hr. revert Hs. induction Hr as [|s s1 s2 (id & i & v & Hst) _ IH]; [done|]. intros Hs. by apply IH, (stage_chunk_ok _ _ _ _ _ _ Hs Hst). Qed.

Context `{!CheckpointFinalityVerifier}.

Lemma new_staging_ok b net gen s :
  new_staging b net gen = Ok s → ∃ m, decode_checkpoint_manifest b = Ok m ∧ staging_ok m s ∧
    km_network_id m = net ∧ km_genesis_hash m = gen ∧ verify_checkpoint m = Ok tt ∧ ss_chunks s = [].
Proof.
  unfold new_staging. intros Hn. apply obind_Ok in Hn as (m & Hd & Hn). destruct (_ || _) eqn:Hg in Hn; [done|].
  apply obind_Ok in Hn as ([] & Hv & [= <-]). apply map_err_Ok in Hv. bool_prop. exists m. split_and!; try done.
  split; try done. constructor.
Qed.

(** A complete staging holds every chunk the manifest declares. *)
Lemma complete_staged m s key c :
  staging_ok m s → is_complete s = true → bget key (ss_expected s) = Some c →
  ∃ v, bget key (ss_chunks s) = Some v ∧ verify_chunk c v = true.
Proof.
  intros [Hm He Hs Hc _] Hcomp Hk. assert (is_Some (bget key (ss_chunks s))) as [v Hv].
  { apply bkeys_elem. unfold is_complete in Hcomp. apply Nat.eqb_eq in Hcomp.
    assert (bkeys (ss_chunks s) ⊆+ bkeys (ss_expected s)) as Hsub.
    { apply NoDup_submseteq; [by apply sorted_NoDup|]. intros k Hin. apply bkeys_elem in Hin as [v Hin]. apply Hc in Hin as (c' & Hin & _).
      apply bkeys_elem. by exists c'. }
    rewrite (submseteq_length_Permutation _ _ Hsub) by (unfold bkeys; rewrite !length_fmap; lia). apply bkeys_elem. by exists c. }
  exists v. split; [done|]. destruct (Hc _ _ Hv) as (c' & Hk' & Hver). congruence.
Qed.
End staging.

(** ** What a bundle holds *)

Section bundles.
Context `{Keccak, Secp256k1, AlloyRlp, !AlloyTrie, SenderRecovery, Journal, !Revm, AlloyRoots}.

Definition produced_domain (state : FinalizedChainState) (entry : DomainId * FinalizedDomain)
    (kd : CheckpointDomain) : Prop :=
  ∃ chunks descriptors head_proof,
    encode_state_chunks entry.1 (snap_nodes (es_accounts (fd_state entry.2))) (es_contract_code (fd_state entry.2)) = Ok chunks ∧
    collect describe_chunk (enumerate chunks) = Ok descriptors ∧
    domain_head_proof state entry.1 = Some head_proof ∧
    kd = {| kd_domain_id := entry.1; kd_config := fd_config entry.2; kd_header := fd_header entry.2;
            kd_block_hash := fd_block_hash entry.2; kd_descriptor := domain_descriptor state entry.1;
            kd_state := {| sm_consensus_height := fs_height state; sm_domain_id := entry.1;
                           sm_state_root := Evm.state_root (fd_state entry.2); sm_chunks := descriptors |};
            kd_head_proof := head_proof |}.

(** A bundle holds every chunk of a domain under its index. *)
Definition served (chunks : btree (DomainId * Z) bytes) (entry : DomainId * FinalizedDomain) : Prop :=
  ∀ encoded i b,
    encode_state_chunks entry.1 (snap_nodes (es_accounts (fd_state entry.2))) (es_contract_code (fd_state entry.2)) = Ok encoded →
    encoded !! i = Some b → bget (entry.1, Z.of_nat i) chunks = Some b.

Lemma describe_chunk_wf item c : describe_chunk item = Ok c → wf_chunk c.
Proof.
  destruct item as [i b]. unfold describe_chunk. intros Hd. apply obind_Ok in Hd as (index & Hi & Hd). apply ok_or_Ok, try_from_Some in Hi as [-> Hi].
  apply obind_Ok in Hd as (size & Hs & [= <-]). apply ok_or_Ok, try_from_Some in Hs as [-> Hs]. split_and!; [done|done|apply keccak256_length].
Qed.

Lemma descriptors_verify chunks descriptors i c b :
  collect describe_chunk (enumerate chunks) = Ok descriptors → descriptors !! i = Some c → chunks !! i = Some b →
  sc_index c = Z.of_nat i ∧ verify_chunk c b = true.
Proof.
  intros [_ Hd]%describe_chunks_Ok Hc Hb. rewrite (Hd _ _ Hb) in Hc. injection Hc as <-. split; [done|].
  unfold verify_chunk. cbn. rewrite Z.eqb_refl. by rewrite bool_decide_true.
Qed.

(** Adding the chunks of a domain changes no other key and holds every one of them. *)
Lemma add_chunks_lookup (domain_id : DomainId) (descriptors : list SnapshotChunk) (values : list bytes) chunks key :
  let added := foldl (λ chunks c, binsert (domain_id, sc_index c.1) c.2 chunks) chunks (zip descriptors values) in
  (key.1 ≠ domain_id → bget key added = bget key chunks) ∧
  (NoDup (sc_index <$> descriptors) → ∀ i c b, descriptors !! i = Some c → values !! i = Some b →
    bget (domain_id, sc_index c) added = Some b).
Proof.
  revert values chunks. induction descriptors as [|d descriptors IH]; intros [|v values] chunks; cbn [zip zip_with foldl]; (split; [done|]) || idtac; try done.
  specialize (IH values (binsert (domain_id, sc_index d) v chunks)) as [IH1 IH2]. cbn [fst snd]. split.
  - intros Hk. rewrite IH1 by done. apply bget_binsert_ne. by intros ->.
  - intros [Hn Hnd]%list.NoDup_cons [|i] c b Hc Hb; cbn in Hc, Hb.
    + injection Hc as ->. injection Hb as ->. clear IH1 IH2.
      assert (∀ l m, (∀ e, e ∈ l → sc_index e.1 ≠ sc_index c) → bget (domain_id, sc_index c) m = Some b →
        bget (domain_id, sc_index c) (foldl (λ chunks e, binsert (domain_id, sc_index e.1) e.2 chunks) m l) = Some b) as Hl.
      { induction l as [|e l IH]; intros m He Hm; [done|]. cbn. apply IH; [intros x Hx; apply He; by right|].
        rewrite bget_binsert_ne; [done|]. intros [= E]. by apply (He e); [left|]. }
      apply Hl; [|apply bget_binsert_eq]. intros [x y] Hin E. apply Hn. apply list_elem_of_fmap. exists x.
      split; [done|]. by apply elem_of_zip_l in Hin.
    + by apply (IH2 Hnd i).
Qed.

Lemma descriptors_indices chunks descriptors :
  collect describe_chunk (enumerate chunks) = Ok descriptors → NoDup (sc_index <$> descriptors).
Proof.
  intros Hd. apply NoDup_alt. intros i j x Hi Hj. rewrite list_lookup_fmap in Hi, Hj.
  pose proof (describe_chunks_Ok _ _ Hd) as [El _].
  assert (∀ k c, descriptors !! k = Some c → sc_index c = Z.of_nat k) as Hk.
  { intros k c Hc. destruct (lookup_lt_is_Some_2 chunks k) as [b Hb]; [rewrite <-El; by eapply lookup_lt_Some|].
    by apply (descriptors_verify _ _ _ _ _ Hd Hc Hb). }
  destruct (descriptors !! i) as [c|] eqn:Ei, (descriptors !! j) as [c'|] eqn:Ej; try done.
  injection Hi as <-. injection Hj as Ec. apply Hk in Ei, Ej. lia.
Qed.

Lemma produce_domain_Ok state ds cs entry ds' cs' :
  produce_domain state (ds, cs) entry = Ok (ds', cs') →
  ∃ kd, ds' = ds ++ [kd] ∧ produced_domain state entry kd ∧ served cs' entry ∧
    ∀ key, key.1 ≠ entry.1 → bget key cs' = bget key cs.
Proof.
  destruct entry as [id fd]. unfold produce_domain. intros Hp. apply obind_Ok in Hp as (chunks & He & Hp).
  apply obind_Ok in Hp as (descriptors & Hd & Hp). apply obind_Ok in Hp as (hp & Hh & Hp). apply ok_or_Ok in Hh. injection Hp as <- <-.
  eexists. split_and!; [done|by exists chunks, descriptors, hp| |].
  - intros chunks' i b He' Hb. cbn [fst snd] in *. assert (chunks' = chunks) as -> by congruence.
    pose proof (describe_chunks_Ok _ _ Hd) as [_ Hat]. pose proof (Hat _ _ Hb) as Hc.
    destruct (add_chunks_lookup id descriptors chunks cs (id, 0)) as [_ Hg]. by apply (Hg (descriptors_indices _ _ Hd) _ _ _ Hc).
  - intros key Hk. by apply (add_chunks_lookup id descriptors chunks cs key).
Qed.

Lemma produce_domains_Ok state l ds cs ds' cs' :
  NoDup l.*1 → for_each (produce_domain state) (ds, cs) l = Ok (ds', cs') →
  ∃ new, ds' = ds ++ new ∧ Forall2 (produced_domain state) l new ∧ Forall (served cs') l ∧
    ∀ key, key.1 ∉ l.*1 → bget key cs' = bget key cs.
Proof.
  revert ds cs. induction l as [|entry l IH]; intros ds cs Hn Hf; cbn [for_each] in Hf.
  { injection Hf as <- <-. exists []. by rewrite app_nil_r. }
  apply obind_Ok in Hf as ([ds1 cs1] & Hp & Hf). rewrite fmap_cons in Hn. apply list.NoDup_cons in Hn as [Hx Hn].
  apply produce_domain_Ok in Hp as (kd & -> & Hkd & Hs & Ho). apply IH in Hf as (new & -> & Hnew & Hsnew & Hother); [|done].
  exists (kd :: new). split_and!; [by rewrite <-app_assoc|by constructor| |].
  - constructor; [|done]. intros encoded i b He Hb. rewrite Hother by done. by eapply Hs.
  - intros key Hk. rewrite fmap_cons in Hk. apply not_elem_of_cons in Hk as [Hk1 Hk2]. rewrite Hother by done. by apply Ho.
Qed.

(** The manifest of a bundle over the domains [ds]. *)
Definition manifest_of (state : FinalizedChainState) (genesis_hash : bytes) (vs : ValidatorSet) (finality_proof : bytes)
    (ds : list CheckpointDomain) : CheckpointManifest :=
  {| km_network_id := fs_network_id state; km_genesis_hash := genesis_hash; km_height := fs_height state;
     km_consensus_hash := fs_consensus_hash state; km_timestamp := fs_timestamp state;
     km_validator_set_hash := fs_validator_set_hash state;
     km_next_validator_set_hash := fs_next_validator_set_hash state; km_validator_set := vs;
     km_domain_heads_root := domain_heads_root state; km_root_domain_id := fs_root_domain_id state;
     km_governance_address := fs_governance_address state; km_finality_proof := finality_proof;
     km_domains := ds |}.

Lemma produce_Ok state genesis_hash vs finality_proof bundle :
  sorted (fs_domains state) → produce state genesis_hash vs finality_proof = Ok bundle →
  ∃ ds, sb_manifest bundle = manifest_of state genesis_hash vs finality_proof ds ∧
    Forall2 (produced_domain state) (fs_domains state) ds ∧ Forall (served (sb_chunks bundle)) (fs_domains state) ∧
    shape_ok (sb_manifest bundle) ∧ ∃ b, bundle_manifest_bytes bundle = Ok b.
Proof.
  intros Hs. unfold produce. intros Hp. apply obind_Ok in Hp as ([ds cs] & Hf & Hp). apply obind_Ok in Hp as (b & He & [= <-]).
  apply produce_domains_Ok in Hf as (new & -> & Hnew & Hsv & _); [|by apply sorted_NoDup].
  exists new. split_and!; [done|done|done|by eapply encode_checkpoint_manifest_Ok|]. by exists b.
Qed.

Lemma heads_commitment_wf state : chain_typed state → wf_commitment (heads_commitment (fs_domains state)).
Proof.
  intros Ht. assert (∀ id fd, (id, fd) ∈ fs_domains state → domain_typed id fd) as Hd.
  { intros id fd Hin. apply (ty_domains _ Ht). by apply elem_of_bget; [apply Ht|]. }
  unfold heads_commitment. revert Hd. assert (wf_commitment DomainHeads.new) as Hw by (split; constructor). revert Hw.
  generalize DomainHeads.new. induction (fs_domains state) as [|[id fd] l IH]; intros c Hw Hd; [done|]. cbn [foldl]. apply IH.
  - apply wf_insert; [done|]. destruct (Hd id fd) as [_ _ Hh Hb _]; [by left|]. split; [done|apply Hh].
  - intros id' fd' Hin. apply Hd. by right.
Qed.
End bundles.

(** ** What a complete staging gives *)

Section transfer.
Context `{Keccak, Secp256k1, AlloyRlp, !AlloyTrie, SenderRecovery, Journal, !Revm, AlloyRoots}.

Lemma wf_head_proof_of c (id : DomainId) : wf_commitment c → is_b256 id → wf_head_proof (DomainHeads.proof c id).
Proof.
  intros [Hs Hv]%(wf_proof_of c id) Hid. pose proof (hp_domain_id_proof c id) as E1. pose proof (hp_root_proof c id) as E2.
  pose proof (length_hp_siblings c id) as El. pose proof (commitment_root_typed c) as Hr. rewrite <-E2 in Hr. rewrite <-E1 in Hid.
  revert Hs Hv El Hr Hid. generalize (DomainHeads.proof c id). clear. intros p Hs Hv El Hr Hid.
  split; [exact Hr|]. split; [exact Hid|]. split; [|split; [exact Hs|exact El]]. intros v Ev. rewrite Ev in Hv. exact Hv.
Qed.

Lemma produced_wf state entry kd :
  chain_typed state → entry ∈ fs_domains state → produced_domain state entry kd → wf_checkpoint_domain kd.
Proof.
  destruct entry as [id fd]. intros Ht Hin (chunks & descriptors & hp & _ & Hd & Hh & ->). cbn [fst snd] in *.
  assert (domain_typed id fd) as [Hi Hc Hw Hb Hs] by (apply (ty_domains _ Ht), elem_of_bget; [apply Ht|done]).
  unfold wf_checkpoint_domain. cbn [kd_domain_id kd_config kd_header kd_block_hash kd_descriptor kd_state kd_head_proof].
  do 4 (split; [done|]). split; [|split].
  - intros x Hx. by eapply (ty_descriptors _ Ht).
  - unfold wf_manifest. cbn [sm_consensus_height sm_domain_id sm_state_root sm_chunks].
    split; [exact (ty_height _ Ht)|]. split; [exact Hi|]. split; [exact (st_root _ Hs)|]. apply collect_Ok in Hd. apply list.Forall_forall. intros c Hc'.
    apply list_elem_of_lookup in Hc' as [i Hc']. destruct (Forall2_lookup_r _ _ _ _ _ Hd Hc') as (x & _ & Hx). by eapply describe_chunk_wf.
  - unfold domain_head_proof in Hh. destruct (bcontains id (fs_domains state)); [|done]. injection Hh as <-.
    exact (wf_head_proof_of _ id (heads_commitment_wf _ Ht) Hi).
Qed.

Lemma produced_manifest_wf state genesis_hash vs finality_proof ds :
  chain_typed state → is_b256 genesis_hash → wf_validator_set vs →
  Forall2 (produced_domain state) (fs_domains state) ds →
  wf_checkpoint_manifest (manifest_of state genesis_hash vs finality_proof ds).
Proof.
  intros Ht Hg Hvs Hds. pose proof (ty_validators _ Ht) as [? ?]. unfold wf_checkpoint_manifest, manifest_of.
  cbn [km_network_id km_genesis_hash km_height km_consensus_hash km_timestamp km_validator_set_hash km_next_validator_set_hash
    km_domain_heads_root km_root_domain_id km_governance_address km_validator_set km_domains].
  split; [exact (ty_network _ Ht)|]. split; [exact Hg|]. split; [exact (ty_height _ Ht)|]. split; [exact (ty_hash _ Ht)|].
  split; [exact (ty_timestamp _ Ht)|]. do 2 (split; [assumption|]). split; [exact (heads_root_typed state)|].
  split; [exact (ty_root _ Ht)|]. split; [exact (ty_governance _ Ht)|]. split; [exact Hvs|]. apply list.Forall_forall. intros kd Hkd.
  apply list_elem_of_lookup in Hkd as [i Hi]. destruct (Forall2_lookup_r _ _ _ _ _ Hds Hi) as (e & He & Hp).
  eapply produced_wf; [done|by eapply list_elem_of_lookup_2|done].
Qed.

(** Reading a state back from its own nodes and code. *)
Definition reload (state : ExecutionState) : outcome EvmError ExecutionState :=
  from_persisted (33 * (length (snap_nodes (es_accounts state)) + 1)) (Evm.state_root state)
    (memory_store (snap_nodes (es_accounts state))) (λ hash, Ok (bget hash (es_contract_code state))).

Definition reimport_domain (state : FinalizedChainState) (entry : DomainId * FinalizedDomain)
    : outcome SnapshotError FinalizedDomainCheckpoint :=
  let? reloaded := snap_evm (reload (fd_state entry.2)) in
  if negb (bool_decide (bkeys (es_contract_code reloaded) = bkeys (es_contract_code (fd_state entry.2))))
  then Err (InvalidSnapshot "snapshot contains unreferenced contract code")
  else Ok {| dk_domain_id := entry.1; dk_config := fd_config entry.2; dk_header := fd_header entry.2;
             dk_block_hash := fd_block_hash entry.2; dk_state := reloaded;
             dk_descriptor := domain_descriptor state entry.1 |}.

(** What a node gets that holds all of the finalized state [state]. *)
Definition reimport (state : FinalizedChainState) (vs : ValidatorSet) (finality_proof : bytes)
    : outcome SnapshotError SnapshotImport :=
  let? domains := collect (reimport_domain state) (fs_domains state) in
  let? imported :=
    map_err (λ e, SnapshotState (ChainStateFailure e))
      (from_checkpoint
         {| ck_network_id := fs_network_id state; ck_height := fs_height state;
            ck_consensus_hash := fs_consensus_hash state; ck_timestamp := fs_timestamp state;
            ck_validator_set_hash := fs_validator_set_hash state;
            ck_next_validator_set_hash := fs_next_validator_set_hash state;
            ck_root_domain_id := fs_root_domain_id state; ck_governance_address := fs_governance_address state;
            ck_domain_heads_root := domain_heads_root state; ck_domains := domains |}) in
  Ok {| si_state := imported; si_validator_set := vs; si_finality_proof := finality_proof |}.

(** A chunk that was staged and the chunk of the bundle in its place collide. *)
Definition chunk_collision (bundle : SnapshotBundle) (s : SnapshotStaging) : Prop :=
  ∃ key p q, bundle_chunk bundle key.1 key.2 = Some p ∧ bget key (ss_chunks s) = Some q ∧
    p ≠ q ∧ keccak256 p = keccak256 q.

Lemma staged_chunks bundle s state entry kd :
  staging_ok (sb_manifest bundle) s → shape_ok (sb_manifest bundle) → is_complete s = true →
  kd ∈ km_domains (sb_manifest bundle) → produced_domain state entry kd → served (sb_chunks bundle) entry →
  ∀ encoded, encode_state_chunks entry.1 (snap_nodes (es_accounts (fd_state entry.2))) (es_contract_code (fd_state entry.2)) = Ok encoded →
  (∀ i b, encoded !! i = Some b → bget (entry.1, Z.of_nat i) (ss_chunks s) = Some b) ∨ chunk_collision bundle s.
Proof.
  intros Hok Hs Hcomp Hin (chunks & descriptors & hp & He & Hd & _ & ->) Hserved encoded He'.
  assert (encoded = chunks) as -> by congruence.
  destruct (decide (Forall (λ ib : Z * bytes, bget (entry.1, ib.1) (ss_chunks s) = Some ib.2) (enumerate chunks))) as [Hall|Hnot].
  - left. intros i b Hb. rewrite Forall_lookup in Hall. apply (Hall i (Z.of_nat i, b)). unfold enumerate. by rewrite list_lookup_imap, Hb.
  - right. apply not_Forall_Exists in Hnot; [|apply _]. apply Exists_exists in Hnot as ([z p] & Hel & Hne). cbn [fst snd] in Hne.
    apply list_elem_of_lookup in Hel as [i Hi]. unfold enumerate in Hi. rewrite list_lookup_imap in Hi.
    destruct (chunks !! i) as [b|] eqn:Hb; [|done]. injection Hi as <- ->.
    destruct (describe_chunks_Ok _ _ Hd) as [_ Hat]. pose proof (Hat _ _ Hb) as Hc.
    pose proof (expected_lookup _ _ _ Hs Hin (list_elem_of_lookup_2 _ _ _ Hc)) as Hexp. cbn [kd_domain_id sc_index] in Hexp.
    rewrite <-(sg_expected _ _ Hok) in Hexp. destruct (complete_staged _ _ _ _ Hok Hcomp Hexp) as (q & Hq & Hv).
    exists (entry.1, Z.of_nat i), p, q. cbn [fst snd]. split_and!; [by eapply Hserved|done|intros ->; by apply Hne|].
    unfold verify_chunk in Hv. cbn in Hv. by bool_prop.
Qed.

Lemma finish_domain_reimports bundle s state entry kd :
  staging_ok (sb_manifest bundle) s → shape_ok (sb_manifest bundle) → is_complete s = true →
  kd ∈ km_domains (sb_manifest bundle) → produced_domain state entry kd → served (sb_chunks bundle) entry →
  domain_typed entry.1 entry.2 →
  finish_domain s kd = reimport_domain state entry ∨ chunk_collision bundle s.
Proof.
  intros Hok Hs Hcomp Hin Hp Hserved Ht. pose proof Hp as (chunks & descriptors & hp & He & Hd & _ & ->).
  destruct (staged_chunks _ _ _ _ _ Hok Hs Hcomp Hin Hp Hserved _ He) as [Hst|]; [left|by right].
  unfold finish_domain, reimport_domain, reload.
  cbn [kd_domain_id kd_config kd_header kd_block_hash kd_descriptor kd_state kd_head_proof sm_chunks sm_state_root].
  rewrite (gather_state s entry.1 _ _ _ _ (dt_id _ _ Ht) (st_nodes _ (dt_state _ _ Ht)) (st_code _ (dt_state _ _ Ht)) He Hd Hst).
  done.
Qed.

Lemma finish_reimports bundle s state genesis_hash vs finality_proof :
  chain_typed state → produce state genesis_hash vs finality_proof = Ok bundle →
  staging_ok (sb_manifest bundle) s → is_complete s = true →
  finish s = reimport state vs finality_proof ∨ chunk_collision bundle s.
Proof.
  intros Ht Hp Hok Hcomp. apply produce_Ok in Hp as (ds & Em & Hds & Hserved & Hs & _); [|apply Ht].
  assert (collect (finish_domain s) ds = collect (reimport_domain state) (fs_domains state) ∨ chunk_collision bundle s) as Hc.
  { assert (ds ⊆ km_domains (sb_manifest bundle)) as Hsub by (by rewrite Em).
    assert (∀ id fd, (id, fd) ∈ fs_domains state → domain_typed id fd) as Hty.
    { intros id fd Hin. apply (ty_domains _ Ht). by apply elem_of_bget; [apply Ht|]. }
    revert Hsub Hty Hserved. clear Em. induction Hds as [|[id fd] kd l ds Hkd _ IH]; intros Hsub Hty Hserved; [by left|].
    apply Forall_cons in Hserved as [Hsv Hserved]. cbn [collect].
    destruct (finish_domain_reimports bundle s state (id, fd) kd) as [->|]; [done|done|done|apply Hsub; by left|done|done|apply Hty; by left| |by right].
    destruct IH as [->|]; [intros x Hx; apply Hsub; by right|intros ?? Hx; apply Hty; by right|done|by left|by right]. }
  destruct Hc as [Hc|]; [left|by right]. unfold finish, reimport. rewrite Hcomp. cbn [negb]. rewrite (sg_manifest _ _ Hok), Em.
  unfold manifest_of.
  cbn [km_network_id km_genesis_hash km_height km_consensus_hash km_timestamp km_validator_set_hash km_next_validator_set_hash
    km_domain_heads_root km_root_domain_id km_governance_address km_validator_set km_finality_proof km_domains]. by rewrite Hc.
Qed.

(** A staging opened on the bytes of a bundle's manifest is a staging of that manifest. *)
Lemma staging_of_bundle `{!CheckpointFinalityVerifier} state genesis_hash vs finality_proof bundle b net gen s0 s :
  chain_typed state → is_b256 genesis_hash → wf_validator_set vs →
  produce state genesis_hash vs finality_proof = Ok bundle → bundle_manifest_bytes bundle = Ok b →
  new_staging b net gen = Ok s0 → rtc stage_step s0 s → staging_ok (sb_manifest bundle) s.
Proof.
  intros Ht Hg Hvs Hp Hb Hn Hr. apply produce_Ok in Hp as (ds & Em & Hds & _); [|apply Ht].
  apply new_staging_ok in Hn as (m & Hd & Hok & _). unfold bundle_manifest_bytes in Hb. rewrite Em in Hb |- *.
  rewrite (manifest_decodes _ _ (produced_manifest_wf _ _ _ _ _ Ht Hg Hvs Hds) Hb) in Hd. injection Hd as <-.
  by eapply staged_ok.
Qed.

(** Domains that are all read back as they are give back the finalized state. *)
Lemma reimport_exact state vs finality_proof :
  from_checkpoint (checkpoint state) = Ok state →
  (∀ id fd, (id, fd) ∈ fs_domains state → reload (fd_state fd) = Ok (fd_state fd)) →
  reimport state vs finality_proof =
    Ok {| si_state := state; si_validator_set := vs; si_finality_proof := finality_proof |}.
Proof.
  intros Hc Hr. unfold reimport. rewrite (proj2 (collect_Ok _ _ (ck_domains (checkpoint state)))).
  - cbn [obind]. change (from_checkpoint _) with (from_checkpoint (checkpoint state)) at 1. by rewrite Hc.
  - unfold checkpoint. cbn [ck_domains]. apply Forall2_fmap_r, Forall_Forall2_diag, list.Forall_forall. intros [id fd] Hin.
    unfold reimport_domain. cbn [fst snd]. rewrite (Hr _ _ Hin). cbn [snap_evm map_err obind]. by rewrite bool_decide_true.
Qed.


Lemma served_verifies bundle state entry kd c :
  produced_domain state entry kd → served (sb_chunks bundle) entry → c ∈ sm_chunks (kd_state kd) →
  ∃ v, bundle_chunk bundle (kd_domain_id kd) (sc_index c) = Some v ∧ verify_chunk c v = true.
Proof.
  intros (chunks & descriptors & hp & He & Hd & _ & ->) Hsv Hc. cbn [kd_state sm_chunks kd_domain_id] in *.
  apply list_elem_of_lookup in Hc as [i Hc]. pose proof (describe_chunks_Ok _ _ Hd) as [El _].
  destruct (lookup_lt_is_Some_2 chunks i) as [b Hb]; [rewrite <-El; by eapply lookup_lt_Some|].
  destruct (descriptors_verify _ _ _ _ _ Hd Hc Hb) as [Ei Hv]. exists b. split; [|done]. rewrite Ei. by eapply Hsv.
Qed.
End transfer.

(** ** Capacity *)

Lemma domain_header_size h b : wf_domain_header h → encode_domain_header h = Ok b → zlen b = 491.
Proof.
  intros (_ & Hi & _ & Hp & _ & Ht & Hs & Hr & Hl & _) He. unfold encode_domain_header, Encoder.finish in He. apply obind_Ok in He as ([] & _ & He).
  apply Ok_inj in He as <-. unfold Encoder.tagged, Encoder.u32, Encoder.u64, Encoder.u128, Encoder.b256, Encoder.bloom.
  rewrite !zlen_app, !zlen_to_be_bytes. unfold zlen. rewrite Hi, Hp, Ht, Hs, Hr, Hl. reflexivity.
Qed.

Lemma head_proof_size p :
  wf_head_proof p → is_Some (hp_value p) → zlen (head_proof_bytes p) = 8323.
Proof.
  intros (Hr & Hd & Hv & Hs & Hl) [v Ev]. unfold head_proof_bytes. rewrite Ev. cbn [head_value_bytes]. destruct (Hv v Ev) as [H1' H2'].
  rewrite !zlen_app, zlen_concat_b256, !zlen_to_be_bytes by done. unfold zlen. rewrite Hr, Hd, H1', H2', Hl. reflexivity.
Qed.

Lemma zlen_concat_lower {A : Type} (R : A → bytes → Prop) n l bs :
  (∀ a b, a ∈ l → R a b → n ≤ zlen b) → Forall2 R l bs → n * zlen l ≤ zlen (concat bs).
Proof.
  intros Hn Hf. revert Hn. induction Hf as [|a b l bs Hab _ IH]; intros Hn; [cbn [concat]; unfold zlen; cbn [length]; lia|].
  cbn [concat]. rewrite zlen_cons, zlen_app. pose proof (Hn a b ltac:(by left) Hab). assert (n * zlen l ≤ zlen (concat bs)); [|lia].
  apply IH. intros x y Hx. apply Hn. by right.
Qed.

Section capacity.
Context `{Keccak, Secp256k1, AlloyRlp, !AlloyTrie, SenderRecovery, Journal, !Revm, AlloyRoots}.

(** Every domain of a manifest takes more than a 234th of a message. *)
Lemma domain_segment_size m d b :
  shape_ok m → d ∈ km_domains m → wf_checkpoint_domain d → domain_segment d b → 9000 ≤ zlen b.
Proof.
  intros Hs Hd (Hid & Hc & Hh & Hb & _ & Hm & Hp) (header & desc & st & Eh & _ & Es & _ & _ & _ & ->).
  assert (is_Some (hp_value (kd_head_proof d))) as Hv.
  { pose proof (so_domains _ Hs d Hd) as Hv. unfold validate_domain in Hv. apply obind_Ok in Hv as ([] & _ & Hv).
    destruct (_ || _) eqn:E in Hv; [done|]. apply orb_false_iff in E as [_ E]. bool_prop. by rewrite E. }
  assert (76 ≤ zlen st) as Ls.
  { apply encode_manifest_Ok in Es as [_ ->]. destruct Hm as (_ & Hi & Hr & _). unfold Snapshot.manifest_bytes.
    rewrite !zlen_app, !zlen_to_be_bytes. pose proof (zlen_nonneg SNAPSHOT_TAG). pose proof (zlen_nonneg (concat (chunk_bytes <$> sm_chunks (kd_state d)))).
    rewrite (zlen_b256 _ Hi), (zlen_b256 _ Hr). pose proof (zlen_nonneg [byte_of SNAPSHOT_VERSION]). lia. }
  unfold SnapshotTransfer.prefixed, encode_config.
  rewrite !zlen_app, !zlen_to_be_bytes, (head_proof_size _ Hp Hv), (domain_header_size _ _ Hh Eh), (zlen_b256 _ Hid), (zlen_b256 _ Hb).
  pose proof (zlen_nonneg desc). lia.
Qed.

Lemma manifest_domains_bound m b :
  wf_checkpoint_manifest m → encode_checkpoint_manifest m = Ok b → 9000 * zlen (km_domains m) ≤ MAX_DIRECT_REQUEST_BYTES.
Proof.
  intros Hw (Hs & (vs & segments & _ & Hsegs & _ & _ & ->) & Hle)%encode_checkpoint_manifest_Ok.
  assert (Forall wf_checkpoint_domain (km_domains m)) as Hd by apply Hw.
  rewrite list.Forall_forall in Hd. assert (9000 * zlen (km_domains m) ≤ zlen (concat segments)) as Hc.
  { apply (zlen_concat_lower domain_segment); [|done]. intros d c Hin Hb. eapply domain_segment_size; [exact Hs|done|by apply Hd|done]. }
  rewrite !app_assoc, zlen_app in Hle. match type of Hle with zlen ?a + _ ≤ _ => pose proof (zlen_nonneg a) end. lia.
Qed.

(** C31. A manifest has room for fewer domains than the limit says. The limit is 256
    domains, but every domain carries a proof of 256 hashes: a finalized state of 234
    domains or more cannot be produced as a snapshot, whatever its domains hold. *)
Theorem snapshot_capacity state genesis_hash vs finality_proof bundle :
  chain_typed state → is_b256 genesis_hash → wf_validator_set vs →
  produce state genesis_hash vs finality_proof = Ok bundle →
  zlen (fs_domains state) < 234 ∧ 234 < MAX_MANIFEST_DOMAINS.
Proof.
  intros Ht Hg Hvs Hp. split; [|done]. apply produce_Ok in Hp as (ds & Em & Hds & _ & _ & b & Hb); [|apply Ht].
  unfold bundle_manifest_bytes in Hb. rewrite Em in Hb. apply manifest_domains_bound in Hb; [|by apply produced_manifest_wf].
  cbn [manifest_of km_domains] in Hb. apply Forall2_length in Hds. unfold zlen, MAX_DIRECT_REQUEST_BYTES in *. lia.
Qed.
End capacity.

(** ** What a transfer gives *)

Section claims.
Context `{Keccak, Secp256k1, AlloyRlp, !AlloyTrie, SenderRecovery, Journal, !Revm, AlloyRoots, !CheckpointFinalityVerifier}.

(** C7. A snapshot transfers exactly. Let a node produce a bundle of a well-typed
    finalized state, and let another open a staging on the manifest's bytes and stage
    chunks, whatever bytes it is sent and by whom. The staging never holds more than
    the declared limit, and the bundle holds a chunk that verifies for every chunk the
    manifest declares. Finishing a complete staging gives exactly the producer's
    finalized state, validator set and finality proof, unless a staged chunk and the
    bundle's chunk in its place are a Keccak-256 collision, under two conditions on the
    state that was exported. The chain is past genesis and well formed: headers, hashes,
    configurations, chain IDs, descriptors and genealogy agree, and the root registry
    holds the hash of every descriptor. And each domain's state is what reading the
    nodes and code it exports gives, which excludes code that no account refers to. *)
Theorem snapshot_transfer_exact state genesis_hash vs finality_proof bundle b net gen s0 s :
  chain_typed state → is_b256 genesis_hash → wf_validator_set vs →
  produce state genesis_hash vs finality_proof = Ok bundle → bundle_manifest_bytes bundle = Ok b →
  new_staging b net gen = Ok s0 → rtc stage_step s0 s →
  ss_staged_bytes s ≤ MAX_SNAPSHOT_TOTAL_BYTES ∧
  (∀ kd c, kd ∈ km_domains (sb_manifest bundle) → c ∈ sm_chunks (kd_state kd) →
    ∃ v, bundle_chunk bundle (kd_domain_id kd) (sc_index c) = Some v ∧ verify_chunk c v = true) ∧
  (is_complete s = true →
    chain_ok (fs_height state) state → fs_height state ≠ 0 → registry_commits state →
    (∀ id fd, (id, fd) ∈ fs_domains state → reload (fd_state fd) = Ok (fd_state fd)) →
    finish s = Ok {| si_state := state; si_validator_set := vs; si_finality_proof := finality_proof |} ∨
    chunk_collision bundle s).
Proof.
  intros Ht Hg Hvs Hp Hb Hn Hr. pose proof (staging_of_bundle _ _ _ _ _ _ _ _ _ _ Ht Hg Hvs Hp Hb Hn Hr) as Hok.
  split; [apply Hok|]. split.
  - intros kd c Hkd Hc. apply produce_Ok in Hp as (ds & Em & Hds & Hsv & _); [|apply Ht]. rewrite Em in Hkd. cbn [manifest_of km_domains] in Hkd.
    apply list_elem_of_lookup in Hkd as [i Hi]. destruct (Forall2_lookup_r _ _ _ _ _ Hds Hi) as (e & He & Hpd).
    by eapply served_verifies; [|by eapply (proj1 (Forall_lookup _ _) Hsv)|].
  - intros Hcomp Hco Hh Hreg Hre.
    rewrite <-(reimport_exact _ vs finality_proof (checkpoint_restores _ Hco Hh Hreg) Hre). by eapply finish_reimports.
Qed.

(** C32. Snapshots of states with code that no account refers to are never accepted.
    A destroyed contract leaves its code in the state, the producer exports it, and the
    reader rejects what reading the state back does not load again: a node that stages
    such a snapshot, with every chunk genuine, does not import it. *)
Theorem unreferenced_code_rejected state genesis_hash vs finality_proof bundle b net gen s0 s id fd reloaded :
  chain_typed state → is_b256 genesis_hash → wf_validator_set vs →
  produce state genesis_hash vs finality_proof = Ok bundle → bundle_manifest_bytes bundle = Ok b →
  new_staging b net gen = Ok s0 → rtc stage_step s0 s →
  (id, fd) ∈ fs_domains state → reload (fd_state fd) = Ok reloaded →
  bkeys (es_contract_code reloaded) ≠ bkeys (es_contract_code (fd_state fd)) →
  (∀ import, finish s ≠ Ok import) ∨ chunk_collision bundle s.
Proof.
  intros Ht Hg Hvs Hp Hb Hn Hr Hin Hre Hk. pose proof (staging_of_bundle _ _ _ _ _ _ _ _ _ _ Ht Hg Hvs Hp Hb Hn Hr) as Hok.
  destruct (is_complete s) eqn:Hcomp; [|left; intros import; unfold finish; by rewrite Hcomp].
  destruct (finish_reimports _ _ _ _ _ _ Ht Hp Hok Hcomp) as [->|]; [left|by right]. intros import Hi.
  apply obind_Ok in Hi as (domains & Hc & _). apply collect_Ok in Hc. apply list_elem_of_lookup in Hin as [i Hi].
  destruct (Forall2_lookup_l _ _ _ _ _ Hc Hi) as (d & _ & Hd). unfold reimport_domain in Hd. cbn [fst snd] in Hd. rewrite Hre in Hd.
  cbn [snap_evm map_err obind] in Hd. by rewrite bool_decide_false in Hd.
Qed.
End claims.

Module TransferWitness.
Import ExecutorWitness ChainWitness TypingWitness EngineWitness.
#[local] Existing Instance mixed_keccak.
#[local] Existing Instance mixed_trie.
#[local] Existing Instance Toy.toy_secp.
#[local] Existing Instance spec_rlp.
#[local] Existing Instance RegistryWitness.toy.
#[local] Existing Instance toy_recovery.
#[local] Existing Instance toy_revm.
#[local] Existing Instance toy_roots.
#[local] Existing Instance toy_roots_laws.
#[local] Existing Instance spec_rlp_laws.
#[local] Existing Instance StorageWitness.toy_parity.
#[local] Existing Instance StorageWitness.toy_parity_laws.

#[local] Instance development_checkpoint : CheckpointFinalityVerifier := {| verify_checkpoint := development_verify_checkpoint |}.

(** The state an engine finalized with one transfer. *)
Definition finalized : FinalizedChainState := Eval vm_compute in en_finalized engine3.

Lemma finalized_by_engine : en_finalized engine3 = finalized.
Proof. by_evaluation. Qed.

Lemma finalized_typed : chain_typed finalized.
Proof.
  rewrite <-finalized_by_engine.
  destruct (reached_ok 0 dev fresh default_config All engine0 opened.2 engine3 dev_wf fresh_marker fresh_checkpoint opened_first
    engine3_reached) as [Hok _]. apply (rv_typed _ _ _ (eo_recovers _ Hok)).
Qed.

Lemma dev_genesis_hash : is_b256 (gn_genesis_hash dev).
Proof. reflexivity. Qed.

Lemma dev_validators : wf_validator_set (gn_validator_set dev).
Proof. split; [done|]. constructor; [|constructor]. split_and!; by_evaluation. Qed.

(** A bundle, its manifest's bytes, the staging opened on them and the staging with
    the bundle's only chunk. *)
Definition transfer (state : FinalizedChainState) :
    outcome SnapshotError (SnapshotBundle * bytes * SnapshotStaging * SnapshotStaging) :=
  let? bundle := produce state (gn_genesis_hash dev) (gn_validator_set dev) [] in
  let? b := bundle_manifest_bytes bundle in
  let? s0 := new_staging b (gn_network_id dev) (gn_genesis_hash dev) in
  let? s := stage_chunk s0 root_id 0 (default [] (bundle_chunk bundle root_id 0)) in
  Ok (bundle, b, s0, s).

Definition transfers (state : FinalizedChainState) : bool :=
  match transfer state with Ok (_, _, _, s) => is_complete s | _ => false end.

Lemma transfers_spec state :
  transfers state = true → ∃ bundle b s0 s,
  produce state (gn_genesis_hash dev) (gn_validator_set dev) [] = Ok bundle ∧ bundle_manifest_bytes bundle = Ok b ∧
  new_staging b (gn_network_id dev) (gn_genesis_hash dev) = Ok s0 ∧ rtc stage_step s0 s ∧ is_complete s = true.
Proof.
  unfold transfers. destruct (transfer state) as [[[[bundle b] s0] s]| |] eqn:Ht; [|done..]. intros Hc.
  unfold transfer in Ht. apply obind_Ok in Ht as (x1 & Hp & Ht). apply obind_Ok in Ht as (x2 & Hb & Ht).
  apply obind_Ok in Ht as (x3 & Hn & Ht). apply obind_Ok in Ht as (x4 & Hs & Ht). apply Ok_inj in Ht as [= -> -> -> ->].
  exists bundle, b, s0, s. split_and!; [done|done|done| |done]. apply rtc_once. by eexists root_id, 0, _.
Qed.

Lemma finalized_transfers : transfers finalized = true.
Proof. by_evaluation. Qed.

Lemma finalized_checkpoint : from_checkpoint (checkpoint finalized) = Ok finalized.
Proof. by_evaluation. Qed.

Lemma finalized_reloads id fd : (id, fd) ∈ fs_domains finalized → reload (fd_state fd) = Ok (fd_state fd).
Proof. intros Hin. apply list_elem_of_singleton in Hin as [= -> ->]. by_evaluation. Qed.

Lemma snapshot_transfer_exact_witness :
  ∃ bundle s, produce finalized (gn_genesis_hash dev) (gn_validator_set dev) [] = Ok bundle ∧ is_complete s = true ∧
  (finish s = Ok {| si_state := finalized; si_validator_set := gn_validator_set dev; si_finality_proof := [] |} ∨
   chunk_collision bundle s).
Proof.
  destruct (transfers_spec _ finalized_transfers) as (bundle & b & s0 & s & Hp & Hb & Hn & Hr & Hc). exists bundle, s.
  destruct (snapshot_transfer_exact finalized (gn_genesis_hash dev) (gn_validator_set dev) [] _ b _ _ _ _ finalized_typed dev_genesis_hash
    dev_validators Hp Hb Hn Hr) as (_ & _ & Hf).
  destruct (restored_ok _ _ finalized_checkpoint) as (Hco & Hh & Hreg).
  exact (conj Hp (conj Hc (Hf Hc Hco Hh Hreg finalized_reloads))).
Defined.

Lemma snapshot_capacity_witness : zlen (fs_domains finalized) < 234.
Proof.
  destruct (transfers_spec _ finalized_transfers) as (? & ? & ? & ? & Hp & _).
  apply (snapshot_capacity finalized _ _ _ _ finalized_typed dev_genesis_hash dev_validators Hp).
Defined.

(** A contract created and destroyed leaves its code in the state. *)
Definition contract : bytes := repeat_byte 20 77.
Definition contract_code : bytes := repeat_byte 4 91.

Definition created : ChangedAccount :=
  {| ca_touched := true; ca_selfdestructed := false; ca_created := true; ca_nonce := 1; ca_balance := 0;
     ca_code_hash := keccak256 contract_code; ca_code := Some contract_code; ca_slots := [] |}.

Definition destroyed : ChangedAccount :=
  {| ca_touched := true; ca_selfdestructed := true; ca_created := false; ca_nonce := 1; ca_balance := 0;
     ca_code_hash := keccak256 contract_code; ca_code := None; ca_slots := [] |}.

Definition root_domain : FinalizedDomain := Eval vm_compute in
  match fs_domains finalized with (_, fd) :: _ => fd | [] => full_domain end.

Definition after_create : outcome EvmError ExecutionState := apply_changes (fd_state root_domain) [(contract, created)].

Definition after_destroy : outcome EvmError ExecutionState :=
  let? s := after_create in apply_changes s [(contract, destroyed)].

Definition left_over : ExecutionState := Eval vm_compute in
  match after_destroy with Ok s => s | _ => fd_state root_domain end.

Lemma left_over_reached : after_destroy = Ok left_over.
Proof. by_evaluation. Qed.

Lemma left_over_typed : state_typed left_over.
Proof.
  pose proof left_over_reached as Hl. unfold after_destroy in Hl. apply obind_Ok in Hl as (s & Hc & Hl).
  eapply apply_changes_typed; [|exact Hl]. eapply apply_changes_typed; [|exact Hc].
  exact (dt_state _ _ (ty_domains _ finalized_typed root_id root_domain eq_refl)).
Qed.

Definition left_over_domain : FinalizedDomain :=
  {| fd_config := fd_config root_domain; fd_header := fd_header root_domain; fd_block_hash := fd_block_hash root_domain;
     fd_state := left_over |}.

Definition left_over_chain : FinalizedChainState :=
  with_domains finalized [(root_id, left_over_domain)] (fs_descriptors finalized).

Lemma left_over_chain_typed : chain_typed left_over_chain.
Proof.
  pose proof finalized_typed as [? ? ? ? ? ? ? [? ?] Hd ?]. destruct (Hd root_id root_domain eq_refl) as [? ? ? ? _].
  split; try done. intros id fd Hb. apply bget_elem_of, list_elem_of_singleton in Hb as [= -> ->]. split; try done. exact left_over_typed.
Qed.

Lemma left_over_transfers : transfers left_over_chain = true.
Proof. by_evaluation. Qed.

(** The state reloaded without the code. *)
Definition cleaned : ExecutionState := Eval vm_compute in match reload left_over with Ok s => s | _ => left_over end.

Lemma left_over_reloads : reload left_over = Ok cleaned.
Proof. by_evaluation. Qed.

Lemma unreferenced_code_rejected_witness :
  ∃ bundle s, produce left_over_chain (gn_genesis_hash dev) (gn_validator_set dev) [] = Ok bundle ∧ is_complete s = true ∧
  ((∀ import, finish s ≠ Ok import) ∨ chunk_collision bundle s).
Proof.
  destruct (transfers_spec _ left_over_transfers) as (bundle & b & s0 & s & Hp & Hb & Hn & Hr & Hc). exists bundle, s.
  refine (conj Hp (conj Hc (unreferenced_code_rejected left_over_chain (gn_genesis_hash dev) (gn_validator_set dev) [] _ b _ _ _ _
    root_id left_over_domain cleaned left_over_chain_typed dev_genesis_hash dev_validators Hp Hb Hn Hr _ left_over_reloads _))); [by left|].
  intros E. by vm_compute in E.
Defined.
End TransferWitness.
