(* ===== verification/Peer.v ===== *)
(** Local policy about peers (src/crates/arbor-network/src/peer.rs) and the bounded
    mailbox of direct consensus messages (src/crates/arbor-network/src/consensus.rs).

    A peer is identified by a type with a total order, which the transport library
    defines; a score is an [i32].

    Main results: scores never leave their bounds, whatever is reported of a peer, and
    a mismatch of identity bans exactly the peers that had no credit
    ([mismatch_bans_iff]); the mailbox delivers what it accepted, in order, and never
    holds more than its capacity ([mailbox_fifo]). *)

From Stdlib Require Import Strings.Byte.
From S2P Require Import Prelude Bytes BTreeMap Protocol.

Local Open Scope Z_scope.

(** ** Scores *)

Definition BAN_THRESHOLD : Z := -100.
Definition THROTTLE_THRESHOLD : Z := -40.
Definition SCORE_LIMIT : Z := 200.

Definition PeerScore : Type := Z.

(** [i32::saturating_add] and [i32::saturating_sub]. *)
Definition clamp_i32 (z : Z) : Z := Z.max (-2 ^ 31) (Z.min z (2 ^ 31 - 1)).
Definition saturating_add_i32 (a b : Z) : Z := clamp_i32 (a + b).
Definition saturating_sub_i32 (a b : Z) : Z := clamp_i32 (a - b).

Definition reward_score (score : PeerScore) (amount : Z) : PeerScore :=
  Z.min (saturating_add_i32 score amount) SCORE_LIMIT.

Definition penalize_score (score : PeerScore) (amount : Z) : PeerScore :=
  Z.max (saturating_sub_i32 score amount) (- SCORE_LIMIT).

Inductive PeerDisposition :=
| Accepted
| Throttled
| Banned.

#[export] Instance PeerDisposition_eq_dec : EqDecision PeerDisposition.
Proof. solve_decision. Defined.

Definition score_disposition (score : PeerScore) : PeerDisposition :=
  if score <=? BAN_THRESHOLD then Banned
  else if score <=? THROTTLE_THRESHOLD then Throttled
  else Accepted.

(** ** The book *)

Section book.
Context {PeerId : Type} `{!TotalOrder PeerId}.

Definition PeerBook : Type := btree PeerId PeerScore.

Definition peer_score (book : PeerBook) (peer : PeerId) : PeerScore := default 0 (bget peer book).

(** [self.scores.entry(peer).or_default()], changed by [f]. *)
Definition change_score (book : PeerBook) (peer : PeerId) (f : PeerScore → PeerScore) : PeerBook :=
  binsert peer (f (peer_score book peer)) book.

Definition reward (book : PeerBook) (peer : PeerId) : PeerBook :=
  change_score book peer (λ s, reward_score s 2).

Definition timeout (book : PeerBook) (peer : PeerId) : PeerBook :=
  change_score book peer (λ s, penalize_score s 10).

Definition malformed (book : PeerBook) (peer : PeerId) : PeerBook :=
  change_score book peer (λ s, penalize_score s 25).

Definition identity_mismatch (book : PeerBook) (peer : PeerId) : PeerBook :=
  change_score book peer (λ s, penalize_score s (- BAN_THRESHOLD)).

Definition disposition (book : PeerBook) (peer : PeerId) : PeerDisposition :=
  score_disposition (peer_score book peer).

(** ** The consensus mailbox *)

Record ConsensusDirectMessage := {
  dm_peer : PeerId;
  dm_kind : Z;
  dm_payload : bytes;
}.

Inductive ConsensusMailboxError :=
| MailboxCapacity
| MailboxMessage
| MailboxFull
| MailboxClosed.

(** The bounded channel: what is queued, oldest first, and whether the receiver is
    still there. *)
Record Mailbox := {
  mb_capacity : Z;
  mb_queue : list ConsensusDirectMessage;
  mb_closed : bool;
}.

Definition consensus_direct_mailbox (capacity : Z) : outcome ConsensusMailboxError Mailbox :=
  if capacity =? 0 then Err MailboxCapacity
  else Ok {| mb_capacity := capacity; mb_queue := []; mb_closed := false |}.

Definition try_send (mailbox : Mailbox) (message : ConsensusDirectMessage)
    : outcome ConsensusMailboxError unit * Mailbox :=
  if (dm_kind message =? 0) || (MAX_CONSENSUS_MESSAGE_BYTES <? zlen (dm_payload message))
  then (Err MailboxMessage, mailbox)
  else if mb_closed mailbox then (Err MailboxClosed, mailbox)
  else if mb_capacity mailbox <=? zlen (mb_queue mailbox) then (Err MailboxFull, mailbox)
  else (Ok tt, {| mb_capacity := mb_capacity mailbox; mb_queue := mb_queue mailbox ++ [message];
                  mb_closed := mb_closed mailbox |}).

(** [recv] and [try_recv]: [None] when no message is queued. *)
Definition recv (mailbox : Mailbox) : option ConsensusDirectMessage * Mailbox :=
  match mb_queue mailbox with
  | [] => (None, mailbox)
  | message :: rest =>
      (Some message, {| mb_capacity := mb_capacity mailbox; mb_queue := rest; mb_closed := mb_closed mailbox |})
  end.

(** ** Policy *)

(** What can be reported of a peer. *)
Inductive report :=
| Completed
| TimedOut
| Malformed
| Mismatched.

Definition report_change (r : report) : Z :=
  match r with Completed => 2 | TimedOut => -10 | Malformed => -25 | Mismatched => -100 end.

Definition apply_report (book : PeerBook) (e : PeerId * report) : PeerBook :=
  match e.2 with
  | Completed => reward book e.1
  | TimedOut => timeout book e.1
  | Malformed => malformed book e.1
  | Mismatched => identity_mismatch book e.1
  end.

Definition book_ok (book : PeerBook) : Prop :=
  sorted book ∧ ∀ peer, - SCORE_LIMIT ≤ peer_score book peer ≤ SCORE_LIMIT.

Lemma peer_score_change book peer f q :
  peer_score (change_score book peer f) q = if teqb q peer then f (peer_score book peer) else peer_score book q.
Proof. unfold peer_score at 1, change_score. rewrite bget_binsert. by destruct (teqb q peer). Qed.

(** One report moves a score within bounds by its amount, cut at the bounds. *)
Lemma report_score book e q :
  book_ok book →
  peer_score (apply_report book e) q =
    if teqb q e.1 then Z.max (- SCORE_LIMIT) (Z.min SCORE_LIMIT (peer_score book q + report_change e.2)) else peer_score book q.
Proof.
  intros [_ Hb]. destruct e as [p r]. destruct r; cbn [apply_report fst snd report_change];
    (unfold reward, timeout, malformed, identity_mismatch; rewrite peer_score_change; destruct (teqb q p) eqn:E; [|done];
     apply teqb_eq in E as ->; specialize (Hb p);
     unfold reward_score, penalize_score, saturating_add_i32, saturating_sub_i32, clamp_i32, BAN_THRESHOLD, SCORE_LIMIT in *; lia).
Qed.

Lemma report_ok book e : book_ok book → book_ok (apply_report book e).
Proof.
  intros Hb. split.
  - destruct Hb as [Hs _]. destruct e as [p []]; by apply sorted_binsert.
  - intros q. rewrite report_score by done. destruct Hb as [_ Hb]. specialize (Hb q). unfold SCORE_LIMIT in *. destruct (teqb q e.1); lia.
Qed.

Lemma reports_ok book reports : book_ok book → book_ok (foldl apply_report book reports).
Proof. revert book. induction reports as [|e reports IH]; intros book Hb; [done|]. by apply IH, report_ok. Qed.

Lemma empty_book_ok : book_ok [].
Proof. split; [constructor|]. intros q. by vm_compute. Qed.

(** What reporting a mismatch of identity does. Whatever has been reported of peers,
    scores stay between -200 and 200; a mismatch subtracts 100 from the score, so it
    bans a peer if and only if the peer had no credit, and a peer with a score above 60
    is not even throttled. *)
Theorem mismatch_bans_iff reports peer :
  let book := foldl apply_report [] reports in
  (∀ q, - SCORE_LIMIT ≤ peer_score book q ≤ SCORE_LIMIT) ∧
  (disposition (identity_mismatch book peer) peer = Banned ↔ peer_score book peer ≤ 0) ∧
  (disposition (identity_mismatch book peer) peer = Accepted ↔ 60 < peer_score book peer).
Proof.
  cbn zeta. pose proof (reports_ok [] reports empty_book_ok) as Hok. revert Hok. generalize (foldl apply_report [] reports). intros book Hok.
  split; [apply Hok|]. pose proof (report_score book (peer, Mismatched) peer Hok) as Hs. cbn [fst apply_report snd report_change] in Hs.
  rewrite teqb_refl in Hs. unfold disposition. rewrite Hs. destruct Hok as [_ Hb]. specialize (Hb peer).
  unfold score_disposition, BAN_THRESHOLD, THROTTLE_THRESHOLD, SCORE_LIMIT in *.
  set (x := Z.max _ _). assert (x = Z.max (-200) (Z.min 200 (peer_score book peer + -100))) as Hx by done. clearbody x.
  destruct (Z.leb_spec x (-100)); [|destruct (Z.leb_spec x (-40))]; split; split; intros; first [done | lia | exfalso; lia].
Qed.

(** ** The mailbox *)

Inductive mailbox_op :=
| Send (message : ConsensusDirectMessage)
| Receive.

(** The mailbox with the messages it accepted and those it delivered. *)
Definition mailbox_run (st : Mailbox * list ConsensusDirectMessage * list ConsensusDirectMessage) (op : mailbox_op) :=
  let '(mailbox, accepted, delivered) := st in
  match op with
  | Send message =>
      match try_send mailbox message with
      | (Ok _, mailbox) => (mailbox, accepted ++ [message], delivered)
      | (_, mailbox) => (mailbox, accepted, delivered)
      end
  | Receive =>
      match recv mailbox with
      | (Some message, mailbox) => (mailbox, accepted, delivered ++ [message])
      | (None, mailbox) => (mailbox, accepted, delivered)
      end
  end.

Lemma mailbox_fifo capacity mailbox ops :
  0 ≤ capacity → consensus_direct_mailbox capacity = Ok mailbox →
  let '(final, accepted, delivered) := foldl mailbox_run (mailbox, [], []) ops in
  accepted = delivered ++ mb_queue final ∧ zlen (mb_queue final) ≤ capacity ∧
  Forall (λ m, dm_kind m ≠ 0 ∧ zlen (dm_payload m) ≤ MAX_CONSENSUS_MESSAGE_BYTES) accepted.
Proof.
  unfold consensus_direct_mailbox. intros H0. destruct (Z.eqb_spec capacity 0); [done|]. intros [= <-].
  set (st := (_, [], [])). set (P := λ st : Mailbox * list ConsensusDirectMessage * list ConsensusDirectMessage,
    st.1.2 = st.2 ++ mb_queue st.1.1 ∧ mb_capacity st.1.1 = capacity ∧ zlen (mb_queue st.1.1) ≤ capacity ∧
    Forall (λ m, dm_kind m ≠ 0 ∧ zlen (dm_payload m) ≤ MAX_CONSENSUS_MESSAGE_BYTES) st.1.2).
  assert (P st) as Hst by (split_and!; [done|done|done|constructor]). clearbody st.
  assert (∀ st op, P st → P (mailbox_run st op)) as Hstep.
  { clear st Hst. intros [[m acc] del] op (Ha & Hc & Hq & Hf). cbn [fst snd] in *. destruct op as [x|]; cbn [mailbox_run].
    - unfold try_send. destruct (_ || _) eqn:E; [by split_and!|]. destruct (mb_closed m); [by split_and!|].
      destruct (Z.leb_spec (mb_capacity m) (zlen (mb_queue m))); [by split_and!|]. apply orb_false_iff in E as [E1%Z.eqb_neq E2%Z.ltb_ge].
      split_and!; cbn [fst snd mb_queue mb_capacity]; [by rewrite Ha, <-app_assoc|done|rewrite zlen_app, zlen_cons, zlen_nil; lia|].
      apply Forall_app. split; [done|]. by constructor.
    - unfold recv. destruct (mb_queue m) as [|x rest] eqn:E; [split_and!; cbn [fst snd]; by rewrite ?E|].
      split_and!; cbn [fst snd mb_queue mb_capacity]; [by rewrite Ha, <-app_assoc|done|rewrite zlen_cons in Hq; lia|done]. }
  assert (P (foldl mailbox_run st ops)) as HP by (revert st Hst; induction ops; cbn; auto).
  destruct (foldl mailbox_run st ops) as [[m acc] del]. destruct HP as (? & ? & ? & ?). by split_and!.
Qed.
End book.

Arguments PeerBook : clear implicits.
Arguments ConsensusDirectMessage : clear implicits.
Arguments Mailbox : clear implicits.
