(* ===== verification/Gossip.v ===== *)
(** Gossip topics and the gossip codec (src/crates/arbor-network/src/service.rs, from
    [finalized_topic_name] to [decode_gossip]).

    Every error of the codec is a [NetworkError::Protocol]; it is modelled by its text.

    Main results: topics of different networks or domains never coincide
    ([topics_separate]); a message that is accepted is the one its sender encoded, and
    no other bytes are accepted for it ([gossip_canonical]). *)

From Stdlib Require Import Strings.Byte Strings.String Strings.Ascii.
From S2P Require Import Prelude Bytes BTreeMap Primitives Canonical Mempool ChainBlock Protocol.

Local Open Scope Z_scope.

Definition GOSSIP_VERSION : Z := 1.
Definition GOSSIP_TRANSACTION : Z := 1.
Definition GOSSIP_FINALIZED : Z := 2.

(** ** Topics *)

Definition HEX : list ascii := list_ascii_of_string "0123456789abcdef".

Definition hex_digit (value : Z) : ascii := default Ascii.zero (HEX !! Z.to_nat value).

Definition hex_byte (b : byte) : string :=
  String (hex_digit (Z.shiftr (byte_val b) 4)) (String (hex_digit (Z.land (byte_val b) 15)) EmptyString).

Fixpoint hex_hash (value : bytes) : string :=
  match value with
  | [] => EmptyString
  | b :: rest => (hex_byte b ++ hex_hash rest)%string
  end.

Definition finalized_topic_name (handshake : Handshake) : string :=
  ("arbor/" ++ hex_hash (hs_network_id handshake) ++ "/finalized/1")%string.

Definition transaction_topic_name (handshake : Handshake) (domain_id : bytes) : string :=
  ("arbor/" ++ hex_hash (hs_network_id handshake) ++ "/tx/" ++ hex_hash domain_id ++ "/1")%string.

(** ** The codec *)

Definition encode_gossip (message : GossipMessage) : outcome string bytes :=
  run? validate_gossip message in
  match message with
  | GossipTransaction domain_id envelope =>
      let? length := ok_or (try_from 32 (zlen envelope)) "transaction length overflow" in
      let output := [byte_of GOSSIP_VERSION; byte_of GOSSIP_TRANSACTION] in
      let output := output ++ domain_id in
      let output := output ++ to_be_bytes 4 length in
      Ok (output ++ envelope)
  | GossipFinalized announcement =>
      let output := [byte_of GOSSIP_VERSION; byte_of GOSSIP_FINALIZED] in
      let output := output ++ to_be_bytes 8 (an_height announcement) in
      let output := output ++ an_consensus_hash announcement in
      Ok (output ++ an_domain_heads_root announcement)
  end.

(** [input[lo..hi]]. *)
Definition slice (input : bytes) (lo hi : Z) : outcome string bytes :=
  expect (get_range input lo hi) "range end index out of range for slice".

Definition decode_gossip (input : bytes) : outcome string GossipMessage :=
  let? prefix := ok_or (get_range input 0 2) "truncated gossip" in
  match prefix with
  | [version; kind] =>
      if negb (byte_val version =? GOSSIP_VERSION) then Err "unsupported gossip version"
      else if byte_val kind =? GOSSIP_TRANSACTION then
        if zlen input <? 38 then Err "truncated transaction gossip"
        else
          let? domain_id := slice input 2 34 in
          let? length := slice input 34 38 in
          let length := from_be_bytes length in
          if negb (zlen input =? saturating_add 64 38 length) then Err "transaction gossip length mismatch"
          else
            let? envelope := slice input 38 (zlen input) in
            Ok (GossipTransaction domain_id envelope)
      else if byte_val kind =? GOSSIP_FINALIZED then
        if negb (zlen input =? 74) then Err "finalized gossip length mismatch"
        else
          let? height := slice input 2 10 in
          let? consensus_hash := slice input 10 42 in
          let? domain_heads_root := slice input 42 74 in
          Ok (GossipFinalized
                {| an_height := from_be_bytes height; an_consensus_hash := consensus_hash;
                   an_domain_heads_root := domain_heads_root |})
      else Err "unknown gossip message"
  | _ => Panic "index out of bounds"
  end.

(** The check of [handle_gossip]: decoded and validated. *)
Definition accept_gossip (input : bytes) : outcome string GossipMessage :=
  let? message := decode_gossip input in
  run? validate_gossip message in
  Ok message.

Definition wf_gossip (m : GossipMessage) : Prop :=
  match m with
  | GossipTransaction domain_id _ => is_b256 domain_id
  | GossipFinalized a => u64 (an_height a) ∧ is_b256 (an_consensus_hash a) ∧ is_b256 (an_domain_heads_root a)
  end.

(** ** Topics are separate *)

Lemma string_app_inj_length (a b c d : string) :
  String.length a = String.length b → (a ++ c)%string = (b ++ d)%string → a = b ∧ c = d.
Proof.
  revert b. induction a as [|x a IH]; intros [|y b] Hl He; try discriminate Hl; [done|].
  cbn in Hl, He. injection He as -> He. injection Hl as Hl. by destruct (IH b Hl He) as [-> ->].
Qed.

Lemma hex_hash_length v : String.length (hex_hash v) = (2 * List.length v)%nat.
Proof.
  induction v as [|b v IH]; [done|]. change (S (S (String.length (hex_hash v))) = (2 * S (List.length v))%nat). lia.
Qed.

Lemma hex_digit_inj a b : 0 ≤ a < 16 → 0 ≤ b < 16 → hex_digit a = hex_digit b → a = b.
Proof.
  intros Ha Hb E. unfold hex_digit in E.
  assert (NoDup HEX) as Hn by by_evaluation. assert (List.length HEX = 16%nat) as Hl by reflexivity.
  destruct (lookup_lt_is_Some_2 HEX (Z.to_nat a)) as [x Hx]; [lia|].
  destruct (lookup_lt_is_Some_2 HEX (Z.to_nat b)) as [y Hy]; [lia|].
  rewrite Hx, Hy in E. cbn in E. subst y. assert (Z.to_nat a = Z.to_nat b); [by eapply NoDup_lookup|lia].
Qed.

Lemma byte_nibbles b :
  byte_val b = 16 * Z.shiftr (byte_val b) 4 + Z.land (byte_val b) 15 ∧
  0 ≤ Z.shiftr (byte_val b) 4 < 16 ∧ 0 ≤ Z.land (byte_val b) 15 < 16.
Proof.
  pose proof (byte_val_range b). rewrite Z.shiftr_div_pow2 by lia. change 15 with (Z.ones 4). rewrite Z.land_ones by lia.
  pose proof (Z.div_mod (byte_val b) (2 ^ 4) ltac:(lia)). pose proof (Z.mod_pos_bound (byte_val b) (2 ^ 4) ltac:(lia)).
  split; [lia|]. split; [split; [apply Z.div_pos; lia|apply Z.div_lt_upper_bound; lia]|lia].
Qed.

Lemma hex_byte_inj a b : hex_byte a = hex_byte b → a = b.
Proof.
  unfold hex_byte. destruct (byte_nibbles a) as (Ea & Ha & Ha'), (byte_nibbles b) as (Eb & Hb & Hb'). intros E.
  injection E as E1 E2. apply hex_digit_inj in E1, E2; [|done..]. apply byte_val_inj. lia.
Qed.

Lemma hex_hash_inj v w : List.length v = List.length w → hex_hash v = hex_hash w → v = w.
Proof.
  revert w. induction v as [|a v IH]; intros [|b w] Hl E; try discriminate Hl; [done|]. cbn [hex_hash] in E.
  apply string_app_inj_length in E as [E1%hex_byte_inj E2]; [|done]. subst. f_equal. apply IH; [by injection Hl|done].
Qed.

(** The topic after the network's part. *)
Lemma topic_prefix h h' x y :
  is_b256 (hs_network_id h) → is_b256 (hs_network_id h') →
  ("arbor/" ++ hex_hash (hs_network_id h) ++ x)%string = ("arbor/" ++ hex_hash (hs_network_id h') ++ y)%string →
  hs_network_id h = hs_network_id h' ∧ x = y.
Proof.
  intros Hh Hh' E. apply string_app_inj_length in E as [_ E]; [|done].
  apply string_app_inj_length in E as [E1%hex_hash_inj E2]; [done| |]; rewrite ?hex_hash_length; congruence.
Qed.

(** Topics of different networks or domains are different, and no domain's topic is the
    topic of finalized announcements. *)
Lemma topics_separate h h' d d' :
  is_b256 (hs_network_id h) → is_b256 (hs_network_id h') → is_b256 d → is_b256 d' →
  (transaction_topic_name h d = transaction_topic_name h' d' → hs_network_id h = hs_network_id h' ∧ d = d') ∧
  (finalized_topic_name h = finalized_topic_name h' → hs_network_id h = hs_network_id h') ∧
  transaction_topic_name h d ≠ finalized_topic_name h'.
Proof.
  intros Hh Hh' Hd Hd'. split_and!.
  - intros [-> E]%topic_prefix; [|done..]. split; [done|]. apply string_app_inj_length in E as [_ E]; [|done].
    apply string_app_inj_length in E as [E%hex_hash_inj _]; [done| |]; rewrite ?hex_hash_length; congruence.
  - by intros [? _]%topic_prefix.
  - intros [_ E]%topic_prefix; done.
Qed.

(** ** The codec is canonical *)

Lemma slice_Ok input lo hi b : slice input lo hi = Ok b ↔ get_range input lo hi = Some b.
Proof. unfold slice. destruct (get_range input lo hi); cbn; naive_solver. Qed.

(** The bytes of a message. *)
Definition gossip_bytes (m : GossipMessage) (b : bytes) : Prop :=
  match m with
  | GossipTransaction domain_id envelope =>
      u32 (zlen envelope) ∧
      b = [byte_of GOSSIP_VERSION; byte_of GOSSIP_TRANSACTION] ++ domain_id ++ to_be_bytes 4 (zlen envelope) ++ envelope
  | GossipFinalized a =>
      b = [byte_of GOSSIP_VERSION; byte_of GOSSIP_FINALIZED] ++ to_be_bytes 8 (an_height a) ++
          an_consensus_hash a ++ an_domain_heads_root a
  end.

Lemma encode_gossip_Ok m b : encode_gossip m = Ok b ↔ validate_gossip m = Ok tt ∧ gossip_bytes m b.
Proof.
  unfold encode_gossip. rewrite obind_Ok. destruct m as [d envelope|a]; cbn [gossip_bytes].
  - split.
    + intros ([] & Hv & He). apply obind_Ok in He as (n & Hn & He). apply ok_or_Ok, try_from_Some in Hn as [-> Hn].
      apply Ok_inj in He as <-. by rewrite <-!app_assoc.
    + intros (Hv & Hu & ->). exists tt. split; [done|]. rewrite (proj2 (try_from_Some _ _ _)) by done. cbn [ok_or obind]. by rewrite <-!app_assoc.
  - split.
    + intros ([] & Hv & He). apply Ok_inj in He as <-. by rewrite <-!app_assoc.
    + intros (Hv & ->). exists tt. split; [done|]. by rewrite <-!app_assoc.
Qed.

Lemma decode_transaction d envelope b :
  is_b256 d → gossip_bytes (GossipTransaction d envelope) b → decode_gossip b = Ok (GossipTransaction d envelope).
Proof.
  intros Hd [Hu Eb]. pose proof (zlen_length _ _ Hd) as Ld. assert (zlen b = 38 + zlen envelope) as Lb.
  { rewrite Eb, !zlen_app, !zlen_to_be_bytes, Ld, !zlen_cons, zlen_nil. lia. }
  pose proof (zlen_nonneg envelope). unfold decode_gossip, slice.
  assert (get_range b 0 2 = Some [byte_of GOSSIP_VERSION; byte_of GOSSIP_TRANSACTION]) as ->.
  { rewrite Eb. by apply (get_range_app [] [_; _]). }
  cbn [ok_or obind]. change (byte_val (byte_of GOSSIP_VERSION) =? GOSSIP_VERSION) with true.
  change (byte_val (byte_of GOSSIP_TRANSACTION) =? GOSSIP_TRANSACTION) with true. cbn [negb].
  rewrite (proj2 (Z.ltb_ge _ _)) by lia.
  assert (get_range b 2 34 = Some d) as -> by (rewrite Eb; by apply get_range_app; [|rewrite Ld]).
  assert (get_range b 34 38 = Some (to_be_bytes 4 (zlen envelope))) as ->.
  { rewrite Eb, app_assoc. apply get_range_app; rewrite ?zlen_app, ?zlen_to_be_bytes, ?Ld; done. }
  cbn [expect obind]. rewrite from_to_be_bytes by (split; [lia|unfold fits in Hu; change (8 * Z.of_nat 4) with 32; lia]).
  assert (saturating_add 64 38 (zlen envelope) = 38 + zlen envelope) as ->.
  { unfold saturating_add, umax, fits in *. lia. }
  rewrite Lb, Z.eqb_refl. cbn [negb].
  assert (get_range b 38 (38 + zlen envelope) = Some envelope) as ->; [|done].
  rewrite Eb, !app_assoc. rewrite <-(app_nil_r envelope) at 2. apply get_range_app; [|lia].
  rewrite !zlen_app, zlen_to_be_bytes, Ld. reflexivity.
Qed.

Lemma decode_finalized a b :
  wf_gossip (GossipFinalized a) → gossip_bytes (GossipFinalized a) b → decode_gossip b = Ok (GossipFinalized a).
Proof.
  intros (Hh & Hc & Hr) Eb. cbn [gossip_bytes] in Eb. pose proof (zlen_length _ _ Hc) as Lc. pose proof (zlen_length _ _ Hr) as Lr.
  assert (zlen b = 74) as Lb by (rewrite Eb, !zlen_app, zlen_to_be_bytes, Lc, Lr; reflexivity).
  unfold decode_gossip, slice.
  assert (get_range b 0 2 = Some [byte_of GOSSIP_VERSION; byte_of GOSSIP_FINALIZED]) as ->.
  { rewrite Eb. by apply (get_range_app [] [_; _]). }
  cbn [ok_or obind]. change (byte_val (byte_of GOSSIP_VERSION) =? GOSSIP_VERSION) with true.
  change (byte_val (byte_of GOSSIP_FINALIZED) =? GOSSIP_TRANSACTION) with false.
  change (byte_val (byte_of GOSSIP_FINALIZED) =? GOSSIP_FINALIZED) with true. cbn [negb]. rewrite Lb. cbn [Z.eqb negb].
  assert (get_range b 2 10 = Some (to_be_bytes 8 (an_height a))) as -> by (rewrite Eb; by apply get_range_app).
  assert (get_range b 10 42 = Some (an_consensus_hash a)) as ->.
  { rewrite Eb, app_assoc. apply get_range_app; rewrite ?zlen_app, ?zlen_to_be_bytes, ?Lc; done. }
  assert (get_range b 42 74 = Some (an_domain_heads_root a)) as ->.
  { rewrite Eb, !app_assoc. rewrite <-(app_nil_r (an_domain_heads_root a)) at 1.
    apply get_range_app; rewrite ?zlen_app, ?zlen_to_be_bytes, ?Lc, ?Lr; done. }
  cbn [expect obind]. rewrite from_to_be_bytes by exact Hh. by destruct a.
Qed.

(** Whatever decodes is the encoding of what it decodes to. *)
Lemma decode_gossip_Ok b m :
  decode_gossip b = Ok m → wf_gossip m ∧ gossip_bytes m b.
Proof.
  unfold decode_gossip. intros Hd. apply obind_Ok in Hd as (prefix & Hp & Hd). apply ok_or_Ok in Hp.
  pose proof (get_range_length _ _ _ _ Hp) as Lp. destruct prefix as [|version [|kind [|]]]; try done.
  destruct (negb (byte_val version =? GOSSIP_VERSION)) eqn:Hv in Hd; [done|]. bool_prop.
  assert (version = byte_of GOSSIP_VERSION) as -> by (by rewrite <-Hv, byte_of_val). clear Lp Hv.
  destruct (Z.eqb_spec (byte_val kind) GOSSIP_TRANSACTION) as [Ek|_]; [|destruct (Z.eqb_spec (byte_val kind) GOSSIP_FINALIZED) as [Ek|]; [|done]].
  - destruct (Z.ltb_spec (zlen b) 38) as [|Hl]; [done|]. apply obind_Ok in Hd as (d & Hd'%slice_Ok & Hd).
    apply obind_Ok in Hd as (n & Hn%slice_Ok & Hd). destruct (negb _) eqn:El in Hd; [done|]. apply negb_false_iff, Z.eqb_eq in El.
    apply obind_Ok in Hd as (envelope & He%slice_Ok & Hd). injection Hd as <-.
    pose proof (get_range_length _ _ _ _ Hd') as Ld. pose proof (get_range_length _ _ _ _ Hn) as Ln. pose proof (get_range_length _ _ _ _ He) as Le.
    assert (length n = 4%nat) as Ln' by (unfold zlen in Ln; lia). pose proof (from_be_bytes_fits _ _ Ln') as Hf.
    assert (zlen envelope = from_be_bytes n) as En by (unfold saturating_add, umax, fits in *; lia).
    split; [unfold zlen in Ld; cbn; unfold is_b256; lia|]. cbn [gossip_bytes]. rewrite En. split; [exact Hf|].
    rewrite (to_from_be_bytes _ _ Ln'), <-Ek, byte_of_val. symmetry.
    apply get_range_all, (get_range_join _ _ 2); [done|]. apply (get_range_join _ _ 34); [done|]. by apply (get_range_join _ _ 38).
  - destruct (negb _) eqn:El in Hd; [done|]. apply negb_false_iff, Z.eqb_eq in El.
    apply obind_Ok in Hd as (h & Hh%slice_Ok & Hd). apply obind_Ok in Hd as (c & Hc%slice_Ok & Hd).
    apply obind_Ok in Hd as (r & Hr%slice_Ok & Hd). injection Hd as <-.
    pose proof (get_range_length _ _ _ _ Hh) as Lh. pose proof (get_range_length _ _ _ _ Hc) as Lc. pose proof (get_range_length _ _ _ _ Hr) as Lr.
    assert (length h = 8%nat) as Lh' by (unfold zlen in Lh; lia). cbn [wf_gossip gossip_bytes an_height an_consensus_hash an_domain_heads_root].
    split; [split_and!; [exact (from_be_bytes_fits _ _ Lh')|unfold is_b256; unfold zlen in *; lia..]|].
    rewrite (to_from_be_bytes _ _ Lh'), <-Ek, byte_of_val. symmetry. apply get_range_all. rewrite El.
    apply (get_range_join _ _ 2); [done|]. apply (get_range_join _ _ 10); [done|]. by apply (get_range_join _ _ 42).
Qed.

Lemma slice_no_panic {A : Type} input lo hi (k : bytes → outcome string A) m :
  0 ≤ lo ≤ hi → hi ≤ zlen input → (∀ b, k b ≠ Panic m) → obind (slice input lo hi) k ≠ Panic m.
Proof.
  intros Hl Hh Hk. unfold slice. rewrite (proj2 (get_range_Some input lo hi _)) by (split_and!; [lia..|reflexivity]). apply Hk.
Qed.

Lemma decode_gossip_no_panic b m : decode_gossip b ≠ Panic m.
Proof.
  unfold decode_gossip. apply obind_no_panic; [by destruct (get_range b 0 2)|]. intros prefix Hp. apply ok_or_Ok in Hp.
  pose proof (get_range_length _ _ _ _ Hp) as Lp. destruct prefix as [|version [|kind [|]]]; try done.
  2: { cbn in Lp. unfold zlen in Lp. cbn in Lp. lia. }
  destruct (negb _); [done|]. destruct (byte_val kind =? GOSSIP_TRANSACTION).
  - destruct (Z.ltb_spec (zlen b) 38); [done|]. do 2 (apply slice_no_panic; [lia|lia|]; intros ?). destruct (negb _); [done|].
    by apply slice_no_panic; [lia|lia|].
  - destruct (byte_val kind =? GOSSIP_FINALIZED); [|done]. destruct (Z.eqb_spec (zlen b) 74) as [E|]; [|done]. cbn [negb].
    do 3 (apply slice_no_panic; [lia|lia|]; intros ?). done.
Qed.

Lemma gossip_codec : canonical wf_gossip encode_gossip accept_gossip.
Proof.
  split_and!.
  - intros m b Hw [Hv Hb]%encode_gossip_Ok. unfold accept_gossip.
    assert (decode_gossip b = Ok m) as -> by (destruct m; [by apply decode_transaction|by apply decode_finalized]).
    cbn [obind]. by rewrite Hv.
  - intros m b Ha. apply obind_Ok in Ha as (m' & Hd & Ha). apply obind_Ok in Ha as ([] & Hv & [= ->]).
    apply decode_gossip_Ok in Hd as [Hw Hb]. split; [done|]. by apply encode_gossip_Ok.
  - intros m x. unfold encode_gossip. apply obind_no_panic; [destruct m; cbn; by case_match|]. intros [] _. destruct m; [|done].
    apply obind_no_panic; [by destruct (try_from _ _)|done].
  - intros b x. unfold accept_gossip. apply obind_no_panic; [apply decode_gossip_no_panic|]. intros m _.
    apply obind_no_panic; [destruct m; cbn; by case_match|done].
Qed.

(** The gossip codec is exact: a message that passes its checks is accepted from its
    encoding, whatever bytes are accepted are the encoding of the message they are
    accepted as, and no bytes a peer gossips make the decoder panic. *)
Theorem gossip_canonical : canonical wf_gossip encode_gossip accept_gossip.
Proof. exact gossip_codec. Qed.
