(* ===== verification/Service.v ===== *)
(** The network service (src/crates/arbor-network/src/service.rs) and its local
    discovery (src/crates/arbor-network/src/mdns.rs).

    The transport library (libp2p) is the class [Libp2p]: its swarm, the identifiers it
    hands out and the calls the service makes on it. The service is a record and every
    handler a function from the event the swarm delivers to the event the service emits
    and the service it leaves. The multicast DNS library is the class [MdnsSd]; the
    events it has queued are a list.

    Topics are their names. The text of an error that another library prints is kept as
    the value it is printed from. *)

From Stdlib Require Import Strings.Byte Strings.String.
From S2P Require Import Prelude Bytes BTreeMap Primitives Protocol Peer Gossip.

Local Open Scope Z_scope.

(** ** The libraries *)

Inductive Protocol :=
| Ip4 (ip : Z)
| Tcp (port : Z)
| P2p
| OtherProtocol.

Class Libp2p := {
  PeerId : Type;
  peer_order :: TotalOrder PeerId;
  peer_to_string : PeerId → string;
  peer_from_str : string → option PeerId;
  Multiaddr : Type;
  multiaddr_iter : Multiaddr → list Protocol;
  multiaddr_from_str : string → option Multiaddr;
  OutboundRequestId : Type;
  outbound_order :: TotalOrder OutboundRequestId;
  ResponseChannel : Type;
  Swarm : Type;
  send_request : Swarm → PeerId → RequestEnvelope → OutboundRequestId * Swarm;
  send_response : Swarm → ResponseChannel → ResponseEnvelope → bool * Swarm;
  disconnect_peer_id : Swarm → PeerId → Swarm;
  subscribe : Swarm → string → outcome string unit * Swarm;
  publish : Swarm → string → bytes → outcome string unit * Swarm;
  add_address : Swarm → PeerId → Multiaddr → Swarm;
  dial_peer : Swarm → PeerId → Multiaddr → outcome string unit * Swarm;
  bootstrap_kademlia : Swarm → outcome string unit * Swarm;
}.

Class MdnsSd `{Libp2p} := {
  ServiceDaemon : Type;
  ServiceInfo : Type;
  service_info : string → string → string → Z → Z → list (string * string) → outcome string ServiceInfo;
  register_service : ServiceDaemon → ServiceInfo → outcome string unit;
  get_property_val_str : ServiceInfo → string → option string;
  get_addresses_v4 : ServiceInfo → list string;
  port_text : ServiceInfo → string;
}.

(** ** Discovery *)

Section discovery.
Context `{Libp2p, !MdnsSd}.

Definition PEER_PROPERTY : string := "peer".
Definition NETWORK_PROPERTY : string := "network".

Inductive ServiceEvent :=
| ServiceResolved (service : ServiceInfo)
| OtherServiceEvent.

Record MdnsDiscovery := {
  md_daemon : ServiceDaemon;
  md_receiver : list ServiceEvent;
  md_service_type : string;
  md_network : string;
  md_peer : PeerId;
  md_registered : bool;
}.

(** [MdnsDiscovery::new], the daemon started and browsing with the service type. *)
Definition new_discovery (start : string → outcome string ServiceDaemon) (peer : PeerId) (handshake : Handshake)
    : outcome string MdnsDiscovery :=
  let network := hex_hash (hs_network_id handshake) in
  let service_type := ("_arbor-" ++ substring 0 8 network ++ "._tcp.local.")%string in
  let? daemon := start service_type in
  Ok {| md_daemon := daemon; md_receiver := []; md_service_type := service_type; md_network := network;
        md_peer := peer; md_registered := false |}.

Definition ip4_tcp (address : Multiaddr) : option (Z * Z) :=
  match multiaddr_iter address with
  | Ip4 ip :: Tcp port :: _ => Some (ip, port)
  | _ => None
  end.

Definition register (m : MdnsDiscovery) (address : Multiaddr) : outcome string unit * MdnsDiscovery :=
  if md_registered m then (Ok tt, m)
  else
    match ip4_tcp address with
    | None => (Ok tt, m)
    | Some (ip, port) =>
        let peer := peer_to_string (md_peer m) in
        let hostname := (peer ++ ".local.")%string in
        let properties := [(PEER_PROPERTY, peer); (NETWORK_PROPERTY, md_network m)] in
        match obind (service_info (md_service_type m) peer hostname ip port properties)
                (register_service (md_daemon m)) with
        | Ok _ =>
            (Ok tt, {| md_daemon := md_daemon m; md_receiver := md_receiver m; md_service_type := md_service_type m;
                       md_network := md_network m; md_peer := md_peer m; md_registered := true |})
        | r => (r, m)
        end
    end.

(** The loop of [try_next] over the events that are queued. *)
Fixpoint next_resolved (network : string) (self : PeerId) (events : list ServiceEvent)
    : option (PeerId * Multiaddr) * list ServiceEvent :=
  match events with
  | [] => (None, [])
  | OtherServiceEvent :: rest => next_resolved network self rest
  | ServiceResolved service :: rest =>
      if negb (bool_decide (get_property_val_str service NETWORK_PROPERTY = Some network))
      then next_resolved network self rest
      else
        match (get_property_val_str service PEER_PROPERTY ≫= peer_from_str) with
        | None => (None, rest)
        | Some peer =>
            if teqb peer self then next_resolved network self rest
            else
              match head (get_addresses_v4 service) with
              | None => (None, rest)
              | Some ip =>
                  match multiaddr_from_str ("/ip4/" ++ ip ++ "/tcp/" ++ port_text service)%string with
                  | None => (None, rest)
                  | Some address => (Some (peer, address), rest)
                  end
              end
        end
  end.

Definition try_next (m : MdnsDiscovery) : option (PeerId * Multiaddr) * MdnsDiscovery :=
  let '(found, rest) := next_resolved (md_network m) (md_peer m) (md_receiver m) in
  (found, {| md_daemon := md_daemon m; md_receiver := rest; md_service_type := md_service_type m;
             md_network := md_network m; md_peer := md_peer m; md_registered := md_registered m |}).
End discovery.

(** ** The service *)

Section service.
Context `{Libp2p, !MdnsSd}.

Inductive NetworkError :=
| ConfigurationError (text : string)
| ListenError (text : string)
| DialError (text : string)
| GossipError (text : string)
| HandshakeFailure (e : HandshakeError)
| ProtocolError (text : string)
| UnauthenticatedPeer (peer : PeerId)
| PeerPolicy (peer : PeerId)
| UnsupportedCapability (peer : PeerId) (capability : Capability)
| DiscoveryError (text : string)
| ResponseChannelClosed.

Record NetworkMetrics := {
  mt_connected_peers : Z;
  mt_authenticated_peers : Z;
  mt_inbound_requests : Z;
  mt_inbound_responses : Z;
  mt_gossip_messages : Z;
  mt_rejected_messages : Z;
  mt_request_failures : Z;
  mt_discovered_peers : Z;
  mt_discovery_failures : Z;
}.

Definition default_metrics : NetworkMetrics :=
  {| mt_connected_peers := 0; mt_authenticated_peers := 0; mt_inbound_requests := 0; mt_inbound_responses := 0;
     mt_gossip_messages := 0; mt_rejected_messages := 0; mt_request_failures := 0; mt_discovered_peers := 0;
     mt_discovery_failures := 0 |}.

Record NetworkService := {
  nw_swarm : Swarm;
  nw_handshake : Handshake;
  nw_finalized_topic : string;
  nw_transaction_topics : btree bytes string;
  nw_authenticated : btree PeerId Handshake;
  nw_connected : btree PeerId unit;
  nw_pending : btree OutboundRequestId Z;
  nw_next_request_id : Z;
  nw_peer_book : PeerBook PeerId;
  nw_metrics : NetworkMetrics;
  nw_mdns : option MdnsDiscovery;
}.

Record InboundRequest := {
  ib_peer : PeerId;
  ib_request_id : Z;
  ib_request : DirectRequest;
  ib_channel : ResponseChannel;
}.

(** Why a peer was rejected. *)
Inductive rejection :=
| EnvelopeRejected (e : EnvelopeError)
| ResponseRejected (text : string)
| HandshakeRejected (e : HandshakeError).

Inductive NetworkEvent :=
| Listening (address : Multiaddr)
| PeerDiscovered (peer : PeerId) (address : Multiaddr)
| PeerDisconnected (peer : PeerId)
| PeerAuthenticated (peer : PeerId) (handshake : Handshake)
| PeerRejected (peer : PeerId) (reason : rejection)
| GossipReceived (peer : PeerId) (message : GossipMessage)
| RequestReceived (inbound : InboundRequest)
| ResponseReceived (peer : PeerId) (request_id : Z) (response : DirectResponse)
| RequestFailedEvent (peer : PeerId) (request_id : option Z) (reason : string).

(** What the swarm delivers: the events the service tells apart. *)
Inductive SwarmEvent :=
| NewListenAddr (address : Multiaddr)
| ConnectionEstablished (peer : PeerId)
| ConnectionClosed (peer : PeerId) (num_established : Z)
| DirectRequestMessage (peer : PeerId) (request : RequestEnvelope) (channel : ResponseChannel)
| DirectResponseMessage (peer : PeerId) (request_id : OutboundRequestId) (response : ResponseEnvelope)
| OutboundFailure (peer : PeerId) (request_id : OutboundRequestId) (error : string)
| InboundFailure (peer : PeerId)
| ResponseSent (peer : PeerId)
| GossipsubMessage (propagation_source : PeerId) (data : bytes)
| IdentifyReceived (peer : PeerId) (listen_addrs : list Multiaddr)
| PingResult (peer : PeerId) (succeeded : bool)
| OutgoingConnectionError (peer : option PeerId) (error : string)
| OtherSwarmEvent.

(** *** Updates *)

Definition with_swarm (s : NetworkService) (swarm : Swarm) : NetworkService :=
  {| nw_swarm := swarm; nw_handshake := nw_handshake s; nw_finalized_topic := nw_finalized_topic s;
     nw_transaction_topics := nw_transaction_topics s; nw_authenticated := nw_authenticated s;
     nw_connected := nw_connected s; nw_pending := nw_pending s; nw_next_request_id := nw_next_request_id s;
     nw_peer_book := nw_peer_book s; nw_metrics := nw_metrics s; nw_mdns := nw_mdns s |}.

Definition with_book (s : NetworkService) (book : PeerBook PeerId) : NetworkService :=
  {| nw_swarm := nw_swarm s; nw_handshake := nw_handshake s; nw_finalized_topic := nw_finalized_topic s;
     nw_transaction_topics := nw_transaction_topics s; nw_authenticated := nw_authenticated s;
     nw_connected := nw_connected s; nw_pending := nw_pending s; nw_next_request_id := nw_next_request_id s;
     nw_peer_book := book; nw_metrics := nw_metrics s; nw_mdns := nw_mdns s |}.

Definition with_metrics (s : NetworkService) (metrics : NetworkMetrics) : NetworkService :=
  {| nw_swarm := nw_swarm s; nw_handshake := nw_handshake s; nw_finalized_topic := nw_finalized_topic s;
     nw_transaction_topics := nw_transaction_topics s; nw_authenticated := nw_authenticated s;
     nw_connected := nw_connected s; nw_pending := nw_pending s; nw_next_request_id := nw_next_request_id s;
     nw_peer_book := nw_peer_book s; nw_metrics := metrics; nw_mdns := nw_mdns s |}.

Definition with_pending (s : NetworkService) (pending : btree OutboundRequestId Z) (next_request_id : Z) : NetworkService :=
  {| nw_swarm := nw_swarm s; nw_handshake := nw_handshake s; nw_finalized_topic := nw_finalized_topic s;
     nw_transaction_topics := nw_transaction_topics s; nw_authenticated := nw_authenticated s;
     nw_connected := nw_connected s; nw_pending := pending; nw_next_request_id := next_request_id;
     nw_peer_book := nw_peer_book s; nw_metrics := nw_metrics s; nw_mdns := nw_mdns s |}.

Definition with_mdns (s : NetworkService) (mdns : option MdnsDiscovery) : NetworkService :=
  {| nw_swarm := nw_swarm s; nw_handshake := nw_handshake s; nw_finalized_topic := nw_finalized_topic s;
     nw_transaction_topics := nw_transaction_topics s; nw_authenticated := nw_authenticated s;
     nw_connected := nw_connected s; nw_pending := nw_pending s; nw_next_request_id := nw_next_request_id s;
     nw_peer_book := nw_peer_book s; nw_metrics := nw_metrics s; nw_mdns := mdns |}.

(** The connected and the authenticated peers, each with the gauge that counts it. *)
Definition with_connected (s : NetworkService) (connected : btree PeerId unit) : NetworkService :=
  let m := nw_metrics s in
  {| nw_swarm := nw_swarm s; nw_handshake := nw_handshake s; nw_finalized_topic := nw_finalized_topic s;
     nw_transaction_topics := nw_transaction_topics s; nw_authenticated := nw_authenticated s;
     nw_connected := connected; nw_pending := nw_pending s; nw_next_request_id := nw_next_request_id s;
     nw_peer_book := nw_peer_book s;
     nw_metrics :=
       {| mt_connected_peers := zlen connected;
          mt_authenticated_peers := mt_authenticated_peers m;
          mt_inbound_requests := mt_inbound_requests m; mt_inbound_responses := mt_inbound_responses m;
          mt_gossip_messages := mt_gossip_messages m; mt_rejected_messages := mt_rejected_messages m;
          mt_request_failures := mt_request_failures m; mt_discovered_peers := mt_discovered_peers m;
          mt_discovery_failures := mt_discovery_failures m |};
     nw_mdns := nw_mdns s |}.

Definition with_authenticated (s : NetworkService) (authenticated : btree PeerId Handshake) : NetworkService :=
  let m := nw_metrics s in
  {| nw_swarm := nw_swarm s; nw_handshake := nw_handshake s; nw_finalized_topic := nw_finalized_topic s;
     nw_transaction_topics := nw_transaction_topics s; nw_authenticated := authenticated;
     nw_connected := nw_connected s; nw_pending := nw_pending s; nw_next_request_id := nw_next_request_id s;
     nw_peer_book := nw_peer_book s;
     nw_metrics :=
       {| mt_connected_peers := mt_connected_peers m;
          mt_authenticated_peers := zlen authenticated;
          mt_inbound_requests := mt_inbound_requests m; mt_inbound_responses := mt_inbound_responses m;
          mt_gossip_messages := mt_gossip_messages m; mt_rejected_messages := mt_rejected_messages m;
          mt_request_failures := mt_request_failures m; mt_discovered_peers := mt_discovered_peers m;
          mt_discovery_failures := mt_discovery_failures m |};
     nw_mdns := nw_mdns s |}.

(** The counters, each incremented with [saturating_add]. *)
Inductive counter :=
| InboundRequests
| InboundResponses
| GossipMessages
| RejectedMessages
| RequestFailures
| DiscoveredPeers
| DiscoveryFailures.

Definition bump (m : NetworkMetrics) (c : counter) : NetworkMetrics :=
  let add v (now : bool) := if now then saturating_add 64 v 1 else v in
  {| mt_connected_peers := mt_connected_peers m; mt_authenticated_peers := mt_authenticated_peers m;
     mt_inbound_requests := add (mt_inbound_requests m) (match c with InboundRequests => true | _ => false end);
     mt_inbound_responses := add (mt_inbound_responses m) (match c with InboundResponses => true | _ => false end);
     mt_gossip_messages := add (mt_gossip_messages m) (match c with GossipMessages => true | _ => false end);
     mt_rejected_messages := add (mt_rejected_messages m) (match c with RejectedMessages => true | _ => false end);
     mt_request_failures := add (mt_request_failures m) (match c with RequestFailures => true | _ => false end);
     mt_discovered_peers := add (mt_discovered_peers m) (match c with DiscoveredPeers => true | _ => false end);
     mt_discovery_failures := add (mt_discovery_failures m) (match c with DiscoveryFailures => true | _ => false end) |}.

Definition count (s : NetworkService) (c : counter) : NetworkService := with_metrics s (bump (nw_metrics s) c).

Definition is_connected (s : NetworkService) (peer : PeerId) : bool := bcontains peer (nw_connected s).
Definition is_authenticated (s : NetworkService) (peer : PeerId) : bool := bcontains peer (nw_authenticated s).
Definition peer_disposition (s : NetworkService) (peer : PeerId) : PeerDisposition := disposition (nw_peer_book s) peer.

Definition with_topics (s : NetworkService) (topics : btree bytes string) : NetworkService :=
  {| nw_swarm := nw_swarm s; nw_handshake := nw_handshake s; nw_finalized_topic := nw_finalized_topic s;
     nw_transaction_topics := topics; nw_authenticated := nw_authenticated s;
     nw_connected := nw_connected s; nw_pending := nw_pending s; nw_next_request_id := nw_next_request_id s;
     nw_peer_book := nw_peer_book s; nw_metrics := nw_metrics s; nw_mdns := nw_mdns s |}.

(** *** Setup *)

Record NetworkServiceConfig := {
  nc_handshake : Handshake;
  nc_peer : PeerId;
  nc_listen_address : Multiaddr;
  nc_max_concurrent_streams : Z;
  nc_enable_mdns : bool;
}.

(** [NetworkServiceConfig::development] with the identity [peer]. *)
Definition development (network_id : NetworkId) (genesis_hash : bytes) (peer : PeerId) (listen_address : Multiaddr)
    : NetworkServiceConfig :=
  {| nc_handshake :=
       new_handshake network_id genesis_hash NodeRole.Full
         [TransactionGossip; FinalizedGossip; BlockSyncing; StateSync; DomainHistorySync; ConsensusDirect];
     nc_peer := peer; nc_listen_address := listen_address; nc_max_concurrent_streams := 32; nc_enable_mdns := false |}.

(** [NetworkService::new]: the swarm is built from the configuration and told to listen
    by the transport library. *)
Definition new_service (build : NetworkServiceConfig → outcome string Swarm)
    (listen_on : Swarm → Multiaddr → outcome string unit * Swarm) (start : string → outcome string ServiceDaemon)
    (config : NetworkServiceConfig) : outcome NetworkError NetworkService :=
  if nc_max_concurrent_streams config =? 0
  then Err (ConfigurationError "max concurrent streams must be non-zero")
  else
    let handshake := nc_handshake config in
    run? map_err HandshakeFailure (validate_against handshake handshake) in
    let? swarm := map_err ConfigurationError (build config) in
    let '(listening, swarm) := listen_on swarm (nc_listen_address config) in
    run? map_err ListenError listening in
    let finalized_topic := finalized_topic_name handshake in
    let '(subscribed, swarm) := subscribe swarm finalized_topic in
    run? map_err GossipError subscribed in
    let? mdns :=
      if nc_enable_mdns config
      then map_err DiscoveryError (let? m := new_discovery start (nc_peer config) handshake in Ok (Some m))
      else Ok None in
    Ok {| nw_swarm := swarm; nw_handshake := handshake; nw_finalized_topic := finalized_topic;
          nw_transaction_topics := []; nw_authenticated := []; nw_connected := []; nw_pending := [];
          nw_next_request_id := 1; nw_peer_book := []; nw_metrics := default_metrics; nw_mdns := mdns |}.

(** *** Calls *)

Definition dial (s : NetworkService) (peer : PeerId) (address : Multiaddr) : outcome NetworkError unit * NetworkService :=
  let swarm := add_address (nw_swarm s) peer address in
  let '(dialed, swarm) := dial_peer swarm peer address in
  (map_err DialError dialed, with_swarm s swarm).

Definition bootstrap (s : NetworkService) : outcome NetworkError unit * NetworkService :=
  let '(started, swarm) := bootstrap_kademlia (nw_swarm s) in
  (map_err DialError started, with_swarm s swarm).

Definition subscribe_domain (s : NetworkService) (domain_id : DomainId) : outcome NetworkError unit * NetworkService :=
  if bcontains domain_id (nw_transaction_topics s) then (Ok tt, s)
  else
    let topic := transaction_topic_name (nw_handshake s) domain_id in
    let '(subscribed, swarm) := subscribe (nw_swarm s) topic in
    let s := with_swarm s swarm in
    match subscribed with
    | Ok _ => (Ok tt, with_topics s (binsert domain_id topic (nw_transaction_topics s)))
    | r => (map_err GossipError r, s)
    end.

(** [gossipsub.publish]. *)
Definition publish_message (s : NetworkService) (topic : string) (message : GossipMessage)
    : outcome NetworkError unit * NetworkService :=
  match map_err ProtocolError (encode_gossip message) with
  | Ok data =>
      let '(published, swarm) := publish (nw_swarm s) topic data in
      (map_err GossipError published, with_swarm s swarm)
  | Err e => (Err e, s)
  | Panic m => (Panic m, s)
  end.

Definition publish_transaction (s : NetworkService) (domain_id : DomainId) (envelope : bytes)
    : outcome NetworkError unit * NetworkService :=
  let message := GossipTransaction domain_id envelope in
  match obind (map_err ProtocolError (validate_gossip message))
          (λ _, ok_or (bget domain_id (nw_transaction_topics s))
                  (ProtocolError "transaction topic is not subscribed locally")) with
  | Ok topic => publish_message s topic message
  | Err e => (Err e, s)
  | Panic m => (Panic m, s)
  end.

Definition publish_finalized (s : NetworkService) (announcement : FinalizedAnnouncement)
    : outcome NetworkError unit * NetworkService :=
  let message := GossipFinalized announcement in
  match map_err ProtocolError (validate_gossip message) with
  | Ok _ => publish_message s (nw_finalized_topic s) message
  | Err e => (Err e, s)
  | Panic m => (Panic m, s)
  end.

Definition required_capability (request : DirectRequest) : option Capability :=
  match request with
  | RequestHandshake | RequestStatus => None
  | RequestHeaders _ _ | RequestBodies _ | RequestBlocks _ _ => Some BlockSyncing
  | RequestManifest _ | RequestChunk _ _ _ => Some StateSync
  | RequestHistory _ _ _ => Some DomainHistorySync
  | RequestConsensus _ _ => Some ConsensusDirect
  end.

(** [self.authenticated.get(peer).is_some_and(|h| h.supports(capability))]. *)
Definition peer_supports (s : NetworkService) (peer : PeerId) (capability : Capability) : bool :=
  match bget peer (nw_authenticated s) with
  | Some h => supports h capability
  | None => false
  end.

Definition allocate_request_id (s : NetworkService) : Z * NetworkService :=
  let id := Z.max (nw_next_request_id s) 1 in
  (id, with_pending s (nw_pending s) (Z.max (saturating_add 64 id 1) 1)).

(** The checks of [request]. *)
Definition check_request (s : NetworkService) (peer : PeerId) (request : DirectRequest) : outcome NetworkError unit :=
  let handshake := match request with RequestHandshake => true | _ => false end in
  if negb handshake && negb (bcontains peer (nw_authenticated s)) then Err (UnauthenticatedPeer peer)
  else
    run?
      match required_capability request with
      | Some capability =>
          if negb (peer_supports s peer capability) then Err (UnsupportedCapability peer capability) else Ok tt
      | None => Ok tt
      end in
    if negb (bool_decide (peer_disposition s peer = Accepted)) then Err (PeerPolicy peer)
    else map_err ProtocolError (validate_request request).

Definition request (s : NetworkService) (peer : PeerId) (request : DirectRequest)
    : outcome NetworkError Z * NetworkService :=
  match check_request s peer request with
  | Ok _ =>
      let '(request_id, s) := allocate_request_id s in
      let '(outbound, swarm) :=
        send_request (nw_swarm s) peer
          {| re_request_id := request_id; re_handshake := nw_handshake s; re_request := request |} in
      (Ok request_id, with_pending (with_swarm s swarm) (binsert outbound request_id (nw_pending s)) (nw_next_request_id s))
  | Err e => (Err e, s)
  | Panic m => (Panic m, s)
  end.

Definition respond (s : NetworkService) (inbound : InboundRequest) (response : DirectResponse)
    : outcome NetworkError unit * NetworkService :=
  match map_err ProtocolError (validate_response response) with
  | Ok _ =>
      let '(sent, swarm) :=
        send_response (nw_swarm s) (ib_channel inbound)
          {| rs_request_id := ib_request_id inbound; rs_response := response |} in
      (if sent then Ok tt else Err ResponseChannelClosed, with_swarm s swarm)
  | Err e => (Err e, s)
  | Panic m => (Panic m, s)
  end.

(** *** Handlers *)

Definition authenticate (s : NetworkService) (peer : PeerId) (handshake : Handshake) : bool * NetworkService :=
  let newly_authenticated := negb (bcontains peer (nw_authenticated s)) in
  let s := with_authenticated s (binsert peer handshake (nw_authenticated s)) in
  (newly_authenticated, with_book s (reward (nw_peer_book s) peer)).

Definition reject_peer (s : NetworkService) (peer : PeerId) : NetworkService :=
  let s := with_book s (identity_mismatch (nw_peer_book s) peer) in
  let s := count s RejectedMessages in
  let s := with_authenticated s (bremove peer (nw_authenticated s)) in
  with_swarm s (disconnect_peer_id (nw_swarm s) peer).

(** [let _ = send_response(...)]. *)
Definition answer (s : NetworkService) (channel : ResponseChannel) (request_id : Z) (response : DirectResponse)
    : NetworkService :=
  with_swarm s (send_response (nw_swarm s) channel {| rs_request_id := request_id; rs_response := response |}).2.

Definition handle_inbound_request (s : NetworkService) (peer : PeerId) (request : RequestEnvelope)
    (channel : ResponseChannel) : option NetworkEvent * NetworkService :=
  match validate_envelope request (nw_handshake s) with
  | Err error => (Some (PeerRejected peer (EnvelopeRejected error)), reject_peer s peer)
  | _ =>
      if negb (bool_decide (peer_disposition s peer = Accepted))
      then (None, answer s channel (re_request_id request) (Rejected 429))
      else
        let '(newly_authenticated, s) := authenticate s peer (re_handshake request) in
        match re_request request with
        | RequestHandshake =>
            let s := answer s channel (re_request_id request) (HandshakeAccepted (nw_handshake s)) in
            (if newly_authenticated then Some (PeerAuthenticated peer (re_handshake request)) else None, s)
        | r =>
            (Some (RequestReceived
                     {| ib_peer := peer; ib_request_id := re_request_id request; ib_request := r; ib_channel := channel |}),
             count s InboundRequests)
        end
  end.

(** [self.peer_book.malformed(peer)] and the counter of rejected messages. *)
Definition reject_message (s : NetworkService) (peer : PeerId) : NetworkService :=
  count (with_book s (malformed (nw_peer_book s) peer)) RejectedMessages.

Definition handle_inbound_response (s : NetworkService) (peer : PeerId) (request_id : OutboundRequestId)
    (response : ResponseEnvelope) : option NetworkEvent * NetworkService :=
  let expected := bget request_id (nw_pending s) in
  let s := with_pending s (bremove request_id (nw_pending s)) (nw_next_request_id s) in
  if negb (bool_decide (expected = Some (rs_request_id response))) then (None, reject_message s peer)
  else
    match validate_response (rs_response response) with
    | Err reason => (Some (PeerRejected peer (ResponseRejected reason)), reject_message s peer)
    | _ =>
        match rs_response response with
        | HandshakeAccepted remote =>
            match validate_against remote (nw_handshake s) with
            | Err error => (Some (PeerRejected peer (HandshakeRejected error)), reject_peer s peer)
            | _ =>
                let '(newly_authenticated, s) := authenticate s peer remote in
                (if newly_authenticated then Some (PeerAuthenticated peer remote) else None, s)
            end
        | r =>
            let s := with_book s (reward (nw_peer_book s) peer) in
            (Some (ResponseReceived peer (rs_request_id response) r), count s InboundResponses)
        end
    end.

Definition handle_gossip (s : NetworkService) (peer : PeerId) (data : bytes) : option NetworkEvent * NetworkService :=
  if negb (bcontains peer (nw_authenticated s)) || negb (bool_decide (peer_disposition s peer = Accepted)) then (None, s)
  else
    match accept_gossip data with
    | Ok message => (Some (GossipReceived peer message), count s GossipMessages)
    | _ => (None, reject_message s peer)
    end.

(** [self.peer_book.timeout(peer)] and the counter of failed requests. *)
Definition fail_request (s : NetworkService) (peer : PeerId) : NetworkService :=
  count (with_book s (timeout (nw_peer_book s) peer)) RequestFailures.

Definition handle_swarm_event (s : NetworkService) (event : SwarmEvent) : option NetworkEvent * NetworkService :=
  match event with
  | NewListenAddr address =>
      let s :=
        match nw_mdns s with
        | Some m =>
            let '(registered, m) := register m address in
            let s := with_mdns s (Some m) in
            match registered with Ok _ => s | _ => count s DiscoveryFailures end
        | None => s
        end in
      (Some (Listening address), s)
  | ConnectionEstablished peer =>
      let s := with_connected s (binsert peer tt (nw_connected s)) in
      if bool_decide (peer_disposition s peer = Banned)
      then (None, with_swarm s (disconnect_peer_id (nw_swarm s) peer))
      else (None, (request s peer RequestHandshake).2)
  | ConnectionClosed peer num_established =>
      if 0 <? num_established then (None, s)
      else
        let s := with_connected s (bremove peer (nw_connected s)) in
        let s := with_authenticated s (bremove peer (nw_authenticated s)) in
        (Some (PeerDisconnected peer), s)
  | DirectRequestMessage peer request channel => handle_inbound_request s peer request channel
  | DirectResponseMessage peer request_id response => handle_inbound_response s peer request_id response
  | OutboundFailure peer request_id error =>
      let application_id := bget request_id (nw_pending s) in
      let s := with_pending s (bremove request_id (nw_pending s)) (nw_next_request_id s) in
      (Some (RequestFailedEvent peer application_id error), fail_request s peer)
  | InboundFailure peer => (None, fail_request s peer)
  | ResponseSent peer => (None, with_book s (reward (nw_peer_book s) peer))
  | GossipsubMessage peer data => handle_gossip s peer data
  | IdentifyReceived peer listen_addrs =>
      (None, with_swarm s (foldl (λ swarm address, add_address swarm peer address) (nw_swarm s) listen_addrs))
  | PingResult peer succeeded =>
      (None, if succeeded then s else with_book s (timeout (nw_peer_book s) peer))
  | OutgoingConnectionError (Some peer) error =>
      (Some (RequestFailedEvent peer None error), fail_request s peer)
  | OutgoingConnectionError None _ | OtherSwarmEvent => (None, s)
  end.

Definition poll_mdns (s : NetworkService) : option NetworkEvent * NetworkService :=
  match nw_mdns s with
  | None => (None, s)
  | Some m =>
      let '(found, m) := try_next m in
      let s := with_mdns s (Some m) in
      match found with
      | None => (None, s)
      | Some (peer, address) =>
          let s := with_swarm s (add_address (nw_swarm s) peer address) in
          let s := if bcontains peer (nw_connected s) then s else (dial s peer address).2 in
          (Some (PeerDiscovered peer address), count s DiscoveredPeers)
      end
  end.

(** What wakes the loop of [next_event]. *)
Inductive wake :=
| SwarmWake (event : SwarmEvent)
| MdnsTick.

(** The loop of [next_event] over what happens next: the first event emitted, the
    service then, and what has not been looked at. *)
Fixpoint next_event (s : NetworkService) (wakes : list wake) : option NetworkEvent * NetworkService * list wake :=
  match wakes with
  | [] => (None, s, [])
  | w :: rest =>
      match (match w with SwarmWake event => handle_swarm_event s event | MdnsTick => poll_mdns s end) with
      | (Some event, s) => (Some event, s, rest)
      | (None, s) => next_event s rest
      end
  end.
End service.
