(* ===== verification/ServiceSafety.v ===== *)
(** What the network service guarantees (src/crates/arbor-network/src/service.rs).

    Peers are arbitrary: a service is stepped by any event the swarm delivers, any tick
    of the local discovery and any call of the node, in any order.

    Main results: the invariant of the service ([service_invariant]); what every event
    it emits says about the message that caused it ([events_sound]); when a request is
    sent and to whom ([request_gate]); and that a ban does not last ([ban_expires]). *)

From Stdlib Require Import Strings.Byte Strings.String.
From stdpp Require Import relations.
From S2P Require Import Prelude Bytes BTreeMap Primitives Canonical Protocol Peer Gossip Service.

Local Open Scope Z_scope.

Create HintDb service.

Section safety.
Context `{Libp2p, !MdnsSd}.

(** ** The invariant *)

Record service_ok (s : NetworkService) : Prop := {
  sv_handshake : validate_against (nw_handshake s) (nw_handshake s) = Ok tt;
  sv_topic : nw_finalized_topic s = finalized_topic_name (nw_handshake s);
  sv_topics : sorted (nw_transaction_topics s) ∧
    ∀ d t, bget d (nw_transaction_topics s) = Some t → t = transaction_topic_name (nw_handshake s) d;
  sv_authenticated : sorted (nw_authenticated s) ∧
    ∀ peer h, bget peer (nw_authenticated s) = Some h → validate_against h (nw_handshake s) = Ok tt;
  sv_connected : sorted (nw_connected s);
  sv_gauges : mt_connected_peers (nw_metrics s) = zlen (nw_connected s) ∧
    mt_authenticated_peers (nw_metrics s) = zlen (nw_authenticated s);
  sv_book : book_ok (nw_peer_book s);
  sv_next : 1 ≤ nw_next_request_id s ≤ umax 64;
  sv_pending : sorted (nw_pending s) ∧
    (∀ o id, bget o (nw_pending s) = Some id → 1 ≤ id ≤ nw_next_request_id s) ∧
    (nw_next_request_id s < umax 64 → ∀ o id, bget o (nw_pending s) = Some id → id < nw_next_request_id s) ∧
    (nw_next_request_id s < umax 64 → ∀ o o' id, bget o (nw_pending s) = Some id → bget o' (nw_pending s) = Some id → o = o');
}.

Lemma swarm_ok s swarm : service_ok s → service_ok (with_swarm s swarm).
Proof. by intros []. Qed.

Lemma mdns_ok s m : service_ok s → service_ok (with_mdns s m).
Proof. by intros []. Qed.

Lemma book_report_ok s e : service_ok s → service_ok (with_book s (apply_report (nw_peer_book s) e)).
Proof. intros []. split; try done. by apply report_ok. Qed.

Lemma count_ok s c : service_ok s → service_ok (count s c).
Proof. by intros []. Qed.

Lemma connected_ok s connected : service_ok s → sorted connected → service_ok (with_connected s connected).
Proof. intros [] Hs. split; try done. by split; [|apply sv_gauges0]. Qed.

Lemma authenticated_ok s authenticated :
  service_ok s → sorted authenticated →
  (∀ peer h, bget peer authenticated = Some h → validate_against h (nw_handshake s) = Ok tt) →
  service_ok (with_authenticated s authenticated).
Proof. intros [] Hs Hv. split; try done. by split; [apply sv_gauges0|]. Qed.

Lemma topic_ok s d :
  service_ok s → service_ok (with_topics s (binsert d (transaction_topic_name (nw_handshake s) d) (nw_transaction_topics s))).
Proof.
  intros []. split; try done. destruct sv_topics0 as [Hs Ht]. split; [by apply sorted_binsert|]. intros d' t Hg. cbn in Hg.
  rewrite bget_binsert in Hg. destruct (teqb d' d) eqn:E; [|by apply Ht]. apply teqb_eq in E as ->. by injection Hg as <-.
Qed.

Lemma forget_ok s o : service_ok s → service_ok (with_pending s (bremove o (nw_pending s)) (nw_next_request_id s)).
Proof.
  intros []. split; try done. destruct sv_pending0 as (Hs & Hr & Hl & Hn).
  assert (∀ o' id, bget o' (bremove o (nw_pending s)) = Some id → bget o' (nw_pending s) = Some id) as Hsub.
  { intros o' id Hg. rewrite bget_bremove in Hg. by destruct (teqb o' o). }
  cbn [nw_pending with_pending nw_next_request_id]. split_and!; [by apply sorted_bremove|eauto|eauto|eauto].
Qed.
#[local] Hint Resolve swarm_ok mdns_ok count_ok connected_ok topic_ok forget_ok sorted_binsert sorted_bremove sv_connected : service.

Lemma reward_ok s peer : service_ok s → service_ok (with_book s (reward (nw_peer_book s) peer)).
Proof. apply (book_report_ok s (peer, Completed)). Qed.

Lemma timeout_ok s peer : service_ok s → service_ok (with_book s (timeout (nw_peer_book s) peer)).
Proof. apply (book_report_ok s (peer, TimedOut)). Qed.

Lemma malformed_ok s peer : service_ok s → service_ok (with_book s (malformed (nw_peer_book s) peer)).
Proof. apply (book_report_ok s (peer, Malformed)). Qed.

Lemma mismatch_ok s peer : service_ok s → service_ok (with_book s (identity_mismatch (nw_peer_book s) peer)).
Proof. apply (book_report_ok s (peer, Mismatched)). Qed.
#[local] Hint Resolve reward_ok timeout_ok malformed_ok mismatch_ok : service.

Lemma authenticate_ok s peer h :
  service_ok s → validate_against h (nw_handshake s) = Ok tt → service_ok (authenticate s peer h).2.
Proof.
  intros Hok Hv. unfold authenticate. cbn [snd].
  apply (reward_ok (with_authenticated s (binsert peer h (nw_authenticated s)))). destruct (sv_authenticated _ Hok) as [Hs Ha].
  apply authenticated_ok; [done|by apply sorted_binsert|]. intros p h' Hg. rewrite bget_binsert in Hg.
  destruct (teqb p peer); [by injection Hg as <-|by eapply Ha].
Qed.

Lemma deauthenticate_ok s peer :
  service_ok s → service_ok (with_authenticated s (bremove peer (nw_authenticated s))).
Proof.
  intros Hok. destruct (sv_authenticated _ Hok) as [Hs Ha]. apply authenticated_ok; [done|by apply sorted_bremove|].
  intros p h Hg. rewrite bget_bremove in Hg. destruct (teqb p peer); [done|by eapply Ha].
Qed.

Lemma reject_peer_ok s peer : service_ok s → service_ok (reject_peer s peer).
Proof.
  intros Hok. unfold reject_peer. apply swarm_ok, (deauthenticate_ok (count _ _)). auto with service.
Qed.

Lemma answer_ok s channel id r : service_ok s → service_ok (answer s channel id r).
Proof. apply swarm_ok. Qed.

Lemma reject_message_ok s peer : service_ok s → service_ok (reject_message s peer).
Proof. intros Hok. unfold reject_message. auto with service. Qed.

Lemma fail_request_ok s peer : service_ok s → service_ok (fail_request s peer).
Proof. intros Hok. unfold fail_request. auto with service. Qed.
#[local] Hint Resolve authenticate_ok deauthenticate_ok reject_peer_ok answer_ok reject_message_ok fail_request_ok : service.

(** ** Requests *)

Lemma check_request_Ok s peer r :
  check_request s peer r = Ok tt ↔
    (r = RequestHandshake ∨ is_Some (bget peer (nw_authenticated s))) ∧
    (∀ c, required_capability r = Some c → peer_supports s peer c = true) ∧
    peer_disposition s peer = Accepted ∧ validate_request r = Ok tt.
Proof.
  unfold check_request. split.
  - intros Hc. destruct (negb _ && negb _) eqn:Ha in Hc; [done|]. apply obind_Ok in Hc as ([] & Hcap & Hc).
    destruct (bool_decide_reflect (peer_disposition s peer = Accepted)) as [Hd|]; [|done]. apply map_err_Ok in Hc. split_and!; [| |done|done].
    + apply andb_false_iff in Ha as [Ha|Ha%negb_false_iff%bcontains_true]; [left|by right]. by destruct r.
    + intros c Ec. rewrite Ec in Hcap. by destruct (peer_supports s peer c).
  - intros (Ha & Hcap & Hd & Hv). assert (negb (match r with RequestHandshake => true | _ => false end) &&
      negb (bcontains peer (nw_authenticated s)) = false) as ->.
    { destruct Ha as [->|Ha%bcontains_true]; [done|]. rewrite Ha. by rewrite andb_false_r. }
    rewrite bool_decide_true by done. rewrite Hv. destruct (required_capability r) as [c|]; [|done]. by rewrite (Hcap c).
Qed.

Lemma request_Ok s peer r id s' :
  request s peer r = (Ok id, s') →
  check_request s peer r = Ok tt ∧ id = Z.max (nw_next_request_id s) 1 ∧
  let sent := send_request (nw_swarm s) peer {| re_request_id := id; re_handshake := nw_handshake s; re_request := r |} in
  s' = with_pending (with_swarm s sent.2) (binsert sent.1 id (nw_pending s)) (Z.max (saturating_add 64 id 1) 1).
Proof.
  unfold request. destruct (check_request s peer r) as [[]| |]; [|done..]. unfold allocate_request_id. cbn [nw_swarm with_pending nw_handshake].
  destruct (send_request _ _ _) as [o w] eqn:Es. intros [= <- <-]. split; [done|]. split; [done|]. cbn zeta. by rewrite Es.
Qed.

Lemma request_failed s peer r e s' : request s peer r = (e, s') → (∀ id, e ≠ Ok id) → s' = s ∧ check_request s peer r ≠ Ok tt.
Proof.
  unfold request. destruct (check_request s peer r) as [[]| |]; [|by intros [= <- <-]..].
  destruct (allocate_request_id s) as [i s1]. destruct (send_request _ _ _) as [o w]. intros [= <- <-] Hno. by destruct (Hno i).
Qed.

Lemma request_ok s peer r : service_ok s → service_ok (request s peer r).2.
Proof.
  intros Hok. destruct (request s peer r) as [res s'] eqn:Hr. cbn [snd].
  destruct res as [id|e|m]; [|by apply request_failed in Hr as [-> _]..].
  apply request_Ok in Hr as (_ & Ei & ->). destruct Hok. split; try done.
  { cbn. unfold saturating_add, umax in *. lia. }
  destruct sv_pending0 as (Hs & Hp & Hl & Hn). set (o := (send_request _ _ _).1).
  assert (id = nw_next_request_id s) as -> by lia. cbn [nw_pending with_pending nw_next_request_id].
  assert (∀ o' i, bget o' (binsert o (nw_next_request_id s) (nw_pending s)) = Some i →
    o' = o ∧ i = nw_next_request_id s ∨ bget o' (nw_pending s) = Some i) as Hg.
  { intros o' i Hg. rewrite bget_binsert in Hg. destruct (teqb o' o) eqn:E; [|by right]. apply teqb_eq in E as ->. injection Hg as <-. by left. }
  unfold saturating_add, umax in *. split_and!; [by apply sorted_binsert| | |].
  - intros o' i [[-> ->]|Hi]%Hg; [lia|]. apply Hp in Hi. lia.
  - intros Hlt o' i [[-> ->]|Hi]%Hg; [lia|]. apply Hl in Hi; lia.
  - intros Hlt o1 o2 i Hg1 Hg2. apply Hg in Hg1 as [[-> E1]|H1'], Hg2 as [[-> E2]|H2']; [done| | |].
    + apply Hl in H2'; lia.
    + apply Hl in H1'; lia.
    + eapply Hn; [lia|done|done].
Qed.
#[local] Hint Resolve request_ok : service.

(** ** Steps *)

Lemma handle_request_ok s peer e channel : service_ok s → service_ok (handle_inbound_request s peer e channel).2.
Proof.
  intros Hok. unfold handle_inbound_request. destruct (validate_envelope e (nw_handshake s)) as [[]| |m] eqn:Hv; cbn [snd]; [|auto with service|].
  - unfold validate_envelope in Hv. destruct (re_request_id e =? 0); [done|]. apply obind_Ok in Hv as ([] & Hv & _). apply map_err_Ok in Hv.
    destruct (negb _); cbn [snd]; [auto with service|]. pose proof (authenticate_ok s peer (re_handshake e) Hok Hv) as Ha.
    destruct (authenticate s peer (re_handshake e)) as [newly s1]. cbn [snd] in Ha. destruct (re_request e); cbn [snd]; auto with service.
  - exfalso. revert Hv. unfold validate_envelope. destruct (re_request_id e =? 0); [done|]. apply obind_no_panic.
    + unfold validate_against. intros Hx. repeat (case_match; try done).
    + intros [] _. unfold validate_request. intros Hx. repeat (case_match; try done).
Qed.

Lemma handle_response_ok s peer o e : service_ok s → service_ok (handle_inbound_response s peer o e).2.
Proof.
  intros Hok. unfold handle_inbound_response. pose proof (forget_ok s o Hok) as Hf. set (s1 := with_pending _ _ _) in *.
  destruct (negb _); cbn [snd]; [auto with service|]. destruct (validate_response (rs_response e)); cbn [snd]; [|auto with service|].
  all: destruct (rs_response e) as [h| | | | | | | | |]; cbn [snd]; auto with service.
  all: destruct (validate_against_total h (nw_handshake s1)) as [Hv|[x Hv]]; rewrite Hv; cbn [snd]; auto with service.
  all: pose proof (authenticate_ok s1 peer h Hf Hv) as Ha; destruct (authenticate s1 peer h); exact Ha.
Qed.

Lemma handle_gossip_ok s peer data : service_ok s → service_ok (handle_gossip s peer data).2.
Proof.
  intros Hok. unfold handle_gossip. destruct (_ || _); cbn [snd]; [done|]. destruct (accept_gossip data); cbn [snd]; auto with service.
Qed.
#[local] Hint Resolve handle_request_ok handle_response_ok handle_gossip_ok : service.

Lemma handle_swarm_event_ok s event : service_ok s → service_ok (handle_swarm_event s event).2.
Proof.
  intros Hok. destruct event as [address|peer|peer n|peer e channel|peer o e|peer o error|peer|peer|peer data|peer addrs|peer ok|[peer|] error|];
    cbn [handle_swarm_event snd]; auto with service.
  - destruct (nw_mdns s) as [m|]; [|done]. destruct (register m address) as [r m']. destruct r; auto with service.
  - case_bool_decide; cbn [snd]; auto with service.
  - destruct (0 <? n); cbn [snd]; [done|]. apply (deauthenticate_ok (with_connected s (bremove peer (nw_connected s)))). auto with service.
  - destruct ok; auto with service.
Qed.

Lemma poll_mdns_ok s : service_ok s → service_ok (poll_mdns s).2.
Proof.
  intros Hok. unfold poll_mdns. destruct (nw_mdns s) as [m|]; [|done]. destruct (try_next m) as [[[peer address]|] m']; cbn [snd]; [|auto with service].
  apply count_ok. set (s1 := with_swarm _ _). assert (service_ok s1) as H1' by (unfold s1; auto with service).
  destruct (bcontains peer (nw_connected s1)); [done|]. unfold dial. destruct (dial_peer _ _ _). cbn [snd]. auto with service.
Qed.

Lemma publish_message_ok s topic message : service_ok s → service_ok (publish_message s topic message).2.
Proof.
  intros Hok. unfold publish_message. destruct (map_err _ _); cbn [snd]; [|done..]. destruct (publish _ _ _). cbn [snd]. auto with service.
Qed.

(** Anything that happens to a service: what the swarm delivers, from whatever peer, a
    tick of the discovery, and the calls of the node. *)
Inductive service_step (s : NetworkService) : NetworkService → Prop :=
| step_swarm event : service_step s (handle_swarm_event s event).2
| step_mdns : service_step s (poll_mdns s).2
| step_dial peer address : service_step s (dial s peer address).2
| step_bootstrap : service_step s (bootstrap s).2
| step_subscribe d : service_step s (subscribe_domain s d).2
| step_publish_transaction d envelope : service_step s (publish_transaction s d envelope).2
| step_publish_finalized a : service_step s (publish_finalized s a).2
| step_request peer r : service_step s (request s peer r).2
| step_respond inbound r : service_step s (respond s inbound r).2.

Lemma service_step_ok s s' : service_ok s → service_step s s' → service_ok s'.
Proof.
  intros Hok Hs. destruct Hs as [event| |peer address| |d|d envelope|a|peer r|inbound r].
  - by apply handle_swarm_event_ok.
  - by apply poll_mdns_ok.
  - unfold dial. destruct (dial_peer _ _ _). cbn [snd]. auto with service.
  - unfold bootstrap. destruct (bootstrap_kademlia _). cbn [snd]. auto with service.
  - unfold subscribe_domain. destruct (bcontains d _); [done|]. destruct (subscribe _ _) as [r w]. destruct r; cbn [snd]; auto with service.
    apply (topic_ok (with_swarm s w)). auto with service.
  - unfold publish_transaction. destruct (obind _ _); cbn [snd]; [|done..]. by apply publish_message_ok.
  - unfold publish_finalized. destruct (map_err _ _); cbn [snd]; [|done..]. by apply publish_message_ok.
  - auto with service.
  - unfold respond. destruct (map_err _ _); cbn [snd]; [|done..]. destruct (send_response _ _ _). cbn [snd]. auto with service.
Qed.

Lemma new_service_ok build listen_on start config s :
  new_service build listen_on start config = Ok s → service_ok s.
Proof.
  unfold new_service. destruct (nc_max_concurrent_streams config =? 0); [done|]. intros Hn.
  apply obind_Ok in Hn as ([] & Hv & Hn). apply map_err_Ok in Hv. apply obind_Ok in Hn as (w & _ & Hn).
  destruct (listen_on w _) as [r1 w1]. apply obind_Ok in Hn as ([] & _ & Hn). destruct (subscribe w1 _) as [r2 w2].
  apply obind_Ok in Hn as ([] & _ & Hn). apply obind_Ok in Hn as (m & _ & [= <-]).
  split; cbn; try done; [split; [constructor|done]|split; [constructor|done]|constructor|apply empty_book_ok|split_and!; [constructor|done..]].
Qed.

Lemma rtc_service_ok build listen_on start config s0 s :
  new_service build listen_on start config = Ok s0 → rtc service_step s0 s → service_ok s.
Proof.
  intros Hn%new_service_ok Hr. revert Hn. induction Hr as [|s s1 s2 Hs _ IH]; [done|]. intros Hok. apply IH. by eapply service_step_ok.
Qed.

(** C8. The invariant of the network service. Whatever peers send, in whatever order the
    swarm delivers it and the node makes its calls: the handshake kept for every
    authenticated peer validates against the service's own, so it names the same
    network, genesis and versions; scores stay within their bounds; the gauges count the
    connected and the authenticated peers; topics are those of the service's network;
    and, until the 64-bit identifiers run out, no two exchanges in flight share a request
    identifier. *)
Theorem service_invariant build listen_on start config s0 s :
  new_service build listen_on start config = Ok s0 → rtc service_step s0 s → service_ok s.
Proof. apply rtc_service_ok. Qed.

(** ** Events *)

(** The peer has lost points, down to the floor of the scale. *)
Definition penalized (s s' : NetworkService) (peer : PeerId) (points : Z) : Prop :=
  peer_score (nw_peer_book s') peer = Z.max (- SCORE_LIMIT) (peer_score (nw_peer_book s) peer - points).

(** What an emitted event says about the event of the swarm and the services before and
    after it. *)
Definition event_justified (s : NetworkService) (event : SwarmEvent) (emitted : NetworkEvent) (s' : NetworkService) : Prop :=
  match emitted with
  | RequestReceived ib =>
      ∃ env, event = DirectRequestMessage (ib_peer ib) env (ib_channel ib) ∧ re_request env = ib_request ib ∧
        re_request_id env = ib_request_id ib ∧ ib_request_id ib ≠ 0 ∧ ib_request ib ≠ RequestHandshake ∧
        validate_request (ib_request ib) = Ok tt ∧ peer_disposition s (ib_peer ib) = Accepted ∧
        validate_against (re_handshake env) (nw_handshake s) = Ok tt ∧
        bget (ib_peer ib) (nw_authenticated s') = Some (re_handshake env)
  | ResponseReceived peer id r =>
      ∃ o, event = DirectResponseMessage peer o {| rs_request_id := id; rs_response := r |} ∧
        bget o (nw_pending s) = Some id ∧ bget o (nw_pending s') = None ∧
        validate_response r = Ok tt ∧ ∀ h, r ≠ HandshakeAccepted h
  | GossipReceived peer m =>
      ∃ data, event = GossipsubMessage peer data ∧ is_Some (bget peer (nw_authenticated s)) ∧
        peer_disposition s peer = Accepted ∧ wf_gossip m ∧ encode_gossip m = Ok data
  | PeerAuthenticated peer h =>
      bget peer (nw_authenticated s) = None ∧ bget peer (nw_authenticated s') = Some h ∧
      validate_against h (nw_handshake s) = Ok tt ∧
      ((∃ env channel, event = DirectRequestMessage peer env channel ∧ re_request env = RequestHandshake ∧
          re_handshake env = h ∧ peer_disposition s peer = Accepted) ∨
       (∃ o env, event = DirectResponseMessage peer o env ∧ bget o (nw_pending s) = Some (rs_request_id env) ∧
          rs_response env = HandshakeAccepted h))
  | PeerRejected peer (EnvelopeRejected error) =>
      ∃ env channel, event = DirectRequestMessage peer env channel ∧ validate_envelope env (nw_handshake s) = Err error ∧
        penalized s s' peer 100 ∧ bget peer (nw_authenticated s') = None
  | PeerRejected peer (ResponseRejected reason) =>
      ∃ o env, event = DirectResponseMessage peer o env ∧ bget o (nw_pending s) = Some (rs_request_id env) ∧
        validate_response (rs_response env) = Err reason ∧ penalized s s' peer 25
  | PeerRejected peer (HandshakeRejected error) =>
      ∃ o env h, event = DirectResponseMessage peer o env ∧ bget o (nw_pending s) = Some (rs_request_id env) ∧
        rs_response env = HandshakeAccepted h ∧ validate_against h (nw_handshake s) = Err error ∧
        penalized s s' peer 100 ∧ bget peer (nw_authenticated s') = None
  | PeerDisconnected peer =>
      (∃ n, event = ConnectionClosed peer n ∧ n ≤ 0) ∧
      bget peer (nw_authenticated s') = None ∧ bget peer (nw_connected s') = None
  | RequestFailedEvent peer (Some id) error =>
      ∃ o, event = OutboundFailure peer o error ∧ bget o (nw_pending s) = Some id ∧ bget o (nw_pending s') = None
  | RequestFailedEvent peer None error =>
      event = OutgoingConnectionError (Some peer) error ∨
      ∃ o, event = OutboundFailure peer o error ∧ bget o (nw_pending s) = None
  | Listening address => event = NewListenAddr address
  | PeerDiscovered _ _ => False
  end.

Lemma report_penalty (book : PeerBook PeerId) (peer : PeerId) r :
  book_ok book → report_change r ≤ 0 →
  peer_score (apply_report book (peer, r)) peer = Z.max (- SCORE_LIMIT) (peer_score book peer - - report_change r).
Proof.
  intros Hok Hr. rewrite report_score by done. cbn [fst snd]. rewrite teqb_refl. destruct Hok as [_ Hb]. specialize (Hb peer).
  unfold SCORE_LIMIT in *. lia.
Qed.

Lemma reject_peer_spec s peer :
  service_ok s → penalized s (reject_peer s peer) peer 100 ∧ bget peer (nw_authenticated (reject_peer s peer)) = None.
Proof.
  intros Hok. split; [|apply bget_bremove_eq]. unfold penalized, reject_peer.
  cbn [nw_peer_book with_swarm with_authenticated count with_metrics with_book].
  exact (report_penalty _ peer Mismatched (sv_book _ Hok) ltac:(done)).
Qed.

Lemma request_justified s peer e channel emitted s' :
  handle_inbound_request s peer e channel = (Some emitted, s') →
  service_ok s → event_justified s (DirectRequestMessage peer e channel) emitted s'.
Proof.
  unfold handle_inbound_request. destruct (validate_envelope_total e (nw_handshake s)) as [Hv|[x Hv]]; rewrite Hv.
  - apply validate_envelope_Ok in Hv as (Hid & Hh & Hr). case_bool_decide as Hd; cbn [negb]; [|done].
    unfold authenticate. destruct (re_request e) eqn:Er.
    1: { destruct (negb (bcontains peer (nw_authenticated s))) eqn:Hn; [|done]. intros [= <- <-] _. cbn. rewrite bget_binsert_eq.
         apply negb_true_iff, bcontains_false in Hn. split_and!; [done..|]. left. by exists e, channel. }
    all: intros [= <- <-] _; exists e; cbn; rewrite bget_binsert_eq; split_and!; done.
  - intros [= <- <-] Hok. destruct (reject_peer_spec s peer Hok). by exists e, channel.
Qed.

Lemma response_justified s peer o e emitted s' :
  handle_inbound_response s peer o e = (Some emitted, s') →
  service_ok s → event_justified s (DirectResponseMessage peer o e) emitted s'.
Proof.
  unfold handle_inbound_response. set (s1 := with_pending _ _ _). case_bool_decide as Hp; cbn [negb]; [|done].
  assert (bget o (nw_pending s1) = None) as Hforgot by apply bget_bremove_eq.
  destruct (validate_response_total (rs_response e)) as [Hv|[x Hv]]; rewrite Hv.
  - destruct (rs_response e) as [h| | | | | | | | |] eqn:Er.
    1: { destruct (validate_against_total h (nw_handshake s1)) as [Hh|[x Hh]]; rewrite Hh.
      - unfold authenticate. destruct (negb (bcontains peer (nw_authenticated s1))) eqn:Hn; [|done]. intros [= <- <-] _.
        cbn. rewrite bget_binsert_eq. apply negb_true_iff, bcontains_false in Hn. split_and!; [done..|]. right. by exists o, e.
      - intros [= <- <-] Hok. exists o, e, h. split_and!; try done; [|apply bget_bremove_eq].
        unfold penalized, reject_peer. cbn [nw_peer_book with_swarm with_authenticated count with_metrics with_book s1 with_pending].
        exact (report_penalty _ peer Mismatched (sv_book _ Hok) ltac:(done)). }
    all: intros [= <- <-] _; exists o; rewrite <-Er in *; split_and!; try done; [by destruct e|by rewrite Er].
  - intros [= <- <-] Hok. exists o, e. split_and!; try done. unfold penalized, reject_message.
    cbn [nw_peer_book count with_metrics with_book s1 with_pending].
    exact (report_penalty _ peer Malformed (sv_book _ Hok) ltac:(done)).
Qed.

(** C15. Every event the service hands to the node is justified by what the transport
    delivered, whatever peers send. A request comes from a peer of the same network that
    is neither throttled nor banned, with a handshake that validates, and satisfies its
    own limits; a response answers an exchange still in flight, under the identifier it
    was sent with, passes the transport checks and ends that exchange; gossip comes from
    an authenticated peer in good standing and is the canonical encoding of its message.
    A peer announced as authenticated was not so before, and the handshake recorded for
    it validates and is the one it sent itself, in a handshake request or in the answer
    to an exchange in flight. A peer announced as rejected sent an envelope, a response
    or a handshake that fails its check, and loses 100 points, or 25 for a response, or
    what it has above the floor of the scale if that is less; in the other two cases it
    is also no longer authenticated. A peer announced as disconnected has no connection left, and a
    failed request was in flight or its connection failed. *)
Theorem events_sound build listen_on start config s0 s event emitted s' :
  new_service build listen_on start config = Ok s0 → rtc service_step s0 s →
  handle_swarm_event s event = (Some emitted, s') → event_justified s event emitted s'.
Proof.
  intros Hn Hr He. assert (service_ok s) as Hok by (eapply rtc_service_ok; [exact Hn|exact Hr]).
  destruct event as [address|peer|peer n|peer e channel|peer o e|peer o error|peer|peer|peer data|peer addrs|peer ok|[peer|] error|];
    cbn [handle_swarm_event] in He; try done.
  - by injection He as <- <-.
  - case_bool_decide; [done|]. done.
  - destruct (Z.ltb_spec 0 n); [done|]. injection He as <- <-. split; [by exists n|]. cbn. by rewrite !bget_bremove_eq.
  - by apply request_justified.
  - by apply response_justified.
  - injection He as <- <-. cbn [event_justified]. destruct (bget o (nw_pending s)) as [id|] eqn:Ho; [|right; by exists o].
    exists o. split_and!; [done|done|]. apply bget_bremove_eq.
  - unfold handle_gossip in He. destruct (negb _ || negb _) eqn:Hg in He; [done|]. apply orb_false_iff in Hg as [Ha%negb_false_iff Hd].
    apply bcontains_true in Ha. bool_prop. destruct (accept_gossip data) as [m| |] eqn:Hm; [|done..]. injection He as <- <-.
    destruct gossip_codec as (_ & Hc & _). destruct (Hc _ _ Hm). by exists data.
  - injection He as <- <-. by left.
Qed.

(** ** Requests are gated *)

(** C16. When a request leaves the node. A request is sent if and only if it is a
    handshake or its target is authenticated, the target's handshake has the capability
    the request needs, the target is neither throttled nor banned, and the request
    satisfies its limits. Then exactly one message is handed to the transport, with a
    fresh identifier and the service's own handshake, and the exchange is recorded;
    otherwise nothing changes at all. *)
Theorem request_gate build listen_on start config s0 s peer r res s' :
  new_service build listen_on start config = Ok s0 → rtc service_step s0 s → request s peer r = (res, s') →
  let gate :=
    (r = RequestHandshake ∨ is_Some (bget peer (nw_authenticated s))) ∧
    (∀ c, required_capability r = Some c → ∃ h, bget peer (nw_authenticated s) = Some h ∧ c ∈ hs_capabilities h) ∧
    peer_disposition s peer = Accepted ∧ validate_request r = Ok tt in
  (gate → ∃ o, res = Ok (nw_next_request_id s) ∧
    send_request (nw_swarm s) peer
      {| re_request_id := nw_next_request_id s; re_handshake := nw_handshake s; re_request := r |} = (o, nw_swarm s') ∧
    nw_pending s' = binsert o (nw_next_request_id s) (nw_pending s) ∧
    nw_authenticated s' = nw_authenticated s ∧ nw_peer_book s' = nw_peer_book s) ∧
  (¬ gate → s' = s ∧ ∀ id, res ≠ Ok id).
Proof.
  intros Hn Hr Hq gate. assert (service_ok s) as Hok by (eapply rtc_service_ok; [exact Hn|exact Hr]).
  assert (check_request s peer r = Ok tt ↔ gate) as Hgate.
  { rewrite check_request_Ok. unfold gate, peer_supports. destruct (sv_authenticated _ Hok) as [_ Hv].
    assert (∀ c, (match bget peer (nw_authenticated s) with Some h => supports h c | None => false end = true) ↔
      ∃ h, bget peer (nw_authenticated s) = Some h ∧ c ∈ hs_capabilities h) as Hc; [|setoid_rewrite Hc; done].
    intros c. destruct (bget peer (nw_authenticated s)) as [h|] eqn:Eh; [|naive_solver].
    apply Hv, validate_against_Ok in Eh as (_ & _ & _ & _ & _ & _ & _ & Hs). rewrite (supports_iff _ _ Hs). naive_solver. }
  split.
  - intros Hg%Hgate. destruct res as [id|e|m]; [|by apply request_failed in Hq as [_ Hne]..].
    apply request_Ok in Hq as (_ & Ei & ->). pose proof (sv_next _ Hok). assert (id = nw_next_request_id s) as -> by lia.
    eexists. split; [done|]. cbn [nw_swarm nw_pending nw_authenticated nw_peer_book with_pending with_swarm]. split_and!; [|done..].
    apply surjective_pairing.
  - intros Hg. destruct res as [id|e|m]; [|by apply request_failed in Hq as [-> _]..]. apply request_Ok in Hq as [Hc _]. by apply Hgate in Hc.
Qed.

(** ** Bans *)

(** A peer sends a request and the answer leaves. *)
Definition exchange (peer : PeerId) (e : RequestEnvelope) (s : NetworkService) (channel : ResponseChannel) : NetworkService :=
  (handle_swarm_event (handle_swarm_event s (DirectRequestMessage peer e channel)).2 (ResponseSent peer)).2.

Lemma reward_raises (book : PeerBook PeerId) (peer : PeerId) :
  book_ok book → book_ok (reward book peer) ∧ Z.min SCORE_LIMIT (peer_score book peer + 2) ≤ peer_score (reward book peer) peer.
Proof.
  intros Hok. split; [apply (report_ok book (peer, Completed) Hok)|].
  pose proof (report_score book (peer, Completed) peer Hok) as Hs. cbn [apply_report fst snd report_change] in Hs. rewrite teqb_refl in Hs.
  rewrite Hs. destruct Hok as [_ Hb]. specialize (Hb peer). unfold SCORE_LIMIT in *. lia.
Qed.

Lemma exchange_raises peer e s channel :
  book_ok (nw_peer_book s) → validate_envelope e (nw_handshake s) = Ok tt →
  nw_handshake (exchange peer e s channel) = nw_handshake s ∧ book_ok (nw_peer_book (exchange peer e s channel)) ∧
  Z.min SCORE_LIMIT (peer_score (nw_peer_book s) peer + 2) ≤ peer_score (nw_peer_book (exchange peer e s channel)) peer.
Proof.
  intros Hok Hv. unfold exchange. cbn [handle_swarm_event snd with_book nw_peer_book nw_handshake].
  set (s1 := (handle_inbound_request s peer e channel).2).
  assert (nw_handshake s1 = nw_handshake s ∧ book_ok (nw_peer_book s1) ∧ peer_score (nw_peer_book s) peer ≤ peer_score (nw_peer_book s1) peer) as (Eh & Hok1 & Hle).
  { subst s1. unfold handle_inbound_request. rewrite Hv. destruct (negb _); [done|]. unfold authenticate.
    destruct (reward_raises (nw_peer_book s) peer Hok) as [Hok' Hup]. destruct Hok as [_ Hb]. specialize (Hb peer).
    assert (peer_score (nw_peer_book s) peer ≤ Z.min SCORE_LIMIT (peer_score (nw_peer_book s) peer + 2)) as Hlow by (unfold SCORE_LIMIT in *; lia).
    destruct (re_request e); (split; [done|split; [exact Hok'|exact (Z.le_trans _ _ _ Hlow Hup)]]). }
  destruct (reward_raises (nw_peer_book s1) peer Hok1) as [Hok2 Hup]. split_and!; [done|done|]. unfold SCORE_LIMIT in *. lia.
Qed.

(** C33. A ban does not last. A peer that was banned without being disconnected keeps
    sending well-formed requests: each is refused, but the refusal that is sent counts as
    a completed exchange, so after at most 81 of them the peer is accepted again. *)
Theorem ban_expires build listen_on start config s0 s peer e channels :
  new_service build listen_on start config = Ok s0 → rtc service_step s0 s →
  peer_disposition s peer = Banned → validate_envelope e (nw_handshake s) = Ok tt → length channels = 81%nat →
  (∀ channel, (handle_swarm_event s (DirectRequestMessage peer e channel)).1 = None) ∧
  peer_disposition (foldl (exchange peer e) s channels) peer = Accepted.
Proof.
  intros Hn Hr Hd Hv Hl. assert (service_ok s) as Hok by (eapply rtc_service_ok; [exact Hn|exact Hr]). split.
  { intros channel. cbn [handle_swarm_event]. unfold handle_inbound_request. by rewrite Hv, Hd. }
  assert (∀ n l s, length l = n → book_ok (nw_peer_book s) → validate_envelope e (nw_handshake s) = Ok tt →
    Z.min SCORE_LIMIT (peer_score (nw_peer_book s) peer + 2 * Z.of_nat n) ≤ peer_score (nw_peer_book (foldl (exchange peer e) s l)) peer) as Hloop.
  { clear. induction n as [|n IH]; intros [|channel l] s Hl Hok Hv; try discriminate Hl; cbn [foldl].
    - destruct Hok as [_ Hb]. specialize (Hb peer). lia.
    - destruct (exchange_raises peer e s channel Hok Hv) as (Eh & Hok' & Hup). injection Hl as Hl.
      specialize (IH l (exchange peer e s channel) Hl Hok' ltac:(by rewrite Eh)). unfold SCORE_LIMIT in *. lia. }
  specialize (Hloop _ channels s Hl (sv_book _ Hok) Hv). destruct (sv_book _ Hok) as [_ Hb]. specialize (Hb peer).
  unfold peer_disposition, disposition, score_disposition, BAN_THRESHOLD, THROTTLE_THRESHOLD, SCORE_LIMIT in *.
  destruct (Z.leb_spec (peer_score (nw_peer_book (foldl (exchange peer e) s channels)) peer) (-100)); [lia|].
  destruct (Z.leb_spec (peer_score (nw_peer_book (foldl (exchange peer e) s channels)) peer) (-40)); [lia|done].
Qed.
End safety.

(** ** Witnesses *)

(** What a run of swarm events reaches. *)
Lemma rtc_events `{Libp2p, !MdnsSd} s events :
  rtc service_step s (foldl (λ s event, (handle_swarm_event s event).2) s events).
Proof.
  revert s. induction events as [|e events IH]; intros s; [apply rtc_refl|]. eapply rtc_l; [apply (step_swarm s e)|apply IH].
Qed.

Module ServiceWitness.

(** A transport that records what it is asked to send; channels below zero are closed. *)
Record toy_swarm := { tw_next : Z; tw_requests : list (Z * RequestEnvelope); tw_responses : list (Z * ResponseEnvelope) }.

#[local] Instance toy_libp2p : Libp2p := {|
  PeerId := Z;
  peer_order := Z_total_order;
  peer_to_string _ := "peer"%string;
  peer_from_str _ := None;
  Multiaddr := list Protocol;
  multiaddr_iter a := a;
  multiaddr_from_str _ := None;
  OutboundRequestId := Z;
  outbound_order := Z_total_order;
  ResponseChannel := Z;
  Swarm := toy_swarm;
  send_request w peer e :=
    (tw_next w, {| tw_next := tw_next w + 1; tw_requests := tw_requests w ++ [(peer, e)]; tw_responses := tw_responses w |});
  send_response w channel e :=
    if channel <? 0 then (false, w)
    else (true, {| tw_next := tw_next w; tw_requests := tw_requests w; tw_responses := tw_responses w ++ [(channel, e)] |});
  disconnect_peer_id w _ := w;
  subscribe w _ := (Ok tt, w);
  publish w _ _ := (Ok tt, w);
  add_address w _ _ := w;
  dial_peer w _ _ := (Ok tt, w);
  bootstrap_kademlia w := (Ok tt, w);
|}.

#[local] Instance toy_mdns : MdnsSd := {|
  ServiceDaemon := unit;
  ServiceInfo := unit;
  service_info _ _ _ _ _ _ := Ok tt;
  register_service _ _ := Ok tt;
  get_property_val_str _ _ := None;
  get_addresses_v4 _ := [];
  port_text _ := "0"%string;
|}.

Definition network : bytes := repeat_byte 32 17.
Definition genesis : bytes := repeat_byte 32 34.

Definition empty_swarm : toy_swarm := {| tw_next := 0; tw_requests := []; tw_responses := [] |}.

Definition created : outcome NetworkError NetworkService :=
  new_service (λ _, Ok empty_swarm) (λ w _, (Ok tt, w)) (λ _, Ok tt) (development network genesis 1 [Ip4 0; Tcp 0]).

Definition service0 : NetworkService :=
  match created with
  | Ok s => s
  | _ => {| nw_swarm := empty_swarm; nw_handshake := new_handshake network genesis NodeRole.Full [];
            nw_finalized_topic := EmptyString; nw_transaction_topics := []; nw_authenticated := []; nw_connected := [];
            nw_pending := []; nw_next_request_id := 1; nw_peer_book := []; nw_metrics := default_metrics; nw_mdns := None |}
  end.

Lemma service0_created :
  new_service (λ _, Ok empty_swarm) (λ w _, (Ok tt, w)) (λ _, Ok tt) (development network genesis 1 [Ip4 0; Tcp 0]) = Ok service0.
Proof. by_evaluation. Qed.

Definition remote : Handshake := new_handshake network genesis NodeRole.Validator [BlockSyncing; StateSync].

Definition asks (id : Z) (r : DirectRequest) : RequestEnvelope :=
  {| re_request_id := id; re_handshake := remote; re_request := r |}.

(** The peer 7 connects and shakes hands. *)
Definition greeted : NetworkService :=
  foldl (λ s event, (handle_swarm_event s event).2) service0
    [ConnectionEstablished 7; DirectRequestMessage 7 (asks 1 RequestHandshake) 100].

Lemma greeted_reached : rtc service_step service0 greeted.
Proof. apply rtc_events. Qed.

Lemma service_invariant_witness :
  mt_authenticated_peers (nw_metrics greeted) = 1 ∧
  ∀ h, bget 7 (nw_authenticated greeted) = Some h → validate_against h (nw_handshake greeted) = Ok tt.
Proof.
  pose proof (service_invariant _ _ _ _ service0 greeted service0_created greeted_reached) as Hok.
  split; [reflexivity|]. intros h Hh. exact (proj2 (sv_authenticated _ Hok) 7 h Hh).
Defined.

Definition status_request : SwarmEvent := DirectRequestMessage 7 (asks 2 RequestStatus) 101.

Definition status_inbound : InboundRequest :=
  {| ib_peer := 7; ib_request_id := 2; ib_request := RequestStatus; ib_channel := 101 |}.

Lemma events_sound_witness :
  ∃ s', handle_swarm_event greeted status_request = (Some (RequestReceived status_inbound), s') ∧
    bget 7 (nw_authenticated s') = Some remote.
Proof.
  eexists. split; [reflexivity|].
  destruct (events_sound _ _ _ _ service0 greeted status_request (RequestReceived status_inbound) _
    service0_created greeted_reached eq_refl) as (env & [= <-] & _ & _ & _ & _ & _ & _ & _ & Ha). exact Ha.
Defined.

Definition seven : PeerId := 7.

Lemma request_gate_witness :
  (∃ id, (request greeted seven (RequestHeaders 1 1)).1 = Ok id) ∧
  (request greeted seven (RequestHistory network 0 1)).2 = greeted.
Proof.
  split.
  - destruct (request_gate _ _ _ _ service0 greeted seven (RequestHeaders 1 1) _ _ service0_created greeted_reached (surjective_pairing _)) as [Hg _].
    destruct Hg as (o & E & _); [|by eexists]. split_and!; [right; by eexists| |reflexivity|reflexivity].
    intros c [= <-]. exists remote. split; [reflexivity|]. by_evaluation.
  - destruct (request_gate _ _ _ _ service0 greeted seven (RequestHistory network 0 1) _ _ service0_created greeted_reached (surjective_pairing _)) as [_ Hg].
    apply Hg. intros (_ & Hc & _). destruct (Hc DomainHistorySync eq_refl) as (h & Eh & Hin). injection Eh as <-. revert Hin. by_evaluation.
Defined.

(** The peer 7 is banned after ten timeouts. *)
Definition banned : NetworkService :=
  foldl (λ s event, (handle_swarm_event s event).2) service0 (repeat (InboundFailure 7) 10).

Lemma ban_expires_witness :
  peer_disposition banned 7 = Banned ∧
  peer_disposition (foldl (exchange 7 (asks 1 RequestStatus)) banned (repeat 100 81)) 7 = Accepted.
Proof.
  split; [reflexivity|].
  apply (ban_expires _ _ _ _ service0 banned seven (asks 1 RequestStatus) (repeat 100 81) service0_created (rtc_events _ _)); by_evaluation.
Defined.
End ServiceWitness.
