(* ===== verification/Node.v ===== *)
(** The networked development node (src/crates/arbor-node/src/networked.rs): the engine,
    the network service and the state of synchronization, with one definition per
    handler and the main loop over what wakes it.

    A handler is an action on the node: it returns its outcome and the node it leaves,
    also when it fails. Logging is not modelled. *)

From Stdlib Require Import Strings.Byte Strings.String.
From S2P Require Import Prelude Bytes BTreeMap Primitives Canonical Cursor Rlp Crypto Ethereum StateError.
From S2P Require Import Snapshot DomainHeads System Registry Trie Mpt Account Overlay Mempool Storage.
From S2P Require Import Evm Executor Merkle ChainBlock ChainState Chain DevGenesis EngineCheckpoint Engine.
From S2P Require Import Protocol Sync SnapshotTransfer Peer Gossip Service.

Local Open Scope Z_scope.

Definition SNAPSHOT_CACHE_COUNT : Z := 4.
Definition CONSENSUS_DIRECT_QUEUE : Z := 64.

(** The text the consensus errors print. *)
Class ErrorText := { consensus_text : ConsensusError → string }.

Section node.
Context `{Keccak, Secp256k1, AlloyRlp, !AlloyTrie, SenderRecovery, Journal, !Revm, AlloyRoots, ParityDb}.
Context `{Libp2p, !MdnsSd, ErrorText}.

(** ** State *)

Inductive PendingAction :=
| StatusAction
| ManifestAction (remote : SyncStatus)
| ChunkAction (domain_id : DomainId) (index : Z)
| HeadersAction (remote : SyncStatus)
| BodiesAction (remote : SyncStatus) (headers : list VerifiedHeader).

Record SnapshotDownload := {
  dl_remote : SyncStatus;
  dl_staging : SnapshotStaging;
  dl_remaining : list (DomainId * Z);
}.

(** What [network_error] prints. *)
Inductive network_failure :=
| ServiceFailed (e : NetworkError)
| HeadersFailed (e : HeaderSyncError)
| BlocksFailed (e : BlockSyncError)
| SnapshotFailed (e : SnapshotError)
| HeaderCodecFailed (e : CodecError)
| BlockCodecFailed (e : ChainError)
| MailboxFailed (e : ConsensusMailboxError)
| FailedWith (text : string).

Inductive DevNodeError :=
| NodeConsensus (e : ConsensusError)
| NodeStorage (e : StorageError)
| NodeTimestampOverflow
| NodeNetwork (why : network_failure).

Record Node := {
  nd_engine : SingleValidatorEngine;
  nd_network : NetworkService;
  nd_snapshots : btree Z SnapshotBundle;
  nd_mailbox : Mailbox PeerId;
  nd_actions : btree Z PendingAction;
  nd_downloads : btree PeerId SnapshotDownload;
}.

Definition with_engine (n : Node) (e : SingleValidatorEngine) : Node :=
  {| nd_engine := e; nd_network := nd_network n; nd_snapshots := nd_snapshots n; nd_mailbox := nd_mailbox n;
     nd_actions := nd_actions n; nd_downloads := nd_downloads n |}.
Definition with_network (n : Node) (s : NetworkService) : Node :=
  {| nd_engine := nd_engine n; nd_network := s; nd_snapshots := nd_snapshots n; nd_mailbox := nd_mailbox n;
     nd_actions := nd_actions n; nd_downloads := nd_downloads n |}.
Definition with_snapshots (n : Node) (snapshots : btree Z SnapshotBundle) : Node :=
  {| nd_engine := nd_engine n; nd_network := nd_network n; nd_snapshots := snapshots; nd_mailbox := nd_mailbox n;
     nd_actions := nd_actions n; nd_downloads := nd_downloads n |}.
Definition with_mailbox (n : Node) (mailbox : Mailbox PeerId) : Node :=
  {| nd_engine := nd_engine n; nd_network := nd_network n; nd_snapshots := nd_snapshots n; nd_mailbox := mailbox;
     nd_actions := nd_actions n; nd_downloads := nd_downloads n |}.
Definition with_actions (n : Node) (actions : btree Z PendingAction) : Node :=
  {| nd_engine := nd_engine n; nd_network := nd_network n; nd_snapshots := nd_snapshots n; nd_mailbox := nd_mailbox n;
     nd_actions := actions; nd_downloads := nd_downloads n |}.
Definition with_downloads (n : Node) (downloads : btree PeerId SnapshotDownload) : Node :=
  {| nd_engine := nd_engine n; nd_network := nd_network n; nd_snapshots := nd_snapshots n; nd_mailbox := nd_mailbox n;
     nd_actions := nd_actions n; nd_downloads := downloads |}.

(** ** Actions *)

Definition action (A : Type) : Type := Node → outcome DevNodeError A * Node.

Definition ret {A : Type} (a : A) : action A := λ n, (Ok a, n).
Definition fail {A : Type} (e : DevNodeError) : action A := λ n, (Err e, n).

Definition nbind {A B : Type} (c : action A) (k : A → action B) : action B := λ n,
  match c n with
  | (Ok a, n) => k a n
  | (Err e, n) => (Err e, n)
  | (Panic m, n) => (Panic m, n)
  end.

(** The node, unchanged, and a change to it. *)
Definition get : action Node := λ n, (Ok n, n).
Definition modify (f : Node → Node) : action unit := λ n, (Ok tt, f n).

(** An outcome that touches nothing. *)
Definition lift {E A : Type} (why : E → DevNodeError) (c : outcome E A) : action A := λ n, (map_err why c, n).

(** A call of the service, and one of the engine. *)
Definition on_network {A : Type} (f : NetworkService → outcome NetworkError A * NetworkService) : action A := λ n,
  let '(r, s) := f (nd_network n) in
  (map_err (λ e, NodeNetwork (ServiceFailed e)) r, with_network n s).
Definition on_engine {A : Type} (f : SingleValidatorEngine → outcome ConsensusError A * SingleValidatorEngine) : action A := λ n,
  let '(r, e) := f (nd_engine n) in
  (map_err NodeConsensus r, with_engine n e).
End node.

Declare Scope node_scope.
Delimit Scope node_scope with node.
Notation "'let*' x ':=' c 'in' k" := (nbind c (fun x => k))
  (at level 10, x name, c at level 100, k at level 200) : node_scope.
Notation "'run*' c 'in' k" := (nbind c (fun _ => k))
  (at level 10, c at level 100, k at level 200) : node_scope.
Local Open Scope node_scope.

(** [DevelopmentHeaderVerifier] and [DevelopmentCheckpointVerifier]. *)
#[export] Instance development_header_verifier : HeaderFinalityVerifier := {| verify_header := development_verify_header |}.
#[export] Instance development_checkpoint_verifier : CheckpointFinalityVerifier :=
  {| verify_checkpoint := development_verify_checkpoint |}.

Section handlers.
Context `{Keccak, Secp256k1, AlloyRlp, !AlloyTrie, SenderRecovery, Journal, !Revm, AlloyRoots, ParityDb}.
Context `{Libp2p, !MdnsSd, ErrorText}.

(** The identity of the network and of its genesis, and the bound on the iterations of
    the database's readers. *)
Context (network_id : NetworkId) (genesis_hash : bytes) (fuel : nat).

(** ** Importing *)

Definition engine_status (e : SingleValidatorEngine) (checkpoint_height : Z) : SyncStatus :=
  let state := en_finalized e in
  {| sy_height := fs_height state; sy_consensus_hash := fs_consensus_hash state;
     sy_domain_heads_root := domain_heads_root state; sy_checkpoint_height := checkpoint_height |}.

(** [DevelopmentImporter]. *)
#[export] Instance development_importer : BlockImport SingleValidatorEngine := {|
  status e := Ok (engine_status e (fs_height (en_finalized e)));
  verify_finality _ finalized _ :=
    if (length (fb_finality_proof finalized) =? 0)%nat then Ok tt
    else Err "development block finality proof must be empty"%string;
  import_block e block :=
    match import_development_finalized_block e block with
    | (Ok _, e) => (Ok (engine_status e (fs_height (en_finalized e))), e)
    | (Err error, e) => (Err (consensus_text error), e)
    | (Panic m, e) => (Panic m, e)
    end;
|}.

(** ** Requests *)

Definition send_request (peer : PeerId) (r : DirectRequest) (a : PendingAction) : action unit :=
  let* request_id := on_network (λ s, Service.request s peer r) in
  modify (λ n, with_actions n (binsert request_id a (nd_actions n))).

Definition request_sync_path (peer : PeerId) (remote : SyncStatus) : action unit :=
  let* n := get in
  let local := engine_status (nd_engine n) 0 in
  if sy_height remote <=? sy_height local then ret tt
  else if (sy_height local =? 0) && (0 <? sy_checkpoint_height remote)
  then send_request peer (RequestManifest (sy_checkpoint_height remote)) (ManifestAction remote)
  else
    match next_request default_sync local remote with
    | Some (start_height, limit) => send_request peer (RequestHeaders start_height limit) (HeadersAction remote)
    | None => ret tt
    end.

Definition request_next_chunk (peer : PeerId) : action unit :=
  let* n := get in
  match bget peer (nd_downloads n) with
  | None => ret tt
  | Some download =>
      match dl_remaining download with
      | [] => ret tt
      | (domain_id, index) :: rest =>
          run* modify (λ n, with_downloads n
                  (binsert peer {| dl_remote := dl_remote download; dl_staging := dl_staging download; dl_remaining := rest |}
                     (nd_downloads n))) in
          send_request peer (RequestChunk (sy_checkpoint_height (dl_remote download)) domain_id index)
            (ChunkAction domain_id index)
      end
  end.

(** ** Snapshots *)

(** The loop that drops the oldest snapshots. *)
Fixpoint evict (steps : nat) (snapshots : btree Z SnapshotBundle) : btree Z SnapshotBundle :=
  match steps with
  | O => snapshots
  | S steps =>
      if SNAPSHOT_CACHE_COUNT <? zlen snapshots
      then match head (bkeys snapshots) with
           | Some oldest => evict steps (bremove oldest snapshots)
           | None => snapshots
           end
      else snapshots
  end.

Definition cache_snapshot : action unit :=
  let* n := get in
  if fs_height (en_finalized (nd_engine n)) =? 0 then ret tt
  else
    let c := development_checkpoint (nd_engine n) in
    let* bundle :=
      lift (λ e, NodeNetwork (SnapshotFailed e))
        (produce (ckd_state c) genesis_hash (ckd_validator_set c) (ckd_finality_proof c)) in
    modify (λ n,
      let snapshots := binsert (fs_height (ckd_state c)) bundle (nd_snapshots n) in
      with_snapshots n (evict (length snapshots) snapshots)).

Definition begin_snapshot_download (peer : PeerId) (remote : SyncStatus) (manifest_bytes : bytes) : action unit :=
  let* manifest := lift (λ e, NodeNetwork (SnapshotFailed e)) (decode_checkpoint_manifest manifest_bytes) in
  if negb (km_height manifest =? sy_checkpoint_height remote)
  then fail (NodeNetwork (FailedWith "snapshot manifest height differs from advertised checkpoint"))
  else
    let* staging := lift (λ e, NodeNetwork (SnapshotFailed e)) (new_staging manifest_bytes network_id genesis_hash) in
    let remaining := km_domains manifest ≫= λ d, (λ c, (kd_domain_id d, sc_index c)) <$> sm_chunks (kd_state d) in
    run* modify (λ n, with_downloads n
            (binsert peer {| dl_remote := remote; dl_staging := staging; dl_remaining := remaining |} (nd_downloads n))) in
    request_next_chunk peer.

Definition accept_snapshot_chunk (peer : PeerId) (domain_id : DomainId) (index : Z) (b : bytes) : action unit :=
  let* n := get in
  let* download :=
    lift NodeNetwork (ok_or (bget peer (nd_downloads n)) (FailedWith "snapshot session disappeared")) in
  let* staging := lift (λ e, NodeNetwork (SnapshotFailed e)) (stage_chunk (dl_staging download) domain_id index b) in
  run* modify (λ n, with_downloads n
          (binsert peer {| dl_remote := dl_remote download; dl_staging := staging; dl_remaining := dl_remaining download |}
             (nd_downloads n))) in
  run* request_next_chunk peer in
  let* n := get in
  if negb (match bget peer (nd_downloads n) with Some d => is_complete (dl_staging d) | None => false end) then ret tt
  else
    let* download :=
      lift NodeNetwork (ok_or (bget peer (nd_downloads n)) (FailedWith "snapshot session disappeared")) in
    run* modify (λ n, with_downloads n (bremove peer (nd_downloads n))) in
    let* imported := lift (λ e, NodeNetwork (SnapshotFailed e)) (finish (dl_staging download)) in
    run* on_engine (λ e, import_development_checkpoint e
            {| ckd_state := si_state imported; ckd_validator_set := si_validator_set imported;
               ckd_finality_proof := si_finality_proof imported |}) in
    request_sync_path peer (dl_remote download).

(** ** Responses *)

Definition handle_response (peer : PeerId) (a : option PendingAction) (response : DirectResponse) : action unit :=
  match a, response with
  | Some StatusAction, Status remote => request_sync_path peer remote
  | Some (ManifestAction remote), ManifestBytes b => begin_snapshot_download peer remote b
  | Some (ChunkAction domain_id index), ChunkBytes b => accept_snapshot_chunk peer domain_id index b
  | Some (HeadersAction remote), Headers headers =>
      let* n := get in
      let local := engine_status (nd_engine n) 0 in
      let* verified := lift (λ e, NodeNetwork (HeadersFailed e)) (verify_headers local remote headers) in
      let heights := (λ v, ch_height (vh_header v)) <$> verified in
      send_request peer (RequestBodies heights) (BodiesAction remote verified)
  | Some (BodiesAction remote headers), BlockBodies bodies =>
      let* blocks := lift (λ e, NodeNetwork (HeadersFailed e)) (finalized_blocks_from_bodies headers bodies) in
      run* (λ n,
        let '(r, e) := import_response default_sync (nd_engine n) remote blocks in
        (map_err (λ e, NodeNetwork (BlocksFailed e)) r, with_engine n e)) in
      request_sync_path peer remote
  | _, Rejected _ => ret tt
  | None, _ => ret tt
  | _, _ => fail (NodeNetwork (FailedWith "direct response does not match pending request"))
  end.

(** ** Serving *)

Definition requested_heights (e : SingleValidatorEngine) (start_height limit : Z) : list Z :=
  let stop := Z.min (saturating_add 64 start_height limit) (saturating_add 64 (fs_height (en_finalized e)) 1) in
  seqZ start_height (stop - start_height).

(** The loop of [serve_headers], [serve_bodies] and [serve_blocks]: [None] when a block
    is missing. *)
Fixpoint serve_heights {A : Type} (e : SingleValidatorEngine) (item : Z → ConsensusBlock → outcome network_failure A)
    (heights : list Z) : outcome DevNodeError (option (list A)) :=
  match heights with
  | [] => Ok (Some [])
  | height :: heights =>
      let? found := map_err NodeConsensus (finalized_block fuel e height) in
      match found with
      | None => Ok None
      | Some block =>
          let? a := map_err NodeNetwork (item height block) in
          let? rest := serve_heights e item heights in
          Ok (match rest with Some l => Some (a :: l) | None => None end)
      end
  end.

Definition header_item (height : Z) (block : ConsensusBlock) : outcome network_failure FinalizedHeader :=
  let? header := map_err HeaderCodecFailed (encode_consensus_header (cb_header block)) in
  Ok {| fh_height := height; fh_header := header; fh_finality_proof := [] |}.

Definition body_item (height : Z) (block : ConsensusBlock) : outcome network_failure BlockBody :=
  let? b := map_err BlockCodecFailed (encode_consensus_block block) in
  Ok {| bb_height := height; bb_block := b |}.

Definition block_item (height : Z) (block : ConsensusBlock) : outcome network_failure FinalizedBlock :=
  let? b := map_err BlockCodecFailed (encode_consensus_block block) in
  Ok {| fb_height := height; fb_block := b; fb_finality_proof := [] |}.

Definition serve_headers (e : SingleValidatorEngine) (start_height limit : Z) : outcome DevNodeError DirectResponse :=
  let? headers := serve_heights e header_item (requested_heights e start_height limit) in
  Ok (match headers with Some l => Headers l | None => Rejected 404 end).

Definition serve_bodies (e : SingleValidatorEngine) (heights : list Z) : outcome DevNodeError DirectResponse :=
  let? bodies := serve_heights e body_item heights in
  Ok (match bodies with Some l => BlockBodies l | None => Rejected 404 end).

Definition serve_blocks (e : SingleValidatorEngine) (start_height limit : Z) : outcome DevNodeError DirectResponse :=
  let? blocks := serve_heights e block_item (requested_heights e start_height limit) in
  Ok (match blocks with Some l => Blocks l | None => Rejected 404 end).

(** [snapshots.keys().next_back()]. *)
Definition newest_snapshot (snapshots : btree Z SnapshotBundle) : Z := default 0 (list.last (bkeys snapshots)).

(** The answer [serve_request] computes; a consensus message goes to the mailbox. *)
Definition answer_request (inbound : InboundRequest) : action DirectResponse :=
  let* n := get in
  let e := nd_engine n in
  let snapshots := nd_snapshots n in
  match ib_request inbound with
  | RequestHandshake => ret (Rejected 400)
  | RequestStatus => ret (Status (engine_status e (newest_snapshot snapshots)))
  | RequestHeaders start_height limit => lift id (serve_headers e start_height limit)
  | RequestBodies heights => lift id (serve_bodies e heights)
  | RequestBlocks start_height limit => lift id (serve_blocks e start_height limit)
  | RequestManifest checkpoint_height =>
      match bget checkpoint_height snapshots with
      | Some bundle =>
          let* b := lift (λ e, NodeNetwork (SnapshotFailed e)) (bundle_manifest_bytes bundle) in
          ret (ManifestBytes b)
      | None => ret (Rejected 404)
      end
  | RequestChunk checkpoint_height domain_id index =>
      match bget checkpoint_height snapshots ≫= λ bundle, bundle_chunk bundle domain_id index with
      | Some b => ret (ChunkBytes b)
      | None => ret (Rejected 404)
      end
  | RequestHistory domain_id start_number limit =>
      let* items := lift NodeConsensus (domain_history fuel e domain_id start_number limit) in
      ret (History items)
  | RequestConsensus kind payload => λ n,
      let '(r, mailbox) :=
        try_send (nd_mailbox n) {| dm_peer := ib_peer inbound; dm_kind := kind; dm_payload := payload |} in
      (Ok (match r with Ok _ => ConsensusAccepted | _ => Rejected 429 end), with_mailbox n mailbox)
  end.

Definition serve_request (inbound : InboundRequest) : action unit :=
  let* response := answer_request inbound in
  on_network (λ s, respond s inbound response).

(** ** Events *)

Definition subscribe_domains : action unit :=
  let* n := get in
  foldr (λ e k, run* on_network (λ s, subscribe_domain s e.1) in k) (ret tt) (fs_domains (en_finalized (nd_engine n))).

(** The match of [handle_network_event]. *)
Definition dispatch (event : NetworkEvent) : action unit :=
  match event with
  | Listening _ | PeerDiscovered _ _ | PeerRejected _ _ => ret tt
  | PeerDisconnected peer => modify (λ n, with_downloads n (bremove peer (nd_downloads n)))
  | PeerAuthenticated peer _ => send_request peer RequestStatus StatusAction
  | RequestReceived inbound => serve_request inbound
  | GossipReceived peer (GossipTransaction domain_id envelope) => λ n,
      (Ok tt, with_engine n (submit_raw (nd_engine n) domain_id envelope).2)
  | GossipReceived peer (GossipFinalized announcement) =>
      let* n := get in
      if (fs_height (en_finalized (nd_engine n)) <? an_height announcement) &&
         (length (nd_actions n) =? 0)%nat && (length (nd_downloads n) =? 0)%nat
      then send_request peer RequestStatus StatusAction
      else ret tt
  | ResponseReceived peer request_id response =>
      let* n := get in
      run* modify (λ n, with_actions n (bremove request_id (nd_actions n))) in
      handle_response peer (bget request_id (nd_actions n)) response
  | RequestFailedEvent peer request_id _ =>
      run* modify (λ n,
        match request_id with
        | Some id => with_actions n (bremove id (nd_actions n))
        | None => n
        end) in
      modify (λ n, with_downloads n (bremove peer (nd_downloads n)))
  end.

Definition handle_network_event (event : NetworkEvent) : action unit :=
  let* n := get in
  let previous_height := fs_height (en_finalized (nd_engine n)) in
  run* dispatch event in
  let* n := get in
  if negb (fs_height (en_finalized (nd_engine n)) =? previous_height) then cache_snapshot else ret tt.

(** ** The main loop *)

Definition produce_and_announce : action unit :=
  let* n := get in
  let* timestamp :=
    lift (λ _, NodeTimestampOverflow)
      (ok_or (checked_add 64 (fs_timestamp (en_finalized (nd_engine n))) 1) tt) in
  let* event := on_engine (λ e, produce_block e timestamp) in
  run* subscribe_domains in
  run* cache_snapshot in
  λ n,
    (Ok tt,
     with_network n
       (Service.publish_finalized (nd_network n)
          {| an_height := ev_height event; an_consensus_hash := ev_consensus_hash event;
             an_domain_heads_root := ev_domain_heads_root event |}).2).

Record PersistentPeer := {
  pr_peer_id : PeerId;
  pr_address : Multiaddr;
}.

(** One peer of the reconnect tick. *)
Definition reconnect_peer (peer : PersistentPeer) : action unit :=
  let* n := get in
  if negb (is_connected (nd_network n) (pr_peer_id peer))
  then modify (λ n, with_network n (dial (nd_network n) (pr_peer_id peer) (pr_address peer)).2)
  else if is_authenticated (nd_network n) (pr_peer_id peer) &&
          (length (nd_actions n) =? 0)%nat && (length (nd_downloads n) =? 0)%nat
  then send_request (pr_peer_id peer) RequestStatus StatusAction
  else ret tt.

Definition reconnect (persistent : list PersistentPeer) : action unit :=
  foldr (λ peer k, run* reconnect_peer peer in k) (ret tt) persistent.

(** What wakes the main loop: the two ticks, a message in the mailbox and what happens to
    the network before the service emits an event. *)
Inductive wakeup :=
| ProductionTick
| ReconnectTick
| MailboxReady
| NetworkReady (wakes : list wake).

(** One turn of the loop of [run_dev_node]; a turn that fails ends it. *)
Definition turn (produce : bool) (persistent : list PersistentPeer) (w : wakeup) : action unit :=
  match w with
  | ProductionTick => if produce then produce_and_announce else ret tt
  | ReconnectTick => reconnect persistent
  | MailboxReady => modify (λ n, with_mailbox n (recv (nd_mailbox n)).2)
  | NetworkReady wakes => λ n,
      let '(event, s, _) := next_event (nd_network n) wakes in
      let n := with_network n s in
      match event with
      | Some event => (run* handle_network_event event in subscribe_domains) n
      | None => (Ok tt, n)
      end
  end.

(** What [run_dev_node] does before its loop, with the engine and the service opened. *)
Definition start_node (e : SingleValidatorEngine) (s : NetworkService) : outcome DevNodeError unit * option Node :=
  match map_err (λ e, NodeNetwork (MailboxFailed e)) (consensus_direct_mailbox CONSENSUS_DIRECT_QUEUE) with
  | Ok mailbox =>
      let n := {| nd_engine := e; nd_network := s; nd_snapshots := []; nd_mailbox := mailbox; nd_actions := [];
                  nd_downloads := [] |} in
      let '(r, n) := (run* subscribe_domains in cache_snapshot) n in
      (r, Some n)
  | Err error => (Err error, None)
  | Panic m => (Panic m, None)
  end.
End handlers.
