(* ===== verification/NodeSync.v ===== *)
(** What the networked node achieves and where it stops.

    Main results: [catch_up] (a round of block synchronization with an honest node moves
    the listener to the server's next state, and nothing the server sends makes it
    fail), [response_stops_node] (one message of an authenticated peer ends the node) and
    [chunk_rejection_stalls] (a rejected chunk leaves a download that keeps the node
    from asking again). *)

From Stdlib Require Import Strings.Byte Strings.String.
From stdpp Require Import relations.
From S2P Require Import Prelude Bytes BTreeMap Primitives Canonical Cursor Rlp Crypto Ethereum StateError.
From S2P Require Import Snapshot DomainHeads System Registry Trie Mpt MptBuild Account Overlay Mempool Storage.
From S2P Require Import Evm Executor Merkle ChainBlock ChainState Chain Typing DevGenesis EngineCheckpoint Engine.
From S2P Require Import EngineRestart EngineSteps Protocol Sync SnapshotTransfer Peer Gossip Service ServiceSafety Node.

Local Open Scope Z_scope.

(** ** Catching up with an honest node *)

Section catching_up.
Context `{Keccak, Secp256k1, AlloyRlp, !AlloyTrie, SenderRecovery, Journal, !Revm, AlloyRoots, ParityDb}.
Context `{!AlloyRlpLaws, !RevmTyped, !BloomTyped, !AlloyRootsLaws, !ParityDbLaws}.
Context `{Libp2p, !MdnsSd, ErrorText}.
Context (network_id : NetworkId) (genesis_hash : bytes) (fuel : nat).

(** The states a database replays are ordered by their height. *)
Lemma replayed_unique d s0 s t :
  fs_height s0 = 0 → answers d → replayed d s0 s → replayed d s0 t → fs_height s = fs_height t → s = t.
Proof.
  intros H0' Ha Hs Ht E. apply replay_exact in Hs, Ht; try done. rewrite E, Ht in Hs. by injection Hs.
Qed.

Lemma replay_next d s0 s t :
  fs_height s0 = 0 → answers d → replayed d s0 s → replayed d s0 t → fs_height s < fs_height t →
  ∃ block encoded vp, stored d COLUMN_INDEXES (block_key (fs_height s + 1)) = Some encoded ∧
    decode_consensus_block encoded = Ok block ∧ validate_proposal s block = Ok vp ∧
    replayed d s0 (vp_resulting_state vp).
Proof.
  intros H0' Ha Hs Ht. induction Ht as [|t block encoded vp Ht IH Hk Hd Hv]; intros Hlt.
  - apply replayed_nonneg in Hs; [lia|done].
  - apply validated_height in Hv as Hh; [|by eapply replayed_nonneg].
    destruct (decide (fs_height s < fs_height t)) as [?|Hge]; [by apply IH|].
    assert (s = t) as -> by (eapply replayed_unique; try done; lia).
    exists block, encoded, vp. split_and!; try done. by econstructor.
Qed.

(** What the header of an accepted block says. *)
Record follows (s : FinalizedChainState) (block : ConsensusBlock) (next : FinalizedChainState) : Prop := {
  fo_bound : 0 ≤ fs_height s ∧ u64 (fs_height s + 1);
  fo_height : ch_height (cb_header block) = fs_height s + 1 ∧ fs_height next = fs_height s + 1;
  fo_parent : ch_parent_hash (cb_header block) = fs_consensus_hash s;
  fo_root : ch_domain_heads_root (cb_header block) = domain_heads_root next;
  fo_hash : consensus_header_hash (cb_header block) = Ok (fs_consensus_hash next);
}.

Lemma validated_follows s block vp :
  0 ≤ fs_height s → validate_proposal s block = Ok vp → follows s block (vp_resulting_state vp).
Proof.
  intros Hh Hv. pose proof Hv as (-> & Ho & He)%validated_inv.
  pose proof He as Hb. unfold execute in Hb. apply obind_Ok in Hb as ([] & _ & Hb). destruct (_ <? _); [done|].
  apply obind_Ok in Hb as (height & Hheight & _). apply ok_or_Ok, checked_add_Some in Hheight as [-> Hu].
  apply executed_proposal_run in He as [H1' H2' H3' _ _ _]; [|done|done].
  split; [split; [done|unfold u64, fits; lia]|done| |done|done].
  unfold validate_proposal in Hv. destruct (_ || _) eqn:E; [done|]. apply orb_false_iff in E as [_ E]. by bool_prop.
Qed.

(** ** Serving *)

Section serving.
Context (server : SingleValidatorEngine) (s0 s : FinalizedChainState).
Context (Hserver : engine_ok server) (Hanswers : answers (en_database server)).
Context (Hgenesis : chain_state (en_genesis server) = Ok s0) (Hs : replayed (en_database server) s0 s).
Context (Hbehind : fs_height s < fs_height (en_finalized server)).

Lemma served_next :
  ∃ block encoded vp, finalized_block fuel server (fs_height s + 1) = Ok (Some block) ∧
    decode_consensus_block encoded = Ok block ∧ validate_proposal s block = Ok vp ∧
    follows s block (vp_resulting_state vp) ∧ replayed (en_database server) s0 (vp_resulting_state vp) ∧
    (fs_height s + 1 = fs_height (en_finalized server) → vp_resulting_state vp = en_finalized server).
Proof.
  destruct Hserver as [_ [_ _ (s0' & E0 & H0' & Hrun) _ _ _ _ _ _] _ _ _].
  rewrite Hgenesis in E0. injection E0 as <-.
  destruct (replay_next _ _ _ _ H0' Hanswers Hs Hrun Hbehind) as (block & encoded & vp & Hk & Hd & Hv & Hr).
  pose proof (replayed_nonneg _ _ _ H0' Hs) as Hnn. pose proof (validated_follows _ _ _ Hnn Hv) as Hf.
  exists block, encoded, vp. split_and!; try done.
  - unfold finalized_block. rewrite (proj2 (orb_false_iff _ _)) by (split; [apply Z.eqb_neq|apply Z.ltb_ge]; lia).
    unfold db_index. rewrite get_answer, Hk by done. cbn [storage_err db_err map_err obind]. by rewrite Hd.
  - intros E. eapply replayed_unique; try done. rewrite (proj2 (fo_height _ _ _ Hf)). lia.
Qed.

Lemma requested_one :
  fs_height s + 1 < umax 64 → 0 ≤ fs_height s →
  requested_heights server (fs_height s + 1) 1 = [fs_height s + 1].
Proof.
  intros Hm Hnn. unfold requested_heights, saturating_add. unfold umax in *.
  replace (_ - _) with 1 by lia. rewrite seqZ_cons by lia. cbn. done.
Qed.
End serving.

(** The answers of the server decode to the block it stored. *)
Definition header_answer (block : ConsensusBlock) (header : bytes) : FinalizedHeader :=
  {| fh_height := ch_height (cb_header block); fh_header := header; fh_finality_proof := [] |}.

Definition body_answer (block : ConsensusBlock) (encoded : bytes) : BlockBody :=
  {| bb_height := ch_height (cb_header block); bb_block := encoded |}.

Definition verified_header (block : ConsensusBlock) : VerifiedHeader :=
  {| vh_header := cb_header block; vh_finality_proof := [] |}.

Definition block_answer (block : ConsensusBlock) (encoded : bytes) : FinalizedBlock :=
  {| fb_height := ch_height (cb_header block); fb_block := encoded; fb_finality_proof := [] |}.

Lemma header_encodes s block next encoded :
  follows s block next → decode_consensus_block encoded = Ok block →
  ∃ b, encode_consensus_header (cb_header block) = Ok b ∧ decode_consensus_header b = Ok (cb_header block).
Proof.
  intros [_ _ _ _ Hh] [[Hw _] _]%decode_block_sound. unfold consensus_header_hash in Hh.
  apply obind_Ok in Hh as (b & Hb & _). apply map_err_Ok in Hb. exists b. split; [done|].
  by apply (proj1 consensus_header_codec).
Qed.

Lemma serve_one_header server s block next header :
  fs_height s + 1 < umax 64 → fs_height s < fs_height (en_finalized server) → follows s block next →
  finalized_block fuel server (fs_height s + 1) = Ok (Some block) →
  encode_consensus_header (cb_header block) = Ok header →
  serve_headers fuel server (fs_height s + 1) 1 = Ok (Headers [header_answer block header]).
Proof.
  intros Hm Hlt [[Hnn _] [Hh _] _ _ _] Hf He. unfold serve_headers. rewrite requested_one by done.
  cbn [serve_heights]. rewrite Hf. cbn [map_err obind]. unfold header_item. rewrite He. cbn [map_err obind].
  unfold header_answer. by rewrite Hh.
Qed.

Lemma serve_one_body server s block next encoded :
  follows s block next → finalized_block fuel server (fs_height s + 1) = Ok (Some block) →
  decode_consensus_block encoded = Ok block →
  serve_bodies fuel server [fs_height s + 1] = Ok (BlockBodies [body_answer block encoded]).
Proof.
  intros [_ [Hh _] _ _ _] Hf [_ He]%decode_block_sound. unfold serve_bodies. cbn [serve_heights].
  rewrite Hf. cbn [map_err obind]. unfold body_item. rewrite He. cbn [map_err obind]. unfold body_answer. by rewrite Hh.
Qed.

(** ** Listening *)

Lemma sat_next s block next : follows s block next → saturating_add 64 (fs_height s) 1 = fs_height s + 1.
Proof. intros [[_ Hu] _ _ _ _]. unfold saturating_add, umax. unfold fits in Hu. lia. Qed.

(** The server's tip, when the block reaches it. *)
Definition reaches (server : SingleValidatorEngine) (s next : FinalizedChainState) : Prop :=
  fs_height s + 1 = fs_height (en_finalized server) → next = en_finalized server.

Lemma tip_agrees server s next (cp height : Z) (hash root : bytes) :
  reaches server s next → height = fs_height s + 1 → hash = fs_consensus_hash next → root = domain_heads_root next →
  (height =? sy_height (engine_status server cp)) &&
  (negb (bool_decide (hash = sy_consensus_hash (engine_status server cp))) ||
   negb (bool_decide (root = sy_domain_heads_root (engine_status server cp)))) = false.
Proof.
  intros Hr -> -> ->. cbn [engine_status sy_height sy_consensus_hash sy_domain_heads_root].
  destruct (Z.eqb_spec (fs_height s + 1) (fs_height (en_finalized server))) as [E|]; [|done].
  rewrite (Hr E). by rewrite !bool_decide_eq_true_2.
Qed.

Lemma verify_one server listener block next header cp :
  fs_height (en_finalized listener) < fs_height (en_finalized server) →
  follows (en_finalized listener) block next → reaches server (en_finalized listener) next →
  decode_consensus_header header = Ok (cb_header block) →
  verify_headers (engine_status listener 0) (engine_status server cp) [header_answer block header] =
    Ok [verified_header block].
Proof.
  intros Hlt Hf Hr Hd. pose proof (sat_next _ _ _ Hf) as Hsat. destruct Hf as [_ [Hh _] Hp Hroot Hhash].
  unfold verify_headers. change (MAX_HEADERS_PER_RESPONSE <? zlen [header_answer block header]) with false. cbn iota.
  rewrite (proj2 (Z.leb_gt _ _)) by done. cbn [length Nat.eqb for_each].
  unfold accept_header at 1. cbn [fh_height header_answer engine_status sy_height sy_consensus_hash].
  rewrite Hsat, Hh, Z.eqb_refl, (proj2 (Z.ltb_ge _ _)) by lia. cbn [negb orb fh_header header_answer]. rewrite Hd. cbn [map_err obind].
  rewrite Hh, Z.eqb_refl. cbn [negb]. rewrite bool_decide_eq_true_2 by done. cbn [negb].
  cbn [verify_header development_header_verifier development_verify_header fh_finality_proof header_answer length Nat.eqb map_err obind].
  rewrite Hhash. cbn [map_err obind app list.last vh_header].
  rewrite (tip_agrees server (en_finalized listener) next cp) by done. done.
Qed.

Lemma match_one block encoded :
  decode_consensus_block encoded = Ok block →
  finalized_blocks_from_bodies [verified_header block] [body_answer block encoded] = Ok [block_answer block encoded].
Proof.
  intros Hd. unfold finalized_blocks_from_bodies. cbn [length Nat.eqb negb zip zip_with collect].
  unfold match_body. cbn [bb_height body_answer vh_header verified_header bb_block]. rewrite Z.eqb_refl. cbn [negb].
  rewrite Hd. cbn [map_err obind]. by rewrite bool_decide_eq_true_2.
Qed.

Lemma commit_finalizes e vp r e' :
  commit_validated e vp = (r, e') →
  en_finalized e' = (if is_ok r then vp_resulting_state vp else en_finalized e) ∧ en_pending e' = en_pending e.
Proof.
  unfold commit_validated. destruct (prepare_commit e vp) as [[pool commit]|error|m]; [|by intros [= <- <-]..].
  destruct (database_commit _ _) as [stored d]. by destruct stored as [stats|error|m]; intros [= <- <-].
Qed.

Lemma check_one server listener block encoded next cp :
  fs_height (en_finalized listener) < fs_height (en_finalized server) →
  follows (en_finalized listener) block next → decode_consensus_block encoded = Ok block →
  check_block listener (engine_status server cp) (fs_height (en_finalized listener) + 1) (block_answer block encoded) =
    Ok (block, fs_consensus_hash next).
Proof.
  intros Hlt [_ [Hh _] _ _ Hhash] Hd. unfold check_block, validate_block_transport.
  cbn [fb_block block_answer fb_finality_proof fb_height engine_status sy_height].
  assert (encoded ≠ [] ∧ zlen encoded ≤ MAX_CONSENSUS_BLOCK_BYTES) as [Hne Hlen].
  { unfold decode_consensus_block in Hd. destruct (Z.ltb_spec MAX_CONSENSUS_BLOCK_BYTES (zlen encoded)) as [|Hl]; [done|].
    split; [|done]. intros ->. done. }
  rewrite (proj2 (Nat.eqb_neq _ _)), (proj2 (Z.ltb_ge _ _)) by (done || by destruct encoded).
  cbn [orb]. change (MAX_CONSENSUS_MESSAGE_BYTES <? zlen (@nil byte)) with false. cbn [map_err obind].
  rewrite Hh, Z.eqb_refl, (proj2 (Z.ltb_ge _ _)) by lia. cbn [negb orb]. rewrite Hd. cbn [map_err obind].
  rewrite Hh, Z.eqb_refl. cbn [negb]. unfold block_hash_of. rewrite Hhash. done.
Qed.

Lemma import_one server listener block encoded vp cp :
  fs_height (en_finalized listener) < fs_height (en_finalized server) → en_pending listener = None →
  follows (en_finalized listener) block (vp_resulting_state vp) →
  reaches server (en_finalized listener) (vp_resulting_state vp) →
  decode_consensus_block encoded = Ok block → validate_proposal (en_finalized listener) block = Ok vp →
  ∃ r e', commit_validated listener vp = (r, e') ∧
  import_response default_sync listener (engine_status server cp) [block_answer block encoded] =
    (match r with
     | Ok _ => Ok {| bs_before := engine_status listener (fs_height (en_finalized listener));
                     bs_after := engine_status e' (fs_height (en_finalized e')); bs_imported := 1 |}
     | Err error => Err (ApplicationFailed (consensus_text error))
     | Panic m => Panic m
     end, e').
Proof.
  intros Hlt Hpe Hf Hr Hd Hv. destruct (commit_validated listener vp) as [r e'] eqn:Hc. exists r, e'. split; [done|].
  apply commit_finalizes in Hc as Hfin. pose proof (sat_next _ _ _ Hf) as Hsat.
  unfold import_response. change (default_sync <? zlen [block_answer block encoded]) with false. cbn iota.
  cbn [status development_importer map_err length Nat.eqb]. cbn [engine_status sy_height] in *.
  rewrite (proj2 (Z.leb_gt _ _)), Hsat by done. cbn [import_blocks].
  rewrite (check_one server listener block encoded (vp_resulting_state vp)) by done.
  cbn [import_block development_importer]. unfold import_development_finalized_block. rewrite Hpe, Hv.
  cbn [chain_err map_err]. rewrite Hc. destruct r as [stats|error|m]; [|done..]. destruct Hfin as [Hfin _]. cbn [is_ok] in Hfin.
  rewrite Hfin. cbn [sy_height sy_consensus_hash engine_status]. rewrite Hfin, (proj2 (fo_height _ _ _ Hf)), Z.eqb_refl.
  rewrite bool_decide_eq_true_2 by done. cbn [negb orb].
  match goal with |- context [if ?b then _ else _] => replace b with false; [done|symmetry] end.
  apply (tip_agrees server (en_finalized listener) (vp_resulting_state vp) cp); [done| |..];
    cbn [engine_status sy_height sy_consensus_hash sy_domain_heads_root]; rewrite Hfin; try done.
  exact (proj2 (fo_height _ _ _ Hf)).
Qed.

Lemma sync_path_headers (n : Node) server peer cp block next :
  fs_height (en_finalized (nd_engine n)) < fs_height (en_finalized server) →
  follows (en_finalized (nd_engine n)) block next → (cp = 0 ∨ 0 < fs_height (en_finalized (nd_engine n))) →
  request_sync_path peer (engine_status server cp) n =
    send_request peer (RequestHeaders (fs_height (en_finalized (nd_engine n)) + 1) 1)
      (HeadersAction (engine_status server cp)) n.
Proof.
  intros Hlt Hf Hcp. pose proof (sat_next _ _ _ Hf) as Hsat. unfold request_sync_path, nbind, get.
  cbn [engine_status sy_height sy_checkpoint_height]. rewrite (proj2 (Z.leb_gt _ _)) by done.
  rewrite (proj2 (andb_false_iff _ _)) by (destruct Hcp; [right; apply Z.ltb_ge|left; apply Z.eqb_neq]; lia).
  unfold next_request. cbn [engine_status sy_height]. rewrite (proj2 (Z.leb_gt _ _)) by done. rewrite Hsat.
  replace (Z.min _ default_sync) with 1; [done|]. unfold default_sync, MAX_BLOCKS_PER_RESPONSE.
  destruct (try_from 16 _) as [z|] eqn:E; cbn [default]; [|done]. apply try_from_Some in E as [-> _]. cbn [id engine_status sy_height]. lia.
Qed.

(** C5. Block synchronization moves a node along the chain of the node it asks. Let a
    server be at a state of the invariant with a database that answers, and a listener,
    with no proposal of its own, be finalized at a state of the server's chain below the
    server's height, itself below the largest 64-bit number, where it would ask for
    blocks. Then the listener asks for exactly
    the next header, the server's answer passes every check of the header and makes the
    listener ask for exactly that body, and the server's answer to this passes every
    check of the body, whatever has happened to the rest of the listener meanwhile. What
    remains is the commit of the listener's own engine: when it succeeds the listener is
    finalized at the server's next state, which is the server's own if the heights agree,
    and goes on asking; when it fails the listener's finalized state is what it was and
    its handler reports that failure. *)
Theorem catch_up (server : Node) (listener : SingleValidatorEngine) (peer : PeerId) (cp : Z) s0 :
  engine_ok (nd_engine server) → answers (en_database (nd_engine server)) →
  chain_state (en_genesis (nd_engine server)) = Ok s0 →
  replayed (en_database (nd_engine server)) s0 (en_finalized listener) → en_pending listener = None →
  let h := fs_height (en_finalized listener) in
  let remote := engine_status (nd_engine server) cp in
  h < fs_height (en_finalized (nd_engine server)) < umax 64 → (cp = 0 ∨ 0 < h) →
  ∃ header body verified vp r e',
    replayed (en_database (nd_engine server)) s0 (vp_resulting_state vp) ∧
    fs_height (vp_resulting_state vp) = h + 1 ∧
    reaches (nd_engine server) (en_finalized listener) (vp_resulting_state vp) ∧
    commit_validated listener vp = (r, e') ∧
    en_finalized e' = (if is_ok r then vp_resulting_state vp else en_finalized listener) ∧ en_pending e' = None ∧
    (∀ inbound, ib_request inbound = RequestHeaders (h + 1) 1 →
      answer_request fuel inbound server = (Ok (Headers [header]), server)) ∧
    (∀ inbound, ib_request inbound = RequestBodies [h + 1] →
      answer_request fuel inbound server = (Ok (BlockBodies [body]), server)) ∧
    ∀ n, nd_engine n = listener →
      request_sync_path peer remote n = send_request peer (RequestHeaders (h + 1) 1) (HeadersAction remote) n ∧
      handle_response network_id genesis_hash peer (Some (HeadersAction remote)) (Headers [header]) n =
        send_request peer (RequestBodies [h + 1]) (BodiesAction remote [verified]) n ∧
      handle_response network_id genesis_hash peer (Some (BodiesAction remote [verified])) (BlockBodies [body]) n =
        match r with
        | Ok _ => request_sync_path peer remote (with_engine n e')
        | Err error => (Err (NodeNetwork (BlocksFailed (ApplicationFailed (consensus_text error)))), with_engine n e')
        | Panic m => (Panic m, with_engine n e')
        end.
Proof.
  intros Hok Ha H0' Hs Hpe h remote [Hlt Hmax] Hcp.
  destruct (served_next _ _ _ Hok Ha H0' Hs Hlt) as (block & encoded & vp & Hfb & Hd & Hv & Hf & Hr & Ht).
  destruct (header_encodes _ _ _ _ Hf Hd) as (hb & Hhe & Hhd).
  destruct (import_one (nd_engine server) listener block encoded vp cp Hlt Hpe Hf Ht Hd Hv) as (r & e' & Hc & Himp).
  destruct (commit_finalizes _ _ _ _ Hc) as [Hfin Hpe'].
  exists (header_answer block hb), (body_answer block encoded), (verified_header block), vp, r, e'.
  split_and!; try done; [exact (proj2 (fo_height _ _ _ Hf))|by rewrite Hpe'| | |].
  - intros inbound E. unfold h in E. unfold answer_request, nbind, get, lift. rewrite E.
    rewrite (serve_one_header _ _ block (vp_resulting_state vp) hb); try done. unfold h in Hlt. lia.
  - intros inbound E. unfold h in E. unfold answer_request, nbind, get, lift. rewrite E.
    by rewrite (serve_one_body _ _ block (vp_resulting_state vp) encoded).
  - intros n En. subst listener. split_and!.
    + by eapply sync_path_headers.
    + unfold handle_response, nbind, get, lift, remote.
      rewrite (verify_one (nd_engine server) (nd_engine n) block (vp_resulting_state vp) hb cp) by done. cbn [map_err fmap list_fmap].
      cbn [verified_header vh_header]. by rewrite (proj1 (fo_height _ _ _ Hf)).
    + unfold handle_response, nbind, lift. rewrite (match_one _ _ Hd). cbn [map_err]. unfold remote. rewrite Himp.
      by destruct r.
Qed.
End catching_up.

(** ** What stops the node *)

Section stopping.
Context `{Keccak, Secp256k1, AlloyRlp, !AlloyTrie, SenderRecovery, Journal, !Revm, AlloyRoots, ParityDb}.
Context `{Libp2p, !MdnsSd, ErrorText}.
Context (network_id : NetworkId) (genesis_hash : bytes) (fuel : nat).

(** Whether a response is one of those [handle_response] expects of an action. *)
Definition expected_of (a : PendingAction) (r : DirectResponse) : bool :=
  match a, r with
  | StatusAction, Status _ | ManifestAction _, ManifestBytes _ | ChunkAction _ _, ChunkBytes _
  | HeadersAction _, Headers _ | BodiesAction _ _, BlockBodies _ | _, Rejected _ => true
  | _, _ => false
  end.

(** An action that fails ends the turn where it failed. *)
Lemma turn_fails_at produce persistent wakes (n : Node) event s rest e n' :
  next_event (nd_network n) wakes = (Some event, s, rest) →
  dispatch network_id genesis_hash fuel event (with_network n s) = (Err e, n') →
  turn network_id genesis_hash fuel produce persistent (NetworkReady wakes) n = (Err e, n').
Proof.
  intros Hn Hd. unfold turn. rewrite Hn. unfold nbind at 1. unfold handle_network_event, nbind, get. by rewrite Hd.
Qed.

Lemma turn_fails produce persistent wakes (n : Node) event s rest e :
  next_event (nd_network n) wakes = (Some event, s, rest) →
  (dispatch network_id genesis_hash fuel event (with_network n s)).1 = Err e →
  (turn network_id genesis_hash fuel produce persistent (NetworkReady wakes) n).1 = Err e.
Proof.
  intros Hn Hd. destruct (dispatch _ _ _ _ _) as [r n'] eqn:E. cbn in Hd. subst r.
  by rewrite (turn_fails_at _ _ _ _ _ _ _ _ _ Hn E).
Qed.

(** C13. One message of a peer ends the node. While a request to a peer is outstanding,
    the peer may answer it with a response of another kind that passes the transport
    checks, for instance an empty history; only the acceptance of a handshake is
    excepted, which the service takes itself. The service rewards the peer for the
    response and hands it on, and the turn of the main loop fails, with which
    [run_dev_node] returns. *)
Theorem response_stops_node (n : Node) (peer : PeerId) (outbound : OutboundRequestId) id a response produce persistent rest :
  bget outbound (nw_pending (nd_network n)) = Some id → bget id (nd_actions n) = Some a →
  validate_response response = Ok tt → (∀ h, response ≠ HandshakeAccepted h) → expected_of a response = false →
  let after :=
    turn network_id genesis_hash fuel produce persistent
      (NetworkReady
         (SwarmWake (DirectResponseMessage peer outbound {| rs_request_id := id; rs_response := response |}) :: rest)) n in
  after.1 = Err (NodeNetwork (FailedWith "direct response does not match pending request")) ∧
  nw_peer_book (nd_network after.2) = reward (nw_peer_book (nd_network n)) peer.
Proof.
  intros Hp Ha Hv Hh He. cbv zeta.
  set (s := count (with_book (with_pending (nd_network n) (bremove outbound (nw_pending (nd_network n)))
    (nw_next_request_id (nd_network n))) (reward (nw_peer_book (nd_network n)) peer)) InboundResponses).
  erewrite (turn_fails_at _ _ _ _ (ResponseReceived peer id response) s rest _
    (with_actions (with_network n s) (bremove id (nd_actions n)))); [split; [done|reflexivity]| |].
  - cbn [next_event handle_swarm_event]. unfold handle_inbound_response. cbn [rs_request_id rs_response].
    rewrite Hp, bool_decide_eq_true_2 by done. cbn [negb]. rewrite Hv.
    destruct response; try reflexivity. by destruct (Hh h).
  - unfold dispatch, nbind, get, modify. cbn [nd_actions with_network with_actions]. rewrite Ha.
    by destruct a, response.
Qed.

(** A peer that asks and closes its connection before the answer stops the node as well. *)
Lemma closed_channel_stops_node (n : Node) wakes inbound response s rest n' produce persistent :
  next_event (nd_network n) wakes = (Some (RequestReceived inbound), s, rest) →
  answer_request fuel inbound (with_network n s) = (Ok response, n') → validate_response response = Ok tt →
  (send_response (nw_swarm (nd_network n')) (ib_channel inbound)
     {| rs_request_id := ib_request_id inbound; rs_response := response |}).1 = false →
  (turn network_id genesis_hash fuel produce persistent (NetworkReady wakes) n).1 =
  Err (NodeNetwork (ServiceFailed ResponseChannelClosed)).
Proof.
  intros Hn Ha Hv Hs. apply (turn_fails _ _ _ _ _ _ _ _ Hn). unfold dispatch, serve_request, nbind. rewrite Ha.
  unfold on_network, respond. rewrite Hv. cbn [map_err]. destruct (send_response _ _ _) as [sent w]. cbn in Hs. by rewrite Hs.
Qed.
End stopping.

(** ** What a rejected chunk leaves behind *)

Section stalling.
Context `{Keccak, Secp256k1, AlloyRlp, !AlloyTrie, SenderRecovery, Journal, !Revm, AlloyRoots, ParityDb}.
Context `{Libp2p, !MdnsSd, ErrorText}.
Context (network_id : NetworkId) (genesis_hash : bytes) (fuel : nat).
Context (peer : PeerId).

(** Nothing of the progress of synchronization has changed. *)
Record kept (n n' : Node) : Prop := {
  kp_finalized : en_finalized (nd_engine n') = en_finalized (nd_engine n);
  kp_actions : nd_actions n = [] → nd_actions n' = [];
  kp_download : bget peer (nd_downloads n') = bget peer (nd_downloads n);
}.

#[local] Instance kept_preorder : PreOrder kept.
Proof.
  split; [by intros n|]. intros n1 n2 n3 [A1 A2 A3] [B1 B2 B3]. split; [congruence|tauto|congruence].
Qed.

(** An action that keeps it. *)
Definition keeps {A : Type} (c : action A) : Prop := ∀ n, kept n (c n).2.

Lemma keeps_ret {A : Type} (a : A) : keeps (ret a).
Proof. by intros n. Qed.

Lemma keeps_fail {A : Type} e : keeps (A := A) (fail e).
Proof. by intros n. Qed.

Lemma keeps_get : keeps get.
Proof. by intros n. Qed.

Lemma keeps_lift {E A : Type} (why : E → DevNodeError) (c : outcome E A) : keeps (lift why c).
Proof. by intros n. Qed.

Lemma keeps_network {A : Type} (f : NetworkService → outcome NetworkError A * NetworkService) : keeps (on_network f).
Proof. intros n. unfold on_network. by destruct (f _). Qed.

Lemma keeps_bind {A B : Type} (c : action A) (k : A → action B) : keeps c → (∀ a, keeps (k a)) → keeps (nbind c k).
Proof.
  intros Hc Hk n. unfold nbind. specialize (Hc n). destruct (c n) as [[a|e|m] n']; [|done..].
  etrans; [exact Hc|apply Hk].
Qed.

Ltac keeps :=
  repeat first [apply keeps_ret | apply keeps_fail | apply keeps_get | apply keeps_lift | apply keeps_network
               | apply keeps_bind; [|intros ?]].

Lemma keeps_subscribe : keeps subscribe_domains.
Proof.
  unfold subscribe_domains. keeps.
  induction (fs_domains _) as [|e l IH]; cbn [foldr]; keeps. exact IH.
Qed.

Lemma keeps_serve inbound : keeps (serve_request fuel inbound).
Proof.
  unfold serve_request, answer_request. keeps. destruct (ib_request inbound); keeps.
  - destruct (bget checkpoint_height (nd_snapshots _)); keeps.
  - destruct (_ ≫= _); keeps.
  - intros n'. by destruct (try_send _ _).
Qed.

(** The events that make the node ask again. *)
Definition revives (event : NetworkEvent) : Prop :=
  match event with
  | PeerAuthenticated _ _ => True
  | PeerDisconnected p | RequestFailedEvent p _ _ => p = peer
  | _ => False
  end.

(** A download is open and no request is outstanding. *)
Definition stalled (n : Node) : Prop := nd_actions n = [] ∧ is_Some (bget peer (nd_downloads n)).

Lemma stalled_kept n n' : stalled n → kept n n' → stalled n'.
Proof. intros [Ha Hd] [_ K2 K3]. split; [auto|by rewrite K3]. Qed.

Lemma downloading n : stalled n → (length (nd_downloads n) =? 0)%nat = false.
Proof. intros [_ [d Hd]]. apply Nat.eqb_neq. by destruct (nd_downloads n). Qed.

Lemma dispatch_kept n event :
  stalled n → ¬ revives event → kept n (dispatch network_id genesis_hash fuel event n).2.
Proof.
  intros Hst Hr. pose proof Hst as [Ha _]. destruct event as [a|p a|p|p h|p why|p message|inbound|p id response|p id why];
    cbn [dispatch revives] in *; try done.
  - split; [done|done|]. cbn. by apply bget_bremove_ne.
  - destruct message as [id envelope|announcement].
    + split; [|done|done]. cbn. unfold submit_raw. by destruct (obind _ _) as [[pool st]|err|m].
    + unfold nbind, get. rewrite (downloading n Hst), andb_false_r. done.
  - apply keeps_serve.
  - unfold nbind, get, modify. rewrite Ha. cbn. by destruct response; split.
  - unfold nbind, modify. destruct id as [id|]; split; cbn; try done; try (by apply bget_bremove_ne).
    intros ->. done.
Qed.

Lemma reconnect_kept persistent n : stalled n → kept n (reconnect persistent n).2.
Proof.
  revert n. induction persistent as [|p persistent IH]; intros n Hst; [done|].
  assert (∃ n1, reconnect_peer p n = (Ok tt, n1) ∧ kept n n1) as (n1 & E & Hk).
  { unfold reconnect_peer, nbind, get, modify. destruct (negb _); [by eexists|].
    rewrite (downloading n Hst), andb_false_r. by eexists. }
  cbn [reconnect foldr]. unfold nbind. rewrite E. etrans; [exact Hk|]. apply IH. by eapply stalled_kept.
Qed.

(** A turn of a listening node in which nothing revives it. *)
Definition quiet_turn (n n' : Node) : Prop :=
  ∃ persistent w,
    (∀ wakes event, w = NetworkReady wakes → (next_event (nd_network n) wakes).1.1 = Some event → ¬ revives event) ∧
    n' = (turn network_id genesis_hash fuel false persistent w n).2.

Lemma quiet_kept n n' : stalled n → quiet_turn n n' → kept n n'.
Proof.
  intros Hst (persistent & w & Hw & ->). destruct w as [| | |wakes]; cbn [turn]; [done|by apply reconnect_kept|done|].
  specialize (Hw wakes). destruct (next_event _ _) as [[[event|] s] rest]; [|done]. specialize (Hw event eq_refl eq_refl).
  assert (stalled (with_network n s)) as Hst' by exact Hst.
  assert (kept n (dispatch network_id genesis_hash fuel event (with_network n s)).2) as Hk
    by (etrans; [|by apply dispatch_kept]; done).
  unfold handle_network_event. unfold nbind at 1 2, get at 1.
  unfold nbind at 1. destruct (dispatch _ _ _ _ _) as [[[]|e|m] n1]; [|exact Hk..].
  unfold nbind, get. cbn [snd] in Hk. rewrite (kp_finalized _ _ Hk), Z.eqb_refl. cbn [negb ret].
  etrans; [exact Hk|apply keeps_subscribe].
Qed.

(** C14. A rejected chunk leaves a node that does not synchronize. When the answer to its
    only outstanding request, one for a chunk, is a rejection, the listener accepts the
    rejection and keeps the download, with no request outstanding. From then on, whatever the ticks, the gossip of finalized blocks,
    requests, responses and discovered peers bring, in any number and order, it asks for
    nothing and its finalized state is the same, until the peer disconnects, the service
    reports a failed dial or request to it, or some peer authenticates. *)
Theorem chunk_rejection_stalls n n' id domain_id index code :
  nd_actions n = [(id, ChunkAction domain_id index)] → is_Some (bget peer (nd_downloads n)) →
  rtc quiet_turn (dispatch network_id genesis_hash fuel (ResponseReceived peer id (Rejected code)) n).2 n' →
  (dispatch network_id genesis_hash fuel (ResponseReceived peer id (Rejected code)) n).1 = Ok tt ∧
  en_finalized (nd_engine n') = en_finalized (nd_engine n) ∧ nd_actions n' = [] ∧
  bget peer (nd_downloads n') = bget peer (nd_downloads n).
Proof.
  intros Ha Hd. unfold dispatch, nbind, get, modify. rewrite Ha. cbn [bget bremove]. rewrite teqb_refl. cbn [handle_response ret fst snd].
  intros Hr. split; [done|].
  remember (with_actions n []) as n1 eqn:E1.
  assert (stalled n1 ∧ kept n n1) as [Hst Hk] by (subst n1; by repeat split).
  clear E1. induction Hr as [n1|n1 n2 n3 Hq _ IH].
  - destruct Hst as [Hs1 _]. destruct Hk as [K1 _ K3]. done.
  - apply quiet_kept in Hq; [|done]. apply IH; [by eapply stalled_kept|by etrans].
Qed.
End stalling.

(** ** The snapshots a node keeps *)

Section caching.
Context `{Keccak, Secp256k1, AlloyRlp, !AlloyTrie, SenderRecovery, Journal, !Revm, AlloyRoots, ParityDb}.
Context `{Libp2p, !MdnsSd, ErrorText}.

(** The loop drops the oldest snapshots and nothing else, in the steps it is given. *)
Lemma evict_drops steps (m : btree Z SnapshotBundle) :
  sorted m → (length m - 4 ≤ steps)%nat → evict steps m = drop (length m - 4) m.
Proof.
  revert m. induction steps as [|steps IH]; intros m Hs Hle; [by replace (length m - 4)%nat with 0%nat by lia|].
  cbn [evict]. unfold zlen, SNAPSHOT_CACHE_COUNT. destruct (Z.ltb_spec 4 (Z.of_nat (length m))) as [Hl|Hl].
  - destruct m as [|[k b] m]; [done|]. cbn [bkeys fmap list_fmap head bremove fst length] in *. rewrite teqb_refl.
    apply sorted_NoDup in Hs as Hnd. apply list.NoDup_cons in Hnd as [Hk _]. apply StronglySorted_inv in Hs as [Hs _].
    rewrite bremove_None by (by apply bget_None). rewrite IH by (done || lia).
    by replace (S (length m) - 4)%nat with (S (length m - 4)) by lia.
  - by replace (length m - 4)%nat with 0%nat by lia.
Qed.

Lemma cache_bounded genesis_hash (n n' : Node) :
  sorted (nd_snapshots n) → cache_snapshot genesis_hash n = (Ok tt, n') → fs_height (en_finalized (nd_engine n)) ≠ 0 →
  ∃ bundle,
    produce (en_finalized (nd_engine n)) genesis_hash (gn_validator_set (en_genesis (nd_engine n))) [] = Ok bundle ∧
    let all := binsert (fs_height (en_finalized (nd_engine n))) bundle (nd_snapshots n) in
    nd_snapshots n' = drop (length all - 4) all ∧ zlen (nd_snapshots n') ≤ SNAPSHOT_CACHE_COUNT.
Proof.
  unfold cache_snapshot, nbind, get, lift, modify. intros Hs Hc Hh. rewrite (proj2 (Z.eqb_neq _ _) Hh) in Hc.
  cbn [development_checkpoint ckd_state ckd_validator_set ckd_finality_proof] in Hc.
  destruct (produce _ _ _ _) as [bundle|e|m]; cbn [map_err] in Hc; [|done..]. injection Hc as <-. exists bundle. split; [done|].
  cbn [nd_snapshots with_snapshots]. rewrite evict_drops; [split; [done|]|by apply sorted_binsert|apply Nat.le_sub_l].
  unfold zlen, SNAPSHOT_CACHE_COUNT. rewrite length_drop. lia.
Qed.
End caching.

Module NodeWitness.
Import ExecutorWitness ChainWitness TypingWitness EngineWitness ServiceWitness.
#[local] Existing Instance mixed_keccak.
#[local] Existing Instance mixed_trie.
#[local] Existing Instance Toy.toy_secp.
#[local] Existing Instance spec_rlp.
#[local] Existing Instance RegistryWitness.toy.
#[local] Existing Instance toy_recovery.
#[local] Existing Instance toy_revm.
#[local] Existing Instance toy_roots.
#[local] Existing Instance toy_roots_laws.
#[local] Existing Instance spec_rlp_laws.
#[local] Existing Instance StorageWitness.toy_parity.
#[local] Existing Instance StorageWitness.toy_parity_laws.
#[local] Existing Instance toy_libp2p.
#[local] Existing Instance toy_mdns.

#[local] Instance toy_text : ErrorText := {| consensus_text _ := "failed"%string |}.

Definition node_of (e : SingleValidatorEngine) (s : NetworkService) : Node :=
  {| nd_engine := e; nd_network := s; nd_snapshots := []; nd_mailbox := {| mb_capacity := 64; mb_queue := []; mb_closed := false |};
     nd_actions := []; nd_downloads := [] |}.

Definition server : Node := node_of engine3 greeted.

Lemma dev_start : chain_state dev = Ok (en_finalized engine0).
Proof. by_evaluation. Qed.

Lemma server_height : fs_height (en_finalized engine3) = 1.
Proof. by_evaluation. Qed.

Lemma listener_height : fs_height (en_finalized engine0) = 0.
Proof. by_evaluation. Qed.

Lemma listener_idle : en_pending engine0 = None.
Proof. by_evaluation. Qed.

Lemma engine3_ok : engine_ok engine3 ∧ en_genesis engine3 = dev.
Proof.
  exact (reached_ok 0 dev fresh default_config All engine0 opened.2 engine3 dev_wf fresh_marker fresh_checkpoint opened_first
    engine3_reached).
Qed.

Lemma one_behind : fs_height (en_finalized engine0) + 1 = fs_height (en_finalized (nd_engine server)).
Proof. rewrite listener_height. symmetry. exact server_height. Qed.

(** A listener at genesis catches up with the server's first block. *)
Lemma catch_up_witness :
  ∃ vp r e', commit_validated engine0 vp = (r, e') ∧ vp_resulting_state vp = en_finalized (nd_engine server) ∧
    en_finalized e' = (if is_ok r then en_finalized (nd_engine server) else en_finalized engine0).
Proof.
  destruct engine3_ok as [Hok Hg].
  destruct (catch_up (repeat_byte 32 17) (repeat_byte 32 34) 0 server engine0 seven 0 (en_finalized engine0)) as
    (header & body & verified & vp & r & e' & _ & _ & Hr & Hc & Hf & _).
  - exact Hok.
  - exact (StorageWitness.toy_answers _).
  - change (chain_state (en_genesis engine3) = Ok (en_finalized engine0)). rewrite Hg. exact dev_start.
  - apply replayed_none.
  - exact listener_idle.
  - change (fs_height (en_finalized engine0) < fs_height (en_finalized engine3) < umax 64).
    rewrite server_height, listener_height. split; reflexivity.
  - left. reflexivity.
  - pose proof (Hr one_behind) as E. exists vp, r, e'. split; [exact Hc|]. split; [exact E|]. rewrite Hf, E. reflexivity.
Defined.

(** The node has asked the peer 7 for its status. *)
Definition asking : Node := (send_request seven RequestStatus StatusAction (node_of engine0 greeted)).2.

Definition asked_outbound : OutboundRequestId := 1.

Lemma response_stops_node_witness :
  let after :=
    turn (repeat_byte 32 17) (repeat_byte 32 34) 0 false []
      (NetworkReady
         [SwarmWake (DirectResponseMessage seven asked_outbound {| rs_request_id := 2; rs_response := ConsensusAccepted |})])
      asking in
  after.1 = Err (NodeNetwork (FailedWith "direct response does not match pending request")) ∧
  nw_peer_book (nd_network after.2) = reward (nw_peer_book (nd_network asking)) seven.
Proof.
  apply (response_stops_node (repeat_byte 32 17) (repeat_byte 32 34) 0 asking seven asked_outbound 2 StatusAction ConsensusAccepted
    false [] []); [reflexivity..|discriminate|reflexivity].
Defined.

Definition empty_manifest : CheckpointManifest :=
  {| km_network_id := repeat_byte 32 17; km_genesis_hash := repeat_byte 32 34; km_height := 9;
     km_consensus_hash := repeat_byte 32 1; km_timestamp := 1; km_validator_set_hash := repeat_byte 32 2;
     km_next_validator_set_hash := repeat_byte 32 2; km_validator_set := {| vs_epoch := 0; vs_validators := [] |};
     km_domain_heads_root := repeat_byte 32 3; km_root_domain_id := root_id; km_governance_address := repeat_byte 20 15;
     km_finality_proof := []; km_domains := [] |}.

Definition download : SnapshotDownload :=
  {| dl_remote := {| sy_height := 12; sy_consensus_hash := repeat_byte 32 1; sy_domain_heads_root := repeat_byte 32 3;
                     sy_checkpoint_height := 9 |};
     dl_staging := {| ss_manifest := empty_manifest; ss_chunks := []; ss_expected := []; ss_staged_bytes := 0 |};
     dl_remaining := [] |}.

Definition downloads7 : btree PeerId SnapshotDownload := [(seven, download)].

Definition downloading7 : Node :=
  with_downloads (with_actions (node_of engine0 greeted) [(2, ChunkAction root_id 0)]) downloads7.

Definition rejected : Node :=
  (dispatch (repeat_byte 32 17) (repeat_byte 32 34) 0 (ResponseReceived seven 2 (Rejected 404)) downloading7).2.

(** The reconnect tick for the peer of the download. *)
Definition after_tick : Node :=
  (turn (repeat_byte 32 17) (repeat_byte 32 34) 0 false [{| pr_peer_id := seven; pr_address := [Ip4 0; Tcp 0] |}] ReconnectTick rejected).2.

Lemma chunk_rejection_stalls_witness :
  nd_actions after_tick = [] ∧ bget seven (nd_downloads after_tick) = Some download.
Proof.
  destruct (chunk_rejection_stalls (repeat_byte 32 17) (repeat_byte 32 34) 0 seven downloading7 after_tick 2 root_id 0 404) as (_ & _ & Ha & Hd).
  - reflexivity.
  - exists download. reflexivity.
  - apply rtc_once. exists [{| pr_peer_id := seven; pr_address := [Ip4 0; Tcp 0] |}], ReconnectTick.
    split; [discriminate|reflexivity].
  - split; [exact Ha|exact Hd].
Defined.
End NodeWitness.
