(* ===== verification/SnapshotSync.v ===== *)
(** A node that starts by fetching a snapshot (src/crates/arbor-node/src/networked.rs over
    src/crates/arbor-network/src/snapshot.rs).

    Main result: [snapshot_sync] (a listener that is sent the answers of an honest server
    has asked for each of them, fails on none and hands exactly the server's finalized
    state to its engine). *)

From Stdlib Require Import Strings.Byte Strings.String.
From S2P Require Import Prelude Bytes BTreeMap Primitives Canonical Cursor Rlp Crypto Ethereum StateError.
From S2P Require Import Snapshot DomainHeads System Registry Trie Mpt MptBuild Account Overlay Mempool Storage.
From S2P Require Import Evm Executor Merkle ChainBlock ChainState Chain Typing DevGenesis EngineCheckpoint Engine.
From S2P Require Import EngineRestart EngineSteps Protocol Sync SnapshotTransfer SnapshotStage Peer Gossip Service.
From S2P Require Import ServiceSafety Node NodeSync.

Local Open Scope Z_scope.
Local Open Scope node_scope.

(** The chunks of a manifest in the order in which they are asked for. *)
Definition chunk_keys (m : CheckpointManifest) : list (DomainId * Z) :=
  km_domains m ≫= λ d, (λ c, (kd_domain_id d, sc_index c)) <$> sm_chunks (kd_state d).

Section bundle.
Context `{Keccak, Secp256k1, AlloyRlp, !AlloyTrie, SenderRecovery, Journal, !Revm, AlloyRoots}.
Context (state : FinalizedChainState) (genesis_hash : bytes) (vs : ValidatorSet) (bundle : SnapshotBundle).
Context (Htyped : chain_typed state) (Hgenesis : is_b256 genesis_hash) (Hvs : wf_validator_set vs).
Context (Hproduce : produce state genesis_hash vs [] = Ok bundle).

Definition chunk_size (key : DomainId * Z) : Z :=
  match bundle_chunk bundle key.1 key.2 with Some v => zlen v | None => 0 end.

Lemma bundle_shape : shape_ok (sb_manifest bundle).
Proof. by apply produce_Ok in Hproduce as (ds & _ & _ & _ & Hs & _); [|apply Htyped]. Qed.

(** Every key has a chunk in the bundle, which is the one the manifest declares. *)
Lemma bundle_serves key :
  key ∈ chunk_keys (sb_manifest bundle) →
  ∃ c v, bget key (expected_chunks (sb_manifest bundle)) = Some c ∧ bundle_chunk bundle key.1 key.2 = Some v ∧
    verify_chunk c v = true.
Proof.
  intros Hk. apply list_elem_of_bind in Hk as (kd & Hk & Hkd). apply list_elem_of_fmap in Hk as (c & -> & Hc).
  exists c. pose proof (expected_lookup _ _ _ bundle_shape Hkd Hc) as He.
  apply produce_Ok in Hproduce as (ds & Em & Hds & Hsv & _); [|apply Htyped]. rewrite Em in Hkd. cbn [manifest_of km_domains] in Hkd.
  apply list_elem_of_lookup in Hkd as [i Hi]. destruct (Forall2_lookup_r _ _ _ _ _ Hds Hi) as (e & Hel & Hpd).
  destruct (served_verifies bundle state e kd c Hpd) as (v & Hv & Hver); [by eapply (proj1 (Forall_lookup _ _) Hsv)|done|].
  by exists v.
Qed.

Lemma expected_keys key : is_Some (bget key (expected_chunks (sb_manifest bundle))) ↔ key ∈ chunk_keys (sb_manifest bundle).
Proof.
  split; [|by intros (c & v & -> & _)%bundle_serves].
  intros [c Hc]. unfold expected_chunks in Hc. change (bcollect ?l) with (bextend [] l) in Hc.
  apply bget_bextend_inv in Hc as [Hc|Hc]; [done|].
  apply list_elem_of_bind in Hc as (kd & Hc & Hkd). apply list_elem_of_fmap in Hc as (x & [= -> ->] & Hx).
  apply list_elem_of_bind. exists kd. split; [|done]. apply list_elem_of_fmap. by exists x.
Qed.

(** Keys are distinct, and there are as many as chunks are expected. *)
Lemma keys_distinct : NoDup (chunk_keys (sb_manifest bundle)).
Proof.
  pose proof bundle_shape as Hs. unfold chunk_keys. pose proof (StronglySorted_NoDup _ (so_sorted _ Hs)) as Hn.
  pose proof (so_domains _ Hs) as Hd. revert Hn Hd. induction (km_domains (sb_manifest bundle)) as [|kd l IH]; [constructor|].
  cbn [fmap list_fmap]. intros [Hx Hn]%list.NoDup_cons Hd. cbn [mbind list_bind]. apply list.NoDup_app. split_and!.
  - pose proof (Hd kd ltac:(by left)) as Hv. unfold validate_domain in Hv. apply obind_Ok in Hv as ([] & Hv & _).
    apply map_err_Ok, validate_manifest_Ok in Hv as [_ Hi]. apply NoDup_alt. intros i j k Hi' Hj'.
    rewrite list_lookup_fmap in Hi', Hj'.
    destruct (sm_chunks (kd_state kd) !! i) as [ci|] eqn:Ei, (sm_chunks (kd_state kd) !! j) as [cj|] eqn:Ej; try done.
    injection Hi' as <-. injection Hj' as Ec. destruct (Hi _ _ Ei) as [E1 _], (Hi _ _ Ej) as [E2 _]. lia.
  - intros key Hk Hk'. apply list_elem_of_fmap in Hk as (c & -> & _). apply list_elem_of_bind in Hk' as (kd' & Hk' & Hkd').
    apply list_elem_of_fmap in Hk' as (c' & [= E _] & _). apply Hx. rewrite E. apply list_elem_of_fmap. by exists kd'.
  - apply IH; [done|]. intros d Hd'. apply Hd. by right.
Qed.

Lemma expected_length : length (expected_chunks (sb_manifest bundle)) = length (chunk_keys (sb_manifest bundle)).
Proof.
  assert (bkeys (expected_chunks (sb_manifest bundle)) ≡ₚ chunk_keys (sb_manifest bundle)) as Hp.
  { apply NoDup_Permutation; [apply sorted_NoDup, sorted_bcollect|apply keys_distinct|]. intros key. rewrite bkeys_elem. apply expected_keys. }
  apply Permutation_length in Hp. unfold bkeys in Hp. by rewrite length_fmap in Hp.
Qed.

(** A staging that holds the bundle's chunks of the first keys. *)
Record fetched (keys : list (DomainId * Z)) (s : SnapshotStaging) : Prop := {
  ft_staging : staging_ok (sb_manifest bundle) s;
  ft_chunks : ∀ key, bget key (ss_chunks s) = if decide (key ∈ keys) then bundle_chunk bundle key.1 key.2 else None;
  ft_length : length (ss_chunks s) = length keys;
  ft_bytes : ss_staged_bytes s = zsum chunk_size keys;
}.

Lemma fetched_complete keys s :
  fetched keys s → is_complete s = (length keys =? length (chunk_keys (sb_manifest bundle)))%nat.
Proof. intros [Hs _ Hl _]. unfold is_complete. by rewrite Hl, (sg_expected _ _ Hs), expected_length. Qed.

(** The whole transfer is within the limit of a staging. *)
Context (Hsize : zsum chunk_size (chunk_keys (sb_manifest bundle)) ≤ MAX_SNAPSHOT_TOTAL_BYTES).

Lemma sizes_nonneg keys : 0 ≤ zsum chunk_size keys.
Proof.
  induction keys as [|key keys IH]; cbn [zsum foldr]; [done|]. change (foldr _ 0 keys) with (zsum chunk_size keys).
  unfold chunk_size at 1. destruct (bundle_chunk _ _ _) as [v|]; [pose proof (zlen_nonneg v)|]; lia.
Qed.

Lemma stage_next keys key rest s :
  chunk_keys (sb_manifest bundle) = keys ++ key :: rest → fetched keys s →
  ∃ v s', bundle_chunk bundle key.1 key.2 = Some v ∧ stage_chunk s key.1 key.2 v = Ok s' ∧ fetched (keys ++ [key]) s'.
Proof.
  intros Hk Hf. pose proof Hf as [Hs Hc Hl Hb]. pose proof keys_distinct as Hn. rewrite Hk in Hn.
  apply list.NoDup_app in Hn as (_ & Hn & _). assert (key ∉ keys) as Hnew by (intros Hin; apply (Hn key Hin); by left).
  destruct (bundle_serves key) as (c & v & He & Hv & Hver); [rewrite Hk; apply elem_of_app; right; by left|].
  assert (bget key (ss_chunks s) = None) as Hnone by (rewrite Hc; by rewrite decide_False).
  assert (chunk_size key = zlen v) as Hsz by (unfold chunk_size; by rewrite Hv).
  assert (ss_staged_bytes s + zlen v ≤ MAX_SNAPSHOT_TOTAL_BYTES) as Hfit.
  { rewrite Hk, zsum_app in Hsize. cbn [zsum foldr] in Hsize. change (foldr _ 0 rest) with (zsum chunk_size rest) in Hsize.
    pose proof (sizes_nonneg rest). lia. }
  assert (∃ s', stage_chunk s key.1 key.2 v = Ok s' ∧ ss_chunks s' = binsert key v (ss_chunks s) ∧
    ss_staged_bytes s' = ss_staged_bytes s + zlen v) as (s' & Hst & Hc' & Hb').
  { unfold stage_chunk. destruct key as [id i]. cbn [fst snd]. rewrite (sg_expected _ _ Hs), He. cbn [ok_or obind].
    rewrite Hver, Hnone. cbn [negb]. unfold checked_add.
    rewrite (proj2 (Z.ltb_lt _ _)) by (unfold MAX_SNAPSHOT_TOTAL_BYTES in Hfit; lia). cbn [ok_or obind].
    rewrite (proj2 (Z.ltb_ge _ _)) by done. by eexists. }
  exists v, s'. split_and!; [done|done|]. split.
  - by apply (stage_chunk_ok _ _ _ _ _ _ Hs Hst).
  - intros k. rewrite Hc', bget_binsert. destruct (teqb k key) eqn:E.
    + apply teqb_eq in E as ->. by rewrite decide_True by (apply elem_of_app; right; by left).
    + apply teqb_neq in E. rewrite Hc. destruct (decide (k ∈ keys)) as [Hin|Hout].
      * by rewrite decide_True by (apply elem_of_app; by left).
      * rewrite decide_False; [done|]. by intros [Hin|Hin%list_elem_of_singleton]%elem_of_app.
  - rewrite Hc', length_binsert by apply Hs. unfold bcontains. rewrite Hnone, Hl, length_app. cbn. lia.
  - rewrite Hb', Hb, zsum_app. cbn [zsum foldr]. lia.
Qed.

(** All chunks of the bundle finish as its state. *)
Lemma fetched_finish s :
  fetched (chunk_keys (sb_manifest bundle)) s → from_checkpoint (checkpoint state) = Ok state →
  (∀ id fd, (id, fd) ∈ fs_domains state → reload (fd_state fd) = Ok (fd_state fd)) →
  finish s = Ok {| si_state := state; si_validator_set := vs; si_finality_proof := [] |}.
Proof.
  intros Hf Hck Hre. assert (is_complete s = true) as Hcomp by (rewrite (fetched_complete _ _ Hf); apply Nat.eqb_refl).
  destruct (finish_reimports _ _ _ _ _ _ Htyped Hproduce (ft_staging _ _ Hf) Hcomp) as [->|(key & p & q & Hp & Hq & Hne & _)].
  - by apply reimport_exact.
  - rewrite (ft_chunks _ _ Hf) in Hq. destruct (decide _); [|done]. congruence.
Qed.

(** There is always something to fetch. *)
Lemma keys_nonempty : chunk_keys (sb_manifest bundle) ≠ [].
Proof.
  pose proof (so_count _ bundle_shape) as [Hc _]. apply produce_Ok in Hproduce as (ds & Em & Hds & _); [|apply Htyped].
  unfold chunk_keys. rewrite Em in Hc |- *. cbn [manifest_of km_domains] in *.
  destruct Hds as [|e kd l ds (chunks & descriptors & hp & He & Hd & _ & ->) _]; [done|].
  unfold encode_state_chunks in He. apply chunk_loop_Ok in He as (_ & _ & _ & _ & _ & _ & _ & Hne).
  apply describe_chunks_Ok in Hd as [El _]. cbn. destruct descriptors; [by destruct chunks|done].
Qed.
End bundle.

(** ** The session *)

Section session.
Context `{Keccak, Secp256k1, AlloyRlp, !AlloyTrie, SenderRecovery, Journal, !Revm, AlloyRoots, ParityDb}.
Context `{Libp2p, !MdnsSd, ErrorText}.
Context (network_id : NetworkId) (genesis_hash : bytes) (fuel : nat).

(** Whether the service lets requests for snapshots to the peer through. *)
Definition may_fetch (s : NetworkService) (peer : PeerId) : Prop :=
  check_request s peer (RequestManifest 0) = Ok tt.

Lemma fetch_sends (n : Node) (peer : PeerId) height domain_id index :
  may_fetch (nd_network n) peer →
  ∃ id s, send_request peer (RequestChunk height domain_id index) (ChunkAction domain_id index) n =
      (Ok tt, with_actions (with_network n s) (binsert id (ChunkAction domain_id index) (nd_actions n))) ∧
    may_fetch s peer.
Proof.
  intros Hm. unfold send_request, nbind, on_network, Service.request, modify.
  assert (check_request (nd_network n) peer (RequestChunk height domain_id index) = Ok tt) as -> by exact Hm.
  cbn [allocate_request_id]. destruct (Service.send_request _ _ _) as [outbound swarm]. cbn [map_err].
  eexists _, _. split; [done|]. exact Hm.
Qed.

(** The node receives responses of a peer, one after another, each under the id of the
    request it answers. *)
Fixpoint exchange (peer : PeerId) (responses : list (Z * DirectResponse)) : action unit :=
  match responses with
  | [] => ret tt
  | (id, response) :: responses =>
      run* dispatch network_id genesis_hash fuel (ResponseReceived peer id response) in
      exchange peer responses
  end.

Lemma response_dispatched (n : Node) (peer : PeerId) id a response :
  bget id (nd_actions n) = Some a →
  dispatch network_id genesis_hash fuel (ResponseReceived peer id response) n =
    handle_response network_id genesis_hash peer (Some a) response (with_actions n (bremove id (nd_actions n))).
Proof. intros Ha. cbn [dispatch]. unfold nbind, get, modify. by rewrite Ha. Qed.
End session.

(** ** A session with an honest server *)

Section honest.
Context `{Keccak, Secp256k1, AlloyRlp, !AlloyTrie, SenderRecovery, Journal, !Revm, AlloyRoots, ParityDb}.
Context `{Libp2p, !MdnsSd, ErrorText}.
Context (network_id : NetworkId) (genesis_hash : bytes) (fuel : nat).
Context (state : FinalizedChainState) (vs : ValidatorSet) (bundle : SnapshotBundle) (manifest : bytes).
Context (Htyped : chain_typed state) (Hgenesis : is_b256 genesis_hash) (Hvs : wf_validator_set vs).
Context (Hproduce : produce state genesis_hash vs [] = Ok bundle) (Hmanifest : bundle_manifest_bytes bundle = Ok manifest).
Context (Hnetwork : fs_network_id state = network_id).
Context (Hsize : zsum (chunk_size bundle) (chunk_keys (sb_manifest bundle)) ≤ MAX_SNAPSHOT_TOTAL_BYTES).
Context (Hcheckpoint : from_checkpoint (checkpoint state) = Ok state).
Context (Hreload : ∀ id fd, (id, fd) ∈ fs_domains state → reload (fd_state fd) = Ok (fd_state fd)).
Context (remote : SyncStatus) (Hremote : sy_checkpoint_height remote = fs_height state) (peer : PeerId).

Definition download_of (s : SnapshotStaging) (todo : list (DomainId * Z)) : SnapshotDownload :=
  {| dl_remote := remote; dl_staging := s; dl_remaining := todo |}.

(** The node has fetched the chunks of [keys], waits for the next one and has [todo] left. *)
Record fetching (e : SingleValidatorEngine) (keys todo : list (DomainId * Z)) (n : Node) : Prop := {
  fg_engine : nd_engine n = e;
  fg_staging : ∃ s, bget peer (nd_downloads n) = Some (download_of s todo) ∧ fetched bundle keys s;
  fg_gate : may_fetch (nd_network n) peer;
}.

(** The node has asked for a chunk under the id. *)
Definition asked (key : DomainId * Z) (id : Z) (n : Node) : Prop :=
  bget id (nd_actions n) = Some (ChunkAction key.1 key.2).

Lemma manifest_facts :
  decode_checkpoint_manifest manifest = Ok (sb_manifest bundle) ∧ km_network_id (sb_manifest bundle) = network_id ∧
  km_genesis_hash (sb_manifest bundle) = genesis_hash ∧ km_height (sb_manifest bundle) = fs_height state ∧
  km_finality_proof (sb_manifest bundle) = [].
Proof.
  pose proof Hproduce as (ds & Em & Hds & _)%produce_Ok; [|apply Htyped]. unfold bundle_manifest_bytes in Hmanifest.
  rewrite Em in Hmanifest |- *. split; [|done].
  apply manifest_decodes; [by eapply produced_manifest_wf|done].
Qed.

(** Asking for the next chunk. *)
Lemma next_chunk (n : Node) e keys key todo s :
  nd_engine n = e → bget peer (nd_downloads n) = Some (download_of s (key :: todo)) → fetched bundle keys s →
  may_fetch (nd_network n) peer →
  ∃ id n', request_next_chunk peer n = (Ok tt, n') ∧ fetching e keys todo n' ∧ asked key id n'.
Proof.
  intros He Hd Hf Hm. unfold request_next_chunk. unfold nbind at 1, get. rewrite Hd. cbn [download_of dl_remaining dl_remote dl_staging].
  destruct key as [id i]. unfold nbind, modify.
  set (n1 := with_downloads n _). destruct (fetch_sends n1 peer (sy_checkpoint_height remote) id i) as (rid & s' & E & Hm'); [exact Hm|].
  unfold nbind in E. rewrite E. eexists rid, _. split; [done|]. split; [|apply bget_binsert_eq]. split; [exact He| |exact Hm'].
  exists s. split; [|done]. cbn. apply bget_binsert_eq.
Qed.

Lemma begin_fetching (n : Node) :
  may_fetch (nd_network n) peer →
  ∃ key todo id n', chunk_keys (sb_manifest bundle) = key :: todo ∧
    handle_response network_id genesis_hash peer (Some (ManifestAction remote)) (ManifestBytes manifest) n = (Ok tt, n') ∧
    fetching (nd_engine n) [] todo n' ∧ asked key id n'.
Proof.
  intros Hm. destruct manifest_facts as (Hd & Hn & Hg & Hh & Hp).
  destruct (chunk_keys (sb_manifest bundle)) as [|key todo] eqn:Ek; [by destruct (keys_nonempty _ _ _ _ Htyped Hproduce)|].
  exists key, todo. cbn [handle_response]. unfold begin_snapshot_download. unfold nbind at 1, lift at 1. rewrite Hd. cbn [map_err].
  rewrite Hh, Hremote, Z.eqb_refl. cbn [negb]. unfold nbind at 1, lift at 1. unfold new_staging. rewrite Hd. cbn [obind].
  rewrite Hn, Hg, !bool_decide_eq_true_2 by done. cbn [negb orb verify_checkpoint development_checkpoint_verifier].
  unfold development_verify_checkpoint. rewrite Hp. cbn [length Nat.eqb map_err obind]. unfold nbind at 1, modify at 1.
  match goal with |- context [request_next_chunk peer ?x] => destruct (next_chunk x (nd_engine n) [] key todo
    {| ss_manifest := sb_manifest bundle; ss_chunks := []; ss_expected := expected_chunks (sb_manifest bundle); ss_staged_bytes := 0 |})
    as (id & n' & E & Hf) end; [done| | |exact Hm|by exists id, n'].
  - cbn [with_downloads nd_downloads]. rewrite bget_binsert_eq. unfold download_of. by rewrite <- Ek.
  - split; [|by intros k|done|done]. split; try done. constructor.
Qed.

(** One chunk staged: what [accept_snapshot_chunk] does up to its check of completeness. *)
Lemma chunk_staged (n : Node) e keys key todo :
  fetching e keys todo n → chunk_keys (sb_manifest bundle) = keys ++ key :: todo →
  ∃ v s' , bundle_chunk bundle key.1 key.2 = Some v ∧ fetched bundle (keys ++ [key]) s' ∧
    accept_snapshot_chunk peer key.1 key.2 v n =
      nbind (request_next_chunk peer) (λ _ n,
        (if negb (match bget peer (nd_downloads n) with Some d => is_complete (dl_staging d) | None => false end) then ret tt
         else
           let* download :=
             lift NodeNetwork (ok_or (bget peer (nd_downloads n)) (FailedWith "snapshot session disappeared")) in
           run* modify (λ n, with_downloads n (bremove peer (nd_downloads n))) in
           let* imported := lift (λ e, NodeNetwork (SnapshotFailed e)) (finish (dl_staging download)) in
           run* on_engine (λ e, import_development_checkpoint e
                   {| ckd_state := si_state imported; ckd_validator_set := si_validator_set imported;
                      ckd_finality_proof := si_finality_proof imported |}) in
           request_sync_path peer (dl_remote download)) n)
      (with_downloads n (binsert peer (download_of s' todo) (nd_downloads n))).
Proof.
  intros [_ (s & Hd & Hf) _] Hk.
  destruct (stage_next _ _ _ _ Htyped Hproduce Hsize _ _ _ _ Hk Hf) as (v & s' & Hv & Hst & Hf').
  exists v, s'. split_and!; [done|done|]. unfold accept_snapshot_chunk, nbind, get, lift, modify. rewrite Hd. cbn [ok_or map_err].
  cbn [download_of dl_staging dl_remote dl_remaining]. rewrite Hst. reflexivity.
Qed.

Definition chunk_of_key (key : DomainId * Z) : bytes := default [] (bundle_chunk bundle key.1 key.2).

(** A chunk that is not the last makes the node ask for the next. *)
Lemma accept_middle (n : Node) e keys key key' todo :
  fetching e keys (key' :: todo) n → chunk_keys (sb_manifest bundle) = keys ++ key :: key' :: todo →
  ∃ id n', handle_response network_id genesis_hash peer (Some (ChunkAction key.1 key.2)) (ChunkBytes (chunk_of_key key)) n = (Ok tt, n') ∧
    fetching e (keys ++ [key]) todo n' ∧ asked key' id n'.
Proof.
  intros Hfg Hk. destruct (chunk_staged n e keys key (key' :: todo) Hfg Hk) as (v & s' & Hv & Hf & Ea).
  cbn [handle_response]. unfold chunk_of_key. rewrite Hv. change (default [] (Some v)) with v. rewrite Ea.
  destruct (next_chunk (with_downloads n (binsert peer (download_of s' (key' :: todo)) (nd_downloads n))) e (keys ++ [key]) key' todo s')
    as (id & n' & E & Hn' & Ha); [exact (fg_engine _ _ _ _ Hfg)|apply bget_binsert_eq|done|exact (fg_gate _ _ _ _ Hfg)|].
  unfold nbind at 1. rewrite E. destruct (fg_staging _ _ _ _ Hn') as (s2 & Hd & Hf2). rewrite Hd. cbn [download_of dl_staging].
  rewrite (fetched_complete _ _ _ _ Htyped Hproduce _ _ Hf2), Hk, !length_app. cbn [length].
  rewrite (proj2 (Nat.eqb_neq _ _)) by lia. cbn [negb ret]. by exists id, n'.
Qed.

Definition received : DevelopmentCheckpoint := {| ckd_state := state; ckd_validator_set := vs; ckd_finality_proof := [] |}.

(** The last chunk hands the state to the engine. *)
Lemma accept_last (n : Node) e keys key :
  fetching e keys [] n → chunk_keys (sb_manifest bundle) = keys ++ [key] →
  ∃ n1, nd_engine n1 = (import_development_checkpoint e received).2 ∧ bget peer (nd_downloads n1) = None ∧
    handle_response network_id genesis_hash peer (Some (ChunkAction key.1 key.2)) (ChunkBytes (chunk_of_key key)) n =
      match (import_development_checkpoint e received).1 with
      | Ok _ => request_sync_path peer remote n1
      | Err x => (Err (NodeConsensus x), n1)
      | Panic m => (Panic m, n1)
      end.
Proof.
  intros Hfg Hk. destruct (chunk_staged n e keys key [] Hfg Hk) as (v & s' & Hv & Hf & Ea).
  cbn [handle_response]. unfold chunk_of_key. rewrite Hv. change (default [] (Some v)) with v. rewrite Ea.
  set (n0 := with_downloads n (binsert peer (download_of s' []) (nd_downloads n))).
  assert (bget peer (nd_downloads n0) = Some (download_of s' [])) as Hd0 by apply bget_binsert_eq.
  assert (nd_engine n0 = e) as He0 by exact (fg_engine _ _ _ _ Hfg).
  assert (request_next_chunk peer n0 = (Ok tt, n0)) as Hnext.
  { unfold request_next_chunk, nbind, get. by rewrite Hd0. }
  unfold nbind at 1. rewrite Hnext, Hd0. cbn [download_of dl_staging].
  rewrite (fetched_complete _ _ _ _ Htyped Hproduce _ _ Hf), Hk, Nat.eqb_refl. cbn [negb ok_or].
  rewrite <- Hk in Hf. unfold nbind, lift, modify, on_engine. cbn [map_err download_of dl_staging dl_remote].
  rewrite (fetched_finish _ _ _ _ Htyped Hproduce _ Hf Hcheckpoint Hreload). cbn [map_err si_state si_validator_set si_finality_proof].
  cbn [with_downloads nd_engine]. rewrite He0. fold received. destruct (import_development_checkpoint e received) as [r e'].
  eexists. split; [|split; [|destruct r; reflexivity]]; [done|]. cbn. apply bget_bremove_eq.
Qed.

(** What the node does once it has the state. *)
Definition after_import (e : SingleValidatorEngine) (n1 : Node) : outcome DevNodeError unit * Node :=
  match (import_development_checkpoint e received).1 with
  | Ok _ => request_sync_path peer remote n1
  | Err x => (Err (NodeConsensus x), n1)
  | Panic m => (Panic m, n1)
  end.

Lemma after_import_ok e (n1 : Node) :
  is_ok (import_development_checkpoint e received).1 = true →
  (∃ u, (import_development_checkpoint e received).1 = Ok u) ∧ after_import e n1 = request_sync_path peer remote n1.
Proof. unfold after_import. destruct (import_development_checkpoint e received).1 as [u|x|m]; [|done..]. intros _. by split; [exists u|]. Qed.

Lemma fetching_actions e keys todo (n : Node) actions :
  fetching e keys todo n → fetching e keys todo (with_actions n actions).
Proof. intros [He Hs Hm]. by split. Qed.

(** The answers to the requests for the chunks. *)
Definition chunk_answers (ids : list Z) (keys : list (DomainId * Z)) : list (Z * DirectResponse) :=
  zip_with (λ id key, (id, ChunkBytes (chunk_of_key key))) ids keys.

Lemma fetch_all e todo keys key id (n : Node) :
  fetching e keys todo n → asked key id n → chunk_keys (sb_manifest bundle) = keys ++ key :: todo →
  ∃ ids n1, length ids = length (key :: todo) ∧
    nd_engine n1 = (import_development_checkpoint e received).2 ∧ bget peer (nd_downloads n1) = None ∧
    exchange network_id genesis_hash fuel peer (chunk_answers ids (key :: todo)) n = after_import e n1.
Proof.
  revert keys key id n. induction todo as [|key' todo IH]; intros keys key id n Hfg Ha Hk;
    apply (fetching_actions _ _ _ _ (bremove id (nd_actions n))) in Hfg.
  - destruct (accept_last _ e keys key Hfg Hk) as (n1 & He & Hd & E). exists [id], n1. split_and!; [done|done|done|].
    cbn [chunk_answers zip_with exchange]. unfold nbind. rewrite (response_dispatched _ _ _ _ _ _ _ _ Ha), E. unfold after_import.
    destruct (import_development_checkpoint e received).1 as [u|x|m]; [|done..].
    by destruct (request_sync_path peer remote n1) as [[[]|x|m] n2].
  - destruct (accept_middle _ e keys key key' todo Hfg Hk) as (id' & n' & E & Hfg' & Ha').
    destruct (IH (keys ++ [key]) key' id' n' Hfg' Ha') as (ids & n1 & Hl & He & Hd & E'); [by rewrite <- app_assoc|].
    exists (id :: ids), n1. split_and!; [cbn in Hl |- *; by rewrite Hl|done|done|].
    unfold chunk_answers in E' |- *. cbn [zip_with exchange]. unfold nbind. by rewrite (response_dispatched _ _ _ _ _ _ _ _ Ha), E.
Qed.

(** A node at genesis that learns of a checkpoint asks for its manifest. *)
Lemma manifest_asked (n : Node) :
  may_fetch (nd_network n) peer → fs_height (en_finalized (nd_engine n)) = 0 → 0 < sy_height remote → 0 < fs_height state →
  ∃ id n', handle_response network_id genesis_hash peer (Some StatusAction) (Status remote) n = (Ok tt, n') ∧
    bget id (nd_actions n') = Some (ManifestAction remote) ∧ may_fetch (nd_network n') peer ∧ nd_engine n' = nd_engine n.
Proof.
  intros Hm Hh Hr Hs. cbn [handle_response]. unfold request_sync_path. unfold nbind at 1, get. cbn [engine_status sy_height].
  rewrite Hh, Hremote, (proj2 (Z.leb_gt _ _) Hr), Z.eqb_refl, (proj2 (Z.ltb_lt _ _) Hs). cbn [andb].
  unfold send_request, nbind, on_network, Service.request, modify.
  assert (check_request (nd_network n) peer (RequestManifest (fs_height state)) = Ok tt) as -> by exact Hm.
  cbn [allocate_request_id]. destruct (Service.send_request _ _ _) as [outbound swarm]. cbn [map_err].
  eexists _, _. split_and!; [done|apply bget_binsert_eq|exact Hm|done].
Qed.

Lemma import_finalizes e u : (import_development_checkpoint e received).1 = Ok u →
  en_finalized (import_development_checkpoint e received).2 = state.
Proof.
  unfold import_development_checkpoint. destruct (en_pending e); [done|].
  destruct (prepare_import e received) as [[[st pool] commit]|x|m] eqn:Hp; [|done..].
  destruct (database_commit _ _) as [r d]. destruct r as [stats|x|m]; cbn [storage_err map_err]; [|done..]. intros _. cbn.
  unfold prepare_import in Hp. destruct (negb _); [done|]. destruct (negb _); [done|].
  apply obind_Ok in Hp as (vh & _ & Hp). destruct (_ || _); [done|]. cbn [received ckd_state] in Hp. rewrite Hcheckpoint in Hp.
  cbn [chain_err map_err obind] in Hp. apply obind_Ok in Hp as ([c p] & _ & Hp). apply obind_Ok in Hp as (c2 & _ & Hp).
  by apply obind_Ok in Hp as (enc & _ & [= <- _ _]).
Qed.

(** C6. Snapshot synchronization with an honest server. Let a server hold in its cache the
    bundle of a well-typed finalized state above genesis, no larger than a staging accepts,
    and let the state read back from its own nodes and checkpoint. The server answers a
    request for the manifest with the manifest and a request for any chunk of it with the
    chunk. A listener at genesis that may ask the server for state and has asked for its
    status takes the status, the manifest and then the chunks in the manifest's order,
    each under the id of an outstanding request of its own, and fails on none of them.
    After the last its download is closed, and what remains is what its own engine does
    with the checkpoint it is handed, which is exactly the server's state and validator
    set: if the engine imports it, the listener's finalized state is the server's and it
    goes on to ask for the blocks after it; if not, the handler reports the engine's
    error. *)
Theorem snapshot_sync (server n : Node) id0 :
  bget (fs_height state) (nd_snapshots server) = Some bundle → 0 < fs_height state → 0 < sy_height remote →
  may_fetch (nd_network n) peer → bget id0 (nd_actions n) = Some StatusAction → fs_height (en_finalized (nd_engine n)) = 0 →
  (∀ inbound, ib_request inbound = RequestManifest (fs_height state) →
    answer_request fuel inbound server = (Ok (ManifestBytes manifest), server)) ∧
  (∀ inbound key, key ∈ chunk_keys (sb_manifest bundle) →
    ib_request inbound = RequestChunk (fs_height state) key.1 key.2 →
    answer_request fuel inbound server = (Ok (ChunkBytes (chunk_of_key key)), server)) ∧
  ∃ id1 ids n1, length ids = length (chunk_keys (sb_manifest bundle)) ∧
    exchange network_id genesis_hash fuel peer
      ((id0, Status remote) :: (id1, ManifestBytes manifest) :: chunk_answers ids (chunk_keys (sb_manifest bundle))) n =
      after_import (nd_engine n) n1 ∧
    nd_engine n1 = (import_development_checkpoint (nd_engine n) received).2 ∧ bget peer (nd_downloads n1) = None ∧
    (∀ u, (import_development_checkpoint (nd_engine n) received).1 = Ok u → en_finalized (nd_engine n1) = state).
Proof.
  intros Hcache Hs Hr Hm Ha Hh. change ConsensusHeight with Z in Hcache. split_and!.
  - intros inbound E. unfold answer_request, nbind, get, lift. rewrite E. cbn [fst snd]. rewrite Hcache, Hmanifest. done.
  - intros inbound key Hk E. unfold answer_request, nbind, get. rewrite E. cbn [fst snd]. rewrite Hcache. cbn [mbind option_bind].
    destruct (bundle_serves _ _ _ _ Htyped Hproduce key Hk) as (c & v & _ & Hv & _). unfold chunk_of_key.
    destruct key as [id i]. cbn [fst snd] in *. rewrite Hv. reflexivity.
  - destruct (manifest_asked (with_actions n (bremove id0 (nd_actions n))) Hm Hh Hr Hs) as (id1 & n0 & E0 & Ha0 & Hm0 & He0).
    destruct (begin_fetching (with_actions n0 (bremove id1 (nd_actions n0))) Hm0) as (key & todo & id2 & n2 & Hk & E2 & Hfg & Ha2).
    cbn [with_actions nd_engine] in He0, Hfg. rewrite He0 in Hfg.
    destruct (fetch_all (nd_engine n) todo [] key id2 n2 Hfg Ha2 Hk) as (ids & n1 & Hl & He & Hd & E).
    exists id1, ids, n1. split_and!; [by rewrite Hk| |done|done|].
    + cbn [exchange]. unfold nbind at 1. rewrite (response_dispatched _ _ _ _ _ _ _ _ Ha), E0.
      unfold nbind at 1. rewrite (response_dispatched _ _ _ _ _ _ _ _ Ha0), E2, Hk. exact E.
    + intros u Hu. rewrite He. by eapply import_finalizes.
Qed.
End honest.

Module SnapshotSyncWitness.
Import ExecutorWitness ChainWitness TypingWitness EngineWitness TransferWitness ServiceWitness NodeWitness.
#[local] Existing Instance mixed_keccak.
#[local] Existing Instance mixed_trie.
#[local] Existing Instance Toy.toy_secp.
#[local] Existing Instance spec_rlp.
#[local] Existing Instance RegistryWitness.toy.
#[local] Existing Instance toy_recovery.
#[local] Existing Instance toy_revm.
#[local] Existing Instance toy_roots.
#[local] Existing Instance StorageWitness.toy_parity.
#[local] Existing Instance toy_libp2p.
#[local] Existing Instance toy_mdns.
#[local] Existing Instance toy_text.

Definition fits (state : FinalizedChainState) : bool :=
  match produce state (gn_genesis_hash dev) (gn_validator_set dev) [] with
  | Ok bundle => zsum (chunk_size bundle) (chunk_keys (sb_manifest bundle)) <=? MAX_SNAPSHOT_TOTAL_BYTES
  | _ => false
  end.

Lemma fits_spec state bundle :
  fits state = true → produce state (gn_genesis_hash dev) (gn_validator_set dev) [] = Ok bundle →
  zsum (chunk_size bundle) (chunk_keys (sb_manifest bundle)) ≤ MAX_SNAPSHOT_TOTAL_BYTES.
Proof. unfold fits. intros Hf Hp. rewrite Hp in Hf. by apply Z.leb_le. Qed.

Lemma finalized_fits : fits finalized = true.
Proof. by_evaluation. Qed.

Lemma finalized_network : fs_network_id finalized = gn_network_id dev.
Proof. by_evaluation. Qed.

Definition caching (bundle : SnapshotBundle) : Node :=
  with_snapshots (node_of engine3 greeted) [(fs_height finalized, bundle)].

(** The listener has asked the peer 7 for its status. *)
Definition listener : Node := asking.

Definition asked_id : Z := default 0 (list.last (bkeys (nd_actions listener))).

Lemma listener_imports :
  is_ok (import_development_checkpoint (nd_engine listener) (received finalized (gn_validator_set dev))).1 = true.
Proof. by_evaluation. Qed.

Lemma listener_may_fetch : may_fetch (nd_network listener) seven.
Proof. reflexivity. Qed.

Lemma cached bundle : bget (fs_height finalized) (nd_snapshots (caching bundle)) = Some bundle.
Proof. unfold caching. cbn [with_snapshots nd_snapshots bget]. by rewrite teqb_refl. Qed.

Definition offered : SyncStatus := engine_status engine3 (fs_height finalized).

Lemma offered_height : sy_checkpoint_height offered = fs_height finalized.
Proof. by_evaluation. Qed.

Lemma listener_asked : bget asked_id (nd_actions listener) = Some StatusAction.
Proof. reflexivity. Qed.

Lemma listener_at_genesis : fs_height (en_finalized (nd_engine listener)) = 0.
Proof. by_evaluation. Qed.

Lemma finalized_above : 0 < fs_height finalized.
Proof. by_evaluation. Qed.

Lemma offered_above : 0 < sy_height offered.
Proof. by_evaluation. Qed.

(** A listener at genesis fetches the state of the server's first block and imports it. *)
Lemma snapshot_sync_witness :
  ∃ bundle manifest id1 ids n1, produce finalized (gn_genesis_hash dev) (gn_validator_set dev) [] = Ok bundle ∧
    exchange (gn_network_id dev) (gn_genesis_hash dev) 0 seven
      ((asked_id, Status offered) :: (id1, ManifestBytes manifest) :: chunk_answers bundle ids (chunk_keys (sb_manifest bundle)))
      listener = request_sync_path seven offered n1 ∧
    en_finalized (nd_engine n1) = finalized ∧ bget seven (nd_downloads n1) = None.
Proof.
  destruct (transfers_spec _ finalized_transfers) as (bundle & b & s0 & s & Hp & Hb & _).
  destruct (snapshot_sync (gn_network_id dev) (gn_genesis_hash dev) 0 finalized (gn_validator_set dev) bundle b finalized_typed
    dev_genesis_hash dev_validators Hp Hb finalized_network (fits_spec _ _ finalized_fits Hp) finalized_checkpoint finalized_reloads
    offered offered_height seven (caching bundle) listener asked_id (cached bundle) finalized_above offered_above listener_may_fetch
    listener_asked listener_at_genesis) as (_ & _ & id1 & ids & n1 & _ & E & _ & Hd & Hf).
  destruct (after_import_ok finalized (gn_validator_set dev) offered seven (nd_engine listener) n1 listener_imports) as [[u Hu] Ha].
  exists bundle, b, id1, ids, n1. exact (conj Hp (conj (eq_trans E Ha) (conj (Hf u Hu) Hd))).
Defined.
End SnapshotSyncWitness.
