(* ===== verification/Startup.v ===== *)
(** How a node comes to run: its configuration (src/crates/arbor-node/src/config.rs), the
    key of its peer identity (src/crates/arbor-network/src/identity.rs) and the assembly
    of engine, service and main loop (src/crates/arbor-node/src/lib.rs and networked.rs).

    TOML, the text of hashes and the protobuf encoding of keys are interfaces. A file is
    its content; what the operating system refuses is an input. Main results:
    [identity_stable] (a node keeps the identity it has once had), [history_roundtrip],
    [config_roundtrip] (a written configuration reads back) and [nodes_compatible] (any
    two nodes of one network accept each other's handshake). *)

From Stdlib Require Import Strings.Byte Strings.String Strings.Ascii.
From stdpp Require Import pretty.
From S2P Require Import Prelude Bytes BTreeMap Primitives Canonical Cursor Rlp Crypto Ethereum StateError.
From S2P Require Import Snapshot DomainHeads System Registry Trie Mpt MptBuild Account Overlay Mempool Storage.
From S2P Require Import Evm Executor Merkle ChainBlock ChainState Chain DevGenesis EngineCheckpoint Engine.
From S2P Require Import Protocol Sync SnapshotTransfer Peer Gossip Service ServiceSafety Node.

Local Open Scope Z_scope.

(** ** Text *)

(** [str::split] on a character. *)
Fixpoint split (c : ascii) (s : string) : list string :=
  match s with
  | EmptyString => [EmptyString]
  | String a s =>
      if Ascii.eqb a c then EmptyString :: split c s
      else match split c s with
           | part :: parts => String a part :: parts
           | [] => [String a EmptyString]
           end
  end.

(** [str::split_once]. *)
Fixpoint split_once (c : ascii) (s : string) : option (string * string) :=
  match s with
  | EmptyString => None
  | String a s =>
      if Ascii.eqb a c then Some (EmptyString, s)
      else match split_once c s with
           | Some (before, after) => Some (String a before, after)
           | None => None
           end
  end.

(** [str::contains] of a character. *)
Fixpoint has_char (c : ascii) (s : string) : bool :=
  match s with
  | EmptyString => false
  | String a s => Ascii.eqb a c || has_char c s
  end.

(** [char::is_whitespace]: the Unicode property White_Space. *)
Definition is_whitespace (c : Z) : bool :=
  ((9 <=? c) && (c <=? 13)) || (c =? 32) || (c =? 133) || (c =? 160) || (c =? 5760) ||
  ((8192 <=? c) && (c <=? 8202)) || (c =? 8232) || (c =? 8233) || (c =? 8239) || (c =? 8287) || (c =? 12288).

(** The text of a hash, as alloy prints and parses it. *)
Class AlloyHex := {
  b256_to_string : bytes → string;
  b256_from_str : string → option bytes;
}.

Class AlloyHexLaws `{AlloyHex} := {
  b256_display h : b256_to_string h = ("0x" ++ hex_hash h)%string;
  b256_parses h : is_b256 h → b256_from_str (b256_to_string h) = Some h;
}.

(** ** Configuration *)

Definition CONFIG_VERSION : Z := 1.

Inductive HistorySubscription :=
| AllHistory
| RootAnd (domains : btree DomainId unit).

Definition selected_domains (h : HistorySubscription) (root_domain_id : DomainId) : option (btree DomainId unit) :=
  match h with
  | AllHistory => None
  | RootAnd domains => Some (binsert root_domain_id tt domains)
  end.

Record NodeConfig := {
  nf_moniker : list Z;
  nf_dev : bool;
  nf_domains : HistorySubscription;
}.

(** An address of the socket; an IPv6 address is the text it is displayed as. *)
Inductive IpAddr :=
| V4 (a b c d : Z)
| V6 (text : string).

Record NetworkConfig := {
  wf_ip : IpAddr;
  wf_port : Z;
  wf_mdns : bool;
  wf_persistent_peers : list string;
}.

Record Config := {
  cf_version : Z;
  cf_node : NodeConfig;
  cf_network : NetworkConfig;
}.

Inductive PersistentPeerError :=
| PeerSyntax
| PeerIdText
| PeerAddress
| EmbeddedPeerId.

Inductive ConfigError :=
| ConfigRead (source : string)
| ConfigDecode (source : string)
| ConfigEncode (source : string)
| UnsupportedVersion (expected actual : Z)
| EmptyMoniker
| PersistentPeerEntry (e : PersistentPeerError)
| DuplicatePersistentPeer.

(** TOML with the derived codecs of the records, given that of the one field whose
    codec is written out. *)
Class Toml := {
  toml_to_string : (HistorySubscription → string) → Config → outcome string string;
  toml_from_str : (string → outcome string HistorySubscription) → string → outcome string Config;
}.

Class TomlLaws `{Toml} := {
  toml_reads_back write read c text :
    toml_to_string write c = Ok text → read (write (nf_domains (cf_node c))) = Ok (nf_domains (cf_node c)) →
    toml_from_str read text = Ok c;
}.

Definition default_node_config : Config :=
  {| cf_version := CONFIG_VERSION;
     cf_node :=
       {| nf_moniker := byte_val <$> bstr "arbor-node"; nf_dev := false; nf_domains := AllHistory |};
     cf_network := {| wf_ip := V4 127 0 0 1; wf_port := 0; wf_mdns := true; wf_persistent_peers := [] |} |}.

Section config.
Context `{AlloyHex, Toml, Libp2p}.

(** [HistorySubscription::serialize]. *)
Definition history_text (h : HistorySubscription) : string :=
  match h with
  | AllHistory => "all"
  | RootAnd domains => String.concat "," ("root"%string :: (b256_to_string <$> bkeys domains))
  end.

(** One part of the loop of [parse_history_subscription]. *)
Definition parse_part (domains : btree DomainId unit) (part : string) : outcome string (btree DomainId unit) :=
  if String.eqb part EmptyString || String.eqb part "root" || String.eqb part "all"
  then Err "node.domains contains an invalid entry"%string
  else
    let? hash := ok_or (b256_from_str part) "node.domains contains an invalid domain ID"%string in
    Ok (binsert hash tt domains).

Definition parse_history_subscription (value : string) : outcome string HistorySubscription :=
  if String.eqb value "all" then Ok AllHistory
  else
    match split "," value with
    | first :: parts =>
        if String.eqb first "root" then
          let? domains := for_each parse_part [] parts in
          Ok (RootAnd domains)
        else Err "node.domains must be `all`, `root`, or `root,<domain-id>...`"%string
    | [] => Err "node.domains must be `all`, `root`, or `root,<domain-id>...`"%string
    end.

(** [PersistentPeer::from_str]. *)
Definition persistent_peer_from_str (value : string) : outcome PersistentPeerError PersistentPeer :=
  let? '(peer, address) := ok_or (split_once "@" value) PeerSyntax in
  if String.eqb peer EmptyString || String.eqb address EmptyString || has_char "@" address then Err PeerSyntax
  else
    let? peer_id := ok_or (peer_from_str peer) PeerIdText in
    let? address := ok_or (multiaddr_from_str address) PeerAddress in
    if existsb (λ p, match p with P2p => true | _ => false end) (multiaddr_iter address)
    then Err EmbeddedPeerId
    else Ok {| pr_peer_id := peer_id; pr_address := address |}.

(** One entry of the loop of [Config::validate]. *)
Definition validate_peer (peers : btree PeerId unit) (value : string) : outcome ConfigError (btree PeerId unit) :=
  let? peer := map_err PersistentPeerEntry (persistent_peer_from_str value) in
  if bcontains (pr_peer_id peer) peers then Err DuplicatePersistentPeer
  else Ok (binsert (pr_peer_id peer) tt peers).

(** [Config::validate]. *)
Definition validate_config (c : Config) : outcome ConfigError unit :=
  if negb (cf_version c =? CONFIG_VERSION) then Err (UnsupportedVersion CONFIG_VERSION (cf_version c))
  else if forallb is_whitespace (nf_moniker (cf_node c)) then Err EmptyMoniker
  else
    let? peers := for_each validate_peer [] (wf_persistent_peers (cf_network c)) in
    Ok tt.

Definition from_toml (input : string) : outcome ConfigError Config :=
  let? config := map_err ConfigDecode (toml_from_str parse_history_subscription input) in
  run? validate_config config in
  Ok config.

(** [Config::load]; [read] is what reading the file returned. *)
Definition load_config (read : outcome string string) : outcome ConfigError Config :=
  let? input := map_err ConfigRead read in
  from_toml input.

Definition to_toml (c : Config) : outcome ConfigError string :=
  map_err ConfigEncode (toml_to_string history_text c).
End config.

(** ** The identity of the peer *)

Definition MAX_PEER_KEY_BYTES : Z := 4 * 1024.

(** What the operating system refuses during one call: [None] is success. A write may
    have reached the file in part. *)
Record io_faults := {
  io_open : option string;
  io_metadata : option string;
  io_read : option string;
  io_create_dir : option string;
  io_create : option string;
  io_write : option (nat * string);
  io_sync : option string;
}.

Definition no_faults : io_faults :=
  {| io_open := None; io_metadata := None; io_read := None; io_create_dir := None; io_create := None; io_write := None;
     io_sync := None |}.

Inductive io_error :=
| NotFound
| OtherIo (source : string).

Inductive PeerIdentityError :=
| IdentityDirectory (source : string)
| IdentityRead (source : io_error)
| IdentityWrite (source : string)
| IdentityLength (length : Z)
| IdentityEncode (reason : string)
| IdentityDecode (reason : string).

(** The keys of libp2p. *)
Class Keypairs `{Libp2p} := {
  Keypair : Type;
  keypair_peer : Keypair → PeerId;
  to_protobuf_encoding : Keypair → outcome string bytes;
  from_protobuf_encoding : bytes → outcome string Keypair;
}.

Class KeypairLaws `{Keypairs} := {
  protobuf_reads_back k b : to_protobuf_encoding k = Ok b → from_protobuf_encoding b = Ok k;
  protobuf_length k b : to_protobuf_encoding k = Ok b → 0 < zlen b ≤ MAX_PEER_KEY_BYTES;
}.

Section identity.
Context `{Libp2p, !Keypairs}.

(** The content of the key file, if there is one. *)
Definition key_file : Type := option bytes.

Definition load (f : io_faults) (file : key_file) : outcome PeerIdentityError Keypair :=
  match io_open f, file with
  | Some e, _ => Err (IdentityRead (OtherIo e))
  | None, None => Err (IdentityRead NotFound)
  | None, Some b =>
      match io_metadata f with
      | Some e => Err (IdentityRead (OtherIo e))
      | None =>
          if (zlen b =? 0) || (MAX_PEER_KEY_BYTES <? zlen b) then Err (IdentityLength (zlen b))
          else
            match io_read f with
            | Some e => Err (IdentityRead (OtherIo e))
            | None => map_err IdentityDecode (from_protobuf_encoding b)
            end
      end
  end.

(** One call of [load_or_create_peer_identity]: what fails while it runs and while it
    loads a second time, the file another process has created in between and the key it
    generates. *)
Record identity_call := {
  ic_faults : io_faults;
  ic_reload : io_faults;
  ic_meanwhile : key_file;
  ic_generated : Keypair;
}.

(** The outcome and the file it leaves. *)
Definition load_or_create_peer_identity (c : identity_call) (file : key_file)
    : outcome PeerIdentityError Keypair * key_file :=
  let f := ic_faults c in
  match load f file with
  | Err (IdentityRead NotFound) =>
      match io_create_dir f with
      | Some e => (Err (IdentityDirectory e), file)
      | None =>
          match map_err IdentityEncode (to_protobuf_encoding (ic_generated c)) with
          | Ok encoded =>
              match io_create f, (match file with Some b => Some b | None => ic_meanwhile c end) with
              | Some e, file => (Err (IdentityWrite e), file)
              | None, Some b => (load (ic_reload c) (Some b), Some b)
              | None, None =>
                  match io_write f, io_sync f with
                  | Some (n, e), _ => (Err (IdentityWrite e), Some (take n encoded))
                  | None, Some e => (Err (IdentityWrite e), Some encoded)
                  | None, None => (Ok (ic_generated c), Some encoded)
                  end
              end
          | Err e => (Err e, file)
          | Panic m => (Panic m, file)
          end
      end
  | r => (r, file)
  end.
End identity.

(** ** Assembly *)

Section assembly.
Context `{Keccak, Secp256k1, AlloyRlp, !AlloyTrie, SenderRecovery, Journal, !Revm, AlloyRoots, ParityDb}.
Context `{Libp2p, !MdnsSd, !Keypairs, ErrorText}.
Context (fuel : nat).

Definition dev_database_identity : DatabaseIdentity :=
  {| id_network_id := keccak256 (bstr "ARBOR_DEV_NETWORK_V1"); id_genesis_hash := keccak256 (bstr "ARBOR_DEV_GENESIS_V1") |}.

(** [arbor_node::open_database]; [opened] is what opening the files returned. *)
Definition open_node_database (opened : outcome string Db) : outcome StorageError Storage.Database :=
  open_database opened dev_database_identity Archive.

(** The engine, and the database as it is left. *)
Definition open_dev_engine (opened : outcome string Db) (history : HistorySubscription)
    : outcome DevNodeError SingleValidatorEngine * option Storage.Database :=
  let prepared :=
    let? g :=
      map_err NodeConsensus
        (local_default (id_network_id dev_database_identity) (id_genesis_hash dev_database_identity)) in
    let? database := map_err NodeStorage (open_node_database opened) in
    Ok (g, database) in
  match prepared with
  | Ok (g, database) =>
      let retention :=
        match selected_domains history (gn_root_domain_id g) with Some domains => Selected domains | None => All end in
      let '(r, database) := open_with_history fuel DevValidator database g default_config retention in
      (map_err NodeConsensus r, Some database)
  | Err e => (Err e, None)
  | Panic m => (Panic m, None)
  end.

Inductive startup_error :=
| StartupNode (e : DevNodeError)
| StartupIdentity (e : PeerIdentityError)
| StartupPeer (e : PersistentPeerError)
| StartupAddress (text : string)
| StartupService (e : NetworkError).

Definition initialize_dev_chain (opened : outcome string Db) (c : identity_call) (file : key_file)
    : outcome startup_error unit * key_file :=
  match (open_dev_engine opened AllHistory).1 with
  | Ok _ =>
      let '(r, file) := load_or_create_peer_identity c file in
      ((let? keypair := map_err StartupIdentity r in Ok tt), file)
  | Err e => (Err (StartupNode e), file)
  | Panic m => (Panic m, file)
  end.

Definition ip_text (ip : IpAddr) : string :=
  match ip with
  | V4 a b c d => ("/ip4/" ++ pretty a ++ "." ++ pretty b ++ "." ++ pretty c ++ "." ++ pretty d)%string
  | V6 text => ("/ip6/" ++ text)%string
  end.

Definition socket_multiaddr (ip : IpAddr) (port : Z) : outcome startup_error Multiaddr :=
  let value := (ip_text ip ++ "/tcp/" ++ pretty port)%string in
  ok_or (multiaddr_from_str value) (StartupAddress value).

(** The handshake of a node that produces blocks or listens. *)
Definition node_handshake (network_id : NetworkId) (genesis_hash : bytes) (produce : bool) : Handshake :=
  new_handshake network_id genesis_hash (if produce then NodeRole.Validator else NodeRole.Full)
    [TransactionGossip; FinalizedGossip; BlockSyncing; StateSync; DomainHistorySync; ConsensusDirect].

(** What the libraries of the transport do with a configuration. *)
Record transport := {
  tr_build : NetworkServiceConfig → outcome string Swarm;
  tr_listen_on : Swarm → Multiaddr → outcome string unit * Swarm;
  tr_start : string → outcome string ServiceDaemon;
}.

(** The service, and the file of the key. *)
Definition initialize_service (t : transport) (c : identity_call) (file : key_file) (config : NetworkConfig) (produce : bool)
    (network_id : NetworkId) (genesis_hash : bytes) : outcome startup_error NetworkService * key_file :=
  let '(keypair, file) := load_or_create_peer_identity c file in
  ((let? keypair := map_err StartupIdentity keypair in
    let? address := socket_multiaddr (wf_ip config) (wf_port config) in
    let service := development network_id genesis_hash (keypair_peer keypair) address in
    let service :=
      {| nc_handshake := node_handshake network_id genesis_hash produce; nc_peer := nc_peer service;
         nc_listen_address := nc_listen_address service;
         nc_max_concurrent_streams := nc_max_concurrent_streams service; nc_enable_mdns := wf_mdns config |} in
    map_err StartupService (new_service (tr_build t) (tr_listen_on t) (tr_start t) service)), file).

Record InitializedNode := {
  in_engine : SingleValidatorEngine;
  in_network : NetworkService;
  in_persistent : list PersistentPeer;
}.

Definition initialize_network_node (opened : outcome string Db) (t : transport) (c : identity_call) (file : key_file)
    (history : HistorySubscription) (config : NetworkConfig) (produce : bool) (network_id : NetworkId) (genesis_hash : bytes)
    : outcome startup_error InitializedNode * key_file :=
  match (open_dev_engine opened history).1 with
  | Ok engine =>
      let '(service, file) := initialize_service t c file config produce network_id genesis_hash in
      ((let? network := service in
        let? persistent := map_err StartupPeer (collect persistent_peer_from_str (wf_persistent_peers config)) in
        Ok {| in_engine := engine; in_network := network; in_persistent := persistent |}), file)
  | Err e => (Err (StartupNode e), file)
  | Panic m => (Panic m, file)
  end.

(** One event of [drain_network_before_shutdown]. *)
Definition drain_event (network_id : NetworkId) (genesis_hash : bytes) (wakes : list wake) : action unit := λ n,
  let '(event, s, _) := next_event (nd_network n) wakes in
  let n := with_network n s in
  match event with
  | Some event => handle_network_event network_id genesis_hash fuel event n
  | None => (Ok tt, n)
  end.

(** [drain_network_before_shutdown] over what happens before the deadline. *)
Definition drain_network_before_shutdown (network_id : NetworkId) (genesis_hash : bytes) (happens : list (list wake))
    : action unit :=
  foldr (λ wakes k, nbind (drain_event network_id genesis_hash wakes) (λ _, k)) (ret tt) happens.

(** [run_dev_node] once it is initialized: the turns of its loop until it is asked to
    shut down, and then what happens before the deadline. *)
Definition run_dev_node (network_id : NetworkId) (genesis_hash : bytes) (produce : bool) (i : InitializedNode)
    (wakeups : list wakeup) (happens : list (list wake)) : outcome DevNodeError unit * option Node :=
  match start_node genesis_hash (in_engine i) (in_network i) with
  | (Ok _, Some n) =>
      let '(r, n) :=
        nbind (foldr (λ w k, nbind (turn network_id genesis_hash fuel produce (in_persistent i) w) (λ _, k)) (ret tt) wakeups)
          (λ _, if produce then drain_network_before_shutdown network_id genesis_hash happens else ret tt) n in
      (r, Some n)
  | r => r
  end.

Definition run_dev_validator (network_id : NetworkId) (genesis_hash : bytes) : InitializedNode → list wakeup → list (list wake) →
    outcome DevNodeError unit * option Node :=
  run_dev_node network_id genesis_hash true.

Definition run_dev_listener (network_id : NetworkId) (genesis_hash : bytes) : InitializedNode → list wakeup → list (list wake) →
    outcome DevNodeError unit * option Node :=
  run_dev_node network_id genesis_hash false.
End assembly.

(** ** Text reads back *)

Lemma split_free c s : has_char c s = false → split c s = [s].
Proof.
  induction s as [|a s IH]; [done|]. cbn [split has_char]. intros [Ha Hs]%orb_false_iff. by rewrite Ha, IH.
Qed.

Lemma split_cons c s t : has_char c s = false → split c (s ++ String c t) = s :: split c t.
Proof.
  induction s as [|a s IH].
  - intros _. change (split c (String c t) = EmptyString :: split c t). cbn [split]. by rewrite Ascii.eqb_refl.
  - cbn [has_char]. intros [Ha Hs]%orb_false_iff.
    change (split c (String a (s ++ String c t)) = String a s :: split c t). cbn [split]. by rewrite Ha, IH.
Qed.

(** Splitting undoes joining. *)
Lemma split_concat c s parts :
  has_char c s = false → Forall (λ p, has_char c p = false) parts →
  split c (String.concat (String c EmptyString) (s :: parts)) = s :: parts.
Proof.
  intros Hs Hp. revert s Hs. induction Hp as [|p parts Hp _ IH]; intros s Hs; [by apply split_free|].
  change (String.concat _ _) with (s ++ String c EmptyString ++ String.concat (String c EmptyString) (p :: parts))%string.
  change (String c EmptyString ++ ?x)%string with (String c x). by rewrite split_cons, IH.
Qed.

Definition is_hex (a : ascii) : bool := existsb (Ascii.eqb a) HEX.

Lemma hex_digit_hex z : is_hex (hex_digit z) = true ∨ hex_digit z = Ascii.zero.
Proof.
  unfold hex_digit. destruct (HEX !! Z.to_nat z) as [a|] eqn:E; [left|by right]. cbn [default].
  apply list_elem_of_lookup_2 in E. apply existsb_exists. exists a. split; [by apply list_elem_of_In|apply Ascii.eqb_refl].
Qed.

Lemma hex_hash_comma h : has_char "," (hex_hash h) = false.
Proof.
  assert (∀ z, Ascii.eqb (hex_digit z) "," = false) as Hz.
  { intros z. destruct (hex_digit_hex z) as [Hx| ->]; [|done]. destruct (Ascii.eqb_spec (hex_digit z) ",") as [E|]; [|done]. by rewrite E in Hx. }
  induction h as [|b h IH]; [done|]. cbn [hex_hash hex_byte].
  change (Ascii.eqb (hex_digit (Z.shiftr (byte_val b) 4)) "," || (Ascii.eqb (hex_digit (Z.land (byte_val b) 15)) "," ||
    has_char "," (hex_hash h)) = false). by rewrite !Hz, IH.
Qed.

Section roundtrips.
Context `{AlloyHex, !AlloyHexLaws, Toml, !TomlLaws, Libp2p}.

(** A set of domains as the code holds it. *)
Definition wf_history (h : HistorySubscription) : Prop :=
  match h with
  | AllHistory => True
  | RootAnd domains => sorted domains ∧ Forall is_b256 (bkeys domains)
  end.

Lemma parse_hash domains h :
  is_b256 h → parse_part domains (b256_to_string h) = Ok (binsert h tt domains).
Proof.
  intros Hh. unfold parse_part. rewrite b256_parses by done. by rewrite b256_display.
Qed.

(** Inserting behind the last key. *)
Lemma binsert_behind {K V : Type} `{TotalOrder K} k v (m : btree K V) :
  Forall (λ k', tlt k' k) (bkeys m) → binsert k v m = m ++ [(k, v)].
Proof.
  induction m as [|[k' v'] m IH]; [done|]. cbn [bkeys fmap list_fmap fst]. intros [Hk Hr]%list.Forall_cons. cbn [binsert].
  rewrite tcompare_opp, Hk. cbn [CompOpp]. by rewrite IH.
Qed.

Lemma parse_hashes (domains acc : btree DomainId unit) :
  sorted (acc ++ domains) → Forall is_b256 (bkeys domains) →
  for_each parse_part acc (b256_to_string <$> bkeys domains) = Ok (acc ++ domains).
Proof.
  revert acc. induction domains as [|[h []] domains IH]; intros acc Hs Hh; [by rewrite app_nil_r|].
  cbn [bkeys fmap list_fmap fst for_each] in *. apply list.Forall_cons in Hh as [Hh Hr].
  rewrite parse_hash by done. cbn [obind]. rewrite binsert_behind.
  - rewrite cons_middle, app_assoc in Hs. rewrite IH by done. by rewrite <- app_assoc.
  - unfold sorted, bkeys in Hs. rewrite fmap_app in Hs. apply list.Forall_forall. intros k Hk.
    eapply StronglySorted_app_1_elem_of; [exact Hs|exact Hk|]. by left.
Qed.

(** What the node writes of its history setting is what it reads. *)
Lemma history_roundtrip h : wf_history h → parse_history_subscription (history_text h) = Ok h.
Proof.
  destruct h as [|domains]; [done|]. intros [Hs Hb]. unfold parse_history_subscription, history_text.
  destruct (String.eqb_spec (String.concat "," ("root"%string :: (b256_to_string <$> bkeys domains))) "all") as [E|_].
  { by destruct (b256_to_string <$> bkeys domains). }
  rewrite split_concat; [|done|]. 2:{ apply list.Forall_fmap, list.Forall_true. intros k. cbn. rewrite b256_display. cbn. apply hex_hash_comma. }
  cbn [String.eqb Ascii.eqb]. rewrite parse_hashes by done. done.
Qed.

(** A configuration that is valid reads back from the text it is written as. *)
Lemma config_roundtrip c text :
  validate_config c = Ok tt → wf_history (nf_domains (cf_node c)) → to_toml c = Ok text → from_toml text = Ok c.
Proof.
  intros Hv Hh Ht. apply map_err_Ok in Ht. unfold from_toml.
  rewrite (toml_reads_back _ _ _ _ Ht (history_roundtrip _ Hh)). cbn [map_err obind]. by rewrite Hv.
Qed.

(** The configuration [arbor node init] writes is valid. *)
Lemma default_valid : validate_config default_node_config = Ok tt.
Proof. reflexivity. Qed.
End roundtrips.

(** ** Handshakes *)

(** Nodes of one network accept each other and may ask each other everything. *)
Lemma nodes_compatible network_id genesis_hash produce produce' :
  validate_against (node_handshake network_id genesis_hash produce) (node_handshake network_id genesis_hash produce') = Ok tt ∧
  ∀ c, supports (node_handshake network_id genesis_hash produce) c = true.
Proof.
  split; [|by intros []]. unfold validate_against. cbn [node_handshake new_handshake hs_network_id hs_genesis_hash].
  by rewrite !bool_decide_eq_true_2.
Qed.

(** ** Identity *)

Section stable.
Context `{Libp2p, !Keypairs, !KeypairLaws}.

(** A key file that exists is never changed. *)
Lemma identity_file_kept c b : (load_or_create_peer_identity c (Some b)).2 = Some b.
Proof.
  unfold load_or_create_peer_identity. destruct (load _ _) as [k|[e|[|e]|e|n|e|e]|m]; try done.
  destruct (io_create_dir _); [done|]. destruct (to_protobuf_encoding _) as [enc|e|m]; cbn [map_err]; [|done..].
  by destruct (io_create _).
Qed.

Lemma identity_loads f b k : load f (Some b) = Ok k → load no_faults (Some b) = Ok k.
Proof.
  unfold load. cbn [no_faults io_open io_metadata io_read]. destruct (io_open f); [done|]. destruct (io_metadata f); [done|].
  destruct (_ || _); [done|]. by destruct (io_read f).
Qed.

Lemma identity_created c file k file' :
  load_or_create_peer_identity c file = (Ok k, file') → ∃ b, file' = Some b ∧ load no_faults (Some b) = Ok k.
Proof.
  unfold load_or_create_peer_identity. destruct (load (ic_faults c) file) as [k0|e|m] eqn:Hl; [| |done].
  - intros [= -> <-]. unfold load in Hl. destruct (io_open _) eqn:E; [done|]. destruct file as [b|]; [|done].
    exists b. split; [done|]. apply (identity_loads (ic_faults c)). unfold load. by rewrite E.
  - destruct e as [e|[|e]|e|n|e|e]; try done. destruct (io_create_dir _); [done|].
    destruct (to_protobuf_encoding (ic_generated c)) as [enc|e|m] eqn:He; cbn [map_err]; [|done..].
    destruct (io_create _); [done|]. destruct (match file with Some b => Some b | None => ic_meanwhile c end) as [b|].
    + intros [= Hk <-]. exists b. split; [done|]. by apply identity_loads in Hk.
    + destruct (io_write _) as [[]|]; [done|]. destruct (io_sync _); [done|]. intros [= <- <-]. exists enc. split; [done|].
      pose proof (protobuf_length _ _ He) as [Hp Hm]. unfold load. cbn [no_faults io_open io_metadata io_read].
      rewrite (proj2 (Z.eqb_neq _ _)), (proj2 (Z.ltb_ge _ _)) by lia. cbn [orb]. by rewrite (protobuf_reads_back _ _ He).
Qed.

Lemma identity_damaged c b k :
  (∀ k, load no_faults (Some b) ≠ Ok k) → (load_or_create_peer_identity c (Some b)).1 ≠ Ok k.
Proof.
  intros Hd Hc. destruct (load_or_create_peer_identity c (Some b)) as [r file'] eqn:E. cbn in Hc. subst r.
  pose proof (identity_file_kept c b) as Hk. rewrite E in Hk. cbn in Hk. subst file'.
  apply identity_created in E as (b' & [= <-] & Hl). by apply Hd in Hl.
Qed.

(** C34. A node keeps its identity. No start of the node changes a file that exists, be it
    damaged or not; a start on a file that does not hold a key in its encoding returns
    no key, and in particular not a newly generated one. Once a start has returned a
    key, whatever later starts generate, whatever the operating system refuses them and
    whatever other processes try to create, the file holds that key: a start that is
    not refused anything returns it. *)
Theorem identity_stable :
  (∀ b (calls : list identity_call), foldl (λ file c, (load_or_create_peer_identity c file).2) (Some b) calls = Some b) ∧
  (∀ c b k, (∀ k, load no_faults (Some b) ≠ Ok k) → (load_or_create_peer_identity c (Some b)).1 ≠ Ok k) ∧
  ∀ c file k file' (calls : list identity_call),
    load_or_create_peer_identity c file = (Ok k, file') →
    let later := foldl (λ file c, (load_or_create_peer_identity c file).2) file' calls in
    later = file' ∧ ∀ c', ic_faults c' = no_faults → load_or_create_peer_identity c' later = (Ok k, later).
Proof.
  assert (∀ b (calls : list identity_call),
    foldl (λ file c, (load_or_create_peer_identity c file).2) (Some b) calls = Some b) as Hkeep.
  { intros b calls. induction calls as [|c' calls IH]; [done|]. cbn [foldl]. by rewrite identity_file_kept. }
  split; [exact Hkeep|]. split; [exact identity_damaged|]. intros c file k file' calls Hc.
  apply identity_created in Hc as (b & -> & Hl). cbn zeta. rewrite Hkeep.
  split; [done|]. intros c' Hf. unfold load_or_create_peer_identity. by rewrite Hf, Hl.
Qed.
End stable.

Module StartupWitness.
Import ServiceWitness.
#[local] Existing Instance toy_libp2p.

#[local] Instance toy_keypairs : Keypairs := {|
  Keypair := byte;
  keypair_peer k := byte_val k;
  to_protobuf_encoding k := Ok [k];
  from_protobuf_encoding b := match b with [k] => Ok k | _ => Err "invalid key"%string end;
|}.

#[local] Instance toy_keypair_laws : KeypairLaws.
Proof. split; intros k b; cbn; intros [= <-]; done. Qed.

Definition first_start : identity_call :=
  {| ic_faults := no_faults; ic_reload := no_faults; ic_meanwhile := None; ic_generated := x07 |}.

Definition refused_start : identity_call :=
  {| ic_faults := {| io_open := None; io_metadata := None; io_read := Some "input/output error"%string; io_create_dir := None;
                     io_create := None; io_write := None; io_sync := None |};
     ic_reload := no_faults; ic_meanwhile := None; ic_generated := x09 |}.

Definition second_start : identity_call :=
  {| ic_faults := no_faults; ic_reload := no_faults; ic_meanwhile := None; ic_generated := x08 |}.

Lemma identity_stable_witness :
  load_or_create_peer_identity second_start (Some [x07]) = (Ok x07, Some [x07]) ∧
  (load_or_create_peer_identity second_start (Some [x01; x02])).1 ≠ Ok x08 ∧
  (load_or_create_peer_identity second_start (Some [x01; x02])).2 = Some [x01; x02].
Proof.
  destruct identity_stable as (Hk & Hd & Hs). split; [|split].
  - exact (proj2 (Hs first_start None x07 (Some [x07]) [refused_start] eq_refl) second_start eq_refl).
  - apply Hd. intros k E. discriminate E.
  - exact (Hk [x01; x02] [second_start]).
Defined.
End StartupWitness.
