(* ===== verification/Cli.v ===== *)
(** The command line (src/crates/arbor-cli/src/main.rs): what its commands do to the
    configuration, the key file, the database and the engine of a data directory.

    Argument parsing and printing are left out; a command returns what it would print.
    The acceptance path of the development chain is an action on the engine. Main
    result: [smoke_sound] (when the path succeeds, both domains have been created and
    hold the deployed contract, and its checks of inclusion proofs never fail). *)

From Stdlib Require Import Strings.Byte Strings.String.
From S2P Require Import Prelude Bytes BTreeMap Primitives Canonical Cursor Rlp Crypto Ethereum StateError.
From S2P Require Import Snapshot DomainHeads System Registry Trie Mpt MptBuild Account Overlay Mempool Storage.
From S2P Require Import Evm Executor Merkle ChainBlock ChainState Chain Typing DevGenesis EngineCheckpoint Engine.
From S2P Require Import EngineRestart EngineSteps Protocol Sync SnapshotTransfer Peer Gossip Service Node Startup.

Local Open Scope Z_scope.

Definition DEV_FIXTURE_SENDER : bytes :=
  byte_of <$> [74; 98; 49; 102; 35; 173; 69; 127; 2; 205; 197; 217; 151; 222; 214; 122; 56; 62; 197; 105].
Definition M6_CHILD_CHAIN_ID : Z := 2049.
Definition M6_GRANDCHILD_CHAIN_ID : Z := 2050.

(** What the command line needs of k256 and alloy: the recoverable signature of the fixture key,
    64 bytes and the parity, and the address of a created contract. *)
Class FixtureSigner := {
  sign_prehash_recoverable : bytes → outcome string (bytes * bool);
  create_address : bytes → Z → bytes;
}.

(** Why the acceptance path was not accepted. *)
Inductive acceptance_failure :=
| AcceptText (text : string)
| AcceptRegistry (e : ChainRegistryError)
| AcceptCodec (e : CodecError)
| AcceptCrypto (e : CryptoError)
| AcceptSigner (text : string)
| AcceptEvm (e : EvmError)
| AcceptProof (e : ChainError)
| AcceptRoots.

Section commands.
Context `{Keccak, Secp256k1, AlloyRlp, !AlloyTrie, SenderRecovery, Journal, !Revm, AlloyRoots, ParityDb}.
Context `{Libp2p, !MdnsSd, !Keypairs, AlloyHex, Toml, FixtureSigner}.
Context (fuel : nat).

Inductive CliError :=
| CliConfig (e : ConfigError)
| CliCreate (source : string)
| CliWrite (source : string)
| CliStorage (e : StorageError)
| CliStartup (e : startup_error)
| CliConsensus (e : ConsensusError)
| DevValidatorRequiresDevConfig
| M6RequiresDevConfig
| M6RequiresFreshChain
| M6Acceptance (why : acceptance_failure).

(** ** Initializing, running and inspecting *)

(** A data directory: the text of its configuration and its key file. *)
Record data_dir := {
  dd_config : option string;
  dd_key : key_file;
}.

(** [init]: [created] and [written] are what creating the directory and writing the
    file return, a failed write with what it left of the file; [opened] and [reopened]
    are what opening the database does the first and the second time. *)
Definition init (created : outcome string unit) (written : outcome (string * option string) unit) (opened reopened : outcome string Db) (c : identity_call) (dev : bool)
    (dir : data_dir) : outcome CliError unit * data_dir :=
  match map_err CliCreate created with
  | Ok _ =>
      let config :=
        {| cf_version := cf_version default_node_config;
           cf_node :=
             {| nf_moniker := nf_moniker (cf_node default_node_config); nf_dev := dev;
                nf_domains := nf_domains (cf_node default_node_config) |};
           cf_network := cf_network default_node_config |} in
      match map_err CliConfig (to_toml config) with
      | Ok text =>
          match written with
          | Ok _ =>
              let dir := {| dd_config := Some text; dd_key := dd_key dir |} in
              match map_err CliStorage (open_node_database opened) with
              | Ok _ =>
                  if dev then
                    let '(r, key) := initialize_dev_chain fuel reopened c (dd_key dir) in
                    (map_err CliStartup r, {| dd_config := dd_config dir; dd_key := key |})
                  else (Ok tt, dir)
              | Err e => (Err e, dir)
              | Panic m => (Panic m, dir)
              end
          | Err (source, left_over) => (Err (CliWrite source), {| dd_config := left_over; dd_key := dd_key dir |})
          | Panic m => (Panic m, dir)
          end
      | Err e => (Err e, dir)
      | Panic m => (Panic m, dir)
      end
  | Err e => (Err e, dir)
  | Panic m => (Panic m, dir)
  end.

(** The service [run] hands to the supervisor. *)
Inductive service_kind :=
| ValidatorService (history : HistorySubscription) (network : NetworkConfig)
| ListenerService (history : HistorySubscription) (network : NetworkConfig)
| PlaceholderService.

Definition run (read : outcome string string) (opened : outcome string Db) (dev_validator : bool)
    : outcome CliError service_kind :=
  let? config := map_err CliConfig (load_config read) in
  run? map_err CliStorage (open_node_database opened) in
  if dev_validator && negb (nf_dev (cf_node config)) then Err DevValidatorRequiresDevConfig
  else if dev_validator then Ok (ValidatorService (nf_domains (cf_node config)) (cf_network config))
  else if nf_dev (cf_node config) then Ok (ListenerService (nf_domains (cf_node config)) (cf_network config))
  else Ok PlaceholderService.

(** What [inspect] prints: the configuration's version and moniker, the database's
    schema and marker, and the numbers of roots and of unhealthy roots. *)
Definition inspect_node (read : outcome string string) (opened : outcome string Db)
    : outcome CliError (Z * list Z * Z * option FinalizedMarker * Z * Z) :=
  let? config := map_err CliConfig (load_config read) in
  let? database := map_err CliStorage (open_node_database opened) in
  let? inspection := map_err CliStorage (inspect fuel database) in
  let unhealthy := List.filter (λ r, match rh_error r with Some _ => true | None => false end) (di_roots inspection) in
  Ok (cf_version config, nf_moniker (cf_node config), di_schema_version inspection, di_finalized inspection,
      zlen (di_roots inspection), zlen unhealthy).

(** ** The acceptance path *)

Definition cli (A : Type) : Type := SingleValidatorEngine → outcome CliError A * SingleValidatorEngine.

Definition cret {A : Type} (a : A) : cli A := λ e, (Ok a, e).

Definition cbind {A B : Type} (c : cli A) (k : A → cli B) : cli B := λ e,
  match c e with
  | (Ok a, e) => k a e
  | (Err x, e) => (Err x, e)
  | (Panic m, e) => (Panic m, e)
  end.

(** The engine, an outcome that does not touch it, and a call of it. *)
Definition cget : cli SingleValidatorEngine := λ e, (Ok e, e).
Definition clift {E A : Type} (why : E → CliError) (c : outcome E A) : cli A := λ e, (map_err why c, e).
Definition ccall {A : Type} (f : SingleValidatorEngine → outcome ConsensusError A * SingleValidatorEngine) : cli A := λ e,
  let '(r, e) := f e in (map_err CliConsensus r, e).

Definition accept {E A : Type} (why : E → acceptance_failure) (c : outcome E A) : cli A := clift (λ e, M6Acceptance (why e)) c.
Definition present {A : Type} (o : option A) (text : string) : cli A := clift (λ _, M6Acceptance (AcceptText text)) (ok_or o tt).
End commands.

Declare Scope cli_scope.
Delimit Scope cli_scope with cli.
Notation "'let*' x ':=' c 'in' k" := (cbind c (fun x => k))
  (at level 10, x name, c at level 100, k at level 200) : cli_scope.
Notation "'run*' c 'in' k" := (cbind c (fun _ => k))
  (at level 10, c at level 100, k at level 200) : cli_scope.
Local Open Scope cli_scope.

Section smoke.
Context `{Keccak, Secp256k1, AlloyRlp, !AlloyTrie, SenderRecovery, Journal, !Revm, AlloyRoots, ParityDb}.
Context `{Libp2p, !MdnsSd, !Keypairs, AlloyHex, Toml, FixtureSigner}.

Definition sign_dev_transaction (t : Eip1559Transaction) : outcome acceptance_failure bytes :=
  let? payload := map_err AcceptCodec (encode_eip1559_signing_payload t) in
  let? signed := map_err AcceptSigner (sign_prehash_recoverable (keccak256 payload)) in
  let signature := signed.1 in
  let t :=
    {| tx_chain_id := tx_chain_id t; tx_nonce := tx_nonce t; tx_max_priority_fee_per_gas := tx_max_priority_fee_per_gas t;
       tx_max_fee_per_gas := tx_max_fee_per_gas t; tx_gas_limit := tx_gas_limit t; tx_to := tx_to t; tx_value := tx_value t;
       tx_input := tx_input t; tx_access_list := tx_access_list t; tx_y_parity := signed.2;
       tx_r := from_be_bytes (take 32 signature); tx_s := from_be_bytes (drop 32 signature) |} in
  map_err AcceptCodec (encode_eip1559 t).

Definition create_domain_transaction (root_chain_id nonce : Z) (parent_domain_id : DomainId) (evm_chain_id : Z)
    (name symbol : string) : outcome acceptance_failure bytes :=
  let? input :=
    map_err AcceptRegistry
      (encode_create_chain_call
         {| rq_parent_domain_id := parent_domain_id; rq_name := bstr name; rq_symbol := bstr symbol;
            rq_evm_chain_id := evm_chain_id; rq_owner := DEV_FIXTURE_SENDER; rq_gas_limit := 20000000;
            rq_initial_base_fee := 1000000000; rq_initial_supply := 10 ^ 18; rq_protocol_revision := 1 |}) in
  sign_dev_transaction
    {| tx_chain_id := root_chain_id; tx_nonce := nonce; tx_max_priority_fee_per_gas := 1;
       tx_max_fee_per_gas := 2000000000; tx_gas_limit := 500000; tx_to := Some CHAIN_REGISTRY_ADDRESS;
       tx_value := MIN_CREATION_DEPOSIT; tx_input := input; tx_access_list := []; tx_y_parity := false; tx_r := 0; tx_s := 0 |}.

Definition deploy_transaction (chain_id : Z) : outcome acceptance_failure bytes :=
  let runtime := [96; 0; 96; 0; 243] in
  let length := zlen runtime in
  let initcode := byte_of <$> ([96; length; 96; 12; 96; 0; 57; 96; length; 96; 0; 243] ++ runtime) in
  sign_dev_transaction
    {| tx_chain_id := chain_id; tx_nonce := 0; tx_max_priority_fee_per_gas := 1; tx_max_fee_per_gas := 2000000000;
       tx_gas_limit := 250000; tx_to := None; tx_value := 0; tx_input := initcode; tx_access_list := [];
       tx_y_parity := false; tx_r := 0; tx_s := 0 |}.

Definition created_domain_id (envelope : bytes) (parent : DomainId) : outcome acceptance_failure DomainId :=
  let? transaction := map_err AcceptCodec (decode_eip1559 envelope) in
  let? hash := map_err AcceptCrypto (eip1559_transaction_hash transaction) in
  Ok (derive_domain_id (id_network_id dev_database_identity) parent hash).

(** The timestamp after that of the finalized state. *)
Definition next_timestamp : cli Z :=
  let* e := cget in
  present (checked_add 64 (fs_timestamp (en_finalized e)) 1) "timestamp overflow".

Definition produce_next : cli unit :=
  let* timestamp := next_timestamp in
  run* ccall (λ e, produce_block e timestamp) in
  cret tt.

Definition require_domain (domain_id : DomainId) (label : string) : cli unit :=
  let* e := cget in
  run* present (domain (en_finalized e) domain_id) (label ++ " domain was not finalized") in
  cret tt.

Definition require_contract (domain_id : DomainId) (contract : bytes) (label : string) : cli unit :=
  let* e := cget in
  let* fd := present (domain (en_finalized e) domain_id) (label ++ " domain is absent") in
  let* found := accept AcceptEvm (state_account (fd_state fd) contract) in
  let* account := present found (label ++ " contract account is absent") in
  if bcontains (code_hash account) (es_contract_code (fd_state fd)) then cret tt
  else clift id (Err (M6Acceptance (AcceptText (label ++ " contract code is absent")))).

(** One domain created by a transaction of the root domain and finalized. *)
Definition create_domain (root : DomainId) (root_chain_id nonce : Z) (parent : DomainId) (chain_id : Z)
    (name symbol label : string) : cli DomainId :=
  let* envelope := accept id (create_domain_transaction root_chain_id nonce parent chain_id name symbol) in
  let* domain_id := accept id (created_domain_id envelope parent) in
  run* ccall (λ e, submit_raw e root envelope) in
  run* produce_next in
  run* require_domain domain_id label in
  cret domain_id.

(** The proof of a domain's result in the pending block, checked. *)
Definition checked_proof (block : ConsensusBlock) (domain_id : DomainId) (label : string) : cli DomainResultProof :=
  let* found := accept AcceptProof (block_result_proof block domain_id) in
  present found (label ++ " result proof is absent").

(** What the command prints. *)
Record smoke_report := {
  sm_child : DomainId;
  sm_grandchild : DomainId;
  sm_contract : bytes;
  sm_child_root : bytes;
  sm_grandchild_root : bytes;
  sm_block : ConsensusBlock;
}.

(** The part of [m6_smoke] after the domains exist: one block with a contract in each. *)
Definition deploy_contracts (child grandchild : DomainId) : cli smoke_report :=
  let* child_deploy := accept id (deploy_transaction M6_CHILD_CHAIN_ID) in
  let* grandchild_deploy := accept id (deploy_transaction M6_GRANDCHILD_CHAIN_ID) in
  run* ccall (λ e, submit_raw e child child_deploy) in
  run* ccall (λ e, submit_raw e grandchild grandchild_deploy) in
  let* timestamp := next_timestamp in
  let* proposal := ccall (λ e, engine_build_proposal e timestamp) in
  let* e := cget in
  let* block := present (pending_block e proposal) "pending M6 proposal disappeared" in
  let* child_proof := checked_proof block child "child" in
  let* grandchild_proof := checked_proof block grandchild "grandchild" in
  run* accept AcceptProof (verify_result child_proof) in
  run* accept AcceptProof (verify_result grandchild_proof) in
  if negb (bool_decide (rp_root child_proof = rp_root grandchild_proof)) ||
     negb (bool_decide (rp_root child_proof = ch_domain_results_root (cb_header block)))
  then clift id (Err (M6Acceptance AcceptRoots))
  else
    run* ccall (λ e, commit_proposal e proposal) in
    let contract := create_address DEV_FIXTURE_SENDER 0 in
    run* require_contract child contract "child" in
    run* require_contract grandchild contract "grandchild" in
    let* e := cget in
    if negb (bool_decide (fs_consensus_hash (en_finalized e) = proposal))
    then clift id (Err (M6Acceptance (AcceptText "committed hash differs from verified proposal")))
    else
      cret {| sm_child := child; sm_grandchild := grandchild; sm_contract := contract;
              sm_child_root := rp_root child_proof; sm_grandchild_root := rp_root grandchild_proof; sm_block := block |}.

(** [m6_smoke] on the engine it has opened. *)
Definition m6_smoke : cli smoke_report :=
  let* e := cget in
  if negb (fs_height (en_finalized e) =? 0) then clift id (Err M6RequiresFreshChain)
  else
    let root := fs_root_domain_id (en_finalized e) in
    let* fd := present (domain (en_finalized e) root) "root domain is absent" in
    let root_chain_id := dc_chain_id (fd_config fd) in
    let* child := create_domain root root_chain_id 0 root M6_CHILD_CHAIN_ID "M6 Child" "M6C" "child" in
    let* grandchild := create_domain root root_chain_id 1 child M6_GRANDCHILD_CHAIN_ID "M6 Grandchild" "M6G" "grandchild" in
    deploy_contracts child grandchild.

(** [m6_smoke]: [read] and [opened] are what reading the configuration and opening the
    database return. *)
Definition smoke_command (fuel : nat) (read : outcome string string) (opened : outcome string Db)
    : outcome CliError smoke_report :=
  let? config := map_err CliConfig (load_config read) in
  if negb (nf_dev (cf_node config)) then Err M6RequiresDevConfig
  else
    let? e := map_err (λ e, CliStartup (StartupNode e)) (open_dev_engine fuel opened (nf_domains (cf_node config))).1 in
    (m6_smoke e).1.
End smoke.

(** ** What the acceptance path shows *)

Section sound.
Context `{Keccak, Secp256k1, AlloyRlp, !AlloyTrie, SenderRecovery, Journal, !Revm, AlloyRoots, ParityDb}.
Context `{!AlloyRlpLaws, !RevmTyped, !BloomTyped, !AlloyRootsLaws, !ParityDbLaws}.
Context `{Libp2p, !MdnsSd, !Keypairs, AlloyHex, Toml, FixtureSigner}.

(** The checks of inclusion proofs have not failed. *)
Definition proofs_fine (x : CliError) : Prop :=
  match x with
  | M6Acceptance (AcceptProof _) | M6Acceptance AcceptRoots => False
  | _ => True
  end.

(** The action has left an engine in order with [Q], or failed for another reason than
    a proof. *)
Definition fine {A : Type} (res : outcome CliError A * SingleValidatorEngine) (Q : A → SingleValidatorEngine → Prop) : Prop :=
  match res with
  | (Ok a, e) => engine_ok e ∧ Q a e
  | (Err x, _) => proofs_fine x
  | (Panic _, _) => True
  end.

Lemma fine_bind {A B : Type} (c : cli A) (k : A → cli B) e Q R :
  fine (c e) Q → (∀ a e', engine_ok e' → Q a e' → fine (k a e') R) → fine (cbind c k e) R.
Proof.
  intros Hc Hk. unfold cbind. destruct (c e) as [[a|x|m] e']; [|done..]. destruct Hc. by apply Hk.
Qed.

Lemma fine_lift {E A : Type} (why : E → CliError) (c : outcome E A) e :
  engine_ok e → (∀ x, c = Err x → proofs_fine (why x)) → fine (clift why c e) (λ a e', c = Ok a ∧ e' = e).
Proof. intros He Hw. unfold clift. destruct c as [a|x|m]; cbn; auto. Qed.

Lemma fine_present {A : Type} (o : option A) text e :
  engine_ok e → fine (present o text e) (λ a e', o = Some a ∧ e' = e).
Proof. intros He. by destruct o. Qed.

Lemma fine_call {A : Type} (f : SingleValidatorEngine → outcome ConsensusError A * SingleValidatorEngine) e :
  (∀ r e', f e = (r, e') → returns r → engine_ok e') → fine (ccall f e) (λ _ _, True).
Proof.
  intros Hf. unfold ccall. destruct (f e) as [r e'] eqn:E. specialize (Hf _ _ eq_refl).
  destruct r as [a|x|m]; cbn; [|done..]. split; [|done]. by apply Hf.
Qed.

(** The results of a proposal are committed to by its header, and their proofs verify. *)
Lemma executed_results parent batches ts proposer vp :
  execute parent batches ts proposer = Ok vp →
  domain_results_root (cb_domain_blocks (vp_block vp)) = Ok (ch_domain_results_root (cb_header (vp_block vp))).
Proof.
  unfold execute. intros He. apply obind_Ok in He as ([] & _ & He). destruct (_ <? _); [done|].
  apply obind_Ok in He as (height & _ & He). apply obind_Ok in He as (x & _ & He). apply obind_Ok in He as (br & _ & He).
  apply obind_Ok in He as (rr & Hr & He). apply obind_Ok in He as (enc & _ & He). destruct (_ <? _); [done|].
  by apply obind_Ok in He as (hash & _ & [= <-]).
Qed.

Lemma block_proofs block domain_id :
  domain_results_root (cb_domain_blocks block) = Ok (ch_domain_results_root (cb_header block)) →
  block_result_proof block domain_id = Ok None ∨
  ∃ p, block_result_proof block domain_id = Ok (Some p) ∧ rp_root p = ch_domain_results_root (cb_header block) ∧
    dh_domain_id (rp_result p) = domain_id ∧ verify_result p = Ok tt.
Proof.
  intros Hr. destruct (decide (domain_id ∈ dh_domain_id <$> cb_domain_blocks block)) as [Hin|Hn].
  - right. apply list_elem_of_fmap in Hin as (b & -> & Hb).
    destruct (result_proof_complete _ _ (dh_domain_id b) Hr) as (p & Hp & Hroot & Hid & _ & _ & Hv); [by exists b|]. by exists p.
  - left. unfold block_result_proof, domain_result_proof.
    destruct (result_position _ _ _) as [[i b]|] eqn:E; [|done]. exfalso. apply Hn.
    pose proof (result_position_spec domain_id (cb_domain_blocks block) 0 ltac:(lia)) as Hs. rewrite E in Hs.
    destruct Hs as (_ & Hl & Hid). apply list_elem_of_fmap. exists b. split; [done|]. by apply list_elem_of_lookup_2 in Hl.
Qed.

(** The block of a pending proposal. *)
Definition provable (block : ConsensusBlock) (id : bytes) : Prop :=
  domain_results_root (cb_domain_blocks block) = Ok (ch_domain_results_root (cb_header block)) ∧ block_hash_of block = Ok id.

Lemma pending_provable e id block : engine_ok e → pending_block e id = Some block → provable block id.
Proof.
  intros Hok. unfold pending_block. destruct (en_pending e) as [p|] eqn:Ep; [|done].
  destruct (bool_decide_reflect (pp_id p = id)) as [<-|]; [|done]. intros [= <-].
  destruct (eo_pending _ Hok _ Ep) as [(batches & ts & _ & _ & He) Hid _]. split; [by apply executed_results in He|done].
Qed.

Lemma fine_timestamp e : engine_ok e → fine (next_timestamp e) (λ ts _, u64 ts).
Proof.
  intros He. unfold next_timestamp, cbind, cget, present, clift.
  destruct (checked_add 64 (fs_timestamp (en_finalized e)) 1) as [ts|] eqn:E; [|done]. cbn.
  apply checked_add_Some in E as [-> Hlt]. pose proof (ty_timestamp _ (rv_typed _ _ _ (eo_recovers _ He))) as Ht.
  split; [done|]. unfold fits in *. lia.
Qed.

Lemma fine_submit domain_id envelope e : engine_ok e → fine (ccall (λ e, submit_raw e domain_id envelope) e) (λ _ _, True).
Proof. intros He. apply fine_call. intros r e' E _. by eapply submit_ok. Qed.

Lemma fine_produce e : engine_ok e → fine (produce_next e) (λ _ _, True).
Proof.
  intros He. eapply fine_bind; [by apply fine_timestamp|]. intros ts e1 He1 Hts.
  eapply fine_bind; [|by intros event e2 He2 _]. apply fine_call. intros r e' E Hr.
  exact (produce_ok _ _ _ _ He1 Hts Hr E).
Qed.

(** Building the transactions fails for other reasons. *)
Definition unproved (x : acceptance_failure) : Prop := proofs_fine (M6Acceptance x).

Lemma map_err_unproved {E A : Type} (why : E → acceptance_failure) (c : outcome E A) x :
  (∀ e, unproved (why e)) → map_err why c = Err x → unproved x.
Proof. intros Hw. destruct c; cbn; [done| |done]. intros [= <-]. apply Hw. Qed.

Lemma sign_unproved t x : sign_dev_transaction t = Err x → unproved x.
Proof.
  unfold sign_dev_transaction. destruct (map_err AcceptCodec _) as [p|e|m] eqn:E; cbn [obind]; [| |done].
  - clear E. destruct (map_err AcceptSigner _) as [s|e|m] eqn:E; cbn [obind]; [| |done].
    + by apply map_err_unproved.
    + intros [= <-]. by eapply map_err_unproved in E.
  - intros [= <-]. by eapply map_err_unproved in E.
Qed.

Lemma create_unproved chain_id nonce parent evm_chain_id name symbol x :
  create_domain_transaction chain_id nonce parent evm_chain_id name symbol = Err x → unproved x.
Proof.
  unfold create_domain_transaction. destruct (map_err AcceptRegistry _) as [p|e|m] eqn:E; cbn [obind]; [| |done].
  - apply sign_unproved.
  - intros [= <-]. by eapply map_err_unproved in E.
Qed.

Lemma created_unproved envelope parent x : created_domain_id envelope parent = Err x → unproved x.
Proof.
  unfold created_domain_id. destruct (map_err AcceptCodec _) as [p|e|m] eqn:E; cbn [obind]; [| |done].
  - clear E. destruct (map_err AcceptCrypto _) as [s|e|m] eqn:E; cbn [obind]; [done| |done]. intros [= <-]. by eapply map_err_unproved in E.
  - intros [= <-]. by eapply map_err_unproved in E.
Qed.

Lemma fine_create root chain_id nonce parent evm_chain_id name symbol label e :
  engine_ok e → fine (create_domain root chain_id nonce parent evm_chain_id name symbol label e) (λ _ _, True).
Proof.
  intros He. unfold create_domain, accept.
  eapply fine_bind; [apply fine_lift; [done|apply create_unproved]|]. intros envelope e1 He1 _.
  eapply fine_bind; [apply fine_lift; [done|apply created_unproved]|]. intros domain_id e2 He2 _.
  eapply fine_bind; [by apply fine_submit|]. intros _ e3 He3 _.
  eapply fine_bind; [by apply fine_produce|]. intros _ e4 He4 _.
  eapply (fine_bind _ _ _ (λ _ _, True)); [|by intros _ e5 He5 _].
  unfold require_domain. unfold cbind at 1, cget. eapply fine_bind; [by apply fine_present|]. by intros fd e5 He5 _.
Qed.

(** The domain is finalized and holds the contract with its code. *)
Definition holds_contract (e : SingleValidatorEngine) (domain_id : DomainId) (contract : bytes) : Prop :=
  ∃ fd account, domain (en_finalized e) domain_id = Some fd ∧ state_account (fd_state fd) contract = Ok (Some account) ∧
    bcontains (code_hash account) (es_contract_code (fd_state fd)) = true.

Lemma fine_contract domain_id contract label e :
  engine_ok e → fine (require_contract domain_id contract label e) (λ _ e', e' = e ∧ holds_contract e domain_id contract).
Proof.
  intros He. unfold require_contract, accept. unfold cbind at 1, cget.
  eapply fine_bind; [by apply fine_present|]. intros fd e1 He1 [Hd ->].
  eapply fine_bind; [by apply fine_lift|]. intros found e1 _ [Hs ->].
  eapply fine_bind; [by apply fine_present|]. intros account e1 _ [Hf ->]. subst found.
  destruct (bcontains _ _) eqn:Hb; [|done]. split; [done|]. split; [done|]. by exists fd, account.
Qed.

Lemma fine_proof block id domain_id label e :
  engine_ok e → provable block id →
  fine (checked_proof block domain_id label e)
    (λ p e', e' = e ∧ block_result_proof block domain_id = Ok (Some p) ∧
       rp_root p = ch_domain_results_root (cb_header block) ∧ verify_result p = Ok tt).
Proof.
  intros He [Hr _]. unfold checked_proof, accept, clift, cbind.
  destruct (block_proofs block domain_id Hr) as [->|(p & -> & H1' & _ & H3')]; [done|]. by cbn.
Qed.

(** What the report of the path says of the engine it leaves. *)
Record smoke_holds (report : smoke_report) (e : SingleValidatorEngine) : Prop := {
  sh_child : holds_contract e (sm_child report) (sm_contract report);
  sh_grandchild : holds_contract e (sm_grandchild report) (sm_contract report);
  sh_roots : sm_child_root report = ch_domain_results_root (cb_header (sm_block report)) ∧
    sm_grandchild_root report = ch_domain_results_root (cb_header (sm_block report));
  sh_proofs : ∃ p q, block_result_proof (sm_block report) (sm_child report) = Ok (Some p) ∧ verify_result p = Ok tt ∧
    block_result_proof (sm_block report) (sm_grandchild report) = Ok (Some q) ∧ verify_result q = Ok tt;
  sh_finalized : block_hash_of (sm_block report) = Ok (fs_consensus_hash (en_finalized e));
}.

(** The rest of the path once the proofs have been obtained. *)
Lemma fine_commit block id child grandchild contract root root' e :
  engine_ok e → provable block id → root = ch_domain_results_root (cb_header block) → root' = ch_domain_results_root (cb_header block) →
  (∃ p q, block_result_proof block child = Ok (Some p) ∧ verify_result p = Ok tt ∧
     block_result_proof block grandchild = Ok (Some q) ∧ verify_result q = Ok tt) →
  fine ((run* ccall (λ e, commit_proposal e id) in
         run* require_contract child contract "child" in
         run* require_contract grandchild contract "grandchild" in
         let* e := cget in
         if negb (bool_decide (fs_consensus_hash (en_finalized e) = id))
         then clift (λ x, x) (Err (M6Acceptance (AcceptText "committed hash differs from verified proposal")))
         else cret {| sm_child := child; sm_grandchild := grandchild; sm_contract := contract; sm_child_root := root;
                      sm_grandchild_root := root'; sm_block := block |}) e) smoke_holds.
Proof.
  intros He [_ Hid] -> -> Hp. eapply fine_bind; [apply fine_call; intros r e' E Hr; exact (commit_ok _ _ _ _ He Hr E)|].
  intros _ e1 He1 _. eapply fine_bind; [by apply fine_contract|]. intros _ e2 _ [-> Hc].
  eapply fine_bind; [by apply fine_contract|]. intros _ e2 _ [-> Hg]. unfold cbind, cget.
  destruct (bool_decide_reflect (fs_consensus_hash (en_finalized e1) = id)) as [E|]; [|done]. cbn [negb cret fine].
  split; [done|]. split; cbn; try done. by rewrite E.
Qed.

Lemma deploy_unproved chain_id x : deploy_transaction chain_id = Err x → unproved x.
Proof. apply sign_unproved. Qed.

Lemma fine_deploy child grandchild e : engine_ok e → fine (deploy_contracts child grandchild e) smoke_holds.
Proof.
  intros He. unfold deploy_contracts, accept.
  eapply fine_bind; [apply fine_lift; [done|apply deploy_unproved]|]. intros d1 e1 He1 _.
  eapply fine_bind; [apply fine_lift; [done|apply deploy_unproved]|]. intros d2 e2 He2 _.
  eapply fine_bind; [by apply fine_submit|]. intros _ e3 He3 _. eapply fine_bind; [by apply fine_submit|]. intros _ e4 He4 _.
  eapply fine_bind; [by apply fine_timestamp|]. intros ts e5 He5 Hts.
  eapply fine_bind; [apply fine_call; intros r e' E _; exact (engine_build_ok _ _ _ _ He5 Hts E)|]. intros id e6 He6 _.
  unfold cbind at 1, cget at 1. eapply fine_bind; [by apply fine_present|]. intros block e7 _ [Hb ->].
  pose proof (pending_provable _ _ _ He6 Hb) as Hp.
  eapply fine_bind; [by eapply fine_proof|]. intros p e7 _ (-> & Hp1 & Hp2 & Hp3).
  eapply fine_bind; [by eapply fine_proof|]. intros q e7 _ (-> & Hq1 & Hq2 & Hq3).
  eapply fine_bind; [apply fine_lift; [done|by rewrite Hp3]|]. intros _ e7 _ [_ ->].
  eapply fine_bind; [apply fine_lift; [done|by rewrite Hq3]|]. intros _ e7 _ [_ ->].
  rewrite !bool_decide_eq_true_2 by congruence. cbn [negb orb]. apply fine_commit; try done. by exists p, q.
Qed.

(** What the acceptance command of the development chain shows. Run on an engine of
    the invariant, it never fails at its checks of inclusion proofs: the proofs it obtains
    from the pending block verify and are rooted in the block's header. When it succeeds
    the engine it leaves satisfies the invariant, has finalized the block whose proofs
    were checked, and both created domains are finalized and hold the deployed contract
    with its code. *)
Theorem smoke_sound e r e' :
  engine_ok e → m6_smoke e = (r, e') →
  match r with
  | Ok report => engine_ok e' ∧ smoke_holds report e'
  | Err x => proofs_fine x
  | Panic _ => True
  end.
Proof.
  intros He Hm. assert (fine (m6_smoke e) smoke_holds) as Hf; [|rewrite Hm in Hf; by destruct r]. clear Hm.
  unfold m6_smoke. unfold cbind at 1, cget at 1. destruct (negb _); [done|].
  eapply fine_bind; [by apply fine_present|]. intros fd e1 He1 _. eapply fine_bind; [by apply fine_create|].
  intros child e2 He2 _. eapply fine_bind; [by apply fine_create|]. intros grandchild e3 He3 _. by apply fine_deploy.
Qed.
End sound.
